(* ===== verification/_CoqProject ===== *)
-Q . S2P
Prelude.v
Memory.v
Buffer.v
BufferInv.v
BufferOps.v
BufferCopy.v
BufferRead.v
BufferProps.v
BufferViews.v
Timer.v
TimerInv.v
TimerProps.v
FiberSync.v
FiberWorld.v
FiberProps.v
Stream.v
StreamMemory.v
StreamFilters.v
StreamProps.v
StreamBuffered.v
BufferedProps.v
Chunked.v
ChunkedProps.v
Pipe.v
PipeWorld.v
PipeInv.v
PipeProps.v
Strings.v
StringProps.v
Transfer.v
FiberCore.v
FiberCoreInv.v
FiberCoreSteps.v
FiberCoreProps.v
Scheduler.v
SchedulerProps.v
Pool.v
PoolInv.v
PoolProps.v
Future.v
FutureProps.v
IOManager.v
IOManagerInv.v
IOManagerSteps.v
IOManagerProps.v
Notify.v
Http.v
HttpProps.v
Connection.v
ConnectionProps.v
Server.v
ServerResponse.v
ServerResponseProps.v
ServerWorld.v
ServerInv.v
ServerSteps.v
ServerProps.v
Client.v
ClientHeaders.v
ClientWorld.v
ClientInv.v
ClientSteps.v
ClientSending.v
ClientReading.v
ClientFailing.v
ClientProps.v
HttpNames.v
ClientHeadersProps.v
Broker.v
BrokerInv.v
BrokerProps.v
Uri.v
UriProps.v
UriQuery.v
Servlet.v
PgPool.v
Timeout.v
Throttle.v
BrokerRequests.v
BrokerRequestsProps.v
