(* ===== verification/Prelude.v ===== *)
(** * Mordor: a verification of the core of the library

    Mordor is a C++ library for I/O: fibers with their synchronization and scheduling, timers, a
    [Buffer] of reference counted segments, and streams that are stacked as filters, up to HTTP.
    This development models the parts that carry the library's own logic, as functions that run,
    and proves what makes them correct.  Paths below are under [src/mordor/].

    ** How the code is modelled

    - Unsigned 64- and 32-bit arithmetic is on [Z] with the wrap-around written out ([u64], [u32], [s64], [s32]).
    - A call gives a [result]: a value, an exception ([Thrown]), a failed [MORDOR_ASSERT]
      ([Assertion]), or something the language leaves undefined ([Undefined]).  Assertions are on, as in
      a debug build.
    - A loop that is not structural has fuel and gives [Diverges] when that runs out.  Every theorem about such a function
      says that the fuel the model passes is enough: the length of a list plus one, the number of
      bytes left, or the number of segments.
    - Methods of streams are in the monad [op] of [Stream.v]: what a method changed before it threw stays changed.
    - A fiber that yields ends a critical section; what the sections of several fibers can do in turn is a
      step relation ([FiberWorld.v], [PipeWorld.v], [ServerWorld.v], [ClientWorld.v], [Broker.v], [PgPool.v], [Timeout.v], and with threads [FiberCore.v], [Pool.v] and [Future.v]), and invariants hold in every state that can be reached.

    ** The files

    - [Prelude.v]: machine words, results, lists indexed by machine integers, tactics.
    - [Memory.v]: arrays of bytes shared by several owners, and pointers into them.
    - [Buffer.v]: [streams/buffer.cpp], every operation, on a heap of shared arrays.  [BufferInv.v] has the
      invariant and the bytes a buffer holds; [BufferOps.v] reserve, adopt, compact, clear, produce, consume and truncate; [BufferCopy.v]
      the copies between buffers and of memory; [BufferRead.v] copying out, searching and comparing.  The theorems are in [BufferProps.v] and [BufferViews.v]: each operation does to the bytes what its
      name says, keeps the invariant the code checks and trips no assertion; copies share arrays and yet never see each other's changes.
    - [Timer.v]: [timer.cpp], with the ordered set of timers and the manager's mutex.  [TimerInv.v] shows that the
      set stays ordered and that its operations find what they look for, [TimerProps.v] that
      exactly the timers that are due fire, in order and once, and that a thread that sleeps until the next timer is woken when an
      earlier one is set.
    - [FiberSync.v]: [fibersynchronization.cpp].  [FiberWorld.v] has fibers that lock, unlock, wait and signal in any order;
      [FiberProps.v] shows mutual exclusion, that no assertion fails, that no wakeup is lost and in which order the
      mutex is handed on, and is about the semaphore, the event and the recursive mutex.
    - [Stream.v]: the interface of [streams/stream.h] as a class, and classes that say what a stream promises to the one above it:
      [Source], [Sink], [WholeSink] and [LineSource].  The proofs about a filter use these only, and the streams below are instances.
    - [StreamMemory.v]: [streams/memory.cpp] refines a file in memory.
    - [StreamFilters.v]: [streams/filter.h], [limited], [counter], [singleplex], [null], [zero] and [cat];
      [StreamProps.v] proves them sources over any source.
    - [StreamBuffered.v]: [streams/buffered.cpp]; [BufferedProps.v] is about reading, lines and writing.
    - [Chunked.v]: [http/chunked.cpp]; [ChunkedProps.v] has the format of the coding and the round trip.
    - [Pipe.v]: [streams/pipe.cpp]; [PipeWorld.v] is the step relation, [PipeInv.v] the invariant and what
      each method does to it, [PipeProps.v] the theorems: bytes arrive once and in order, no wakeup is lost, no assertion fails.
    - [Strings.v]: [string.cpp]; [StringProps.v] has the round trips of base64 and hexadecimal text, and splitting.
    - [Transfer.v]: [streams/transfer.cpp] and the [parallel_do] it uses, with its theorem.

    - [FiberCore.v]: [fiber.cpp], with the context each fiber leaves behind and the thread it is on.  [FiberCoreInv.v] has the
      invariant of all fibers and threads, [FiberCoreSteps.v] shows that every method keeps it, [FiberCoreProps.v]
      that a stack is never run by two threads, that a switch always goes to a saved context, that what a method asserts after it was
      switched back to holds, and what fiber-local storage gives back.
    - [Scheduler.v]: [scheduler.cpp]: queue, batches, number of threads; [SchedulerProps.v] says what a thread takes and leaves.
      [Pool.v] puts the threads of a [WorkerPool] together with those who schedule, stop and change the number of threads; [PoolInv.v] has the invariant and [PoolProps.v] shows
      that no work is lost or done twice, and, as long as no threads are taken away, that the pool does not sleep while there is work and that it ends when it is stopped.
    - [Future.v]: [future.h], with a waiter and any number of signallers between their atomic operations, and [waitAll] and [waitAny] with signals that
      arrive at any time.  [FutureProps.v] shows that no signal is lost and what waiting for several futures does.

    - [IOManager.v]: [iomanager_epoll.cpp] over a class of what epoll promises: the events that are registered, the events that arrive and the idle loop.
      [IOManagerInv.v] has the invariant, [IOManagerSteps.v] what each method and the idle loop do to it; [IOManagerProps.v] shows that
      every registered task is scheduled once or taken back, that what epoll watches is what is registered, and how long a thread sleeps.
    - [Notify.v]: [streams/notify.h], with what was notified as a log.
    - [Http.v]: the types and the printing of [http/http.h] and [http/http.cpp]; [HttpProps.v] has the round trips of quoted text and qualities, and what
      negotiation chooses.
    - [Connection.v]: [http/connection.cpp], which puts [SingleplexStream], [ChunkedStream] or [LimitedStream] and [NotifyStream] on the connection, and the checks of a
      request in [http/server.cpp]; [ConnectionProps.v] shows that a body arrives as it was sent and that every accepted request has a body that can be read.
    - [Server.v]: the critical sections of [http/server.cpp]; [ServerWorld.v] has a fiber for each request of a connection, which reads, handles, waits for its turn,
      responds, fails or is cancelled, in any order.  [ServerInv.v] is the invariant, [ServerSteps.v] what each section does to it; [ServerProps.v] shows, for requests that are used by
      their own fiber only, that no assertion about the queue fails, that responses are sent in the order of the requests, that no request waits in vain for its turn and that a connection that is kept goes on to read requests.
    - [Client.v]: the critical sections of [http/client.cpp]; [ClientWorld.v] has for each request of a connection a fiber that sends it and one that reads its response, in any
      order.  [ClientInv.v] is the invariant, [ClientSteps.v], [ClientSending.v], [ClientReading.v] and [ClientFailing.v] show that every section keeps it; [ClientProps.v] that
      no assertion fails, that every request gets its own response and that nobody waits in vain, for two ways of using a connection and as long as no flush fails, and where the code goes wrong otherwise.
    - [ClientHeaders.v]: the headers that a client completes and checks.  [HttpNames.v] is about names without case and sets of them; [ClientHeadersProps.v] puts client and server
      together: each takes what the other prepares, both agree on whether the connection ends, and bodies arrive.
    - [ServerResponse.v]: the headers that [commit] completes, error responses, preconditions and ranges; [ServerResponseProps.v] shows that the end of every response
      can be told, that ranges lie within the entity, and when [commit] trips no assertion.
    - [Uri.v]: [uri.h] and the code of [uri.rl] around its grammars.  [UriProps.v] is about percent-encoding, dot segments, against the procedure of RFC 3986,
      normalization, comparison, with a class of comparison functions, printing and the resolution of references; [UriQuery.v] has query strings with
      their parser, the round trip and assignment.
    - [Broker.v]: [ConnectionCache] of [http/broker.cpp], and fibers that get connections, wait for one and establish one, in any order.  [BrokerInv.v] has the invariant
      and shows that it is kept; [BrokerProps.v] that no assertion fails, that a call gets a connection to its own host, that nobody waits in vain, and where the code goes wrong.
    - [BrokerRequests.v]: the request brokers of [http/broker.cpp]; [BrokerRequestsProps.v] shows that following redirections ends, how often a request is retried, and when the headers of the caller
      are left as they were.
    - [Servlet.v]: [http/servlet.cpp], which finds the servlet of a request by the normalized URI, with the theorems that it is that of the longest match and that what is registered is found.
    - [PgPool.v]: [pq/connectionpool.cpp], with fibers that take and give back connections in any order: a connection has one owner, and nobody waits in vain.
    - [Timeout.v]: [streams/timeout.cpp], where reads, writes, timers, their callbacks and changes of the timeouts interleave: a call that takes too long is cancelled and reported as timed out, and what callbacks that come late do.
    - [Throttle.v]: [streams/throttle.cpp], with the rate that a sequence of reads keeps to.

    ** What is assumed

    Nothing is an axiom.  What [operator new] leaves in memory is a parameter ([Allocator]), the clock of the timers an
    argument, and epoll a class with its laws, of which a table of watched descriptors is an instance.  In [Http.v] dates and URIs are printed as the
    text they have.  In the models of the fiber primitives and pipes, scheduling a fiber is an event in the result of an operation; that a pool runs what it is
    given is [PoolProps.v].
    A critical section under a [std::mutex] is one step.  The number of requests on one connection stays below [2^64].  The streams are modelled with buffers as lists of bytes,
    which the theorems about [Buffer] justify.

    ** What is not modelled

    Calls of the operating system (sockets, files, threads, other I/O managers, event loops), wrappers of libraries (OpenSSL, zlib,
    liblzma, libpq, protobuf, yaml), code that Ragel generates (the parsers of HTTP, URIs, JSON and XML; the grammar of query strings is small enough to be
    written out), logging and the test framework.  Of what could be modelled in the same way are left: the bodies in several parts of [http/multipart.cpp], whose headers the generated parser reads;
    the authentication of [http/auth.cpp] and its neighbours, which is hashes and tickets of libraries around one loop; [zip.cpp]; [statistics.h] and [config.h]; and
    the filters [duplex], [progress] and [delay], which pass calls on. *)

From stdpp Require Import numbers list_numbers list.

(** ** Machine words

    [size_t], [unsigned long long] and the other unsigned types are integers
    of type [Z] kept in range by writing the wrap-around out. *)

Open Scope Z_scope.

Definition size_max : Z := 2 ^ 64.

(** Reduction of an unsigned 64-bit computation. *)
Definition u64 (z : Z) : Z := z mod 2 ^ 64.

(** Reduction of an unsigned 32-bit computation. *)
Definition u32 (z : Z) : Z := z mod 2 ^ 32.

(** The value [(size_t)~0] that the sources use for "no limit". *)
Definition npos : Z := 2 ^ 64 - 1.

(** Conversion to a signed type of width [w] (two's complement). *)
Definition signed (w z : Z) : Z :=
  let m := z mod 2 ^ w in if m <? 2 ^ (w - 1) then m else m - 2 ^ w.

Definition s64 (z : Z) : Z := signed 64 z.
Definition s32 (z : Z) : Z := signed 32 z.

Lemma u64_small z : 0 <= z < 2 ^ 64 -> u64 z = z.
Proof. apply Z.mod_small. Qed.

Lemma u64_range z : 0 <= u64 z < 2 ^ 64.
Proof. apply Z.mod_pos_bound; lia. Qed.

Lemma signed_small w z : 1 <= w -> - 2 ^ (w - 1) <= z < 2 ^ (w - 1) -> signed w z = z.
Proof.
  intros Hw H. assert (E : 2 ^ w = 2 * 2 ^ (w - 1)) by (rewrite <- Z.pow_succ_r by lia; f_equal; lia). unfold signed. rewrite E.
  destruct (decide (0 <= z)).
  - rewrite Z.mod_small by lia. destruct (Z.ltb_spec z (2 ^ (w - 1))); lia.
  - replace (z mod (2 * 2 ^ (w - 1))) with (z + 2 * 2 ^ (w - 1)) by (apply (Z.mod_unique _ _ (-1)); lia).
    destruct (Z.ltb_spec (z + 2 * 2 ^ (w - 1)) (2 ^ (w - 1))); lia.
Qed.

Lemma s64_small z : - 2 ^ 63 <= z < 2 ^ 63 -> s64 z = z.
Proof. intros H. apply signed_small; [lia | exact H]. Qed.
Lemma s32_small z : - 2 ^ 31 <= z < 2 ^ 31 -> s32 z = z.
Proof. intros H. apply signed_small; [lia | exact H]. Qed.

(** ** Outcomes

    A call of the library returns, throws, trips a [MORDOR_ASSERT] (the
    builds modelled here have assertions on), or does what the language leaves undefined:
    dereferencing an end iterator, reading or writing past an array.  A loop
    that would run for ever is the outcome [Diverges]. *)

Inductive exn :=
| out_of_range
| invalid_argument
| unexpected_eof
| runtime_error
| other_exn (code : Z).

Inductive fault :=
| Assertion
| Undefined
| Diverges
| Thrown (e : exn).

Inductive result (A : Type) :=
| Ok (a : A)
| Err (f : fault).

Arguments Ok {A} a.
Arguments Err {A} f.

#[global] Instance exn_eq_dec : EqDecision exn.
Proof. solve_decision. Defined.

#[global] Instance fault_eq_dec : EqDecision fault.
Proof. solve_decision. Defined.

#[global] Instance result_ret : MRet result := fun A a => Ok a.

#[global] Instance result_bind : MBind result := fun A B f m =>
  match m with Ok a => f a | Err e => Err e end.

#[global] Instance result_fmap : FMap result := fun A B f m =>
  match m with Ok a => Ok (f a) | Err e => Err e end.

Definition is_Ok {A} (m : result A) : bool :=
  match m with Ok _ => true | Err _ => false end.

(** [MORDOR_ASSERT(b)]. *)
Definition ASSERT (b : bool) : result unit :=
  if b then Ok tt else Err Assertion.

Definition throw {A} (e : exn) : result A := Err (Thrown e).

Declare Scope mordor_scope.
Delimit Scope mordor_scope with mordor.
Open Scope mordor_scope.

Notation "'assert:' b ;; k" := (mbind (M := result) (fun _ : unit => k) (ASSERT b))
  (at level 100, b at next level, k at level 200, right associativity) : mordor_scope.

Lemma bind_Ok_iff {A B} (m : result A) (f : A -> result B) b :
  (m ≫= f) = Ok b <-> exists a, m = Ok a /\ f a = Ok b.
Proof. destruct m; cbn; naive_solver. Qed.

Lemma ASSERT_true {B} (b : bool) (k : result B) :
  b = true -> (assert: b ;; k) = k.
Proof. intros ->. reflexivity. Qed.

(** ** Lists indexed by machine integers *)

Definition zlen {A} (l : list A) : Z := Z.of_nat (length l).
Definition ztake {A} (n : Z) (l : list A) : list A := take (Z.to_nat n) l.
Definition zdrop {A} (n : Z) (l : list A) : list A := drop (Z.to_nat n) l.

(** The bytes [l[i .. i+n)]. *)
Definition zslice {A} (i n : Z) (l : list A) : list A := ztake n (zdrop i l).

#[global] Arguments u64 : simpl never.
#[global] Arguments u32 : simpl never.
#[global] Arguments s64 : simpl never.
#[global] Arguments s32 : simpl never.
#[global] Arguments npos : simpl never.
#[global] Arguments zlen : simpl never.
#[global] Arguments ztake : simpl never.
#[global] Arguments zdrop : simpl never.
#[global] Arguments zslice : simpl never.

Section ZLists.
Context {A : Type}.
Implicit Types l k : list A.

Lemma zlen_nonneg l : 0 <= zlen l.
Proof. unfold zlen. lia. Qed.

Lemma zlen_nil : zlen (@nil A) = 0.
Proof. reflexivity. Qed.

Lemma zlen_cons x l : zlen (x :: l) = 1 + zlen l.
Proof. unfold zlen. cbn [length]. lia. Qed.

Lemma zlen_app l k : zlen (l ++ k) = zlen l + zlen k.
Proof. unfold zlen. rewrite length_app. lia. Qed.

Lemma zlen_ztake n l : 0 <= n -> zlen (ztake n l) = Z.min n (zlen l).
Proof. intros. unfold zlen, ztake. rewrite length_take. lia. Qed.

Lemma zlen_zdrop n l : 0 <= n -> zlen (zdrop n l) = Z.max 0 (zlen l - n).
Proof. intros. unfold zlen, zdrop. rewrite length_drop. lia. Qed.

Lemma zlen_zslice i n l : 0 <= i -> 0 <= n -> i + n <= zlen l -> zlen (zslice i n l) = n.
Proof. intros. unfold zslice. rewrite zlen_ztake, zlen_zdrop by lia. lia. Qed.

Lemma zlen_zero_inv l : zlen l = 0 -> l = [].
Proof. destruct l; [done|]. rewrite zlen_cons. pose proof (zlen_nonneg l). lia. Qed.

Lemma ztake_0 l : ztake 0 l = [].
Proof. reflexivity. Qed.

Lemma zdrop_0 l : zdrop 0 l = l.
Proof. reflexivity. Qed.

Lemma ztake_nil n : ztake n (@nil A) = [].
Proof. apply take_nil. Qed.

Lemma zdrop_nil n : zdrop n (@nil A) = [].
Proof. apply drop_nil. Qed.

Lemma ztake_all n l : zlen l <= n -> ztake n l = l.
Proof. intros. apply take_ge. unfold zlen in *. lia. Qed.

Lemma zdrop_all n l : zlen l <= n -> zdrop n l = [].
Proof. intros. apply drop_ge. unfold zlen in *. lia. Qed.

Lemma ztake_app_le n l k : n <= zlen l -> ztake n (l ++ k) = ztake n l.
Proof. intros. apply take_app_le. unfold zlen in *. lia. Qed.

Lemma ztake_app_ge n l k : zlen l <= n -> ztake n (l ++ k) = l ++ ztake (n - zlen l) k.
Proof.
  intros. unfold ztake. rewrite take_app_ge by (unfold zlen in *; lia).
  do 2 f_equal. unfold zlen in *. lia.
Qed.

Lemma zdrop_app_le n l k : n <= zlen l -> zdrop n (l ++ k) = zdrop n l ++ k.
Proof. intros. apply drop_app_le. unfold zlen in *. lia. Qed.

Lemma zdrop_app_ge n l k : zlen l <= n -> zdrop n (l ++ k) = zdrop (n - zlen l) k.
Proof.
  intros. unfold zdrop. rewrite drop_app_ge by (unfold zlen in *; lia).
  f_equal. unfold zlen in *. lia.
Qed.

Lemma ztake_zdrop n l : ztake n l ++ zdrop n l = l.
Proof. apply take_drop. Qed.

Lemma ztake_ztake m n l : 0 <= m <= n -> ztake m (ztake n l) = ztake m l.
Proof. intros. unfold ztake. rewrite take_take. f_equal. lia. Qed.

Lemma zdrop_zdrop m n l : 0 <= m -> 0 <= n -> zdrop m (zdrop n l) = zdrop (n + m) l.
Proof. intros. unfold zdrop. rewrite drop_drop. f_equal. lia. Qed.

Lemma zdrop_ztake m n l : 0 <= m -> 0 <= n -> zdrop m (ztake n l) = ztake (n - m) (zdrop m l).
Proof. intros. unfold ztake, zdrop. rewrite skipn_firstn_comm. f_equal. lia. Qed.

(** Taking [a] bytes and then [b] more is taking [a + b]. *)
Lemma ztake_add a b l : 0 <= a -> 0 <= b -> ztake (a + b) l = ztake a l ++ ztake b (zdrop a l).
Proof.
  intros. unfold ztake, zdrop. rewrite take_take_drop. f_equal. lia.
Qed.

Lemma zslice_zslice i n j m l :
  0 <= i -> 0 <= j -> 0 <= m -> j + m <= n -> zslice j m (zslice i n l) = zslice (i + j) m l.
Proof.
  intros. unfold zslice. rewrite zdrop_ztake, zdrop_zdrop, ztake_ztake by lia. reflexivity.
Qed.

(** Splitting after an element. *)
Lemma ztake_snoc x l k : ztake (zlen l + 1) (l ++ x :: k) = l ++ [x].
Proof. rewrite ztake_app_ge by lia. f_equal. replace (zlen l + 1 - zlen l) with 1 by lia. done. Qed.

Lemma zdrop_snoc x l k : zdrop (zlen l + 1) (l ++ x :: k) = k.
Proof. rewrite zdrop_app_ge by lia. replace (zlen l + 1 - zlen l) with 1 by lia. done. Qed.

Lemma zslice_0 n l : zslice 0 n l = ztake n l.
Proof. reflexivity. Qed.

End ZLists.

#[global] Hint Rewrite @zlen_nil @zlen_cons @zlen_app : zlen.

(** The sum of a measure over a list. *)
Definition zsum {A} (f : A -> Z) (l : list A) : Z := foldr (fun x acc => f x + acc) 0 l.

Lemma zsum_nil {A} (f : A -> Z) : zsum f [] = 0.
Proof. reflexivity. Qed.

Lemma zsum_cons {A} (f : A -> Z) x l : zsum f (x :: l) = f x + zsum f l.
Proof. reflexivity. Qed.

Lemma zsum_app {A} (f : A -> Z) l k : zsum f (l ++ k) = zsum f l + zsum f k.
Proof.
  induction l as [|x l IH]; [reflexivity|].
  change ((x :: l) ++ k) with (x :: (l ++ k)). rewrite !zsum_cons, IH. lia.
Qed.

Lemma zsum_nonneg {A} (f : A -> Z) l : Forall (fun x => 0 <= f x) l -> 0 <= zsum f l.
Proof. induction 1; rewrite ?zsum_cons, ?zsum_nil; lia. Qed.

Lemma zsum_zero {A} (f : A -> Z) l : Forall (fun x => f x = 0) l -> zsum f l = 0.
Proof. induction 1; rewrite ?zsum_cons, ?zsum_nil; lia. Qed.

#[global] Hint Rewrite @zsum_nil @zsum_cons @zsum_app : zsum.
#[global] Arguments zsum : simpl never.

(** Rewrites away the reductions modulo [2^64] that the context shows to be the
    identity. *)
Ltac u64_small :=
  repeat match goal with
  | |- context [u64 ?z] => rewrite (u64_small z) by lia
  end.

(** Turns a boolean integer test of the goal into its value or a case split. *)
Ltac ztest :=
  match goal with
  | |- context [?a =? ?b] => first
      [ rewrite (proj2 (Z.eqb_eq a b)) by lia | rewrite (proj2 (Z.eqb_neq a b)) by lia ]
  | |- context [?a <=? ?b] => first
      [ rewrite (proj2 (Z.leb_le a b)) by lia | rewrite (proj2 (Z.leb_gt a b)) by lia ]
  | |- context [?a <? ?b] => first
      [ rewrite (proj2 (Z.ltb_lt a b)) by lia | rewrite (proj2 (Z.ltb_ge a b)) by lia ]
  end.

(** One step of evaluation of monadic code. *)
Ltac step := cbn [mbind result_bind ASSERT negb andb orb].

Lemma In_ztake {A} (x : A) n l : In x (ztake n l) -> In x l.
Proof. rewrite <- (ztake_zdrop n l) at 2. rewrite in_app_iff. tauto. Qed.

Lemma In_zdrop {A} (x : A) n l : In x (zdrop n l) -> In x l.
Proof. rewrite <- (ztake_zdrop n l) at 2. rewrite in_app_iff. tauto. Qed.

Lemma zdrop_cons {A} (x : A) n l : 1 <= n -> zdrop n (x :: l) = zdrop (n - 1) l.
Proof.
  intros. unfold zdrop. replace (Z.to_nat n) with (S (Z.to_nat (n - 1))) by lia. done.
Qed.

Lemma ztake_cons {A} (x : A) n l : 1 <= n -> ztake n (x :: l) = x :: ztake (n - 1) l.
Proof.
  intros. unfold ztake. replace (Z.to_nat n) with (S (Z.to_nat (n - 1))) by lia. done.
Qed.

(** A list is cut at the first occurrence of a delimiter in one way. *)
Lemma app_inj_delim {A} (d : A) l k l' k' :
  l ++ d :: k = l' ++ d :: k' -> d ∉ l -> d ∉ l' -> l = l' /\ k = k'.
Proof.
  revert l'. induction l as [|x l IH]; intros [|y l'] E Hl Hl'; cbn in E; injection E; intros.
  - done.
  - subst y. destruct Hl'. by left.
  - subst x. destruct Hl. by left.
  - subst y. rewrite elem_of_cons in Hl, Hl'. destruct (IH l') as [-> ->]; auto.
Qed.
