(* ===== verification/Memory.v ===== *)
(** Arrays of bytes and pointers into them, as [mordor/streams/buffer.cpp] and the
    stream classes use them: arrays made by [new unsigned char[n]] or adopted from the
    caller, addressed by an array identity and an offset.  [load] and [store] are the
    [memcpy]s of the sources; an access outside the array is [Undefined]. *)

From stdpp Require Import numbers list_numbers list.
From S2P Require Import Prelude.

(** A byte is an [unsigned char]: an integer, in [0, 256) where it matters. *)
Abbreviation byte := Z (only parsing).

(** Every array allocated so far; the index of an array is its identity.  An array
    stays for as long as a [shared_ptr] may refer to it, so identities are never reused. *)
Abbreviation heap := (list (list Z)).

Record ptr := Ptr { p_array : nat; p_offset : Z }.

#[global] Instance ptr_eq_dec : EqDecision ptr.
Proof. solve_decision. Defined.

Definition ptr_add (p : ptr) (n : Z) : ptr := Ptr (p_array p) (p_offset p + n).

(** What [operator new[]] leaves in a fresh array is not specified: the development is
    parametric in it ([junk id i] is the byte at [i] of the fresh array [id]). *)
Class Allocator := junk : nat -> Z -> Z.

Section Heap.
Context {alloc : Allocator}.

Definition new_array (h : heap) (n : Z) : heap * nat :=
  (h ++ [junk (length h) <$> seqZ 0 n], length h).

Definition in_array (arr : list Z) (off n : Z) : bool :=
  (0 <=? off) && (0 <=? n) && (off + n <=? zlen arr).

Definition load (h : heap) (p : ptr) (n : Z) : result (list Z) :=
  match h !! p_array p with
  | Some arr => if in_array arr (p_offset p) n then Ok (zslice (p_offset p) n arr)
                else Err Undefined
  | None => Err Undefined
  end.

Definition splice (off : Z) (data arr : list Z) : list Z :=
  ztake off arr ++ data ++ zdrop (off + zlen data) arr.

Definition store (h : heap) (p : ptr) (data : list Z) : result heap :=
  match h !! p_array p with
  | Some arr => if in_array arr (p_offset p) (zlen data)
                then Ok (<[p_array p := splice (p_offset p) data arr]> h)
                else Err Undefined
  | None => Err Undefined
  end.

End Heap.

Lemma new_array_lookup `{Allocator} (h : heap) n i arr :
  h !! i = Some arr -> fst (new_array h n) !! i = Some arr.
Proof. intros E. cbn. apply lookup_app_l_Some. done. Qed.

Lemma zlen_seqZ a n : 0 <= n -> zlen (seqZ a n) = n.
Proof. intros. unfold zlen. rewrite length_seqZ. lia. Qed.

Lemma new_array_fresh `{Allocator} (h : heap) n :
  0 <= n -> exists arr, fst (new_array h n) !! length h = Some arr /\ zlen arr = n.
Proof.
  intros. eexists. split; [cbn; apply list_lookup_middle; done|].
  unfold zlen. rewrite length_fmap, length_seqZ. lia.
Qed.

(** ** Slices of an array after a store *)

Section Splice.
Variables (off : Z) (data arr : list Z).
Hypothesis Hoff : 0 <= off.
Hypothesis Hfit : off + zlen data <= zlen arr.

Lemma zlen_splice : zlen (splice off data arr) = zlen arr.
Proof.
  unfold splice. pose proof (zlen_nonneg data).
  rewrite !zlen_app, zlen_ztake, zlen_zdrop by lia. lia.
Qed.

Lemma splice_before i n : 0 <= i -> 0 <= n -> i + n <= off ->
  zslice i n (splice off data arr) = zslice i n arr.
Proof.
  intros. unfold zslice, splice. pose proof (zlen_nonneg data).
  rewrite zdrop_app_le by (rewrite zlen_ztake; lia).
  rewrite ztake_app_le by (rewrite zlen_zdrop, zlen_ztake; lia).
  rewrite zdrop_ztake, ztake_ztake by lia. done.
Qed.

Lemma splice_after i n : off + zlen data <= i ->
  zslice i n (splice off data arr) = zslice i n arr.
Proof.
  intros. unfold zslice, splice. pose proof (zlen_nonneg data).
  assert (E : zlen (ztake off arr) = off) by (rewrite zlen_ztake; lia).
  rewrite zdrop_app_ge, zdrop_app_ge by lia. rewrite E, zdrop_zdrop by lia.
  do 2 f_equal. lia.
Qed.

Lemma splice_at : zslice off (zlen data) (splice off data arr) = data.
Proof.
  intros. unfold zslice, splice. pose proof (zlen_nonneg data).
  assert (E : zlen (ztake off arr) = off) by (rewrite zlen_ztake; lia).
  rewrite zdrop_app_ge by lia. rewrite E, Z.sub_diag, zdrop_0, ztake_app_le by lia.
  apply ztake_all. lia.
Qed.

End Splice.

Lemma store_ok (h : heap) a off data arr :
  h !! a = Some arr -> 0 <= off -> off + zlen data <= zlen arr ->
  store h (Ptr a off) data = Ok (<[a := splice off data arr]> h).
Proof.
  intros Ha ??. unfold store, in_array. cbn. rewrite Ha. pose proof (zlen_nonneg data).
  repeat ztest. done.
Qed.
