(* ===== verification/Buffer.v ===== *)
(** [streams/buffer.h] and [streams/buffer.cpp]: a [Buffer] is a list of segments, each a window of a shared array with a read and a write
    part, the position of the first segment that can be written to and two counters.  The invariant that the code checks with
    assertions is [Buffer_invariant]. *)

From stdpp Require Import numbers list_numbers list.
From S2P Require Import Prelude Memory.

(** ** SegmentData: a slice of a shared array *)

Record SegmentData := mkSegmentData {
  m_array : nat;     (* the array the [shared_ptr] keeps alive *)
  m_start : Z;       (* offset of [m_start] in it *)
  m_length : Z;
}.

#[global] Instance SegmentData_eq_dec : EqDecision SegmentData.
Proof. solve_decision. Defined.

Definition SegmentData_start (d : SegmentData) : ptr := Ptr (m_array d) (m_start d).

Definition SegmentData_slice (d : SegmentData) (start length : Z) : result SegmentData :=
  let length := if length =? npos then u64 (m_length d - start) else length in
  assert: start <=? m_length d ;;
  assert: u64 (length + start) <=? m_length d ;;
  Ok (mkSegmentData (m_array d) (m_start d + start) length).

Definition SegmentData_extend (d : SegmentData) (length : Z) : SegmentData :=
  mkSegmentData (m_array d) (m_start d) (u64 (m_length d + length)).

(** ** Segment: readable bytes followed by writable bytes *)

Record Segment := mkSegment {
  m_writeIndex : Z;
  m_data : SegmentData;
}.

#[global] Instance Segment_eq_dec : EqDecision Segment.
Proof. solve_decision. Defined.

Definition Segment_invariant (s : Segment) : result unit :=
  ASSERT (m_writeIndex s <=? m_length (m_data s)).

(** [Segment(SegmentData)]: everything is readable. *)
Definition Segment_of_data (d : SegmentData) : result Segment :=
  let s := mkSegment (m_length d) d in
  Segment_invariant s ≫= fun _ => Ok s.

(** [Segment(void *buffer, size_t length)]: everything is writable. *)
Definition Segment_of_memory (array : nat) (length : Z) : result Segment :=
  let s := mkSegment 0 (mkSegmentData array 0 length) in
  Segment_invariant s ≫= fun _ => Ok s.

Definition Segment_readAvailable (s : Segment) : result Z :=
  Segment_invariant s ≫= fun _ => Ok (m_writeIndex s).

Definition Segment_writeAvailable (s : Segment) : result Z :=
  Segment_invariant s ≫= fun _ => Ok (u64 (m_length (m_data s) - m_writeIndex s)).

Definition Segment_length (s : Segment) : result Z :=
  Segment_invariant s ≫= fun _ => Ok (m_length (m_data s)).

Definition Segment_produce (s : Segment) (length : Z) : result Segment :=
  w ← Segment_writeAvailable s;
  assert: length <=? w ;;
  let s' := mkSegment (u64 (m_writeIndex s + length)) (m_data s) in
  Segment_invariant s' ≫= fun _ => Ok s'.

Definition Segment_consume (s : Segment) (length : Z) : result Segment :=
  r ← Segment_readAvailable s;
  assert: length <=? r ;;
  d ← SegmentData_slice (m_data s) length npos;
  let s' := mkSegment (u64 (m_writeIndex s - length)) d in
  Segment_invariant s' ≫= fun _ => Ok s'.

(** The second assertion of the source assigns: [m_writeIndex = readAvailable()],
    and so fails exactly when nothing is readable. *)
Definition Segment_truncate (s : Segment) (length : Z) : result Segment :=
  r ← Segment_readAvailable s;
  assert: length <=? r ;;
  assert: negb (r =? 0) ;;
  d ← SegmentData_slice (m_data s) 0 length;
  let s' := mkSegment length d in
  Segment_invariant s' ≫= fun _ => Ok s'.

Definition Segment_extend (s : Segment) (length : Z) : Segment :=
  mkSegment (u64 (m_writeIndex s + length)) (SegmentData_extend (m_data s) length).

Definition Segment_readBuffer (s : Segment) : result SegmentData :=
  Segment_invariant s ≫= fun _ => SegmentData_slice (m_data s) 0 (m_writeIndex s).

Definition Segment_writeBuffer (s : Segment) : result SegmentData :=
  Segment_invariant s ≫= fun _ => SegmentData_slice (m_data s) (m_writeIndex s) npos.

(** ** Buffer *)

(** [m_writeIt] is a [std::list] iterator: the position of the element it denotes,
    [length m_segments] for [end()]. *)
Record Buffer := mkBuffer {
  m_segments : list Segment;
  m_readAvailable : Z;
  m_writeAvailable : Z;
  m_writeIt : nat;
}.

(** [m_segments.insert(it, x)] for an iterator at position [i]. *)
Definition insert_at {A} (i : nat) (x : A) (l : list A) : list A :=
  take i l ++ x :: drop i l.

(** Dereferencing an iterator: [end()] has no element. *)
Definition deref {A} (l : list A) (i : nat) : result A :=
  match l !! i with Some x => Ok x | None => Err Undefined end.

Definition is_end (b : Buffer) (i : nat) : bool := Nat.eqb i (length (m_segments b)).

(** "We should keep segments optimally merged together": the test of a segment with
    [r] readable and [w] writable bytes against the next one. *)
Definition merge_check (segment next : Segment) (r w : Z) : result unit :=
  nr ← Segment_readAvailable next;
  if (w =? 0) && negb (nr =? 0) then
    rb ← Segment_readBuffer segment;
    nb ← Segment_readBuffer next;
    ASSERT (negb (bool_decide (ptr_add (SegmentData_start rb) r = SegmentData_start nb))
            || negb (Nat.eqb (m_array (m_data segment)) (m_array (m_data next))))
  else if negb (w =? 0) && (nr =? 0) then
    wb ← Segment_writeBuffer segment;
    nb ← Segment_writeBuffer next;
    ASSERT (negb (bool_decide (ptr_add (SegmentData_start wb) w = SegmentData_start nb))
            || negb (Nat.eqb (m_array (m_data segment)) (m_array (m_data next))))
  else Ok tt.

(** The loop of [Buffer::invariant()]: the ordering of readable and writable
    segments, the position of [m_writeIt] and the merging of neighbours. *)
Fixpoint invariant_loop (writeIt i : nat) (seenWrite : bool) (read write : Z)
    (l : list Segment) : result (Z * Z) :=
  match l with
  | [] => Ok (read, write)
  | segment :: rest =>
      r ← Segment_readAvailable segment;
      assert: negb seenWrite || (seenWrite && (r =? 0)) ;;
      w ← Segment_writeAvailable segment;
      let sees := negb seenWrite && negb (w =? 0) in
      assert: negb sees || Nat.eqb writeIt i ;;
      _ ← match rest with [] => Ok tt | next :: _ => merge_check segment next r w end;
      invariant_loop writeIt (S i) (seenWrite || sees) (u64 (read + r)) (u64 (write + w)) rest
  end.

Definition Buffer_invariant (b : Buffer) : result unit :=
  '(read, write) ← invariant_loop (m_writeIt b) 0 false 0 0 (m_segments b);
  assert: read =? m_readAvailable b ;;
  assert: write =? m_writeAvailable b ;;
  ASSERT (negb (write =? 0) || ((write =? 0) && is_end b (m_writeIt b))).

(** What the calls that end with [invariant();] return. *)
Definition checked (b : Buffer) : result Buffer :=
  Buffer_invariant b ≫= fun _ => Ok b.

Definition Buffer_empty : Buffer := mkBuffer [] 0 0 0.

Section Operations.
Context {alloc : Allocator}.

(** [Segment(size_t len)]: a fresh array, everything writable. *)
Definition Segment_new (h : heap) (len : Z) : result (heap * Segment) :=
  let '(h', a) := new_array h len in
  s ← Segment_of_memory a len;
  Ok (h', s).

(** The placement [adopt] and [reserve] share: in front when nothing is readable, else
    at the back, where it becomes the write segment if there was none. *)
Definition place_segment (b : Buffer) (newSegment : Segment) : list Segment * nat :=
  if m_readAvailable b =? 0 then (newSegment :: m_segments b, O)
  else
    let segs := m_segments b ++ [newSegment] in
    (segs, if m_writeAvailable b =? 0 then Nat.pred (length segs)
           else if is_end b (m_writeIt b) then length segs else m_writeIt b).

Definition Buffer_adopt (b : Buffer) (buffer : nat) (length : Z) : result Buffer :=
  Buffer_invariant b ≫= fun _ =>
  newSegment ← Segment_of_memory buffer length;
  let '(segs, it) := place_segment b newSegment in
  checked (mkBuffer segs (m_readAvailable b) (u64 (m_writeAvailable b + length)) it).

Definition Buffer_reserve (h : heap) (b : Buffer) (length : Z) : result (heap * Buffer) :=
  if m_writeAvailable b <? length then
    '(h', newSegment) ← Segment_new h (u64 (u64 (length * 2) - m_writeAvailable b));
    let '(segs, it) := place_segment b newSegment in
    len ← Segment_length newSegment;
    b' ← checked (mkBuffer segs (m_readAvailable b) (u64 (m_writeAvailable b + len)) it);
    Ok (h', b')
  else Ok (h, b).

Definition Buffer_compact (b : Buffer) : result Buffer :=
  Buffer_invariant b ≫= fun _ =>
  b' ← (if is_end b (m_writeIt b) then Ok b
        else
          cur ← deref (m_segments b) (m_writeIt b);
          r ← Segment_readAvailable cur;
          if 0 <? r then
            rb ← Segment_readBuffer cur;
            newSegment ← Segment_of_data rb;
            let segs := take (m_writeIt b) (m_segments b) ++ [newSegment] in
            Ok (mkBuffer segs (m_readAvailable b) 0 (length segs))
          else
            let segs := take (m_writeIt b) (m_segments b) in
            Ok (mkBuffer segs (m_readAvailable b) 0 (length segs)));
  assert: m_writeAvailable b' =? 0 ;;
  Ok b'.

Definition Buffer_clear (b : Buffer) (clearWriteAvailableAsWell : bool) : result Buffer :=
  Buffer_invariant b ≫= fun _ =>
  b' ← (if clearWriteAvailableAsWell then Ok (mkBuffer [] 0 0 0)
        else
          segs ← (if is_end b (m_writeIt b) then Ok (m_segments b)
                  else
                    cur ← deref (m_segments b) (m_writeIt b);
                    r ← Segment_readAvailable cur;
                    if negb (r =? 0) then
                      cur' ← Segment_consume cur r;
                      Ok (<[m_writeIt b := cur']> (m_segments b))
                    else Ok (m_segments b));
          Ok (mkBuffer (drop (m_writeIt b) segs) 0 (m_writeAvailable b) 0));
  Buffer_invariant b' ≫= fun _ =>
  assert: m_readAvailable b' =? 0 ;;
  Ok b'.

(** The loop of [produce]: the segments from [m_writeIt] on, the number of positions
    [m_writeIt] advanced. *)
Fixpoint produce_loop (length : Z) (l : list Segment) : result (list Segment * nat) :=
  if 0 <? length then
    match l with
    | [] => Err Undefined
    | segment :: rest =>
        w ← Segment_writeAvailable segment;
        let toProduce := Z.min w length in
        segment' ← Segment_produce segment toProduce;
        let length' := u64 (length - toProduce) in
        w' ← Segment_writeAvailable segment';
        if w' =? 0 then
          '(rest', n) ← produce_loop length' rest;
          Ok (segment' :: rest', S n)
        else if 0 <? length' then Err Diverges
        else Ok (segment' :: rest, O)
    end
  else Ok (l, O).

Definition Buffer_produce (b : Buffer) (length : Z) : result Buffer :=
  assert: length <=? m_writeAvailable b ;;
  '(l, n) ← produce_loop length (drop (m_writeIt b) (m_segments b));
  checked (mkBuffer (take (m_writeIt b) (m_segments b) ++ l)
             (u64 (m_readAvailable b + length)) (u64 (m_writeAvailable b - length))
             (m_writeIt b + n)).

(** The loop of [consume]: the remaining segments, the number of segments popped.  A
    segment with nothing readable that stays in front makes the loop run for ever. *)
Fixpoint consume_loop (length : Z) (l : list Segment) : result (list Segment * nat) :=
  if 0 <? length then
    match l with
    | [] => Err Undefined
    | segment :: rest =>
        r ← Segment_readAvailable segment;
        let toConsume := Z.min r length in
        segment' ← Segment_consume segment toConsume;
        let length' := u64 (length - toConsume) in
        len ← Segment_length segment';
        if len =? 0 then
          '(rest', n) ← consume_loop length' rest;
          Ok (rest', S n)
        else if 0 <? length' then Err Diverges
        else Ok (segment' :: rest, O)
    end
  else Ok (l, O).

(** Popping the element [m_writeIt] denotes would leave it dangling. *)
Definition Buffer_consume (b : Buffer) (length : Z) : result Buffer :=
  assert: length <=? m_readAvailable b ;;
  '(l, n) ← consume_loop length (m_segments b);
  if Nat.leb n (m_writeIt b) then
    checked (mkBuffer l (u64 (m_readAvailable b - length)) (m_writeAvailable b)
               (m_writeIt b - n))
  else Err Undefined.

(** Splitting a mixed segment in a readable and a writable one, as [truncate] and
    [copyIn(const Buffer &)] do before they change the readable part. *)
Definition split_mixed (b : Buffer) : result (list Segment * nat * bool) :=
  if is_end b (m_writeIt b) then Ok (m_segments b, m_writeIt b, false)
  else
    cur ← deref (m_segments b) (m_writeIt b);
    r ← Segment_readAvailable cur;
    if negb (r =? 0) then
      rb ← Segment_readBuffer cur;
      readPart ← Segment_of_data rb;
      writePart ← Segment_consume cur r;
      Ok (insert_at (m_writeIt b) readPart (<[m_writeIt b := writePart]> (m_segments b)),
          S (m_writeIt b), true)
    else Ok (m_segments b, m_writeIt b, false).

(** First loop of [truncate]: the segments passed (the last one cut), those from the
    final [it] on, and what is left of [length]. *)
Fixpoint truncate_loop (length : Z) (l : list Segment)
    : result (list Segment * list Segment * Z) :=
  match l with
  | [] => Ok ([], [], length)
  | segment :: rest =>
      if 0 <? length then
        r ← Segment_readAvailable segment;
        if length <=? r then
          segment' ← Segment_truncate segment length;
          Ok ([segment'], rest, 0)
        else
          '(kept, rest', length') ← truncate_loop (u64 (length - r)) rest;
          Ok (segment :: kept, rest', length')
      else Ok ([], l, length)
  end.

(** Second loop of [truncate]: erases the segments that are readable. *)
Fixpoint erase_readable (l : list Segment) : result (list Segment * nat) :=
  match l with
  | [] => Ok ([], O)
  | segment :: rest =>
      r ← Segment_readAvailable segment;
      if 0 <? r then
        w ← Segment_writeAvailable segment;
        assert: w =? 0 ;;
        '(rest', n) ← erase_readable rest;
        Ok (rest', S n)
      else Ok (l, O)
  end.

Definition Buffer_truncate (b : Buffer) (length : Z) : result Buffer :=
  assert: length <=? m_readAvailable b ;;
  if length =? m_readAvailable b then Ok b
  else
    '(segs, it, _) ← split_mixed b;
    '(kept, rest, remaining) ← truncate_loop length segs;
    assert: remaining =? 0 ;;
    '(rest', erased) ← erase_readable rest;
    let k := List.length kept in
    if Nat.leb (k + erased) it then
      checked (mkBuffer (kept ++ rest') length (m_writeAvailable b) (it - erased))
    else if Nat.ltb it k then
      checked (mkBuffer (kept ++ rest') length (m_writeAvailable b) it)
    else Err Undefined.

(** *** Scatter/gather views of the buffer *)

Record iovec := mkIovec { iov_base : option ptr; iov_len : Z }.

Definition iovec_of (d : SegmentData) : iovec :=
  mkIovec (Some (SegmentData_start d)) (m_length d).

Definition iovec_null : iovec := mkIovec None 0.

Fixpoint readBuffers_loop (remaining : Z) (l : list Segment) : result (list iovec * Z) :=
  match l with
  | [] => Ok ([], remaining)
  | segment :: rest =>
      r ← Segment_readAvailable segment;
      let toConsume := Z.min r remaining in
      rb ← Segment_readBuffer segment;
      data ← SegmentData_slice rb 0 toConsume;
      let remaining' := u64 (remaining - toConsume) in
      if remaining' =? 0 then Ok ([iovec_of data], remaining')
      else
        '(iovs, remaining'') ← readBuffers_loop remaining' rest;
        Ok (iovec_of data :: iovs, remaining'')
  end.

Definition Buffer_readBuffers (b : Buffer) (length : Z) : result (list iovec) :=
  let length := if length =? npos then m_readAvailable b else length in
  assert: length <=? m_readAvailable b ;;
  '(iovs, remaining) ← readBuffers_loop length (m_segments b);
  assert: remaining =? 0 ;;
  Buffer_invariant b ≫= fun _ => Ok iovs.

(** Skipping whole segments, shared by [copyIn(const Buffer &)] and [copyOut]: the
    position left in the segment reached, and whether it is the first one. *)
Fixpoint skip_loop (pos : Z) (first : bool) (l : list Segment)
    : result (Z * bool * list Segment) :=
  match l with
  | [] => Ok (pos, first, [])
  | segment :: rest =>
      if pos =? 0 then Ok (pos, first, l)
      else
        r ← Segment_readAvailable segment;
        if pos <? r then Ok (pos, first, l)
        else skip_loop (u64 (pos - r)) false rest
  end.

(** The copying loop of [copyOut]: the bytes stored and what is left of [length]. *)
Fixpoint copyOut_loop (h : heap) (length pos : Z) (l : list Segment)
    : result (list Z * Z) :=
  match l with
  | [] => Ok ([], length)
  | segment :: rest =>
      r ← Segment_readAvailable segment;
      let todo := Z.min length (u64 (r - pos)) in
      rb ← Segment_readBuffer segment;
      bytes ← load h (ptr_add (SegmentData_start rb) pos) todo;
      let length' := u64 (length - todo) in
      if length' =? 0 then Ok (bytes, length')
      else
        '(more, length'') ← copyOut_loop h length' 0 rest;
        Ok (bytes ++ more, length'')
  end.

Definition not_end {A} (l : list A) : bool :=
  match l with [] => false | _ => true end.

(** [copyOut(void *, length, pos)]: the bytes written to the destination. *)
Definition Buffer_copyOut (h : heap) (b : Buffer) (length pos : Z) : result (list Z) :=
  if length =? 0 then Ok []
  else
    assert: u64 (length + pos) <=? m_readAvailable b ;;
    '(pos', _, l) ← skip_loop pos true (m_segments b);
    assert: not_end l ;;
    '(bytes, remaining) ← copyOut_loop h length pos' l;
    assert: remaining =? 0 ;;
    Ok bytes.

(** [readBuffer(length, coalesce)]: the first bytes as one block, gathering the whole
    readable data in one segment when they are not already in one. *)
Definition Buffer_readBuffer (h : heap) (b : Buffer) (length : Z) (coalesce : bool)
    : result (heap * Buffer * iovec) :=
  let length := if length =? npos then m_readAvailable b else length in
  assert: length <=? m_readAvailable b ;;
  if m_readAvailable b =? 0 then Ok (h, b, iovec_null)
  else
    front ← deref (m_segments b) 0;
    fr ← Segment_readAvailable front;
    if length <=? fr then
      rb ← Segment_readBuffer front;
      data ← SegmentData_slice rb 0 length;
      Ok (h, b, iovec_of data)
    else if negb coalesce then
      data ← Segment_readBuffer front;
      Ok (h, b, iovec_of data)
    else
      (* the write segment, when it can hold all the readable bytes *)
      room ← (if is_end b (m_writeIt b) then Ok None
              else
                cur ← deref (m_segments b) (m_writeIt b);
                w ← Segment_writeAvailable cur;
                Ok (if m_readAvailable b <=? w then Some cur else None));
      '(h', newSegment) ← match room with
        | Some cur =>
            wb ← Segment_writeBuffer cur;
            bytes ← Buffer_copyOut h b (m_readAvailable b) 0;
            h' ← store h (SegmentData_start wb) bytes;
            d ← SegmentData_slice wb 0 (m_readAvailable b);
            s ← Segment_of_data d;
            Ok (h', s)
        | None =>
            '(h1, s) ← Segment_new h (m_readAvailable b);
            wb ← Segment_writeBuffer s;
            bytes ← Buffer_copyOut h1 b (m_readAvailable b) 0;
            h' ← store h1 (SegmentData_start wb) bytes;
            s' ← Segment_produce s (m_readAvailable b);
            Ok (h', s')
        end;
      b' ← checked (mkBuffer [newSegment] (m_readAvailable b) 0 1);
      rb ← Segment_readBuffer newSegment;
      data ← SegmentData_slice rb 0 length;
      Ok (h', b', iovec_of data).

Fixpoint writeBuffers_loop (remaining : Z) (l : list Segment) : result (list iovec) :=
  if 0 <? remaining then
    match l with
    | [] => Err Undefined
    | segment :: rest =>
        w ← Segment_writeAvailable segment;
        let toProduce := Z.min w remaining in
        wb ← Segment_writeBuffer segment;
        data ← SegmentData_slice wb 0 toProduce;
        iovs ← writeBuffers_loop (u64 (remaining - toProduce)) rest;
        Ok (iovec_of data :: iovs)
    end
  else Ok [].

Definition Buffer_writeBuffers (h : heap) (b : Buffer) (length : Z)
    : result (heap * Buffer * list iovec) :=
  let length := if length =? npos then m_writeAvailable b else length in
  '(h', b') ← Buffer_reserve h b length;
  iovs ← writeBuffers_loop length (drop (m_writeIt b') (m_segments b'));
  Buffer_invariant b' ≫= fun _ => Ok (h', b', iovs).

(** The block at [m_writeIt] after a [reserve], with its two assertions. *)
Definition fresh_write_block (h : heap) (b : Buffer) (length : Z)
    : result (heap * Buffer * iovec) :=
  '(h', b') ← Buffer_reserve h b length;
  assert: negb (is_end b' (m_writeIt b')) ;;
  cur ← deref (m_segments b') (m_writeIt b');
  w ← Segment_writeAvailable cur;
  assert: length <=? w ;;
  wb ← Segment_writeBuffer cur;
  data ← SegmentData_slice wb 0 length;
  Ok (h', b', iovec_of data).

Definition Buffer_writeBuffer (h : heap) (b : Buffer) (length : Z) (coalesce : bool)
    : result (heap * Buffer * iovec) :=
  if length =? 0 then Ok (h, b, iovec_null)
  else if m_writeAvailable b =? 0 then fresh_write_block h b length
  else
    cur ← deref (m_segments b) (m_writeIt b);
    w ← Segment_writeAvailable cur;
    if length <=? w then
      wb ← Segment_writeBuffer cur;
      data ← SegmentData_slice wb 0 length;
      Ok (h, b, iovec_of data)
    else if negb coalesce then
      data ← Segment_writeBuffer cur;
      Ok (h, b, iovec_of data)
    else
      b' ← Buffer_compact b;
      fresh_write_block h b' length.

(** *** Copying in *)

(** The loop of [copyIn(const Buffer &)] over the segments of the source: [first] says
    whether [it == buffer.m_segments.begin()].  The state is the target's list, its
    [m_writeIt] and [m_readAvailable], and what is left of [length]. *)
Fixpoint copyIn_buffer_loop (segs : list Segment) (writeIt : nat) (readAvailable length pos : Z)
    (first : bool) (l : list Segment) : result (list Segment * nat * Z * Z) :=
  match l with
  | [] => Ok (segs, writeIt, readAvailable, length)
  | it :: rest =>
      r ← Segment_readAvailable it;
      let toConsume := Z.min (u64 (r - pos)) length in
      rb ← Segment_readBuffer it;
      merged ←
        (if negb (readAvailable =? 0) && first then
           match writeIt with
           | O => Err Undefined
           | S p =>
               prev ← deref segs p;
               prb ← Segment_readBuffer prev;
               if bool_decide (ptr_add (SegmentData_start prb) (m_length prb)
                               = ptr_add (SegmentData_start rb) pos)
                  && Nat.eqb (m_array (m_data prev)) (m_array (m_data it))
               then
                 pw ← Segment_writeAvailable prev;
                 assert: pw =? 0 ;;
                 Ok (Some (<[p := Segment_extend prev toConsume]> segs))
               else Ok None
           end
         else Ok None);
      '(segs', writeIt') ←
        match merged with
        | Some segs' => Ok (segs', writeIt)
        | None =>
            d ← SegmentData_slice rb pos toConsume;
            newSegment ← Segment_of_data d;
            Ok (insert_at writeIt newSegment segs, S writeIt)
        end;
      let readAvailable' := u64 (readAvailable + toConsume) in
      let length' := u64 (length - toConsume) in
      if length' =? 0 then Ok (segs', writeIt', readAvailable', length')
      else copyIn_buffer_loop segs' writeIt' readAvailable' length' 0 false rest
  end.

(** [copyIn(const Buffer &buffer, length, pos)] for a source that is another object. *)
Definition Buffer_copyIn_buffer (b buffer : Buffer) (length pos : Z) : result Buffer :=
  if m_readAvailable buffer <? pos then throw out_of_range
  else
    let length := if length =? npos then u64 (m_readAvailable buffer - pos) else length in
    assert: u64 (length + pos) <=? m_readAvailable buffer ;;
    Buffer_invariant b ≫= fun _ =>
    if length =? 0 then Ok b
    else
      '(segs, writeIt, split) ← split_mixed b;
      _ ← (if split : bool
           then Buffer_invariant (mkBuffer segs (m_readAvailable b) (m_writeAvailable b) writeIt)
           else Ok tt);
      '(pos', first, l) ← skip_loop pos true (m_segments buffer);
      assert: not_end l ;;
      '(segs', writeIt', readAvailable', remaining) ←
        copyIn_buffer_loop segs writeIt (m_readAvailable b) length pos' first l;
      assert: remaining =? 0 ;;
      assert: remaining <=? readAvailable' ;;
      Ok (mkBuffer segs' readAvailable' (m_writeAvailable b) writeIt').

(** The loop of [copyIn(const void *, size_t)].  Each round fills the write segment and
    moves on, or stores the last byte: the fuel is one more than the segments left. *)
Fixpoint copyIn_data_loop (fuel : nat) (h : heap) (b : Buffer) (data : list Z)
    : result (heap * Buffer * list Z) :=
  if is_end b (m_writeIt b) || (zlen data =? 0) then Ok (h, b, data)
  else
    match fuel with
    | O => Err Diverges
    | S fuel' =>
        cur ← deref (m_segments b) (m_writeIt b);
        w ← Segment_writeAvailable cur;
        let todo := Z.min (zlen data) w in
        wb ← Segment_writeBuffer cur;
        h' ← store h (SegmentData_start wb) (ztake todo data);
        cur' ← Segment_produce cur todo;
        w' ← Segment_writeAvailable cur';
        b' ← checked (mkBuffer (<[m_writeIt b := cur']> (m_segments b))
                        (u64 (m_readAvailable b + todo)) (u64 (m_writeAvailable b - todo))
                        (if w' =? 0 then S (m_writeIt b) else m_writeIt b));
        copyIn_data_loop fuel' h' b' (zdrop todo data)
    end.

Definition Buffer_copyIn_data (h : heap) (b : Buffer) (data : list Z) : result (heap * Buffer) :=
  Buffer_invariant b ≫= fun _ =>
  '(h1, b1, rest) ← copyIn_data_loop (S (length (m_segments b) - m_writeIt b)) h b data;
  '(h2, b2) ←
    (if 0 <? zlen rest then
       '(h', newSegment) ← Segment_new h1 (zlen rest);
       wb ← Segment_writeBuffer newSegment;
       h2 ← store h' (SegmentData_start wb) rest;
       newSegment' ← Segment_produce newSegment (zlen rest);
       let segs := m_segments b1 ++ [newSegment'] in
       Ok (h2, mkBuffer segs (u64 (m_readAvailable b1 + zlen rest)) (m_writeAvailable b1)
                 (if is_end b1 (m_writeIt b1) then length segs else m_writeIt b1))
     else Ok (h1, b1));
  assert: zlen rest <=? m_readAvailable b2 ;;
  Ok (h2, b2).

(** [copyIn(const std::string &)] and [copyIn(const char* string)]: a [std::string] is its list of
    bytes, a C string ends at its first zero byte. *)
Fixpoint c_string (s : list Z) : list Z :=
  match s with
  | [] => []
  | c :: s' => if c =? 0 then [] else c :: c_string s'
  end.

Definition Buffer_copyIn_string (h : heap) (b : Buffer) (s : list Z) : result (heap * Buffer) :=
  Buffer_copyIn_data h b s.

Definition Buffer_copyIn_cstr (h : heap) (b : Buffer) (s : list Z) : result (heap * Buffer) :=
  Buffer_copyIn_data h b (c_string s).

(** [copyOut(Buffer &, length, pos)] *)
Definition Buffer_copyOut_buffer (b buffer : Buffer) (length pos : Z) : result Buffer :=
  Buffer_copyIn_buffer buffer b length pos.

(** Constructors and assignment. *)
Definition Buffer_copy (copy : Buffer) : result Buffer :=
  Buffer_copyIn_buffer Buffer_empty copy npos 0.

Definition Buffer_of_cstr (h : heap) (s : list Z) : result (heap * Buffer) :=
  Buffer_copyIn_cstr h Buffer_empty s.

Definition Buffer_of_string (h : heap) (s : list Z) : result (heap * Buffer) :=
  Buffer_copyIn_string h Buffer_empty s.

Definition Buffer_of_data (h : heap) (data : list Z) : result (heap * Buffer) :=
  Buffer_copyIn_data h Buffer_empty data.

Definition Buffer_assign (b copy : Buffer) : result Buffer :=
  b' ← Buffer_clear b true;
  Buffer_copyIn_buffer b' copy npos 0.

(** *** Searching *)

(** [memchr]: the offset of the first occurrence. *)
Fixpoint memchr (c : Z) (l : list Z) : option Z :=
  match l with
  | [] => None
  | x :: l' => if x =? c then Some 0 else Z.succ <$> memchr c l'
  end.

Fixpoint find_char_loop (h : heap) (delimiter length totalLength : Z) (l : list Segment)
    : result Z :=
  match l with
  | [] => Ok (-1)
  | segment :: rest =>
      rb ← Segment_readBuffer segment;
      r ← Segment_readAvailable segment;
      let toscan := Z.min length r in
      bytes ← load h (SegmentData_start rb) toscan;
      match memchr delimiter bytes with
      | Some point => Ok (s64 (u64 (totalLength + point)))
      | None =>
          let length' := u64 (length - toscan) in
          if length' =? 0 then Ok (-1)
          else find_char_loop h delimiter length' (u64 (totalLength + toscan)) rest
      end
  end.

Definition Buffer_find_char (h : heap) (b : Buffer) (delimiter length : Z) : result Z :=
  let length := if length =? npos then m_readAvailable b else length in
  assert: length <=? m_readAvailable b ;;
  find_char_loop h delimiter length 0 (m_segments b).

(** The comparison in the inner loop of [find(const std::string &)], with [bytes] the
    [toscan] bytes from [start] on; [again] is the next round. *)
Definition find_compare (again : list Z -> Z -> Z -> Z -> result (Z * Z * Z))
    (string bytes : list Z) (length totalLength foundSoFar : Z) : result (Z * Z * Z) :=
  assert: negb (foundSoFar =? 0) ;;
  let tocompare := Z.min (zlen bytes) (u64 (zlen string - foundSoFar)) in
  if bool_decide (ztake tocompare bytes = zslice foundSoFar tocompare string) then
    let foundSoFar' := u64 (foundSoFar + tocompare) in
    let length' := u64 (length - tocompare) in
    if foundSoFar' =? zlen string then Ok (length', totalLength, foundSoFar')
    else again (zdrop tocompare bytes) length' totalLength foundSoFar'
  else again bytes length (u64 (totalLength + foundSoFar)) 0.

(** The inner loop ([while (toscan > 0)]).  Every round but the first passes a byte, so
    one more round than there are bytes is enough. *)
Fixpoint find_scan (fuel : nat) (string bytes : list Z) (length totalLength foundSoFar : Z)
    : result (Z * Z * Z) :=
  if zlen bytes =? 0 then Ok (length, totalLength, foundSoFar)
  else
    match fuel with
    | O => Err Diverges
    | S fuel' =>
        if foundSoFar =? 0 then
          match string with
          | [] => Err Undefined
          | c :: _ =>
              match memchr c bytes with
              | Some found =>
                  find_compare (find_scan fuel' string) string (zdrop (found + 1) bytes)
                    (u64 (length - (found + 1))) (u64 (totalLength + found)) 1
              | None => Ok (u64 (length - zlen bytes), u64 (totalLength + zlen bytes), 0)
              end
          end
        else find_compare (find_scan fuel' string) string bytes length totalLength foundSoFar
    end.

Fixpoint find_string_loop (h : heap) (string : list Z) (length totalLength foundSoFar : Z)
    (l : list Segment) : result Z :=
  match l with
  | [] => Ok (if foundSoFar =? zlen string then s64 totalLength else -1)
  | segment :: rest =>
      rb ← Segment_readBuffer segment;
      r ← Segment_readAvailable segment;
      let toscan := Z.min length r in
      bytes ← load h (SegmentData_start rb) toscan;
      '(length', totalLength', foundSoFar') ←
        find_scan (S (List.length bytes)) string bytes length totalLength foundSoFar;
      if foundSoFar' =? zlen string then Ok (s64 totalLength')
      else if length' =? 0 then Ok (-1)
      else find_string_loop h string length' totalLength' foundSoFar' rest
  end.

Definition Buffer_find_string (h : heap) (b : Buffer) (string : list Z) (length : Z) : result Z :=
  let length := if length =? npos then m_readAvailable b else length in
  assert: length <=? m_readAvailable b ;;
  assert: negb (zlen string =? 0) ;;
  find_string_loop h string length 0 0 (m_segments b).

(** *** Text *)

Definition Buffer_toString (h : heap) (b : Buffer) : result (list Z) :=
  if m_readAvailable b =? 0 then Ok []
  else Buffer_copyOut h b (m_readAvailable b) 0.

(** The common part of the two [getDelimited]: what follows the search, for a delimiter
    of [dlen] bytes found at [offset] ([-1]: not found). *)
Definition take_delimited (h : heap) (b : Buffer) (offset dlen : Z)
    (eofIsDelimiter includeDelimiter : bool) : result (Buffer * list Z) :=
  assert: -1 <=? offset ;;
  if (offset =? -1) && negb eofIsDelimiter then throw unexpected_eof
  else
    let atEof := offset =? -1 in
    let offset := if offset =? -1 then m_readAvailable b else offset in
    let size := u64 (offset + (if atEof then 0 else if includeDelimiter then dlen else 0)) in
    str ← Buffer_copyOut h b size 0;
    b' ← Buffer_consume b size;
    b'' ← (if negb atEof && negb includeDelimiter then Buffer_consume b' dlen else Ok b');
    Ok (b'', str).

Definition Buffer_getDelimited_char (h : heap) (b : Buffer) (delimiter : Z)
    (eofIsDelimiter includeDelimiter : bool) : result (Buffer * list Z) :=
  offset ← Buffer_find_char h b delimiter npos;
  take_delimited h b offset 1 eofIsDelimiter includeDelimiter.

Definition Buffer_getDelimited_string (h : heap) (b : Buffer) (delimiter : list Z)
    (eofIsDelimiter includeDelimiter : bool) : result (Buffer * list Z) :=
  offset ← Buffer_find_string h b delimiter npos;
  take_delimited h b offset (zlen delimiter) eofIsDelimiter includeDelimiter.

(** [visit]: the blocks the callback is called with, in order. *)
Fixpoint visit_loop (h : heap) (length : Z) (l : list Segment)
    : result (list (list Z) * Z) :=
  match l with
  | [] => Ok ([], length)
  | segment :: rest =>
      if 0 <? length then
        r ← Segment_readAvailable segment;
        let todo := Z.min length r in
        assert: negb (todo =? 0) ;;
        rb ← Segment_readBuffer segment;
        bytes ← load h (SegmentData_start rb) todo;
        '(more, length') ← visit_loop h (u64 (length - todo)) rest;
        Ok (bytes :: more, length')
      else Ok ([], length)
  end.

Definition Buffer_visit (h : heap) (b : Buffer) (length : Z) : result (list (list Z)) :=
  let length := if length =? npos then m_readAvailable b else length in
  assert: length <=? m_readAvailable b ;;
  '(blocks, remaining) ← visit_loop h length (m_segments b);
  assert: remaining =? 0 ;;
  Ok blocks.

(** *** Comparison *)

(** [memcmp]: the sign of the difference of the first bytes that differ. *)
Fixpoint memcmp (l1 l2 : list Z) : Z :=
  match l1, l2 with
  | x :: l1', y :: l2' => if x <? y then -1 else if y <? x then 1 else memcmp l1' l2'
  | _, _ => 0
  end.

(** The loop of [opCmp(const Buffer &)]: each round passes the end of a segment on
    one of the sides, so there are at most as many as both sides have segments. *)
Fixpoint opCmp_loop (fuel : nat) (h : heap) (lengthResult leftOffset rightOffset : Z)
    (l1 l2 : list Segment) : result Z :=
  match l1, l2 with
  | leftSeg :: rest1, rightSeg :: rest2 =>
      match fuel with
      | O => Err Diverges
      | S fuel' =>
          lr ← Segment_readAvailable leftSeg;
          rr ← Segment_readAvailable rightSeg;
          assert: leftOffset <=? lr ;;
          assert: rightOffset <=? rr ;;
          let tocompare := Z.min (u64 (lr - leftOffset)) (u64 (rr - rightOffset)) in
          if tocompare =? 0 then Ok lengthResult
          else
            lb ← Segment_readBuffer leftSeg;
            rb ← Segment_readBuffer rightSeg;
            lbytes ← load h (ptr_add (SegmentData_start lb) leftOffset) tocompare;
            rbytes ← load h (ptr_add (SegmentData_start rb) rightOffset) tocompare;
            let res := memcmp lbytes rbytes in
            if negb (res =? 0) then Ok res
            else
              let leftOffset' := u64 (leftOffset + tocompare) in
              let rightOffset' := u64 (rightOffset + tocompare) in
              opCmp_loop fuel' h lengthResult
                (if leftOffset' =? lr then 0 else leftOffset')
                (if rightOffset' =? rr then 0 else rightOffset')
                (if leftOffset' =? lr then rest1 else l1)
                (if rightOffset' =? rr then rest2 else l2)
      end
  | _, _ => Ok lengthResult
  end.

(** [(int)((ptrdiff_t)a - (ptrdiff_t)b)] *)
Definition length_difference (a b : Z) : Z := s32 (s64 (s64 a - s64 b)).

Definition Buffer_opCmp (h : heap) (b rhs : Buffer) : result Z :=
  opCmp_loop (length (m_segments b) + length (m_segments rhs)) h
    (length_difference (m_readAvailable b) (m_readAvailable rhs))
    0 0 (m_segments b) (m_segments rhs).

(** The loop of [opCmp(const char *, size_t)]; [string] is the memory the argument points
    to from [offset] on, and reading past it is undefined. *)
Fixpoint opCmp_string_loop (h : heap) (lengthResult length : Z) (string : list Z)
    (l : list Segment) : result Z :=
  match l with
  | [] => Ok lengthResult
  | segment :: rest =>
      r ← Segment_readAvailable segment;
      let tocompare := Z.min r length in
      rb ← Segment_readBuffer segment;
      bytes ← load h (SegmentData_start rb) tocompare;
      if zlen string <? tocompare then Err Undefined
      else
        let res := memcmp bytes (ztake tocompare string) in
        if negb (res =? 0) then Ok res
        else
          let length' := u64 (length - tocompare) in
          if length' =? 0 then Ok lengthResult
          else opCmp_string_loop h lengthResult length' (zdrop tocompare string) rest
  end.

Definition Buffer_opCmp_string (h : heap) (b : Buffer) (string : list Z) (length : Z) : result Z :=
  let lengthResult := length_difference (m_readAvailable b) length in
  let length := if 0 <? lengthResult then m_readAvailable b else length in
  opCmp_string_loop h lengthResult length string (m_segments b).

Definition Buffer_eq (h : heap) (b rhs : Buffer) : result bool :=
  if negb (m_readAvailable rhs =? m_readAvailable b) then Ok false
  else c ← Buffer_opCmp h b rhs; Ok (c =? 0).

Definition Buffer_neq (h : heap) (b rhs : Buffer) : result bool :=
  if negb (m_readAvailable rhs =? m_readAvailable b) then Ok true
  else c ← Buffer_opCmp h b rhs; Ok (negb (c =? 0)).

Definition Buffer_eq_string (h : heap) (b : Buffer) (string : list Z) : result bool :=
  if negb (zlen string =? m_readAvailable b) then Ok false
  else c ← Buffer_opCmp_string h b string (zlen string); Ok (c =? 0).

Definition Buffer_neq_string (h : heap) (b : Buffer) (string : list Z) : result bool :=
  if negb (zlen string =? m_readAvailable b) then Ok true
  else c ← Buffer_opCmp_string h b string (zlen string); Ok (negb (c =? 0)).

End Operations.
