(* ===== verification/BufferInv.v ===== *)
(** The invariant of [Buffer] as a proposition, the bytes a buffer holds and the room it has, and what holds of one list of segments. *)

From stdpp Require Import numbers list_numbers list.
From S2P Require Import Prelude Memory Buffer.

(** ** Segments *)

(** Readable and writable bytes of a segment. *)
Definition rd (s : Segment) : Z := m_writeIndex s.
Definition wr (s : Segment) : Z := m_length (m_data s) - m_writeIndex s.

(** Offsets of the first readable and the first writable byte, and of the end. *)
Definition seg_start (s : Segment) : Z := m_start (m_data s).
Definition seg_mid (s : Segment) : Z := seg_start s + m_writeIndex s.
Definition seg_stop (s : Segment) : Z := seg_start s + m_length (m_data s).
Definition seg_array (s : Segment) : nat := m_array (m_data s).

Definition seg_ok (s : Segment) : Prop :=
  0 <= m_start (m_data s) /\ 0 <= m_writeIndex s <= m_length (m_data s) /\
  m_length (m_data s) < 2 ^ 63.

(** The segment made of the [n] readable bytes from [i] on. *)
Definition seg_slice (s : Segment) (i n : Z) : Segment :=
  mkSegment n (mkSegmentData (seg_array s) (seg_start s + i) n).

(** What [produce] and [consume] make of a segment. *)
Definition seg_produce (s : Segment) (n : Z) : Segment :=
  mkSegment (m_writeIndex s + n) (m_data s).
Definition seg_consume (s : Segment) (n : Z) : Segment :=
  mkSegment (m_writeIndex s - n)
    (mkSegmentData (seg_array s) (seg_start s + n) (m_length (m_data s) - n)).

Create HintDb seg.
#[export] Hint Extern 4 (_ <= _) => lia : seg.
#[export] Hint Extern 4 (_ < _) => lia : seg.
#[export] Hint Extern 4 (_ <= _ <= _) => lia : seg.

Section SegmentLemmas.
Variable s : Segment.
Hypothesis Hs : seg_ok s.

Local Ltac go := destruct Hs as (?&?&?); unfold Segment_produce,
  Segment_consume, Segment_truncate, Segment_readAvailable, Segment_writeAvailable,
  Segment_length, Segment_readBuffer, Segment_writeBuffer, SegmentData_slice, Segment_invariant,
  Segment_of_data, seg_produce, seg_consume, seg_slice, rd, wr, npos in *;
  repeat (cbn [mbind result_bind ASSERT m_array m_start m_length m_writeIndex m_data];
          u64_small; try ztest);
  try reflexivity.

Lemma readAvailable_ok : Segment_readAvailable s = Ok (rd s).
Proof. go. Qed.

Lemma writeAvailable_ok : Segment_writeAvailable s = Ok (wr s).
Proof. go. Qed.

Lemma length_ok : Segment_length s = Ok (m_length (m_data s)).
Proof. go. Qed.

Lemma readBuffer_ok : Segment_readBuffer s = Ok (mkSegmentData (seg_array s) (seg_start s) (rd s)).
Proof. go. unfold seg_array, seg_start. repeat f_equal; lia. Qed.

Lemma writeBuffer_ok : Segment_writeBuffer s = Ok (mkSegmentData (seg_array s) (seg_mid s) (wr s)).
Proof. go. Qed.

Lemma seg_produce_ok n : 0 <= n <= wr s -> Segment_produce s n = Ok (seg_produce s n).
Proof. intros. go. Qed.

Lemma seg_consume_ok n : 0 <= n <= rd s -> Segment_consume s n = Ok (seg_consume s n).
Proof. intros. go. Qed.

Lemma seg_truncate_ok n : 0 < n <= rd s -> Segment_truncate s n = Ok (seg_slice s 0 n).
Proof. intros. go. Qed.

Lemma rd_range : 0 <= rd s < 2 ^ 63.
Proof. unfold rd. destruct Hs as (?&?&?). lia. Qed.

Lemma wr_range : 0 <= wr s < 2 ^ 63.
Proof. unfold wr. destruct Hs as (?&?&?). lia. Qed.

Lemma rd_wr_len : rd s + wr s = m_length (m_data s).
Proof. unfold rd, wr. lia. Qed.

Lemma seg_slice_ok i n : 0 <= i -> 0 <= n -> i + n <= rd s -> seg_ok (seg_slice s i n).
Proof. unfold seg_slice, seg_ok, rd, seg_start. cbn. destruct Hs as (?&?&?). lia. Qed.

End SegmentLemmas.

Lemma Segment_of_data_ok d :
  Segment_of_data d = Ok (mkSegment (m_length d) d).
Proof. unfold Segment_of_data, Segment_invariant. cbn. rewrite Z.leb_refl. reflexivity. Qed.

Lemma slice_ok d i n :
  0 <= i -> 0 <= n < 2 ^ 63 -> i + n <= m_length d < 2 ^ 63 ->
  SegmentData_slice d i n = Ok (mkSegmentData (m_array d) (m_start d + i) n).
Proof.
  intros. unfold SegmentData_slice, npos. ztest. u64_small. repeat ztest. reflexivity.
Qed.

Lemma rd_slice s i n : rd (seg_slice s i n) = n.
Proof. reflexivity. Qed.
Lemma wr_slice s i n : wr (seg_slice s i n) = 0.
Proof. unfold wr. cbn. lia. Qed.
Lemma rd_produce s n : rd (seg_produce s n) = rd s + n.
Proof. reflexivity. Qed.
Lemma wr_produce s n : wr (seg_produce s n) = wr s - n.
Proof. unfold wr. cbn. lia. Qed.
Lemma rd_consume s n : rd (seg_consume s n) = rd s - n.
Proof. reflexivity. Qed.
Lemma wr_consume s n : wr (seg_consume s n) = wr s.
Proof. unfold wr. cbn. lia. Qed.

Lemma seg_produce_seg_ok s n : seg_ok s -> 0 <= n <= wr s -> seg_ok (seg_produce s n).
Proof. unfold seg_ok, wr. cbn. lia. Qed.

Lemma seg_consume_seg_ok s n : seg_ok s -> 0 <= n <= rd s -> seg_ok (seg_consume s n).
Proof. unfold seg_ok, rd, seg_consume, seg_start. cbn. lia. Qed.

#[export] Hint Resolve seg_produce_seg_ok seg_consume_seg_ok : seg.
#[global] Hint Rewrite rd_slice wr_slice rd_produce wr_produce rd_consume wr_consume : seg.

(** Evaluates the accessors of segments that are known to be [seg_ok]. *)
Ltac seg_eval :=
  repeat first
  [ rewrite readAvailable_ok by eauto with seg
  | rewrite writeAvailable_ok by eauto with seg
  | rewrite length_ok by eauto with seg
  | rewrite readBuffer_ok by eauto with seg
  | rewrite writeBuffer_ok by eauto with seg
  | rewrite Segment_of_data_ok
  | progress step ].

(** ** The bytes of a segment in a heap *)

(** The segment lies within its array. *)
Definition seg_in (h : heap) (s : Segment) : Prop :=
  exists arr, h !! seg_array s = Some arr /\ seg_stop s <= zlen arr.

Definition seg_bytes (h : heap) (s : Segment) : list Z :=
  match h !! seg_array s with
  | Some arr => zslice (seg_start s) (rd s) arr
  | None => []
  end.

Definition segs_bytes (h : heap) (l : list Segment) : list Z := concat (seg_bytes h <$> l).

Definition reads (l : list Segment) : Z := zsum rd l.
Definition writes (l : list Segment) : Z := zsum wr l.

Lemma segs_bytes_cons h s l : segs_bytes h (s :: l) = seg_bytes h s ++ segs_bytes h l.
Proof. reflexivity. Qed.

Lemma segs_bytes_app h l k : segs_bytes h (l ++ k) = segs_bytes h l ++ segs_bytes h k.
Proof. unfold segs_bytes. rewrite fmap_app. apply concat_app. Qed.

Lemma zlen_seg_bytes h s : seg_ok s -> seg_in h s -> zlen (seg_bytes h s) = rd s.
Proof.
  intros (?&?&?) (arr & Ha & Hl). unfold seg_bytes. rewrite Ha.
  unfold seg_stop, seg_start, rd in *. apply zlen_zslice; lia.
Qed.

Lemma zlen_segs_bytes h l :
  Forall seg_ok l -> Forall (seg_in h) l -> zlen (segs_bytes h l) = reads l.
Proof.
  intros H1 H2. induction l as [|s l IH]; [reflexivity|].
  inversion H1; inversion H2; subst.
  rewrite segs_bytes_cons, zlen_app, zlen_seg_bytes by done.
  unfold reads in *. rewrite zsum_cons, IH by done. reflexivity.
Qed.

Lemma load_seg h s i n :
  seg_ok s -> seg_in h s -> 0 <= i -> 0 <= n -> i + n <= rd s ->
  load h (ptr_add (Ptr (seg_array s) (seg_start s)) i) n = Ok (zslice i n (seg_bytes h s)).
Proof.
  intros (?&?&?) (arr & Ha & Hl) ???. unfold load, seg_bytes, ptr_add, in_array. cbn [p_array p_offset].
  rewrite Ha. unfold seg_stop, seg_start, rd in *. repeat ztest. cbn [andb].
  rewrite zslice_zslice by lia. reflexivity.
Qed.

Lemma load_seg_0 h s n :
  seg_ok s -> seg_in h s -> 0 <= n <= rd s ->
  load h (Ptr (seg_array s) (seg_start s)) n = Ok (ztake n (seg_bytes h s)).
Proof.
  intros. pose proof (load_seg h s 0 n) as E.
  unfold ptr_add in E. cbn in E. rewrite Z.add_0_r in E. apply E; lia || done.
Qed.

Lemma seg_bytes_slice h s i n :
  seg_ok s -> 0 <= i -> 0 <= n -> i + n <= rd s ->
  seg_bytes h (seg_slice s i n) = zslice i n (seg_bytes h s).
Proof.
  intros (?&?&?) ???. unfold seg_bytes, seg_slice, seg_array, seg_start, rd in *. cbn in *.
  destruct (h !! _); [|unfold zslice; rewrite zdrop_nil, ztake_nil; done].
  rewrite zslice_zslice by lia. reflexivity.
Qed.

Lemma seg_bytes_consume h s n :
  seg_ok s -> 0 <= n <= rd s -> seg_bytes h (seg_consume s n) = zdrop n (seg_bytes h s).
Proof.
  intros (?&?&?) ?. unfold seg_bytes, seg_consume, seg_array, seg_start, rd in *. cbn in *.
  destruct (h !! _); [|rewrite zdrop_nil; done].
  unfold zslice. rewrite zdrop_ztake, zdrop_zdrop by lia. reflexivity.
Qed.

Lemma seg_in_slice h s i n :
  seg_ok s -> seg_in h s -> 0 <= i -> i + n <= rd s -> seg_in h (seg_slice s i n).
Proof.
  intros (?&?&?) (arr & Ha & Hl) ??. exists arr. split; [done|].
  unfold seg_stop, seg_start, seg_slice, rd, seg_start in *. cbn in *. lia.
Qed.

Lemma seg_in_produce h s n : seg_in h s -> seg_in h (seg_produce s n).
Proof. intros H. exact H. Qed.

Lemma seg_in_consume h s n : seg_in h s -> seg_in h (seg_consume s n).
Proof.
  intros (arr & Ha & Hl). exists arr. split; [done|].
  unfold seg_stop, seg_start, seg_consume, seg_start in *. cbn in *. lia.
Qed.

#[export] Hint Resolve seg_in_slice seg_in_produce seg_in_consume seg_slice_ok : seg.

(** ** Lists of segments *)

(** A segment before [m_writeIt] is readable to its end; the ones after it have
    nothing readable. *)
Definition pre_ok (s : Segment) : Prop := seg_ok s /\ 0 < rd s /\ wr s = 0.
Definition tail_ok (s : Segment) : Prop := seg_ok s /\ rd s = 0 /\ 0 < wr s.
Definition post_ok (post : list Segment) : Prop :=
  match post with
  | [] => True
  | s :: rest => seg_ok s /\ 0 < wr s /\ Forall tail_ok rest
  end.

(** Neighbours that would be one segment: the second continues the first. *)
Definition adjacent (s t : Segment) : Prop :=
  seg_array s = seg_array t /\ seg_stop s = seg_start t.

(** A relation between all neighbours of a list. *)
Fixpoint chain {A} (R : A -> A -> Prop) (l : list A) : Prop :=
  match l with
  | [] => True
  | s :: l' => match l' with [] => True | t :: _ => R s t end /\ chain R l'
  end.

(** Neighbours that [Buffer::invariant()] accepts.  It tests less than [strict] asks
    for: a full segment may be followed by the memory next to it as long as nothing has
    been produced there.  Appending to a buffer in that state trips the assertion. *)
Definition unmerged (strict : bool) (s t : Segment) : Prop :=
  (strict = false /\ wr s = 0 /\ rd t = 0) \/ ~ adjacent s t.

Definition merged (strict : bool) : list Segment -> Prop := chain (unmerged strict).

(** The writable bytes of [s] are no bytes of [t]. *)
Definition w_apart (s t : Segment) : Prop :=
  wr s <= 0 \/ seg_array s <> seg_array t \/ seg_stop s <= seg_start t \/ seg_stop t <= seg_mid s.

Definition sep (s t : Segment) : Prop := w_apart s t /\ w_apart t s.

Fixpoint all_pairs {A} (R : A -> A -> Prop) (l : list A) : Prop :=
  match l with
  | [] => True
  | x :: l' => Forall (R x) l' /\ all_pairs R l'
  end.

Lemma all_pairs_app {A} (R : A -> A -> Prop) l k :
  all_pairs R (l ++ k) <->
  all_pairs R l /\ all_pairs R k /\ Forall (fun x => Forall (R x) k) l.
Proof.
  induction l as [|x l IH]; cbn.
  - pose proof (Forall_nil_2 (fun x => Forall (R x) k)). tauto.
  - rewrite Forall_app, Forall_cons_iff, IH. tauto.
Qed.

Lemma all_pairs_In {A} (R : A -> A -> Prop) l x y :
  all_pairs R l -> In x l -> In y l -> x <> y -> R x y \/ R y x.
Proof.
  induction l as [|z l IH]; [done|]. intros [Hz Hl] [<-|Hx] [<-|Hy] Hne; auto; [congruence| |].
  - left. eapply List.Forall_forall in Hy; eauto.
  - right. eapply List.Forall_forall in Hx; eauto.
Qed.

Lemma sep_sym s t : sep s t -> sep t s.
Proof. unfold sep. tauto. Qed.

Lemma chain_app {A} (R : A -> A -> Prop) l k :
  chain R (l ++ k) <->
  chain R l /\ chain R k /\ (forall s t, last l = Some s -> head k = Some t -> R s t).
Proof.
  induction l as [|s l IH]; cbn.
  - split; [intros; split_and!; try done; intros; discriminate|tauto].
  - destruct l as [|t l]; cbn in *.
    + destruct k as [|t k]; cbn.
      * split; [intros; split_and!; try done; intros; discriminate|tauto].
      * split; [intros [? ?]; split_and!; try tauto; intros ?? [= <-] [= <-]; done|].
        intros (?&?&H). split; [apply H; done|tauto].
    + rewrite IH. tauto.
Qed.

Lemma chain_impl {A} (R Q : A -> A -> Prop) l :
  (forall s t, R s t -> Q s t) -> chain R l -> chain Q l.
Proof.
  intros H. induction l as [|s l IH]; [done|]. intros [Hh Hc]. split; [|auto].
  destruct l; auto.
Qed.

Lemma merged_app b l k :
  merged b (l ++ k) <->
  merged b l /\ merged b k /\ (forall s t, last l = Some s -> head k = Some t -> unmerged b s t).
Proof. apply chain_app. Qed.

Lemma merged_nearly b l : merged b l -> merged false l.
Proof. apply chain_impl. unfold unmerged. tauto. Qed.

(** Same bytes of memory, whatever is readable in them. *)
Definition same_place (s s' : Segment) : Prop :=
  seg_array s' = seg_array s /\ seg_start s' = seg_start s /\ seg_stop s' = seg_stop s.

Lemma merged_same_place l l' : Forall2 same_place l l' -> merged true l -> merged true l'.
Proof.
  induction 1 as [|s s' l l' (Ha&Hs&He) Hl IH]; [done|]. cbn. intros [Hh Hm].
  split; [|by apply IH]. destruct Hl as [|t t' l l' (Ha'&Hs'&He') _]; [done|].
  right. destruct Hh as [[? _]|Hh]; [done|]. unfold adjacent in *. rewrite Ha, Ha', He, Hs'. done.
Qed.

(** ** The representation of a buffer

    [m_segments] is [pre ++ post], split at [m_writeIt]; the counters are the sums. *)

Definition mk (pre post : list Segment) : Buffer :=
  mkBuffer (pre ++ post) (reads (pre ++ post)) (writes post) (length pre).

Record shape (pre post : list Segment) : Prop := {
  shape_pre : Forall pre_ok pre;
  shape_post : post_ok post;
  shape_reads : reads (pre ++ post) < 2 ^ 63;
  shape_writes : writes post < 2 ^ 63;
}.

Record good (strict : bool) (h : heap) (pre post : list Segment) : Prop := {
  good_shape : shape pre post;
  good_merged : merged strict (pre ++ post);
  good_in : Forall (seg_in h) (pre ++ post);
  good_sep : all_pairs sep (pre ++ post);
}.

(** A well-formed buffer, and one that can be appended to as it is. *)
Definition wf (h : heap) (b : Buffer) : Prop :=
  exists pre post, b = mk pre post /\ good false h pre post.
Definition wf_append (h : heap) (b : Buffer) : Prop :=
  exists pre post, b = mk pre post /\ good true h pre post.

(** The contents: what can be read. *)
Definition bytes (h : heap) (b : Buffer) : list Z := segs_bytes h (m_segments b).

(** The memory that is reserved and not yet produced, in order. *)
Definition seg_wbytes (h : heap) (s : Segment) : list Z :=
  match h !! seg_array s with
  | Some arr => zslice (seg_mid s) (wr s) arr
  | None => []
  end.
Definition segs_wbytes (h : heap) (l : list Segment) : list Z := concat (seg_wbytes h <$> l).
Definition wbytes (h : heap) (b : Buffer) : list Z :=
  segs_wbytes h (drop (m_writeIt b) (m_segments b)).

Lemma pre_ok_seg_ok s : pre_ok s -> seg_ok s.
Proof. unfold pre_ok. tauto. Qed.
Lemma tail_ok_seg_ok s : tail_ok s -> seg_ok s.
Proof. unfold tail_ok. tauto. Qed.
#[export] Hint Resolve pre_ok_seg_ok tail_ok_seg_ok : seg.

Lemma Forall_pre_seg_ok l : Forall pre_ok l -> Forall seg_ok l.
Proof. intros H. eapply Forall_impl; [exact H|]. eauto with seg. Qed.
Lemma Forall_tail_seg_ok l : Forall tail_ok l -> Forall seg_ok l.
Proof. intros H. eapply Forall_impl; [exact H|]. eauto with seg. Qed.
Lemma post_seg_ok l : post_ok l -> Forall seg_ok l.
Proof. destruct l; [constructor|]. intros (?&?&?). constructor; auto using Forall_tail_seg_ok. Qed.
#[export] Hint Resolve Forall_pre_seg_ok Forall_tail_seg_ok post_seg_ok : seg.

Lemma tail_post_ok l : Forall tail_ok l -> post_ok l.
Proof. destruct 1 as [|? ? (?&?&?)]; cbn; auto. Qed.
#[export] Hint Resolve tail_post_ok : seg.

Lemma shape_seg_ok pre post : shape pre post -> Forall seg_ok (pre ++ post).
Proof. intros []. apply Forall_app. eauto with seg. Qed.

Lemma reads_nonneg l : Forall seg_ok l -> 0 <= reads l.
Proof.
  intros H. apply zsum_nonneg. eapply Forall_impl; [exact H|]. intros s Hs. cbn in *.
  pose proof (rd_range s Hs). lia.
Qed.
Lemma writes_nonneg l : Forall seg_ok l -> 0 <= writes l.
Proof.
  intros H. apply zsum_nonneg. eapply Forall_impl; [exact H|]. intros s Hs. cbn in *.
  pose proof (wr_range s Hs). lia.
Qed.
Lemma reads_nil : reads [] = 0.
Proof. reflexivity. Qed.
Lemma writes_nil : writes [] = 0.
Proof. reflexivity. Qed.
Lemma reads_app l k : reads (l ++ k) = reads l + reads k.
Proof. apply zsum_app. Qed.
Lemma writes_app l k : writes (l ++ k) = writes l + writes k.
Proof. apply zsum_app. Qed.
Lemma reads_cons s l : reads (s :: l) = rd s + reads l.
Proof. reflexivity. Qed.
Lemma writes_cons s l : writes (s :: l) = wr s + writes l.
Proof. reflexivity. Qed.
Lemma reads_tail l : Forall tail_ok l -> reads l = 0.
Proof. intros H. apply zsum_zero. eapply Forall_impl; [exact H|]. unfold tail_ok. cbn. tauto. Qed.
Lemma writes_pre l : Forall pre_ok l -> writes l = 0.
Proof. intros H. apply zsum_zero. eapply Forall_impl; [exact H|]. unfold pre_ok. cbn. tauto. Qed.
#[global] Hint Rewrite reads_nil writes_nil reads_app writes_app reads_cons writes_cons : seg.

Lemma zsum_pos {A} (f : A -> Z) l : Forall (fun x => 0 < f x) l -> l <> [] -> 0 < zsum f l.
Proof.
  destruct 1 as [|x l Hx Hl]; [done|]. intros _. rewrite zsum_cons.
  pose proof (zsum_nonneg f l). cut (0 <= zsum f l); [lia|]. apply H.
  eapply Forall_impl; [exact Hl|]. cbn. lia.
Qed.

Lemma seg_bytes_nil h s : seg_ok s -> rd s = 0 -> seg_bytes h s = [].
Proof. intros ? E. unfold seg_bytes, zslice. rewrite E. destruct (_ !! _); reflexivity. Qed.

Lemma segs_bytes_tail h l : Forall tail_ok l -> segs_bytes h l = [].
Proof.
  induction 1 as [|s l (?&?&?) _ IH]; [done|].
  rewrite segs_bytes_cons, seg_bytes_nil, IH by done. reflexivity.
Qed.

(** ** Shrinking segments

    Every operation but the merging of [copyIn] replaces segments by parts of them. *)

Definition within (s' s : Segment) : Prop :=
  seg_array s' = seg_array s /\ seg_start s <= seg_start s' /\ seg_stop s' <= seg_stop s /\
  (wr s' <= 0 \/ seg_mid s <= seg_mid s').

Lemma wr_stop_mid s : wr s = seg_stop s - seg_mid s.
Proof. unfold wr, seg_stop, seg_mid. lia. Qed.

Lemma w_apart_within s s' t t' :
  within s' s -> within t' t -> w_apart s t -> w_apart s' t'.
Proof.
  intros (Ha & H1 & H2 & H3) (Hb & H4 & H5 & _) [H|[H|H]];
    unfold w_apart; rewrite Ha, Hb; rewrite !wr_stop_mid in *; [left; lia|tauto|].
  destruct (decide (seg_array s = seg_array t)); [|tauto]. lia.
Qed.

Lemma sep_within s s' t t' : within s' s -> within t' t -> sep s t -> sep s' t'.
Proof. intros ? ? []. split; eapply w_apart_within; eauto. Qed.

Lemma Forall_sep_within s s' l l' :
  within s' s -> Forall2 within l' l -> Forall (sep s) l -> Forall (sep s') l'.
Proof.
  intros Hs H. induction H as [|t' t l' l Ht Hl IH]; [constructor|].
  intros F. apply Forall_cons in F as []. constructor; eauto using sep_within.
Qed.

Lemma all_pairs_within l l' : Forall2 within l' l -> all_pairs sep l -> all_pairs sep l'.
Proof.
  induction 1 as [|s' s l' l Hs Hl IH]; [done|]. intros []. split; eauto using Forall_sep_within.
Qed.

Lemma seg_in_within h s s' : within s' s -> seg_in h s -> seg_in h s'.
Proof. intros (Ha&_&He&_) (arr & E & Hl). exists arr. rewrite Ha. split; [done|lia]. Qed.

Lemma Forall_in_within h l l' : Forall2 within l' l -> Forall (seg_in h) l -> Forall (seg_in h) l'.
Proof.
  induction 1; [done|]. intros F. apply Forall_cons in F as []. constructor; eauto using seg_in_within.
Qed.

Lemma within_refl s : within s s.
Proof. unfold within. lia. Qed.

Lemma within_produce s n : 0 <= n -> within (seg_produce s n) s.
Proof. intros. unfold within, seg_mid, seg_stop, seg_start, seg_produce. cbn. split; [done|lia]. Qed.

Lemma within_consume s n : seg_ok s -> 0 <= n <= rd s -> within (seg_consume s n) s.
Proof.
  intros (?&?&?) ?. unfold within, seg_mid, seg_stop, rd, seg_consume, seg_start in *. cbn in *. split; [done|lia].
Qed.

Lemma within_slice s i n : seg_ok s -> 0 <= i -> i + n <= rd s -> within (seg_slice s i n) s.
Proof.
  intros (?&?&?) ??. unfold within. rewrite wr_slice.
  unfold seg_mid, seg_stop, rd, seg_slice, seg_start in *. cbn in *. split; [done|lia].
Qed.

Lemma Forall2_within_refl l : Forall2 within l l.
Proof. induction l; constructor; auto using within_refl. Qed.

#[export] Hint Resolve within_refl within_produce within_consume within_slice
  Forall2_within_refl : seg.

Lemma same_place_produce s n : same_place s (seg_produce s n).
Proof. unfold same_place. done. Qed.
Lemma same_place_refl l : Forall2 same_place l l.
Proof. induction l; constructor; auto. unfold same_place. done. Qed.
#[export] Hint Resolve same_place_produce same_place_refl : seg.

(** The writable bytes of a segment. *)
Lemma seg_bytes_produce h s n :
  seg_ok s -> 0 <= n <= wr s ->
  seg_bytes h (seg_produce s n) = seg_bytes h s ++ ztake n (seg_wbytes h s).
Proof.
  intros (?&?&?) ?. unfold seg_bytes, seg_wbytes, seg_produce, seg_array, seg_mid, seg_start, rd, wr in *.
  cbn in *. destruct (h !! _); [|rewrite ztake_nil; done].
  unfold zslice. rewrite ztake_add, ztake_ztake, zdrop_zdrop by lia. reflexivity.
Qed.

Lemma zlen_seg_wbytes h s : seg_ok s -> seg_in h s -> zlen (seg_wbytes h s) = wr s.
Proof.
  intros (?&?&?) (arr & Ha & Hl). unfold seg_wbytes. rewrite Ha.
  unfold seg_stop, seg_mid, seg_start, wr in *. apply zlen_zslice; lia.
Qed.

Lemma segs_wbytes_cons h s l : segs_wbytes h (s :: l) = seg_wbytes h s ++ segs_wbytes h l.
Proof. reflexivity. Qed.

(** The fields of a represented buffer. *)
Section Fields.
Variables pre post : list Segment.

Lemma mk_segments : m_segments (mk pre post) = pre ++ post.
Proof. reflexivity. Qed.
Lemma mk_reads : m_readAvailable (mk pre post) = reads (pre ++ post).
Proof. reflexivity. Qed.
Lemma mk_writes : m_writeAvailable (mk pre post) = writes post.
Proof. reflexivity. Qed.
Lemma mk_writeIt : m_writeIt (mk pre post) = length pre.
Proof. reflexivity. Qed.
Lemma mk_is_end : is_end (mk pre post) (length pre) = match post with [] => true | _ => false end.
Proof.
  unfold is_end. rewrite mk_segments, length_app.
  destruct post; cbn; [apply Nat.eqb_eq|apply Nat.eqb_neq]; lia.
Qed.
Lemma mk_deref s : deref (pre ++ s :: post) (length pre) = Ok s.
Proof. unfold deref. rewrite list_lookup_middle; done. Qed.
Lemma mk_update s s' : <[length pre := s']> (pre ++ s :: post) = pre ++ s' :: post.
Proof. rewrite insert_app_r_alt, Nat.sub_diag by lia. done. Qed.

End Fields.

Ltac mk_simpl := rewrite ?mk_writeIt, ?mk_segments, ?mk_reads, ?mk_writes, ?mk_is_end,
  ?mk_deref, ?mk_update, ?drop_app_length, ?take_app_length.

(** Recognising the representation of a buffer. *)
Lemma mk_intro pre post l r w it :
  l = pre ++ post -> r = reads (pre ++ post) -> w = writes post -> it = length pre ->
  mkBuffer l r w it = mk pre post.
Proof. intros -> -> -> ->. reflexivity. Qed.

(** The readable bytes of a segment, and their distance from writable ones. *)
Definition readpart (t : Segment) : Segment := seg_slice t 0 (rd t).
Definition r_apart (s t : Segment) : Prop := w_apart s (readpart t).

Lemma readpart_within t : seg_ok t -> within (readpart t) t.
Proof. intros H. unfold readpart. pose proof (rd_range t H). apply within_slice; auto; lia. Qed.

Lemma w_apart_r_apart s t : seg_ok t -> w_apart s t -> r_apart s t.
Proof. intros Ht. apply w_apart_within; [apply within_refl|by apply readpart_within]. Qed.

Lemma Forall_r_apart s l : Forall seg_ok l -> Forall (w_apart s) l -> Forall (r_apart s) l.
Proof.
  intros Hl Ha. induction Hl; [constructor|]. apply Forall_cons in Ha as [].
  constructor; auto using w_apart_r_apart.
Qed.

Lemma r_apart_within s s' t : within s' s -> r_apart s t -> r_apart s' t.
Proof. intros W. apply w_apart_within; [done|apply within_refl]. Qed.
