(* ===== verification/BufferOps.v ===== *)
(** [reserve], [adopt], [compact], [clear], [produce], [consume] and [truncate] of [Buffer]: what they do to the bytes, and that they keep the invariant. *)

From stdpp Require Import numbers list_numbers list.
From S2P Require Import Prelude Memory Buffer BufferInv.

(** ** The assertions of [Buffer::invariant()] *)

Lemma merge_check_ok s t :
  seg_ok s -> seg_ok t -> unmerged false s t ->
  merge_check s t (rd s) (wr s) = Ok tt.
Proof.
  intros Hs Ht [(_&Hw&Hr)|Ha]; unfold merge_check; seg_eval; [rewrite Hw, Hr; reflexivity|].
  assert (E : bool_decide (Ptr (seg_array s) (seg_stop s) = Ptr (seg_array t) (seg_start t)) = false).
  { apply bool_decide_false. intros [= ??]. apply Ha. split; done. }
  destruct (wr s =? 0) eqn:Ew; destruct (rd t =? 0) eqn:Er; try reflexivity; seg_eval;
    unfold ptr_add, SegmentData_start; cbn [p_array p_offset m_array m_start].
  - replace (seg_start s + rd s) with (seg_stop s)
      by (unfold wr, seg_stop, rd in *; lia).
    rewrite E. reflexivity.
  - replace (seg_mid s + wr s) with (seg_stop s) by (unfold wr, seg_stop, seg_mid; lia).
    replace (seg_mid t) with (seg_start t) by (unfold rd, seg_mid in *; lia).
    rewrite E. reflexivity.
Qed.

Lemma invariant_loop_pre wi pre post i read write :
  Forall pre_ok pre -> Forall seg_ok post -> merged false (pre ++ post) ->
  0 <= read -> read + reads pre < 2 ^ 64 -> 0 <= write < 2 ^ 64 ->
  invariant_loop wi i false read write (pre ++ post) =
  invariant_loop wi (i + length pre) false (read + reads pre) write post.
Proof.
  revert i read. induction pre as [|s pre IH]; intros i read Hp Hq Hm Hr Hb Hw; cbn [length app].
  - rewrite Nat.add_0_r. unfold reads. rewrite zsum_nil, Z.add_0_r. reflexivity.
  - apply Forall_cons in Hp as [(Hs & Hrd & Hwr) Hp]. destruct Hm as [Hh Hm].
    rewrite reads_cons in *. pose proof (reads_nonneg pre (Forall_pre_seg_ok _ Hp)).
    cbn [invariant_loop]. seg_eval. rewrite Hwr. cbn.
    assert (E : (match pre ++ post with [] => Ok tt | t :: _ => merge_check s t (rd s) 0 end)
                = Ok tt).
    { destruct (pre ++ post) as [|t l] eqn:El; [done|]. rewrite <- Hwr.
      apply merge_check_ok; auto.
      assert (F : Forall seg_ok (pre ++ post)) by (apply Forall_app; eauto with seg).
      rewrite El in F. apply Forall_cons in F as []. done. }
    rewrite E. step. u64_small. rewrite Z.add_0_r, IH by (auto; lia).
    rewrite Nat.add_succ_r, Z.add_assoc. reflexivity.
Qed.

Lemma invariant_loop_tail wi l i read write :
  Forall tail_ok l -> merged false l -> 0 <= read < 2 ^ 64 -> 0 <= write -> write + writes l < 2 ^ 64 ->
  invariant_loop wi i true read write l = Ok (read, write + writes l).
Proof.
  revert i write. induction l as [|s l IH]; intros i write Hl Hm Hr Hw Hb.
  - cbn. unfold writes. rewrite zsum_nil, Z.add_0_r. reflexivity.
  - apply Forall_cons in Hl as [(Hs & Hrd & Hwr) Hl]. destruct Hm as [Hh Hm].
    rewrite writes_cons in *. pose proof (writes_nonneg l (Forall_tail_seg_ok _ Hl)).
    cbn [invariant_loop]. seg_eval. rewrite Hrd. cbn.
    assert (E : (match l with [] => Ok tt | t :: _ => merge_check s t 0 (wr s) end) = Ok tt).
    { destruct l as [|t l]; [done|]. rewrite <- Hrd. apply merge_check_ok; auto.
      apply Forall_cons in Hl as [Ht _]. eauto with seg. }
    rewrite E. step. u64_small. rewrite Z.add_0_r, IH by (auto; lia).
    rewrite Z.add_assoc. reflexivity.
Qed.

Lemma invariant_ok pre post :
  shape pre post -> merged false (pre ++ post) -> Buffer_invariant (mk pre post) = Ok tt.
Proof.
  intros [Hp Hq Hr Hw] Hm. unfold Buffer_invariant, mk. cbn [m_writeIt m_segments].
  pose proof (reads_nonneg pre (Forall_pre_seg_ok _ Hp)).
  pose proof (post_seg_ok _ Hq) as Hqs. pose proof (reads_nonneg post Hqs).
  rewrite reads_app in *.
  rewrite invariant_loop_pre by (auto with seg; lia). cbn [Nat.add].
  apply chain_app in Hm as (_ & Hm & _).
  destruct post as [|s rest].
  - cbn [invariant_loop]. unfold is_end. cbn. rewrite reads_nil, app_nil_r, Nat.eqb_refl.
    ztest. reflexivity.
  - destruct Hq as (Hs & Hsw & Hq). rewrite reads_cons, writes_cons in *.
    pose proof (writes_nonneg rest (Forall_tail_seg_ok _ Hq)). pose proof (rd_range s Hs).
    pose proof (reads_tail rest Hq) as Hrt. destruct Hm as [Hh Hm].
    cbn [invariant_loop]. seg_eval.
    rewrite (proj2 (Z.eqb_neq (wr s) 0)) by lia. step. rewrite Nat.eqb_refl. step.
    assert (E : (match rest with [] => Ok tt | t :: _ => merge_check s t (rd s) (wr s) end) = Ok tt).
    { destruct rest as [|t l]; [done|]. apply merge_check_ok; auto.
      apply Forall_cons in Hq as [Ht _]. eauto with seg. }
    rewrite E. step. u64_small. rewrite invariant_loop_tail by (auto; lia). step.
    cbn [m_readAvailable m_writeAvailable].
    repeat ztest. reflexivity.
Qed.

Lemma checked_ok pre post :
  shape pre post -> merged false (pre ++ post) -> checked (mk pre post) = Ok (mk pre post).
Proof. intros. unfold checked. rewrite invariant_ok by done. reflexivity. Qed.

Lemma good_invariant b h pre post : good b h pre post -> Buffer_invariant (mk pre post) = Ok tt.
Proof. intros []. apply invariant_ok; eauto using merged_nearly. Qed.

Lemma good_checked b h pre post : good b h pre post -> checked (mk pre post) = Ok (mk pre post).
Proof. intros []. apply checked_ok; eauto using merged_nearly. Qed.

(** ** produce *)

Lemma produce_loop_ok n l :
  post_ok l -> 0 <= n <= writes l -> writes l < 2 ^ 63 ->
  exists l1 l2, produce_loop n l = Ok (l1 ++ l2, length l1) /\
    Forall pre_ok l1 /\ post_ok l2 /\
    Forall2 same_place l (l1 ++ l2) /\ Forall2 within (l1 ++ l2) l /\
    reads (l1 ++ l2) = reads l + n /\ writes l2 = writes l - n /\
    forall h, Forall (seg_in h) l ->
      segs_bytes h (l1 ++ l2) = segs_bytes h l ++ ztake n (segs_wbytes h l).
Proof.
  revert n. induction l as [|s l IH]; intros n Hl Hn Hb.
  - rewrite writes_nil in *. assert (n = 0) as -> by lia. exists [], []. cbn. split_and!; auto.
  - destruct Hl as (Hs & Hw & Hl). rewrite writes_cons in *.
    pose proof (writes_nonneg l (Forall_tail_seg_ok _ Hl)). pose proof (wr_range s Hs).
    cbn [produce_loop]. destruct (Z.ltb_spec 0 n).
    + seg_eval. destruct (decide (n < wr s)) as [Hlt|Hge].
      * rewrite Z.min_r, seg_produce_ok by (auto; lia). seg_eval. rewrite wr_produce.
        u64_small. repeat ztest. exists [], (seg_produce s n :: l). cbn [app length].
        rewrite !reads_cons, writes_cons, rd_produce, wr_produce.
        split_and!; eauto 6 with seg; try lia.
        { split_and!; auto with seg; rewrite ?wr_produce; eauto with seg; lia. }
        intros h Hin. apply Forall_cons in Hin as [Hin _].
        rewrite !segs_bytes_cons, seg_bytes_produce, segs_bytes_tail, !app_nil_r by (auto; lia).
        rewrite segs_wbytes_cons, ztake_app_le by (rewrite zlen_seg_wbytes; auto; lia). done.
      * rewrite Z.min_l, seg_produce_ok by (auto; lia). step.
        assert (Hs' : seg_ok (seg_produce s (wr s))) by (apply seg_produce_seg_ok; auto; lia).
        seg_eval. rewrite wr_produce. u64_small. ztest.
        destruct (IH (n - wr s)) as (l1 & l2 & E & P1 & P2 & P3 & P4 & P5 & P6 & P7); eauto with seg; [lia..|].
        rewrite E. step. exists (seg_produce s (wr s) :: l1), l2. cbn [app length].
        rewrite !reads_cons, rd_produce, P5, P6. pose proof (rd_range s Hs).
        split_and!; auto with seg; try lia.
        { constructor; auto. unfold pre_ok. rewrite rd_produce, wr_produce. split_and!; auto; lia. }
        intros h Hin. apply Forall_cons in Hin as [Hin Hin'].
        rewrite !segs_bytes_cons, seg_bytes_produce, P7, segs_bytes_tail by (auto; lia). cbn [app].
        rewrite segs_wbytes_cons.
        rewrite ztake_app_ge, (ztake_all (wr s)) by (rewrite zlen_seg_wbytes; auto; lia).
        rewrite zlen_seg_wbytes, app_nil_r, app_assoc by auto. done.
    + assert (n = 0) as -> by lia. exists [], (s :: l). cbn [app length].
      rewrite writes_cons. split_and!; eauto with seg; try lia.
      { cbn. auto. }
      intros. rewrite ztake_0, app_nil_r. done.
Qed.

(** Rebuilding [good] for segments that are parts of the old ones. *)
Lemma good_within b h pre post pre' post' :
  good b h pre post -> shape pre' post' -> merged b (pre' ++ post') ->
  Forall2 within (pre' ++ post') (pre ++ post) -> good b h pre' post'.
Proof.
  intros [] ? ? W. split; auto; eauto using Forall_in_within, all_pairs_within.
Qed.

Lemma produce_ok h pre post n :
  good true h pre post -> 0 <= n <= writes post -> reads (pre ++ post) + n < 2 ^ 63 ->
  exists l1 l2, Buffer_produce (mk pre post) n = Ok (mk (pre ++ l1) l2) /\
    good true h (pre ++ l1) l2 /\
    segs_bytes h ((pre ++ l1) ++ l2) = segs_bytes h (pre ++ post) ++ ztake n (segs_wbytes h post) /\
    reads ((pre ++ l1) ++ l2) = reads (pre ++ post) + n /\
    writes l2 = writes post - n.
Proof.
  intros G Hn Hb. pose proof G as [[Hp Hq Hr Hw] Hm Hin Hsep].
  pose proof (reads_nonneg _ (shape_seg_ok _ _ (good_shape _ _ _ _ G))).
  destruct (produce_loop_ok n post) as (l1 & l2 & E & P1 & P2 & P3 & P4 & P5 & P6 & P7);
    auto.
  exists l1, l2. unfold Buffer_produce. mk_simpl. ztest. step. rewrite E. step.
  apply Forall_app in Hin as [Hin1 Hin2].
  assert (G' : good true h (pre ++ l1) l2).
  { apply (good_within _ _ pre post); auto.
    - split; auto; [by apply Forall_app|rewrite <- app_assoc, reads_app, P5; rewrite reads_app in *; lia|lia].
    - rewrite <- app_assoc. eapply merged_same_place; [|exact Hm].
      apply Forall2_app; eauto with seg.
    - rewrite <- app_assoc. apply Forall2_app; eauto with seg. }
  u64_small. erewrite (mk_intro (pre ++ l1) l2);
    [|rewrite <- ?app_assoc, ?length_app, ?reads_app in *; (done || lia)..].
  rewrite (good_checked true h) by done. split_and!; auto; rewrite <- app_assoc.
  - rewrite (segs_bytes_app h pre), (segs_bytes_app h pre post), P7, app_assoc by done. done.
  - rewrite (reads_app pre), P5, (reads_app pre). lia.
Qed.

(** ** consume *)

Lemma merged_replace_head b s s' l :
  seg_array s' = seg_array s -> seg_stop s' = seg_stop s -> wr s' = wr s -> merged b (s :: l) -> merged b (s' :: l).
Proof.
  intros Ha Hs Hw [Hh Hm]. split; [|done]. destruct l; [done|].
  unfold unmerged, adjacent in *. rewrite Ha, Hs, Hw. done.
Qed.

Lemma good_tail b h s pre post : good b h (s :: pre) post -> good b h pre post.
Proof.
  intros [[Hp Hq Hr Hw] [_ Hm] Hin [_ Hsep]].
  apply Forall_cons in Hp as [(Hs&?&?) Hp]. apply Forall_cons in Hin as [_ Hin].
  cbn [app] in Hr. rewrite reads_cons in Hr. repeat split; auto; lia.
Qed.

Lemma seg_stop_consume s n : seg_stop (seg_consume s n) = seg_stop s.
Proof. unfold seg_stop, seg_consume, seg_start. cbn. lia. Qed.

Lemma good_consume_head b h s pre post n :
  good b h (s :: pre) post -> 0 <= n < rd s -> good b h (seg_consume s n :: pre) post.
Proof.
  intros G Hn. pose proof G as [[Hp Hq Hr Hw] Hm Hin Hsep].
  apply Forall_cons in Hp as [(Hs&?&?) Hp]. cbn [app] in *. rewrite reads_cons in *.
  apply (good_within _ _ (s :: pre) post); auto.
  - split; auto.
    + constructor; auto. unfold pre_ok. rewrite rd_consume, wr_consume.
      split_and!; auto with seg; lia.
    + cbn [app]. rewrite reads_cons, rd_consume. lia.
  - cbn [app]. eapply merged_replace_head; [| | |exact Hm]; [done|apply seg_stop_consume|apply wr_consume].
  - cbn [app]. constructor; auto with seg.
Qed.

Lemma good_consume_write_head b h s rest n :
  good b h [] (s :: rest) -> 0 <= n <= rd s -> good b h [] (seg_consume s n :: rest).
Proof.
  intros G Hn. pose proof G as [[_ (Hs&Hws&Hq) Hr Hw] Hm Hin Hsep]. cbn [app] in *.
  rewrite reads_cons in *. rewrite writes_cons in *.
  apply (good_within _ _ [] (s :: rest)); auto.
  - split; auto; cbn [app]; rewrite ?reads_cons, ?writes_cons, ?rd_consume, ?wr_consume; try lia.
    cbn. rewrite wr_consume. split_and!; auto with seg.
  - cbn [app]. eapply merged_replace_head; [| | |exact Hm]; [done|apply seg_stop_consume|apply wr_consume].
  - cbn [app]. constructor; auto with seg.
Qed.

Lemma good_seg_ok b h pre post : good b h pre post -> Forall seg_ok (pre ++ post).
Proof. intros []. by apply shape_seg_ok. Qed.

Lemma consume_loop_ok b h n pre post :
  good b h pre post -> 0 <= n <= reads (pre ++ post) ->
  exists pre' post',
    consume_loop n (pre ++ post) = Ok (pre' ++ post', (length pre - length pre')%nat) /\
    (length pre' <= length pre)%nat /\ good b h pre' post' /\ writes post' = writes post /\
    reads (pre' ++ post') = reads (pre ++ post) - n /\
    segs_bytes h (pre' ++ post') = zdrop n (segs_bytes h (pre ++ post)).
Proof.
  revert n. induction pre as [|s pre IH]; intros n G Hn;
    (destruct (decide (n = 0)) as [->|Hn0];
     [eexists _, post; rewrite Nat.sub_diag, zdrop_0; split_and!; [|done..|lia|done];
      destruct post; reflexivity|]).
  - destruct post as [|s rest]; cbn [app] in *; [rewrite reads_nil in Hn; lia|].
    pose proof G as [[_ (Hs&Hws&Hq) Hr Hw] Hm Hin Hsep]. cbn [app] in *.
    rewrite reads_cons, (reads_tail rest Hq) in *. pose proof (rd_range s Hs).
    apply Forall_cons in Hin as [Hin _].
    cbn [consume_loop]. ztest. seg_eval. rewrite Z.min_r, seg_consume_ok by (auto; lia).
    assert (seg_ok (seg_consume s n)) by auto with seg. seg_eval. u64_small. cbn [m_length m_data seg_consume].
    unfold wr, rd in *. repeat ztest. exists [], (seg_consume s n :: rest). cbn [app].
    rewrite reads_cons, !writes_cons, rd_consume, wr_consume, (reads_tail rest Hq).
    split_and!; auto; [apply good_consume_write_head; auto; unfold rd; lia|unfold rd; lia|].
    rewrite !segs_bytes_cons, seg_bytes_consume, segs_bytes_tail, !app_nil_r by (auto; unfold rd; lia). done.
  - pose proof G as [[Hp Hq Hr Hw] Hm Hin Hsep]. apply Forall_cons in Hp as [(Hs&Hrs&Hws) Hp].
    cbn [app] in *. rewrite reads_cons in *. apply Forall_cons in Hin as [Hin Hin'].
    pose proof (reads_nonneg _ (good_seg_ok _ _ _ _ (good_tail _ _ _ _ _ G))).
    pose proof (rd_range s Hs). pose proof (rd_wr_len s).
    cbn [consume_loop]. ztest. seg_eval. destruct (decide (n < rd s)).
    + rewrite Z.min_r, seg_consume_ok by (auto; lia).
      assert (seg_ok (seg_consume s n)) by auto with seg. seg_eval. u64_small.
      cbn [m_length m_data seg_consume]. repeat ztest. exists (seg_consume s n :: pre), post.
      cbn [app]. rewrite reads_cons, rd_consume, Nat.sub_diag.
      split_and!; auto using good_consume_head with lia.
      rewrite !segs_bytes_cons, seg_bytes_consume, zdrop_app_le by
        (auto with seg; rewrite zlen_seg_bytes; auto; lia). done.
    + rewrite Z.min_l, seg_consume_ok by (auto; lia).
      assert (seg_ok (seg_consume s (rd s))) by auto with seg. seg_eval. u64_small.
      cbn [m_length m_data seg_consume]. ztest.
      destruct (IH (n - rd s)) as (pre' & post' & E & P1 & P2 & P3 & P4 & P5);
        [eauto using good_tail|lia|].
      rewrite E. step. exists pre', post'. cbn [length].
      replace (S (length pre) - length pre')%nat with (S (length pre - length pre')) by lia.
      split_and!; auto; [lia|].
      rewrite P5, segs_bytes_cons, zdrop_app_ge by (rewrite zlen_seg_bytes; auto; lia).
      rewrite zlen_seg_bytes by auto. done.
Qed.

Lemma consume_ok b h pre post n :
  good b h pre post -> 0 <= n <= reads (pre ++ post) ->
  exists pre' post', Buffer_consume (mk pre post) n = Ok (mk pre' post') /\
    good b h pre' post' /\
    segs_bytes h (pre' ++ post') = zdrop n (segs_bytes h (pre ++ post)) /\
    reads (pre' ++ post') = reads (pre ++ post) - n /\ writes post' = writes post.
Proof.
  intros G Hn. destruct (consume_loop_ok b h n pre post G Hn)
    as (pre' & post' & E & P1 & P2 & P3 & P4 & P5).
  exists pre', post'. unfold Buffer_consume. mk_simpl. ztest. step. rewrite E. step.
  rewrite (proj2 (Nat.leb_le _ _)) by lia.
  pose proof G as [[_ _ Hr _] _ _ _].
  u64_small. rewrite (mk_intro pre' post') by (done || lia).
  rewrite (good_checked b h) by done. auto.
Qed.

(** ** Splitting the mixed segment *)

(** The writable bytes of [post] are no readable bytes of the segments [l] of another buffer. *)
Definition apart_from (post l : list Segment) : Prop :=
  Forall (fun s => Forall (r_apart s) l) post.

Lemma apart_from_within s s' post l :
  within s' s -> apart_from (s :: post) l -> apart_from (s' :: post) l.
Proof.
  intros W H. apply Forall_cons in H as [H1 H2]. constructor; [|done].
  eapply Forall_impl; [exact H1|]. intros t Ht. eapply r_apart_within; eauto.
Qed.

(** What [truncate] and [copyIn(const Buffer &)] start from: everything readable lies
    before [m_writeIt]. *)
Record split_of (h : heap) (pre post pre' post' : list Segment) : Prop := {
  sp_pre : Forall pre_ok pre';
  sp_post : Forall tail_ok post';
  sp_reads : reads pre' = reads (pre ++ post);
  sp_writes : writes post' = writes post;
  sp_bytes : segs_bytes h pre' = segs_bytes h (pre ++ post);
  sp_in : Forall (seg_in h) (pre' ++ post');
  sp_sep : all_pairs sep (pre' ++ post');
  sp_merged_pre : merged true pre';
  sp_merged : merged false (pre' ++ post');
  sp_apart : forall l, apart_from post l -> apart_from post' l;
  sp_frame : forall w, Forall (r_apart w) (pre ++ post) -> Forall (r_apart w) (pre' ++ post');
}.

Lemma merged_pre b l : Forall pre_ok l -> merged b l -> merged true l.
Proof.
  induction l as [|s l IH]; [done|]. intros F [Hh Hm]. apply Forall_cons in F as [Hs F].
  split; [|by apply IH]. destruct l as [|t l]; [done|]. right.
  apply Forall_cons in F as [(?&?&?) _]. destruct Hh as [(_&_&?)|]; [lia|done].
Qed.

Lemma sep_split s : seg_ok s -> sep (seg_slice s 0 (rd s)) (seg_consume s (rd s)).
Proof.
  intros (?&?&?). unfold sep, w_apart. rewrite wr_slice. split; [lia|].
  do 2 right. unfold seg_stop, seg_mid, seg_slice, seg_consume, seg_start, rd. cbn. lia.
Qed.

Lemma r_apart_split w s :
  seg_ok s -> r_apart w s -> r_apart w (seg_slice s 0 (rd s)) /\ r_apart w (seg_consume s (rd s)).
Proof.
  intros (?&?&?). unfold r_apart, w_apart, readpart, seg_consume, seg_slice, seg_stop, seg_mid, seg_start, seg_array, rd in *.
  cbn in *. unfold seg_array, seg_start. cbn. intros H'. split; intuition lia.
Qed.

Lemma insert_at_middle {A} (pre post : list A) x :
  insert_at (length pre) x (pre ++ post) = (pre ++ [x]) ++ post.
Proof. unfold insert_at. rewrite take_app_length, drop_app_length, <- app_assoc. done. Qed.

Lemma split_mixed_good h s pre rest :
  good false h pre (s :: rest) -> 0 < rd s ->
  split_of h pre (s :: rest) (pre ++ [seg_slice s 0 (rd s)]) (seg_consume s (rd s) :: rest).
Proof.
  intros G Hrs. pose proof G as [[Hp (Hs&Hws&Hq) Hr Hw] Hm Hin Hsep].
  pose proof (rd_range s Hs).
  apply Forall_app in Hin as [Hin1 Hin2]. apply Forall_cons in Hin2 as [Hin2 Hin3].
  apply all_pairs_app in Hsep as (Hsep1 & [Hsep2 Hsep3] & Hsep4).
  assert (Hp' : Forall pre_ok (pre ++ [seg_slice s 0 (rd s)])).
  { apply Forall_app. split; [done|]. constructor; [|done].
    unfold pre_ok. rewrite rd_slice, wr_slice. split_and!; auto with seg. }
  pose proof Hm as Hm'. apply merged_app in Hm' as (Hm1 & Hm2 & Hm3).
  assert (Hmp : merged true (pre ++ [seg_slice s 0 (rd s)])).
  { apply merged_pre with (b := false); [done|]. apply merged_app. split_and!; [done|by split|].
    intros a t Ha [= <-]. destruct (Hm3 a s Ha eq_refl) as [(_&?&?)|Hadj]; [lia|]. right.
    intros [E1 E2]. apply Hadj. split; [done|]. rewrite E2. unfold seg_slice, seg_start. cbn. lia. }
  assert (W2 : within (seg_consume s (rd s)) s) by auto with seg.
  assert (W1 : within (seg_slice s 0 (rd s)) s) by auto with seg.
  split; auto.
  - constructor; [|done]. unfold tail_ok. rewrite rd_consume, wr_consume. split_and!; auto with seg; lia.
  - rewrite !reads_app, !reads_cons, rd_slice, reads_nil, (reads_tail rest Hq). lia.
  - rewrite !writes_cons, wr_consume. done.
  - rewrite !segs_bytes_app, !segs_bytes_cons, seg_bytes_slice, zslice_0, (segs_bytes_tail h rest) by (auto; lia).
    rewrite ztake_all by (rewrite zlen_seg_bytes; auto; lia). done.
  - rewrite <- app_assoc. cbn [app]. apply Forall_app. split; [done|].
    constructor; [eauto using seg_in_within|]. constructor; [eauto using seg_in_within|done].
  - rewrite <- app_assoc. cbn [app]. apply all_pairs_app. split_and!; auto.
    + split; [|split; [|done]].
      * constructor; [by apply sep_split|]. eauto using Forall_sep_within with seg.
      * eauto using Forall_sep_within with seg.
    + eapply Forall_impl; [exact Hsep4|]. intros t Ht. apply Forall_cons in Ht as [Ht1 Ht2].
      constructor; [|constructor; [|done]]; eapply sep_within; eauto with seg.
  - apply merged_app. split_and!; [by eapply merged_nearly| |].
    + eapply merged_replace_head; [| | |exact Hm2]; [done|apply seg_stop_consume|apply wr_consume].
    + rewrite last_snoc. intros ? ? [= <-] [= <-]. left. rewrite wr_slice, rd_consume. split_and!; auto; lia.
  - intros l. apply apart_from_within. done.
  - intros w Hw'. rewrite !Forall_app, !Forall_cons in *. destruct Hw' as (? & Hw' & ?).
    apply r_apart_split in Hw' as []; auto.
Qed.

Lemma split_mixed_ok h pre post :
  good false h pre post ->
  exists pre' post' b, split_mixed (mk pre post) = Ok (pre' ++ post', length pre', b) /\
    split_of h pre post pre' post'.
Proof.
  intros G. pose proof G as [[Hp Hq Hr Hw] Hm Hin Hsep].
  pose proof Hm as Hm'. apply merged_app in Hm' as (Hm1 & Hm2 & _).
  unfold split_mixed. destruct post as [|s rest]; mk_simpl.
  - exists pre, [], false. split; [done|]. split; auto; rewrite ?app_nil_r; eauto using merged_pre.
  - destruct Hq as (Hs&Hws&Hq). seg_eval. pose proof (rd_range s Hs).
    destruct (Z.eqb_spec (rd s) 0) as [E|E].
    + cbn [negb]. exists pre, (s :: rest), false. split; [done|].
      assert (Ht : Forall tail_ok (s :: rest)) by (constructor; [split_and!; auto|done]).
      split; eauto using merged_pre; rewrite ?reads_app, ?segs_bytes_app.
      * rewrite (reads_tail _ Ht). lia.
      * rewrite (segs_bytes_tail _ _ Ht), app_nil_r. done.
    + cbn [negb]. seg_eval. rewrite seg_consume_ok by (auto; lia). step.
      mk_simpl. rewrite insert_at_middle.
      eexists _, _, true. split; [|apply split_mixed_good; auto; lia].
      rewrite length_app, Nat.add_1_r. repeat f_equal.
      unfold seg_slice. cbn [m_length]. repeat f_equal. lia.
Qed.

(** ** truncate *)

Lemma truncate_loop_ok h n pre post :
  Forall pre_ok pre -> Forall (seg_in h) pre -> reads pre < 2 ^ 63 -> 0 <= n <= reads pre ->
  exists kept rest,
    truncate_loop n (pre ++ post) = Ok (kept, rest ++ post, 0) /\
    length pre = (length kept + length rest)%nat /\
    Forall pre_ok kept /\ Forall pre_ok rest /\
    Forall2 within kept (take (length kept) pre) /\
    (merged true pre -> merged true kept) /\
    reads kept = n /\ segs_bytes h kept = ztake n (segs_bytes h pre).
Proof.
  revert n. induction pre as [|s pre IH]; intros n Hp Hin Hb Hn.
  - rewrite reads_nil in *. assert (n = 0) as -> by lia. exists [], []. cbn.
    split_and!; auto. destruct post; reflexivity.
  - destruct (decide (n = 0)) as [->|Hn0].
    { exists [], (s :: pre). rewrite ztake_0. cbn. split_and!; auto. }
    apply Forall_cons in Hp as [(Hs&Hrs&Hws) Hp]. apply Forall_cons in Hin as [Hin Hin'].
    rewrite reads_cons in *. pose proof (reads_nonneg pre (Forall_pre_seg_ok _ Hp)).
    cbn [truncate_loop app]. ztest. seg_eval. destruct (Z.leb_spec n (rd s)).
    + rewrite seg_truncate_ok by (auto; lia). step. exists [seg_slice s 0 n], pre.
      assert (seg_ok (seg_slice s 0 n)) by auto with seg.
      cbn [length take]. split_and!; auto; try done.
      * constructor; [|done]. unfold pre_ok. rewrite rd_slice, wr_slice. auto with lia.
      * constructor; auto with seg.
      * rewrite reads_cons, rd_slice, reads_nil. lia.
      * rewrite !segs_bytes_cons, seg_bytes_slice, zslice_0, ztake_app_le, app_nil_r by
          (auto; rewrite ?zlen_seg_bytes; auto; lia). done.
    + u64_small. destruct (IH (n - rd s)) as (kept & rest & E & P1 & P2 & P3 & P4 & P5 & P6 & P7); auto; [lia..|].
      rewrite E. step. exists (s :: kept), rest. cbn [length take].
      split_and!; auto; try lia.
      * constructor; auto. split_and!; auto.
      * constructor; auto with seg.
      * intros [Hh Hm]. specialize (P5 Hm). split; [|done]. destruct kept as [|t kept]; [done|].
        destruct pre as [|u pre]; cbn [length take] in P4; [inversion P4|].
        apply Forall2_cons in P4 as [(Ha & Hst & _) _]. destruct Hh as [[]|Hh]; [done|]. right.
        (* the first kept segment starts where the old one did *)
        cbn [truncate_loop app] in E. apply Forall_cons in Hp as [(Hu&?&?) _].
        revert E. ztest. seg_eval. destruct (Z.leb_spec (n - rd s) (rd u)).
        { rewrite seg_truncate_ok by (auto; lia). step. intros [= <- _ _].
          intros [E1 E2]. apply Hh. split; [done|]. rewrite E2. unfold seg_slice, seg_start. cbn. lia. }
        { destruct (truncate_loop _ (pre ++ post)) as [[[? ?] ?]|]; step; [|done].
          intros [= <- _ _ _]. done. }
      * rewrite reads_cons. lia.
      * rewrite !segs_bytes_cons, P7, ztake_app_ge by (rewrite zlen_seg_bytes; auto; lia).
        rewrite zlen_seg_bytes by auto. done.
Qed.

Lemma erase_readable_ok pre post :
  Forall pre_ok pre -> Forall tail_ok post -> erase_readable (pre ++ post) = Ok (post, length pre).
Proof.
  intros Hp Hq. induction Hp as [|s pre (Hs&Hrs&Hws) Hp IH]; cbn [app length].
  - destruct Hq as [|s post (Hs&Hrs&Hws) Hq]; [done|]. cbn [erase_readable]. seg_eval.
    repeat ztest. done.
  - cbn [erase_readable]. seg_eval. repeat ztest. seg_eval. repeat ztest. step. rewrite IH. done.
Qed.

Lemma Forall2_take_within l k n m :
  Forall2 within k (take n l) -> Forall2 within (k ++ m) (take n l ++ m).
Proof. intros. apply Forall2_app; auto with seg. Qed.

Lemma truncate_ok h pre post n :
  good false h pre post -> 0 <= n < reads (pre ++ post) ->
  exists pre' post', Buffer_truncate (mk pre post) n = Ok (mk pre' post') /\
    good false h pre' post' /\ Forall tail_ok post' /\
    segs_bytes h (pre' ++ post') = ztake n (segs_bytes h (pre ++ post)) /\
    reads (pre' ++ post') = n /\ writes post' = writes post.
Proof.
  intros G Hn. pose proof G as [[_ _ Hr Hw] _ _ _].
  destruct (split_mixed_ok h pre post G) as (p1 & q1 & b & E & [Hp Hq Hrd Hwr Hby Hin Hsep Hmp Hm _]).
  apply Forall_app in Hin as [Hin1 Hin2].
  destruct (truncate_loop_ok h n p1 q1) as (kept & rest & E2 & P1 & P2 & P3 & P4 & P5 & P6 & P7);
    auto; [lia..|].
  exists kept, q1. unfold Buffer_truncate. mk_simpl. repeat ztest. step.
  rewrite E. step. rewrite E2. step. rewrite erase_readable_ok by auto. step.
  rewrite (proj2 (Nat.leb_le _ _)) by lia.
  rewrite (mk_intro kept q1); [|rewrite ?reads_app, ?(reads_tail q1 Hq); (done || lia)..].
  apply all_pairs_app in Hsep as (Hs1 & Hs2 & Hs3).
  assert (G' : good false h kept q1).
  { split.
    - split; auto with seg; rewrite ?reads_app, ?(reads_tail q1 Hq); lia.
    - apply merged_app. apply merged_app in Hm as (_ & Hm & _).
      split_and!; [by eapply merged_nearly, P5|done|].
      intros s t Hs Ht. left. split_and!; [done| |].
      + apply last_Some_elem_of, list_elem_of_In in Hs. 
        eapply List.Forall_forall in Hs; [|exact P2]. apply Hs.
      + destruct q1; [done|]. injection Ht as ->. apply Forall_cons in Hq as [(?&?&?) _]. done.
    - apply Forall_app. split; [|done]. eapply Forall_in_within; [exact P4|]. by apply Forall_take.
    - eapply all_pairs_within; [apply (Forall2_take_within _ _ _ q1 P4)|].
      apply all_pairs_app. split_and!; auto; [|by apply Forall_take].
      rewrite <- (take_drop (length kept) p1) in Hs1. by apply all_pairs_app in Hs1 as (?&?&?). }
  rewrite (good_checked false h) by done. split_and!; auto.
  - rewrite segs_bytes_app, (segs_bytes_tail h q1 Hq), app_nil_r, P7, Hby. done.
  - rewrite reads_app, (reads_tail q1 Hq). lia.
Qed.

(** ** Adding a write segment: [adopt] and [reserve] *)

(** A segment of an array no other segment of the buffer is in. *)
Definition other_array (s t : Segment) : Prop := seg_array s <> seg_array t.

Lemma other_array_sep s t : other_array s t -> sep s t.
Proof. unfold other_array, sep, w_apart. split; right; left; [done|congruence]. Qed.

Lemma other_array_unmerged b s t : other_array s t -> unmerged b s t.
Proof. intros H. right. intros []. done. Qed.

Lemma other_array_sym s t : other_array s t -> other_array t s.
Proof. unfold other_array. congruence. Qed.

Lemma reads_zero_pre pre post :
  Forall pre_ok pre -> Forall seg_ok post -> reads (pre ++ post) = 0 ->
  pre = [] /\ reads post = 0.
Proof.
  intros Hp Hq. rewrite reads_app. pose proof (reads_nonneg _ Hq).
  destruct Hp as [|s pre (?&?&?) Hp]; [rewrite reads_nil; intros; split; [done|lia]|].
  rewrite reads_cons. pose proof (reads_nonneg pre (Forall_pre_seg_ok _ Hp)). intros. exfalso. lia.
Qed.

Lemma writes_zero_post post : post_ok post -> writes post = 0 -> post = [].
Proof.
  destruct post as [|s rest]; [done|]. intros (?&?&Hq). rewrite writes_cons.
  pose proof (writes_nonneg rest (Forall_tail_seg_ok _ Hq)). intros. exfalso. lia.
Qed.

Lemma head_tail_ok s rest : post_ok (s :: rest) -> reads (s :: rest) = 0 -> Forall tail_ok (s :: rest).
Proof.
  intros (Hs&?&Hq). rewrite reads_cons, (reads_tail _ Hq). intros.
  constructor; [|done]. split_and!; auto. lia.
Qed.

Lemma post_ok_snoc post N : post_ok post -> tail_ok N -> post_ok (post ++ [N]).
Proof.
  destruct post as [|s rest]; cbn; [intros _ (?&?&?); auto|].
  intros (?&?&?) ?. split_and!; auto. apply Forall_app; auto.
Qed.

Lemma last_Forall {A} (P : A -> Prop) l x : Forall P l -> last l = Some x -> P x.
Proof.
  intros F H. apply last_Some_elem_of, list_elem_of_In in H.
  eapply List.Forall_forall in H; [|exact F]. done.
Qed.

Lemma good_push_back b h pre post N :
  good b h pre post -> tail_ok N -> seg_in h N -> Forall (other_array N) (pre ++ post) ->
  writes post + wr N < 2 ^ 63 -> good b h pre (post ++ [N]).
Proof.
  intros [[Hp Hq Hr Hw] Hm Hin Hsep] HN HNin HNo Hb. pose proof HN as (HN1&HN2&HN3).
  split; rewrite ?app_assoc.
  - split; auto using post_ok_snoc; rewrite ?app_assoc, ?reads_app, ?writes_app, ?reads_cons,
      ?writes_cons, ?reads_nil, ?writes_nil in *; lia.
  - apply merged_app. split_and!; [done|done|]. intros s t Hs [= <-].
    apply other_array_unmerged, other_array_sym. by eapply last_Forall in Hs.
  - apply Forall_app. auto.
  - apply all_pairs_app. split_and!; [done|done|]. eapply Forall_impl; [exact HNo|].
    intros s Hs. constructor; [|done]. by apply sep_sym, other_array_sep.
Qed.

Lemma good_push_front b h post N :
  good b h [] post -> Forall tail_ok post -> tail_ok N -> seg_in h N ->
  Forall (other_array N) post -> writes post + wr N < 2 ^ 63 -> good b h [] (N :: post).
Proof.
  intros [[Hp Hq Hr Hw] Hm Hin Hsep] Ht (HN1&HN2&HN3) HNin HNo Hb. cbn [app] in *.
  split; cbn [app].
  - split; auto; cbn [app]; rewrite ?reads_cons, ?writes_cons; try lia. cbn. auto.
  - split; [|done]. destruct post; [done|]. apply Forall_cons in HNo as [? _]. by apply other_array_unmerged.
  - constructor; auto.
  - split; [|done]. eapply Forall_impl; [exact HNo|]. eauto using other_array_sep.
Qed.

Lemma place_segment_ok b h pre post N :
  good b h pre post -> tail_ok N -> seg_in h N -> Forall (other_array N) (pre ++ post) ->
  writes post + wr N < 2 ^ 63 ->
  exists post', place_segment (mk pre post) N = (pre ++ post', length pre) /\
    good b h pre post' /\ writes post' = writes post + wr N /\
    reads (pre ++ post') = reads (pre ++ post) /\
    segs_bytes h (pre ++ post') = segs_bytes h (pre ++ post) /\
    (0 < writes post \/ exists rest, post' = N :: rest).
Proof.
  intros G HN HNin HNo Hb. pose proof G as [[Hp Hq Hr Hw] Hm Hin Hsep].
  pose proof (post_seg_ok _ Hq) as Hqs. pose proof HN as (HN1&HN2&HN3).
  unfold place_segment. mk_simpl. destruct (Z.eqb_spec (reads (pre ++ post)) 0) as [E|E].
  - destruct (reads_zero_pre _ _ Hp Hqs E) as [-> Er]. cbn [app length] in *.
    assert (Ht : Forall tail_ok post) by (destruct post; [done|by apply head_tail_ok]).
    exists (N :: post). cbn [app]. rewrite writes_cons, !reads_cons, segs_bytes_cons, seg_bytes_nil by auto.
    split_and!; eauto using good_push_front; lia.
  - exists (post ++ [N]). rewrite app_assoc, (reads_app _ [N]), (segs_bytes_app h _ [N]), writes_app,
      reads_cons, writes_cons, reads_nil, writes_nil, segs_bytes_cons, seg_bytes_nil by auto.
    cbn [app]. rewrite app_nil_r.
    pose proof (writes_nonneg post Hqs).
    split_and!; auto using good_push_back; try lia.
    + f_equal. destruct (Z.eqb_spec (writes post) 0) as [Ew|Ew].
      * apply writes_zero_post in Ew as ->; [|done]. rewrite app_nil_r, length_app. cbn. lia.
      * destruct post; [rewrite writes_nil in Ew|]; done.
    + destruct (Z.eqb_spec (writes post) 0) as [Ew|Ew]; [|left; lia].
      apply writes_zero_post in Ew as ->; [|done]. right. by exists [].
Qed.

Lemma seg_in_other h s : seg_in h s -> (seg_array s < length h)%nat.
Proof. intros (arr & E & _). by apply lookup_lt_Some in E. Qed.

(** Allocation leaves the segments that exist as they are. *)
Section Allocation.
Context {alloc : Allocator}.

Lemma seg_in_new h n s : seg_in h s -> seg_in (fst (new_array h n)) s.
Proof. intros (arr & E & ?). exists arr. split; [by apply new_array_lookup|done]. Qed.

Lemma seg_bytes_new h n s : seg_in h s -> seg_bytes (fst (new_array h n)) s = seg_bytes h s.
Proof.
  intros (arr & E & ?). unfold seg_bytes. rewrite (new_array_lookup h n _ _ E), E. done.
Qed.

Lemma segs_bytes_new h n l :
  Forall (seg_in h) l -> segs_bytes (fst (new_array h n)) l = segs_bytes h l.
Proof.
  induction 1 as [|s l Hs _ IH]; [done|]. rewrite !segs_bytes_cons, seg_bytes_new, IH by done. done.
Qed.

Lemma good_new b h n pre post : good b h pre post -> good b (fst (new_array h n)) pre post.
Proof.
  intros []. split; auto. eapply Forall_impl; [done|]. eauto using seg_in_new.
Qed.

Lemma other_array_new h l n (len : Z) :
  Forall (seg_in h) l -> Forall (other_array (mkSegment n (mkSegmentData (length h) 0 len))) l.
Proof.
  intros F. eapply Forall_impl; [exact F|]. intros s Hs. apply seg_in_other in Hs.
  unfold other_array, seg_array in *. cbn. lia.
Qed.

Lemma reserve_ok b h pre post n :
  good b h pre post -> 0 <= n < 2 ^ 62 ->
  exists h' post', Buffer_reserve h (mk pre post) n = Ok (h', mk pre post') /\
    good b h' pre post' /\ n <= writes post' /\
    (forall l, Forall (seg_in h) l -> Forall (seg_in h') l /\ segs_bytes h' l = segs_bytes h l) /\
    segs_bytes h' (pre ++ post') = segs_bytes h (pre ++ post) /\
    (writes post = 0 -> 0 < n -> exists s rest, post' = s :: rest /\ rd s = 0 /\ n <= wr s).
Proof.
  intros G Hn. pose proof G as [[Hp Hq Hr Hw] Hm Hin Hsep].
  pose proof (writes_nonneg post (post_seg_ok _ Hq)).
  unfold Buffer_reserve. mk_simpl. destruct (Z.ltb_spec (writes post) n).
  - u64_small. set (len := n * 2 - writes post). unfold Segment_new.
    change (new_array h len) with (fst (new_array h len), length h).
    remember (fst (new_array h len)) as h' eqn:Eh. cbv iota beta.
    unfold Segment_of_memory, Segment_invariant. cbn [m_writeIndex m_length m_data]. repeat ztest. step.
    set (N := mkSegment 0 (mkSegmentData (length h) 0 len)).
    assert (HN : tail_ok N) by (unfold tail_ok, seg_ok, rd, wr; cbn; lia).
    destruct (place_segment_ok b h' pre post N) as (post' & E & G' & P1 & P2 & P3 & P4).
    + rewrite Eh. by apply good_new.
    + done.
    + destruct (new_array_fresh h len) as (arr & Earr & El); [lia|].
      exists arr. rewrite Eh. split; [done|]. unfold seg_stop, seg_start, N. cbn. lia.
    + by apply other_array_new.
    + unfold wr, N. cbn. lia.
    + rewrite E. rewrite length_ok by (apply HN). step.
      assert (Ewr : wr N = len) by (unfold wr, N; cbn; lia).
      pose proof G' as [[_ _ _ Hw'] _ _ _].
      change (m_length (m_data N)) with len. u64_small.
      rewrite (mk_intro pre post') by (done || lia).
      rewrite (good_checked b h') by done. step. exists h', post'.
      split_and!; auto; [lia| | |].
      * intros l Hl. rewrite Eh. split; [|by apply segs_bytes_new].
        eapply Forall_impl; [exact Hl|]. eauto using seg_in_new.
      * rewrite P3, Eh. by apply segs_bytes_new.
      * intros E0 _. destruct P4 as [?|[rest ->]]; [lia|]. exists N, rest.
        split_and!; auto. lia.
  - exists h, post. split_and!; auto. intros. lia.
Qed.

End Allocation.

Lemma adopt_ok b h pre post a arr n :
  good b h pre post -> h !! a = Some arr -> 0 < n <= zlen arr -> writes post + n < 2 ^ 63 ->
  Forall (fun s => seg_array s <> a) (pre ++ post) ->
  exists post', Buffer_adopt (mk pre post) a n = Ok (mk pre post') /\
    good b h pre post' /\ writes post' = writes post + n /\
    segs_bytes h (pre ++ post') = segs_bytes h (pre ++ post).
Proof.
  intros G Ha Hn Hb Ho. pose proof G as [[Hp Hq Hr Hw] Hm Hin Hsep].
  pose proof (writes_nonneg post (post_seg_ok _ Hq)).
  unfold Buffer_adopt. rewrite (good_invariant b h) by done. step.
  unfold Segment_of_memory, Segment_invariant. cbn [m_writeIndex m_length m_data]. ztest. step.
  set (N := mkSegment 0 (mkSegmentData a 0 n)).
  destruct (place_segment_ok b h pre post N) as (post' & E & G' & P1 & P2 & P3 & P4); auto.
  - unfold tail_ok, seg_ok, rd, wr; cbn; lia.
  - exists arr. split; [done|]. unfold seg_stop, seg_start, N. cbn. lia.
  - eapply Forall_impl; [exact Ho|]. unfold other_array. intros s Hs. cbn. congruence.
  - unfold wr, N. cbn. lia.
  - assert (wr N = n) by (unfold wr, N; cbn; lia).
    rewrite E. step. mk_simpl. u64_small. rewrite (mk_intro pre post') by (done || lia).
    rewrite (good_checked b h) by done. exists post'. split_and!; auto. lia.
Qed.
