(* ===== verification/BufferCopy.v ===== *)
(** [copyIn] of a [Buffer], and below of memory: the segments of the source are shared, not copied, and may be merged with the last one. *)

From stdpp Require Import numbers list_numbers list.
From S2P Require Import Prelude Memory Buffer BufferInv BufferOps.

(** ** compact and clear *)

Lemma split_of_good h pre post pre' post' :
  split_of h pre post pre' post' -> reads (pre ++ post) < 2 ^ 63 -> good true h pre' [].
Proof.
  intros [] ?. rewrite Forall_app, all_pairs_app in *. destruct_and!.
  split; rewrite ?app_nil_r; auto. split; rewrite ?app_nil_r, ?writes_nil; auto; try done; lia.
Qed.

Lemma compact_ok b h pre post :
  good b h pre post ->
  exists pre', Buffer_compact (mk pre post) = Ok (mk pre' []) /\ good true h pre' [] /\
    segs_bytes h (pre' ++ []) = segs_bytes h (pre ++ post).
Proof.
  intros G. pose proof G as [[Hp Hq Hr Hw] Hm Hin Hsep].
  assert (G0 : good false h pre post) by (split; eauto using merged_nearly; split; auto).
  unfold Buffer_compact. rewrite (good_invariant b h) by done. step.
  destruct post as [|s rest]; mk_simpl; [|destruct Hq as (Hs&Hws&Hq); seg_eval; destruct (Z.ltb_spec 0 (rd s))].
  - step. mk_simpl. exists pre. split_and!; auto.
    rewrite app_nil_r in *. split; rewrite ?app_nil_r; eauto using merged_pre. split; rewrite ?app_nil_r; auto.
  - seg_eval. pose proof (split_mixed_good h s pre rest G0 ltac:(auto)) as S.
    exists (pre ++ [seg_slice s 0 (rd s)]). pose proof S as [S1 S2 S3 S4 S5 _ _ _ _ _].
    split_and!; [|by eapply split_of_good|by rewrite app_nil_r].
    erewrite (mk_intro (pre ++ [seg_slice s 0 (rd s)]) []);
      [done|rewrite app_nil_r; unfold seg_slice; rewrite Z.add_0_r; done|by rewrite app_nil_r, S3|done|by rewrite !length_app].
  - pose proof (rd_range s Hs). apply merged_app in Hm as (Hm & _ & _).
    assert (Ht : Forall tail_ok (s :: rest)) by (constructor; [split_and!; auto; lia|done]).
    apply Forall_app in Hin as [Hin _]. apply all_pairs_app in Hsep as (Hsep & _ & _).
    rewrite reads_app, (reads_tail _ Ht), Z.add_0_r in *.
    exists pre. rewrite app_nil_r, segs_bytes_app, (segs_bytes_tail _ _ Ht), app_nil_r.
    split_and!; auto.
    + erewrite (mk_intro pre []); [done|rewrite ?app_nil_r; done..].
    + split; rewrite ?app_nil_r; eauto using merged_pre. split; rewrite ?app_nil_r, ?writes_nil; auto; try done; lia.
Qed.

Lemma good_empty b h : good b h [] [].
Proof. split; cbn; auto. split; cbn; auto; rewrite ?reads_nil, ?writes_nil; lia. Qed.

Lemma good_drop_pre b h pre post : good b h pre post -> good b h [] post.
Proof. induction pre; [done|]. eauto using good_tail. Qed.

Lemma clear_ok b h pre post all :
  good b h pre post ->
  exists post', Buffer_clear (mk pre post) all = Ok (mk [] post') /\ good b h [] post' /\
    segs_bytes h post' = [] /\ writes post' = if all then 0 else writes post.
Proof.
  intros G. unfold Buffer_clear. rewrite (good_invariant b h) by done. step.
  destruct all.
  - exists []. step. change (mkBuffer [] 0 0 0) with (mk [] []).
    rewrite (good_invariant b h) by apply good_empty. step. mk_simpl.
    split_and!; auto using good_empty.
  - pose proof (good_drop_pre _ _ _ _ G) as G0. destruct post as [|s rest]; mk_simpl.
    + step. rewrite drop_app_length. exists []. change (mkBuffer [] 0 (writes []) 0) with (mk [] []).
      rewrite (good_invariant b h) by done. split_and!; auto.
    + pose proof G0 as [[_ (Hs&Hws&Hq) Hr _] _ _ _]. cbn [app] in Hr.
      rewrite reads_cons, (reads_tail rest Hq) in Hr. pose proof (rd_range s Hs).
      assert (Gc : good b h [] (seg_consume s (rd s) :: rest))
        by (apply good_consume_write_head; auto; lia).
      assert (Ht : Forall tail_ok (seg_consume s (rd s) :: rest)).
      { constructor; [|done]. unfold tail_ok. rewrite rd_consume, wr_consume. split_and!; auto with seg; lia. }
      seg_eval. destruct (Z.eqb_spec (rd s) 0) as [E|E]; cbn [negb].
      * step. rewrite drop_app_length.
        assert (Ht' : Forall tail_ok (s :: rest)) by (constructor; [split_and!; auto|done]).
        rewrite (mk_intro [] (s :: rest)) by (try done; rewrite app_nil_l, (reads_tail _ Ht'); done).
        rewrite (good_invariant b h) by done. step. mk_simpl. rewrite app_nil_l, (reads_tail _ Ht').
        exists (s :: rest). split_and!; auto using segs_bytes_tail.
      * rewrite seg_consume_ok by (auto; lia). step. mk_simpl.
        rewrite (mk_intro [] (seg_consume s (rd s) :: rest)); [|done| |by rewrite !writes_cons, wr_consume|done].
        2:{ cbn [app]. rewrite (reads_tail _ Ht). done. }
        rewrite (good_invariant b h) by done. step. mk_simpl. rewrite app_nil_l, (reads_tail _ Ht).
        eexists. split_and!; [done|done|by apply segs_bytes_tail|by rewrite !writes_cons, wr_consume].
Qed.

(** ** copyOut *)

Lemma skip_loop_ok h l pos first :
  Forall seg_ok l -> Forall (seg_in h) l -> 0 <= pos < reads l -> reads l < 2 ^ 63 ->
  exists pos' first' l0 s rest, skip_loop pos first l = Ok (pos', first', s :: rest) /\
    l = l0 ++ s :: rest /\ 0 <= pos' <= rd s /\ (pos' = 0 \/ pos' < rd s) /\ pos = reads l0 + pos' /\
    (first' = true -> l0 = []) /\
    zdrop pos' (segs_bytes h (s :: rest)) = zdrop pos (segs_bytes h l).
Proof.
  intros Hl Hin. revert pos first. induction Hl as [|s l Hs Hl IH]; intros pos first Hpos Hb.
  - rewrite reads_nil in Hpos. lia.
  - apply Forall_cons in Hin as [Hins Hin]. rewrite reads_cons in *. pose proof (rd_range s Hs).
    pose proof (reads_nonneg l Hl).
    cbn [skip_loop]. destruct (Z.eqb_spec pos 0) as [->|Hp].
    { exists 0, first, [], s, l. rewrite reads_nil. split_and!; try done; try lia. }
    seg_eval. destruct (Z.ltb_spec pos (rd s)).
    { exists pos, first, [], s, l. rewrite reads_nil. split_and!; try done; lia. }
    u64_small. destruct (IH ltac:(done) (pos - rd s) false) as (pos' & first' & l0 & t & rest & E & -> & P1 & P0 & P2 & P3 & P4); [lia..|].
    exists pos', first', (s :: l0), t, rest. rewrite E, reads_cons. split_and!; try done; try lia.
    + intros ->. exfalso. clear -E.
      assert (F : forall l p q l', skip_loop p false l = Ok (q, true, l') -> False).
      { clear. induction l as [|u l IH]; intros p q l'; cbn [skip_loop]; [done|].
        destruct (p =? 0); [done|]. destruct (Segment_readAvailable u); cbn; [|done].
        destruct (p <? a); [done|]. apply IH. }
      eauto.
    + rewrite P4, (segs_bytes_cons h s), zdrop_app_ge, zlen_seg_bytes by (rewrite ?zlen_seg_bytes; auto; lia). done.
Qed.

Lemma copyOut_loop_ok h l len pos :
  Forall seg_ok l -> Forall (seg_in h) l -> 0 < len -> 0 <= pos ->
  match l with [] => True | s :: _ => pos <= rd s end ->
  pos + len <= reads l -> reads l < 2 ^ 63 ->
  copyOut_loop h len pos l = Ok (zslice pos len (segs_bytes h l), 0).
Proof.
  intros Hl Hin. revert len pos. induction Hl as [|s l Hs Hl IH]; intros len pos Hlen Hpos Hh Hb1 Hb2.
  - rewrite reads_nil in *. lia.
  - apply Forall_cons in Hin as [Hins Hin]. rewrite reads_cons in *. pose proof (rd_range s Hs).
    pose proof (reads_nonneg l Hl). pose proof (zlen_seg_bytes h s Hs Hins).
    cbn [copyOut_loop]. seg_eval. u64_small. unfold SegmentData_start. cbn [m_array m_start].
    rewrite load_seg by (auto; lia). step. u64_small.
    rewrite segs_bytes_cons. unfold zslice. rewrite zdrop_app_le by lia.
    destruct (Z.eqb_spec (len - Z.min len (rd s - pos)) 0) as [E|E].
    + rewrite E. rewrite Z.min_l by lia. rewrite ztake_app_le by (rewrite zlen_zdrop; lia). done.
    + rewrite Z.min_r by lia. rewrite IH; auto; try lia.
      * step. rewrite ztake_app_ge by (rewrite zlen_zdrop; lia).
        rewrite (ztake_all (rd s - pos)) by (rewrite zlen_zdrop; lia).
        rewrite zlen_zdrop by lia. rewrite zslice_0. do 3 f_equal. f_equal. lia.
      * destruct l; [done|]. apply Forall_cons in Hl as [Ht _]. pose proof (rd_range _ Ht). lia.
Qed.

(** The bytes of the readable list at [pos]. *)
Lemma copyOut_segs h l b len pos :
  Forall seg_ok l -> Forall (seg_in h) l -> m_segments b = l -> m_readAvailable b = reads l ->
  reads l < 2 ^ 63 -> 0 <= len -> 0 <= pos -> pos + len <= reads l ->
  Buffer_copyOut h b len pos = Ok (zslice pos len (segs_bytes h l)).
Proof.
  intros Hl Hin El Er Hb Hlen Hpos Hs. unfold Buffer_copyOut. rewrite El, Er.
  destruct (Z.eqb_spec len 0) as [->|Hn]; [done|]. u64_small. repeat ztest. step.
  destruct (skip_loop_ok h l pos true) as (pos' & first' & l0 & s & rest & E & -> & P1 & _ & P2 & P3 & P4);
    auto; [lia|].
  rewrite E. step. cbn [not_end]. apply Forall_app in Hl as [Hl0 Hl]. apply Forall_app in Hin as [_ Hin].
  rewrite reads_app in *. pose proof (reads_nonneg _ Hl0).
  rewrite copyOut_loop_ok by (auto; lia). step. unfold zslice. rewrite P4. done.
Qed.

Lemma copyOut_ok b h pre post len pos :
  good b h pre post -> 0 <= len -> 0 <= pos -> pos + len <= reads (pre ++ post) ->
  Buffer_copyOut h (mk pre post) len pos = Ok (zslice pos len (segs_bytes h (pre ++ post))).
Proof.
  intros G. pose proof G as [[_ _ Hr _] _ Hin _]. intros.
  apply copyOut_segs; eauto using good_seg_ok.
Qed.

Lemma zlen_bytes b h pre post :
  good b h pre post -> zlen (segs_bytes h (pre ++ post)) = reads (pre ++ post).
Proof. intros G. apply zlen_segs_bytes; [by eapply good_seg_ok|apply G]. Qed.

Lemma toString_ok b h pre post :
  good b h pre post -> Buffer_toString h (mk pre post) = Ok (segs_bytes h (pre ++ post)).
Proof.
  intros G. unfold Buffer_toString. mk_simpl. pose proof (zlen_bytes _ _ _ _ G) as E.
  pose proof (reads_nonneg _ (good_seg_ok _ _ _ _ G)).
  destruct (Z.eqb_spec (reads (pre ++ post)) 0) as [E0|E0].
  - rewrite (zlen_zero_inv (segs_bytes h (pre ++ post))) by lia. done.
  - rewrite (copyOut_ok b) by (auto; lia). rewrite zslice_0, ztake_all by lia. done.
Qed.

(** ** Storing into the write segment *)

Lemma splice_nil off arr : splice off [] arr = arr.
Proof. unfold splice. cbn [app]. rewrite zlen_nil, Z.add_0_r. apply ztake_zdrop. Qed.

Record stored (h h' : heap) (s : Segment) (data : list Z) : Prop := {
  stored_in : forall t, seg_in h t -> seg_in h' t;
  stored_apart : forall t, seg_ok t -> seg_in h t -> r_apart s t -> seg_bytes h' t = seg_bytes h t;
  stored_bytes : seg_bytes h' (seg_produce s (zlen data)) = seg_bytes h s ++ data;
}.

Lemma store_seg h s data :
  seg_ok s -> seg_in h s -> zlen data <= wr s ->
  exists h', store h (Ptr (seg_array s) (seg_mid s)) data = Ok h' /\ stored h h' s data.
Proof.
  intros Hs Hin Hd. pose proof Hs as (?&?&?). destruct Hin as (arr & Ha & Hl).
  pose proof (zlen_nonneg data). rewrite wr_stop_mid in Hd.
  assert (0 <= seg_mid s) by (unfold seg_mid, seg_start; lia).
  eexists. split; [apply store_ok; [done|lia..]|]. split.
  - intros t (arr' & Ha' & Hl'). destruct (decide (seg_array s = seg_array t)) as [E|E].
    + exists (splice (seg_mid s) data arr). rewrite <- E in *. simplify_eq.
      rewrite list_lookup_insert_eq by (by eapply lookup_lt_Some). split; [done|].
      rewrite zlen_splice; lia.
    + exists arr'. rewrite list_lookup_insert_ne by done. done.
  - intros t (?&?&?) (arr' & Ha' & Hl') W. unfold seg_bytes.
    destruct (decide (seg_array s = seg_array t)) as [E|E]; [|by rewrite list_lookup_insert_ne].
    rewrite <- E in *. simplify_eq. rewrite list_lookup_insert_eq by (by eapply lookup_lt_Some).
    rewrite Ha. unfold rd. destruct W as [W|[W|[W|W]]].
    + rewrite wr_stop_mid in W. rewrite (zlen_zero_inv data), splice_nil by lia. done.
    + done.
    + unfold readpart, seg_slice, seg_start, rd in *. cbn in W. apply splice_after; unfold seg_start in *; lia.
    + unfold readpart, seg_slice, seg_stop, seg_start, rd in *. cbn in W. apply splice_before; lia.
  - unfold seg_bytes. change (seg_array (seg_produce s (zlen data))) with (seg_array s).
    rewrite list_lookup_insert_eq by (by eapply lookup_lt_Some). rewrite Ha, rd_produce.
    change (seg_start (seg_produce s (zlen data))) with (seg_start s).
    pose proof (splice_at (seg_mid s) data arr ltac:(lia) ltac:(lia)) as E.
    pose proof (splice_before (seg_mid s) data arr ltac:(lia) ltac:(lia) (seg_start s) (rd s)) as E2.
    unfold zslice in *. unfold rd in *. unfold seg_mid, seg_start in *.
    rewrite ztake_add, zdrop_zdrop, E, E2 by lia. done.
Qed.

Lemma stored_segs h h' s data l :
  stored h h' s data -> Forall seg_ok l -> Forall (seg_in h) l -> Forall (r_apart s) l ->
  segs_bytes h' l = segs_bytes h l.
Proof.
  intros S Hl Hin Hw. induction Hl as [|t l Ht Hl IH]; [done|].
  apply Forall_cons in Hin as []. apply Forall_cons in Hw as [].
  rewrite !segs_bytes_cons, (stored_apart _ _ _ _ S), IH by done. done.
Qed.

Lemma stored_good b h h' s data pre post :
  stored h h' s data -> good b h pre post -> good b h' pre post.
Proof. intros S []. split; auto. eapply Forall_impl; [done|]. apply S. Qed.

Lemma zlen_ztake_min n (l : list Z) : 0 <= n -> zlen (ztake n l) = Z.min n (zlen l).
Proof. apply zlen_ztake. Qed.

Lemma all_pairs_sep_around pre s post :
  all_pairs sep (pre ++ s :: post) -> Forall (w_apart s) pre /\ Forall (w_apart s) post.
Proof.
  intros H. apply all_pairs_app in H as (_ & [H1 _] & H2). split.
  - eapply Forall_impl; [exact H2|]. intros t Ht. apply Forall_cons in Ht as [[_ ?] _]. done.
  - eapply Forall_impl; [exact H1|]. intros t [? _]. done.
Qed.

(** ** copyIn(const void *, size_t) *)

Lemma good_produce_head h pre s rest n :
  good true h pre (s :: rest) -> 0 <= n < wr s -> reads (pre ++ s :: rest) + n < 2 ^ 63 ->
  good true h pre (seg_produce s n :: rest).
Proof.
  intros G Hn Hb. pose proof G as [[Hp (Hs&Hws&Hq) Hr Hw] Hm Hin Hsep].
  rewrite reads_app, reads_cons, writes_cons in *.
  apply (good_within _ _ pre (s :: rest)); auto.
  - split; auto; rewrite ?reads_app, ?reads_cons, ?writes_cons, ?rd_produce, ?wr_produce; try lia.
    cbn. rewrite wr_produce. split_and!; auto with seg.
  - eapply merged_same_place; [|exact Hm]. apply Forall2_app; auto with seg.
  - apply Forall2_app; auto with seg.
Qed.

Lemma good_fill_head h pre s rest :
  good true h pre (s :: rest) -> reads (pre ++ s :: rest) + wr s < 2 ^ 63 ->
  good true h (pre ++ [seg_produce s (wr s)]) rest.
Proof.
  intros G Hb. pose proof G as [[Hp (Hs&Hws&Hq) Hr Hw] Hm Hin Hsep]. pose proof (rd_range s Hs).
  rewrite reads_app, reads_cons, writes_cons in *. pose proof (wr_range s Hs).
  apply (good_within _ _ pre (s :: rest)); auto; rewrite <- ?app_assoc; cbn [app].
  - split; auto with seg; rewrite <- ?app_assoc; cbn [app];
      rewrite ?reads_app, ?reads_cons, ?rd_produce; try lia.
    apply Forall_app. split; [done|]. constructor; [|done].
    unfold pre_ok. rewrite rd_produce, wr_produce. split_and!; auto with seg; lia.
  - eapply merged_same_place; [|exact Hm]. apply Forall2_app; auto with seg.
  - apply Forall2_app; auto with seg.
Qed.

(** Appending to the readable bytes with the memory of another buffer left alone. *)
Record appended (h h' : heap) (pre post pre' post' : list Segment) (data : list Z) : Prop := {
  app_good : good true h' pre' post';
  app_bytes : segs_bytes h' (pre' ++ post') = segs_bytes h (pre ++ post) ++ data;
  app_frame : forall l, Forall seg_ok l -> Forall (seg_in h) l -> apart_from post l ->
    segs_bytes h' l = segs_bytes h l /\ Forall (seg_in h') l /\ apart_from post' l;
}.

(** One round of the loop: the write segment [s] takes [data] at its start. *)
Lemma store_round h pre s rest data :
  good true h pre (s :: rest) -> zlen data <= wr s ->
  reads (pre ++ s :: rest) + zlen data < 2 ^ 63 ->
  exists h', store h (Ptr (seg_array s) (seg_mid s)) data = Ok h' /\
    if zlen data =? wr s
    then appended h h' pre (s :: rest) (pre ++ [seg_produce s (zlen data)]) rest data
    else appended h h' pre (s :: rest) pre (seg_produce s (zlen data) :: rest) data.
Proof.
  intros G Hd Hb. pose proof G as [[Hp (Hs&Hws&Hq) Hr Hw] Hm Hin Hsep].
  pose proof (zlen_nonneg data). apply all_pairs_sep_around in Hsep as [Hsep1 Hsep2].
  apply Forall_app in Hin as [Hin1 Hin2]. apply Forall_cons in Hin2 as [Hin2 Hin3].
  destruct (store_seg h s data Hs Hin2 Hd) as (h' & E & S). exists h'. split; [done|].
  pose proof (stored_good _ _ _ _ _ _ _ S G) as G'.
  assert (Hby : segs_bytes h' (pre ++ seg_produce s (zlen data) :: rest)
                = segs_bytes h (pre ++ s :: rest) ++ data).
  { rewrite !segs_bytes_app, !segs_bytes_cons, (stored_bytes _ _ _ _ S).
    rewrite (stored_segs _ _ _ _ pre S) by auto using Forall_r_apart with seg. rewrite !(segs_bytes_tail _ rest) by done.
    rewrite !app_nil_r, app_assoc. done. }
  assert (Hfr : forall l, Forall seg_ok l -> Forall (seg_in h) l -> apart_from (s :: rest) l ->
    segs_bytes h' l = segs_bytes h l /\ Forall (seg_in h') l /\ apart_from (seg_produce s (zlen data) :: rest) l).
  { intros l Hl Hil Hal. pose proof Hal as Hal'. apply Forall_cons in Hal' as [Ha1 Ha2]. split_and!.
    - by eapply stored_segs.
    - eapply Forall_impl; [exact Hil|]. apply S.
    - eapply apart_from_within; [|exact Hal]. auto with seg. }
  destruct (Z.eqb_spec (zlen data) (wr s)) as [Ew|Ew]; split.
  - rewrite Ew. apply good_fill_head; auto. lia.
  - rewrite <- app_assoc. done.
  - intros l Hl Hil Hal. destruct (Hfr l Hl Hil Hal) as (?&?&Hap). split_and!; auto.
    apply Forall_cons in Hap as [_ ?]. done.
  - apply good_produce_head; auto. lia.
  - done.
  - done.
Qed.

Lemma appended_trans h1 h2 h3 pre1 post1 pre2 post2 pre3 post3 d e :
  appended h1 h2 pre1 post1 pre2 post2 d -> appended h2 h3 pre2 post2 pre3 post3 e ->
  appended h1 h3 pre1 post1 pre3 post3 (d ++ e).
Proof.
  intros [G1 B1 F1] [G2 B2 F2]. split; auto.
  - rewrite B2, B1, app_assoc. done.
  - intros l Hl Hin Ha. destruct (F1 l Hl Hin Ha) as (E1 & ? & ?).
    destruct (F2 l Hl) as (E2 & ? & ?); auto. rewrite E2. auto.
Qed.

Lemma appended_refl h pre post : good true h pre post -> appended h h pre post pre post [].
Proof. intros G. split; auto. by rewrite app_nil_r. Qed.

Lemma copyIn_data_loop_ok fuel h pre post data :
  good true h pre post -> (length post < fuel)%nat ->
  reads (pre ++ post) + zlen data < 2 ^ 63 ->
  exists h' pre' post' d rest,
    copyIn_data_loop fuel h (mk pre post) data = Ok (h', mk pre' post', rest) /\
    data = d ++ rest /\ appended h h' pre post pre' post' d /\ (rest <> [] -> post' = []).
Proof.
  revert h pre post data. induction fuel as [|fuel IH]; intros h pre post data G Hf Hb; [lia|].
  cbn [copyIn_data_loop]. mk_simpl. destruct post as [|s rest].
  { exists h, pre, [], [], data. cbn [orb]. split_and!; auto using appended_refl. }
  cbn [orb]. destruct (Z.eqb_spec (zlen data) 0) as [E|E].
  { apply zlen_zero_inv in E as ->. exists h, pre, (s :: rest), [], []. split_and!; auto using appended_refl. done. }
  pose proof G as [[Hp (Hs&Hws&Hq) Hr Hw] Hm Hin Hsep]. pose proof (zlen_nonneg data).
  rewrite writes_cons in Hw. pose proof (writes_nonneg rest (Forall_tail_seg_ok _ Hq)).
  pose proof (reads_nonneg _ (good_seg_ok _ _ _ _ G)).
  mk_simpl. seg_eval. unfold SegmentData_start. cbn [m_array m_start].
  set (todo := Z.min (zlen data) (wr s)). set (d := ztake todo data).
  assert (Hd : zlen d = todo) by (unfold d; rewrite zlen_ztake; lia).
  destruct (store_round h pre s rest d) as (h' & Es & A); [done|lia|lia|].
  rewrite Es. step. rewrite seg_produce_ok by (auto; lia). step.
  assert (Hs' : seg_ok (seg_produce s todo)) by auto with seg.
  seg_eval. rewrite wr_produce. mk_simpl. rewrite writes_cons. u64_small.
  assert (Hrest : zlen (zdrop todo data) = zlen data - todo) by (rewrite zlen_zdrop; lia).
  assert (Hbytes := zlen_bytes _ _ _ _ G).
  rewrite Hd in A. destruct (Z.eqb_spec todo (wr s)) as [Et|Et].
  - (* the write segment is full *)
    ztest. pose proof A as [G' B' _]. rewrite (mk_intro (pre ++ [seg_produce s todo]) rest).
    2:{ by rewrite <- app_assoc. }
    2:{ rewrite <- app_assoc. cbn [app]. rewrite !reads_app, !reads_cons, rd_produce. lia. }
    2:{ lia. }
    2:{ rewrite length_app, Nat.add_1_r. done. }
    rewrite (good_checked true h') by done. step.
    destruct (IH h' (pre ++ [seg_produce s todo]) rest (zdrop todo data)) as (h2 & p2 & q2 & d2 & r2 & E2 & P1 & P2 & P3); auto.
    { cbn [length] in Hf. lia. }
    { rewrite <- app_assoc. cbn [app]. rewrite !reads_app, !reads_cons, rd_produce in *. lia. }
    exists h2, p2, q2, (d ++ d2), r2. split_and!; auto.
    + rewrite <- app_assoc, <- P1. symmetry. apply ztake_zdrop.
    + eauto using appended_trans.
  - (* the last byte has been stored *)
    ztest. assert (todo = zlen data) as Ed by lia. pose proof A as [G' B' _].
    rewrite (mk_intro pre (seg_produce s todo :: rest)).
    2:{ done. }
    2:{ rewrite !reads_app, !reads_cons, rd_produce. lia. }
    2:{ rewrite writes_cons, wr_produce. lia. }
    2:{ done. }
    rewrite (good_checked true h') by done. step.
    rewrite (zlen_zero_inv (zdrop todo data)) by lia.
    assert (Hd' : d = data) by (unfold d; apply ztake_all; lia).
    exists h', pre, (seg_produce s todo :: rest), data, []. rewrite app_nil_r, <- Hd' at 1.
    split_and!; auto; [|by rewrite <- Hd'|done].
    destruct fuel; cbn [copyIn_data_loop]; mk_simpl; reflexivity.
Qed.

Section Allocating.
Context {alloc : Allocator}.

Lemma good_push_full h pre N :
  good true h pre [] -> pre_ok N -> seg_in h N -> Forall (other_array N) pre ->
  reads pre + rd N < 2 ^ 63 -> good true h (pre ++ [N]) [].
Proof.
  intros [[Hp _ Hr Hw] Hm Hin Hsep] HN HNin HNo Hb. rewrite app_nil_r in *.
  split; rewrite ?app_nil_r.
  - split; rewrite ?app_nil_r, ?reads_app, ?reads_cons, ?reads_nil; try done; [|lia].
    apply Forall_app. auto.
  - apply merged_app. split_and!; [done|done|]. intros s t Hs [= <-].
    apply other_array_unmerged, other_array_sym. by eapply last_Forall in Hs.
  - apply Forall_app. auto.
  - apply all_pairs_app. split_and!; [done|done|]. eapply Forall_impl; [exact HNo|].
    intros s Hs. constructor; [|done]. by apply sep_sym, other_array_sep.
Qed.

Lemma Segment_new_ok h n :
  0 <= n < 2 ^ 63 ->
  Segment_new h n = Ok (fst (new_array h n), mkSegment 0 (mkSegmentData (length h) 0 n)).
Proof.
  intros. unfold Segment_new, Segment_of_memory, Segment_invariant. cbn [new_array fst].
  cbn [m_writeIndex m_length m_data]. ztest. done.
Qed.

Lemma seg_in_fresh h n k : 0 <= n -> seg_in (fst (new_array h n)) (mkSegment k (mkSegmentData (length h) 0 n)).
Proof.
  intros. destruct (new_array_fresh h n) as (arr & Earr & El); [lia|].
  exists arr. split; [done|]. unfold seg_stop, seg_start. cbn. lia.
Qed.

(** A fresh segment at the end, filled with [data]. *)
Lemma append_fresh h pre data :
  good true h pre [] -> 0 < zlen data -> reads pre + zlen data < 2 ^ 63 ->
  let N := mkSegment 0 (mkSegmentData (length h) 0 (zlen data)) in
  exists h2, store (fst (new_array h (zlen data))) (Ptr (length h) 0) data = Ok h2 /\
    appended h h2 pre [] (pre ++ [seg_produce N (zlen data)]) [] data.
Proof.
  intros G Hd Hb N. pose proof G as [[Hp _ Hr Hw] Hm Hin Hsep]. rewrite app_nil_r in *.
  set (h1 := fst (new_array h (zlen data))). pose proof (reads_nonneg pre (Forall_pre_seg_ok _ Hp)).
  assert (HN : tail_ok N) by (unfold tail_ok, seg_ok, rd, wr; cbn; lia).
  assert (HNin : seg_in h1 N) by (apply seg_in_fresh; lia).
  destruct (store_seg h1 N data) as (h2 & E & S); [apply HN|done|unfold wr; cbn; lia|].
  exists h2. split; [exact E|].
  assert (Hap : forall l, Forall (seg_in h) l -> Forall (r_apart N) l).
  { intros l Hl. apply (other_array_new h l 0 (zlen data)) in Hl.
    eapply Forall_impl; [exact Hl|]. intros t Ht. right. left. exact Ht. }
  assert (Hkeep : forall l, Forall seg_ok l -> Forall (seg_in h) l -> segs_bytes h2 l = segs_bytes h l).
  { intros l Hl Hil. rewrite <- (segs_bytes_new h (zlen data) l) by done.
    eapply stored_segs; [exact S|done| |by apply Hap]. eapply Forall_impl; [exact Hil|]. eauto using seg_in_new. }
  split.
  - apply good_push_full.
    + eapply stored_good; [exact S|]. by apply good_new.
    + unfold pre_ok, seg_ok, rd, wr. cbn. lia.
    + eapply seg_in_within; [|by apply S]. auto with seg.
    + apply (other_array_new h pre (0 + zlen data) (zlen data)). done.
    + rewrite rd_produce. unfold rd. cbn. lia.
  - rewrite !app_nil_r, segs_bytes_app, segs_bytes_cons, (stored_bytes _ _ _ _ S).
    rewrite Hkeep by auto with seg. rewrite seg_bytes_nil by (try apply HN; done).
    cbn. by rewrite app_nil_r.
  - intros l Hl Hil _. split_and!; [auto| |constructor].
    eapply Forall_impl; [exact Hil|]. intros t Ht. by apply S, seg_in_new.
Qed.

Lemma copyIn_data_ok h pre post data :
  good true h pre post -> reads (pre ++ post) + zlen data < 2 ^ 63 ->
  exists h' pre' post', Buffer_copyIn_data h (mk pre post) data = Ok (h', mk pre' post') /\
    appended h h' pre post pre' post' data.
Proof.
  intros G Hb. unfold Buffer_copyIn_data. rewrite (good_invariant true h) by done. step. mk_simpl.
  destruct (copyIn_data_loop_ok (S (length (pre ++ post) - length pre)) h pre post data)
    as (h1 & p1 & q1 & d & rest & E & -> & A & Hq); auto.
  { rewrite length_app. lia. }
  rewrite E. step. pose proof A as [G1 B1 F1]. pose proof (zlen_nonneg rest).
  assert (Er : reads (p1 ++ q1) = reads (pre ++ post) + zlen d).
  { rewrite <- (zlen_bytes _ _ _ _ G1), B1, zlen_app, (zlen_bytes _ _ _ _ G). done. }
  pose proof (reads_nonneg _ (good_seg_ok _ _ _ _ G1)). rewrite zlen_app in Hb.
  destruct (Z.ltb_spec 0 (zlen rest)) as [Hr|Hr].
  - assert (q1 = []) as -> by (apply Hq; intros E0; subst rest; unfold zlen in Hr; cbn in Hr; lia).
    rewrite app_nil_r in *. pose proof (zlen_nonneg d).
    destruct (append_fresh h1 p1 rest) as (h2 & E2 & A2); [done|lia|lia|].
    rewrite Segment_new_ok by lia. step.
    set (N := mkSegment 0 (mkSegmentData (length h1) 0 (zlen rest))) in *.
    assert (HN : seg_ok N) by (unfold seg_ok; cbn; lia).
    seg_eval. unfold SegmentData_start. cbn [m_array m_start].
    change (Ptr (seg_array N) (seg_mid N)) with (Ptr (length h1) 0). rewrite E2. step.
    rewrite seg_produce_ok by (auto; unfold wr; cbn; lia). step. mk_simpl.
    rewrite !app_nil_r. u64_small.
    rewrite (mk_intro (p1 ++ [seg_produce N (zlen rest)]) []);
      [|rewrite ?app_nil_r, ?reads_app, ?reads_cons, ?rd_produce; try done..].
    + mk_simpl. rewrite app_nil_r, reads_app, reads_cons, rd_produce, reads_nil.
      unfold rd at 1. cbn [m_writeIndex N]. ztest. step.
      eexists _, _, _. split; [done|]. eauto using appended_trans.
    + rewrite reads_nil. unfold rd, N. cbn. lia.
  - rewrite (zlen_zero_inv rest) in * by lia. step. mk_simpl. rewrite zlen_nil. ztest. step.
    exists h1, p1, q1. rewrite app_nil_r. done.
Qed.

End Allocating.

(** [copyIn] of memory: the room that is there is filled first. *)

(** ** The source of a [copyIn(const Buffer &)] *)

(** No segment without readable bytes comes before one that has some. *)
Fixpoint front_loaded (l : list Segment) : Prop :=
  match l with
  | [] => True
  | t :: rest => (0 < reads (t :: rest) -> 0 < rd t) /\ front_loaded rest
  end.

(** The readable bytes of no segment continue those of the one before it. *)
Definition gap (t u : Segment) : Prop :=
  0 < rd u -> seg_array t = seg_array u -> seg_mid t <> seg_start u.

Definition starts_in (pos : Z) (l : list Segment) : Prop :=
  match l with [] => False | t :: _ => pos < rd t end.

Lemma starts_in_0 l : front_loaded l -> 0 < reads l -> starts_in 0 l.
Proof. destruct l as [|t l]; [rewrite reads_nil; lia|]. cbn [front_loaded starts_in]. tauto. Qed.

Lemma front_loaded_app l k : Forall (fun t => 0 < rd t) l -> front_loaded k -> front_loaded (l ++ k).
Proof. induction 1; [done|]. intros. cbn [app front_loaded]. auto. Qed.

Lemma front_loaded_suffix l k : front_loaded (l ++ k) -> front_loaded k.
Proof. induction l; [done|]. cbn [app front_loaded]. tauto. Qed.

Lemma chain_suffix {A} (R : A -> A -> Prop) l k : chain R (l ++ k) -> chain R k.
Proof. intros H. by apply chain_app in H as (_&?&_). Qed.

Lemma good_front_loaded b h pre post : good b h pre post -> front_loaded (pre ++ post).
Proof.
  intros [[Hp Hq _ _] _ _ _]. apply front_loaded_app.
  - eapply Forall_impl; [exact Hp|]. intros t (?&?&?). done.
  - destruct post as [|s rest]; [done|]. destruct Hq as (Hs&Hws&Hq). cbn [front_loaded]. split.
    + rewrite reads_cons, (reads_tail _ Hq). lia.
    + clear Hws Hs. induction Hq as [|t l (Ht&Hrt&Hwt) Hl IH]; [done|]. cbn [front_loaded].
      split; [|done]. rewrite reads_cons, (reads_tail _ Hl). lia.
Qed.

Lemma pre_ok_mid_stop s : pre_ok s -> seg_mid s = seg_stop s.
Proof. intros (?&?&?). unfold wr, seg_mid, seg_stop in *. lia. Qed.

Lemma good_gap b h pre post : good b h pre post -> chain gap (pre ++ post).
Proof.
  intros [[Hp Hq _ _] Hm _ _]. assert (Hq' : chain gap post).
  { destruct post as [|s rest]; [done|]. destruct Hq as (Hs&Hws&Hq). clear Hm Hws Hs. revert s.
    induction Hq as [|t l (Ht&Hrt&Hwt) Hl IH]; intros s; [done|].
    split; [|by apply IH]. intros ?. lia. }
  apply merged_nearly in Hm.
  induction Hp as [|s pre Hs Hp IH]; [done|]. cbn [app] in *. destruct Hm as [Hh Hm].
  split; [|by apply IH]. destruct (pre ++ post) as [|t l]; [done|].
  intros Hrt Ea Em. rewrite (pre_ok_mid_stop _ Hs) in Em.
  destruct Hh as [(_&_&?)|Hh]; [lia|]. by apply Hh.
Qed.

(** ** The segments it makes *)

Fixpoint slices (pos len : Z) (l : list Segment) : list Segment :=
  match l with
  | [] => []
  | t :: rest =>
      let n := Z.min (rd t - pos) len in
      seg_slice t pos n :: (if len - n =? 0 then [] else slices 0 (len - n) rest)
  end.

Section Slices.
Variable h : heap.

(** What the lemmas on [slices pos len l] share. *)
Record source (pos len : Z) (l : list Segment) : Prop := {
  src_ok : Forall seg_ok l;
  src_in : Forall (seg_in h) l;
  src_front : front_loaded l;
  src_gap : chain gap l;
  src_bound : reads l < 2 ^ 63;
  src_pos : 0 <= pos;
  src_len : 0 < len;
  src_starts : starts_in pos l;
  src_fits : pos + len <= reads l;
}.

Lemma source_tail pos len t l :
  source pos len (t :: l) -> len - Z.min (rd t - pos) len <> 0 ->
  source 0 (len - (rd t - pos)) l /\ Z.min (rd t - pos) len = rd t - pos.
Proof.
  intros [Hl Hin [Hf1 Hf2] [Hg1 Hg2] Hb Hp Hn Hs Hfit] E. cbn [starts_in] in Hs.
  apply Forall_cons in Hl as [Ht Hl]. apply Forall_cons in Hin as [_ Hin].
  rewrite reads_cons in *. pose proof (rd_range t Ht). split; [|lia].
  split; auto; try lia. apply starts_in_0; auto. lia.
Qed.

Lemma slices_spec pos len l :
  source pos len l ->
  reads (slices pos len l) = len /\
  segs_bytes h (slices pos len l) = zslice pos len (segs_bytes h l) /\
  Forall pre_ok (slices pos len l) /\
  Forall (fun n => exists t, In t l /\ within n (readpart t)) (slices pos len l) /\
  merged true (slices pos len l).
Proof.
  revert pos len. induction l as [|t l IH]; intros pos len S; [by destruct S|].
  pose proof S as [Hl Hin [Hf1 Hf2] [Hg1 Hg2] Hb Hp Hn Hs Hfit]. cbn [slices starts_in] in *.
  apply Forall_cons in Hl as [Ht Hl]. apply Forall_cons in Hin as [Hit Hin].
  pose proof (zlen_seg_bytes h t Ht Hit). set (n := Z.min (rd t - pos) len).
  assert (Hn1 : 0 < n) by lia.
  assert (Hpo : pre_ok (seg_slice t pos n)).
  { unfold pre_ok. rewrite rd_slice, wr_slice. split_and!; [apply seg_slice_ok; auto; lia|lia|done]. }
  assert (Hw : within (seg_slice t pos n) (readpart t)).
  { unfold within. rewrite wr_slice. unfold readpart, seg_stop, seg_slice, seg_start. cbn.
    split_and!; [done|lia..|by left]. }
  rewrite !segs_bytes_cons, reads_cons, rd_slice, seg_bytes_slice by (auto; lia).
  unfold zslice. rewrite zdrop_app_le by lia.
  destruct (Z.eqb_spec (len - n) 0) as [E|E].
  - rewrite reads_nil, ztake_app_le by (rewrite zlen_zdrop; lia). cbn. rewrite app_nil_r.
    split_and!; auto; [lia|f_equal; lia|]. constructor; [|constructor]. eauto.
  - destruct (source_tail _ _ _ _ S E) as [S' En]. fold n in En. rewrite En in *.
    replace (len - (rd t - pos)) with (len - (rd t - pos)) in * by done.
    destruct (IH _ _ S') as (P1 & P2 & P3 & P4 & P5). split_and!; auto.
    + lia.
    + rewrite P2, zslice_0, (ztake_app_ge len) by (rewrite zlen_zdrop; lia).
      rewrite (ztake_all (rd t - pos)), zlen_zdrop by (rewrite ?zlen_zdrop; lia).
      do 2 f_equal. lia.
    + constructor; [eauto with datatypes|]. eapply Forall_impl; [exact P4|]. intros m (v & ? & ?).
      exists v. split; [by right|done].
    + split; [|done]. destruct l as [|u l]; [done|]. cbn [slices]. right. intros [E1 E2].
      pose proof (src_starts _ _ _ S') as Hu. cbn [starts_in] in Hu. apply (Hg1 Hu E1).
      unfold seg_stop, seg_mid, seg_slice, seg_start, rd in *. cbn in *. lia.
Qed.

(** ** The copying loop away from the first segment *)

Lemma copyIn_buffer_loop_plain pre post len pos l :
  source pos len l -> Forall pre_ok pre -> reads pre + len < 2 ^ 63 ->
  copyIn_buffer_loop (pre ++ post) (length pre) (reads pre) len pos false l =
  Ok ((pre ++ slices pos len l) ++ post, length (pre ++ slices pos len l), reads pre + len, 0).
Proof.
  revert pre pos len. induction l as [|t l IH]; intros pre pos len S Hpre Hb; [by destruct S|].
  pose proof S as [Hl Hin [Hf1 Hf2] [Hg1 Hg2] Hb' Hp Hn Hs Hfit].
  apply Forall_cons in Hl as [Ht Hl]. pose proof (rd_range t Ht).
  pose proof (reads_nonneg l Hl). pose proof (reads_nonneg pre (Forall_pre_seg_ok _ Hpre)).
  cbn [copyIn_buffer_loop slices starts_in] in *. seg_eval.
  rewrite andb_false_r. step. u64_small. rewrite slice_ok by (cbn [m_length]; lia). step.
  rewrite Segment_of_data_ok. step. rewrite insert_at_middle. u64_small.
  cbn [m_array m_start m_length].
  change (mkSegment _ _) with (seg_slice t pos (Z.min (rd t - pos) len)).
  destruct (Z.eqb_spec (len - Z.min (rd t - pos) len) 0) as [E|E].
  - rewrite E, length_app. cbn [length]. rewrite Nat.add_1_r. do 3 f_equal. lia.
  - destruct (source_tail _ _ _ _ S E) as [S' En]. rewrite En in *.
    set (N := seg_slice t pos (rd t - pos)).
    assert (HN : pre_ok N).
    { unfold pre_ok, N. rewrite rd_slice, wr_slice. split_and!; [apply seg_slice_ok; auto; lia|lia|done]. }
    specialize (IH (pre ++ [N]) 0 (len - (rd t - pos)) S').
    rewrite length_app, reads_app, reads_cons, reads_nil, Nat.add_1_r in IH. cbn [length] in IH.
    assert (rN : rd N = rd t - pos) by done. rewrite rN, Z.add_0_r in IH.
    rewrite IH by (try apply Forall_app; auto; lia).
    rewrite <- !app_assoc. cbn [app]. do 3 f_equal. lia.
Qed.

End Slices.

(** ** Merging with the last readable segment *)

Definition seg_extend (p : Segment) (n : Z) : Segment :=
  mkSegment (m_writeIndex p + n)
    (mkSegmentData (seg_array p) (seg_start p) (m_length (m_data p) + n)).

(** The bytes of [t] from [pos] on continue those of [p]. *)
Definition touches (p t : Segment) (pos : Z) : Prop :=
  seg_array p = seg_array t /\ seg_stop p = seg_start t + pos.

#[global] Instance touches_dec p t pos : Decision (touches p t pos).
Proof. unfold touches. apply _. Defined.

Section Extend.
Variables (h : heap) (p t : Segment) (pos n : Z).
Hypothesis Hp : pre_ok p.
Hypothesis Ht : seg_ok t.
Hypothesis Hit : seg_in h t.
Hypothesis Hto : touches p t pos.
Hypothesis Hpos : 0 <= pos.
Hypothesis Hn : 0 < n.
Hypothesis Hfit : pos + n <= rd t.
Hypothesis Hb : rd p + n < 2 ^ 63.

Lemma extend_pre_ok : pre_ok (seg_extend p n).
Proof.
  destruct Hp as ((?&?&?)&?&?). unfold pre_ok, seg_ok, seg_extend, rd, wr, seg_start in *. cbn in *. lia.
Qed.

Lemma extend_in : seg_in h (seg_extend p n).
Proof.
  destruct Hit as (arr & E & Hl), Hto as [Ea Es]. exists arr.
  unfold seg_extend, seg_array, seg_stop, seg_start, rd in *. cbn in *. rewrite Ea. split; [done|].
  destruct Ht as (?&?&?). lia.
Qed.

Lemma extend_bytes : seg_bytes h (seg_extend p n) = seg_bytes h p ++ zslice pos n (seg_bytes h t).
Proof.
  destruct Hit as (arr & E & Hl), Hto as [Ea Es], Hp as ((?&?&?)&?&?), Ht as (?&?&?).
  unfold seg_bytes. change (seg_array (seg_extend p n)) with (seg_array p). rewrite Ea, E.
  change (seg_start (seg_extend p n)) with (seg_start p). change (rd (seg_extend p n)) with (rd p + n).
  unfold rd, wr, seg_stop, seg_start in *. rewrite zslice_zslice by lia. unfold zslice.
  rewrite ztake_add, zdrop_zdrop by lia. do 3 f_equal. lia.
Qed.

Lemma extend_apart w : 0 < wr w -> w_apart w p -> r_apart w t -> w_apart w (seg_extend p n).
Proof.
  destruct Hto as [Ea Es], Ht as (?&?&?). rewrite wr_stop_mid. intros Hw W1 W2.
  unfold r_apart, w_apart in *. rewrite wr_stop_mid in *.
  change (seg_array (readpart t)) with (seg_array t) in W2.
  replace (seg_start (readpart t)) with (seg_start t) in W2 by (unfold readpart, seg_slice, seg_start; cbn; unfold seg_start; lia).
  replace (seg_stop (readpart t)) with (seg_start t + rd t) in W2 by (unfold readpart, seg_slice, seg_stop, seg_start; cbn; unfold seg_start; lia).
  change (seg_array (seg_extend p n)) with (seg_array p).
  change (seg_start (seg_extend p n)) with (seg_start p).
  replace (seg_stop (seg_extend p n)) with (seg_stop p + n) by (unfold seg_stop, seg_start; cbn; unfold seg_start; lia).
  rewrite <- Ea in W2.
  destruct (decide (seg_array w = seg_array p)); [|tauto]. lia.
Qed.

Lemma Segment_extend_ok : Segment_extend p n = seg_extend p n.
Proof.
  destruct Hp as ((?&?&?)&?&?). unfold Segment_extend, SegmentData_extend, seg_extend, rd, wr in *.
  u64_small. done.
Qed.

End Extend.

(** What the loop makes of the readable segments [pre] of the target. *)
Record extended (h : heap) (pre pre' l : list Segment) (pos len : Z) : Prop := {
  ext_pre : Forall pre_ok pre';
  ext_reads : reads pre' = reads pre + len;
  ext_bytes : segs_bytes h pre' = segs_bytes h pre ++ zslice pos len (segs_bytes h l);
  ext_in : Forall (seg_in h) pre';
  ext_apart : forall w, 0 < wr w -> Forall (w_apart w) pre -> Forall (r_apart w) l ->
    Forall (w_apart w) pre';
}.

Lemma Forall_within_in h l k :
  Forall seg_ok l -> Forall (seg_in h) l ->
  Forall (fun n => exists t, In t l /\ within n (readpart t)) k -> Forall (seg_in h) k.
Proof.
  intros Ho Hl Hk. eapply Forall_impl; [exact Hk|]. intros n (t & Hin & W).
  pose proof Hin as Hin'. eapply List.Forall_forall in Hin; [|exact Hl].
  eapply List.Forall_forall in Hin'; [|exact Ho].
  eapply seg_in_within; [exact W|]. by eapply seg_in_within; [apply readpart_within|].
Qed.

Lemma Forall_within_apart w l k :
  Forall (r_apart w) l -> Forall (fun n => exists t, In t l /\ within n (readpart t)) k ->
  Forall (w_apart w) k.
Proof.
  intros Hl Hk. eapply Forall_impl; [exact Hk|]. intros n (t & Hin & W).
  eapply w_apart_within; [apply within_refl|exact W|].
  eapply List.Forall_forall in Hin; [|exact Hl]. done.
Qed.

Lemma extended_slices h pre l pos len :
  source h pos len l -> Forall pre_ok pre -> Forall (seg_in h) pre ->
  extended h pre (pre ++ slices pos len l) l pos len.
Proof.
  intros S Hp Hin. destruct (slices_spec h pos len l S) as (P1 & P2 & P3 & P4 & P5). split.
  - apply Forall_app. auto.
  - rewrite reads_app. lia.
  - rewrite segs_bytes_app, P2. done.
  - apply Forall_app. split; [done|]. eapply Forall_within_in; [apply S|apply S|done].
  - intros w _ Hw1 Hw2. apply Forall_app. split; [done|]. by eapply Forall_within_apart.
Qed.

Lemma merged_joint l k x y :
  merged true (l ++ [x]) -> seg_array y = seg_array x -> seg_start y = seg_start x ->
  merged true (y :: k) -> merged true ((l ++ [y]) ++ k).
Proof.
  intros H1 Ea Es H2. rewrite <- app_assoc. cbn [app]. apply merged_app. split_and!.
  - by apply merged_app in H1 as (?&_&_).
  - done.
  - apply merged_app in H1 as (_&_&H1). intros s u Hs [= <-]. specialize (H1 s x Hs eq_refl).
    destruct H1 as [[? _]|H1]; [done|]. right. unfold adjacent in *. rewrite Ea, Es. done.
Qed.

Lemma merged_snoc_slices pre t l pos len :
  merged true pre -> merged true (slices pos len (t :: l)) ->
  (forall p, last pre = Some p -> ~ touches p t pos) ->
  merged true (pre ++ slices pos len (t :: l)).
Proof.
  intros H1 H2 H3. apply merged_app. split_and!; [done|done|]. cbn [slices].
  intros s u Hs [= <-]. right. apply H3 in Hs. unfold touches, adjacent in *.
  change (seg_start (seg_slice t pos (Z.min (rd t - pos) len))) with (seg_start t + pos). done.
Qed.

(** The first round: the test of the code is [touches]. *)
Lemma copyIn_buffer_first h pre p post R len pos t l :
  source h pos len (t :: l) -> pre_ok p -> 0 < R -> R + len < 2 ^ 63 -> rd p + len < 2 ^ 63 ->
  let n := Z.min (rd t - pos) len in
  copyIn_buffer_loop ((pre ++ [p]) ++ post) (S (length pre)) R len pos true (t :: l) =
  if decide (touches p t pos) then
    if len - n =? 0 then Ok ((pre ++ [seg_extend p n]) ++ post, S (length pre), R + n, 0)
    else copyIn_buffer_loop ((pre ++ [seg_extend p n]) ++ post) (S (length pre)) (R + n) (len - n) 0 false l
  else copyIn_buffer_loop ((pre ++ [p]) ++ post) (S (length pre)) R len pos false (t :: l).
Proof.
  intros S Hlast HR HRb Hpb n. pose proof S as [Hl _ _ _ Hrl Hp Hn Hs _]. cbn [starts_in] in Hs.
  apply Forall_cons in Hl as [Ht Hl]. pose proof (rd_range t Ht).
  pose proof Hlast as (Hps & Hpr & Hpw).
  assert (Hd : deref ((pre ++ [p]) ++ post) (length pre) = Ok p)
    by (rewrite <- app_assoc; apply mk_deref).
  assert (Htest : bool_decide (Ptr (seg_array p) (seg_start p + rd p) = Ptr (seg_array t) (seg_start t + pos))
                  && Nat.eqb (m_array (m_data p)) (m_array (m_data t)) = bool_decide (touches p t pos)).
  { pose proof (pre_ok_mid_stop p Hlast) as Em. unfold seg_mid in Em. unfold touches, rd.
    rewrite Em. fold (seg_array p) (seg_array t).
    destruct (Nat.eqb_spec (seg_array p) (seg_array t)) as [Ea|Ea];
      [rewrite andb_true_r|rewrite andb_false_r; symmetry; apply bool_decide_false; tauto].
    apply bool_decide_ext. split; [intros [= _ ?]; done|intros [_ ->]; by rewrite Ea]. }
  cbn [copyIn_buffer_loop]. seg_eval. rewrite andb_false_r, andb_true_r.
  rewrite (proj2 (Z.eqb_neq R 0)) by lia. step. rewrite Hd. seg_eval.
  unfold ptr_add, SegmentData_start. cbn [p_array p_offset m_array m_start m_length].
  rewrite Htest. destruct (decide (touches p t pos)) as [Hto|Hto].
  - rewrite bool_decide_true by done. rewrite Hpw. step. u64_small. fold n. cbv zeta.
    rewrite (Segment_extend_ok p n) by (done || lia).
    rewrite <- app_assoc. cbn [app]. rewrite mk_update. step. u64_small.
    rewrite <- app_assoc. cbn [app]. destruct (Z.eqb_spec (len - n) 0) as [E|E]; [rewrite E|]; done.
  - rewrite bool_decide_false by done. step. done.
Qed.

Lemma extended_extend h pre p t l pos len :
  source h pos len (t :: l) -> Forall pre_ok (pre ++ [p]) -> Forall (seg_in h) (pre ++ [p]) ->
  reads (pre ++ [p]) + len < 2 ^ 63 -> touches p t pos ->
  let n := Z.min (rd t - pos) len in
  extended h (pre ++ [p]) ((pre ++ [seg_extend p n]) ++ tail (slices pos len (t :: l))) (t :: l) pos len /\
  (merged true (pre ++ [p]) ->
   merged true ((pre ++ [seg_extend p n]) ++ tail (slices pos len (t :: l)))).
Proof.
  intros S Hpre Hin Hb Hto n.
  destruct (slices_spec h pos len (t :: l) S) as (P1 & P2 & P3 & P4 & P5).
  pose proof S as [Hl Hil _ _ Hrl Hp Hn Hs _]. cbn [starts_in] in Hs.
  apply Forall_cons in Hl as [Ht Hl]. apply Forall_cons in Hil as [Hit Hil].
  apply Forall_app in Hpre as [Hpre Hlast]. apply Forall_cons in Hlast as [Hlast _].
  apply Forall_app in Hin as [Hin Hinl].
  rewrite reads_app, reads_cons, reads_nil in *.
  pose proof (reads_nonneg pre (Forall_pre_seg_ok _ Hpre)).
  set (tl := tail (slices pos len (t :: l))).
  assert (Esl : slices pos len (t :: l) = seg_slice t pos n :: tl) by done.
  rewrite Esl in *. rewrite reads_cons, rd_slice in P1. rewrite segs_bytes_cons in P2.
  apply Forall_cons in P3 as [_ P3]. apply Forall_cons in P4 as [_ P4].
  assert (He : pre_ok (seg_extend p n)) by (apply (extend_pre_ok p n); auto; lia).
  split; [split|].
  - rewrite !Forall_app, Forall_singleton. auto.
  - rewrite !reads_app, !reads_cons, !reads_nil. change (rd (seg_extend p n)) with (rd p + n). lia.
  - rewrite <- P2, !segs_bytes_app, !segs_bytes_cons.
    rewrite (extend_bytes h p t pos n), seg_bytes_slice by (auto; lia).
    cbn. rewrite !app_nil_r, <- !app_assoc. done.
  - rewrite !Forall_app, Forall_singleton. split_and!; auto.
    + apply (extend_in h p t pos n); auto; lia.
    + eapply Forall_within_in; [| |exact P4]; by constructor.
  - intros w Hw Hw1 Hw2. rewrite !Forall_app, !Forall_singleton in *. destruct Hw1 as [Hw1 Hw1'].
    pose proof Hw2 as Hw2'. apply Forall_cons in Hw2' as [Hwt _]. split_and!; auto.
    + apply (extend_apart p t pos n); auto; lia.
    + by eapply Forall_within_apart.
  - intros Hm. eapply merged_joint; [exact Hm|done|done|]. destruct tl as [|u tl]; [done|].
    destruct P5 as [P5 P5']. split; [|done]. destruct P5 as [[? _]|P5]; [done|]. right.
    intros [Ea Es]. apply P5. destruct Hto as [Ha1 Ha2]. split.
    + change (seg_array (seg_slice t pos n)) with (seg_array t). rewrite <- Ha1. done.
    + rewrite <- Es. unfold seg_stop, seg_start, seg_slice, seg_extend in *. cbn. unfold seg_start in *. lia.
Qed.

(** The whole loop, and when no two readable neighbours are left that should be one. *)
Lemma copyIn_buffer_loop_ok h pre post len pos first l :
  source h pos len l -> Forall pre_ok pre -> Forall (seg_in h) pre -> merged true pre ->
  reads pre + len < 2 ^ 63 ->
  exists pre',
    copyIn_buffer_loop (pre ++ post) (length pre) (reads pre) len pos first l =
      Ok (pre' ++ post, length pre', reads pre + len, 0) /\
    extended h pre pre' l pos len /\
    (first = true \/ pre = [] -> merged true pre').
Proof.
  intros S Hpre Hin Hm Hb. pose proof (extended_slices h pre l pos len S Hpre Hin) as X.
  pose proof (copyIn_buffer_loop_plain h pre post len pos l S Hpre Hb) as E.
  destruct (slices_spec h pos len l S) as (_ & _ & _ & _ & Hms).
  pose proof S as [Hl _ _ _ _ Hp Hn Hs _]. destruct l as [|t l]; [done|]. cbn [starts_in] in Hs.
  apply Forall_cons in Hl as [Ht Hl]. pose proof (rd_range t Ht).
  destruct first.
  2:{ exists (pre ++ slices pos len (t :: l)). split_and!; auto. intros [?| ->]; done. }
  destruct pre as [|p pre _] using rev_ind; [by exists (slices pos len (t :: l))|].
  pose proof Hpre as Hpre0. apply Forall_app in Hpre0 as [Hpre0 Hlast]. apply Forall_cons in Hlast as [Hlast _].
  pose proof Hlast as (Hps & Hpr & Hpw). pose proof (reads_nonneg pre (Forall_pre_seg_ok _ Hpre0)).
  assert (Hrp : reads (pre ++ [p]) = reads pre + rd p) by (rewrite reads_app, reads_cons, reads_nil; lia).
  assert (Hlen : forall q : Segment, length (pre ++ [q]) = Datatypes.S (length pre)) by (intros; rewrite length_app; cbn; lia).
  rewrite Hlen in *.
  rewrite (copyIn_buffer_first h) by (auto; lia). destruct (decide (touches p t pos)) as [Hto|Hto].
  - destruct (extended_extend h pre p t l pos len S Hpre Hin Hb Hto) as [X' M'].
    eexists. split; [|split; [exact X'|intros _; by apply M']].
    set (n := Z.min (rd t - pos) len) in *. cbn [slices tail].
    fold n. destruct (Z.eqb_spec (len - n) 0) as [E0|E0].
    + rewrite app_nil_r, Hlen. do 3 f_equal. lia.
    + destruct (source_tail _ _ _ _ _ S E0) as [S' En]. fold n in En. 
      pose proof (copyIn_buffer_loop_plain h (pre ++ [seg_extend p n]) post (len - n) 0 l) as E1.
      rewrite En in *. rewrite Hlen, !reads_app, reads_cons, reads_nil in E1.
      change (rd (seg_extend p (rd t - pos))) with (rd p + (rd t - pos)) in E1.
      replace (reads (pre ++ [p]) + (rd t - pos)) with (reads pre + (rd p + (rd t - pos) + 0)) by lia.
      rewrite E1; [| |rewrite Forall_app, Forall_singleton; split; [done|]|lia].
      * do 3 f_equal. lia.
      * done.
      * apply (extend_pre_ok p (rd t - pos)); auto; lia.
  - exists ((pre ++ [p]) ++ slices pos len (t :: l)). split_and!; auto.
    intros _. apply merged_snoc_slices; auto. rewrite last_snoc. intros ? [= <-]. done.
Qed.

(** ** copyIn(const Buffer &, size_t, size_t) *)

Lemma sep_full s t : wr s = 0 -> wr t = 0 -> sep s t.
Proof. intros. unfold sep, w_apart. lia. Qed.

Lemma all_pairs_full l : Forall pre_ok l -> all_pairs sep l.
Proof.
  induction 1 as [|s l Hs Hl IH]; [done|]. split; [|done]. eapply Forall_impl; [exact Hl|].
  intros t Ht. apply sep_full; [apply Hs|apply Ht].
Qed.

(** The represented buffer in memory, without the rule that neighbours be merged. *)
Record sound (h : heap) (pre post : list Segment) : Prop := {
  sound_shape : shape pre post;
  sound_in : Forall (seg_in h) (pre ++ post);
  sound_sep : all_pairs sep (pre ++ post);
}.

Lemma sound_good b h pre post : sound h pre post -> merged b (pre ++ post) -> good b h pre post.
Proof. intros [] ?. split; auto. Qed.

Lemma sound_extended h pre post p1 q1 p2 l pos len :
  split_of h pre post p1 q1 -> extended h p1 p2 l pos len -> apart_from q1 l ->
  reads (pre ++ post) + len < 2 ^ 63 -> writes post < 2 ^ 63 -> sound h p2 q1.
Proof.
  intros [Hp Hq Hrd Hwr Hby Hin Hsep Hmp Hm Hap _] [E1 E2 E3 E4 E5] Ha Hb Hw.
  apply all_pairs_app in Hsep as (Hs1 & Hs2 & Hs3). apply Forall_app in Hin as [Hin1 Hin2].
  split.
  - split; auto with seg; rewrite ?reads_app, ?(reads_tail q1 Hq) in *; lia.
  - apply Forall_app. auto.
  - apply all_pairs_app. split_and!; auto using all_pairs_full.
    assert (F : Forall (fun w => Forall (w_apart w) p2) q1).
    { apply List.Forall_forall. intros w Hw'. pose proof Hw' as Hw2.
      eapply List.Forall_forall in Hw2; [|exact Hq]. destruct Hw2 as (?&?&?).
      apply E5; auto.
      - eapply Forall_impl; [exact Hs3|]. intros x Hx. eapply List.Forall_forall in Hx; [|exact Hw']. apply Hx.
      - eapply List.Forall_forall in Ha; [|exact Hw']. done. }
    apply List.Forall_forall. intros x Hx. apply List.Forall_forall. intros w Hw'. split.
    + left. eapply List.Forall_forall in Hx; [|exact E1]. destruct Hx as (?&?&?). lia.
    + eapply List.Forall_forall in Hw'; [|exact F]. eapply List.Forall_forall in Hw'; [|exact Hx]. done.
Qed.

Lemma good_weaken b h pre post : good b h pre post -> good false h pre post.
Proof. intros []. split; eauto using merged_nearly. Qed.

Lemma skip_loop_starts pos first l :
  Forall seg_ok l -> 0 <= pos -> starts_in pos l -> skip_loop pos first l = Ok (pos, first, l).
Proof.
  destruct l as [|t l]; [done|]. intros Hl Hp Hs. apply Forall_cons in Hl as [Ht _].
  cbn [skip_loop starts_in] in *. destruct (pos =? 0); [done|]. seg_eval. ztest. done.
Qed.

(** The part of a source buffer the loop runs over. *)
Lemma skip_source h sp sq pos len :
  good false h sp sq -> 0 <= pos -> 0 < len -> pos + len <= reads (sp ++ sq) ->
  exists pos' first l0 l, skip_loop pos true (sp ++ sq) = Ok (pos', first, l) /\
    source h pos' len l /\ not_end l = true /\ sp ++ sq = l0 ++ l /\
    zslice pos' len (segs_bytes h l) = zslice pos len (segs_bytes h (sp ++ sq)) /\
    (starts_in pos (sp ++ sq) -> first = true).
Proof.
  intros Gs Hpos Hn Hfit. pose proof Gs as [[_ _ Hsr _] _ Hsin _].
  pose proof (good_seg_ok _ _ _ _ Gs) as Hsok.
  destruct (skip_loop_ok h (sp ++ sq) pos true)
    as (pos' & first & l0 & t & l & Es & El & P1 & P0 & P2 & P3 & P4); auto; [lia|].
  exists pos', first, l0, (t :: l). pose proof (good_front_loaded _ _ _ _ Gs) as Hfl.
  pose proof (good_gap _ _ _ _ Gs) as Hgap.
  assert (Hfirst : starts_in pos (sp ++ sq) -> first = true).
  { intros Hs. rewrite skip_loop_starts in Es by auto. congruence. }
  split_and!; auto; [|unfold zslice; by rewrite P4].
  rewrite El in *. apply front_loaded_suffix in Hfl. apply chain_suffix in Hgap.
  apply Forall_app in Hsok as [Hsok0 Hsok]. apply Forall_app in Hsin as [_ Hsin].
  rewrite reads_app in *. pose proof (reads_nonneg _ Hsok0).
  split; auto; try lia. destruct P0 as [->|]; [apply starts_in_0; auto; lia|done].
Qed.

Lemma split_invariant h pre post p1 q1 :
  good false h pre post -> split_of h pre post p1 q1 ->
  Buffer_invariant (mkBuffer (p1 ++ q1) (reads (pre ++ post)) (writes post) (length p1)) = Ok tt.
Proof.
  intros [[_ _ Hr Hw] _ _ _] [Hp1 Hq1 Hrd Hwr _ _ _ _ Hm1 _ _].
  rewrite (mk_intro p1 q1); [|rewrite ?reads_app, ?(reads_tail q1 Hq1) in *; (done || lia)..].
  apply invariant_ok; [|done]. split; auto with seg; rewrite ?reads_app, ?(reads_tail q1 Hq1) in *; lia.
Qed.

Lemma pre_w_apart w l : Forall pre_ok l -> Forall (r_apart w) l -> Forall (w_apart w) l.
Proof.
  intros Hl F. induction Hl as [|s l Hs Hl IH]; [constructor|]. apply Forall_cons in F as [Hw F].
  constructor; [|auto]. apply pre_ok_mid_stop in Hs. revert Hw.
  unfold r_apart, w_apart, readpart, seg_mid, seg_stop, seg_slice, seg_start, seg_array, rd in *. cbn in *. unfold seg_start. intuition lia.
Qed.

Lemma merged_extended p2 q1 :
  Forall pre_ok p2 -> Forall tail_ok q1 -> merged true p2 -> merged false q1 -> merged false (p2 ++ q1).
Proof.
  intros Hp Hq Hm1 Hm2. apply merged_app. split_and!; [by eapply merged_nearly|done|].
  intros s u Hs Hu. left. split_and!; [done| |].
  - eapply last_Forall in Hs; [|exact Hp]. apply Hs.
  - destruct q1; [done|]. injection Hu as ->. apply Forall_cons in Hq as [(?&?&?) _]. done.
Qed.

Lemma copyIn_buffer_ok h pre post sp sq len pos :
  good false h pre post -> good false h sp sq -> apart_from post (sp ++ sq) ->
  0 <= pos -> 0 <= len -> pos + len <= reads (sp ++ sq) -> reads (pre ++ post) + len < 2 ^ 63 ->
  exists pre' post',
    Buffer_copyIn_buffer (mk pre post) (mk sp sq) len pos = Ok (mk pre' post') /\
    sound h pre' post' /\
    segs_bytes h (pre' ++ post') =
      segs_bytes h (pre ++ post) ++ zslice pos len (segs_bytes h (sp ++ sq)) /\
    writes post' = writes post /\
    (starts_in pos (sp ++ sq) \/ reads (pre ++ post) = 0 -> merged false (pre' ++ post')) /\
    (forall w, 0 < wr w -> Forall (r_apart w) (pre ++ post) -> Forall (r_apart w) (sp ++ sq) ->
       Forall (r_apart w) (pre' ++ post')).
Proof.
  intros G Gs Ha Hpos Hlen Hfit Hb. pose proof G as [[Hp Hq Hr Hw] Hm Hin Hsep].
  pose proof (reads_nonneg _ (good_seg_ok _ _ _ _ G)).
  pose proof Gs as [[_ _ Hsr _] _ _ _].
  unfold Buffer_copyIn_buffer. mk_simpl. unfold npos.
  rewrite (proj2 (Z.eqb_neq len (2 ^ 64 - 1))) by lia. cbv zeta.
  u64_small. repeat ztest. step. rewrite (good_invariant false h) by done. step.
  destruct (Z.eqb_spec len 0) as [->|Hn].
  { exists pre, post. unfold zslice. rewrite ztake_0, app_nil_r. split_and!; auto. split; auto. split; auto. }
  destruct (split_mixed_ok h pre post G) as (p1 & q1 & b & E & S).
  pose proof S as [Hp1 Hq1 Hrd Hwr Hby Hin1 Hsep1 Hmp Hm1 Hap Hfr]. rewrite E. step.
  rewrite (split_invariant h pre post p1 q1 G S).
  replace (if b then Ok tt else Ok tt) with (Ok tt) by (by destruct b). step.
  destruct (skip_source h sp sq pos len Gs) as (pos' & first & l0 & l & Es & S' & Hne & El & P4 & P5);
    auto; [lia|].
  rewrite Es. step. rewrite Hne. step. apply Forall_app in Hin1 as [Hin1 Hin1'].
  destruct (copyIn_buffer_loop_ok h p1 q1 len pos' first l) as (p2 & E2 & X & Hm2); auto; [lia|].
  rewrite Hrd in E2. rewrite E2. step. repeat ztest. step. pose proof X as [X1 X2 X3 _ X5].
  rewrite (mk_intro p2 q1); [|rewrite ?reads_app, ?(reads_tail q1 Hq1) in *; (done || lia)..].
  assert (Ha1 : apart_from q1 l).
  { apply Hap in Ha. eapply Forall_impl; [exact Ha|]. intros w. rewrite El. rewrite Forall_app. tauto. }
  exists p2, q1. split_and!; [done|by eapply sound_extended| |done| |].
  - rewrite segs_bytes_app, (segs_bytes_tail h q1 Hq1), app_nil_r, X3, Hby, P4. done.
  - intros Hc. apply merged_app in Hm1 as (_&Hmq&_). apply merged_extended; auto. apply Hm2.
    destruct Hc as [Hc|Hc]; [left; by apply P5|]. right.
    destruct (reads_zero_pre p1 q1) as [-> _]; auto with seg. rewrite reads_app, (reads_tail q1 Hq1). lia.
  - intros w Hww F1 F2. apply Hfr in F1. apply Forall_app in F1 as [F1 F1'].
    apply Forall_app. split; [|done]. apply Forall_r_apart; auto with seg. apply X5; auto using pre_w_apart.
    rewrite El in F2. by apply Forall_app in F2 as [_ ?].
Qed.
