(* ===== verification/BufferRead.v ===== *)
(** [copyOut], [readBuffers] and the views of the memory of a [Buffer], and searching it. *)

From stdpp Require Import numbers list_numbers list.
From S2P Require Import Prelude Memory Buffer BufferInv BufferOps BufferCopy.

(** ** memchr and memcmp *)

Lemma memchr_range c l i : memchr c l = Some i -> 0 <= i < zlen l.
Proof.
  revert i. induction l as [|x l IH]; intros i; cbn [memchr]; [done|].
  rewrite zlen_cons. pose proof (zlen_nonneg l). destruct (x =? c); [intros [= <-]; lia|].
  destruct (memchr c l) as [j|]; cbn; [|done]. intros [= <-]. specialize (IH j eq_refl). lia.
Qed.

Lemma memchr_app c l k :
  memchr c (l ++ k) =
  match memchr c l with Some i => Some i | None => Z.add (zlen l) <$> memchr c k end.
Proof.
  induction l as [|x l IH]; cbn [app memchr].
  - rewrite zlen_nil. destruct (memchr c k); done.
  - destruct (x =? c); [done|]. rewrite IH, zlen_cons. destruct (memchr c l); [done|].
    destruct (memchr c k); cbn; [|done]. f_equal. lia.
Qed.

(** [memchr] finds the first occurrence. *)
Lemma memchr_Some c l i :
  memchr c l = Some i <-> exists l0 l1, l = l0 ++ c :: l1 /\ zlen l0 = i /\ ~ In c l0.
Proof.
  revert i. induction l as [|x l IH]; intros i; cbn [memchr].
  - split; [done|]. intros (l0 & l1 & E & _). by destruct l0.
  - destruct (Z.eqb_spec x c) as [->|Hx].
    + split; [intros [= <-]; exists [], l; auto|].
      intros (l0 & l1 & E & <- & Hn). destruct l0 as [|y l0]; [done|].
      injection E as <- _. exfalso. apply Hn. by left.
    + destruct (memchr c l) as [j|] eqn:Ej; cbn.
      * destruct (proj1 (IH j) eq_refl) as (l0 & l1 & -> & <- & Hn). split.
        { intros [= <-]. exists (x :: l0), l1. rewrite zlen_cons. split_and!; auto; [lia|].
          intros [|]; done. }
        { intros (m0 & m1 & E & <- & Hm). destruct m0 as [|y m0]; [injection E as -> _; done|].
          injection E as -> E. rewrite zlen_cons. do 1 f_equal.
          assert (Some (zlen l0) = Some (zlen m0)) as [= ->]; [|lia].
          apply IH. exists m0, m1. split_and!; auto. intros ?. apply Hm. by right. }
      * split; [done|]. intros (m0 & m1 & E & <- & Hm). destruct m0 as [|y m0]; [injection E as -> _; done|].
        injection E as -> ->. enough (None = Some (zlen m0)) by done.
        apply IH. exists m0, m1. split_and!; auto. intros ?. apply Hm. by right.
Qed.

Lemma memcmp_app a b x y :
  zlen a = zlen b ->
  memcmp (a ++ x) (b ++ y) = if memcmp a b =? 0 then memcmp x y else memcmp a b.
Proof.
  revert b. induction a as [|u a IH]; intros [|v b]; rewrite ?zlen_cons, ?zlen_nil; intros E;
    try (pose proof (zlen_nonneg a)); try (pose proof (zlen_nonneg b)); try lia; [done|].
  cbn [app memcmp]. destruct (u <? v); [done|]. destruct (v <? u); [done|]. apply IH. lia.
Qed.

Lemma memcmp_eq a b : zlen a = zlen b -> memcmp a b = 0 <-> a = b.
Proof.
  revert b. induction a as [|u a IH]; intros [|v b]; rewrite ?zlen_cons, ?zlen_nil; intros E;
    try (pose proof (zlen_nonneg a)); try (pose proof (zlen_nonneg b)); try lia; [done|].
  cbn [memcmp]. destruct (Z.ltb_spec u v); [split; [done|intros [= -> _]; lia]|].
  destruct (Z.ltb_spec v u); [split; [done|intros [= -> _]; lia]|].
  rewrite IH by lia. split; [intros ->; f_equal; lia|by intros [= _ ->]].
Qed.

(** ** find(char) *)

Lemma find_char_loop_ok h c l len tot :
  Forall seg_ok l -> Forall (seg_in h) l -> 0 <= len <= reads l -> 0 <= tot ->
  tot + reads l < 2 ^ 63 ->
  find_char_loop h c len tot l =
  Ok (match memchr c (ztake len (segs_bytes h l)) with Some i => tot + i | None => -1 end).
Proof.
  intros Hl Hin. revert len tot. induction Hl as [|s l Hs Hl IH]; intros len tot Hlen Ht Hb.
  - cbn. rewrite ztake_nil. done.
  - apply Forall_cons in Hin as [Hins Hin]. rewrite reads_cons in *. pose proof (rd_range s Hs).
    pose proof (reads_nonneg l Hl). pose proof (zlen_seg_bytes h s Hs Hins).
    cbn [find_char_loop]. seg_eval. unfold SegmentData_start. cbn [m_array m_start].
    rewrite load_seg_0 by (auto; lia). step. rewrite segs_bytes_cons.
    destruct (decide (len <= rd s)).
    + rewrite Z.min_l, ztake_app_le by lia.
      destruct (memchr c (ztake len (seg_bytes h s))) as [i|] eqn:Ei.
      * apply memchr_range in Ei. rewrite zlen_ztake in Ei by lia. u64_small. rewrite s64_small by lia. done.
      * u64_small. ztest. done.
    + rewrite Z.min_r, ztake_all, ztake_app_ge, memchr_app by lia.
      destruct (memchr c (seg_bytes h s)) as [i|] eqn:Ei.
      * apply memchr_range in Ei. u64_small. rewrite s64_small by lia. done.
      * u64_small. ztest. rewrite IH by (auto; lia).
        rewrite H1. destruct (memchr c (ztake _ _)); cbn; f_equal; lia.
Qed.

(** ** Comparison *)

Lemma advance_split h s l lo n :
  seg_ok s -> seg_in h s -> 0 <= lo -> 0 <= n -> lo + n <= rd s ->
  zdrop lo (segs_bytes h (s :: l)) =
  zslice lo n (seg_bytes h s) ++ zdrop (lo + n) (segs_bytes h (s :: l)).
Proof.
  intros Hs Hi ???. pose proof (zlen_seg_bytes h s Hs Hi).
  rewrite segs_bytes_cons. rewrite !zdrop_app_le by lia. unfold zslice.
  rewrite app_assoc, <- (zdrop_zdrop n lo), ztake_zdrop by lia. done.
Qed.

Lemma advance_next h s l lo :
  seg_ok s -> seg_in h s ->
  zdrop (if lo =? rd s then 0 else lo) (segs_bytes h (if lo =? rd s then l else s :: l)) =
  zdrop lo (segs_bytes h (s :: l)).
Proof.
  intros Hs Hi. pose proof (zlen_seg_bytes h s Hs Hi) as L.
  destruct (Z.eqb_spec lo (rd s)) as [->|]; [|done].
  rewrite segs_bytes_cons, zdrop_app_ge, L, Z.sub_diag by lia. done.
Qed.

Lemma opCmp_loop_ok fuel h r lo ro l1 l2 :
  Forall seg_ok l1 -> Forall (seg_in h) l1 -> front_loaded l1 ->
  Forall seg_ok l2 -> Forall (seg_in h) l2 -> front_loaded l2 ->
  reads l1 < 2 ^ 63 -> reads l2 < 2 ^ 63 -> 0 <= lo -> 0 <= ro ->
  match l1 with [] => True | s :: _ => lo = 0 \/ lo < rd s end ->
  match l2 with [] => True | s :: _ => ro = 0 \/ ro < rd s end ->
  (length l1 + length l2 <= fuel)%nat ->
  opCmp_loop fuel h r lo ro l1 l2 =
  Ok (let c := memcmp (zdrop lo (segs_bytes h l1)) (zdrop ro (segs_bytes h l2)) in
      if c =? 0 then r else c).
Proof.
  revert lo ro l1 l2. induction fuel as [|fuel IH];
    intros lo ro l1 l2 K1 I1 F1 K2 I2 F2 B1 B2 Hlo Hro Hs1 Hs2 Hf.
  { destruct l1; [|cbn in Hf; lia]. cbn. rewrite zdrop_nil. done. }
  destruct l1 as [|s l1]; [cbn; rewrite zdrop_nil; done|].
  destruct l2 as [|t l2].
  { cbn [opCmp_loop]. change (segs_bytes h []) with (@nil Z). rewrite zdrop_nil.
    destruct (zdrop lo _); done. }
  pose proof K1 as K1'. pose proof K2 as K2'.
  apply Forall_cons in K1' as [Hs K1']. apply Forall_cons in K2' as [Ht K2'].
  pose proof I1 as I1'. pose proof I2 as I2'.
  apply Forall_cons in I1' as [Hsi I1']. apply Forall_cons in I2' as [Hti I2'].
  pose proof F1 as [Fs F1']. pose proof F2 as [Ft F2'].
  pose proof (rd_range s Hs). pose proof (rd_range t Ht).
  pose proof (zlen_seg_bytes h s Hs Hsi) as Ls. pose proof (zlen_seg_bytes h t Ht Hti) as Lt.
  pose proof (zlen_segs_bytes h _ K1 I1) as L1. pose proof (zlen_segs_bytes h _ K2 I2) as L2.
  pose proof (reads_nonneg _ K1'). pose proof (reads_nonneg _ K2').
  rewrite reads_cons in *. cbn [opCmp_loop]. seg_eval.
  repeat ztest. step. u64_small. set (n := Z.min (rd s - lo) (rd t - ro)).
  destruct (Z.eqb_spec n 0) as [En|En].
  { (* one of the sides has no readable byte left *)
    assert (zlen (segs_bytes h (s :: l1)) = 0 \/ zlen (segs_bytes h (t :: l2)) = 0) as [E|E].
    { rewrite L1, L2. lia. }
    - rewrite (zlen_zero_inv _ E), zdrop_nil. done.
    - rewrite (zlen_zero_inv _ E), zdrop_nil. destruct (zdrop lo _); done. }
  assert (Hn : 0 < n) by lia. seg_eval. unfold SegmentData_start. cbn [m_array m_start].
  rewrite (load_seg h s), (load_seg h t) by (auto; lia). step.
  rewrite (advance_split h s l1 lo n), (advance_split h t l2 ro n) by (auto; lia).
  rewrite memcmp_app by (rewrite !zlen_zslice by lia; done). cbv zeta.
  destruct (Z.eqb_spec (memcmp (zslice lo n (seg_bytes h s)) (zslice ro n (seg_bytes h t))) 0) as [E|E];
    [|cbn [negb]; rewrite (proj2 (Z.eqb_neq _ _) E); done].
  cbn [negb]. u64_small.
  rewrite IH, !advance_next; try done; cbn [length] in Hf;
    repeat (case_match; rewrite ?reads_cons; cbn [length]); rewrite ?Z.eqb_eq, ?Z.eqb_neq in *;
    simplify_eq; auto; try lia.
Qed.

(** The segments a reader runs over. *)
Record readable (h : heap) (l : list Segment) : Prop := {
  rdb_ok : Forall seg_ok l;
  rdb_in : Forall (seg_in h) l;
  rdb_front : front_loaded l;
  rdb_bound : reads l < 2 ^ 63;
}.

Lemma good_readable b h pre post : good b h pre post -> readable h (pre ++ post).
Proof.
  intros G. pose proof G as [[_ _ ? _] _ ? _].
  split; eauto using good_seg_ok, good_front_loaded.
Qed.

Lemma readable_tail h s l : readable h (s :: l) -> readable h l.
Proof.
  intros [Hl Hin [_ Hf] Hb]. apply Forall_cons in Hl as [Hs Hl]. apply Forall_cons in Hin as [_ Hin].
  rewrite reads_cons in Hb. pose proof (rd_range s Hs). split; auto. lia.
Qed.

Lemma opCmp_ok b1 b2 h p1 q1 p2 q2 :
  good b1 h p1 q1 -> good b2 h p2 q2 ->
  Buffer_opCmp h (mk p1 q1) (mk p2 q2) =
  Ok (let c := memcmp (segs_bytes h (p1 ++ q1)) (segs_bytes h (p2 ++ q2)) in
      if c =? 0 then length_difference (reads (p1 ++ q1)) (reads (p2 ++ q2)) else c).
Proof.
  intros G1 G2. destruct (good_readable _ _ _ _ G1), (good_readable _ _ _ _ G2).
  unfold Buffer_opCmp. mk_simpl. rewrite opCmp_loop_ok; auto; try lia.
  - destruct (p1 ++ q1); auto.
  - destruct (p2 ++ q2); auto.
Qed.

Lemma length_difference_same a : length_difference a a = 0.
Proof. unfold length_difference. rewrite Z.sub_diag. reflexivity. Qed.

Lemma buffer_eq_ok b1 b2 h p1 q1 p2 q2 :
  good b1 h p1 q1 -> good b2 h p2 q2 ->
  Buffer_eq h (mk p1 q1) (mk p2 q2) =
    Ok (bool_decide (segs_bytes h (p1 ++ q1) = segs_bytes h (p2 ++ q2))) /\
  Buffer_neq h (mk p1 q1) (mk p2 q2) =
    Ok (negb (bool_decide (segs_bytes h (p1 ++ q1) = segs_bytes h (p2 ++ q2)))).
Proof.
  intros G1 G2. unfold Buffer_eq, Buffer_neq. mk_simpl.
  pose proof (zlen_bytes _ _ _ _ G1) as L1. pose proof (zlen_bytes _ _ _ _ G2) as L2.
  destruct (Z.eqb_spec (reads (p2 ++ q2)) (reads (p1 ++ q1))) as [E|E]; cbn [negb].
  - rewrite (opCmp_ok b1 b2) by done. cbv zeta. step. rewrite E, length_difference_same.
    set (c := memcmp _ _).
    assert (Hc : c = 0 <-> segs_bytes h (p1 ++ q1) = segs_bytes h (p2 ++ q2)) by (apply memcmp_eq; lia).
    destruct (Z.eqb_spec c 0) as [E0|E0]; [rewrite (bool_decide_true _ (proj1 Hc E0))|].
    + done.
    + rewrite (proj2 (Z.eqb_neq c 0)) by done. rewrite bool_decide_false by tauto. done.
  - rewrite bool_decide_false; [done|]. intros Eq. apply E. rewrite <- L1, <- L2, Eq. done.
Qed.

Lemma opCmp_string_loop_ok h r str l :
  readable h l -> zlen str = reads l ->
  opCmp_string_loop h r (reads l) str l =
  Ok (let c := memcmp (segs_bytes h l) str in if c =? 0 then r else c).
Proof.
  revert str. induction l as [|s l IH]; intros str R E; [done|].
  pose proof (readable_tail _ _ _ R) as R'. destruct R as [Hl Hin [Hf _] Hb].
  apply Forall_cons in Hl as [Hs Hl]. apply Forall_cons in Hin as [Hi Hin].
  pose proof (rd_range s Hs). pose proof (reads_nonneg l Hl). pose proof (zlen_seg_bytes h s Hs Hi) as L.
  rewrite reads_cons in *. cbn [opCmp_string_loop]. seg_eval. unfold SegmentData_start. cbn [m_array m_start].
  rewrite Z.min_l, load_seg_0 by (auto; lia). step. rewrite (ztake_all (rd s)) by lia. ztest.
  pose proof (memcmp_app (seg_bytes h s) (ztake (rd s) str) (segs_bytes h l) (zdrop (rd s) str)
    ltac:(rewrite zlen_ztake; lia)) as Em.
  rewrite ztake_zdrop in Em. rewrite segs_bytes_cons, Em. cbv zeta.
  destruct (Z.eqb_spec (memcmp (seg_bytes h s) (ztake (rd s) str)) 0) as [E0|E0];
    [|cbn [negb]; rewrite (proj2 (Z.eqb_neq _ _) E0); done].
  cbn [negb]. u64_small. replace (rd s + reads l - rd s) with (reads l) by lia.
  destruct (Z.eqb_spec (reads l) 0) as [E1|E1].
  - rewrite (zlen_zero_inv (zdrop (rd s) str)) by (rewrite zlen_zdrop; lia).
    destruct (segs_bytes h l); done.
  - apply IH; [done|]. rewrite zlen_zdrop; lia.
Qed.

Lemma buffer_eq_string_ok b h pre post str :
  good b h pre post ->
  Buffer_eq_string h (mk pre post) str = Ok (bool_decide (segs_bytes h (pre ++ post) = str)) /\
  Buffer_neq_string h (mk pre post) str = Ok (negb (bool_decide (segs_bytes h (pre ++ post) = str))).
Proof.
  intros G. unfold Buffer_eq_string, Buffer_neq_string, Buffer_opCmp_string. mk_simpl.
  pose proof (zlen_bytes _ _ _ _ G) as L1.
  destruct (Z.eqb_spec (zlen str) (reads (pre ++ post))) as [E|E]; cbn [negb].
  - rewrite E, length_difference_same. cbn [Z.ltb Z.compare]. cbv zeta.
    rewrite opCmp_string_loop_ok by (eauto using good_readable). step.
    set (c := memcmp _ _).
    assert (Hc : c = 0 <-> segs_bytes h (pre ++ post) = str) by (apply memcmp_eq; lia).
    destruct (Z.eqb_spec c 0) as [E0|E0]; [rewrite (bool_decide_true _ (proj1 Hc E0))|].
    + done.
    + rewrite (proj2 (Z.eqb_neq c 0)) by done. rewrite bool_decide_false by tauto. done.
  - rewrite bool_decide_false; [done|]. intros Eq. apply E. rewrite <- L1, Eq. done.
Qed.

(** ** visit and the scatter/gather lists *)

Lemma visit_loop_ok h len l :
  readable h l -> 0 <= len <= reads l ->
  exists blocks, visit_loop h len l = Ok (blocks, 0) /\
    concat blocks = ztake len (segs_bytes h l) /\ Forall (fun blk => blk <> []) blocks.
Proof.
  revert len. induction l as [|s l IH]; intros len R Hlen.
  - rewrite reads_nil in Hlen. assert (len = 0) as -> by lia. by exists [].
  - pose proof (readable_tail _ _ _ R) as R'. destruct R as [Hl Hin [Hf _] Hb].
    apply Forall_cons in Hl as [Hs Hl]. apply Forall_cons in Hin as [Hi Hin].
    pose proof (rd_range s Hs). pose proof (reads_nonneg l Hl).
    pose proof (zlen_seg_bytes h s Hs Hi) as L. rewrite reads_cons in *.
    cbn [visit_loop]. destruct (Z.ltb_spec 0 len).
    2:{ assert (len = 0) as -> by lia. exists []. rewrite ztake_0. done. }
    specialize (Hf ltac:(lia)). seg_eval. ztest. step. seg_eval.
    unfold SegmentData_start. cbn [m_array m_start]. rewrite load_seg_0 by (auto; lia). step. u64_small.
    destruct (IH (len - Z.min len (rd s))) as (blocks & E & P1 & P2); [done|lia|].
    rewrite E. step. eexists. split_and!; [done| |constructor; [|done]].
    + cbn [concat]. rewrite P1, segs_bytes_cons. destruct (decide (len <= rd s)).
      * rewrite Z.min_l, Z.sub_diag, ztake_0, app_nil_r, ztake_app_le by lia. done.
      * rewrite Z.min_r, (ztake_all (rd s)), (ztake_app_ge len), L by lia. done.
    + intros En. apply (f_equal zlen) in En. rewrite zlen_ztake, zlen_nil in En by lia. lia.
Qed.

Definition load_iovec (h : heap) (iov : iovec) : list Z :=
  match iov_base iov with
  | Some p => match load h p (iov_len iov) with Ok l => l | Err _ => [] end
  | None => []
  end.

Lemma readBuffers_loop_ok h len l :
  readable h l -> 0 <= len <= reads l -> l <> [] ->
  exists iovs, readBuffers_loop len l = Ok (iovs, 0) /\
    concat (load_iovec h <$> iovs) = ztake len (segs_bytes h l).
Proof.
  revert len. induction l as [|s l IH]; intros len R Hlen Hne; [done|].
  pose proof (readable_tail _ _ _ R) as R'. destruct R as [Hl Hin [Hf _] Hb].
  apply Forall_cons in Hl as [Hs Hl]. apply Forall_cons in Hin as [Hi Hin].
  pose proof (rd_range s Hs). pose proof (reads_nonneg l Hl).
  pose proof (zlen_seg_bytes h s Hs Hi) as L. rewrite reads_cons in *.
  cbn [readBuffers_loop]. seg_eval. rewrite slice_ok by (cbn [m_length]; lia). step. u64_small.
  assert (Hd : load_iovec h (iovec_of (mkSegmentData (seg_array s) (seg_start s + 0) (Z.min (rd s) len)))
               = ztake (Z.min (rd s) len) (seg_bytes h s)).
  { unfold load_iovec, iovec_of, SegmentData_start. cbn [iov_base iov_len m_array m_start m_length].
    rewrite Z.add_0_r, load_seg_0 by (auto; lia). done. }
  cbn [m_array m_start]. rewrite segs_bytes_cons.
  destruct (Z.eqb_spec (len - Z.min (rd s) len) 0) as [E|E].
  - rewrite E. eexists. split; [done|]. cbn [fmap list_fmap concat]. rewrite Hd, app_nil_r.
    rewrite Z.min_r, ztake_app_le by lia. done.
  - destruct (IH (len - Z.min (rd s) len)) as (iovs & Ei & P); [done|lia|intros ->; rewrite reads_nil in *; lia|].
    rewrite Ei. step. eexists. split; [done|]. cbn [fmap list_fmap concat]. rewrite Hd.
    change (list_fmap _ _ (load_iovec h) iovs) with (load_iovec h <$> iovs). rewrite P.
    rewrite Z.min_l, (ztake_all (rd s)), (ztake_app_ge len), L by lia. done.
Qed.

Lemma writeBuffers_loop_ok h len l :
  post_ok l -> Forall (seg_in h) l -> 0 <= len <= writes l -> writes l < 2 ^ 63 ->
  exists iovs, writeBuffers_loop len l = Ok iovs /\
    concat (load_iovec h <$> iovs) = ztake len (segs_wbytes h l).
Proof.
  revert len. induction l as [|s l IH]; intros len Hl Hin Hlen Hb.
  - rewrite writes_nil in *. assert (len = 0) as -> by lia. by exists [].
  - destruct Hl as (Hs & Hw & Hl). apply Forall_cons in Hin as [Hi Hin]. rewrite writes_cons in *.
    pose proof (writes_nonneg l (Forall_tail_seg_ok _ Hl)). pose proof (zlen_seg_wbytes h s Hs Hi) as L.
    cbn [writeBuffers_loop]. destruct (Z.ltb_spec 0 len).
    2:{ assert (len = 0) as -> by lia. exists []. rewrite ztake_0. done. }
    seg_eval. rewrite slice_ok by (cbn [m_length]; lia). step. u64_small.
    destruct (IH (len - Z.min (wr s) len)) as (iovs & E & P); auto with seg; [lia..|].
    rewrite E. step. eexists. split; [done|]. cbn [fmap list_fmap concat].
    change (list_fmap _ _ (load_iovec h) iovs) with (load_iovec h <$> iovs). rewrite P, segs_wbytes_cons.
    assert (Hd : load_iovec h (iovec_of (mkSegmentData (seg_array s) (seg_mid s + 0) (Z.min (wr s) len)))
                 = ztake (Z.min (wr s) len) (seg_wbytes h s)).
    { destruct Hi as (arr & Ea & Hla), Hs as (?&?&?).
      unfold load_iovec, iovec_of, SegmentData_start, load, in_array, seg_wbytes.
      cbn [iov_base iov_len m_array m_start m_length p_array p_offset].
      rewrite Ea. unfold seg_stop, seg_mid, seg_start, wr in *. repeat ztest. cbn [andb].
      unfold zslice. rewrite ztake_ztake, Z.add_0_r by lia. done. }
    cbn [m_array m_start]. rewrite Hd. destruct (decide (len <= wr s)).
    + rewrite Z.min_r, Z.sub_diag, ztake_0, app_nil_r, ztake_app_le by lia. done.
    + rewrite Z.min_l, (ztake_all (wr s)), (ztake_app_ge len), L by lia. done.
Qed.

(** Searching a [Buffer] for a byte and for a string. *)

(** ** Occurrences of a string *)

Definition occurs_at (s text : list Z) (k : Z) : Prop :=
  0 <= k /\ zslice k (zlen s) text = s.

(** However the known text goes on, [s] does not occur at [j]. *)
Definition refuted (s known : list Z) (j : Z) : Prop :=
  forall more, ~ occurs_at s (known ++ more) j.

(** The first byte of the string occurs in it only once. *)
Definition head_once (s : list Z) : Prop :=
  match s with [] => False | c :: r => ~ In c r end.

Lemma refuted_more s k m j : refuted s k j -> refuted s (k ++ m) j.
Proof. intros H more. rewrite <- app_assoc. apply H. Qed.

Lemma occurs_at_app s k m j : 0 < zlen s -> occurs_at s k j -> occurs_at s (k ++ m) j.
Proof.
  intros Hs [Hj E]. split; [done|]. pose proof (f_equal zlen E) as L. unfold zslice in *.
  rewrite zlen_ztake, zlen_zdrop in L by lia.
  rewrite zdrop_app_le, ztake_app_le by (rewrite ?zlen_zdrop; lia). done.
Qed.

(** An occurrence, seen after the bytes before it. *)
Lemma occurs_at_drop s d m j :
  0 <= j <= zlen d -> occurs_at s (d ++ m) j -> ztake (zlen s) (zdrop j d ++ m) = s.
Proof. intros Hj [_ E]. unfold zslice in E. rewrite zdrop_app_le in E by lia. done. Qed.

Lemma refuted_char c r d j :
  0 <= j < zlen d -> ~ In c (zdrop j d) \/ (exists x l, zdrop j d = x :: l /\ x <> c) ->
  refuted (c :: r) d j.
Proof.
  intros Hj H more Ho. apply occurs_at_drop in Ho; [|lia].
  destruct (zdrop j d) as [|x l] eqn:E.
  { assert (zlen (zdrop j d) = 0) as L by (rewrite E; done). rewrite zlen_zdrop in L by lia. lia. }
  rewrite zlen_cons, <- app_comm_cons in Ho. pose proof (zlen_nonneg r).
  rewrite (ztake_add 1) in Ho by lia. change (ztake 1 (x :: l ++ more)) with [x] in Ho.
  injection Ho as -> _. destruct H as [H|(y & l' & [= <- _] & H)]; [|done]. apply H. by left.
Qed.

(** A mismatch after [f] bytes that agreed. *)
Lemma refuted_mismatch s d x t f n :
  0 <= t -> zlen d = t + f -> 0 <= n <= zlen x -> 0 <= f -> f + n <= zlen s ->
  ztake n x <> zslice f n s -> refuted s (d ++ x) t.
Proof.
  intros Ht Hd Hn Hf Hs Hne more Ho. apply Hne. rewrite <- app_assoc in Ho.
  apply occurs_at_drop in Ho; [|lia].
  assert (L : zlen (zdrop t d) = f) by (rewrite zlen_zdrop; lia).
  unfold zslice. rewrite <- Ho at 1. rewrite zdrop_ztake, ztake_ztake by lia.
  rewrite zdrop_app_ge, L, Z.sub_diag, zdrop_0, ztake_app_le by lia. done.
Qed.

(** ** The state of the search *)

Section Search.
Variables (s : list Z).
Hypothesis Hs : 0 < zlen s < 2 ^ 63.

(** [done_] has been passed, its last [found] bytes agree with [s] from [total] on, and
    when the first byte of [s] is unique nothing before [total] can be an occurrence. *)
Record progress (known done_ : list Z) (total found : Z) : Prop := {
  pg_total : 0 <= total;
  pg_found : 0 <= found <= zlen s;
  pg_len : zlen done_ = total + found;
  pg_agree : zdrop total done_ = ztake found s;
  pg_none : head_once s -> forall j, 0 <= j < total -> refuted s known j;
}.

(** The outcome of scanning [bytes] after [done_]: a match, or the state at its end. *)
Definition outcome (known : list Z) (n : Z) (r : result (Z * Z * Z)) : Prop :=
  exists length total found, r = Ok (length, total, found) /\
    ((found = zlen s /\ occurs_at s known total /\
      (head_once s -> forall j, 0 <= j < total -> refuted s known j)) \/
     (found < zlen s /\ length = n /\ progress known known total found)).

Definition scans (again : list Z -> Z -> Z -> Z -> result (Z * Z * Z)) (bound : Z) : Prop :=
  forall done_ bytes length total found,
    progress (done_ ++ bytes) done_ total found -> zlen (done_ ++ bytes) < 2 ^ 63 ->
    zlen bytes <= length < 2 ^ 63 -> found < zlen s ->
    bytes = [] \/ zlen bytes + (if found =? 0 then 0 else 1) <= bound ->
    outcome (done_ ++ bytes) (length - zlen bytes) (again bytes length total found).

Lemma find_compare_ok again bound done_ bytes length total found :
  scans again bound -> progress (done_ ++ bytes) done_ total found -> 0 < found ->
  zlen (done_ ++ bytes) < 2 ^ 63 -> zlen bytes <= length < 2 ^ 63 -> zlen bytes <= bound ->
  outcome (done_ ++ bytes) (length - zlen bytes) (find_compare again s bytes length total found).
Proof.
  intros Hag [Ht Hf Hl Ha Hnone] Hf0 Hb Hlen Hbd. unfold find_compare. ztest. step. u64_small.
  pose proof (zlen_nonneg bytes). rewrite zlen_app in Hb.
  set (n := Z.min (zlen bytes) (zlen s - found)).
  assert (Hdrop : zdrop total (done_ ++ bytes) = ztake found s ++ bytes).
  { rewrite zdrop_app_le, Ha by lia. done. }
  destruct (bool_decide_reflect (ztake n bytes = zslice found n s)) as [E|E].
  - cbv zeta. u64_small. destruct (Z.eqb_spec (found + n) (zlen s)) as [Em|Em].
    + exists (length - n), total, (found + n). split; [done|]. left. split_and!; auto.
      split; [done|]. unfold zslice. rewrite Hdrop.
      rewrite ztake_app_ge by (rewrite zlen_ztake; lia). rewrite zlen_ztake by lia.
      rewrite Z.min_l by lia. replace (zlen s - found) with n by lia. rewrite E. unfold zslice.
      rewrite (ztake_all n) by (rewrite zlen_zdrop; lia). apply ztake_zdrop.
    + assert (n = zlen bytes) as En by lia.
      assert (Ed : zdrop n bytes = []) by (apply zdrop_all; lia). rewrite Ed.
      pose proof (Hag (done_ ++ bytes) [] (length - n) total (found + n)) as G.
      rewrite app_nil_r, zlen_nil, Z.sub_0_r, En in G. rewrite En. apply G.
      * split; auto; try lia; [rewrite zlen_app; lia|]. rewrite Hdrop, ztake_add by lia.
        f_equal. rewrite En in E. rewrite ztake_all in E by lia. exact E.
      * rewrite zlen_app. lia.
      * lia.
      * lia.
      * by left.
  - u64_small. apply Hag.
    + split; try lia.
      * rewrite ztake_0. apply zdrop_all. lia.
      * intros Ho j Hj. destruct (decide (j < total)); [apply Hnone; auto; lia|].
        destruct (decide (j = total)) as [->|].
        { eapply (refuted_mismatch s done_ bytes total found n); auto; lia. }
        (* inside the bytes that agreed there is no first byte of [s] *)
        apply refuted_more. destruct s as [|c r]; [done|]. apply refuted_char; [lia|]. left.
        replace j with (total + (j - total)) by lia.
        rewrite <- zdrop_zdrop, Ha, ztake_cons, zdrop_cons by lia.
        intros Hin. apply Ho. by eapply In_ztake, In_zdrop.
    + rewrite zlen_app. lia.
    + lia.
    + lia.
    + right. cbn. lia.
Qed.

End Search.

Lemma not_In_prefix c (l0 m : list Z) j :
  0 <= j < zlen l0 -> ~ In c l0 -> exists x l, zdrop j (l0 ++ m) = x :: l /\ x <> c.
Proof.
  intros Hj Hn. rewrite zdrop_app_le by lia.
  destruct (zdrop j l0) as [|x l] eqn:E.
  { assert (zlen (zdrop j l0) = 0) as L by (rewrite E; done). rewrite zlen_zdrop in L by lia. lia. }
  exists x, (l ++ m). split; [done|]. intros ->. apply Hn. eapply In_zdrop. rewrite E. by left.
Qed.

(** The bytes before the first one that equals the head of [s]. *)
Lemma refuted_skipped c r done_ l0 m j :
  0 <= j < zlen done_ + zlen l0 -> zlen done_ <= j -> ~ In c l0 ->
  refuted (c :: r) (done_ ++ l0 ++ m) j.
Proof.
  intros Hj1 Hj2 Hn. pose proof (zlen_nonneg m).
  apply refuted_char; [rewrite !zlen_app; lia|]. right.
  rewrite zdrop_app_ge by lia. apply not_In_prefix; [lia|done].
Qed.

Lemma find_scan_ok s fuel : 0 < zlen s < 2 ^ 63 -> scans s (find_scan fuel s) (Z.of_nat fuel).
Proof.
  intros Hs. induction fuel as [|fuel IH]; intros done_ bytes length total found P Hb Hlen Hfs Hf;
    pose proof (zlen_nonneg bytes) as Hz; pose proof (zlen_nonneg done_) as Hz2.
  - assert (zlen bytes = 0) as E by (destruct Hf as [->|]; [done|destruct (found =? 0); lia]). cbn [find_scan]. rewrite E. cbn [Z.eqb].
    apply zlen_zero_inv in E as ->. rewrite app_nil_r in *.
    exists length, total, found. split; [done|]. right.
    split_and!; [done|lia|done].
  - cbn [find_scan]. destruct (Z.eqb_spec (zlen bytes) 0) as [E|E].
    { rewrite E, Z.sub_0_r. apply zlen_zero_inv in E as ->. rewrite app_nil_r in *.
      exists length, total, found. split; [done|]. right. split_and!; [done|lia|done]. }
    destruct Hf as [->|Hf]; [done|]. destruct (Z.eqb_spec found 0) as [->|Hf0].
    2:{ apply (find_compare_ok _ Hs _ (Z.of_nat fuel)); auto; destruct P; lia. }
    pose proof P as [Ht _ Hl Ha Hnone].
    destruct s as [|c r]; [exfalso; unfold zlen in Hs; cbn in Hs; lia|]. rewrite Z.add_0_r in Hl. rewrite zlen_app in Hb.
    destruct (memchr c bytes) as [k|] eqn:Ek.
    + destruct (proj1 (memchr_Some c bytes k) Ek) as (l0 & l1 & -> & <- & Hnin).
      pose proof (zlen_nonneg l0). pose proof (zlen_nonneg l1).
      rewrite zlen_app, (zlen_cons c l1) in *. u64_small.
      rewrite zdrop_app_ge by lia. replace (zlen l0 + 1 - zlen l0) with 1 by lia.
      change (zdrop 1 (c :: l1)) with l1.
      replace (length - (zlen l0 + (1 + zlen l1))) with (length - (zlen l0 + 1) - zlen l1) by lia.
      replace (done_ ++ l0 ++ c :: l1) with ((done_ ++ l0 ++ [c]) ++ l1) by (by rewrite <- !app_assoc).
      apply (find_compare_ok (c :: r) Hs _ (Z.of_nat fuel)); auto; try lia.
      2:{ rewrite !zlen_app, zlen_cons. change (zlen []) with 0. lia. }
      split; try lia; rewrite ?zlen_cons.
      * rewrite !zlen_app, zlen_cons. change (zlen []) with 0. lia.
      * rewrite app_assoc, zdrop_app_ge by (rewrite zlen_app; lia).
        rewrite zlen_app. replace (_ - _) with 0 by lia. done.
      * intros Ho j Hj. rewrite <- !app_assoc. cbn [app].
        destruct (decide (j < total)); [apply Hnone; auto; lia|].
        apply refuted_skipped; auto; lia.
    + u64_small. exists (length - zlen bytes), (total + zlen bytes), 0.
      split; [done|]. right. split_and!; [lia|lia|]. split; try lia.
      * rewrite zlen_app. lia.
      * rewrite ztake_0. apply zdrop_all. rewrite zlen_app. lia.
      * intros Ho j Hj. destruct (decide (j < total)); [apply Hnone; auto; lia|].
        rewrite <- (app_nil_r bytes). apply refuted_skipped; try lia.
        intros Hin. apply in_split in Hin as (a & b & ->).
        assert (Hx : exists i, memchr c (a ++ c :: b) = Some i).
        { clear. induction a as [|x a [i IH]]; cbn [app memchr]; [rewrite Z.eqb_refl; eauto|].
          destruct (x =? c); [eauto|]. rewrite IH. cbn. eauto. }
        destruct Hx as [i Hi]. congruence.
Qed.

(** ** The search over the segments *)

Section Loop.
Variable s : list Z.
Hypothesis Hs : 0 < zlen s < 2 ^ 63.

(** What a search of [text] returns. *)
Definition search_result (text : list Z) (k : Z) : Prop :=
  (k = -1 /\ (head_once s -> forall j, ~ occurs_at s text j)) \/
  (occurs_at s text k /\ (head_once s -> forall j, 0 <= j < k -> ~ occurs_at s text j)).

Lemma refuted_end text j : refuted s text j -> ~ occurs_at s text j.
Proof. intros H. specialize (H []). rewrite app_nil_r in H. done. Qed.

Lemma occurs_at_room text j : occurs_at s text j -> 0 <= j /\ j + zlen s <= zlen text.
Proof.
  intros [Hj E]. split; [done|]. apply (f_equal zlen) in E. unfold zslice in E.
  rewrite zlen_ztake, zlen_zdrop in E by lia. lia.
Qed.

(** At the end of the text the bytes that agreed so far are no occurrence. *)
Lemma progress_end text total found :
  progress s text text total found -> found < zlen s -> head_once s -> forall j, ~ occurs_at s text j.
Proof.
  intros [Ht _ Hl Ha Hnone] Hf Ho j Hj. pose proof (occurs_at_room _ _ Hj) as [Hj1 Hj2].
  destruct (decide (j < total)); [by eapply refuted_end; [apply Hnone|]|]. lia.
Qed.

Lemma find_string_loop_ok h l len total found done_ :
  readable h l -> progress s done_ done_ total found -> found < zlen s ->
  0 <= len <= reads l -> zlen done_ + reads l < 2 ^ 63 ->
  exists k, find_string_loop h s len total found l = Ok k /\
    search_result (done_ ++ ztake len (segs_bytes h l)) k.
Proof.
  intros R. revert len total found done_. induction l as [|t l IH]; intros len total found done_ P Hfs Hlen Hb.
  - exists (-1). cbn [find_string_loop]. pose proof P as [Ht Hf Hl Ha Hn]. ztest. split; [done|]. left.
    split; [done|]. change (segs_bytes h []) with (@nil Z). rewrite ztake_nil, app_nil_r.
    by eapply progress_end.
  - pose proof (readable_tail _ _ _ R) as R'. destruct R as [Hl Hin [Hfr _] Hrb].
    apply Forall_cons in Hl as [Ht Hl]. apply Forall_cons in Hin as [Hi Hin].
    pose proof (rd_range t Ht). pose proof (reads_nonneg l Hl).
    pose proof (zlen_seg_bytes h t Ht Hi) as L. rewrite reads_cons in *.
    cbn [find_string_loop]. seg_eval. unfold SegmentData_start. cbn [m_array m_start].
    rewrite load_seg_0 by (auto; lia). step.
    set (n := Z.min len (rd t)). set (bytes := ztake n (seg_bytes h t)).
    assert (Ln : zlen bytes = n) by (unfold bytes; rewrite zlen_ztake; lia).
    assert (Hfuel : (Z.of_nat (S (length bytes)) = n + 1)) by (unfold zlen in Ln; lia).
    assert (P' : progress s (done_ ++ bytes) done_ total found).
    { destruct P as [P1 P2 P3 P4 P5]. split; auto. intros. by apply refuted_more, P5. }
    destruct (find_scan_ok s (S (length bytes)) Hs done_ bytes len total found P') as (len' & total' & found' & E & Ho).
    { rewrite zlen_app. lia. } { lia. } { done. } { right. rewrite Hfuel. case_match; lia. }
    rewrite E. step. clear E.
    assert (Etext : done_ ++ ztake len (segs_bytes h (t :: l)) = (done_ ++ bytes) ++ ztake (len - n) (segs_bytes h l)).
    { rewrite <- app_assoc, segs_bytes_cons. f_equal. unfold bytes, n. destruct (decide (len <= rd t)).
      - rewrite Z.min_l, Z.sub_diag, ztake_0, app_nil_r, ztake_app_le by lia. done.
      - rewrite Z.min_r, (ztake_all (rd t)), (ztake_app_ge len), L by lia. done. }
    rewrite Etext. destruct Ho as [(-> & Hocc & Hnone)|(Hlt & -> & P2)].
    + rewrite Z.eqb_refl. exists total'. pose proof (occurs_at_room _ _ Hocc) as [Hr1 Hr2].
      rewrite zlen_app in Hr2. rewrite s64_small by lia. split; [done|]. right.
      split; [by apply occurs_at_app; [lia|]|]. intros Hh j Hj. by eapply Hnone.
    + ztest. rewrite Ln. destruct (Z.eqb_spec (len - n) 0) as [E0|E0].
      * exists (-1). split; [done|]. left. split; [done|]. rewrite E0, ztake_0, app_nil_r.
        by eapply progress_end.
      * apply IH; auto; [lia|]. rewrite zlen_app. lia.
Qed.

End Loop.
