(* ===== verification/BufferProps.v ===== *)
(** The theorems about the operations that change a [Buffer]. *)

From stdpp Require Import numbers list_numbers list.
From S2P Require Import Prelude Memory Buffer BufferInv BufferOps BufferCopy BufferRead.

(** The segments [m_writeIt] and after. *)
Definition write_segments (b : Buffer) : list Segment := drop (m_writeIt b) (m_segments b).

(** No byte that [b] may still write is a byte of [other]. *)
Definition apart (b other : Buffer) : Prop := apart_from (write_segments b) (m_segments other).

(** A buffer whose neighbours may still have to be merged: its contents are as good, but
    [Buffer::invariant()] may fail on it. *)
Definition wf_contents (h : heap) (b : Buffer) : Prop :=
  exists pre post, b = mk pre post /\ sound h pre post.

Lemma wf_append_wf h b : wf_append h b -> wf h b.
Proof. intros (pre & post & -> & G). exists pre, post. eauto using good_weaken. Qed.

Lemma zlen_bytes_wf h b : wf h b -> zlen (bytes h b) = m_readAvailable b.
Proof. intros (pre & post & -> & G). exact (zlen_bytes _ _ _ _ G). Qed.

Lemma write_segments_mk pre post : write_segments (mk pre post) = post.
Proof. unfold write_segments. mk_simpl. done. Qed.

Lemma bytes_mk h pre post : bytes h (mk pre post) = segs_bytes h (pre ++ post).
Proof. reflexivity. Qed.

Lemma wbytes_mk h pre post : wbytes h (mk pre post) = segs_wbytes h post.
Proof. unfold wbytes. mk_simpl. done. Qed.

(** A buffer with one segment of which the first half is readable, used by the witnesses. *)
Definition sample_heap : heap := [[104; 101; 108; 108; 111; 0; 0; 0]; [119; 111; 114; 108; 100]].
Definition sample : Buffer :=
  mkBuffer [mkSegment 5 (mkSegmentData 0 0 8)] 5 3 0.
Definition sample2 : Buffer :=
  mkBuffer [mkSegment 5 (mkSegmentData 1 0 5)] 5 0 1.


Lemma sample_wf : wf_append sample_heap sample.
Proof.
  exists [], [mkSegment 5 (mkSegmentData 0 0 8)]. split; [done|]. split; [split| | |].
  - constructor.
  - unfold post_ok, seg_ok, wr. cbn. split_and!; [lia..|constructor].
  - done.
  - done.
  - done.
  - constructor; [|constructor]. eexists. split; [reflexivity|done].
  - split; constructor.
Defined.

Lemma sample2_wf : wf_append sample_heap sample2.
Proof.
  exists [mkSegment 5 (mkSegmentData 1 0 5)], []. split; [done|]. split; [split| | |].
  - constructor; [|constructor]. unfold pre_ok, seg_ok, rd, wr. cbn. lia.
  - done.
  - done.
  - done.
  - done.
  - constructor; [|constructor]. eexists. split; [reflexivity|done].
  - split; constructor.
Defined.

Lemma sample_apart : apart sample sample2.
Proof. constructor; [|constructor]. constructor; [|constructor]. right. left. cbn. done. Defined.

(** Produce: the next [n] reserved bytes become readable, everything else stays, every
    assertion (those of [Buffer::invariant()] included) holds. *)
Theorem produce_spec h b n :
  wf_append h b -> 0 <= n <= m_writeAvailable b -> m_readAvailable b + n < 2 ^ 63 ->
  exists b', Buffer_produce b n = Ok b' /\ wf_append h b' /\
    bytes h b' = bytes h b ++ ztake n (wbytes h b) /\
    m_readAvailable b' = m_readAvailable b + n /\ m_writeAvailable b' = m_writeAvailable b - n.
Proof.
  intros (pre & post & -> & G) Hn Hb. rewrite mk_writes, mk_reads in *.
  destruct (produce_ok h pre post n G) as (l1 & l2 & E & G' & Eb & Er & Ew); [done..|].
  exists (mk (pre ++ l1) l2). rewrite mk_writes, mk_reads, !bytes_mk, wbytes_mk.
  split_and!; auto. by exists (pre ++ l1), l2.
Qed.

Lemma produce_witness :
  exists b', Buffer_produce sample 2 = Ok b' /\ bytes sample_heap b' = [104; 101; 108; 108; 111; 0; 0].
Proof.
  destruct (produce_spec sample_heap sample 2 sample_wf) as (b' & E & _ & Eb & _); [cbn; lia..|].
  exists b'. split; [exact E|]. rewrite Eb. reflexivity.
Defined.

(** Consume: the first [n] readable bytes go away, nothing else changes, every assertion
    holds and the loop ends; a larger [n] trips the assertion at the top. *)
Theorem consume_spec h b n :
  wf h b -> 0 <= n ->
  if n <=? m_readAvailable b
  then exists b', Buffer_consume b n = Ok b' /\ wf h b' /\ (wf_append h b -> wf_append h b') /\
         bytes h b' = zdrop n (bytes h b) /\
         m_readAvailable b' = m_readAvailable b - n /\ m_writeAvailable b' = m_writeAvailable b
  else Buffer_consume b n = Err Assertion.
Proof.
  intros W Hn. destruct (Z.leb_spec n (m_readAvailable b)).
  - assert (K : forall strict pre post, b = mk pre post -> good strict h pre post ->
      exists pre' post', Buffer_consume b n = Ok (mk pre' post') /\ good strict h pre' post' /\
        bytes h (mk pre' post') = zdrop n (bytes h b) /\
        reads (pre' ++ post') = m_readAvailable b - n /\ writes post' = m_writeAvailable b).
    { intros strict pre post -> G. rewrite mk_reads, mk_writes, !bytes_mk in *.
      destruct (consume_ok strict h pre post n G) as (pre' & post' & ?); [lia|]. exists pre', post'. tauto. }
    destruct W as (pre & post & Eb & G).
    destruct (K _ _ _ Eb G) as (pre' & post' & E & G' & P1 & P2 & P3).
    exists (mk pre' post'). rewrite mk_reads, mk_writes. split_and!; auto; [by exists pre', post'|].
    intros (pre2 & post2 & Eb2 & G2). destruct (K _ _ _ Eb2 G2) as (pre3 & post3 & E3 & G3 & _).
    rewrite E in E3. exists pre3, post3. split; [congruence|done].
  - unfold Buffer_consume. ztest. done.
Qed.

Lemma consume_witness :
  exists b', Buffer_consume sample 2 = Ok b' /\ bytes sample_heap b' = [108; 108; 111].
Proof.
  destruct (consume_spec sample_heap sample 2 (wf_append_wf _ _ sample_wf)) as (b' & E & _ & _ & Eb & _); [lia|].
  exists b'. split; [exact E|]. rewrite Eb. reflexivity.
Defined.

(** Truncate: the first [n] readable bytes stay, the writable ones stay available, every
    assertion holds; a larger [n] trips the assertion at the top. *)
Theorem truncate_spec h b n :
  wf h b -> 0 <= n ->
  if n <=? m_readAvailable b
  then exists b', Buffer_truncate b n = Ok b' /\ wf h b' /\ bytes h b' = ztake n (bytes h b) /\
         m_readAvailable b' = n /\ m_writeAvailable b' = m_writeAvailable b
  else Buffer_truncate b n = Err Assertion.
Proof.
  intros W Hn. pose proof (zlen_bytes_wf _ _ W) as L. destruct (Z.leb_spec n (m_readAvailable b)).
  - destruct (Z.eqb_spec n (m_readAvailable b)) as [E|E].
    + exists b. rewrite ztake_all by lia. split_and!; auto.
      unfold Buffer_truncate. rewrite E, Z.leb_refl, Z.eqb_refl. done.
    + destruct W as (pre & post & -> & G). rewrite mk_reads, mk_writes in *.
      destruct (truncate_ok h pre post n G) as (pre' & post' & E' & G' & _ & Eb & Er & Ew); [lia|].
      exists (mk pre' post'). rewrite mk_reads, mk_writes. split_and!; auto. by exists pre', post'.
  - unfold Buffer_truncate. repeat ztest. done.
Qed.

Lemma truncate_witness :
  exists b', Buffer_truncate sample 2 = Ok b' /\ bytes sample_heap b' = [104; 101].
Proof.
  destruct (truncate_spec sample_heap sample 2 (wf_append_wf _ _ sample_wf)) as (b' & E & _ & Eb & _); [lia|].
  exists b'. split; [exact E|]. rewrite Eb. reflexivity.
Defined.

Lemma wf_contents_wf h b : wf h b -> wf_contents h b.
Proof. intros (pre & post & -> & []). exists pre, post. split; [done|]. by split. Qed.

Lemma wf_segments h b : wf h b -> Forall seg_ok (m_segments b) /\ Forall (seg_in h) (m_segments b).
Proof. intros (pre & post & -> & G). split; [by eapply good_seg_ok|apply G]. Qed.

(** [~0] as a length: everything from [pos] on. *)
Lemma copyIn_buffer_npos b src pos :
  0 <= pos <= m_readAvailable src -> m_readAvailable src < 2 ^ 63 ->
  Buffer_copyIn_buffer b src npos pos = Buffer_copyIn_buffer b src (m_readAvailable src - pos) pos.
Proof.
  intros H1 H2. unfold Buffer_copyIn_buffer. rewrite Z.eqb_refl. unfold npos.
  rewrite (proj2 (Z.eqb_neq (m_readAvailable src - pos) _)) by lia. u64_small. done.
Qed.

(** What may be written through a buffer is none of its own readable bytes. *)
Lemma good_apart_self b h pre post w :
  good b h pre post -> In w post -> 0 < wr w /\ Forall (r_apart w) (pre ++ post).
Proof.
  intros G Hw. pose proof (good_seg_ok _ _ _ _ G) as Hok. destruct G as [[Hp Hq _ _] _ _ Hsep].
  assert (Hww : 0 < wr w).
  { destruct post as [|s rest]; [done|]. destruct Hq as (?&?&Hq). destruct Hw as [<-|Hw]; [done|].
    eapply List.Forall_forall in Hw; [|exact Hq]. apply Hw. }
  split; [done|]. apply List.Forall_forall. intros t Ht.
  assert (Ho : seg_ok t) by (eapply List.Forall_forall in Ht; eauto).
  destruct (decide (t = w)) as [->|Hne].
  { do 3 right. rewrite <- (Z.add_0_r (seg_mid w)). unfold seg_stop, seg_mid, readpart, seg_slice, seg_start, rd. cbn. unfold seg_start. lia. }
  apply w_apart_r_apart; [done|]. assert (Hw' : In w (pre ++ post)) by (apply in_or_app; auto).
  destruct (all_pairs_In sep _ w t Hsep Hw' Ht) as [Hs|Hs]; [congruence|apply Hs..].
Qed.

Lemma copy_apart b h pre post cp cq :
  good b h pre post ->
  (forall w, 0 < wr w -> Forall (r_apart w) [] -> Forall (r_apart w) (pre ++ post) -> Forall (r_apart w) (cp ++ cq)) ->
  apart_from post (cp ++ cq).
Proof.
  intros G F. apply List.Forall_forall. intros w Hw.
  destruct (good_apart_self _ _ _ _ _ G Hw). apply F; auto.
Qed.

Section WithAllocator.
Context {alloc : Allocator}.

(** CopyIn(data, length) appends the data whatever segments and reserved memory the buffer
    has, the loop ends, every assertion holds, and no other buffer whose readable bytes are not
    writable through this one sees a change. *)
Theorem copyIn_data_spec h b data :
  wf_append h b -> m_readAvailable b + zlen data < 2 ^ 63 ->
  exists h' b', Buffer_copyIn_data h b data = Ok (h', b') /\ wf_append h' b' /\
    bytes h' b' = bytes h b ++ data /\
    forall other, wf h other -> apart b other ->
      wf h' other /\ bytes h' other = bytes h other /\ apart b' other.
Proof.
  intros (pre & post & -> & G) Hb. rewrite mk_reads in Hb.
  destruct (copyIn_data_ok h pre post data G Hb) as (h' & pre' & post' & E & [G' B F]).
  exists h', (mk pre' post'). split_and!; [done|by exists pre', post'|exact B|].
  intros other W Ha. destruct (wf_segments _ _ W) as [H1 H2]. unfold apart in *.
  rewrite write_segments_mk in *. destruct (F _ H1 H2 Ha) as (F1 & F2 & F3).
  split_and!; auto. destruct W as (p & q & -> & []). exists p, q. split; [done|]. by split.
Qed.

(** C1 -- copyIn(buffer, length, pos) appends [length] bytes of the source from [pos] on without
    copying memory; a [pos] past its end throws [std::out_of_range].  The result passes
    [Buffer::invariant()] when the copy starts in the first segment of the source or the target
    had nothing to read. *)
Theorem copyIn_buffer_spec h b src len pos :
  wf h b -> wf h src -> apart b src -> 0 <= pos -> 0 <= len ->
  m_readAvailable b + len < 2 ^ 63 ->
  if m_readAvailable src <? pos then Buffer_copyIn_buffer b src len pos = Err (Thrown out_of_range)
  else if pos + len <=? m_readAvailable src then
    exists b', Buffer_copyIn_buffer b src len pos = Ok b' /\ wf_contents h b' /\
      bytes h b' = bytes h b ++ zslice pos len (bytes h src) /\
      m_writeAvailable b' = m_writeAvailable b /\
      (starts_in pos (m_segments src) \/ m_readAvailable b = 0 -> wf h b')
  else len < npos -> pos + len < 2 ^ 64 -> Buffer_copyIn_buffer b src len pos = Err Assertion.
Proof.
  intros (pre & post & -> & G) (sp & sq & -> & Gs) Ha Hpos Hlen Hb.
  unfold apart in Ha. rewrite write_segments_mk, mk_segments, !mk_reads, mk_writes in *.
  destruct (Z.ltb_spec (reads (sp ++ sq)) pos).
  { unfold Buffer_copyIn_buffer. rewrite mk_reads. ztest. done. }
  destruct (Z.leb_spec (pos + len) (reads (sp ++ sq))).
  - destruct (copyIn_buffer_ok h pre post sp sq len pos) as (pre' & post' & E & S & B & Ew & M & _); auto.
    exists (mk pre' post'). rewrite mk_writes. split_and!; [done|by exists pre', post'|exact B|done|].
    intros Hc. exists pre', post'. split; [done|]. apply sound_good; auto.
  - intros Hn Hn2. unfold Buffer_copyIn_buffer. rewrite mk_reads.
    rewrite (proj2 (Z.eqb_neq len npos)) by lia. cbv zeta. u64_small. repeat ztest. done.
Qed.

(** C39 -- the copy constructor shares memory but is a value: it has the contents of the original,
    and what is then appended to the original does not show in the copy. *)
Theorem copy_isolated h a data :
  wf_append h a -> m_readAvailable a + zlen data < 2 ^ 63 ->
  exists c h' a', Buffer_copy a = Ok c /\ wf h c /\ bytes h c = bytes h a /\
    Buffer_copyIn_data h a data = Ok (h', a') /\ bytes h' a' = bytes h a ++ data /\
    wf h' c /\ bytes h' c = bytes h a.
Proof.
  intros W Hb. pose proof W as (pre & post & -> & G). pose proof (good_weaken _ _ _ _ G) as G0.
  pose proof G as [[Hp Hq Hr Hw] _ Hin Hsep]. rewrite mk_reads in Hb.
  pose proof (reads_nonneg _ (good_seg_ok _ _ _ _ G)).
  unfold Buffer_copy. rewrite copyIn_buffer_npos by (rewrite mk_reads; lia).
  rewrite mk_reads, Z.sub_0_r.
  destruct (copyIn_buffer_ok h [] [] pre post (reads (pre ++ post)) 0)
    as (cp & cq & E & S & B & Ew & M & Fr); auto using good_empty; try lia.
  { constructor. }
  change Buffer_empty with (mk [] []). exists (mk cp cq).
  assert (Ec : segs_bytes h (cp ++ cq) = segs_bytes h (pre ++ post)).
  { rewrite B, zslice_0, ztake_all by (rewrite (zlen_bytes _ _ _ _ G); lia). done. }
  assert (Wc : wf h (mk cp cq)).
  { exists cp, cq. split; [done|]. apply sound_good; auto. }
  destruct (copyIn_data_ok h pre post data G) as (h' & pre' & post' & E' & [G' B' F]); [done|].
  exists h', (mk pre' post').
  destruct (wf_segments _ _ Wc) as [H1 H2].
  assert (Ha : apart_from post (cp ++ cq)) by (eapply copy_apart; [exact G|exact Fr]).
  destruct (F _ H1 H2 Ha) as (F1 & F2 & _).
  split_and!; [exact E|done|exact Ec|exact E'|exact B'| |].
  - exists cp, cq. split; [done|]. destruct (sound_good false h cp cq) as [C1 C2 C3 C4]; auto. by split.
  - exact (eq_trans F1 Ec).
Qed.

(** Reserve, compact and clear: none of them changes what can be read (clear empties it),
    [reserve] makes the asked bytes writable, [compact] gives the unused memory back, [clear]
    keeps it unless told to give it back, and every assertion holds. *)
Theorem capacity_spec h b n all :
  wf h b -> 0 <= n < 2 ^ 62 ->
  (exists h' b', Buffer_reserve h b n = Ok (h', b') /\ wf h' b' /\ bytes h' b' = bytes h b /\
     n <= m_writeAvailable b') /\
  (exists b', Buffer_compact b = Ok b' /\ wf_append h b' /\ bytes h b' = bytes h b /\
     m_writeAvailable b' = 0) /\
  (exists b', Buffer_clear b all = Ok b' /\ wf h b' /\ bytes h b' = [] /\
     m_writeAvailable b' = if all then 0 else m_writeAvailable b).
Proof.
  intros (pre & post & -> & G) Hn. split_and!.
  - destruct (reserve_ok _ _ _ _ n G Hn) as (h' & post' & E & G' & W & _ & B & _).
    exists h', (mk pre post'). split_and!; [done|by exists pre, post'|exact B|done].
  - destruct (compact_ok _ _ _ _ G) as (pre' & E & G' & B). exists (mk pre' []).
    split_and!; [done|by exists pre', []|exact B|done].
  - destruct (clear_ok _ _ _ _ all G) as (post' & E & G' & B & W). exists (mk [] post').
    split_and!; [done|by exists [], post'|exact B|done].
Qed.

End WithAllocator.

(** The witnesses fill fresh memory with zeros. *)
#[local] Instance zero_fill : Allocator := fun _ _ => 0.

Lemma copyIn_data_witness :
  exists h' b', Buffer_copyIn_data sample_heap sample [33; 34; 35; 36; 37] = Ok (h', b') /\
    bytes h' b' = [104; 101; 108; 108; 111; 33; 34; 35; 36; 37] /\
    bytes h' sample2 = bytes sample_heap sample2.
Proof.
  destruct (copyIn_data_spec sample_heap sample [33; 34; 35; 36; 37] sample_wf) as (h' & b' & E & _ & B & F);
    [reflexivity|].
  exists h', b'. split; [exact E|]. split; [rewrite B; reflexivity|].
  apply (F sample2 (wf_append_wf _ _ sample2_wf) sample_apart).
Defined.

Lemma copyIn_buffer_witness :
  exists b', Buffer_copyIn_buffer sample sample2 3 1 = Ok b' /\ wf sample_heap b' /\
    bytes sample_heap b' = [104; 101; 108; 108; 111; 111; 114; 108].
Proof.
  destruct (copyIn_buffer_spec sample_heap sample sample2 3 1 (wf_append_wf _ _ sample_wf)
    (wf_append_wf _ _ sample2_wf) sample_apart) as (b' & E & _ & B & _ & W); [cbn; lia..|].
  exists b'. split; [exact E|]. split; [apply W; left; cbn; lia|]. rewrite B. reflexivity.
Defined.

Lemma copy_isolated_witness :
  exists c h' a', Buffer_copy sample = Ok c /\ Buffer_copyIn_data sample_heap sample [7] = Ok (h', a') /\
    bytes h' a' = [104; 101; 108; 108; 111; 7] /\ bytes h' c = [104; 101; 108; 108; 111].
Proof.
  destruct (copy_isolated sample_heap sample [7] sample_wf) as (c & h' & a' & E & _ & _ & E' & B & _ & B');
    [reflexivity|].
  exists c, h', a'. rewrite B, B'. split_and!; [exact E|exact E'|reflexivity..].
Defined.

Lemma capacity_witness :
  exists h' b', Buffer_reserve sample_heap sample 10 = Ok (h', b') /\ 10 <= m_writeAvailable b'.
Proof.
  destruct (capacity_spec sample_heap sample 10 true (wf_append_wf _ _ sample_wf)) as ((h' & b' & E & _ & _ & W) & _);
    [lia|]. by exists h', b'.
Defined.
