(* ===== verification/BufferViews.v ===== *)
(** The theorems about views, searching, lines and comparison of [Buffer]s, and two inputs on which the code goes wrong. *)

From stdpp Require Import numbers list_numbers list.
From S2P Require Import Prelude Memory Buffer BufferInv BufferOps BufferCopy BufferRead BufferProps.

(** Lengths the code compares with [~0] before anything else. *)
Definition asked (len available : Z) : Z := if len =? npos then available else len.

Lemma asked_fits b len : asked len (m_readAvailable b) <= m_readAvailable b -> 0 <= m_readAvailable b < 2 ^ 63 ->
  len = npos \/ 0 <= len -> 0 <= asked len (m_readAvailable b).
Proof. unfold asked. intros. destruct (Z.eqb_spec len npos); lia. Qed.

Lemma wf_range h b : wf h b -> 0 <= m_readAvailable b < 2 ^ 63.
Proof.
  intros (pre & post & -> & G). rewrite mk_reads.
  pose proof (reads_nonneg _ (good_seg_ok _ _ _ _ G)). destruct G as [[] _ _ _]. done.
Qed.

Lemma wf_readable h b : wf h b -> readable h (m_segments b).
Proof. intros (pre & post & -> & G). exact (good_readable _ _ _ _ G). Qed.

Lemma wf_reads h b : wf h b -> reads (m_segments b) = m_readAvailable b.
Proof. by intros (pre & post & -> & G). Qed.

Lemma wf_invariant h b : wf h b -> Buffer_invariant b = Ok tt.
Proof. intros (pre & post & -> & G). exact (good_invariant _ _ _ _ G). Qed.

(** The views: [copyOut], [readBuffers] and [visit] all give the same readable bytes, in
    order and without an assertion failing, however they are spread over segments; [visit] never
    calls back with an empty block. *)
Theorem views_spec h b len :
  wf h b -> 0 <= len <= m_readAvailable b -> m_segments b <> [] ->
  Buffer_copyOut h b len 0 = Ok (ztake len (bytes h b)) /\
  (exists iovs, Buffer_readBuffers b len = Ok iovs /\ concat (load_iovec h <$> iovs) = ztake len (bytes h b)) /\
  (exists blocks, Buffer_visit h b len = Ok blocks /\ concat blocks = ztake len (bytes h b) /\
     Forall (fun blk => blk <> []) blocks).
Proof.
  intros W Hlen Hne. pose proof (wf_range h b W). pose proof (wf_readable h b W) as R.
  pose proof (wf_invariant h b W) as I. pose proof (wf_reads h b W) as Er. split_and!.
  - destruct W as (pre & post & -> & G). rewrite mk_reads in *.
    rewrite (copyOut_ok _ _ _ _ _ _ G), zslice_0 by lia. done.
  - destruct (readBuffers_loop_ok h len (m_segments b)) as (iovs & E & B); auto; [lia|].
    exists iovs. split; [|done]. unfold Buffer_readBuffers, npos. repeat ztest. rewrite E. step. by rewrite I.
  - destruct (visit_loop_ok h len (m_segments b)) as (blocks & E & B & N); auto; [lia|].
    exists blocks. split; [|done]. unfold Buffer_visit, npos. repeat ztest. rewrite E. done.
Qed.

Lemma views_witness :
  exists iovs, Buffer_readBuffers sample 2 = Ok iovs /\ concat (load_iovec sample_heap <$> iovs) = [104; 101].
Proof.
  destruct (views_spec sample_heap sample 2 (wf_append_wf _ _ sample_wf)) as (_ & H & _); [cbn; lia|done|].
  destruct H as (iovs & E & B). exists iovs. split; [exact E|exact B].
Defined.

Lemma find_char_wf h b c len :
  wf h b -> 0 <= len <= m_readAvailable b -> 
  find_char_loop h c len 0 (m_segments b) =
  Ok (match memchr c (ztake len (bytes h b)) with Some i => i | None => -1 end).
Proof.
  intros W Hlen. pose proof (wf_range h b W). destruct (wf_segments h b W).
  rewrite find_char_loop_ok; rewrite ?(wf_reads h b W); auto; lia.
Qed.

(** Find(char): the index of the first occurrence among the first [len] bytes ([~0]: all),
    [-1] when there is none, the assertion when [len] is more than can be read. *)
Theorem find_char_spec h b c len :
  wf h b -> len = npos \/ 0 <= len ->
  let n := asked len (m_readAvailable b) in
  if n <=? m_readAvailable b then
    exists k, Buffer_find_char h b c len = Ok k /\
      ((k = -1 /\ ~ In c (ztake n (bytes h b))) \/
       (exists l0 l1, ztake n (bytes h b) = l0 ++ c :: l1 /\ zlen l0 = k /\ ~ In c l0))
  else Buffer_find_char h b c len = Err Assertion.
Proof.
  intros W Hlen n. pose proof (wf_range h b W) as Hr. unfold Buffer_find_char. fold (asked len (m_readAvailable b)).
  fold n. destruct (Z.leb_spec n (m_readAvailable b)) as [Hn|Hn]; [|done].
  assert (0 <= n) by (apply asked_fits; auto). rewrite find_char_wf by (auto; lia).
  eexists. split; [done|]. destruct (memchr c (ztake n (bytes h b))) as [i|] eqn:E.
  - right. by apply memchr_Some.
  - left. split; [done|]. intros Hin. apply in_split in Hin as (l0 & l1 & Hin).
    rewrite Hin, memchr_app in E. destruct (memchr c l0); [done|]. cbn in E. by rewrite Z.eqb_refl in E.
Qed.

Lemma find_char_witness : exists k, Buffer_find_char sample_heap sample 108 npos = Ok k /\ k = 2.
Proof.
  destruct (find_char_spec sample_heap sample 108 npos (wf_append_wf _ _ sample_wf)) as (k & E & _); [by left|].
  exists k. split; [exact E|]. vm_compute in E. congruence.
Defined.

(** Find(string): what is returned is an occurrence of the string, or [-1]; when the first
    byte of the string occurs in it only once (every delimiter the library itself searches for), it
    is the first occurrence, and [-1] means there is none. *)
Theorem find_string_spec h b s len :
  wf h b -> len = npos \/ 0 <= len -> asked len (m_readAvailable b) <= m_readAvailable b ->
  0 < zlen s < 2 ^ 63 ->
  exists k, Buffer_find_string h b s len = Ok k /\
    search_result s (ztake (asked len (m_readAvailable b)) (bytes h b)) k.
Proof.
  intros W Hlen Hn Hs. pose proof (wf_range h b W) as Hr. unfold Buffer_find_string.
  fold (asked len (m_readAvailable b)). set (n := asked len (m_readAvailable b)) in *.
  assert (0 <= n) by (apply asked_fits; auto). repeat ztest. cbn [negb]. 
  destruct (find_string_loop_ok s Hs h (m_segments b) n 0 0 []) as (k & E & R).
  - by apply wf_readable.
  - split; try lia; try done.
  - lia.
  - rewrite (wf_reads h b W). lia.
  - rewrite (wf_reads h b W). change (zlen []) with 0. lia.
  - exists k. split; [exact E|exact R].
Qed.

Lemma find_string_witness :
  exists k, Buffer_find_string sample_heap sample [108; 111] npos = Ok k /\ k = 3.
Proof.
  destruct (find_string_spec sample_heap sample [108; 111] npos (wf_append_wf _ _ sample_wf))
    as (k & E & _); [by left|by vm_compute|by vm_compute|].
  exists k. split; [exact E|]. vm_compute in E. congruence.
Defined.

(** The part both [getDelimited] share, for an offset inside the buffer. *)
Lemma take_found h b i dlen eofd incl :
  wf h b -> 0 <= i -> 0 < dlen -> i + dlen <= m_readAvailable b ->
  exists b', take_delimited h b i dlen eofd incl =
      Ok (b', ztake (i + if incl then dlen else 0) (bytes h b)) /\
    wf h b' /\ bytes h b' = zdrop (i + dlen) (bytes h b).
Proof.
  intros (pre & post & -> & G) Hi Hd Hfit. rewrite mk_reads in *. pose proof G as [[_ _ Hr _] _ _ _].
  unfold take_delimited. rewrite (proj2 (Z.eqb_neq i (-1))) by lia. repeat ztest. cbn [andb negb].
  set (size := i + if incl then dlen else 0). assert (Hsz : i <= size <= i + dlen) by (unfold size; destruct incl; lia).
  u64_small. rewrite (copyOut_ok _ _ _ _ _ _ G), zslice_0 by lia. step.
  destruct (consume_ok false h pre post size G) as (p1 & q1 & E & G1 & B1 & R1 & _); [lia|].
  rewrite E. step. unfold size in *. destruct incl; cbn [negb].
  - exists (mk p1 q1). split_and!; [done|by exists p1, q1|exact B1].
  - rewrite Z.add_0_r in *. destruct (consume_ok false h p1 q1 dlen G1) as (p2 & q2 & E2 & G2 & B2 & _); [lia|].
    rewrite E2. step. exists (mk p2 q2). split_and!; [done|by exists p2, q2|].
    rewrite bytes_mk, B2, B1, zdrop_zdrop by lia. done.
Qed.

Lemma take_eof h b dlen (eofd incl : bool) :
  wf h b ->
  if eofd then exists b', take_delimited h b (-1) dlen eofd incl = Ok (b', bytes h b) /\
    wf h b' /\ bytes h b' = []
  else take_delimited h b (-1) dlen eofd incl = Err (Thrown unexpected_eof).
Proof.
  intros W. pose proof (zlen_bytes_wf h b W) as L. pose proof (wf_range h b W).
  destruct W as (pre & post & -> & G). rewrite mk_reads in *. unfold take_delimited.
  destruct eofd; [|done]. cbn [Z.leb Z.eqb Z.compare Pos.compare Pos.eqb andb negb CompOpp]. mk_simpl.
  rewrite Z.add_0_r. u64_small. rewrite (copyOut_ok _ _ _ _ _ _ G), zslice_0, <- bytes_mk, ztake_all by lia.
  step. destruct (consume_ok false h pre post (reads (pre ++ post)) G) as (p1 & q1 & E & G1 & B1 & _); [lia|].
  rewrite E. step. exists (mk p1 q1). split_and!; [done|by exists p1, q1|].
  rewrite bytes_mk, B1. apply zdrop_all. rewrite bytes_mk in L. lia.
Qed.

(** GetDelimited(char): the bytes before the first delimiter (with it when asked for) are
    returned, and exactly they and the delimiter leave the buffer; without a delimiter the whole
    rest is returned, or [UnexpectedEofException] is thrown and nothing is consumed. *)
Theorem getDelimited_char_spec h b c (eofd incl : bool) :
  wf h b ->
  if bool_decide (c ∈ bytes h b) then
    exists b' line rest, bytes h b = line ++ c :: rest /\ c ∉ line /\
      Buffer_getDelimited_char h b c eofd incl = Ok (b', if incl then line ++ [c] else line) /\
      wf h b' /\ bytes h b' = rest
  else if eofd then
    exists b', Buffer_getDelimited_char h b c eofd incl = Ok (b', bytes h b) /\ wf h b' /\ bytes h b' = []
  else Buffer_getDelimited_char h b c eofd incl = Err (Thrown unexpected_eof).
Proof.
  intros W. pose proof (zlen_bytes_wf h b W) as L. pose proof (wf_range h b W) as Hr.
  unfold Buffer_getDelimited_char, Buffer_find_char. rewrite Z.eqb_refl, Z.leb_refl.
  rewrite find_char_wf, ztake_all by (auto; lia). step.
  destruct (memchr c (bytes h b)) as [i|] eqn:E.
  - apply memchr_Some in E as (line & rest & E & <- & Hn). pose proof (zlen_nonneg line).
    rewrite bool_decide_true by (rewrite E, list_elem_of_In; apply in_or_app; right; by left).
    pose proof (f_equal zlen E) as L2. rewrite zlen_app, zlen_cons in L2. pose proof (zlen_nonneg rest).
    destruct (take_found h b (zlen line) 1 eofd incl W) as (b' & E' & W' & B'); [lia..|].
    exists b', line, rest. rewrite list_elem_of_In. split_and!; auto.
    + rewrite E', E. do 2 f_equal. destruct incl.
      * apply ztake_snoc.
      * rewrite Z.add_0_r, ztake_app_le, ztake_all by lia. done.
    + rewrite B', E. apply zdrop_snoc.
  - rewrite bool_decide_false; [by apply take_eof|].
    intros Hin. apply list_elem_of_In, in_split in Hin as (l0 & l1 & Hin).
    rewrite Hin, memchr_app in E. destruct (memchr c l0); [done|]. cbn in E. by rewrite Z.eqb_refl in E.
Qed.

Lemma getDelimited_char_witness :
  exists b', Buffer_getDelimited_char sample_heap sample 108 false false = Ok (b', [104; 101]) /\
    bytes sample_heap b' = [108; 111].
Proof.
  destruct (getDelimited_char_spec sample_heap sample 108 false false (wf_append_wf _ _ sample_wf))
    as (b' & line & rest & _ & _ & E & _).
  vm_compute in E. exists b'. injection E as <- _. split; reflexivity.
Defined.

(** Comparison: [==] and [!=] of buffers, and of a buffer and a string, decide the equality
    of their contents, whatever the segments. *)
Theorem equality_spec h b1 b2 s :
  wf h b1 -> wf h b2 ->
  Buffer_eq h b1 b2 = Ok (bool_decide (bytes h b1 = bytes h b2)) /\
  Buffer_neq h b1 b2 = Ok (negb (bool_decide (bytes h b1 = bytes h b2))) /\
  Buffer_eq_string h b1 s = Ok (bool_decide (bytes h b1 = s)) /\
  Buffer_neq_string h b1 s = Ok (negb (bool_decide (bytes h b1 = s))).
Proof.
  intros (p1 & q1 & -> & G1) (p2 & q2 & -> & G2).
  destruct (buffer_eq_ok _ _ _ _ _ _ _ G1 G2), (buffer_eq_string_ok _ _ _ _ s G1). split_and!; done.
Qed.

Lemma equality_witness : Buffer_eq sample_heap sample sample2 = Ok false.
Proof.
  destruct (equality_spec sample_heap sample sample2 [] (wf_append_wf _ _ sample_wf) (wf_append_wf _ _ sample2_wf))
    as (E & _). rewrite E. reflexivity.
Defined.

(** ** What the assertions miss *)

Section Defects.
Context {alloc : Allocator}.

(** Two segments, [1 1] and [1 2]. *)
Definition split_text (h : heap) : result (heap * Buffer) :=
  '(h1, b) ← Buffer_of_data h [1; 1];
  Buffer_copyIn_data h1 b [1; 2].

(** Find(string) misses an occurrence that starts inside an earlier, failed match when the
    two segments of the text meet there: in [1 1 | 1 2] it does not find [1 1 2], which is at 1. *)
Theorem find_string_misses :
  exists h b, split_text [] = Ok (h, b) /\ wf h b /\ bytes h b = [1; 1; 1; 2] /\
    occurs_at [1; 1; 2] (bytes h b) 1 /\ Buffer_find_string h b [1; 1; 2] npos = Ok (-1).
Proof.
  assert (W0 : good true [] [] []) by apply good_empty.
  destruct (copyIn_data_ok [] [] [] [1; 1] W0) as (h1 & p1 & q1 & E1 & [G1 B1 _]); [done|].
  destruct (copyIn_data_ok h1 p1 q1 [1; 2] G1) as (h2 & p2 & q2 & E2 & [G2 B2 _]).
  { rewrite <- (zlen_bytes _ _ _ _ G1), B1. done. }
  exists h2, (mk p2 q2). assert (Hb : bytes h2 (mk p2 q2) = [1; 1; 1; 2]).
  { rewrite bytes_mk, B2, B1. done. }
  assert (Es : split_text [] = Ok (h2, mk p2 q2)).
  { unfold split_text, Buffer_of_data. change Buffer_empty with (mk [] []). rewrite E1. exact E2. }
  split_and!; [exact Es|exists p2, q2; split; eauto using good_weaken|exact Hb|split; [lia|rewrite Hb; done]|].
  revert Es. generalize (mk p2 q2). clear. intros b Es. vm_compute in Es. injection Es as <- <-. vm_compute. reflexivity.
Qed.

(** Copying a buffer into itself (through a copy) while it still has reserved memory gives a
    buffer that reads well, but the next append fails the assertion on mergeable segments. *)
Theorem append_after_doubling_asserts :
  exists h b c d,
    ('(h1, b1) ← Buffer_reserve [] Buffer_empty 5; Buffer_copyIn_data h1 b1 [4; 5; 6; 7]) = Ok (h, b) /\
    Buffer_copy b = Ok c /\ Buffer_copyIn_buffer b c npos 0 = Ok d /\
    Buffer_toString h d = Ok [4; 5; 6; 7; 4; 5; 6; 7] /\
    Buffer_copyIn_data h d [9] = Err Assertion.
Proof. do 4 eexists. repeat (split; [vm_compute; reflexivity|]). vm_compute. reflexivity. Qed.

End Defects.
