(* ===== verification/Timer.v ===== *)
(** [timer.h] and [timer.cpp]: timers in a set ordered by the time they are due and by address, and a manager with a mutex.  A timer is its position in the list of
    all timers made; the clock is an argument of every operation that reads it. *)

From stdpp Require Import gmap numbers list_numbers list.
From S2P Require Import Prelude.

(** ** [std::set] with a comparator

    The elements in the order of the container; an iterator is a position. *)

Section OrderedSet.
Context {K : Type}.
Variable before : K -> K -> bool.

(** [lower_bound]: the position of the first element that is not before [k]. *)
Fixpoint lower_bound (k : K) (l : list K) : nat :=
  match l with
  | [] => O
  | x :: l' => if before x k then S (lower_bound k l') else O
  end.

(** [find]: an element equivalent to [k], that is, neither before nor after it. *)
Definition set_find (k : K) (l : list K) : option nat :=
  let i := lower_bound k l in
  match l !! i with
  | Some x => if before k x then None else Some i
  | None => None
  end.

(** [insert]: the new contents and the iterator returned; an equivalent element stays. *)
Definition set_insert (k : K) (l : list K) : list K * nat :=
  let i := lower_bound k l in
  match set_find k l with
  | Some _ => (l, i)
  | None => (take i l ++ k :: drop i l, i)
  end.

End OrderedSet.

(** ** Timers *)

(** The function objects a timer can hold: a plain one, or the one that
    [registerConditionTimer] binds to a weak reference. *)
Inductive callback :=
| Plain (id : Z)
| Conditional (weakCond : Z) (dg : callback).

#[global] Instance callback_eq_dec : EqDecision callback.
Proof. solve_decision. Defined.

Record Timer := mkTimer {
  m_recurring : bool;
  m_next : Z;
  m_us : Z;
  m_dg : option callback;    (* an empty [std::function] is [None] *)
}.

(** A [std::mutex], with the number of calls of [unlock] made while nobody held it. *)
Record mutex := mkMutex { held : bool; stray_unlocks : nat }.

(** The manager, with the timers its pointers lead to. *)
Record TimerManager := mkTimerManager {
  timers : gmap Z Timer;
  m_timers : list Z;
  m_mutex : mutex;
  m_tickled : bool;
  m_previousTime : Z;
}.

Definition with_timers (m : TimerManager) (T : gmap Z Timer) (l : list Z) : TimerManager :=
  mkTimerManager T l (m_mutex m) (m_tickled m) (m_previousTime m).
Definition with_mutex (m : TimerManager) (x : mutex) : TimerManager :=
  mkTimerManager (timers m) (m_timers m) x (m_tickled m) (m_previousTime m).
Definition with_tickled (m : TimerManager) (b : bool) : TimerManager :=
  mkTimerManager (timers m) (m_timers m) (m_mutex m) b (m_previousTime m).
Definition with_previousTime (m : TimerManager) (t : Z) : TimerManager :=
  mkTimerManager (timers m) (m_timers m) (m_mutex m) (m_tickled m) t.

Definition set_next (t : Timer) (next : Z) : Timer := mkTimer (m_recurring t) next (m_us t) (m_dg t).
Definition set_us (t : Timer) (us : Z) : Timer := mkTimer (m_recurring t) (m_next t) us (m_dg t).
Definition clear_dg (t : Timer) : Timer := mkTimer (m_recurring t) (m_next t) (m_us t) None.

(** Following a [Timer::ptr]. *)
Definition timer_at (T : gmap Z Timer) (p : Z) : result Timer :=
  match T !! p with Some t => Ok t | None => Err Undefined end.

(** [Timer::Comparator::operator()].  A null pointer is [None]. *)
Definition Comparator (T : gmap Z Timer) (lhs rhs : option Z) : bool :=
  match lhs, rhs with
  | None, None => false
  | None, Some _ => true
  | Some _, None => false
  | Some p, Some q =>
      match T !! p, T !! q with
      | Some a, Some b =>
          if m_next a <? m_next b then true
          else if m_next b <? m_next a then false
          else p <? q
      | _, _ => false
      end
  end.

Definition before (T : gmap Z Timer) (p q : Z) : bool := Comparator T (Some p) (Some q).

(** ** Locking *)

Definition lock (m : TimerManager) : result TimerManager :=
  if held (m_mutex m) then Err Diverges
  else Ok (with_mutex m (mkMutex true (stray_unlocks (m_mutex m)))).

Definition unlock (m : TimerManager) : TimerManager :=
  let x := m_mutex m in
  with_mutex m (if held x then mkMutex false (stray_unlocks x) else mkMutex false (S (stray_unlocks x))).

(** [std::lock_guard<std::mutex> lock(m_mutex);] and the rest of the block. *)
Definition lock_guard {A} (m : TimerManager) (body : TimerManager -> result (TimerManager * A))
    : result (TimerManager * A) :=
  m1 ← lock m;
  '(m2, a) ← body m1;
  Ok (unlock m2, a).

(** ** [Timer] *)

(** The constructors. *)
Definition Timer_new (us : Z) (dg : option callback) (recurring : bool) (now : Z) : result Timer :=
  assert: bool_decide (is_Some dg) ;;
  Ok (mkTimer recurring (u64 (now + us)) us dg).

Definition Timer_dummy (next : Z) : Timer := mkTimer false next 0 None.

(** [m_timers.find(shared_from_this())], the assertion that it is there, [m_timers.erase(it)]. *)
Definition find_and_erase (T : gmap Z Timer) (p : Z) (l : list Z) : result (list Z) :=
  match set_find (before T) p l with
  | None => Err Assertion
  | Some i => Ok (delete i l)
  end.

Definition Timer_cancel (m : TimerManager) (p : Z) : result (TimerManager * bool) :=
  lock_guard m (fun m =>
    t ← timer_at (timers m) p;
    match m_dg t with
    | Some _ =>
        let T := <[p := clear_dg t]> (timers m) in
        l ← find_and_erase T p (m_timers m);
        Ok (with_timers m T l, true)
    | None => Ok (m, false)
    end).

Definition Timer_refresh (m : TimerManager) (p now : Z) : result (TimerManager * bool) :=
  lock_guard m (fun m =>
    t ← timer_at (timers m) p;
    match m_dg t with
    | None => Ok (m, false)
    | Some _ =>
        l ← find_and_erase (timers m) p (m_timers m);
        let T := <[p := set_next t (u64 (now + m_us t))]> (timers m) in
        let '(l', _) := set_insert (before T) p l in
        Ok (unlock (with_timers m T l'), true)
    end).

(** The tail of [registerTimer] and [reset]: insert, see whether the timer has become the first
    one, leave the lock.  The second component: is [onTimerInsertedAtFront] called? *)
Definition insert_and_tickle (m : TimerManager) (T : gmap Z Timer) (p : Z) (l : list Z)
    : TimerManager * bool :=
  let '(l', it) := set_insert (before T) p l in
  let atFront := Nat.eqb it 0 && negb (m_tickled m) in
  let m1 := with_timers m T l' in
  let m2 := if atFront then with_tickled m1 true else m1 in
  (unlock m2, atFront).

(** The result, and whether [onTimerInsertedAtFront] was called. *)
Definition Timer_reset (m : TimerManager) (p us : Z) (fromNow : bool) (now : Z)
    : result (TimerManager * (bool * bool)) :=
  lock_guard m (fun m =>
    t ← timer_at (timers m) p;
    match m_dg t with
    | None => Ok (m, (false, false))
    | Some _ =>
        if (us =? m_us t) && negb fromNow then Ok (m, (true, false))
        else
          l ← find_and_erase (timers m) p (m_timers m);
          let start := if fromNow then now else u64 (m_next t - m_us t) in
          let T := <[p := set_next (set_us t us) (u64 (start + us))]> (timers m) in
          let '(m', atFront) := insert_and_tickle m T p l in
          Ok (m', (true, atFront))
    end).

(** ** [TimerManager] *)

Definition TimerManager_new : TimerManager := mkTimerManager ∅ [] (mkMutex false 0) false 0.

(** The destructor's assertion. *)
Definition TimerManager_destroy (m : TimerManager) : result unit :=
  '(_, tt) ← lock_guard m (fun m =>
    assert: bool_decide (m_timers m = []) ;; Ok (m, tt));
  Ok tt.

(** [p] is the address [new Timer] returns. *)
Definition registerTimer (m : TimerManager) (p us : Z) (dg : option callback) (recurring : bool) (now : Z)
    : result (TimerManager * bool) :=
  assert: bool_decide (is_Some dg) ;;
  t ← Timer_new us dg recurring now;
  lock_guard m (fun m =>
    Ok (insert_and_tickle m (<[p := t]> (timers m)) p (m_timers m))).

Definition registerConditionTimer (m : TimerManager) (p us : Z) (dg : callback) (weakCond : Z)
    (recurring : bool) (now : Z) : result (TimerManager * bool) :=
  registerTimer m p us (Some (Conditional weakCond dg)) recurring now.

(** What running a callback calls in the end: [stubOnTimer] skips it when the object is gone. *)
Fixpoint stubOnTimer (alive : Z -> bool) (dg : callback) : option Z :=
  match dg with
  | Plain id => Some id
  | Conditional weakCond dg => if alive weakCond then stubOnTimer alive dg else None
  end.

Definition nextTimer (m : TimerManager) (now : Z) : result (TimerManager * Z) :=
  lock_guard m (fun m =>
    let m := with_tickled m false in
    match m_timers m with
    | [] => Ok (m, npos)
    | p :: _ =>
        t ← timer_at (timers m) p;
        Ok (m, if m_next t <=? now then 0 else u64 (m_next t - now))
    end).

Section Clock.
Variable clockRolloverThreshold : Z.

Definition detectClockRollover (m : TimerManager) (nowUs : Z) : TimerManager * bool :=
  (with_previousTime m nowUs,
   (nowUs <? m_previousTime m) && (nowUs <? u64 (m_previousTime m - clockRolloverThreshold))).

(** The loop that moves [it] past the timers that expire exactly now. *)
Fixpoint pass_equal (T : gmap Z Timer) (nowUs : Z) (l : list Z) : result nat :=
  match l with
  | [] => Ok O
  | p :: l' =>
      t ← timer_at T p;
      if m_next t =? nowUs then i ← pass_equal T nowUs l'; Ok (S i) else Ok O
  end.

(** The loop over the expired timers. *)
Fixpoint expire_loop (nowUs : Z) (expired : list Z) (T : gmap Z Timer) (l : list Z)
    : result (gmap Z Timer * list Z * list callback) :=
  match expired with
  | [] => Ok (T, l, [])
  | p :: rest =>
      t ← timer_at T p;
      match m_dg t with
      | None => Err Assertion
      | Some dg =>
          let '(T', l') :=
            if m_recurring t then
              let T' := <[p := set_next t (u64 (nowUs + m_us t))]> T in
              (T', fst (set_insert (before T') p l))
            else (<[p := clear_dg t]> T, l) in
          '(T'', l'', dgs) ← expire_loop nowUs rest T' l';
          Ok (T'', l'', dg :: dgs)
      end
  end.

(** [nowPtr] is the address of the dummy timer on the stack. *)
Definition processTimers (m : TimerManager) (nowPtr nowUs : Z) : result (TimerManager * list callback) :=
  lock_guard m (fun m =>
    match m_timers m with
    | [] => Ok (m, [])
    | p :: _ =>
        let '(m, rollover) := detectClockRollover m nowUs in
        first ← timer_at (timers m) p;
        if negb rollover && (nowUs <? m_next first) then Ok (m, [])
        else
          let T := timers m in
          let it0 := if rollover then length (m_timers m)
                     else lower_bound (before (<[nowPtr := Timer_dummy nowUs]> T)) nowPtr (m_timers m) in
          more ← pass_equal T nowUs (drop it0 (m_timers m));
          let it := (it0 + more)%nat in
          '(T', l', result) ← expire_loop nowUs (take it (m_timers m)) T (drop it (m_timers m));
          Ok (with_timers m T' l', result)
    end).

(** Running the callbacks, outside the lock, each on the state the earlier ones left. *)
Definition executeTimers {W} (run : callback -> W -> TimerManager -> result (W * TimerManager))
    (w : W) (m : TimerManager) (nowPtr nowUs : Z) : result (W * TimerManager) :=
  '(m', expired) ← processTimers m nowPtr nowUs;
  foldl (fun acc dg => '(w, m) ← acc; run dg w m) (Ok (w, m')) expired.

End Clock.

(** ** [now] on Linux: the monotonic clock in microseconds *)
Definition now_us (tv_sec tv_nsec : Z) : Z := u64 (u64 (tv_sec * 1000000) + tv_nsec / 1000).
