(* ===== verification/TimerInv.v ===== *)
(** The set of timers, and what its operations do to it: it stays ordered and without duplicates, and holds exactly the timers that have a function to call. *)

From stdpp Require Import gmap sorting numbers list_numbers list.
From S2P Require Import Prelude Timer.

(** ** The order of the set *)

(** When the timer at [p] is due. *)
Definition due_at (T : gmap Z Timer) (p : Z) : Z := from_option m_next 0 (T !! p).

(** Earlier timers first, equal ones by address. *)
Definition earlier (due : Z -> Z) (p q : Z) : Prop := due p < due q \/ (due p = due q /\ p < q).

Lemma before_earlier T p q :
  is_Some (T !! p) -> is_Some (T !! q) -> before T p q = true <-> earlier (due_at T) p q.
Proof.
  intros [a Ha] [b Hb]. unfold before, Comparator, earlier, due_at. rewrite Ha, Hb. cbn.
  destruct (Z.ltb_spec (m_next a) (m_next b)); [split; [lia|done]|].
  destruct (Z.ltb_spec (m_next b) (m_next a)); [split; [done|lia]|].
  rewrite Z.ltb_lt. lia.
Qed.

Lemma earlier_trans due p q r : earlier due p q -> earlier due q r -> earlier due p r.
Proof. unfold earlier. lia. Qed.

Lemma earlier_irrefl due p : ~ earlier due p p.
Proof. unfold earlier. lia. Qed.

Lemma earlier_total due p q : p <> q -> earlier due p q \/ earlier due q p.
Proof. unfold earlier. lia. Qed.

Lemma earlier_ext due due' p q :
  due p = due' p -> due q = due' q -> earlier due p q -> earlier due' p q.
Proof. unfold earlier. intros -> ->. done. Qed.

Notation sorted due := (StronglySorted (earlier due)).

Lemma sorted_ext due due' l :
  (forall p, p ∈ l -> due p = due' p) -> sorted due l -> sorted due' l.
Proof.
  intros E. induction 1 as [|p l Hs IH Hf]; constructor.
  - apply IH. intros. apply E. by right.
  - rewrite Forall_forall in *. intros q Hq. eapply earlier_ext; [| |by apply Hf].
    + apply E. by left.
    + apply E. by right.
Qed.

Lemma sorted_app due l k :
  sorted due (l ++ k) <->
  sorted due l /\ sorted due k /\ (forall p q, p ∈ l -> q ∈ k -> earlier due p q).
Proof.
  induction l as [|x l IH]; cbn [app].
  - split; [intros; split_and!; [constructor|done|]|tauto]. intros p q Hp. by apply not_elem_of_nil in Hp.
  - split.
    + intros H. apply StronglySorted_inv in H as [H Hf]. apply IH in H as (H1 & H2 & H3).
      rewrite Forall_forall in Hf. split_and!; [constructor; [done|]|done|].
      * apply Forall_forall. intros y Hy. apply Hf. apply elem_of_app. by left.
      * intros p q Hp Hq. apply elem_of_cons in Hp as [->|Hp]; [|by apply H3].
        apply Hf. apply elem_of_app. by right.
    + intros (H1 & H2 & H3). apply StronglySorted_inv in H1 as [H1 Hf]. constructor.
      * apply IH. split_and!; auto. intros p q Hp. apply H3. by right.
      * apply Forall_app. split; [done|]. apply Forall_forall. intros q Hq. apply H3; [by left|done].
Qed.

Lemma sorted_NoDup due l : sorted due l -> NoDup l.
Proof.
  induction 1 as [|p l Hs IH Hf]; constructor; [|done].
  intros Hp. rewrite Forall_forall in Hf. by apply (earlier_irrefl due p), Hf.
Qed.

(** ** Searching and updating the set *)

Section Search.
Variables (due : Z -> Z) (bf : Z -> Z -> bool) (k : Z) (l : list Z).
Hypothesis Hsort : sorted due l.
Hypothesis Hbf : forall x, x ∈ l -> bf x k = true <-> earlier due x k.

Lemma lower_bound_split :
  exists a b, l = a ++ b /\ lower_bound bf k l = length a /\
    Forall (fun x => earlier due x k) a /\ Forall (fun x => ~ earlier due x k) b.
Proof.
  induction Hsort as [|x l' Hs IH Hf]; [by exists [], []|]. cbn [lower_bound].
  destruct (bf x k) eqn:E.
  - destruct IH as (a & b & -> & -> & Ha & Hb); [done|intros; apply Hbf; by right|].
    exists (x :: a), b. split_and!; auto. constructor; [|done]. apply Hbf; [by left|done].
  - exists [], (x :: l'). split_and!; [done|done|constructor|].
    assert (Hx : ~ earlier due x k) by (rewrite <- Hbf; [congruence|by left]).
    constructor; [done|]. eapply Forall_impl; [exact Hf|]. intros y Hy H. apply Hx.
    eapply earlier_trans; eauto.
Qed.

Hypothesis Hbf' : forall x, x ∈ l -> bf k x = true <-> earlier due k x.

Lemma find_present : k ∈ l ->
  exists a b, l = a ++ k :: b /\ set_find bf k l = Some (length a).
Proof.
  intros Hk. destruct lower_bound_split as (a & b & E & Ei & Ha & Hb).
  assert (Hkb : k ∈ b).
  { rewrite E, elem_of_app in Hk. destruct Hk as [Hk|]; [|done]. rewrite Forall_forall in Ha.
    by apply Ha, earlier_irrefl in Hk. }
  unfold set_find. rewrite Ei, E, lookup_app_r, Nat.sub_diag by lia.
  destruct b as [|y b]; [by apply not_elem_of_nil in Hkb|]. cbn [lookup list_lookup].
  destruct (decide (y = k)) as [->|Hne].
  - exists a, b. split; [done|]. destruct (bf k k) eqn:Ek; [|done].
    apply Hbf, earlier_irrefl in Ek; done.
  - exfalso. apply elem_of_cons in Hkb as [?|Hkb]; [congruence|].
    apply Forall_cons in Hb as [Hy _]. destruct (earlier_total due y k Hne) as [|Hc]; [done|].
    rewrite E in Hsort. apply sorted_app in Hsort as (_ & Hsb & _).
    apply StronglySorted_inv in Hsb as [_ Hf]. rewrite Forall_forall in Hf.
    by eapply Hy, Hf.
Qed.

Lemma insert_absent : k ∉ l ->
  exists a b, l = a ++ b /\ set_insert bf k l = (a ++ k :: b, length a) /\ sorted due (a ++ k :: b).
Proof.
  intros Hk. destruct lower_bound_split as (a & b & E & Ei & Ha & Hb). exists a, b. split; [done|].
  assert (Hb' : Forall (earlier due k) b).
  { rewrite Forall_forall in *. intros y Hy. destruct (earlier_total due y k); [|by apply Hb in Hy|done].
    intros ->. apply Hk. rewrite E. apply elem_of_app. by right. }
  split.
  - unfold set_insert, set_find. rewrite Ei, E, take_app_length, drop_app_length, lookup_app_r, Nat.sub_diag by lia.
    destruct b as [|y b]; cbn [lookup list_lookup]; [done|].
    apply Forall_cons in Hb' as [Hy _]. apply Hbf' in Hy; [by rewrite Hy|].
    rewrite E. apply elem_of_app. right. by left.
  - rewrite E in Hsort. apply sorted_app in Hsort as (S1 & S2 & S3). apply sorted_app. split_and!; [done| |].
    + by constructor.
    + rewrite Forall_forall in Ha. intros p q Hp Hq. apply elem_of_cons in Hq as [->|Hq]; auto.
Qed.

End Search.

(** ** The invariant of the manager *)

(** A timer that waits: it has its callback. *)
Definition waits (T : gmap Z Timer) (p : Z) : Prop := exists t, T !! p = Some t /\ is_Some (m_dg t).

Record tm_ok (m : TimerManager) : Prop := {
  ok_sorted : sorted (due_at (timers m)) (m_timers m);
  ok_waits : forall p, p ∈ m_timers m <-> waits (timers m) p;
  ok_next : forall p t, timers m !! p = Some t -> 0 <= m_next t < 2 ^ 64;
  ok_us : forall p t, timers m !! p = Some t -> 0 <= m_us t < 2 ^ 64;
  ok_free : held (m_mutex m) = false;
}.

Lemma waits_some T p : waits T p -> is_Some (T !! p).
Proof. intros (t & -> & _). eauto. Qed.

Lemma waits_insert T p t q : waits (<[p := t]> T) q <-> if decide (q = p) then is_Some (m_dg t) else waits T q.
Proof.
  unfold waits. destruct (decide (q = p)) as [->|].
  - rewrite lookup_insert_eq. split; [by intros (? & [= <-] & ?)|eauto].
  - by rewrite lookup_insert_ne.
Qed.

Lemma due_at_insert T p t q : due_at (<[p := t]> T) q = if decide (q = p) then m_next t else due_at T q.
Proof.
  unfold due_at. destruct (decide (q = p)) as [->|]; [by rewrite lookup_insert_eq|by rewrite lookup_insert_ne].
Qed.

(** Two tables in which the same pointers are set and the timers are due at the same time. *)
Lemma before_ext T T' p q : due_at T p = due_at T' p -> due_at T q = due_at T' q ->
  is_Some (T !! p) -> is_Some (T !! q) -> is_Some (T' !! p) -> is_Some (T' !! q) ->
  before T' p q = true <-> earlier (due_at T) p q.
Proof.
  intros E1 E2 ????. rewrite before_earlier by done. unfold earlier. by rewrite E1, E2.
Qed.

Lemma find_and_erase_ok T l p :
  sorted (due_at T) l -> (forall q, q ∈ l -> is_Some (T !! q)) -> p ∈ l ->
  exists a b, l = a ++ p :: b /\ find_and_erase T p l = Ok (a ++ b).
Proof.
  intros Hs Hin Hp.
  destruct (find_present (due_at T) (before T) p l) as (a & b & E & Ef); auto.
  { intros. apply before_earlier; auto. }
  exists a, b. split; [done|]. unfold find_and_erase. rewrite Ef, E, delete_middle. done.
Qed.

Lemma insert_ok T l p :
  sorted (due_at T) l -> (forall q, q ∈ p :: l -> is_Some (T !! q)) -> p ∉ l ->
  exists a b, l = a ++ b /\ set_insert (before T) p l = (a ++ p :: b, length a) /\
    sorted (due_at T) (a ++ p :: b).
Proof.
  intros Hs Hin Hp. apply insert_absent; auto; intros x Hx; apply before_earlier; apply Hin;
    by repeat (apply elem_of_cons; auto).
Qed.

(** What registering, cancelling, refreshing, resetting and expiring timers do to the set. *)

(** ** Changing one timer *)

(** The set with the table it is ordered by: sorted, and exactly the waiting timers. *)
Definition indexed (T : gmap Z Timer) (l : list Z) : Prop :=
  sorted (due_at T) l /\ forall q, q ∈ l <-> waits T q.

Lemma ok_indexed m : tm_ok m -> indexed (timers m) (m_timers m).
Proof. intros []. by split. Qed.

Lemma indexed_some T l q : indexed T l -> q ∈ l -> is_Some (T !! q).
Proof. intros [_ H] Hq. by apply waits_some, H. Qed.

Lemma indexed_middle T a p b :
  indexed T (a ++ p :: b) ->
  sorted (due_at T) (a ++ b) /\ (forall q, q ∈ a ++ b <-> q <> p /\ waits T q).
Proof.
  intros [Hs Hw]. pose proof (sorted_NoDup _ _ Hs) as Hd. split.
  - apply sorted_app in Hs as (S1 & S2 & S3). apply StronglySorted_inv in S2 as [S2 _].
    apply sorted_app. split_and!; auto. intros x y Hx Hy. apply S3; [done|by right].
  - intros q. rewrite <- Hw, !elem_of_app, elem_of_cons.
    apply NoDup_app in Hd as (D1 & D2 & D3). apply NoDup_cons in D3 as [D3 _].
    split; [|tauto]. intros [Hq|Hq]; (split; [intros ->|tauto]); [|done]. by apply (D2 p); [|left].
Qed.

(** Dropping the callback of a timer and its place in the set. *)
Lemma indexed_remove T a p b t :
  indexed T (a ++ p :: b) -> m_dg t = None -> indexed (<[p := t]> T) (a ++ b).
Proof.
  intros Hi Hn. apply indexed_middle in Hi as [Hs Hw]. split.
  - eapply sorted_ext; [|exact Hs]. intros q Hq. apply Hw in Hq as [Hq _]. rewrite due_at_insert. by case_decide.
  - intros q. rewrite Hw, waits_insert. case_decide; [|tauto]. rewrite Hn. split; [tauto|by intros [? ?]].
Qed.

(** Putting a waiting timer in its place. *)
Lemma indexed_insert T l p t :
  sorted (due_at T) l -> (forall q, q ∈ l <-> q <> p /\ waits T q) -> is_Some (m_dg t) ->
  exists a b, l = a ++ b /\ set_insert (before (<[p := t]> T)) p l = (a ++ p :: b, length a) /\
    indexed (<[p := t]> T) (a ++ p :: b).
Proof.
  intros Hs Hw Ht. assert (Hs' : sorted (due_at (<[p := t]> T)) l).
  { eapply sorted_ext; [|exact Hs]. intros q Hq. apply Hw in Hq as [Hq _]. rewrite due_at_insert. by case_decide. }
  destruct (insert_ok (<[p := t]> T) l p) as (a & b & E & Ei & Hs2); auto.
  - intros q Hq. destruct (decide (q = p)) as [->|Hne]; [rewrite lookup_insert_eq; eauto|].
    rewrite lookup_insert_ne by done. apply elem_of_cons in Hq as [?|Hq]; [done|]. by apply waits_some, Hw.
  - intros Hp. by apply Hw in Hp as [? _].
  - exists a, b. split_and!; [done|done|split; [done|]]. intros q. rewrite waits_insert.
    assert (Hq : q ∈ a ++ p :: b <-> q = p \/ q ∈ l) by (rewrite E, !elem_of_app, elem_of_cons; tauto).
    rewrite Hq, Hw. case_decide; [naive_solver|tauto].
Qed.

Lemma ok_intro m :
  indexed (timers m) (m_timers m) ->
  (forall p t, timers m !! p = Some t -> 0 <= m_next t < 2 ^ 64 /\ 0 <= m_us t < 2 ^ 64) ->
  held (m_mutex m) = false -> tm_ok m.
Proof. intros [] Hr ?. split; auto; intros; by eapply Hr. Qed.

Lemma ok_range m p t' :
  tm_ok m -> 0 <= m_next t' < 2 ^ 64 -> 0 <= m_us t' < 2 ^ 64 ->
  forall q t, <[p := t']> (timers m) !! q = Some t -> 0 <= m_next t < 2 ^ 64 /\ 0 <= m_us t < 2 ^ 64.
Proof.
  intros [_ _ H1 H2 _] ?? q t. destruct (decide (q = p)) as [->|].
  - rewrite lookup_insert_eq. by intros [= <-].
  - rewrite lookup_insert_ne by done. eauto.
Qed.

Lemma lock_guard_ok {A} m (body : TimerManager -> result (TimerManager * A)) m1 a :
  tm_ok m -> body (with_mutex m (mkMutex true (stray_unlocks (m_mutex m)))) = Ok (m1, a) ->
  lock_guard m body = Ok (unlock m1, a).
Proof. intros [_ _ _ _ Hf] E. unfold lock_guard, lock. rewrite Hf. step. rewrite E. done. Qed.

(** ** The operations *)

(** What [insert_and_tickle] does to a manager whose set lacks [p]: the timer is in, the first place
    is announced at most once, and the lock is left. *)
Lemma insert_and_tickle_ok m T l p t :
  sorted (due_at T) l -> (forall q, q ∈ l <-> q <> p /\ waits T q) -> is_Some (m_dg t) ->
  exists l' front, insert_and_tickle m (<[p := t]> T) p l =
      (unlock (mkTimerManager (<[p := t]> T) l' (m_mutex m) (m_tickled m || front) (m_previousTime m)), front) /\
    indexed (<[p := t]> T) l' /\ l' ≡ₚ p :: l /\
    front = negb (m_tickled m) && bool_decide (head l' = Some p).
Proof.
  intros Hs Hw Ht. destruct (indexed_insert T l p t Hs Hw Ht) as (a & b & E & Ei & Hi).
  exists (a ++ p :: b), (Nat.eqb (length a) 0 && negb (m_tickled m)). unfold insert_and_tickle. rewrite Ei.
  split_and!; [|done|rewrite E; symmetry; apply Permutation_middle|].
  - destruct a; cbn [length Nat.eqb andb]; [|by rewrite orb_false_r].
    destruct (m_tickled m) eqn:Em; cbn [negb orb]; unfold with_tickled, with_timers; cbn; rewrite ?Em; done.
  - rewrite andb_comm. f_equal. destruct a as [|x a]; cbn [length Nat.eqb app head].
    + by rewrite bool_decide_true.
    + rewrite bool_decide_false; [done|]. intros [= ->]. destruct Hi as [Hs' _].
      apply sorted_NoDup in Hs'. cbn in Hs'. apply NoDup_cons in Hs' as [Hn _]. apply Hn. apply elem_of_app. right. by left.
Qed.

Lemma fresh_set m p : tm_ok m -> p ∉ m_timers m ->
  forall q, q ∈ m_timers m <-> q <> p /\ waits (timers m) q.
Proof. intros [_ Hw _ _ _] Hp q. rewrite <- Hw. naive_solver. Qed.

(** registerTimer: the new timer is in the set at its place, due [us] after now (modulo 2^64),
    every other timer stays as it was; [onTimerInsertedAtFront] is called exactly when the timer
    has become the first one and nobody has been woken since the last [nextTimer]. *)
Lemma register_ok m p us dg recurring now :
  tm_ok m -> p ∉ m_timers m -> 0 <= us < 2 ^ 64 ->
  exists m' front, registerTimer m p us (Some dg) recurring now = Ok (m', front) /\ tm_ok m' /\
    timers m' = <[p := mkTimer recurring (u64 (now + us)) us (Some dg)]> (timers m) /\
    m_timers m' ≡ₚ p :: m_timers m /\
    front = negb (m_tickled m) && bool_decide (head (m_timers m') = Some p) /\
    m_tickled m' = (m_tickled m || front).
Proof.
  intros Hok Hp Hus. pose proof (u64_range (now + us)) as Hr. set (t := mkTimer recurring (u64 (now + us)) us (Some dg)).
  destruct (insert_and_tickle_ok (with_mutex m (mkMutex true (stray_unlocks (m_mutex m)))) (timers m) (m_timers m) p t)
    as (l' & front & E & Hi & Hl & Hf); [apply Hok|by apply fresh_set|by exists dg|].
  eexists _, front. split.
  { unfold registerTimer, Timer_new. step. cbn [m_dg]. rewrite bool_decide_true by eauto. step.
    apply lock_guard_ok; [done|]. fold t. cbn [timers m_timers with_mutex]. f_equal. exact E. }
  cbn in Hf |- *. split_and!; auto. apply ok_intro; cbn; auto. by apply ok_range.
Qed.

(** cancel: true exactly when the timer had not fired or been cancelled yet; afterwards it is
    not in the set and no other timer has changed.  The assertion that the timer is found holds. *)
Lemma cancel_ok m p t :
  tm_ok m -> timers m !! p = Some t ->
  exists m', Timer_cancel m p = Ok (m', bool_decide (p ∈ m_timers m)) /\ tm_ok m' /\
    timers m' = <[p := clear_dg t]> (timers m) /\
    (forall q, q ∈ m_timers m' <-> q ∈ m_timers m /\ q <> p) /\
    m_tickled m' = m_tickled m /\ m_mutex m' = m_mutex m.
Proof.
  intros Hok Ht. pose proof Hok as [Hs Hw Hn Hu Hf]. pose proof (ok_indexed m Hok) as Hi.
  assert (Hm : mkMutex false (stray_unlocks (m_mutex m)) = m_mutex m) by (destruct (m_mutex m); cbn in *; by subst).
  destruct (m_dg t) as [dg|] eqn:Ed.
  - assert (Hp : p ∈ m_timers m) by (apply Hw; exists t; rewrite Ed; eauto).
    rewrite bool_decide_true by done.
    destruct (find_and_erase_ok (<[p := clear_dg t]> (timers m)) (m_timers m) p) as (a & b & E & Ef); auto.
    { eapply sorted_ext; [|exact Hs]. intros q _. rewrite due_at_insert. case_decide; [|done]. subst. unfold due_at. by rewrite Ht. }
    { intros q Hq. destruct (decide (q = p)) as [->|]; [rewrite lookup_insert_eq|rewrite lookup_insert_ne by done]; eauto using indexed_some. }
    eexists. split.
    { unfold Timer_cancel. apply lock_guard_ok; [done|]. cbn [timers m_timers with_mutex].
      unfold timer_at. rewrite Ht. step. rewrite Ed, Ef. step. done. }
    pose proof Hi as Hi2. rewrite E in Hi2. pose proof (indexed_middle _ _ _ _ Hi2) as [_ Hmid].
    cbn. split_and!; auto.
    + apply ok_intro; cbn; auto; [by apply indexed_remove|]. apply ok_range; cbn; eauto.
    + intros q. rewrite Hmid, <- Hw. tauto.
  - rewrite bool_decide_false; [|rewrite Hw; intros (t' & Ht' & [d Hd]); congruence].
    exists m. split.
    { unfold Timer_cancel. erewrite lock_guard_ok; [|done|cbn [timers m_timers with_mutex]; unfold timer_at; rewrite Ht; step; rewrite Ed; done].
      unfold unlock, with_mutex. cbn. rewrite Hm. by destruct m. }
    split_and!; auto.
    + rewrite insert_id; [done|]. rewrite Ht. f_equal. destruct t; cbn in *. by subst.
    + intros q. split; [|tauto]. intros Hq. split; [done|]. intros ->. apply Hw in Hq as (t' & Ht' & [d Hd]). congruence.
Qed.

(** Taking a waiting timer out, to put it back with another time. *)
Lemma take_out m p t :
  tm_ok m -> timers m !! p = Some t -> is_Some (m_dg t) ->
  exists a b, m_timers m = a ++ p :: b /\ find_and_erase (timers m) p (m_timers m) = Ok (a ++ b) /\
    sorted (due_at (timers m)) (a ++ b) /\ (forall q, q ∈ a ++ b <-> q <> p /\ waits (timers m) q).
Proof.
  intros Hok Ht Hd. pose proof (ok_indexed m Hok) as Hi. pose proof Hok as [Hs Hw _ _ _].
  destruct (find_and_erase_ok (timers m) (m_timers m) p) as (a & b & E & Ef); eauto using indexed_some.
  { apply Hw. by exists t. }
  exists a, b. rewrite E in Hi. destruct (indexed_middle _ _ _ _ Hi). split_and!; auto.
Qed.

Lemma not_waiting m p t : tm_ok m -> timers m !! p = Some t -> m_dg t = None -> p ∉ m_timers m.
Proof. intros [_ Hw _ _ _] Ht Hd Hp. apply Hw in Hp as (t' & Ht' & [d Hd']). congruence. Qed.

Lemma unlock_locked m : tm_ok m -> unlock (with_mutex m (mkMutex true (stray_unlocks (m_mutex m)))) = m.
Proof. intros [_ _ _ _ Hf]. destruct m as [T l [h x] tk pt]. cbn in *. by subst. Qed.

(** The time [reset] gives to a timer. *)
Definition reset_timer (t : Timer) (us : Z) (fromNow : bool) (now : Z) : Timer :=
  if (us =? m_us t) && negb fromNow then t
  else set_next (set_us t us) (u64 ((if fromNow then now else u64 (m_next t - m_us t)) + us)).

(** reset: a waiting timer gets the new delay, counted from now or from its original start; it
    moves to its place in the set, no other timer changes, and the front is announced as in
    registerTimer; a timer that does not wait any more is left alone. *)
Lemma reset_ok m p t us fromNow now :
  tm_ok m -> timers m !! p = Some t -> 0 <= us < 2 ^ 64 ->
  if bool_decide (p ∈ m_timers m) then
    exists m' front, Timer_reset m p us fromNow now = Ok (m', (true, front)) /\ tm_ok m' /\
      timers m' = <[p := reset_timer t us fromNow now]> (timers m) /\
      m_timers m' ≡ₚ m_timers m /\ m_tickled m' = (m_tickled m || front) /\
      ((us =? m_us t) && negb fromNow = false ->
       front = negb (m_tickled m) && bool_decide (head (m_timers m') = Some p))
  else Timer_reset m p us fromNow now = Ok (m, (false, false)).
Proof.
  intros Hok Ht Hus. pose proof Hok as [Hs Hw _ _ _]. destruct (m_dg t) as [dg|] eqn:Ed.
  2:{ rewrite bool_decide_false by (by eapply not_waiting). unfold Timer_reset.
      erewrite lock_guard_ok; [|done|cbn [timers with_mutex]; unfold timer_at; rewrite Ht; step; rewrite Ed; done].
      by rewrite unlock_locked. }
  assert (Hsome : is_Some (m_dg t)) by (rewrite Ed; eauto).
  rewrite bool_decide_true by (apply Hw; by exists t). unfold reset_timer.
  destruct ((us =? m_us t) && negb fromNow) eqn:Eb.
  { exists m, false. split.
    - unfold Timer_reset. erewrite lock_guard_ok; [|done|cbn [timers with_mutex]; unfold timer_at; rewrite Ht; step; rewrite Ed, Eb; done].
      by rewrite unlock_locked.
    - rewrite insert_id, orb_false_r by done. done. }
  destruct (take_out m p t Hok Ht Hsome) as (a & b & E & Ef & Hs' & Hw').
  set (t' := set_next _ _). pose proof (u64_range ((if fromNow then now else u64 (m_next t - m_us t)) + us)) as Hr.
  destruct (insert_and_tickle_ok (with_mutex m (mkMutex true (stray_unlocks (m_mutex m)))) (timers m) (a ++ b) p t')
    as (l' & front & Ei & Hi & Hl & Hfr); [done..|].
  eexists _, front. split.
  { unfold Timer_reset. apply lock_guard_ok; [done|]. cbn [timers m_timers with_mutex]. unfold timer_at.
    rewrite Ht. step. rewrite Ed, Eb, Ef. step. fold t'. rewrite Ei. done. }
  cbn in Hfr |- *. split_and!; auto.
  - apply ok_intro; cbn; auto. by apply ok_range.
  - rewrite Hl, E. apply Permutation_middle.
Qed.

(** refresh: a waiting timer is due its full delay from now, at its place in the set; no other
    timer changes. *)
Lemma refresh_ok m p t now :
  tm_ok m -> timers m !! p = Some t ->
  if bool_decide (p ∈ m_timers m) then
    exists m', Timer_refresh m p now = Ok (m', true) /\ tm_ok m' /\
      timers m' = <[p := set_next t (u64 (now + m_us t))]> (timers m) /\
      m_timers m' ≡ₚ m_timers m /\ m_tickled m' = m_tickled m
  else Timer_refresh m p now = Ok (m, false).
Proof.
  intros Hok Ht. pose proof Hok as [Hs Hw _ Hu _]. destruct (m_dg t) as [dg|] eqn:Ed.
  2:{ rewrite bool_decide_false by (by eapply not_waiting). unfold Timer_refresh.
      erewrite lock_guard_ok; [|done|cbn [timers with_mutex]; unfold timer_at; rewrite Ht; step; rewrite Ed; done].
      by rewrite unlock_locked. }
  assert (Hsome : is_Some (m_dg t)) by (rewrite Ed; eauto).
  rewrite bool_decide_true by (apply Hw; by exists t).
  destruct (take_out m p t Hok Ht Hsome) as (a & b & E & Ef & Hs' & Hw').
  set (t' := set_next t (u64 (now + m_us t))). pose proof (u64_range (now + m_us t)) as Hr.
  destruct (indexed_insert (timers m) (a ++ b) p t' Hs' Hw' Hsome) as (a' & b' & E' & Ei & Hi).
  eexists. split.
  { unfold Timer_refresh. apply lock_guard_ok; [done|]. cbn [timers m_timers with_mutex]. unfold timer_at.
    rewrite Ht. step. rewrite Ed, Ef. step. fold t'. rewrite Ei. done. }
  cbn. split_and!; auto.
  - apply ok_intro; cbn; auto. apply ok_range; auto. exact (Hu _ _ Ht).
  - rewrite E, <- !Permutation_middle, E'. done.
Qed.

(** ** Expiring *)

Section Expire.
Variables (now : Z).

(** What expiring makes of a timer. *)
Definition fire (t : Timer) : Timer :=
  if m_recurring t then set_next t (u64 (now + m_us t)) else clear_dg t.

Lemma expire_loop_ok expired T l :
  NoDup expired -> sorted (due_at T) l ->
  (forall p, p ∈ expired -> waits T p) -> (forall p, p ∈ l <-> waits T p /\ p ∉ expired) ->
  exists T' l' dgs, expire_loop now expired T l = Ok (T', l', dgs) /\ indexed T' l' /\
    dgs = omap (fun p => T !! p ≫= m_dg) expired /\
    (forall p, T' !! p = if decide (p ∈ expired) then fire <$> T !! p else T !! p).
Proof.
  revert T l. induction expired as [|p rest IH]; intros T l Hd Hs Hw Hl.
  - exists T, l, []. split_and!; auto. split; [done|]. intros q. rewrite Hl. split; [tauto|].
    intros. split; [done|apply not_elem_of_nil].
  - apply NoDup_cons in Hd as [Hp Hd]. destruct (Hw p) as (t & Ht & [dg Hdg]); [by left|].
    cbn [expire_loop]. unfold timer_at. rewrite Ht. step. rewrite Hdg.
    assert (Hrest : forall q, q ∈ rest -> q <> p) by (intros q Hq ->; done).
    (* the state after [p], whether it is put back or not *)
    assert (Hstep : exists l1, (if m_recurring t then
        (<[p := set_next t (u64 (now + m_us t))]> T,
         fst (set_insert (before (<[p := set_next t (u64 (now + m_us t))]> T)) p l))
        else (<[p := clear_dg t]> T, l)) = (<[p := fire t]> T, l1) /\
        sorted (due_at (<[p := fire t]> T)) l1 /\
        forall q, q ∈ l1 <-> waits (<[p := fire t]> T) q /\ q ∉ rest).
    { unfold fire. destruct (m_recurring t).
      - assert (Hl2 : p ∉ l) by (rewrite Hl; intros [_ H]; apply H; by left).
        assert (Hdue : forall t', sorted (due_at (<[p := t']> T)) l).
        { intros t'. eapply sorted_ext; [|exact Hs]. intros q Hq. rewrite due_at_insert. case_decide; [subst; done|done]. }
        destruct (insert_ok (<[p := set_next t (u64 (now + m_us t))]> T) l p) as (a & b & E & Ei & Hs1); auto.
        { intros q Hq. destruct (decide (q = p)) as [->|]; [rewrite lookup_insert_eq; eauto|].
          rewrite lookup_insert_ne by done. apply elem_of_cons in Hq as [?|Hq]; [done|]. apply Hl in Hq as [Hq _].
          by apply waits_some. }
        exists (a ++ p :: b). rewrite Ei. split_and!; [done|done|]. intros q.
        assert (Hq : q ∈ a ++ p :: b <-> q = p \/ q ∈ l) by (rewrite E, !elem_of_app, elem_of_cons; tauto).
        rewrite Hq, Hl, waits_insert, elem_of_cons. case_decide; subst; cbn; rewrite ?Hdg; [|tauto].
        split; [|tauto]. intros _. split; [eauto|done].
      - exists l. split_and!; [done| |].
        + eapply sorted_ext; [|exact Hs]. intros q Hq. rewrite due_at_insert. case_decide; [|done]. subst.
          apply Hl in Hq as [_ Hq]. exfalso. apply Hq. by left.
        + intros q. rewrite Hl, waits_insert, elem_of_cons. case_decide; [|tauto]. subst. cbn. split; [tauto|].
          by intros [[? ?] _]. }
    destruct Hstep as (l1 & Estep & Hs1 & Hl1). rewrite Estep.
    destruct (IH (<[p := fire t]> T) l1) as (T' & l' & dgs & E & Hi & Edg & HT); auto.
    { intros q Hq. rewrite waits_insert. rewrite decide_False by auto. apply Hw. by right. }
    rewrite E. step. exists T', l', (dg :: dgs). split_and!; auto.
    + cbn [omap list_omap]. rewrite Ht. cbn [mbind option_bind]. rewrite Hdg, Edg. f_equal.
      apply list_omap_ext, Forall_Forall2_diag, Forall_forall. intros q Hq.
      rewrite lookup_insert_ne; [done|]. intros ->. done.
    + intros q. rewrite HT. destruct (decide (q = p)) as [->|Hne].
      * rewrite decide_False, decide_True, lookup_insert_eq, Ht by (done || by left). done.
      * rewrite lookup_insert_ne by done. destruct (decide (q ∈ rest)).
        { rewrite decide_True; [done|by right]. }
        { rewrite decide_False; [done|]. intros Hq. by apply elem_of_cons in Hq as []. }
Qed.

End Expire.

Section Due.
Variables (T : gmap Z Timer) (now : Z).

Lemma pass_equal_ok l :
  sorted (due_at T) l -> (forall p, p ∈ l -> is_Some (T !! p)) -> Forall (fun p => now <= due_at T p) l ->
  exists e r, l = e ++ r /\ pass_equal T now l = Ok (length e) /\
    Forall (fun p => due_at T p = now) e /\ Forall (fun p => now < due_at T p) r.
Proof.
  induction 1 as [|p l Hs IH Hf]; intros Hin Hge.
  - exists [], []. split_and!; [done..|constructor|constructor].
  - apply Forall_cons in Hge as [Hp Hge]. cbn [pass_equal]. unfold timer_at.
    assert (Hd : due_at T p = from_option m_next 0 (T !! p)) by done.
    destruct (Hin p) as [t Ht]; [by left|]. rewrite Ht in *. step. cbn in Hd. rewrite <- Hd.
    destruct (Z.eqb_spec (due_at T p) now) as [E|E].
    + destruct IH as (e & r & -> & Ee & He & Hr); [intros; apply Hin; by right|done|].
      rewrite Ee. step. exists (p :: e), r. split_and!; auto.
    + exists [], (p :: l). split_and!; [done..|constructor|]. constructor; [lia|].
      eapply Forall_impl; [exact Hf|]. unfold earlier. cbn. lia.
Qed.

(** The iterator after the loop separates the timers that are due from the others, whatever the
    address of the dummy timer. *)
Lemma due_split l q :
  sorted (due_at T) l -> (forall p, p ∈ l -> is_Some (T !! p)) -> q ∉ l ->
  let it0 := lower_bound (before (<[q := Timer_dummy now]> T)) q l in
  exists e r more, l = e ++ r /\ pass_equal T now (drop it0 l) = Ok more /\ length e = (it0 + more)%nat /\
    Forall (fun p => due_at T p <= now) e /\ Forall (fun p => now < due_at T p) r.
Proof.
  intros Hs Hin Hq it0. set (T' := <[q := Timer_dummy now]> T) in *.
  assert (Eq : due_at T' q = now) by (unfold T'; rewrite due_at_insert, decide_True; done).
  assert (Ed : forall p, p ∈ l -> due_at T' p = due_at T p).
  { intros p Hp. unfold T'. rewrite due_at_insert, decide_False; [done|]. intros ->. done. }
  destruct (lower_bound_split (due_at T') (before T') q l) as (a & b & E & Ei & Ha & Hb).
  { eapply sorted_ext; [|exact Hs]. intros. by rewrite Ed. }
  { intros x Hx. apply before_earlier; unfold T'; [|rewrite lookup_insert_eq; eauto].
    rewrite lookup_insert_ne; [by apply Hin|]. intros ->. done. }
  unfold it0. rewrite Ei. pose proof Hs as Hs2. rewrite E in Hs2. apply sorted_app in Hs2 as (_ & Sb & _).
  destruct (pass_equal_ok b Sb) as (e & r & -> & Ee & He & Hr).
  { intros. apply Hin. rewrite E. apply elem_of_app. by right. }
  { rewrite Forall_forall in *. intros p Hp. specialize (Hb p Hp). unfold earlier in Hb.
    rewrite Eq, Ed in Hb by (rewrite E; apply elem_of_app; by right). lia. }
  exists (a ++ e), r, (length e). rewrite <- app_assoc, E, drop_app_length, Ee, length_app, Forall_app.
  split_and!; auto; [|eapply Forall_impl; [exact He|cbn; lia]].
  rewrite Forall_forall in *. intros p Hp. specialize (Ha p Hp). unfold earlier in Ha.
  rewrite Eq, Ed in Ha by (rewrite E; apply elem_of_app; by left). lia.
Qed.

End Due.

(** Has the clock gone back by more than the threshold? *)
Definition rolled_back (threshold : Z) (m : TimerManager) (now : Z) : bool :=
  (now <? m_previousTime m) && (now <? u64 (m_previousTime m - threshold)).

(** The timers a call of [processTimers] expires, in order. *)
Definition expiring (threshold : Z) (m : TimerManager) (now : Z) : list Z :=
  filter (fun p => rolled_back threshold m now = true \/ due_at (timers m) p <= now) (m_timers m).

Lemma filter_split {A} (P : A -> Prop) `{!forall x, Decision (P x)} e r :
  Forall P e -> Forall (fun x => ~ P x) r -> filter P (e ++ r) = e.
Proof.
  intros He Hr. rewrite filter_app.
  assert (E1 : filter P e = e) by (induction He; [done|rewrite filter_cons_True by done; by f_equal]).
  assert (E2 : filter P r = []) by (induction Hr; [done|rewrite filter_cons_False by done; done]).
  by rewrite E1, E2, app_nil_r.
Qed.

(** What the code does after the tests for an empty set and for nothing due. *)
Lemma expire_ok threshold m e r now :
  tm_ok m -> m_timers m = e ++ r -> expiring threshold m now = e ->
  exists T' l', expire_loop now e (timers m) r = Ok (T', l', omap (fun p => timers m !! p ≫= m_dg) e) /\
    tm_ok (with_previousTime (with_timers m T' l') now) /\
    (forall p, T' !! p = if decide (p ∈ expiring threshold m now) then fire now <$> timers m !! p else timers m !! p).
Proof.
  intros Hok El Ee. pose proof Hok as [Hs Hw Hn Hu Hf]. rewrite El in Hs.
  pose proof (sorted_NoDup _ _ Hs) as Hd. apply sorted_app in Hs as (S1 & S2 & S3).
  apply NoDup_app in Hd as (D1 & D2 & D3).
  destruct (expire_loop_ok now e (timers m) r) as (T' & l' & dgs & E & Hi & -> & HT); auto.
  { intros p Hp. apply Hw. rewrite El. apply elem_of_app. by left. }
  { intros p. rewrite <- Hw, El, elem_of_app. split; [|tauto]. intros Hp. split; [by right|].
    intros He. by apply (D2 p). }
  exists T', l'. rewrite Ee. split_and!; auto. apply ok_intro; cbn; auto.
  intros p t. rewrite HT. case_decide; [|split; eauto].
  destruct (timers m !! p) as [t0|] eqn:E0; [|done]. intros [= <-]. unfold fire.
  pose proof (u64_range (now + m_us t0)). destruct (m_recurring t0); cbn; split; eauto.
Qed.

(** processTimers: exactly the timers that are due expire (all of them after a clock
    rollback), in the order of their times; their callbacks are returned in that order, a recurring one is
    set again from now, any other loses its callback; the rest is untouched, the assertion on the
    callback holds, and where the dummy timer lies in memory makes no difference. *)
Lemma process_ok threshold m q now :
  tm_ok m -> q ∉ m_timers m ->
  exists m', processTimers threshold m q now =
      Ok (m', omap (fun p => timers m !! p ≫= m_dg) (expiring threshold m now)) /\ tm_ok m' /\
    (forall p, timers m' !! p =
       if decide (p ∈ expiring threshold m now) then fire now <$> timers m !! p else timers m !! p) /\
    m_previousTime m' = (if bool_decide (m_timers m = []) then m_previousTime m else now).
Proof.
  intros Hok Hq. pose proof (ok_indexed m Hok) as Hi. pose proof Hok as [Hs _ _ _ _].
  unfold processTimers. destruct (m_timers m) as [|p0 l0] eqn:El.
  { exists m. unfold expiring. rewrite El. split_and!; auto.
    erewrite lock_guard_ok; [|done|cbn [with_mutex m_timers]; rewrite El; done]. by rewrite unlock_locked. }
  rewrite bool_decide_false by done.
  assert (Hsplit : exists e r it0 more, m_timers m = e ++ r /\ expiring threshold m now = e /\
    it0 = (if rolled_back threshold m now then length (m_timers m)
           else lower_bound (before (<[q := Timer_dummy now]> (timers m))) q (m_timers m)) /\
    pass_equal (timers m) now (drop it0 (m_timers m)) = Ok more /\ length e = (it0 + more)%nat).
  { destruct (rolled_back threshold m now) eqn:Er.
    - exists (m_timers m), [], (length (m_timers m)), O. rewrite app_nil_r, drop_all. split_and!; try done; [|lia..].
      unfold expiring. rewrite <- (app_nil_r (m_timers m)) at 1. apply filter_split; [|constructor].
      apply Forall_forall. intros. by left.
    - destruct (due_split (timers m) now (m_timers m) q) as (e & r & more & E & Ep & Elen & He & Hr).
      { by rewrite El. } { rewrite El. intros. by eapply indexed_some. } { by rewrite El. }
      exists e, r, (lower_bound (before (<[q := Timer_dummy now]> (timers m))) q (m_timers m)), more.
      split_and!; auto. unfold expiring. rewrite E. apply filter_split.
      + eapply Forall_impl; [exact He|]. cbn. auto.
      + eapply Forall_impl; [exact Hr|]. cbn. rewrite Er. intros ? ? [?|?]; [done|lia]. }
  destruct Hsplit as (e & r & it0 & more & E & Ee & Eit & Ep & Elen).
  destruct (expire_ok threshold m e r now Hok E Ee) as (T' & l' & Eexp & Hok' & HT).
  destruct (indexed_some _ _ p0 Hi) as [t0 Ht0]; [by left|].
  eexists. split.
  { apply lock_guard_ok; [done|]. cbn [with_mutex m_timers]. rewrite El. unfold detectClockRollover.
    cbn [timers m_previousTime m_timers with_mutex with_previousTime]. fold (rolled_back threshold m now).
    unfold timer_at. rewrite Ht0. step. rewrite <- Eit, Ep. step.
    rewrite <- Elen, E, take_app_length, drop_app_length, Eexp, Ee. step.
    destruct (negb (rolled_back threshold m now) && (now <? m_next t0)) eqn:Eg; [|done].
    (* nothing is due: the loop would do nothing *)
    apply andb_true_iff in Eg as [Er Eg]. apply negb_true_iff in Er. apply Z.ltb_lt in Eg.
    assert (e = []) as ->.
    { destruct e as [|x e]; [done|]. exfalso. rewrite El in E. injection E as -> _.
      assert (Hx : x ∈ expiring threshold m now) by (rewrite Ee; by left). unfold expiring in Hx.
      apply list_elem_of_filter in Hx as [[?|Hx] _]; [congruence|]. unfold due_at in Hx. rewrite Ht0 in Hx. cbn in Hx. lia. }
    cbn in Eexp, E. injection Eexp as <- <-. rewrite <- E. done. }
  cbn. split_and!; auto. destruct Hok' as [? ? ? ? ?]. apply ok_intro; cbn; auto; [by split|].
  intros p t Hp. split; eauto.
Qed.
