(* ===== verification/TimerProps.v ===== *)
(** The theorems about which timers fire, when the next one is due, and waking a thread that sleeps until then. *)

From stdpp Require Import gmap sorting numbers list_numbers list.
From S2P Require Import Prelude Timer TimerInv.

(** The first timer of the set is due first. *)
Lemma head_first m h q :
  tm_ok m -> head (m_timers m) = Some h -> q ∈ m_timers m -> due_at (timers m) h <= due_at (timers m) q.
Proof.
  intros [Hs _ _ _ _] Hh Hq. destruct (m_timers m) as [|x l]; [done|]. injection Hh as ->.
  apply elem_of_cons in Hq as [->|Hq]; [lia|]. apply StronglySorted_inv in Hs as [_ Hf].
  rewrite Forall_forall in Hf. specialize (Hf q Hq). unfold earlier in Hf. lia.
Qed.

Lemma next_ok m now :
  tm_ok m -> 0 <= now < 2 ^ 64 ->
  nextTimer m now = Ok (with_tickled m false,
    match m_timers m with [] => npos | p :: _ => Z.max 0 (due_at (timers m) p - now) end).
Proof.
  intros Hok Hnow. pose proof Hok as [_ Hw Hn _ Hf]. pose proof (ok_indexed m Hok) as Hi. unfold nextTimer.
  assert (Hu : forall x, unlock (with_tickled (with_mutex m (mkMutex true (stray_unlocks (m_mutex m)))) x) = with_tickled m x).
  { intros x. destruct m as [T l [h s] tk pt]. cbn in *. by subst. }
  destruct (m_timers m) as [|p l] eqn:El.
  - erewrite lock_guard_ok; [|done|cbn [with_mutex with_tickled m_timers]; rewrite El; done]. by rewrite Hu.
  - destruct (indexed_some _ _ p Hi) as [t Ht]; [by left|]. pose proof (Hn p t Ht).
    erewrite lock_guard_ok; [rewrite Hu|done|].
    + done.
    + cbn [with_mutex with_tickled m_timers timers]. rewrite El. unfold timer_at, due_at. rewrite Ht. step.
      destruct (Z.leb_spec (m_next t) now); do 2 f_equal; cbn; [lia|]. rewrite u64_small by lia. lia.
Qed.

Lemma with_tickled_ok m b : tm_ok m -> tm_ok (with_tickled m b).
Proof. intros []. by split. Qed.

(** A manager with one timer, used by the witnesses. *)
Definition one_timer : Timer := mkTimer false 105 5 (Some (Plain 1)).
Definition one_manager : TimerManager :=
  mkTimerManager {[10 := one_timer]} [10] (mkMutex false 0) false 100.

Lemma one_manager_ok : tm_ok one_manager.
Proof.
  split; cbn; try done.
  - repeat constructor.
  - intros p. rewrite list_elem_of_singleton. unfold waits. split.
    + intros ->. exists one_timer. rewrite lookup_singleton_eq. split; [done|by exists (Plain 1)].
    + intros (t & Ht & _). by apply lookup_singleton_Some in Ht as [? _].
  - intros p t [_ <-]%lookup_singleton_Some. cbn. lia.
  - intros p t [_ <-]%lookup_singleton_Some. cbn. lia.
Defined.

(** C3 -- processTimers: exactly the timers that are due expire (all of them after a clock
    rollback), in the order of their times; their callbacks are returned in that order, a recurring
    one is set again from now, any other loses its callback; every other timer is untouched, the
    assertion on the callback holds, and where the dummy timer lies in memory makes no difference. *)
Theorem processTimers_spec threshold m q now :
  tm_ok m -> q ∉ m_timers m ->
  let expired := expiring threshold m now in
  exists m', processTimers threshold m q now = Ok (m', omap (fun p => timers m !! p ≫= m_dg) expired) /\
    tm_ok m' /\ sorted (due_at (timers m)) expired /\
    (forall p, p ∈ m_timers m' <-> p ∈ m_timers m /\
       (p ∈ expired -> exists t, timers m !! p = Some t /\ m_recurring t = true)) /\
    (forall p, timers m' !! p = if decide (p ∈ expired) then fire now <$> timers m !! p else timers m !! p).
Proof.
  intros Hok Hq expired. destruct (process_ok threshold m q now Hok Hq) as (m' & E & Hok' & HT & _).
  exists m'. split_and!; auto.
  - unfold expired, expiring. pose proof (ok_sorted m Hok) as Hs. clear -Hs.
    induction Hs as [|p l Hs IH Hf]; [constructor|]. rewrite filter_cons. destruct (decide _); [|exact IH].
    constructor; [exact IH|]. rewrite Forall_forall in *. intros x Hx. apply Hf. by apply list_elem_of_filter in Hx as [_ ?].
  - intros p. rewrite (ok_waits m' Hok'), (ok_waits m Hok). unfold waits. rewrite HT. fold expired.
    destruct (decide (p ∈ expired)) as [He|He]; [|naive_solver].
    assert (Hp : waits (timers m) p).
    { apply (ok_waits m Hok). unfold expired, expiring in He. by apply list_elem_of_filter in He as [_ ?]. }
    destruct Hp as (t & Ht & Hd). rewrite Ht. cbn. unfold fire. split.
    + intros (t' & [= <-] & Hd'). split; [eauto|]. intros _. exists t. split; [done|].
      destruct (m_recurring t); [done|]. by destruct Hd'.
    + intros (_ & H). destruct (H He) as (t' & [= <-] & ->). eauto.
Qed.

Lemma processTimers_witness :
  exists m', processTimers 5000000 one_manager 77 105 = Ok (m', [Plain 1]) /\ tm_ok m'.
Proof.
  destruct (processTimers_spec 5000000 one_manager 77 105 one_manager_ok) as (m' & E & Hok & _).
  { intros H. by apply list_elem_of_singleton in H. }
  exists m'. split; [exact E|exact Hok].
Defined.

(** NextTimer is exact: it returns the time until [processTimers] first has something to do, and
    [~0] when nothing waits. *)
Theorem nextTimer_spec threshold m now :
  tm_ok m -> 0 <= now < 2 ^ 64 ->
  exists m' r, nextTimer m now = Ok (m', r) /\ tm_ok m' /\
    timers m' = timers m /\ m_timers m' = m_timers m /\ m_tickled m' = false /\
    (m_timers m = [] -> r = npos) /\
    (m_timers m <> [] -> forall now', now <= now' -> rolled_back threshold m' now' = false ->
       expiring threshold m' now' <> [] <-> now + r <= now').
Proof.
  intros Hok Hnow. eexists _, _. split; [by apply next_ok|]. split; [by apply with_tickled_ok|].
  split_and!; auto; [intros ->; done|]. intros Hne now' Hge Hr.
  destruct (m_timers m) as [|p l] eqn:El; [done|]. unfold expiring. cbn [with_tickled m_timers timers].
  rewrite Hr, El. split.
  - intros Hex. destruct (filter _ (p :: l)) as [|q l'] eqn:Ef; [done|].
    assert (Hq : q ∈ q :: l') by (by left). rewrite <- Ef in Hq. apply list_elem_of_filter in Hq as [[?|Hq] Hin]; [done|].
    assert (due_at (timers m) p <= due_at (timers m) q) by (apply head_first; auto; rewrite El; done). lia.
  - intros Hle. rewrite filter_cons. rewrite decide_True; [done|]. right. lia.
Qed.

Lemma nextTimer_witness : exists m' r, nextTimer one_manager 101 = Ok (m', r) /\ r = 4.
Proof.
  destruct (nextTimer_spec 5000000 one_manager 101 one_manager_ok) as (m' & r & E & _); [lia|].
  exists m', r. split; [exact E|]. vm_compute in E. congruence.
Defined.

(** ** Runs of the manager *)

Inductive event :=
| Registered (p : Z)
| Cancelled (p : Z) (success : bool)
| Fired (ps : list Z)
| Quiet.

Section Runs.
Variable threshold : Z.

(** One call of the interface, with an address that no timer has had before for a new timer. *)
Inductive tm_step : TimerManager -> event -> TimerManager -> Prop :=
| step_register m p us dg recurring now m' front :
    timers m !! p = None -> 0 <= us < 2 ^ 64 ->
    registerTimer m p us (Some dg) recurring now = Ok (m', front) -> tm_step m (Registered p) m'
| step_cancel m p m' success :
    is_Some (timers m !! p) -> Timer_cancel m p = Ok (m', success) -> tm_step m (Cancelled p success) m'
| step_refresh m p now m' success :
    is_Some (timers m !! p) -> Timer_refresh m p now = Ok (m', success) -> tm_step m Quiet m'
| step_reset m p us fromNow now m' success :
    is_Some (timers m !! p) -> 0 <= us < 2 ^ 64 ->
    Timer_reset m p us fromNow now = Ok (m', success) -> tm_step m Quiet m'
| step_next m now m' r :
    0 <= now < 2 ^ 64 -> nextTimer m now = Ok (m', r) -> tm_step m Quiet m'
| step_process m q now m' dgs :
    q ∉ m_timers m -> processTimers threshold m q now = Ok (m', dgs) ->
    tm_step m (Fired (expiring threshold m now)) m'.

Inductive tm_run : list event -> TimerManager -> Prop :=
| run_start : tm_run [] TimerManager_new
| run_step tr m e m' : tm_run tr m -> tm_step m e m' -> tm_run (e :: tr) m'.

(** How often a timer was called or successfully cancelled. *)
Definition settled_by (p : Z) (e : event) : nat :=
  match e with
  | Fired ps => if decide (p ∈ ps) then 1 else 0
  | Cancelled q success => if decide (p = q) then if success then 1 else 0 else 0
  | _ => 0
  end.

Fixpoint settled (p : Z) (tr : list event) : nat :=
  match tr with [] => 0 | e :: tr' => settled_by p e + settled p tr' end.

(** What a step does to the timer at [p]. *)
Record step_effect (m m' : TimerManager) (e : event) : Prop := {
  se_ok : tm_ok m';
  se_new : forall p, timers m' !! p = None -> timers m !! p = None /\ settled_by p e = 0%nat;
  se_born : forall p, timers m !! p = None -> settled_by p e = 0%nat /\
    (is_Some (timers m' !! p) -> p ∈ m_timers m');
  se_kept : forall p t, timers m !! p = Some t -> exists t', timers m' !! p = Some t' /\
    m_recurring t' = m_recurring t /\
    (m_recurring t = false ->
      (if decide (p ∈ m_timers m') then 0 else 1) = (if decide (p ∈ m_timers m) then 0 else 1) + settled_by p e)%nat;
}.

(** Steps that only change one timer that is there, and not whether it waits. *)
Lemma effect_update m m' p t t' :
  tm_ok m -> tm_ok m' -> timers m !! p = Some t -> timers m' = <[p := t']> (timers m) ->
  m_recurring t' = m_recurring t -> m_dg t' = m_dg t -> step_effect m m' Quiet.
Proof.
  intros Hok Hok' Ht HT Hr Hd.
  assert (Hw : forall q, q ∈ m_timers m' <-> q ∈ m_timers m).
  { intros q. rewrite (ok_waits m' Hok'), (ok_waits m Hok), HT, waits_insert. case_decide; [|done]. subst.
    rewrite Hd. unfold waits. rewrite Ht. naive_solver. }
  split; auto.
  - intros q. rewrite HT. destruct (decide (q = p)) as [->|]; [by rewrite lookup_insert_eq|by rewrite lookup_insert_ne].
  - intros q Hq. split; [done|]. rewrite HT. destruct (decide (q = p)) as [->|]; [congruence|].
    rewrite lookup_insert_ne, Hq by done. by intros [? ?].
  - intros q u Hq. rewrite HT. destruct (decide (q = p)) as [->|].
    + rewrite lookup_insert_eq. assert (u = t) as -> by congruence. exists t'. split_and!; auto. intros _.
      cbn. rewrite Nat.add_0_r. destruct (decide (p ∈ m_timers m')) as [Hp|Hp]; rewrite Hw in Hp;
        [by rewrite decide_True|by rewrite decide_False].
    + rewrite lookup_insert_ne by done. exists u. split_and!; auto. intros _. cbn. rewrite Nat.add_0_r.
      destruct (decide (q ∈ m_timers m')) as [Hp|Hp]; rewrite Hw in Hp; [by rewrite decide_True|by rewrite decide_False].
Qed.

Lemma effect_same m m' : tm_ok m -> tm_ok m' -> timers m' = timers m -> m_timers m' = m_timers m -> step_effect m m' Quiet.
Proof.
  intros Hok Hok' E1 E2. split; auto; rewrite E1, ?E2; [done| |].
  - intros p Hp. split; [done|]. rewrite Hp. by intros [? ?].
  - intros p t Hp. exists t. split_and!; auto; intros _; cbn; lia.
Qed.

Lemma effect_register m p us dg recurring now m' front :
  tm_ok m -> timers m !! p = None -> 0 <= us < 2 ^ 64 ->
  registerTimer m p us (Some dg) recurring now = Ok (m', front) -> step_effect m m' (Registered p).
Proof.
  intros Hok Hp Hus E.
  assert (Hn : p ∉ m_timers m) by (intros H; apply (ok_waits m Hok) in H as (t & Ht & _); congruence).
  destruct (register_ok m p us dg recurring now Hok Hn Hus) as (m2 & f & E' & Hok' & HT & Hl & _).
  rewrite E in E'. injection E' as <- <-. split; auto.
  - intros q. rewrite HT. destruct (decide (q = p)) as [->|]; [by rewrite lookup_insert_eq|by rewrite lookup_insert_ne].
  - intros q Hq. split; [done|]. rewrite HT, Hl, elem_of_cons.
    destruct (decide (q = p)) as [->|]; [by left|]. rewrite lookup_insert_ne, Hq by done. by intros [? ?].
  - intros q t Hq. assert (q <> p) by congruence. exists t. rewrite HT, lookup_insert_ne by done. split_and!; auto.
    intros _. cbn. rewrite Nat.add_0_r. destruct (decide (q ∈ m_timers m')) as [Hi|Hi]; rewrite Hl, elem_of_cons in Hi;
      [rewrite decide_True|rewrite decide_False]; tauto.
Qed.

Lemma effect_cancel m p m' success :
  tm_ok m -> is_Some (timers m !! p) -> Timer_cancel m p = Ok (m', success) -> step_effect m m' (Cancelled p success).
Proof.
  intros Hok [t Ht] E. destruct (cancel_ok m p t Hok Ht) as (m2 & E' & Hok' & HT & Hl & _).
  rewrite E in E'. injection E' as <- ->. split; auto.
  - intros q. rewrite HT. destruct (decide (q = p)) as [->|]; [by rewrite lookup_insert_eq|].
    rewrite lookup_insert_ne by done. cbn. rewrite decide_False by done. done.
  - intros q Hq. cbn. assert (q <> p) by congruence. rewrite decide_False by done. split; [done|].
    rewrite HT, lookup_insert_ne, Hq by done. by intros [? ?].
  - intros q u Hq. rewrite HT. cbn. destruct (decide (q = p)) as [->|Hne].
    + rewrite lookup_insert_eq. assert (u = t) as -> by congruence. exists (clear_dg t). split_and!; auto. intros _.
      rewrite (decide_False (P := p ∈ m_timers m')) by (rewrite Hl; tauto).
      destruct (decide (p ∈ m_timers m)); [by rewrite bool_decide_true|by rewrite bool_decide_false].
    + rewrite lookup_insert_ne by done. exists u. split_and!; auto. intros _. rewrite Nat.add_0_r.
      destruct (decide (q ∈ m_timers m')) as [Hi|Hi]; rewrite Hl in Hi; [rewrite decide_True|rewrite decide_False]; tauto.
Qed.

Lemma effect_process m q now m' dgs :
  tm_ok m -> q ∉ m_timers m -> processTimers threshold m q now = Ok (m', dgs) ->
  step_effect m m' (Fired (expiring threshold m now)).
Proof.
  intros Hok Hq E. destruct (process_ok threshold m q now Hok Hq) as (m2 & E' & Hok' & HT & _).
  rewrite E in E'. injection E' as <- ->.
  assert (Hex : forall p, p ∈ expiring threshold m now -> p ∈ m_timers m).
  { intros p Hp. unfold expiring in Hp. by apply list_elem_of_filter in Hp as [_ ?]. }
  assert (Hnone : forall p, timers m !! p = None -> p ∉ expiring threshold m now).
  { intros p Hp He. apply Hex, (ok_waits m Hok) in He as (t & Ht & _). congruence. }
  split; auto.
  - intros p. rewrite HT. cbn. case_decide; [|done]. intros Hp. apply fmap_None in Hp. by apply Hnone in Hp.
  - intros p Hp. cbn. rewrite decide_False by auto. split; [done|].
    rewrite HT, decide_False, Hp by auto. by intros [? ?].
  - intros p t Hp. rewrite HT, Hp. cbn [settled_by].
    pose proof (ok_waits m' Hok' p) as Hw'. pose proof (ok_waits m Hok p) as Hw. unfold waits in Hw, Hw'.
    rewrite HT in Hw'. rewrite Hp in Hw, Hw'.
    destruct (decide (p ∈ expiring threshold m now)) as [He|He].
    + exists (fire now t). split_and!; [done|unfold fire; by destruct (m_recurring t) eqn:?|]. intros Hr.
      rewrite (decide_True (P := p ∈ m_timers m)) by auto. rewrite decide_False; [done|]. rewrite Hw'.
      cbn. unfold fire. rewrite Hr. intros (t' & [= <-] & [d Hd]). done.
    + exists t. split_and!; auto. intros _. rewrite Nat.add_0_r.
      destruct (decide (p ∈ m_timers m')) as [Hi|Hi]; rewrite Hw', <- Hw in Hi;
        [by rewrite decide_True|by rewrite decide_False].
Qed.

Lemma step_effect_ok m e m' : tm_ok m -> tm_step m e m' -> step_effect m m' e.
Proof.
  intros Hok Hst. destruct Hst as [m p us dg recurring now m' front|m p m' success|m p now m' success|m p us fromNow now m' success|m now m' r Hnow E|m q now m' dgs].
  - by eapply effect_register.
  - by eapply effect_cancel.
  - destruct H as [t Ht]. pose proof (refresh_ok m p t now Hok Ht) as R. case_bool_decide.
    + destruct R as (m2 & E & Hok' & HT & _). rewrite H0 in E. injection E as <- ->. by eapply effect_update.
    + rewrite H0 in R. injection R as -> ->. by apply effect_same.
  - destruct H as [t Ht]. pose proof (reset_ok m p t us fromNow now Hok Ht H0) as R. case_bool_decide.
    + destruct R as (m2 & f & E & Hok' & HT & _). rewrite H1 in E. injection E as <- ->.
      eapply effect_update; eauto; unfold reset_timer; by case_match.
    + rewrite H1 in R. injection R as -> ->. by apply effect_same.
  - rewrite next_ok in E by done. injection E as <- <-. apply effect_same; auto using with_tickled_ok.
  - by eapply effect_process.
Qed.

(** Over any sequence of calls a one-shot timer is settled at most once: it is called or
    successfully cancelled, never both and never twice, and as long as neither has happened it is
    still waiting in the set. *)
Theorem one_shot_once tr m p t :
  tm_run tr m -> timers m !! p = Some t -> m_recurring t = false ->
  settled p tr = if decide (p ∈ m_timers m) then 0%nat else 1%nat.
Proof.
  intros Hrun. assert (Hinv : tm_ok m /\ (forall p, timers m !! p = None -> settled p tr = 0%nat) /\
    (forall p t, timers m !! p = Some t -> m_recurring t = false ->
       settled p tr = if decide (p ∈ m_timers m) then 0%nat else 1%nat)).
  { clear p t. induction Hrun as [|tr m e m' Hrun (Hok & Hnone & Hsome) Hst].
    - split_and!; [|done|intros p t; cbn; by rewrite lookup_empty]. split; cbn; try done; [constructor|].
      intros p. split; [by intros ?%not_elem_of_nil|]. intros (t & Ht & _). by rewrite lookup_empty in Ht.
    - destruct (step_effect_ok m e m' Hok Hst) as [Hok' Hnew Hborn Hkept]. split_and!; [done| |].
      + intros p Hp. destruct (Hnew p Hp) as [Hp' E]. cbn. rewrite E, Hnone; done.
      + intros p t Hp Hr. cbn. destruct (timers m !! p) as [u|] eqn:Eu.
        * destruct (Hkept p u Eu) as (t' & Ht' & Er & Ec). assert (t' = t) as -> by congruence.
          rewrite Ec, (Hsome p u Eu) by congruence. lia.
        * destruct (Hborn p Eu) as [E Hin]. rewrite E, Hnone, decide_True by eauto. done. }
  destruct Hinv as (_ & _ & H). apply H.
Qed.

End Runs.

Lemma one_shot_witness :
  exists m, tm_run 5000000 [Fired [10]; Registered 10] m /\ settled 10 [Fired [10]; Registered 10] = 1%nat.
Proof.
  set (m1 := mkTimerManager {[10 := one_timer]} [10] (mkMutex false 1) true 0).
  set (m2 := mkTimerManager {[10 := clear_dg one_timer]} [] (mkMutex false 1) true 105).
  assert (R : tm_run 5000000 [Fired (expiring 5000000 m1 105); Registered 10] m2).
  { eapply run_step; [eapply run_step; [apply run_start|]|].
    - apply (step_register _ TimerManager_new 10 5 (Plain 1) false 100 m1 true); [done|lia|]. vm_compute. reflexivity.
    - apply (step_process _ m1 77 105 m2 [Plain 1]); [by intros ?%list_elem_of_singleton|]. vm_compute. reflexivity. }
  exists m2. split; [exact R|].
  apply (one_shot_once 5000000 [Fired (expiring 5000000 m1 105); Registered 10] m2 10 (clear_dg one_timer) R); reflexivity.
Defined.

(** The theorems about waking a thread that sleeps until the next timer, and about the mutex and the clock. *)

(** ** Waking the sleeper *)

(** At time [c] every timer was started in the past, and no sum overflows. *)
Definition steady (c : Z) (m : TimerManager) : Prop :=
  forall p t, timers m !! p = Some t -> 0 <= m_us t < 2 ^ 63 /\ 0 <= m_next t - m_us t <= c.

(** The calls other fibers make while one sleeps for the time [nextTimer] told it, with a clock that
    does not go back.  The flag: has [onTimerInsertedAtFront] been called? *)
Inductive changes (c0 : Z) (m0 : TimerManager) : bool -> Z -> TimerManager -> Prop :=
| ch_none : changes c0 m0 false c0 m0
| ch_register w c m p us dg recurring now m' front :
    changes c0 m0 w c m -> c <= now < 2 ^ 63 -> p ∉ m_timers m -> 0 <= us < 2 ^ 63 ->
    registerTimer m p us (Some dg) recurring now = Ok (m', front) -> changes c0 m0 (w || front) now m'
| ch_cancel w c m p m' success :
    changes c0 m0 w c m -> is_Some (timers m !! p) ->
    Timer_cancel m p = Ok (m', success) -> changes c0 m0 w c m'
| ch_refresh w c m p now m' success :
    changes c0 m0 w c m -> is_Some (timers m !! p) -> c <= now < 2 ^ 63 ->
    Timer_refresh m p now = Ok (m', success) -> changes c0 m0 w now m'
| ch_reset w c m p us fromNow now m' success front :
    changes c0 m0 w c m -> is_Some (timers m !! p) -> c <= now < 2 ^ 63 -> 0 <= us < 2 ^ 63 ->
    Timer_reset m p us fromNow now = Ok (m', (success, front)) -> changes c0 m0 (w || front) now m'.

Section Sleep.
Variable deadline : Z.

(** Nobody has been woken, and nothing is due before the deadline. *)
Definition quiet (w : bool) (m : TimerManager) : Prop :=
  w = true \/ forall p, p ∈ m_timers m -> deadline <= due_at (timers m) p.

Record watched (w : bool) (c : Z) (m : TimerManager) : Prop := {
  wt_ok : tm_ok m;
  wt_steady : steady c m;
  wt_tickled : m_tickled m = w;
  wt_quiet : quiet w m;
}.

Lemma steady_insert c c' m T p t :
  steady c m -> c <= c' -> T = <[p := t]> (timers m) ->
  0 <= m_us t < 2 ^ 63 -> 0 <= m_next t - m_us t <= c' ->
  forall q u, T !! q = Some u -> 0 <= m_us u < 2 ^ 63 /\ 0 <= m_next u - m_us u <= c'.
Proof.
  intros Hs Hc -> H1 H2 q u. destruct (decide (q = p)) as [->|].
  - rewrite lookup_insert_eq. by intros [= <-].
  - rewrite lookup_insert_ne by done. intros Hu. destruct (Hs q u Hu). lia.
Qed.

(** A timer that goes in anywhere but in front is not due before the first one. *)
Lemma quiet_insert w m m' p t front :
  quiet w m -> tm_ok m -> tm_ok m' -> timers m' = <[p := t]> (timers m) ->
  (forall q, q ∈ m_timers m' -> q = p \/ q ∈ m_timers m) -> p ∈ m_timers m' ->
  front = negb w && bool_decide (head (m_timers m') = Some p) -> quiet (w || front) m'.
Proof.
  intros [->|Hq] Hok Hok' HT Hin Hp ->; [by left|]. destruct w; [by left|]. cbn [orb negb andb].
  destruct (bool_decide_reflect (head (m_timers m') = Some p)) as [E|E]; [by left|right].
  destruct (head (m_timers m')) as [h|] eqn:Eh; [|destruct (m_timers m'); [by apply not_elem_of_nil in Hp|done]].
  assert (Hh : h ∈ m_timers m') by (destruct (m_timers m'); [done|injection Eh as ->; by left]).
  intros q Hq'. pose proof (head_first m' h q Hok' Eh Hq') as Hle.
  destruct (Hin h Hh) as [->|Hm]; [done|]. specialize (Hq h Hm).
  rewrite HT, (due_at_insert _ _ _ h), decide_False in Hle by congruence. rewrite HT. lia.
Qed.

(** A timer that stays where it is or goes away, or moves to a later time, disturbs nobody. *)
Lemma quiet_later w m m' p t t' :
  quiet w m -> timers m !! p = Some t -> timers m' = <[p := t']> (timers m) -> m_next t <= m_next t' ->
  (forall q, q ∈ m_timers m' -> q ∈ m_timers m) -> quiet w m'.
Proof.
  intros [->|Hq] Ht HT Hle Hin; [by left|right]. intros q Hq'. apply Hin in Hq'. specialize (Hq q Hq').
  rewrite HT, due_at_insert. case_decide; [|done]. subst. unfold due_at in Hq. rewrite Ht in Hq. cbn in Hq. lia.
Qed.

Lemma watched_register w c m p us dg recurring now m' front :
  watched w c m -> c <= now < 2 ^ 63 -> 0 <= c -> p ∉ m_timers m -> 0 <= us < 2 ^ 63 ->
  registerTimer m p us (Some dg) recurring now = Ok (m', front) -> watched (w || front) now m'.
Proof.
  intros [Hok Hst Htk Hq] Hc Hc0 Hp Hus E.
  destruct (register_ok m p us dg recurring now Hok Hp) as (m2 & f & E' & Hok' & HT & Hl & Hf & Htk'); [lia|].
  rewrite E in E'. injection E' as <- <-. split; [done| |congruence|].
  - unfold steady. eapply steady_insert; [exact Hst| |exact HT|done|cbn; rewrite u64_small by lia; lia]. lia.
  - rewrite Htk in Hf. eapply quiet_insert; eauto; [intros q; rewrite Hl; by intros []%elem_of_cons; auto|].
    rewrite Hl. by left.
Qed.

Lemma watched_cancel w c m p m' success :
  watched w c m -> is_Some (timers m !! p) -> Timer_cancel m p = Ok (m', success) -> watched w c m'.
Proof.
  intros [Hok Hst Htk Hq] [t Ht] E. destruct (cancel_ok m p t Hok Ht) as (m2 & E' & Hok' & HT & Hl & Htk' & _).
  rewrite E in E'. injection E' as <- ->. destruct (Hst p t Ht). split; [done| |congruence|].
  - unfold steady. eapply steady_insert; [exact Hst| |exact HT|done|done]. lia.
  - eapply quiet_later; eauto; [done|]. intros q. rewrite Hl. tauto.
Qed.

Lemma watched_refresh w c m p now m' success :
  watched w c m -> is_Some (timers m !! p) -> c <= now < 2 ^ 63 -> 
  Timer_refresh m p now = Ok (m', success) -> watched w now m'.
Proof.
  intros [Hok Hst Htk Hq] [t Ht] Hc E. destruct (Hst p t Ht). pose proof (refresh_ok m p t now Hok Ht) as R.
  case_bool_decide.
  - destruct R as (m2 & E' & Hok' & HT & Hl & Htk'). rewrite E in E'. injection E' as <- ->.
    split; [done| |congruence|].
    + unfold steady. eapply steady_insert; [exact Hst| |exact HT|done|cbn; rewrite u64_small by lia; lia]. lia.
    + eapply quiet_later; eauto; [cbn; rewrite u64_small by lia; lia|]. intros q. by rewrite Hl.
  - rewrite E in R. injection R as -> ->. split; auto. intros q u Hu. destruct (Hst q u Hu). lia.
Qed.

Lemma watched_reset w c m p us fromNow now m' success front :
  watched w c m -> is_Some (timers m !! p) -> c <= now < 2 ^ 63 -> 0 <= us < 2 ^ 63 ->
  Timer_reset m p us fromNow now = Ok (m', (success, front)) -> watched (w || front) now m'.
Proof.
  intros [Hok Hst Htk Hq] [t Ht] Hc Hus E. destruct (Hst p t Ht) as [Hu Hn].
  pose proof (reset_ok m p t us fromNow now Hok Ht ltac:(lia)) as R.
  case_bool_decide as Hp.
  - destruct R as (m2 & f & E' & Hok' & HT & Hl & Htk' & Hf). rewrite E in E'. injection E' as <- -> <-.
    assert (Hst' : steady now m').
    { unfold steady. eapply steady_insert; [exact Hst| |exact HT| |]; [lia|unfold reset_timer; by destruct (_ && _)|].
      unfold reset_timer. destruct (_ && _); [lia|]. cbn.
      destruct fromNow; [|rewrite (u64_small (m_next t - m_us t)) by lia]; rewrite u64_small by lia; lia. }
    split; [done|done|congruence|]. destruct ((us =? m_us t) && negb fromNow) eqn:Eb.
    + unfold Timer_reset in E. erewrite lock_guard_ok in E; [|done|cbn [timers with_mutex]; unfold timer_at; rewrite Ht; step].
      2:{ destruct (m_dg t) as [d|] eqn:Ed; [rewrite Eb; done|]. exfalso.
          exact (not_waiting m p t Hok Ht Ed Hp). }
      injection E as E <-. rewrite orb_false_r. eapply quiet_later; eauto.
      * unfold reset_timer. rewrite Eb. done.
      * intros q. by rewrite Hl.
    + rewrite Htk in Hf. eapply quiet_insert; eauto; [|by rewrite Hl]. intros q. rewrite Hl. auto.
  - rewrite E in R. injection R as -> -> ->. rewrite orb_false_r. split; auto.
    intros q u Hu'. destruct (Hst q u Hu'). lia.
Qed.

Lemma changes_watched c0 m0 w c m :
  watched false c0 m0 -> 0 <= c0 -> changes c0 m0 w c m -> watched w c m /\ c0 <= c.
Proof.
  intros Hw Hc0. induction 1 as [|w c m p us dg recurring now m' front _ [IH Hc]|w c m p m' success _ [IH Hc]
    |w c m p now m' success _ [IH Hc]|w c m p us fromNow now m' success front _ [IH Hc]]; (split; [|lia]); auto.
  - eapply watched_register; eauto. lia.
  - by eapply watched_cancel.
  - by eapply watched_refresh.
  - by eapply watched_reset.
Qed.

End Sleep.

(** No lost wake-up: between a [nextTimer] that told a fiber to sleep for [r] and its waking
    up, whatever timers others register, cancel, refresh or reset, either [onTimerInsertedAtFront] has
    been called or no timer is due before the time it sleeps until. *)
Theorem no_lost_wakeup c m m0 r woken c' m' :
  tm_ok m -> steady c m -> 0 <= c < 2 ^ 63 -> nextTimer m c = Ok (m0, r) -> 0 < r ->
  changes c m0 woken c' m' ->
  woken = true \/ forall p, p ∈ m_timers m' -> c + r <= due_at (timers m') p.
Proof.
  intros Hok Hst Hc E Hr Hch. rewrite next_ok in E by (auto; lia). injection E as <- <-.
  assert (Hw : watched (c + match m_timers m with [] => npos | p :: _ => Z.max 0 (due_at (timers m) p - c) end)
    false c (with_tickled m false)).
  { split; auto using with_tickled_ok. right. cbn. intros p Hp. destruct (m_timers m) as [|h l] eqn:El.
    - by apply not_elem_of_nil in Hp.
    - pose proof (head_first m h p Hok) as Hh. rewrite El in Hh. specialize (Hh eq_refl Hp). lia. }
  destruct (changes_watched _ _ _ _ _ _ Hw (proj1 Hc) Hch) as [[_ _ _ Hq] _]. exact Hq.
Qed.

Lemma no_lost_wakeup_witness :
  exists m0 m', nextTimer one_manager 101 = Ok (m0, 4) /\
    changes 101 m0 true 102 m' /\
    (true = true \/ forall p, p ∈ m_timers m' -> 101 + 4 <= due_at (timers m') p).
Proof.
  set (m' := mkTimerManager {[10 := one_timer; 11 := mkTimer false 103 1 (Some (Plain 2))]} [11; 10] (mkMutex false 1) true 100).
  assert (N : nextTimer one_manager 101 = Ok (with_tickled one_manager false, 4)) by (vm_compute; reflexivity).
  assert (C : changes 101 (with_tickled one_manager false) true 102 m').
  { apply (ch_register _ _ false 101 (with_tickled one_manager false) 11 1 (Plain 2) false 102 m' true); [constructor|lia| |lia|].
    - by intros ?%list_elem_of_singleton.
    - vm_compute. reflexivity. }
  exists (with_tickled one_manager false), m'. split; [exact N|]. split; [exact C|].
  apply (no_lost_wakeup 101 one_manager (with_tickled one_manager false) 4 true 102 m'); auto using one_manager_ok; try lia.
  intros p t Ht. apply (lookup_singleton_Some 10 p one_timer t) in Ht as [_ <-]. cbn. lia.
Defined.

(** ** Where the code departs from what it says *)

(** RegisterTimer unlocks the mutex itself and leaves the scope of a [lock_guard] that unlocks it
    again: each call makes one call of [unlock] on a mutex nobody holds, which the language leaves
    undefined and which takes the lock away from another thread that has it by then. *)
Theorem registerTimer_unlocks_twice m p us dg recurring now m' front :
  held (m_mutex m) = false -> registerTimer m p us dg recurring now = Ok (m', front) ->
  stray_unlocks (m_mutex m') = S (stray_unlocks (m_mutex m)).
Proof.
  intros Hf E. unfold registerTimer, Timer_new, lock_guard, lock in E. rewrite Hf in E.
  destruct (bool_decide (is_Some dg)); [|done]. cbn [mbind result_bind ASSERT] in E. unfold insert_and_tickle in E.
  destruct (set_insert _ _ _) as [l it]. injection E as <- _. cbn.
  destruct (Nat.eqb it 0 && negb (m_tickled m)); done.
Qed.

Lemma unlocks_twice_witness :
  exists m' front, registerTimer TimerManager_new 10 5 (Some (Plain 1)) false 100 = Ok (m', front) /\
    stray_unlocks (m_mutex m') = 1%nat.
Proof.
  exists (mkTimerManager {[10 := one_timer]} [10] (mkMutex false 1) true 0), true.
  assert (E : registerTimer TimerManager_new 10 5 (Some (Plain 1)) false 100 =
    Ok (mkTimerManager {[10 := one_timer]} [10] (mkMutex false 1) true 0, true)) by (vm_compute; reflexivity).
  split; [exact E|]. exact (registerTimer_unlocks_twice TimerManager_new 10 5 (Some (Plain 1)) false 100 _ _ eq_refl E).
Defined.

(** DetectClockRollover: the clock is taken to have rolled back when it went back by more than
    the threshold, not "by >= this amount"; and while the clock is still below the threshold the
    subtraction wraps, so that the smallest step back expires every timer. *)
Theorem rollover_threshold threshold m now :
  0 <= threshold <= 2 ^ 63 -> 0 <= now < 2 ^ 63 -> 0 <= m_previousTime m < 2 ^ 63 ->
  snd (detectClockRollover threshold m now) = true <->
  (if threshold <=? m_previousTime m then threshold < m_previousTime m - now else now < m_previousTime m).
Proof.
  intros Ht Hn Hp. unfold detectClockRollover. cbn [snd]. rewrite andb_true_iff, !Z.ltb_lt.
  destruct (Z.leb_spec threshold (m_previousTime m)).
  - rewrite u64_small by lia. lia.
  - replace (u64 (m_previousTime m - threshold)) with (m_previousTime m - threshold + 2 ^ 64); [lia|].
    apply (Z.mod_unique _ _ (-1)); lia.
Qed.

Lemma rollover_witness : snd (detectClockRollover 5000000 one_manager 99) = true.
Proof. apply (rollover_threshold 5000000 one_manager 99); cbn; lia. Defined.
