(* ===== verification/FiberSync.v ===== *)
(** [fibersynchronization.h] and [fibersynchronization.cpp]: the critical sections of the mutexes, the semaphore, the condition and the event.  A
    method that yields is two sections; scheduling a fiber is part of the result. *)

From stdpp Require Import numbers list_numbers list.
From S2P Require Import Prelude.

(** A fiber and a scheduler are known by their addresses; [Scheduler::getThis()] may be null. *)
Definition fiber : Type := positive.
Definition scheduler : Type := positive.
Definition waiter : Type := scheduler * fiber.

(** Who calls: [Scheduler::getThis()] and [Fiber::getThis()]. *)
Record caller := mkCaller { this_scheduler : option scheduler; this_fiber : fiber }.

(** A critical section under the internal [std::mutex] either returns or, having queued the
    fiber, goes on to [Scheduler::yieldTo()]. *)
Inductive outcome := Returns | Yields.

#[global] Instance outcome_eq_dec : EqDecision outcome.
Proof. solve_decision. Defined.

(** [MORDOR_ASSERT(Scheduler::getThis())] *)
Definition with_scheduler {A} (c : caller) (k : scheduler -> result A) : result A :=
  match this_scheduler c with Some s => k s | None => Err Assertion end.

(** [std::find(waiters.begin(), waiters.end(), w) == waiters.end()] *)
Definition not_queued (w : waiter) (l : list waiter) : bool := bool_decide (w ∉ l).

(** ** [FiberMutex] *)

Record FiberMutex := mkFiberMutex {
  fm_owner : option fiber;
  fm_waiters : list waiter;
}.

Definition FiberMutex_new : FiberMutex := mkFiberMutex None [].

Definition FiberMutex_destroy (m : FiberMutex) : result unit :=
  assert: bool_decide (fm_owner m = None) ;;
  assert: bool_decide (fm_waiters m = []) ;;
  Ok tt.

(** [lock], up to [yieldTo]. *)
Definition FiberMutex_lock (c : caller) (m : FiberMutex) : result (FiberMutex * outcome) :=
  with_scheduler c (fun s =>
    assert: bool_decide (fm_owner m <> Some (this_fiber c)) ;;
    assert: not_queued (s, this_fiber c) (fm_waiters m) ;;
    match fm_owner m with
    | None => Ok (mkFiberMutex (Some (this_fiber c)) (fm_waiters m), Returns)
    | Some _ => Ok (mkFiberMutex (fm_owner m) (fm_waiters m ++ [(s, this_fiber c)]), Yields)
    end).

(** [lock], after [yieldTo]. *)
Definition FiberMutex_lock_resumed (c : caller) (m : FiberMutex) : result unit :=
  with_scheduler c (fun s =>
    assert: bool_decide (fm_owner m = Some (this_fiber c)) ;;
    assert: not_queued (s, this_fiber c) (fm_waiters m) ;;
    Ok tt).

(** [unlockNoLock]: the mutex and the fibers that are scheduled. *)
Definition FiberMutex_unlockNoLock (c : caller) (m : FiberMutex) : result (FiberMutex * list waiter) :=
  assert: bool_decide (fm_owner m = Some (this_fiber c)) ;;
  match fm_waiters m with
  | [] => Ok (mkFiberMutex None [], [])
  | next :: rest => Ok (mkFiberMutex (Some (snd next)) rest, [next])
  end.

Definition FiberMutex_unlock (c : caller) (m : FiberMutex) : result (FiberMutex * list waiter) :=
  FiberMutex_unlockNoLock c m.

Definition FiberMutex_unlockIfNotUnique (c : caller) (m : FiberMutex)
    : result (FiberMutex * list waiter * bool) :=
  assert: bool_decide (fm_owner m = Some (this_fiber c)) ;;
  match fm_waiters m with
  | [] => Ok (m, [], false)
  | _ :: _ => '(m', woken) ← FiberMutex_unlockNoLock c m; Ok (m', woken, true)
  end.

(** ** [RecursiveFiberMutex] *)

Record RecursiveFiberMutex := mkRecursiveFiberMutex {
  rm_owner : option fiber;
  rm_waiters : list waiter;
  rm_recursion : Z;     (* unsigned *)
}.

Definition RecursiveFiberMutex_new : RecursiveFiberMutex := mkRecursiveFiberMutex None [] 0.

Definition RecursiveFiberMutex_destroy (m : RecursiveFiberMutex) : result unit :=
  assert: bool_decide (rm_owner m = None) ;;
  assert: rm_recursion m =? 0 ;;
  assert: bool_decide (rm_waiters m = []) ;;
  Ok tt.

Definition RecursiveFiberMutex_lock (c : caller) (m : RecursiveFiberMutex)
    : result (RecursiveFiberMutex * outcome) :=
  with_scheduler c (fun s =>
    if bool_decide (rm_owner m = Some (this_fiber c)) then
      Ok (mkRecursiveFiberMutex (rm_owner m) (rm_waiters m) (u32 (rm_recursion m + 1)), Returns)
    else
      assert: not_queued (s, this_fiber c) (rm_waiters m) ;;
      match rm_owner m with
      | None => Ok (mkRecursiveFiberMutex (Some (this_fiber c)) (rm_waiters m) 1, Returns)
      | Some _ =>
          Ok (mkRecursiveFiberMutex (rm_owner m) (rm_waiters m ++ [(s, this_fiber c)]) (rm_recursion m), Yields)
      end).

Definition RecursiveFiberMutex_lock_resumed (c : caller) (m : RecursiveFiberMutex) : result unit :=
  with_scheduler c (fun s =>
    assert: bool_decide (rm_owner m = Some (this_fiber c)) ;;
    assert: not_queued (s, this_fiber c) (rm_waiters m) ;;
    Ok tt).

Definition RecursiveFiberMutex_unlockNoLock (c : caller) (m : RecursiveFiberMutex)
    : result (RecursiveFiberMutex * list waiter) :=
  assert: bool_decide (rm_owner m = Some (this_fiber c)) ;;
  match rm_waiters m with
  | [] => Ok (mkRecursiveFiberMutex None [] (rm_recursion m), [])
  | next :: rest => Ok (mkRecursiveFiberMutex (Some (snd next)) rest 1, [next])
  end.

(** [if (--m_recursion == 0) unlockNoLock();] *)
Definition leave (c : caller) (m : RecursiveFiberMutex) : result (RecursiveFiberMutex * list waiter) :=
  assert: 0 <? rm_recursion m ;;
  let m' := mkRecursiveFiberMutex (rm_owner m) (rm_waiters m) (u32 (rm_recursion m - 1)) in
  if rm_recursion m' =? 0 then RecursiveFiberMutex_unlockNoLock c m' else Ok (m', []).

Definition RecursiveFiberMutex_unlock (c : caller) (m : RecursiveFiberMutex)
    : result (RecursiveFiberMutex * list waiter) := leave c m.

Definition RecursiveFiberMutex_unlockIfNotUnique (c : caller) (m : RecursiveFiberMutex)
    : result (RecursiveFiberMutex * list waiter * bool) :=
  assert: bool_decide (rm_owner m = Some (this_fiber c)) ;;
  match rm_waiters m with
  | [] => Ok (m, [], false)
  | _ :: _ => '(m', woken) ← leave c m; Ok (m', woken, true)
  end.

(** ** [ScopedLockImpl<Mutex>] *)

(** What [ScopedLockImpl] asks of its argument. *)
Class Mutex (M : Type) := {
  mutex_lock : caller -> M -> result (M * outcome);
  mutex_unlock : caller -> M -> result (M * list waiter);
  mutex_unlockIfNotUnique : caller -> M -> result (M * list waiter * bool);
}.

#[global] Instance FiberMutex_Mutex : Mutex FiberMutex := {
  mutex_lock := FiberMutex_lock;
  mutex_unlock := FiberMutex_unlock;
  mutex_unlockIfNotUnique := FiberMutex_unlockIfNotUnique;
}.

#[global] Instance RecursiveFiberMutex_Mutex : Mutex RecursiveFiberMutex := {
  mutex_lock := RecursiveFiberMutex_lock;
  mutex_unlock := RecursiveFiberMutex_unlock;
  mutex_unlockIfNotUnique := RecursiveFiberMutex_unlockIfNotUnique;
}.

Section ScopedLock.
Context {M : Type} `{!Mutex M}.

(** The guard is [m_locked]; the mutex is shared. *)
Definition ScopedLock_new (c : caller) (m : M) : result (M * outcome * bool) :=
  '(m', o) ← mutex_lock c m; Ok (m', o, true).

Definition ScopedLock_lock (c : caller) (m_locked : bool) (m : M) : result (M * outcome * bool) :=
  if m_locked then Ok (m, Returns, true)
  else '(m', o) ← mutex_lock c m; Ok (m', o, true).

Definition ScopedLock_unlock (c : caller) (m_locked : bool) (m : M) : result (M * list waiter * bool) :=
  if m_locked then '(m', woken) ← mutex_unlock c m; Ok (m', woken, false)
  else Ok (m, [], false).

Definition ScopedLock_destroy (c : caller) (m_locked : bool) (m : M) : result (M * list waiter) :=
  '(m', woken, _) ← ScopedLock_unlock c m_locked m; Ok (m', woken).

Definition ScopedLock_unlockIfNotUnique (c : caller) (m_locked : bool) (m : M)
    : result (M * list waiter * bool * bool) :=
  if m_locked then
    '(m', woken, released) ← mutex_unlockIfNotUnique c m;
    if released : bool then Ok (m', woken, false, true) else Ok (m', woken, true, false)
  else Ok (m, [], false, true).

End ScopedLock.

(** ** [FiberSemaphore] *)

Record FiberSemaphore := mkFiberSemaphore {
  fs_waiters : list waiter;
  fs_concurrency : Z;     (* size_t *)
}.

Definition FiberSemaphore_new (initialConcurrency : Z) : FiberSemaphore :=
  mkFiberSemaphore [] initialConcurrency.

Definition FiberSemaphore_destroy (m : FiberSemaphore) : result unit :=
  assert: bool_decide (fs_waiters m = []) ;; Ok tt.

Definition FiberSemaphore_wait (c : caller) (m : FiberSemaphore) : result (FiberSemaphore * outcome) :=
  with_scheduler c (fun s =>
    assert: not_queued (s, this_fiber c) (fs_waiters m) ;;
    if 0 <? fs_concurrency m then
      Ok (mkFiberSemaphore (fs_waiters m) (u64 (fs_concurrency m - 1)), Returns)
    else Ok (mkFiberSemaphore (fs_waiters m ++ [(s, this_fiber c)]) (fs_concurrency m), Yields)).

Definition FiberSemaphore_wait_resumed (c : caller) (m : FiberSemaphore) : result unit :=
  with_scheduler c (fun s =>
    assert: not_queued (s, this_fiber c) (fs_waiters m) ;; Ok tt).

Definition FiberSemaphore_notify (m : FiberSemaphore) : FiberSemaphore * list waiter :=
  match fs_waiters m with
  | next :: rest => (mkFiberSemaphore rest (fs_concurrency m), [next])
  | [] => (mkFiberSemaphore [] (u64 (fs_concurrency m + 1)), [])
  end.

(** ** [FiberCondition] *)

(** The condition's own state is its queue; the mutex is shared. *)
Definition FiberCondition_destroy (waiters : list waiter) : result unit :=
  assert: bool_decide (waiters = []) ;; Ok tt.

(** [wait], up to [yieldTo]: the queue, the mutex, who is scheduled. *)
Definition FiberCondition_wait (c : caller) (waiters : list waiter) (m : FiberMutex)
    : result (list waiter * FiberMutex * list waiter) :=
  with_scheduler c (fun s =>
    assert: bool_decide (fm_owner m = Some (this_fiber c)) ;;
    '(m', woken) ← FiberMutex_unlockNoLock c m;
    Ok (waiters ++ [(s, this_fiber c)], m', woken)).

(** [wait], after [yieldTo]. *)
Definition FiberCondition_wait_resumed (c : caller) (m : FiberMutex) : result unit :=
  assert: bool_decide (fm_owner m = Some (this_fiber c)) ;; Ok tt.

(** [signal] takes the two internal mutexes one after the other: first [next] leaves the queue, *)
Definition FiberCondition_signal_pop (waiters : list waiter) : list waiter * option waiter :=
  match waiters with
  | [] => ([], None)
  | next :: rest => (rest, Some next)
  end.

(** then it gets the mutex, or a place in the mutex's queue. *)
Definition FiberCondition_grant (next : waiter) (m : FiberMutex) : result (FiberMutex * list waiter) :=
  assert: bool_decide (fm_owner m <> Some (snd next)) ;;
  assert: not_queued next (fm_waiters m) ;;
  match fm_owner m with
  | None => Ok (mkFiberMutex (Some (snd next)) (fm_waiters m), [next])
  | Some _ => Ok (mkFiberMutex (fm_owner m) (fm_waiters m ++ [next]), [])
  end.

(** [broadcast] holds both internal mutexes throughout. *)
Fixpoint FiberCondition_broadcast (waiters : list waiter) (m : FiberMutex)
    : result (FiberMutex * list waiter) :=
  match waiters with
  | [] => Ok (m, [])
  | next :: rest =>
      '(m1, woken1) ← FiberCondition_grant next m;
      '(m2, woken2) ← FiberCondition_broadcast rest m1;
      Ok (m2, woken1 ++ woken2)
  end.

(** ** [FiberEvent] *)

Record FiberEvent := mkFiberEvent {
  fe_signalled : bool;
  fe_autoReset : bool;
  fe_waiters : list waiter;
}.

Definition FiberEvent_new (autoReset : bool) : FiberEvent := mkFiberEvent false autoReset [].

Definition FiberEvent_destroy (e : FiberEvent) : result unit :=
  assert: bool_decide (fe_waiters e = []) ;; Ok tt.

(** There is no assertion on the scheduler here; [Scheduler::yieldTo] makes it. *)
Definition FiberEvent_wait (c : caller) (e : FiberEvent) : result (FiberEvent * outcome) :=
  if fe_signalled e then
    Ok (mkFiberEvent (if fe_autoReset e then false else true) (fe_autoReset e) (fe_waiters e), Returns)
  else
    match this_scheduler c with
    | Some s => Ok (mkFiberEvent false (fe_autoReset e) (fe_waiters e ++ [(s, this_fiber c)]), Yields)
    | None => Err Assertion
    end.

Definition FiberEvent_set (e : FiberEvent) : FiberEvent * list waiter :=
  if fe_autoReset e then
    match fe_waiters e with
    | [] => (mkFiberEvent true true [], [])
    | runnable :: rest => (mkFiberEvent (fe_signalled e) true rest, [runnable])
    end
  else (mkFiberEvent true false [], fe_waiters e).

Definition FiberEvent_reset (e : FiberEvent) : FiberEvent :=
  mkFiberEvent false (fe_autoReset e) (fe_waiters e).
