(* ===== verification/FiberWorld.v ===== *)
(** Fibers that use a [FiberMutex] and a [FiberCondition] in any order: where each fiber is, and the steps that can be taken. *)

From stdpp Require Import functions numbers list_numbers list.
From S2P Require Import Prelude FiberSync.

(** ** Fibers that share a mutex and a condition *)

(** Where a fiber is in its calls. *)
Inductive pc :=
| Run                            (* outside, or between calls *)
| InLock                         (* in [FiberMutex::lock], past the queueing *)
| InCond                         (* in [FiberCondition::wait], past the queueing *)
| Signalling (next : waiter).    (* in [FiberCondition::signal], between its two sections *)

Definition running (p : pc) : bool :=
  match p with Run | Signalling _ => true | InLock | InCond => false end.

(** The shared state, the fibers, the scheduler's queue, and three histories: the fibers that have
    got the mutex and not given it back, those that were queued at the mutex, and those
    that were taken from that queue. *)
Record world := mkWorld {
  mtx : FiberMutex;
  cond : list waiter;
  pcs : fiber -> pc;
  ready : list waiter;
  inside : list fiber;
  entered : list waiter;
  handed : list waiter;
}.

Definition world_new : world := mkWorld FiberMutex_new [] (fun _ => Run) [] [] [] [].

(** Who was appended to a queue. *)
Definition newly (old new : list waiter) : list waiter := drop (length old) new.

Definition remove_fiber (f : fiber) (l : list fiber) : list fiber := filter (fun g => g <> f) l.
Definition remove_ready (f : fiber) (l : list waiter) : list waiter := filter (fun w => snd w <> f) l.

Definition at_scheduler (s : scheduler) (f : fiber) : caller := mkCaller (Some s) f.

(** One critical section of one fiber.  The clients keep the preconditions the header states: [lock]
    by a fiber that does not own the mutex, [unlock] and [wait] by its owner. *)
Inductive fm_step : world -> world -> Prop :=
| st_lock w s f m' o :
    pcs w f = Run -> fm_owner (mtx w) <> Some f ->
    FiberMutex_lock (at_scheduler s f) (mtx w) = Ok (m', o) ->
    fm_step w (mkWorld m' (cond w) (if decide (o = Returns) then pcs w else <[f := InLock]> (pcs w)) (ready w)
      (if decide (o = Returns) then f :: inside w else inside w)
      (entered w ++ newly (fm_waiters (mtx w)) (fm_waiters m')) (handed w))
| st_lock_resumed w s f :
    pcs w f = InLock -> (s, f) ∈ ready w ->
    FiberMutex_lock_resumed (at_scheduler s f) (mtx w) = Ok tt ->
    fm_step w (mkWorld (mtx w) (cond w) (<[f := Run]> (pcs w)) (remove_ready f (ready w))
      (f :: inside w) (entered w) (handed w))
| st_unlock w s f m' woken :
    pcs w f = Run -> fm_owner (mtx w) = Some f ->
    FiberMutex_unlock (at_scheduler s f) (mtx w) = Ok (m', woken) ->
    fm_step w (mkWorld m' (cond w) (pcs w) (ready w ++ woken) (remove_fiber f (inside w))
      (entered w) (handed w ++ woken))
| st_unlockIfNotUnique w s f m' woken released :
    pcs w f = Run -> fm_owner (mtx w) = Some f ->
    FiberMutex_unlockIfNotUnique (at_scheduler s f) (mtx w) = Ok (m', woken, released) ->
    fm_step w (mkWorld m' (cond w) (pcs w) (ready w ++ woken)
      (if released then remove_fiber f (inside w) else inside w) (entered w) (handed w ++ woken))
| st_wait w s f cond' m' woken :
    pcs w f = Run -> fm_owner (mtx w) = Some f ->
    FiberCondition_wait (at_scheduler s f) (cond w) (mtx w) = Ok (cond', m', woken) ->
    fm_step w (mkWorld m' cond' (<[f := InCond]> (pcs w)) (ready w ++ woken) (remove_fiber f (inside w))
      (entered w) (handed w ++ woken))
| st_wait_resumed w s f :
    pcs w f = InCond -> (s, f) ∈ ready w ->
    FiberCondition_wait_resumed (at_scheduler s f) (mtx w) = Ok tt ->
    fm_step w (mkWorld (mtx w) (cond w) (<[f := Run]> (pcs w)) (remove_ready f (ready w))
      (f :: inside w) (entered w) (handed w))
| st_signal_pop w f cond' next :
    pcs w f = Run -> FiberCondition_signal_pop (cond w) = (cond', next) ->
    fm_step w (mkWorld (mtx w) cond'
      (match next with Some n => <[f := Signalling n]> (pcs w) | None => pcs w end)
      (ready w) (inside w) (entered w) (handed w))
| st_signal_grant w f next m' woken :
    pcs w f = Signalling next -> FiberCondition_grant next (mtx w) = Ok (m', woken) ->
    fm_step w (mkWorld m' (cond w) (<[f := Run]> (pcs w)) (ready w ++ woken) (inside w)
      (entered w ++ newly (fm_waiters (mtx w)) (fm_waiters m')) (handed w))
| st_broadcast w f m' woken :
    pcs w f = Run -> FiberCondition_broadcast (cond w) (mtx w) = Ok (m', woken) ->
    fm_step w (mkWorld m' [] (pcs w) (ready w ++ woken) (inside w)
      (entered w ++ newly (fm_waiters (mtx w)) (fm_waiters m')) (handed w)).

Inductive reachable : world -> Prop :=
| reach_new : reachable world_new
| reach_step w w' : reachable w -> fm_step w w' -> reachable w'.

(** ** Where a fiber waits *)

Inductive place := Free | MutexQ | CondQ | InFlight | Ready.

#[global] Instance place_eq_dec : EqDecision place.
Proof. solve_decision. Defined.

Notation fibers l := (snd <$> l : list fiber).

(** A queue holds exactly the fibers at a place, each once. *)
Definition holds (l : list waiter) (pl : fiber -> place) (p : place) : Prop :=
  NoDup (fibers l) /\ forall f, f ∈ fibers l <-> pl f = p.

Record core (m : FiberMutex) (rdy : list waiter) (pl : fiber -> place) : Prop := {
  co_queue : holds (fm_waiters m) pl MutexQ;
  co_ready : holds rdy pl Ready;
  co_ready_owner : forall f, pl f = Ready -> fm_owner m = Some f;
  co_owner : forall f, fm_owner m = Some f -> pl f = Free \/ pl f = Ready;
  co_none : fm_owner m = None -> fm_waiters m = [];
}.

Lemma holds_nil pl p : (forall f, pl f <> p) -> holds [] pl p.
Proof. intros H. split; [apply NoDup_nil_2|]. intros f. split; [by intros ?%not_elem_of_nil|]. intros Hf. by apply H in Hf. Qed.

Lemma holds_snoc l pl p f s :
  holds l pl p -> pl f <> p -> holds (l ++ [(s, f)]) (<[f := p]> pl) p.
Proof.
  intros [Hd Hl] Hf. split.
  - rewrite fmap_app. apply NoDup_app. split_and!; [done| |apply NoDup_singleton].
    intros g Hg Hg'. apply Hl in Hg. apply list_elem_of_singleton in Hg'. cbn in Hg'. congruence.
  - intros g. rewrite fmap_app, elem_of_app, Hl. cbn. rewrite list_elem_of_singleton.
    destruct (decide (g = f)) as [->|]; [rewrite fn_lookup_insert; tauto|].
    rewrite fn_lookup_insert_ne by done. tauto.
Qed.

Lemma holds_tail s f l pl p q :
  holds ((s, f) :: l) pl p -> q <> p -> holds l (<[f := q]> pl) p.
Proof.
  intros [Hd Hl] Hq. cbn in Hd. apply NoDup_cons in Hd as [Hf Hd]. split; [done|]. intros g.
  specialize (Hl g). cbn in Hl. rewrite elem_of_cons in Hl. destruct (decide (g = f)) as [->|].
  - rewrite fn_lookup_insert. split; [done|congruence].
  - rewrite fn_lookup_insert_ne by done. tauto.
Qed.

Lemma holds_other l pl p f q : holds l pl p -> pl f <> p -> q <> p -> holds l (<[f := q]> pl) p.
Proof.
  intros [Hd Hl] Hf Hq. split; [done|]. intros g. rewrite Hl. destruct (decide (g = f)) as [->|].
  - rewrite fn_lookup_insert. split; congruence.
  - by rewrite fn_lookup_insert_ne.
Qed.

Lemma holds_remove l pl f :
  holds l pl Ready -> holds (remove_ready f l) (<[f := Free]> pl) Ready.
Proof.
  intros [Hd Hl]. unfold remove_ready. split.
  - clear Hl. induction l as [|[s g] l IH]; [constructor|]. cbn in Hd. apply NoDup_cons in Hd as [Hg Hd].
    rewrite filter_cons. destruct (decide _); [|by apply IH]. cbn. constructor; [|by apply IH].
    intros Hin. apply Hg. apply list_elem_of_fmap in Hin as (w & -> & Hw). apply list_elem_of_filter in Hw as [_ Hw].
    apply list_elem_of_fmap. eauto.
  - intros g. specialize (Hl g). destruct (decide (g = f)) as [->|].
    + rewrite fn_lookup_insert. split; [|done]. intros Hin.
      apply list_elem_of_fmap in Hin as (w & -> & Hw). by apply list_elem_of_filter in Hw as [? _].
    + rewrite fn_lookup_insert_ne, <- Hl by done. rewrite !list_elem_of_fmap. split.
      * intros (w & -> & Hw). apply list_elem_of_filter in Hw as [_ Hw]. eauto.
      * intros (w & -> & Hw). exists w. split; [done|]. by apply list_elem_of_filter.
Qed.

Lemma not_queued_other s f l pl : holds l pl MutexQ -> pl f <> MutexQ -> not_queued (s, f) l = true.
Proof.
  intros [_ Hl] Hf. apply bool_decide_true. intros Hin. apply Hf, Hl, list_elem_of_fmap. by exists (s, f).
Qed.

(** ** The operations on the mutex *)

Lemma core_free m rdy pl f : core m rdy pl -> fm_owner m = Some f -> pl f = Free -> rdy = [].
Proof.
  intros [_ [_ Hr] Hro _ _] Ho Hf. destruct rdy as [|[s g] l]; [done|]. exfalso.
  assert (Hg : pl g = Ready) by (apply Hr; by left). apply Hro in Hg as Hg'. congruence.
Qed.

Lemma core_lock m rdy pl s f :
  core m rdy pl -> pl f = Free -> fm_owner m <> Some f ->
  exists m' o, FiberMutex_lock (at_scheduler s f) m = Ok (m', o) /\
    if decide (o = Returns)
    then fm_owner m = None /\ m' = mkFiberMutex (Some f) (fm_waiters m) /\ core m' rdy pl
    else m' = mkFiberMutex (fm_owner m) (fm_waiters m ++ [(s, f)]) /\ core m' rdy (<[f := MutexQ]> pl).
Proof.
  intros C Hf Ho. pose proof C as [Hq Hr Hro How Hn]. unfold FiberMutex_lock, with_scheduler. cbn [this_scheduler this_fiber at_scheduler].
  rewrite bool_decide_true by done. step. rewrite (not_queued_other s f _ pl) by (auto; congruence). step.
  destruct (fm_owner m) as [g|] eqn:Eo.
  - exists (mkFiberMutex (Some g) (fm_waiters m ++ [(s, f)])), Yields. split; [done|]. rewrite decide_False by done.
    split; [done|]. assert (g <> f) by congruence. split; cbn.
    + apply holds_snoc; [done|congruence].
    + apply holds_other; [done|congruence|done].
    + intros h. destruct (decide (h = f)) as [->|]; [by rewrite fn_lookup_insert|].
      rewrite fn_lookup_insert_ne by done. intros Hh. specialize (Hro h Hh). congruence.
    + intros h [= <-]. rewrite fn_lookup_insert_ne by done. by apply How.
    + done.
  - exists (mkFiberMutex (Some f) (fm_waiters m)), Returns. split; [done|]. rewrite decide_True by done.
    split_and!; [done..|]. split; cbn; auto; [|intros h [= <-]; auto].
    intros h Hh. specialize (Hro h Hh). congruence.
Qed.

(** Giving the mutex to the first in the queue. *)
Definition hand_over (m : FiberMutex) (pl : fiber -> place) : fiber -> place :=
  match fm_waiters m with [] => pl | next :: _ => <[snd next := Ready]> pl end.

Lemma core_unlock m rdy pl s f :
  core m rdy pl -> pl f = Free -> fm_owner m = Some f ->
  exists m' woken, FiberMutex_unlockNoLock (at_scheduler s f) m = Ok (m', woken) /\
    core m' (rdy ++ woken) (hand_over m pl) /\ fm_waiters m = woken ++ fm_waiters m' /\
    fm_owner m' <> Some f.
Proof.
  intros C Hf Ho. pose proof (core_free _ _ _ _ C Ho Hf) as ->. pose proof C as [Hq Hr Hro How Hn].
  unfold FiberMutex_unlockNoLock, hand_over. cbn [this_fiber at_scheduler]. rewrite bool_decide_true by done. step.
  assert (Hnr : forall h, pl h <> Ready) by (intros h Hh; specialize (Hro h Hh); congruence).
  destruct (fm_waiters m) as [|[s' g] rest] eqn:Ew.
  - exists (mkFiberMutex None []), []. split_and!; [done| |done..]. split; cbn; auto; [|done].
    intros h Hh. by apply Hnr in Hh.
  - exists (mkFiberMutex (Some g) rest), [(s', g)].
    assert (Hg : pl g = MutexQ) by (apply Hq; by left). cbn. split_and!; [done| |done|congruence]. split; cbn.
    + by eapply holds_tail.
    + apply (holds_snoc [] pl Ready g s'); [done|congruence].
    + intros h. destruct (decide (h = g)) as [->|]; [done|]. rewrite fn_lookup_insert_ne by done. intros Hh. by apply Hnr in Hh.
    + intros h [= <-]. rewrite fn_lookup_insert. by right.
    + done.
Qed.

Lemma core_resume m rdy pl s f :
  core m rdy pl -> (s, f) ∈ rdy -> core m (remove_ready f rdy) (<[f := Free]> pl) /\ fm_owner m = Some f /\ pl f = Ready.
Proof.
  intros [Hq Hr Hro How Hn] Hin.
  assert (Hf : pl f = Ready) by (apply Hr, list_elem_of_fmap; by exists (s, f)).
  pose proof (Hro f Hf) as Ho. split_and!; auto. split; auto.
  - apply holds_other; [done|congruence|done].
  - by apply holds_remove.
  - intros h. destruct (decide (h = f)) as [->|]; [by rewrite fn_lookup_insert|]. rewrite fn_lookup_insert_ne by done. auto.
  - intros h Hh. assert (h = f) as -> by congruence. rewrite fn_lookup_insert. by left.
Qed.

Lemma core_grant m rdy pl s f :
  core m rdy pl -> pl f = CondQ \/ pl f = InFlight ->
  exists m' woken q, FiberCondition_grant (s, f) m = Ok (m', woken) /\ (q = MutexQ \/ q = Ready) /\
    core m' (rdy ++ woken) (<[f := q]> pl) /\
    (fm_owner m = None -> fm_owner m' = Some f) /\ (forall h, fm_owner m = Some h -> fm_owner m' = Some h) /\
    exists added, fm_waiters m' = fm_waiters m ++ added.
Proof.
  intros [Hq Hr Hro How Hn] Hf.
  assert (Hno : fm_owner m <> Some f) by (intros H; apply How in H; destruct Hf, H; congruence).
  assert (Hnq : pl f <> MutexQ) by (destruct Hf; congruence).
  assert (Hnr : pl f <> Ready) by (destruct Hf; congruence).
  unfold FiberCondition_grant. cbn [snd]. rewrite bool_decide_true by done. step.
  rewrite (not_queued_other s f _ pl) by auto. step. destruct (fm_owner m) as [g|] eqn:Eo.
  - exists (mkFiberMutex (Some g) (fm_waiters m ++ [(s, f)])), [], MutexQ. rewrite app_nil_r.
    split_and!; [done|by left| |done|cbn; auto|by eexists]. assert (g <> f) by congruence. split; cbn.
    + by apply holds_snoc.
    + by apply holds_other.
    + intros h. destruct (decide (h = f)) as [->|]; [by rewrite fn_lookup_insert|]. rewrite fn_lookup_insert_ne by done.
      intros Hh. by apply Hro.
    + intros h [= <-]. rewrite fn_lookup_insert_ne by done. by apply How.
    + done.
  - exists (mkFiberMutex (Some f) (fm_waiters m)), [(s, f)], Ready.
    split_and!; [done|by right| |done|done|exists []; by rewrite app_nil_r]. split; cbn.
    + by apply holds_other.
    + by apply holds_snoc.
    + intros h. destruct (decide (h = f)) as [->|]; [done|]. rewrite fn_lookup_insert_ne by done.
      intros Hh. apply Hro in Hh. congruence.
    + intros h [= <-]. rewrite fn_lookup_insert. by right.
    + done.
Qed.
