(* ===== verification/FiberProps.v ===== *)
(** The invariant of [FiberWorld.v] and the theorems about the mutex and the condition, and about the semaphore, the event and the recursive mutex. *)

From stdpp Require Import functions numbers list_numbers list.
From S2P Require Import Prelude FiberSync FiberWorld.

(** ** The invariant of the world *)

Record winv (w : world) (pl : fiber -> place) : Prop := {
  wi_core : core (mtx w) (ready w) pl;
  wi_cond : holds (cond w) pl CondQ;
  wi_flight : forall g n, pcs w g = Signalling n -> pl (snd n) = InFlight;
  wi_unique : forall g g' n n', pcs w g = Signalling n -> pcs w g' = Signalling n' -> snd n = snd n' -> g = g';
  wi_carrier : forall f, pl f = InFlight -> exists g n, pcs w g = Signalling n /\ snd n = f;
  wi_free : forall f, pl f = Free <-> running (pcs w f) = true;
  wi_lock : forall f, pcs w f = InLock -> pl f = MutexQ \/ pl f = Ready;
  wi_inside : NoDup (inside w) /\ forall f, f ∈ inside w <-> fm_owner (mtx w) = Some f /\ pl f = Free;
  wi_fifo : entered w = handed w ++ fm_waiters (mtx w);
}.

Definition world_ok (w : world) : Prop := exists pl, winv w pl.

Lemma world_new_ok : world_ok world_new.
Proof.
  exists (fun _ => Free). split; cbn; try done.
  - split; cbn; try done; by apply holds_nil.
  - by apply holds_nil.
  - split; [constructor|]. intros f. split; [by intros ?%not_elem_of_nil|by intros []].
Qed.

Lemma newly_app l k : newly l (l ++ k) = k.
Proof. apply drop_app_length. Qed.

Lemma newly_same l : newly l l = [].
Proof. apply drop_all. Qed.

Lemma run_free w pl f : winv w pl -> pcs w f = Run -> pl f = Free.
Proof. intros W Hf. apply (wi_free w pl W). by rewrite Hf. Qed.

(** Changing the place of one fiber and its position in the code, away from [signal]. *)
Lemma free_insert (ps : fiber -> pc) pl f p q :
  (forall g, pl g = Free <-> running (ps g) = true) -> (q = Free <-> running p = true) ->
  forall g, <[f := q]> pl g = Free <-> running (<[f := p]> ps g) = true.
Proof.
  intros H Hq g. destruct (decide (g = f)) as [->|].
  - by rewrite !fn_lookup_insert.
  - by rewrite !fn_lookup_insert_ne.
Qed.

Lemma free_insert_blocked (ps : fiber -> pc) pl f q :
  (forall g, pl g = Free <-> running (ps g) = true) -> pl f <> Free -> q <> Free ->
  forall g, <[f := q]> pl g = Free <-> running (ps g) = true.
Proof.
  intros H Hf Hq g. destruct (decide (g = f)) as [->|].
  - rewrite fn_lookup_insert. rewrite <- H. tauto.
  - by rewrite fn_lookup_insert_ne.
Qed.

(** The part of the invariant about fibers in flight, when a fiber that is not in flight moves and one
    that does not signal goes on to where it does not signal. *)
Record flights (ps : fiber -> pc) (pl : fiber -> place) : Prop := {
  fl_flight : forall g n, ps g = Signalling n -> pl (snd n) = InFlight;
  fl_unique : forall g g' n n', ps g = Signalling n -> ps g' = Signalling n' -> snd n = snd n' -> g = g';
  fl_carrier : forall f, pl f = InFlight -> exists g n, ps g = Signalling n /\ snd n = f;
}.

Definition signals (p : pc) : bool := match p with Signalling _ => true | _ => false end.

Lemma flights_pc ps pl f p :
  flights ps pl -> signals (ps f) = false -> signals p = false -> flights (<[f := p]> ps) pl.
Proof.
  intros [H1 H2 H3] Hf Hp. assert (Hs : forall g n, <[f := p]> ps g = Signalling n -> ps g = Signalling n).
  { intros g n. destruct (decide (g = f)) as [->|]; [rewrite fn_lookup_insert; by intros ->|by rewrite fn_lookup_insert_ne]. }
  split; eauto. intros h Hh. destruct (H3 h Hh) as (g & n & Hg & E). exists g, n. split; [|done].
  rewrite fn_lookup_insert_ne; [done|]. intros ->. by rewrite Hg in Hf.
Qed.

Lemma flights_place ps pl f q : flights ps pl -> pl f <> InFlight -> q <> InFlight -> flights ps (<[f := q]> pl).
Proof.
  intros [H1 H2 H3] Hf Hq. split; auto.
  - intros g n Hg. specialize (H1 g n Hg). rewrite fn_lookup_insert_ne; [done|]. intros ->. done.
  - intros h. destruct (decide (h = f)) as [->|]; [by rewrite fn_lookup_insert|]. rewrite fn_lookup_insert_ne by done. auto.
Qed.

Lemma winv_flights w pl : winv w pl -> flights (pcs w) pl.
Proof. intros []. by split. Qed.

Lemma hand_over_place m pl f :
  (exists rdy, core m rdy pl) ->
  hand_over m pl f = pl f \/ (pl f = MutexQ /\ hand_over m pl f = Ready).
Proof.
  intros [rdy [[_ Hq] _ _ _ _]].
  unfold hand_over. destruct (fm_waiters m) as [|[s g] rest]; [by left|]. cbn.
  destruct (decide (f = g)) as [->|]; [|by left; apply fn_lookup_insert_ne].
  right. rewrite fn_lookup_insert. split; [|done]. apply Hq. by left.
Qed.

Lemma flights_hand_over ps m rdy pl : core m rdy pl -> flights ps pl -> flights ps (hand_over m pl).
Proof.
  intros [[_ Hq] _ _ _ _] F. unfold hand_over. destruct (fm_waiters m) as [|[s g] rest]; [done|]. cbn.
  assert (pl g = MutexQ) by (apply Hq; by left). apply flights_place; [done|congruence|done].
Qed.

Lemma remove_fiber_inside w pl f :
  winv w pl -> fm_owner (mtx w) = Some f -> remove_fiber f (inside w) = [].
Proof.
  intros W Ho. destruct (wi_inside w pl W) as [_ Hi]. unfold remove_fiber.
  assert (F : Forall (fun g => ~ g <> f) (inside w)).
  { apply Forall_forall. intros g Hg. apply Hi in Hg as [Hg _]. assert (g = f) by congruence. tauto. }
  clear -F. induction F as [|g l Hg F IH]; [done|]. rewrite filter_cons_False by done. exact IH.
Qed.

(** What [unlock] leaves, seen by the rest of the world. *)
Lemma unlock_step w pl s f :
  winv w pl -> pcs w f = Run -> fm_owner (mtx w) = Some f ->
  exists m' woken, FiberMutex_unlockNoLock (at_scheduler s f) (mtx w) = Ok (m', woken) /\
    winv (mkWorld m' (cond w) (pcs w) (ready w ++ woken) (remove_fiber f (inside w)) (entered w) (handed w ++ woken))
      (hand_over (mtx w) pl) /\ fm_owner m' <> Some f.
Proof.
  intros W Hf Ho. pose proof (run_free _ _ _ W Hf) as Hpf.
  pose proof W as [C Hc H1 H2 H3 Hfr Hl Hi Hfifo].
  destruct (core_unlock _ _ _ s f C Hpf Ho) as (m' & woken & E & C' & Ew & Hno). exists m', woken. split; [done|].
  assert (Hp : forall g, hand_over (mtx w) pl g = pl g \/ (pl g = MutexQ /\ hand_over (mtx w) pl g = Ready))
    by (intros; apply hand_over_place; eauto).
  destruct (flights_hand_over _ _ _ _ C (winv_flights _ _ W)) as [F1 F2 F3]. split; [|done].
  split; cbn; auto.
  - destruct Hc as [Hd Hc]. split; [done|]. intros g. rewrite Hc. destruct (Hp g) as [->|[-> ->]]; [done|]. split; done.
  - intros g. rewrite <- Hfr. destruct (Hp g) as [->|[-> ->]]; [done|]. split; done.
  - intros g Hg. destruct (Hl g Hg) as [Hg'|Hg']; destruct (Hp g) as [->|[_ ->]]; auto.
  - erewrite remove_fiber_inside by eauto. split; [constructor|]. intros g. split; [by intros ?%not_elem_of_nil|].
    intros [Hg1 Hg2]. exfalso. destruct (Hp g) as [Hg|[_ Hg]]; [|congruence].
    destruct (fm_waiters (mtx w)) as [|[s2 h] rest] eqn:Eq.
    + apply Hno. destruct C' as [_ _ _ Hco' _]. unfold FiberMutex_unlockNoLock in E. rewrite Eq in E.
      cbn [this_fiber at_scheduler] in E. rewrite bool_decide_true in E by done. cbn in E. by injection E as <- _.
    + unfold FiberMutex_unlockNoLock in E. rewrite Eq in E. cbn [this_fiber at_scheduler] in E.
      rewrite bool_decide_true in E by done. cbn in E. injection E as <- _. cbn in Hg1. injection Hg1 as ->.
      unfold hand_over in Hg2. rewrite Eq in Hg2. cbn in Hg2. by rewrite fn_lookup_insert in Hg2.
  - rewrite Hfifo, Ew, app_assoc. done.
Qed.

(** A fiber taken from the condition gets the mutex or a place in its queue. *)
Lemma grant_step w pl s f :
  core (mtx w) (ready w) pl -> pl f = CondQ \/ pl f = InFlight -> entered w = handed w ++ fm_waiters (mtx w) ->
  exists m' woken q, FiberCondition_grant (s, f) (mtx w) = Ok (m', woken) /\
    (q = MutexQ \/ q = Ready) /\ core m' (ready w ++ woken) (<[f := q]> pl) /\
    (forall g, fm_owner m' = Some g /\ <[f := q]> pl g = Free <-> fm_owner (mtx w) = Some g /\ pl g = Free) /\
    entered w ++ newly (fm_waiters (mtx w)) (fm_waiters m') = handed w ++ fm_waiters m'.
Proof.
  intros C Hf Hfifo. destruct (core_grant _ _ _ s f C Hf) as (m' & woken & q & E & Hq & C' & Hnone & Hsome & added & Ea).
  exists m', woken, q. split_and!; auto.
  - intros g. destruct (decide (g = f)) as [->|].
    + rewrite fn_lookup_insert. destruct Hf, Hq; split; intros [? ?]; congruence.
    + rewrite fn_lookup_insert_ne by done. destruct (fm_owner (mtx w)) as [h|].
      * rewrite (Hsome h eq_refl). done.
      * rewrite (Hnone eq_refl). split; intros [? ?]; congruence.
  - rewrite Ea, newly_app, Hfifo, app_assoc. done.
Qed.

(** ** Every section returns, and keeps the invariant *)

Lemma lock_step w pl s f :
  winv w pl -> pcs w f = Run -> fm_owner (mtx w) <> Some f ->
  exists m' o, FiberMutex_lock (at_scheduler s f) (mtx w) = Ok (m', o) /\
    world_ok (mkWorld m' (cond w) (if decide (o = Returns) then pcs w else <[f := InLock]> (pcs w)) (ready w)
      (if decide (o = Returns) then f :: inside w else inside w)
      (entered w ++ newly (fm_waiters (mtx w)) (fm_waiters m')) (handed w)).
Proof.
  intros W Hf Ho. pose proof (run_free _ _ _ W Hf) as Hpf. pose proof (winv_flights _ _ W) as F.
  pose proof W as [C Hc H1 H2 H3 Hfr Hl [Hid Hi] Hfifo].
  destruct (core_lock _ _ _ s f C Hpf Ho) as (m' & o & E & R). exists m', o. split; [done|].
  destruct (decide (o = Returns)) as [_|_].
  - destruct R as (Hnone & -> & C'). exists pl. split; cbn; auto.
    + split.
      * constructor; [|done]. rewrite Hi. intros [? _]. congruence.
      * intros g. rewrite elem_of_cons, Hi. split; [|intros [[= ->] _]; by left].
        intros [->|[? _]]; [done|congruence].
    + rewrite newly_same, app_nil_r. done.
  - destruct R as (-> & C'). exists (<[f := MutexQ]> pl).
    destruct (flights_place _ _ f MutexQ (flights_pc _ _ f InLock F ltac:(by rewrite Hf) eq_refl)) as [F1 F2 F3]; [congruence|done|].
    split; cbn; auto.
    + apply holds_other; [done|congruence|done].
    + apply free_insert; [done|]. cbn. done.
    + intros g. destruct (decide (g = f)) as [->|]; [rewrite !fn_lookup_insert; auto|].
      rewrite !fn_lookup_insert_ne by done. auto.
    + split; [done|]. intros g. rewrite Hi. destruct (decide (g = f)) as [->|].
      * rewrite fn_lookup_insert. split; [tauto|]. by intros [_ ?].
      * by rewrite fn_lookup_insert_ne.
    + rewrite newly_app, Hfifo, app_assoc. done.
Qed.

Lemma resume_step w pl s f :
  winv w pl -> running (pcs w f) = false -> (s, f) ∈ ready w ->
  fm_owner (mtx w) = Some f /\ not_queued (s, f) (fm_waiters (mtx w)) = true /\
  world_ok (mkWorld (mtx w) (cond w) (<[f := Run]> (pcs w)) (remove_ready f (ready w))
    (f :: inside w) (entered w) (handed w)).
Proof.
  intros W Hf Hr. pose proof (winv_flights _ _ W) as F. pose proof W as [C Hc H1 H2 H3 Hfr Hl [Hid Hi] Hfifo].
  destruct (core_resume _ _ _ s f C Hr) as (C' & Ho & Hp). split_and!; auto.
  { eapply not_queued_other; [apply C|]. congruence. }
  exists (<[f := Free]> pl).
  assert (Hs : signals (pcs w f) = false) by (by destruct (pcs w f)).
  destruct (flights_place _ _ f Free (flights_pc _ _ f Run F Hs eq_refl)) as [F1 F2 F3]; [congruence|done|].
  split; cbn; auto.
  - apply holds_other; [done|congruence|done].
  - by apply free_insert.
  - intros g. destruct (decide (g = f)) as [->|]; [by rewrite !fn_lookup_insert|]. rewrite !fn_lookup_insert_ne by done. auto.
  - split.
    + constructor; [|done]. rewrite Hi. intros [_ ?]. congruence.
    + intros g. rewrite elem_of_cons, Hi. destruct (decide (g = f)) as [->|].
      * rewrite fn_lookup_insert. tauto.
      * rewrite fn_lookup_insert_ne by done. tauto.
Qed.

Lemma wait_step w pl s f :
  winv w pl -> pcs w f = Run -> fm_owner (mtx w) = Some f ->
  exists cond' m' woken, FiberCondition_wait (at_scheduler s f) (cond w) (mtx w) = Ok (cond', m', woken) /\
    world_ok (mkWorld m' cond' (<[f := InCond]> (pcs w)) (ready w ++ woken) (remove_fiber f (inside w))
      (entered w) (handed w ++ woken)).
Proof.
  intros W Hf Ho. pose proof (run_free _ _ _ W Hf) as Hpf.
  assert (Hh : hand_over (mtx w) pl f = Free).
  { destruct (hand_over_place (mtx w) pl f) as [->|[? _]]; [eexists; apply W|done|congruence]. }
  destruct (unlock_step w pl s f W Hf Ho) as (m' & woken & E & W' & Hno).
  exists (cond w ++ [(s, f)]), m', woken. split.
  { unfold FiberCondition_wait, with_scheduler. cbn [this_scheduler this_fiber at_scheduler].
    rewrite bool_decide_true by done. step. cbn [at_scheduler] in E. change (mkCaller (Some s) f) with (at_scheduler s f).
    rewrite E. done. }
  pose proof (winv_flights _ _ W') as F. cbn in F.
  destruct W' as [C Hc H1 H2 H3 Hfr Hl [Hid Hi] Hfifo]. cbn in *. set (pl' := hand_over (mtx w) pl) in *.
  exists (<[f := CondQ]> pl').
  destruct (flights_place _ _ f CondQ (flights_pc _ _ f InCond F ltac:(by rewrite Hf) eq_refl)) as [F1 F2 F3]; [congruence|done|].
  split; cbn; auto.
  - destruct C as [Q1 Q2 Q3 Q4 Q5]. split; auto.
    + apply holds_other; [done|congruence|done].
    + apply holds_other; [done|congruence|done].
    + intros g. destruct (decide (g = f)) as [->|]; [by rewrite fn_lookup_insert|]. rewrite fn_lookup_insert_ne by done. auto.
    + intros g Hg. assert (g <> f) by congruence. rewrite fn_lookup_insert_ne by done. auto.
  - apply holds_snoc; [done|congruence].
  - by apply free_insert.
  - intros g. destruct (decide (g = f)) as [->|]; [by rewrite !fn_lookup_insert|]. rewrite !fn_lookup_insert_ne by done. auto.
  - split; [done|]. intros g. rewrite Hi. destruct (decide (g = f)) as [->|].
    + rewrite fn_lookup_insert. split; intros [? ?]; congruence.
    + by rewrite fn_lookup_insert_ne.
Qed.

Lemma pop_step w pl f cond' next :
  winv w pl -> pcs w f = Run -> FiberCondition_signal_pop (cond w) = (cond', next) ->
  world_ok (mkWorld (mtx w) cond' (match next with Some n => <[f := Signalling n]> (pcs w) | None => pcs w end)
    (ready w) (inside w) (entered w) (handed w)).
Proof.
  intros W Hf E. pose proof (run_free _ _ _ W Hf) as Hpf. pose proof W as [C Hc H1 H2 H3 Hfr Hl [Hid Hi] Hfifo].
  unfold FiberCondition_signal_pop in E. destruct (cond w) as [|[s n] rest] eqn:Ec; injection E as <- <-.
  { exists pl. split; cbn; auto. }
  assert (Hn : pl n = CondQ) by (apply Hc; by left). assert (n <> f) by congruence.
  exists (<[n := InFlight]> pl). split; cbn; auto.
  - destruct C as [Q1 Q2 Q3 Q4 Q5]. split; auto.
    + apply holds_other; [done|congruence|done].
    + apply holds_other; [done|congruence|done].
    + intros g. destruct (decide (g = n)) as [->|]; [by rewrite fn_lookup_insert|]. rewrite fn_lookup_insert_ne by done. auto.
    + intros g Hg. destruct (decide (g = n)) as [->|]; [|by rewrite fn_lookup_insert_ne; auto].
      destruct (Q4 n Hg); congruence.
  - by eapply holds_tail.
  - intros g m. destruct (decide (g = f)) as [->|].
    + rewrite fn_lookup_insert. intros [= <-]. cbn. by rewrite fn_lookup_insert.
    + rewrite fn_lookup_insert_ne by done. intros Hg. specialize (H1 g m Hg). rewrite fn_lookup_insert_ne; [done|]. congruence.
  - intros g g' m m'. destruct (decide (g = f)) as [->|], (decide (g' = f)) as [->|];
      rewrite ?fn_lookup_insert, ?(fn_lookup_insert_ne (pcs w)) by done; [done| | |].
    + intros [= <-] Hg' E. cbn in E. subst. specialize (H1 g' m' Hg'). congruence.
    + intros Hg [= <-] E. cbn in E. specialize (H1 g m Hg). congruence.
    + apply H2.
  - intros h. destruct (decide (h = n)) as [->|].
    + intros _. exists f, (s, n). by rewrite fn_lookup_insert.
    + rewrite fn_lookup_insert_ne by done. intros Hh. destruct (H3 h Hh) as (g & m & Hg & Em). exists g, m.
      rewrite fn_lookup_insert_ne; [done|]. congruence.
  - intros g. destruct (decide (g = f)) as [->|].
    + rewrite fn_lookup_insert, fn_lookup_insert_ne by done. cbn. tauto.
    + rewrite (fn_lookup_insert_ne (pcs w)) by done. rewrite <- Hfr. destruct (decide (g = n)) as [->|].
      * rewrite fn_lookup_insert. split; congruence.
      * by rewrite fn_lookup_insert_ne.
  - intros g. destruct (decide (g = f)) as [->|]; [by rewrite fn_lookup_insert|].
    rewrite (fn_lookup_insert_ne (pcs w)) by done. intros Hg. destruct (decide (g = n)) as [->|].
    + destruct (Hl n Hg); congruence.
    + rewrite fn_lookup_insert_ne by done. auto.
  - split; [done|]. intros g. rewrite Hi. destruct (decide (g = n)) as [->|].
    + rewrite fn_lookup_insert. split; intros [? ?]; congruence.
    + by rewrite fn_lookup_insert_ne.
Qed.

(** The fiber [n] comes out of the condition's hands: from its queue in [broadcast], from flight in
    [signal]. *)
Lemma granted w pl s n ps cond' :
  winv w pl -> pl n = CondQ \/ pl n = InFlight ->
  (forall q, q = MutexQ \/ q = Ready -> holds cond' (<[n := q]> pl) CondQ /\ flights ps (<[n := q]> pl)) ->
  (forall g, running (ps g) = running (pcs w g)) -> (forall g, ps g = InLock -> pcs w g = InLock) ->
  exists m' woken, FiberCondition_grant (s, n) (mtx w) = Ok (m', woken) /\
    (exists q, (q = MutexQ \/ q = Ready) /\
      winv (mkWorld m' cond' ps (ready w ++ woken) (inside w)
        (entered w ++ newly (fm_waiters (mtx w)) (fm_waiters m')) (handed w)) (<[n := q]> pl)).
Proof.
  intros W Hn Hnew Hrun Hlock. pose proof W as [C Hc H1 H2 H3 Hfr Hl [Hid Hi] Hfifo].
  destruct (grant_step w pl s n C Hn Hfifo) as (m' & woken & q & E & Hq & C' & Hin & Hfi).
  exists m', woken. split; [done|]. exists q. split; [done|]. destruct (Hnew q Hq) as [Hc' [F1 F2 F3]].
  assert (Hnf : pl n <> Free) by (destruct Hn; congruence).
  split; cbn; auto.
  - intros g. rewrite Hrun. apply free_insert_blocked; [done|done|destruct Hq; congruence].
  - intros g Hg. destruct (decide (g = n)) as [->|]; [by rewrite fn_lookup_insert|].
    rewrite fn_lookup_insert_ne by done. auto.
  - split; [done|]. intros g. rewrite Hi, Hin. done.
Qed.

Lemma signal_grant_step w pl f next :
  winv w pl -> pcs w f = Signalling next ->
  exists m' woken, FiberCondition_grant next (mtx w) = Ok (m', woken) /\
    world_ok (mkWorld m' (cond w) (<[f := Run]> (pcs w)) (ready w ++ woken) (inside w)
      (entered w ++ newly (fm_waiters (mtx w)) (fm_waiters m')) (handed w)).
Proof.
  intros W Hf. pose proof W as [C Hc H1 H2 H3 Hfr Hl _ _]. destruct next as [s n].
  pose proof (H1 f _ Hf) as Hn. cbn in Hn.
  destruct (granted w pl s n (<[f := Run]> (pcs w)) (cond w) W) as (m' & woken & E & q & _ & W'); auto.
  - intros q Hq. split; [apply holds_other; [done|congruence|destruct Hq; congruence]|]. split.
    + intros g m. destruct (decide (g = f)) as [->|]; [by rewrite fn_lookup_insert|].
      rewrite fn_lookup_insert_ne by done. intros Hg. pose proof (H1 g m Hg). rewrite fn_lookup_insert_ne; [done|].
      intros E. apply n0. symmetry in E. by eapply (H2 g f).
    + intros g g' m m'. destruct (decide (g = f)) as [->|]; [by rewrite fn_lookup_insert|].
      destruct (decide (g' = f)) as [->|]; [by rewrite fn_lookup_insert|]. rewrite !fn_lookup_insert_ne by done. apply H2.
    + intros h. destruct (decide (h = n)) as [->|]; [rewrite fn_lookup_insert; destruct Hq; congruence|].
      rewrite fn_lookup_insert_ne by done. intros Hh. destruct (H3 h Hh) as (g & m & Hg & Em). exists g, m.
      rewrite fn_lookup_insert_ne; [done|]. intros ->. rewrite Hf in Hg. injection Hg as <-. cbn in Em. congruence.
  - intros g. destruct (decide (g = f)) as [->|]; [by rewrite fn_lookup_insert, Hf|by rewrite fn_lookup_insert_ne].
  - intros g. destruct (decide (g = f)) as [->|]; [by rewrite fn_lookup_insert|by rewrite fn_lookup_insert_ne].
  - exists m', woken. split; [done|]. by exists (<[n := q]> pl).
Qed.

Lemma broadcast_step w pl :
  winv w pl ->
  exists m' woken, FiberCondition_broadcast (cond w) (mtx w) = Ok (m', woken) /\
    world_ok (mkWorld m' [] (pcs w) (ready w ++ woken) (inside w)
      (entered w ++ newly (fm_waiters (mtx w)) (fm_waiters m')) (handed w)).
Proof.
  cut (forall l w pl, cond w = l -> winv w pl ->
    exists m' woken, FiberCondition_broadcast l (mtx w) = Ok (m', woken) /\
      exists pl', winv (mkWorld m' [] (pcs w) (ready w ++ woken) (inside w) (handed w ++ fm_waiters m') (handed w)) pl').
  { intros K W. destruct (K _ _ _ eq_refl W) as (m' & woken & E & pl' & W'). exists m', woken. split; [done|].
    exists pl'. enough (Ee : entered w ++ newly (fm_waiters (mtx w)) (fm_waiters m') = handed w ++ fm_waiters m')
      by (by rewrite Ee).
    pose proof (wi_fifo w pl W) as Hfifo. rewrite Hfifo.
    assert (Ha : forall l m m' woken, FiberCondition_broadcast l m = Ok (m', woken) -> exists added, fm_waiters m' = fm_waiters m ++ added).
    { clear. induction l as [|n l IH]; intros m m' woken; cbn [FiberCondition_broadcast].
      - intros [= <- _]. exists []. by rewrite app_nil_r.
      - intros E. apply bind_Ok_iff in E as ([m1 w1] & E1 & E). apply bind_Ok_iff in E as ([m2 w2] & E2 & E).
        injection E as <- _. destruct (IH _ _ _ E2) as [a2 ->].
        assert (exists a1, fm_waiters m1 = fm_waiters m ++ a1) as [a1 ->].
        { unfold FiberCondition_grant in E1. destruct (bool_decide _); [|done]. destruct (not_queued _ _); [|done]. cbn in E1.
          destruct (fm_owner m); injection E1 as <- _; cbn; [by eexists|exists []; by rewrite app_nil_r]. }
        exists (a1 ++ a2). by rewrite app_assoc. }
    destruct (Ha _ _ _ _ E) as [added ->]. by rewrite newly_app, app_assoc. }
  clear w pl. induction l as [|[s n] rest IH]; intros w pl Ec W; cbn [FiberCondition_broadcast].
  - exists (mtx w), []. split; [done|]. exists pl. rewrite app_nil_r. pose proof W as [C Hc H1 H2 H3 Hfr Hl Hi Hfifo].
    rewrite Ec in Hc. split; cbn; auto.
  - pose proof W as [C Hc H1 H2 H3 Hfr Hl Hi Hfifo]. rewrite Ec in Hc.
    assert (Hn : pl n = CondQ) by (apply Hc; by left).
    destruct (granted w pl s n (pcs w) rest W) as (m1 & woken1 & E1 & q & Hq & W1); auto.
    { intros q Hq. split; [eapply holds_tail; [exact Hc|destruct Hq; congruence]|].
      apply flights_place; [by apply winv_flights|congruence|destruct Hq; congruence]. }
    rewrite E1. step. destruct (fun Ec => IH _ _ Ec W1) as (m2 & woken2 & E2 & pl' & W2); [done|]. cbn in E2. rewrite E2. step.
    exists m2, (woken1 ++ woken2). split; [done|]. exists pl'. cbn in W2. by rewrite app_assoc.
Qed.

Lemma step_ok w w' : world_ok w -> fm_step w w' -> world_ok w'.
Proof.
  intros [pl W] Hst. destruct Hst as [w s f m' o Hf Ho E|w s f Hf Hr E|w s f m' woken Hf Ho E|w s f m' woken released Hf Ho E
    |w s f cond' m' woken Hf Ho E|w s f Hf Hr E|w f cond' next Hf E|w f next m' woken Hf E|w f m' woken Hf E].
  - destruct (lock_step w pl s f W Hf Ho) as (m2 & o2 & E2 & W'). rewrite E in E2. by injection E2 as <- <-.
  - by destruct (resume_step w pl s f W) as (_ & _ & W'); [rewrite Hf|done|].
  - destruct (unlock_step w pl s f W Hf Ho) as (m2 & k & E2 & W' & _). unfold FiberMutex_unlock in E.
    rewrite E in E2. injection E2 as <- <-. by eexists.
  - destruct (unlock_step w pl s f W Hf Ho) as (m2 & k & E2 & W' & _).
    unfold FiberMutex_unlockIfNotUnique in E. cbn [this_fiber at_scheduler] in E. rewrite bool_decide_true in E by done.
    change (mkCaller (Some s) f) with (at_scheduler s f) in *. cbn [mbind result_bind ASSERT] in E.
    destruct (fm_waiters (mtx w)) as [|n rest] eqn:Ew.
    + injection E as <- <- <-. exists pl. rewrite !app_nil_r. by destruct w.
    + rewrite E2 in E. injection E as <- <- <-. by eexists.
  - destruct (wait_step w pl s f W Hf Ho) as (c2 & m2 & k & E2 & W'). rewrite E in E2. by injection E2 as <- <- <-.
  - by destruct (resume_step w pl s f W) as (_ & _ & W'); [rewrite Hf|done|].
  - by eapply pop_step.
  - destruct (signal_grant_step w pl f next W Hf) as (m2 & k & E2 & W'). rewrite E in E2. by injection E2 as <- <-.
  - destruct (broadcast_step w pl W) as (m2 & k & E2 & W'). rewrite E in E2. by injection E2 as <- <-.
Qed.

Lemma reachable_ok w : reachable w -> world_ok w.
Proof. induction 1; eauto using world_new_ok, step_ok. Qed.

(** C10 -- mutual exclusion: over any interleaving of the critical sections of any number of fibers that
    keep the documented preconditions, at most one fiber at a time has come back from [lock] or [wait]
    without having called [unlock] or [wait] again, and it is the owner. *)
Theorem mutual_exclusion w f g :
  reachable w -> f ∈ inside w -> g ∈ inside w -> f = g /\ fm_owner (mtx w) = Some f.
Proof.
  intros R Hf Hg. destruct (reachable_ok w R) as [pl W]. destruct (wi_inside w pl W) as [_ Hi].
  apply Hi in Hf as [Hf _]. apply Hi in Hg as [Hg _]. split; congruence.
Qed.

(** No assertion of [FiberMutex] and [FiberCondition] can fail: not at the entry of a call, not
    after a fiber has been resumed, not between the two sections of [signal], not in [broadcast]. *)
Theorem fiber_mutex_no_assertion w :
  reachable w ->
  (forall s f, pcs w f = Run -> fm_owner (mtx w) <> Some f ->
     exists r, FiberMutex_lock (at_scheduler s f) (mtx w) = Ok r) /\
  (forall s f, pcs w f = Run -> fm_owner (mtx w) = Some f ->
     (exists r, FiberMutex_unlock (at_scheduler s f) (mtx w) = Ok r) /\
     (exists r, FiberMutex_unlockIfNotUnique (at_scheduler s f) (mtx w) = Ok r) /\
     (exists r, FiberCondition_wait (at_scheduler s f) (cond w) (mtx w) = Ok r)) /\
  (forall s f, (s, f) ∈ ready w ->
     (pcs w f = InLock -> FiberMutex_lock_resumed (at_scheduler s f) (mtx w) = Ok tt) /\
     (pcs w f = InCond -> FiberCondition_wait_resumed (at_scheduler s f) (mtx w) = Ok tt)) /\
  (forall f next, pcs w f = Signalling next -> exists r, FiberCondition_grant next (mtx w) = Ok r) /\
  (exists r, FiberCondition_broadcast (cond w) (mtx w) = Ok r).
Proof.
  intros R. destruct (reachable_ok w R) as [pl W]. split_and!.
  - intros s f Hf Ho. destruct (lock_step w pl s f W Hf Ho) as (m & o & E & _). eauto.
  - intros s f Hf Ho. destruct (unlock_step w pl s f W Hf Ho) as (m & k & E & _ & _). split_and!; [eauto| |].
    + unfold FiberMutex_unlockIfNotUnique. cbn [this_fiber at_scheduler]. rewrite bool_decide_true by done. step.
      destruct (fm_waiters (mtx w)); [eauto|]. change (mkCaller (Some s) f) with (at_scheduler s f). rewrite E. step. eauto.
    + destruct (wait_step w pl s f W Hf Ho) as (c' & m' & k' & E' & _). eauto.
  - intros s f Hr. split; intros Hf; destruct (resume_step w pl s f W) as (Ho & Hq & _); auto; try (by rewrite Hf).
    + unfold FiberMutex_lock_resumed, with_scheduler. cbn [this_scheduler this_fiber at_scheduler].
      rewrite bool_decide_true, Hq by done. done.
    + unfold FiberCondition_wait_resumed. cbn [this_fiber at_scheduler]. by rewrite bool_decide_true.
  - intros f next Hf. destruct (signal_grant_step w pl f next W Hf) as (m & k & E & _). eauto.
  - destruct (broadcast_step w pl W) as (m & k & E & _). eauto.
Qed.

(** C38 -- no lost wake-up: a fiber blocked in [lock] is in the mutex's queue or scheduled, one blocked
    in [wait] is there, in the condition's queue, or in the hands of a fiber in [signal]; whenever anybody
    waits for the mutex it has an owner, and that owner is running or scheduled. *)
Theorem fiber_mutex_no_lost_wakeup w :
  reachable w ->
  (forall f, pcs w f = InLock -> f ∈ fibers (fm_waiters (mtx w)) \/ f ∈ fibers (ready w)) /\
  (forall f, pcs w f = InCond -> f ∈ fibers (fm_waiters (mtx w)) \/ f ∈ fibers (ready w) \/
     f ∈ fibers (cond w) \/ exists g n, pcs w g = Signalling n /\ snd n = f) /\
  (fm_waiters (mtx w) <> [] -> exists g, fm_owner (mtx w) = Some g /\
     (running (pcs w g) = true \/ g ∈ fibers (ready w))).
Proof.
  intros R. destruct (reachable_ok w R) as [pl W]. pose proof W as [[Hq Hr Hro How Hn] Hc H1 H2 H3 Hfr Hl _ _]. split_and!.
  - intros f Hf. destruct (Hl f Hf) as [Hp|Hp]; [left; by apply Hq|right; by apply Hr].
  - intros f Hf. assert (pl f <> Free) by (rewrite Hfr, Hf; done).
    destruct (pl f) eqn:Ep; [done|left; by apply Hq|right; right; left; by apply Hc|do 3 right; by apply H3|right; left; by apply Hr].
  - intros Hw. destruct (fm_owner (mtx w)) as [g|] eqn:Eo; [|by rewrite Hn in Hw]. exists g. split; [done|].
    destruct (How g eq_refl) as [Hg|Hg]; [left; by apply Hfr|right; by apply Hr].
Qed.

(** Strictly FIFO: the fibers that were taken from the mutex's queue are, in order, the first of
    those that were put into it. *)
Theorem fiber_mutex_fifo w : reachable w -> entered w = handed w ++ fm_waiters (mtx w).
Proof. intros R. destruct (reachable_ok w R) as [pl W]. apply W. Qed.

(** ** Runs *)

(** Fiber 1 takes the mutex; the worlds on the way are written out by the steps themselves. *)
Definition locked_world : world := mkWorld (mkFiberMutex (Some 1%positive) []) [] (fun _ => Run) [] [1%positive] [] [].

Lemma locked_reachable : reachable locked_world.
Proof. eapply reach_step; [apply reach_new|]. exact (st_lock world_new 1%positive 1%positive (mkFiberMutex (Some 1%positive) []) Returns eq_refl ltac:(done) eq_refl). Defined.

Lemma mutual_exclusion_witness : 1%positive = 1%positive /\ fm_owner (mtx locked_world) = Some 1%positive.
Proof. apply (mutual_exclusion locked_world 1%positive 1%positive locked_reachable); by left. Defined.

Lemma no_assertion_witness : exists r, FiberMutex_unlock (at_scheduler 1%positive 1%positive) (mtx locked_world) = Ok r.
Proof. apply (fiber_mutex_no_assertion locked_world locked_reachable); reflexivity. Defined.

(** Fiber 1 has the mutex and fiber 2 waits for it. *)
Definition contended_world : world :=
  mkWorld (mkFiberMutex (Some 1%positive) [(1, 2)%positive]) [] (<[2%positive := InLock]> (fun _ => Run)) [] [1%positive] [(1, 2)%positive] [].

Lemma contended_reachable : reachable contended_world.
Proof.
  eapply reach_step; [exact locked_reachable|].
  exact (st_lock locked_world 1%positive 2%positive (mkFiberMutex (Some 1%positive) [(1, 2)%positive]) Yields eq_refl ltac:(done) eq_refl).
Defined.

Lemma no_lost_wakeup_fiber_witness :
  2%positive ∈ fibers (fm_waiters (mtx contended_world)) \/ 2%positive ∈ fibers (ready contended_world).
Proof. apply (fiber_mutex_no_lost_wakeup contended_world contended_reachable). reflexivity. Defined.

Lemma fifo_witness : entered locked_world = handed locked_world ++ fm_waiters (mtx locked_world).
Proof. apply (fiber_mutex_fifo locked_world locked_reachable). Defined.

Inductive steps : world -> world -> Prop :=
| steps_refl w : steps w w
| steps_cons w w' w'' : fm_step w w' -> steps w' w'' -> steps w w''.

Lemma reachable_steps w w' : reachable w -> steps w w' -> reachable w'.
Proof. intros R S. induction S; eauto using reach_step. Qed.

Lemma steps_via w w1 w2 w3 : fm_step w w1 -> w1 = w2 -> steps w2 w3 -> steps w w3.
Proof. intros ? <- ?. by eapply steps_cons. Qed.

(** Two waiters, and two fibers that signal. *)
Section Overtaking.
Local Notation s := 1%positive.
Local Notation f1 := 1%positive.
Local Notation f2 := 2%positive.
Local Notation g1 := 3%positive.
Local Notation g2 := 4%positive.

Let pcs1 : fiber -> pc := <[f1 := InCond]> (fun _ => Run).
Let pcs2 : fiber -> pc := <[f2 := InCond]> pcs1.
Let pcs3 : fiber -> pc := <[g1 := Signalling (s, f1)]> pcs2.
Let pcs4 : fiber -> pc := <[g2 := Signalling (s, f2)]> pcs3.
Let pcs5 : fiber -> pc := <[g2 := Run]> pcs4.
Let pcs6 : fiber -> pc := <[g1 := Run]> pcs5.
Let free : FiberMutex := mkFiberMutex None [].

Definition two_waiting : world := mkWorld free [(s, f1); (s, f2)] pcs2 [] [] [] [].
Definition overtaken : world := mkWorld (mkFiberMutex (Some f2) [(s, f1)]) [] pcs6 [(s, f2)] [] [(s, f1)] [].

Local Ltac via w2 tac := eapply (steps_via _ _ w2); [tac; vm_compute; (reflexivity || discriminate)|vm_compute; reflexivity|].

Lemma two_waiting_steps : steps world_new two_waiting.
Proof.
  via locked_world ltac:(apply (st_lock world_new s f1 (mkFiberMutex (Some f1) []) Returns)).
  via (mkWorld free [(s, f1)] pcs1 [] [] [] []) ltac:(apply (st_wait locked_world s f1 [(s, f1)] free [])).
  via (mkWorld (mkFiberMutex (Some f2) []) [(s, f1)] pcs1 [] [f2] [] [])
    ltac:(apply (st_lock (mkWorld free [(s, f1)] pcs1 [] [] [] []) s f2 (mkFiberMutex (Some f2) []) Returns)).
  via two_waiting ltac:(apply (st_wait (mkWorld (mkFiberMutex (Some f2) []) [(s, f1)] pcs1 [] [f2] [] []) s f2 [(s, f1); (s, f2)] free [])).
  apply steps_refl.
Qed.

Lemma overtaken_steps : steps two_waiting overtaken.
Proof.
  via (mkWorld free [(s, f2)] pcs3 [] [] [] []) ltac:(apply (st_signal_pop two_waiting g1 [(s, f2)] (Some (s, f1)))).
  via (mkWorld free [] pcs4 [] [] [] []) ltac:(apply (st_signal_pop (mkWorld free [(s, f2)] pcs3 [] [] [] []) g2 [] (Some (s, f2)))).
  via (mkWorld (mkFiberMutex (Some f2) []) [] pcs5 [(s, f2)] [] [] [])
    ltac:(apply (st_signal_grant (mkWorld free [] pcs4 [] [] [] []) g2 (s, f2) (mkFiberMutex (Some f2) []) [(s, f2)])).
  via overtaken ltac:(apply (st_signal_grant (mkWorld (mkFiberMutex (Some f2) []) [] pcs5 [(s, f2)] [] [] []) g1 (s, f1)
    (mkFiberMutex (Some f2) [(s, f1)]) [])).
  apply steps_refl.
Qed.

End Overtaking.

(** The condition is not strictly FIFO: two fibers that call [signal] at the same time can release
    the second waiter before the first, since [signal] lets go of the condition's queue before it takes
    the mutex. *)
Theorem condition_overtaking :
  exists w w', reachable w /\ fibers (cond w) = [1; 2]%positive /\ steps w w' /\
    fm_owner (mtx w') = Some 2%positive /\ fibers (fm_waiters (mtx w')) = [1]%positive.
Proof.
  exists two_waiting, overtaken. split; [eapply reachable_steps; [apply reach_new|exact two_waiting_steps]|].
  split; [reflexivity|]. split; [exact overtaken_steps|]. split; reflexivity.
Qed.

(** The theorems about the semaphore, the event and the recursive mutex. *)

(** ** The semaphore *)

Section Semaphore.
Variable initial : Z.

(** Runs of a semaphore: how often it was notified, how many calls of [wait] returned at once, who
    was queued and who was scheduled, in order. *)
Inductive sem_run : Z -> Z -> list waiter -> list waiter -> FiberSemaphore -> Prop :=
| sr_new : sem_run 0 0 [] [] (FiberSemaphore_new initial)
| sr_wait n r queued woken m s f m' o :
    sem_run n r queued woken m -> (s, f) ∉ fs_waiters m ->
    FiberSemaphore_wait (mkCaller (Some s) f) m = Ok (m', o) ->
    sem_run n (if decide (o = Returns) then r + 1 else r)
      (if decide (o = Returns) then queued else queued ++ [(s, f)]) woken m'
| sr_notify n r queued woken m :
    sem_run n r queued woken m ->
    sem_run (n + 1) r queued (woken ++ snd (FiberSemaphore_notify m)) (fst (FiberSemaphore_notify m)).

Lemma sem_wait_cases s f m m' o :
  FiberSemaphore_wait (mkCaller (Some s) f) m = Ok (m', o) ->
  if decide (o = Returns)
  then 0 < fs_concurrency m /\ m' = mkFiberSemaphore (fs_waiters m) (u64 (fs_concurrency m - 1))
  else fs_concurrency m <= 0 /\ m' = mkFiberSemaphore (fs_waiters m ++ [(s, f)]) (fs_concurrency m).
Proof.
  unfold FiberSemaphore_wait, with_scheduler. cbn [this_scheduler this_fiber].
  destruct (not_queued (s, f) (fs_waiters m)); [|done]. cbn [mbind result_bind ASSERT].
  destruct (Z.ltb_spec 0 (fs_concurrency m)); intros [= <- <-]; cbn; split; auto; lia.
Qed.

(** The semaphore: permits are conserved (what was there at first and was notified is either left or
    was given to exactly one call of [wait]), nobody waits while a permit is left, and waiters are
    scheduled strictly in the order in which they were queued. *)
Theorem semaphore_conserves n r queued woken m :
  sem_run n r queued woken m -> 0 <= initial -> initial + n < 2 ^ 64 ->
  initial + n = fs_concurrency m + r + zlen woken /\
  queued = woken ++ fs_waiters m /\
  (0 < fs_concurrency m -> fs_waiters m = []) /\ 0 <= fs_concurrency m.
Proof.
  intros R Hi. induction R as [|n r queued woken m s f m' o R IH Hq E|n r queued woken m R IH]; intros Hb.
  - cbn. split_and!; auto. change (zlen []) with 0. lia.
  - destruct (IH Hb) as (H1 & H2 & H3 & H4). apply sem_wait_cases in E. pose proof (zlen_nonneg woken).
    assert (Hr : 0 <= r) by (clear -R; induction R; try case_decide; lia).
    destruct (decide (o = Returns)); destruct E as [Hc ->]; cbn.
    + rewrite u64_small by lia. rewrite (H3 Hc) in *. split_and!; auto; lia.
    + split_and!; auto; try lia. by rewrite H2, app_assoc.
  - destruct (IH ltac:(lia)) as (H1 & H2 & H3 & H4). pose proof (zlen_nonneg woken).
    assert (Hr : 0 <= r) by (clear -R; induction R; try case_decide; lia).
    unfold FiberSemaphore_notify. destruct (fs_waiters m) as [|w rest] eqn:Ew; cbn.
    + rewrite u64_small, app_nil_r by lia. split_and!; auto; lia.
    + rewrite zlen_app. change (zlen [w]) with 1. rewrite <- app_assoc. split_and!; auto; [lia|].
      intros Hc. by specialize (H3 Hc).
Qed.

End Semaphore.

Lemma semaphore_witness :
  1 + 1 = fs_concurrency (mkFiberSemaphore [] 1) + 1 + zlen (@nil waiter).
Proof.
  assert (R : sem_run 1 1 1 [] [] (mkFiberSemaphore [] 1)).
  { change 1 with (0 + 1) at 2. apply (sr_notify 1 0 1 [] [] (mkFiberSemaphore [] 0)).
    change 1 with (if decide (Returns = Returns) then 0 + 1 else 0) at 2.
    apply (sr_wait 1 0 0 [] [] (FiberSemaphore_new 1) 1%positive 1%positive (mkFiberSemaphore [] 0) Returns);
      [constructor|apply not_elem_of_nil|reflexivity]. }
  apply (semaphore_conserves 1 1 1 [] [] (mkFiberSemaphore [] 1) R); lia.
Defined.

(** ** The event *)

Section Event.
Variable autoReset : bool.

(** Runs of an event: who was queued and who was scheduled, in order. *)
Inductive ev_run : list waiter -> list waiter -> FiberEvent -> Prop :=
| er_new : ev_run [] [] (FiberEvent_new autoReset)
| er_wait queued woken e s f e' o :
    ev_run queued woken e -> FiberEvent_wait (mkCaller (Some s) f) e = Ok (e', o) ->
    ev_run (if decide (o = Returns) then queued else queued ++ [(s, f)]) woken e'
| er_set queued woken e :
    ev_run queued woken e -> ev_run queued (woken ++ snd (FiberEvent_set e)) (fst (FiberEvent_set e))
| er_reset queued woken e : ev_run queued woken e -> ev_run queued woken (FiberEvent_reset e).

Lemma ev_run_ok queued woken e :
  ev_run queued woken e ->
  fe_autoReset e = autoReset /\ queued = woken ++ fe_waiters e /\ (fe_signalled e = true -> fe_waiters e = []).
Proof.
  induction 1 as [|queued woken e s f e' o R (H1 & H2 & H3) E|queued woken e R (H1 & H2 & H3)|queued woken e R (H1 & H2 & H3)].
  - done.
  - unfold FiberEvent_wait in E. cbn [this_scheduler this_fiber] in E.
    destruct (fe_signalled e) eqn:Es; injection E as <- <-; cbn; split_and!; auto; try done. by rewrite H2, app_assoc.
  - unfold FiberEvent_set. rewrite H1. destruct autoReset; cbn; [|split_and!; auto; by rewrite app_nil_r].
    destruct (fe_waiters e) as [|w rest] eqn:Ew; cbn; split_and!; auto.
    + rewrite H2, !app_nil_r. done.
    + by rewrite <- app_assoc.
    + intros Hs. by apply H3 in Hs.
  - done.
Qed.

(** The event: fibers are released strictly in the order in which they were queued, none waits
    while the event is set, and [set] is never lost: on an auto-reset event it releases exactly the first
    waiter or lets exactly the next call of [wait] through, on another it releases all waiters and lets every
    call through until [reset]. *)
Theorem event_set_spec queued woken e :
  ev_run queued woken e ->
  queued = woken ++ fe_waiters e /\ (fe_signalled e = true -> fe_waiters e = []) /\
  let '(e', released) := FiberEvent_set e in
  if autoReset then
    match fe_waiters e with
    | first :: rest => released = [first] /\ fe_waiters e' = rest /\ fe_signalled e' = false
    | [] => released = [] /\ forall c, FiberEvent_wait c e' = Ok (FiberEvent_new true, Returns)
    end
  else released = fe_waiters e /\ forall c, FiberEvent_wait c e' = Ok (e', Returns).
Proof.
  intros R. destruct (ev_run_ok _ _ _ R) as (H1 & H2 & H3). split_and!; auto.
  unfold FiberEvent_set. rewrite H1. destruct autoReset; [|done].
  destruct (fe_waiters e) as [|w rest] eqn:Ew; [done|]. cbn. split_and!; auto.
  destruct (fe_signalled e); [|done]. by specialize (H3 eq_refl).
Qed.

End Event.

Lemma event_witness :
  let e := mkFiberEvent false true [(1, 1)%positive] in
  snd (FiberEvent_set e) = [(1, 1)%positive] /\ fe_signalled (fst (FiberEvent_set e)) = false.
Proof.
  assert (R : ev_run true [(1, 1)%positive] [] (mkFiberEvent false true [(1, 1)%positive])).
  { change [(1, 1)%positive] with (if decide (Yields = Returns) then [] else [] ++ [(1, 1)%positive]) at 1.
    apply (er_wait true [] [] (FiberEvent_new true) 1%positive 1%positive _ Yields); [constructor|reflexivity]. }
  destruct (event_set_spec true _ _ _ R) as (_ & _ & H). cbn in H |- *. tauto.
Defined.

(** ** The recursive mutex *)

(** Free and idle, or held at least once. *)
Definition rm_ok (m : RecursiveFiberMutex) : Prop :=
  match rm_owner m with
  | None => rm_recursion m = 0 /\ rm_waiters m = []
  | Some _ => 0 < rm_recursion m < 2 ^ 32
  end.

Section Nested.
Variable c : caller.

(** [n] calls of [lock] that all return at once, and [n] calls of [unlock]. *)
Fixpoint lock_times (n : nat) (m : RecursiveFiberMutex) : result RecursiveFiberMutex :=
  match n with
  | O => Ok m
  | S n' =>
      '(m', o) ← RecursiveFiberMutex_lock c m;
      if decide (o = Returns) then lock_times n' m' else Err Diverges
  end.

Fixpoint unlock_times (n : nat) (m : RecursiveFiberMutex) : result (RecursiveFiberMutex * list waiter) :=
  match n with
  | O => Ok (m, [])
  | S n' =>
      '(m', woken) ← RecursiveFiberMutex_unlock c m;
      '(m'', woken') ← unlock_times n' m';
      Ok (m'', woken ++ woken')
  end.

Hypothesis Hc : is_Some (this_scheduler c).

Lemma lock_owned n m :
  rm_owner m = Some (this_fiber c) -> 0 <= rm_recursion m -> rm_recursion m + Z.of_nat n < 2 ^ 32 ->
  lock_times n m = Ok (mkRecursiveFiberMutex (rm_owner m) (rm_waiters m) (rm_recursion m + Z.of_nat n)).
Proof.
  destruct Hc as [s Hs]. revert m. induction n as [|n IH]; intros m Ho Hr Hb; cbn [lock_times].
  - rewrite Z.add_0_r. by destruct m.
  - unfold RecursiveFiberMutex_lock, with_scheduler. rewrite Hs, bool_decide_true by done. step.
    rewrite decide_True by done. unfold u32. rewrite Z.mod_small by lia. rewrite IH by (cbn; auto; lia). cbn.
    do 2 f_equal; lia.
Qed.

Lemma unlock_owned n m :
  rm_owner m = Some (this_fiber c) -> rm_recursion m < 2 ^ 32 -> Z.of_nat n < rm_recursion m ->
  unlock_times n m = Ok (mkRecursiveFiberMutex (rm_owner m) (rm_waiters m) (rm_recursion m - Z.of_nat n), []).
Proof.
  revert m. induction n as [|n IH]; intros m Ho Hr Hb; cbn [unlock_times].
  - rewrite Z.sub_0_r. by destruct m.
  - unfold RecursiveFiberMutex_unlock, leave. rewrite (proj2 (Z.ltb_lt 0 (rm_recursion m))) by lia. step.
    cbn [rm_recursion]. unfold u32. rewrite Z.mod_small by lia.
    rewrite (proj2 (Z.eqb_neq (rm_recursion m - 1) 0)) by lia. step. rewrite IH by (cbn; auto; lia). cbn.
    do 3 f_equal; lia.
Qed.

Lemma unlock_last m :
  rm_owner m = Some (this_fiber c) -> rm_recursion m = 1 ->
  RecursiveFiberMutex_unlock c m = Ok (match rm_waiters m with
    | [] => (mkRecursiveFiberMutex None [] 0, [])
    | next :: rest => (mkRecursiveFiberMutex (Some (snd next)) rest 1, [next])
    end).
Proof.
  intros Ho Hr. unfold RecursiveFiberMutex_unlock, leave. rewrite Hr. step.
  unfold RecursiveFiberMutex_unlockNoLock. cbn [rm_owner rm_waiters rm_recursion]. rewrite bool_decide_true by done. step.
  by destruct (rm_waiters m).
Qed.

Lemma unlock_times_snoc n m m' :
  unlock_times n m = Ok (m', []) -> unlock_times (S n) m = (RecursiveFiberMutex_unlock c m').
Proof.
  revert m. induction n as [|n IH]; intros m E.
  - injection E as <-. cbn. destruct (RecursiveFiberMutex_unlock c m) as [[? ?]|]; [|done]. cbn. by rewrite app_nil_r.
  - cbn [unlock_times] in E. change (unlock_times (S (S n)) m) with
      ('(m', woken) ← RecursiveFiberMutex_unlock c m; '(m'', woken') ← unlock_times (S n) m'; Ok (m'', woken ++ woken')).
    destruct (RecursiveFiberMutex_unlock c m) as [[m1 w1]|]; [|done]. cbn [mbind result_bind] in *.
    destruct (unlock_times n m1) as [[m2 w2]|] eqn:E1; [|done]. cbn [mbind result_bind] in E.
    injection E as -> E. apply app_eq_nil in E as [-> ->]. rewrite (IH _ E1).
    destruct (RecursiveFiberMutex_unlock c m') as [[? ?]|]; done.
Qed.

(** The recursive mutex: [n] nested calls of [lock] by one fiber all return at once, the first
    [n - 1] calls of [unlock] release nothing, and the last one leaves a free mutex as it was and a mutex
    held before at the level it had. *)
Theorem recursive_nesting n m :
  rm_ok m -> rm_owner m = None \/ rm_owner m = Some (this_fiber c) ->
  rm_recursion m + Z.of_nat n < 2 ^ 32 ->
  exists m', lock_times n m = Ok m' /\ rm_ok m' /\ unlock_times n m' = Ok (m, []).
Proof.
  intros Hok Ho Hb. unfold rm_ok in Hok. destruct Hc as [s Hs].
  destruct (rm_owner m) as [f|] eqn:Eo.
  - destruct Ho as [?|[= ->]]; [done|]. rewrite lock_owned by (auto; lia). rewrite Eo. eexists. split; [done|].
    split; [unfold rm_ok; cbn; lia|]. rewrite unlock_owned by (cbn; auto; lia). cbn. do 2 f_equal.
    destruct m; cbn in *. f_equal; [done|lia].
  - destruct Hok as [Hr Hw]. destruct n as [|n].
    { exists m. cbn. split_and!; auto. unfold rm_ok. by rewrite Eo. }
    cbn [lock_times]. unfold RecursiveFiberMutex_lock at 1, with_scheduler. rewrite Hs, Eo.
    rewrite bool_decide_false by done. rewrite Hw. unfold not_queued. rewrite bool_decide_true by apply not_elem_of_nil.
    step. rewrite decide_True by done. rewrite lock_owned by (cbn; auto; lia). cbn [rm_owner rm_waiters rm_recursion].
    eexists. split; [done|]. split; [unfold rm_ok; cbn; lia|].
    erewrite unlock_times_snoc; [|apply unlock_owned; cbn; auto; lia]. rewrite unlock_last by (cbn; auto; lia). cbn.
    destruct m. cbn in *. by subst.
Qed.

End Nested.

Lemma recursive_witness :
  exists m', lock_times (mkCaller (Some 1%positive) 1%positive) 3 RecursiveFiberMutex_new = Ok m' /\
    unlock_times (mkCaller (Some 1%positive) 1%positive) 3 m' = Ok (RecursiveFiberMutex_new, []).
Proof.
  destruct (recursive_nesting (mkCaller (Some 1%positive) 1%positive) (ltac:(by exists 1%positive)) 3 RecursiveFiberMutex_new)
    as (m' & E1 & _ & E2); [done|by left|cbn; lia|]. by exists m'.
Defined.

(** What the assertions of [unlock] let pass: a fiber that does not own the mutex takes a level away. *)
Lemma recursive_unlock_foreign c m g :
  rm_owner m = Some g -> this_fiber c <> g -> 2 <= rm_recursion m < 2 ^ 32 ->
  RecursiveFiberMutex_unlock c m = Ok (mkRecursiveFiberMutex (Some g) (rm_waiters m) (rm_recursion m - 1), []).
Proof.
  intros Ho Hne Hr. unfold RecursiveFiberMutex_unlock, leave. rewrite (proj2 (Z.ltb_lt 0 (rm_recursion m))) by lia. step.
  cbn [rm_recursion]. unfold u32. rewrite Z.mod_small by lia. rewrite (proj2 (Z.eqb_neq (rm_recursion m - 1) 0)) by lia.
  by rewrite Ho.
Qed.
