(* ===== verification/Stream.v ===== *)
(** [streams/stream.h] and [streams/stream.cpp]: methods as functions on the state of an object, the virtual methods as a class, and the classes that say
    what a stream promises to the filter above it. *)

From stdpp Require Import numbers list_numbers list.
From S2P Require Import Prelude.

(** ** Methods

    A method changes the object it is called on and returns, throws or fails; what it changed
    before it threw stays changed.  The bytes of a [Buffer] argument are passed as a list. *)

Definition op (S A : Type) : Type := S -> result A * S.

(** A method written on the state itself. *)
Definition method {S A} (f : S -> result A * S) : op S A := f.

#[global] Instance op_ret {S} : MRet (op S) := fun A a s => (Ok a, s).

#[global] Instance op_bind {S} : MBind (op S) := fun A B f m s =>
  match m s with
  | (Ok a, s') => f a s'
  | (Err e, s') => (Err e, s')
  end.

Definition lift {S A} (r : result A) : op S A := fun s => (r, s).
Definition gets {S A} (f : S -> A) : op S A := fun s => (Ok (f s), s).
Definition modify {S} (f : S -> S) : op S unit := fun s => (Ok tt, f s).

(** A call on a member object. *)
Definition zoom {S P A} (get : S -> P) (set : P -> S -> S) (m : op P A) : op S A := fun s =>
  match m (get s) with (r, p') => (r, set p' s) end.

(** [try { m } catch (...) { h }] *)
Definition catch {S A} (m : op S A) (h : exn -> op S A) : op S A := fun s =>
  match m s with
  | (Err (Thrown e), s') => h e s'
  | r => r
  end.

Definition check {S} (b : bool) : op S unit := lift (ASSERT b).
Definition raise {S A} (e : exn) : op S A := lift (throw e).

(** Exceptions of the stream library. *)
Definition write_beyond_eof : exn := other_exn 1.
Definition buffer_overflow : exn := other_exn 2.
Definition broken_pipe : exn := other_exn 3.
Definition operation_aborted : exn := other_exn 4.
Definition invalid_chunk : exn := other_exn 5.

Section Op.
Context {S : Type}.

Lemma bind_ok {A B} (m : op S A) (f : A -> op S B) s a s' : m s = (Ok a, s') -> (m ≫= f) s = f a s'.
Proof. intros E. unfold mbind, op_bind. by rewrite E. Qed.

Lemma bind_err {A B} (m : op S A) (f : A -> op S B) s e s' : m s = (Err e, s') -> (m ≫= f) s = (Err e, s').
Proof. intros E. unfold mbind, op_bind. by rewrite E. Qed.

Lemma zoom_ok {P A} (get : S -> P) set (m : op P A) s r p' : m (get s) = (r, p') -> zoom get set m s = (r, set p' s).
Proof. intros E. unfold zoom. by rewrite E. Qed.

End Op.

(** ** The interface [Stream] *)

Inductive Anchor := BEGIN | CURRENT | END_.

#[global] Instance Anchor_eq_dec : EqDecision Anchor.
Proof. solve_decision. Defined.

(** [CloseType] as a pair of flags. *)
Record CloseType := mkCloseType { closes_read : bool; closes_write : bool }.
Definition READ : CloseType := mkCloseType true false.
Definition WRITE : CloseType := mkCloseType false true.
Definition BOTH : CloseType := mkCloseType true true.

(** The virtual methods.  [read n] gives the bytes appended to the caller's buffer, [write bs] how
    many of the bytes were taken; [find] is the one that looks for a byte. *)
Class Stream (S : Type) := {
  supportsHalfClose : S -> bool;
  supportsRead : S -> bool;
  supportsWrite : S -> bool;
  supportsSeek : S -> bool;
  supportsTell : S -> bool;
  supportsSize : S -> bool;
  supportsTruncate : S -> bool;
  supportsFind : S -> bool;
  supportsUnread : S -> bool;
  close : CloseType -> op S unit;
  read : Z -> op S (list Z);
  write : list Z -> op S Z;
  seek : Z -> Anchor -> op S Z;
  size : op S Z;
  truncate : Z -> op S unit;
  flush : bool -> op S unit;
  find : Z -> Z -> bool -> op S Z;
  unread : list Z -> op S unit;
}.

(** [MORDOR_NOTREACHED()] *)
Definition not_reached {S A} : op S A := lift (Err Assertion).

Definition tell {S} `{!Stream S} : op S Z := seek 0 CURRENT.

(** [Stream::getDelimited(char)].  [MORDOR_VERIFY] checks that the whole of it was read. *)
Definition getDelimited {S} `{!Stream S} (delim : Z) (eofIsDelimiter includeDelimiter : bool)
    : op S (list Z) :=
  offset ← find delim npos (negb eofIsDelimiter);
  let atEof := offset <? 0 in
  let offset := if offset <? 0 then - offset - 1 else offset in
  let n := offset + (if atEof then 0 else 1) in
  result ← read n;
  check (zlen result =? n) ≫= fun _ =>
  mret (if negb atEof && negb includeDelimiter then ztake (zlen result - 1) result else result).

(** ** What streams promise *)

(** A stream to read from: what it still holds.  A call of [read] gives at least one byte unless
    there is none left, and never more than asked for. *)
Class Source (S : Type) `{!Stream S} := {
  src_ok : S -> Prop;
  src : S -> list Z;
  src_read : forall s n, src_ok s -> 0 < n < 2 ^ 63 ->
    exists bs s', read n s = (Ok bs, s') /\ src_ok s' /\ src s = bs ++ src s' /\ zlen bs <= n /\
      (bs = [] -> src s = []);
}.

(** A stream to write to: what has been written.  A call of [write] takes at least one byte, or throws and
    takes none. *)
Class Sink (S : Type) `{!Stream S} := {
  snk_ok : S -> Prop;
  snk : S -> list Z;
  snk_write : forall s bs, snk_ok s -> 0 < zlen bs -> zlen (snk s) + zlen bs < 2 ^ 62 ->
    exists r s', write bs s = (r, s') /\ snk_ok s' /\
      ((exists n, r = Ok n /\ 0 < n <= zlen bs /\ snk s' = snk s ++ ztake n bs) \/
       (exists e, r = throw e /\ snk s' = snk s));
}.

(** A stream whose [write] takes everything, as a buffered stream or a memory stream does. *)
Class WholeSink (S : Type) `{!Stream S} := {
  ws_ok : S -> Prop;
  ws : S -> list Z;
  ws_supports : forall s, ws_ok s -> supportsWrite s = true;
  ws_write : forall s bs, ws_ok s -> zlen (ws s) + zlen bs < 2 ^ 62 ->
    exists s', write bs s = (Ok (zlen bs), s') /\ ws_ok s' /\ ws s' = ws s ++ bs;
}.

(** A stream to read lines and data from: a line is found when it is shorter than [ls_limit]. *)
Class LineSource (S : Type) `{!Stream S} := {
  ls_ok : S -> Prop;
  ls_src : S -> list Z;
  ls_limit : S -> Z;
  ls_read : forall s n, ls_ok s -> 0 < n < 2 ^ 62 ->
    exists bs s', read n s = (Ok bs, s') /\ ls_ok s' /\ ls_limit s' = ls_limit s /\
      ls_src s = bs ++ ls_src s' /\ zlen bs <= n /\ (bs = [] -> ls_src s = []);
  ls_line : forall s delim line rest, ls_ok s -> ls_src s = line ++ delim :: rest -> delim ∉ line -> zlen line < ls_limit s ->
    exists s', getDelimited delim false true s = (Ok (line ++ [delim]), s') /\ ls_ok s' /\
      ls_limit s' = ls_limit s /\ ls_src s' = rest;
  ls_no_line : forall s delim, ls_ok s -> delim ∉ ls_src s -> zlen (ls_src s) < ls_limit s ->
    exists s', getDelimited delim false true s = (throw unexpected_eof, s') /\ ls_ok s' /\
      ls_limit s' = ls_limit s /\ ls_src s' = ls_src s;
}.

(** Reading everything: the calls a client makes until one returns nothing. *)
Fixpoint read_all {S} `{!Stream S} (fuel : nat) (n : Z) : op S (list Z) :=
  match fuel with
  | O => lift (Err Diverges)
  | Datatypes.S fuel' =>
      bs ← read n;
      if zlen bs =? 0 then mret []
      else rest ← read_all fuel' n; mret (bs ++ rest)
  end.

(** A source read to its end gives what it held. *)
Lemma read_all_ok {S} `{Source S} fuel n s :
  src_ok s -> 0 < n < 2 ^ 63 -> (length (src s) < fuel)%nat ->
  exists s', read_all fuel n s = (Ok (src s), s') /\ src_ok s' /\ src s' = [].
Proof.
  revert s. induction fuel as [|fuel IH]; intros s Hok Hn Hf; [lia|].
  destruct (src_read s n Hok Hn) as (bs & s1 & E & Hok1 & Es & Hl & He). cbn [read_all].
  rewrite (bind_ok _ _ _ _ _ E). destruct (Z.eqb_spec (zlen bs) 0) as [E0|E0].
  - assert (bs = []) as -> by (by apply zlen_zero_inv). exists s1. rewrite He by done.
    rewrite He in Es by done. split_and!; auto.
  - destruct (IH s1 Hok1 Hn) as (s2 & E2 & Hok2 & Es2).
    { rewrite Es, length_app in Hf. destruct bs; [done|]. cbn in Hf. lia. }
    exists s2. rewrite (bind_ok _ _ _ _ _ E2). split_and!; auto. by rewrite Es.
Qed.
