(* ===== verification/StreamMemory.v ===== *)
(** [streams/memory.h] and [streams/memory.cpp], and that a [MemoryStream] is a file in memory. *)

From stdpp Require Import numbers list_numbers list.
From S2P Require Import Prelude Buffer BufferRead Stream.

(** ** [Buffer] seen by its clients

    A client sees the bytes that can be read; these are the operations it uses, each with the
    assertion the implementation makes. *)

Definition buf_consume (n : Z) (b : list Z) : result (list Z) :=
  assert: n <=? zlen b ;; Ok (zdrop n b).

Definition buf_truncate (n : Z) (b : list Z) : result (list Z) :=
  assert: n <=? zlen b ;; Ok (ztake n b).

Definition buf_copyOut (n : Z) (b : list Z) : result (list Z) :=
  assert: n <=? zlen b ;; Ok (ztake n b).

(** [find(char, length)] *)
Definition buf_find (delim n : Z) (b : list Z) : result Z :=
  assert: n <=? zlen b ;; Ok (match memchr delim (ztake n b) with Some i => i | None => -1 end).

(** ** [MemoryStream] *)

Record MemoryStream := mkMemoryStream {
  ms_read : list Z;
  ms_original : list Z;
  ms_offset : Z;       (* size_t *)
}.

Definition MemoryStream_new : MemoryStream := mkMemoryStream [] [] 0.
Definition MemoryStream_of (b : list Z) : MemoryStream := mkMemoryStream b b 0.

Definition MemoryStream_read (n : Z) : op MemoryStream (list Z) := fun s =>
  let todo := Z.min n (zlen (ms_read s)) in
  match buf_copyOut todo (ms_read s) with
  | Err e => (Err e, s)
  | Ok bs =>
      match buf_consume todo (ms_read s) with
      | Err e => (Err e, s)
      | Ok r => (Ok bs, mkMemoryStream r (ms_original s) (u64 (ms_offset s + todo)))
      end
  end.

Definition MemoryStream_size : op MemoryStream Z := gets (fun s => s64 (zlen (ms_original s))).

(** The new tail [truncate] adds is memory set to zero. *)
Definition MemoryStream_truncate (size : Z) : op MemoryStream unit := fun s =>
  if negb (0 <=? size) then (Err Assertion, s)
  else
    let currentSize := zlen (ms_original s) in
    let step : result MemoryStream :=
      if currentSize =? size then Ok s
      else if size <? currentSize then
        o ← buf_truncate size (ms_original s);
        r ← (if size <? ms_offset s then Ok [] else buf_truncate (u64 (size - ms_offset s)) (ms_read s));
        Ok (mkMemoryStream r o (ms_offset s))
      else
        let o := ms_original s ++ repeat 0 (Z.to_nat (size - currentSize)) in
        r ← buf_consume (Z.min (ms_offset s) size) o;
        Ok (mkMemoryStream r o (ms_offset s)) in
    match step with
    | Err e => (Err e, s)
    | Ok s' => if zlen (ms_original s') =? size then (Ok tt, s') else (Err Assertion, s')
    end.

Definition MemoryStream_write (bs : list Z) : op MemoryStream Z := fun s =>
  let size := zlen (ms_original s) in
  let length := zlen bs in
  if ms_offset s =? size then
    (Ok length, mkMemoryStream (ms_read s) (ms_original s ++ bs) (u64 (ms_offset s + length)))
  else if size <? ms_offset s then
    match MemoryStream_truncate (s64 (ms_offset s)) s with
    | (Err e, s') => (Err e, s')
    | (Ok _, s') => (Ok length, mkMemoryStream (ms_read s') (ms_original s' ++ bs) (u64 (ms_offset s' + length)))
    end
  else
    let step : result MemoryStream :=
      o ← buf_truncate (ms_offset s) (ms_original s);
      original ← buf_consume (ms_offset s) (ms_original s);
      let o' := o ++ bs in
      let offset' := u64 (ms_offset s + length) in
      if offset' <? size then
        rest ← buf_consume length original;
        Ok (mkMemoryStream rest (o' ++ rest) offset')
      else Ok (mkMemoryStream (ms_read s) o' offset') in
    match step with
    | Err e => (Err e, s)
    | Ok s' => (Ok length, s')
    end.

(** [seek(offset, BEGIN)].  The test against [(size_t)~0] never succeeds for a 64-bit [size_t]. *)
Definition MemoryStream_seek_begin (offset : Z) : op MemoryStream Z := fun s =>
  if offset <? 0 then (throw invalid_argument, s)
  else if npos <? u64 offset then (throw invalid_argument, s)
  else
    match buf_consume (Z.min (u64 offset) (zlen (ms_original s))) (ms_original s) with
    | Err e => (Err e, s)
    | Ok r => (Ok (s64 (u64 offset)), mkMemoryStream r (ms_original s) (u64 offset))
    end.

Definition MemoryStream_seek_current (offset : Z) : op MemoryStream Z := fun s =>
  let size := zlen (ms_original s) in
  if offset <? 0 then MemoryStream_seek_begin (s64 (ms_offset s + offset)) s
  else if npos <? u64 (ms_offset s + offset) then (throw invalid_argument, s)
  else if ms_offset s <=? size then
    match buf_consume (Z.min (u64 offset) (u64 (size - ms_offset s))) (ms_read s) with
    | Err e => (Err e, s)
    | Ok r => (Ok (s64 (u64 (ms_offset s + offset))), mkMemoryStream r (ms_original s) (u64 (ms_offset s + offset)))
    end
  else (Ok (s64 (ms_offset s)), s).

Definition MemoryStream_seek (offset : Z) (anchor : Anchor) : op MemoryStream Z := fun s =>
  match anchor with
  | BEGIN => MemoryStream_seek_begin offset s
  | CURRENT => MemoryStream_seek_current offset s
  | END_ => MemoryStream_seek_current (s64 (zlen (ms_original s) + offset - ms_offset s)) s
  end.

Definition MemoryStream_find (delim sanitySize : Z) (throwIfNotFound : bool) : op MemoryStream Z :=
  b ← gets ms_read;
  result ← lift (buf_find delim (Z.min sanitySize (zlen b)) b);
  if negb (result =? -1) then mret result
  else if throwIfNotFound then raise unexpected_eof
  else mret (- zlen b - 1).

#[global] Instance MemoryStream_Stream : Stream MemoryStream := {
  supportsHalfClose := fun _ => false;
  supportsRead := fun _ => true;
  supportsWrite := fun _ => true;
  supportsSeek := fun _ => true;
  supportsTell := fun _ => true;
  supportsSize := fun _ => true;
  supportsTruncate := fun _ => true;
  supportsFind := fun _ => true;
  supportsUnread := fun _ => false;
  close := fun _ => mret tt;
  read := MemoryStream_read;
  write := MemoryStream_write;
  seek := MemoryStream_seek;
  size := MemoryStream_size;
  truncate := MemoryStream_truncate;
  flush := fun _ => mret tt;
  find := MemoryStream_find;
  unread := fun _ => not_reached;
}.

(** ** A file in memory: the contract *)

(** The contents and the position, which may lie past the end. *)
Record file := mkFile { f_bytes : list Z; f_pos : Z }.

Definition file_rest (f : file) : list Z := zdrop (f_pos f) (f_bytes f).

Definition file_read (n : Z) (f : file) : list Z * file :=
  let bs := ztake n (file_rest f) in (bs, mkFile (f_bytes f) (f_pos f + zlen bs)).

(** The bytes up to [n], with zeros where there were none. *)
Definition pad (n : Z) (l : list Z) : list Z := ztake n l ++ repeat 0 (Z.to_nat (n - zlen l)).

Definition file_write (bs : list Z) (f : file) : file :=
  mkFile (pad (f_pos f) (f_bytes f) ++ bs ++ zdrop (f_pos f + zlen bs) (f_bytes f)) (f_pos f + zlen bs).

Definition file_truncate (n : Z) (f : file) : file := mkFile (pad n (f_bytes f)) (f_pos f).

(** The stream holds the file; its read buffer is the rest of it. *)
Record ms_ok (s : MemoryStream) : Prop := {
  mo_read : ms_read s = zdrop (ms_offset s) (ms_original s);
  mo_offset : 0 <= ms_offset s < 2 ^ 62;
  mo_size : zlen (ms_original s) < 2 ^ 62;
}.

Definition file_of (s : MemoryStream) : file := mkFile (ms_original s) (ms_offset s).

Lemma zlen_repeat {A} (x : A) n : 0 <= n -> zlen (repeat x (Z.to_nat n)) = n.
Proof. intros. unfold zlen. rewrite repeat_length. lia. Qed.

Lemma repeat_nil {A} (x : A) n : n <= 0 -> repeat x (Z.to_nat n) = [].
Proof. intros. replace (Z.to_nat n) with O by lia. done. Qed.

Lemma zlen_pad n l : 0 <= n -> zlen (pad n l) = n.
Proof.
  intros. unfold pad. rewrite zlen_app, zlen_ztake by lia. destruct (decide (zlen l <= n)).
  - rewrite zlen_repeat by lia. lia.
  - rewrite repeat_nil by lia. change (zlen []) with 0. lia.
Qed.

Lemma pad_inside n l : n <= zlen l -> pad n l = ztake n l.
Proof. intros. unfold pad. rewrite repeat_nil, app_nil_r by lia. done. Qed.

Lemma pad_beyond n l : zlen l <= n -> pad n l = l ++ repeat 0 (Z.to_nat (n - zlen l)).
Proof. intros. unfold pad. rewrite ztake_all by lia. done. Qed.

Lemma ms_read_ok s n :
  ms_ok s -> 0 <= n ->
  exists s', MemoryStream_read n s = (Ok (fst (file_read n (file_of s))), s') /\ ms_ok s' /\
    file_of s' = snd (file_read n (file_of s)).
Proof.
  intros [Hr Ho Hs] Hn. unfold MemoryStream_read, buf_copyOut, buf_consume. pose proof (zlen_nonneg (ms_read s)).
  assert (L : zlen (ms_read s) = Z.max 0 (zlen (ms_original s) - ms_offset s)) by (rewrite Hr, zlen_zdrop; lia).
  repeat ztest. step. u64_small. unfold file_read, file_rest, file_of. cbn [f_bytes f_pos fst snd].
  rewrite <- Hr. set (todo := Z.min n (zlen (ms_read s))).
  assert (Et : ztake n (ms_read s) = ztake todo (ms_read s)).
  { unfold todo. destruct (decide (n <= zlen (ms_read s))); [rewrite Z.min_l; done|].
    rewrite Z.min_r, !ztake_all; done || lia. }
  rewrite Et. assert (Lt : zlen (ztake todo (ms_read s)) = todo) by (rewrite zlen_ztake; unfold todo; lia).
  rewrite Lt. eexists. split; [done|]. split; [|done]. split; cbn.
  - rewrite Hr, zdrop_zdrop by (unfold todo; lia). done.
  - unfold todo. lia.
  - done.
Qed.

Lemma ms_truncate_ok s n :
  ms_ok s -> 0 <= n < 2 ^ 62 ->
  exists s', MemoryStream_truncate n s = (Ok tt, s') /\ ms_ok s' /\ file_of s' = file_truncate n (file_of s).
Proof.
  intros [Hr Ho Hs] Hn. unfold MemoryStream_truncate, file_truncate, file_of. cbn [f_bytes f_pos].
  assert (L : zlen (ms_read s) = Z.max 0 (zlen (ms_original s) - ms_offset s)) by (rewrite Hr, zlen_zdrop; lia).
  rewrite (proj2 (Z.leb_le 0 n)) by lia. cbn [negb].
  destruct (Z.eqb_spec (zlen (ms_original s)) n) as [E|E].
  { rewrite (proj2 (Z.eqb_eq _ _)) by done. exists s. rewrite pad_inside, ztake_all by lia. split_and!; auto. by split. }
  destruct (Z.ltb_spec n (zlen (ms_original s))) as [Hl|Hl].
  - unfold buf_truncate. ztest. step.
    assert (Lo : zlen (ztake n (ms_original s)) = n) by (rewrite zlen_ztake; lia).
    rewrite pad_inside by lia. destruct (Z.ltb_spec n (ms_offset s)).
    + step. cbn [ms_original]. rewrite Lo, Z.eqb_refl. eexists. split; [done|]. split; [|done]. split; cbn; [|done|lia].
      rewrite zdrop_all by lia. done.
    + u64_small. ztest. step. cbn [ms_original]. rewrite Lo, Z.eqb_refl. eexists. split; [done|]. split; [|done].
      split; cbn; [|done|lia]. rewrite Hr, zdrop_ztake by lia. done.
  - rewrite pad_beyond by lia. unfold buf_consume.
    assert (Lo : zlen (ms_original s ++ repeat 0 (Z.to_nat (n - zlen (ms_original s)))) = n)
      by (rewrite zlen_app, zlen_repeat; lia).
    rewrite Lo. ztest. step. cbn [ms_original]. rewrite Lo, Z.eqb_refl. eexists. split; [done|]. split; [|done].
    split; cbn; [|done|lia]. destruct (decide (ms_offset s <= n)); [rewrite Z.min_l; done|].
    rewrite Z.min_r by lia. rewrite !zdrop_all; done || lia.
Qed.

Lemma ms_seek_begin_ok s n :
  ms_ok s -> n < 2 ^ 62 ->
  MemoryStream_seek n BEGIN s =
    if n <? 0 then (throw invalid_argument, s)
    else (Ok n, mkMemoryStream (zdrop n (ms_original s)) (ms_original s) n).
Proof.
  intros [Hr Ho Hs] Hn. unfold MemoryStream_seek, MemoryStream_seek_begin. destruct (Z.ltb_spec n 0); [done|].
  u64_small. unfold npos, buf_consume. repeat ztest. step. rewrite s64_small by lia. do 2 f_equal.
  destruct (decide (n <= zlen (ms_original s))); [rewrite Z.min_l; done|]. rewrite Z.min_r by lia. rewrite !zdrop_all; done || lia.
Qed.

Lemma ms_write_ok s bs :
  ms_ok s -> ms_offset s + zlen bs < 2 ^ 62 ->
  zlen (ms_original s) <= ms_offset s \/ ms_offset s + zlen bs < zlen (ms_original s) ->
  exists s', MemoryStream_write bs s = (Ok (zlen bs), s') /\ ms_ok s' /\ file_of s' = file_write bs (file_of s).
Proof.
  intros Hok Hb Hc. pose proof Hok as [Hr Ho Hs]. pose proof (zlen_nonneg bs).
  unfold MemoryStream_write, file_write, file_of. cbn [f_bytes f_pos].
  destruct (Z.eqb_spec (ms_offset s) (zlen (ms_original s))) as [E|E]; [|destruct (Z.ltb_spec (zlen (ms_original s)) (ms_offset s))].
  - u64_small. rewrite pad_inside, ztake_all, (zdrop_all (_ + _)), app_nil_r by lia. eexists. split; [done|]. split; [|done].
    split; cbn; [|lia|rewrite zlen_app; lia]. rewrite Hr, !zdrop_all by (rewrite ?zlen_app; lia). done.
  - rewrite s64_small by lia. destruct (ms_truncate_ok s (ms_offset s) Hok) as (s1 & E1 & [Hr1 Ho1 Hs1] & F1); [lia|].
    rewrite E1. unfold file_of, file_truncate in F1. cbn in F1. injection F1 as Fo Fp.
    rewrite Fp, Fo in *. u64_small. eexists. split; [done|].
    rewrite (zdrop_all (_ + _)), app_nil_r by lia. split; [|done].
    assert (Lp : zlen (pad (ms_offset s) (ms_original s)) = ms_offset s) by (apply zlen_pad; lia).
    split; cbn; [|lia|rewrite zlen_app; lia]. rewrite Hr1, !zdrop_all by (rewrite ?zlen_app; lia). done.
  - assert (Hm : ms_offset s + zlen bs < zlen (ms_original s)) by lia. unfold buf_truncate, buf_consume.
    ztest. step. u64_small. ztest. rewrite zlen_zdrop by lia. ztest. step.
    rewrite pad_inside, zdrop_zdrop, <- app_assoc by lia. eexists. split; [done|]. split; [|done].
    split; cbn; [|lia|].
    + rewrite app_assoc, zdrop_app_ge by (rewrite zlen_app, zlen_ztake; lia).
      rewrite zlen_app, zlen_ztake by lia. replace (_ - _) with 0 by lia. done.
    + rewrite !zlen_app, zlen_ztake, zlen_zdrop by lia. lia.
Qed.

(** ** The stream keeps the contract *)

(** C40 -- MemoryStream is a file in memory: read, truncate and seeking to a position from the beginning do
    what they do to a file, on every branch and without an assertion failing; so does write, at the end, past the
    end (which fills the gap with zeros) and in the middle, as long as it stops before the end. *)
Theorem memory_stream_refines s :
  ms_ok s ->
  (forall n, 0 <= n -> exists s', MemoryStream_read n s = (Ok (fst (file_read n (file_of s))), s') /\ ms_ok s' /\
     file_of s' = snd (file_read n (file_of s))) /\
  (forall n, 0 <= n < 2 ^ 62 -> exists s', MemoryStream_truncate n s = (Ok tt, s') /\ ms_ok s' /\
     file_of s' = file_truncate n (file_of s)) /\
  (forall n, n < 2 ^ 62 -> MemoryStream_seek n BEGIN s =
     if n <? 0 then (throw invalid_argument, s)
     else (Ok n, mkMemoryStream (zdrop n (ms_original s)) (ms_original s) n)) /\
  (forall bs, ms_offset s + zlen bs < 2 ^ 62 ->
     zlen (ms_original s) <= ms_offset s \/ ms_offset s + zlen bs < zlen (ms_original s) ->
     exists s', MemoryStream_write bs s = (Ok (zlen bs), s') /\ ms_ok s' /\ file_of s' = file_write bs (file_of s)).
Proof.
  intros Hok. split_and!; intros.
  - by apply ms_read_ok.
  - by apply ms_truncate_ok.
  - by apply ms_seek_begin_ok.
  - by apply ms_write_ok.
Qed.

Definition hello : MemoryStream := MemoryStream_of [104; 101; 108; 108; 111].

Lemma hello_ok : ms_ok hello.
Proof. split; [done|done|reflexivity]. Defined.

Lemma memory_stream_witness :
  exists s', MemoryStream_write [1; 2] hello = (Ok 2, s') /\ ms_original s' = [1; 2; 108; 108; 111] /\ ms_ok s'.
Proof.
  destruct (memory_stream_refines hello hello_ok) as (_ & _ & _ & W).
  destruct (W [1; 2]) as (s' & E & Hok & F); [reflexivity|right; reflexivity|].
  exists s'. injection F as Fo Fp. split_and!; [exact E|rewrite Fo; reflexivity|exact Hok].
Defined.

(** A write that reaches the end of the stream from before it leaves the read buffer as it was: the
    bytes that were overwritten are read again, past the end of the stream. *)
Theorem memory_stream_stale_read :
  exists s s', MemoryStream_seek 2 BEGIN hello = (Ok 2, s) /\ MemoryStream_write [65; 66; 67] s = (Ok 3, s') /\
    ms_original s' = [104; 101; 65; 66; 67] /\ ms_offset s' = 5 /\
    fst (MemoryStream_read 10 s') = Ok [108; 108; 111] /\ fst (file_read 10 (file_of s')) = [].
Proof. eexists _, _. split_and!; reflexivity. Qed.

(** A forward seek relative to a position past the end does not move: it returns the position the
    stream already had. *)
Theorem memory_stream_seek_stuck s n :
  ms_ok s -> 0 <= n < 2 ^ 62 -> zlen (ms_original s) < ms_offset s ->
  MemoryStream_seek n CURRENT s = (Ok (ms_offset s), s).
Proof.
  intros [Hr Ho Hs] Hn Hp. unfold MemoryStream_seek, MemoryStream_seek_current. ztest. u64_small. unfold npos. repeat ztest.
  rewrite s64_small by lia. done.
Qed.

Lemma seek_stuck_witness : MemoryStream_seek 3 CURRENT (mkMemoryStream [] [1; 2] 7) = (Ok 7, mkMemoryStream [] [1; 2] 7).
Proof. apply (memory_stream_seek_stuck (mkMemoryStream [] [1; 2] 7) 3); [split; [done|done|reflexivity]|lia|reflexivity]. Defined.

Lemma file_read_rest n f :
  0 <= f_pos f -> 0 <= n -> file_rest f = fst (file_read n f) ++ file_rest (snd (file_read n f)).
Proof.
  intros Hp Hn. unfold file_read. cbn [fst snd]. set (l := file_rest f).
  unfold file_rest. cbn [f_bytes f_pos]. rewrite <- zdrop_zdrop by auto using zlen_nonneg. fold (file_rest f). fold l.
  rewrite zlen_ztake by lia. rewrite <- (ztake_zdrop n l) at 1. f_equal.
  destruct (decide (n <= zlen l)); [rewrite Z.min_l; done|]. rewrite Z.min_r by lia. rewrite !zdrop_all; done || lia.
Qed.

(** A memory stream is a source of the rest of its file. *)
#[global, refine] Instance MemoryStream_Source : Source MemoryStream := {
  src_ok := ms_ok;
  src := fun s => file_rest (file_of s);
}.
Proof.
  intros s n Hok Hn. destruct (ms_read_ok s n Hok ltac:(lia)) as (s' & E & Hok' & F).
  eexists _, s'. split; [exact E|]. split; [done|]. rewrite F. split_and!.
  - apply file_read_rest; [apply Hok|lia].
  - unfold file_read. cbn. rewrite zlen_ztake; lia.
  - unfold file_read. cbn [fst]. intros E0. destruct (file_rest (file_of s)) as [|x l]; [done|].
    rewrite ztake_cons in E0 by lia. done.
Defined.
