(* ===== verification/StreamFilters.v ===== *)
(** [streams/filter.h], [limited], [counter], [singleplex], [null], [zero] and [cat].  A filter is its parent, whether it owns it, and its own members. *)

From stdpp Require Import numbers list_numbers list.
From S2P Require Import Prelude Stream.

(** ** [FilterStream] and [MutatingFilterStream]

    The parent is a member of the filter; what a filter does not override goes to the parent, or, in a
    mutating filter, must not be called. *)

Record Filter (P D : Type) := mkFilter { parent : P; ownsParent : bool; own : D }.
Arguments mkFilter {P D}. Arguments parent {P D}. Arguments ownsParent {P D}. Arguments own {P D}.

Section Filters.
Context {P : Type} `{!Stream P} {D : Type}.

Definition set_parent (p : P) (s : Filter P D) : Filter P D := mkFilter p (ownsParent s) (own s).
Definition set_own (d : D) (s : Filter P D) : Filter P D := mkFilter (parent s) (ownsParent s) d.

(** [parent()->m(...)] *)
Definition on_parent {A} (m : op P A) : op (Filter P D) A := zoom parent set_parent m.

(** The filter's own members. *)
Definition getp {A} (f : D -> A) : op (Filter P D) A := gets (fun s => f (own s)).
Definition setp (f : D -> D) : op (Filter P D) unit := modify (fun s => set_own (f (own s)) s).

Definition FilterStream_close (type : CloseType) : op (Filter P D) unit := fun s =>
  if ownsParent s then on_parent (close type) s else (Ok tt, s).

Definition FilterStream_flush (flushParent : bool) : op (Filter P D) unit :=
  if flushParent then on_parent (flush true) else mret tt.

Lemma on_parent_ok {A} (m : op P A) s r p' : m (parent s) = (r, p') -> on_parent m s = (r, set_parent p' s).
Proof. apply zoom_ok. Qed.

End Filters.

(** ** [LimitedStream] *)

Record Limited := mkLimited { l_pos : Z; l_size : Z; l_strict : bool }.
Definition LimitedStream (P : Type) : Type := Filter P Limited.

Section LimitedStream.
Context {P : Type} `{!Stream P}.

Definition LimitedStream_new (p : P) (size : Z) (owns : bool) : result (LimitedStream P) :=
  assert: 0 <=? size ;; Ok (mkFilter p owns (mkLimited 0 size false)).

Definition set_pos (x : Z) (d : Limited) : Limited := mkLimited x (l_size d) (l_strict d).

Definition LimitedStream_reset : op (LimitedStream P) unit := setp (set_pos 0).
Definition LimitedStream_reset_size (size : Z) : op (LimitedStream P) unit :=
  setp (fun d => mkLimited 0 size (l_strict d)).
Definition LimitedStream_strict (strict : bool) : op (LimitedStream P) unit :=
  setp (fun d => mkLimited (l_pos d) (l_size d) strict).

(** [(size_t)std::min<long long>(len, m_size - m_pos)]: the length is converted to a signed type. *)
Definition limit (len : Z) (d : Limited) : Z := u64 (Z.min (s64 len) (l_size d - l_pos d)).

Definition LimitedStream_read (len : Z) : op (LimitedStream P) (list Z) :=
  d ← getp id;
  if l_size d <=? l_pos d then mret []
  else
    bs ← on_parent (read (limit len d));
    if (zlen bs =? 0) && l_strict d then raise unexpected_eof
    else setp (fun d => set_pos (l_pos d + zlen bs) d) ≫= fun _ => mret bs.

Definition LimitedStream_write (bs : list Z) : op (LimitedStream P) Z :=
  d ← getp id;
  if l_size d <=? l_pos d then raise write_beyond_eof
  else
    n ← on_parent (write (ztake (limit (zlen bs) d) bs));
    setp (fun d => set_pos (l_pos d + n) d) ≫= fun _ => mret n.

Definition LimitedStream_size : op (LimitedStream P) Z := fun s =>
  if supportsSize (parent s) then
    match size (parent s) with
    | (Ok n, p') => (Ok (Z.min (l_size (own s)) n), set_parent p' s)
    | (Err (Thrown runtime_error), p') => (Ok (l_size (own s)), set_parent p' s)
    | (Err e, p') => (Err e, set_parent p' s)
    end
  else (Ok (l_size (own s)), s).

Definition LimitedStream_seek (offset : Z) (anchor : Anchor) : op (LimitedStream P) Z :=
  '(offset, anchor) ← (if decide (anchor = END_) then n ← LimitedStream_size; mret (offset + n, BEGIN)
                       else mret (offset, anchor));
  pos ← getp l_pos;
  let '(offset, anchor) :=
    if bool_decide (anchor = BEGIN) && (offset =? pos) then (0, CURRENT) else (offset, anchor) in
  canSeek ← gets (fun s => supportsSeek (parent s));
  if canSeek : bool then
    n ← on_parent (seek offset anchor);
    setp (set_pos n) ≫= fun _ => mret n
  else
    check (bool_decide (anchor = CURRENT) && (offset =? 0)) ≫= fun _ => mret pos.

Definition LimitedStream_unread (bs : list Z) : op (LimitedStream P) unit :=
  on_parent (unread bs) ≫= fun _ => setp (fun d => set_pos (l_pos d - zlen bs) d).

#[global] Instance LimitedStream_Stream : Stream (LimitedStream P) := {
  supportsHalfClose := fun s => supportsHalfClose (parent s);
  supportsRead := fun s => supportsRead (parent s);
  supportsWrite := fun s => supportsWrite (parent s);
  supportsSeek := fun s => supportsSeek (parent s);
  supportsTell := fun _ => true;
  supportsSize := fun _ => true;
  supportsTruncate := fun _ => false;
  supportsFind := fun _ => false;
  supportsUnread := fun _ => false;
  close := FilterStream_close;
  read := LimitedStream_read;
  write := LimitedStream_write;
  seek := LimitedStream_seek;
  size := LimitedStream_size;
  truncate := fun _ => not_reached;
  flush := FilterStream_flush;
  find := fun _ _ _ => not_reached;
  unread := LimitedStream_unread;
}.

End LimitedStream.

(** ** [CounterStream] *)

Record Counter := mkCounter { c_read : Z; c_written : Z }.   (* unsigned long long *)
Definition CounterStream (P : Type) : Type := Filter P Counter.

Section CounterStream.
Context {P : Type} `{!Stream P}.

Definition CounterStream_new (p : P) (owns : bool) : CounterStream P := mkFilter p owns (mkCounter 0 0).

Definition CounterStream_read (len : Z) : op (CounterStream P) (list Z) :=
  bs ← on_parent (read len);
  setp (fun d => mkCounter (u64 (c_read d + zlen bs)) (c_written d)) ≫= fun _ => mret bs.

Definition CounterStream_write (bs : list Z) : op (CounterStream P) Z :=
  n ← on_parent (write bs);
  setp (fun d => mkCounter (c_read d) (u64 (c_written d + n))) ≫= fun _ => mret n.

#[global] Instance CounterStream_Stream : Stream (CounterStream P) := {
  supportsHalfClose := fun s => supportsHalfClose (parent s);
  supportsRead := fun s => supportsRead (parent s);
  supportsWrite := fun s => supportsWrite (parent s);
  supportsSeek := fun s => supportsSeek (parent s);
  supportsTell := fun s => supportsTell (parent s);
  supportsSize := fun s => supportsSize (parent s);
  supportsTruncate := fun s => supportsTruncate (parent s);
  supportsFind := fun s => supportsFind (parent s);
  supportsUnread := fun s => supportsUnread (parent s);
  close := FilterStream_close;
  read := CounterStream_read;
  write := CounterStream_write;
  seek := fun o a => on_parent (seek o a);
  size := on_parent size;
  truncate := fun n => on_parent (truncate n);
  flush := FilterStream_flush;
  find := fun d n t => on_parent (find d n t);
  unread := fun bs => on_parent (unread bs);
}.

End CounterStream.

(** ** [SingleplexStream] *)

Inductive Direction := ReadSide | WriteSide.
#[global] Instance Direction_eq_dec : EqDecision Direction.
Proof. solve_decision. Defined.

Definition SingleplexStream (P : Type) : Type := Filter P Direction.

Section SingleplexStream.
Context {P : Type} `{!Stream P}.

Definition SingleplexStream_new (p : P) (type : Direction) (owns : bool) : result (SingleplexStream P) :=
  assert: (match type with ReadSide => supportsRead p | WriteSide => supportsWrite p end) ;;
  Ok (mkFilter p owns type).

Definition SingleplexStream_close (type : CloseType) : op (SingleplexStream P) unit := fun s =>
  if ownsParent s then
    let half t := if supportsHalfClose (parent s) then t else BOTH in
    match own s with
    | ReadSide => if closes_read type then on_parent (close (half READ)) s else (Ok tt, s)
    | WriteSide => if closes_write type then on_parent (close (half WRITE)) s else (Ok tt, s)
    end
  else (Ok tt, s).

(** [MORDOR_ASSERT(m_type == ...)] *)
Definition on_side {A} (side : Direction) (m : op P A) : op (SingleplexStream P) A :=
  d ← getp id;
  check (bool_decide (d = side)) ≫= fun _ => on_parent m.

Definition SingleplexStream_flush (flushParent : bool) : op (SingleplexStream P) unit :=
  d ← getp id;
  if bool_decide (d = ReadSide) then mret tt else on_parent (flush flushParent).

#[global] Instance SingleplexStream_Stream : Stream (SingleplexStream P) := {
  supportsHalfClose := fun s => supportsHalfClose (parent s);
  supportsRead := fun s => bool_decide (own s = ReadSide);
  supportsWrite := fun s => bool_decide (own s = WriteSide);
  supportsSeek := fun s => supportsSeek (parent s);
  supportsTell := fun s => supportsTell (parent s);
  supportsSize := fun s => supportsSize (parent s);
  supportsTruncate := fun s => bool_decide (own s = WriteSide) && supportsTruncate (parent s);
  supportsFind := fun s => bool_decide (own s = ReadSide) && supportsFind (parent s);
  supportsUnread := fun s => bool_decide (own s = ReadSide) && supportsUnread (parent s);
  close := SingleplexStream_close;
  read := fun n => on_side ReadSide (read n);
  write := fun bs => on_side WriteSide (write bs);
  seek := fun o a => on_parent (seek o a);
  size := on_parent size;
  truncate := fun n => on_side WriteSide (truncate n);
  flush := SingleplexStream_flush;
  find := fun d n t => on_side ReadSide (find d n t);
  unread := fun bs => on_side ReadSide (unread bs);
}.

End SingleplexStream.

(** ** [NullStream] and [ZeroStream] *)

Inductive NullStream := NullStream_get.
Inductive ZeroStream := ZeroStream_get.

#[global] Instance NullStream_Stream : Stream NullStream := {
  supportsHalfClose := fun _ => false;
  supportsRead := fun _ => true;
  supportsWrite := fun _ => true;
  supportsSeek := fun _ => true;
  supportsTell := fun _ => true;
  supportsSize := fun _ => true;
  supportsTruncate := fun _ => false;
  supportsFind := fun _ => false;
  supportsUnread := fun _ => false;
  close := fun _ => mret tt;
  read := fun _ => mret [];
  write := fun bs => mret (zlen bs);
  seek := fun _ _ => mret 0;
  size := mret 0;
  truncate := fun _ => not_reached;
  flush := fun _ => mret tt;
  find := fun _ _ _ => not_reached;
  unread := fun _ => not_reached;
}.

Definition ZeroStream_read (length : Z) : op ZeroStream (list Z) := mret (repeat 0 (Z.to_nat length)).

#[global] Instance ZeroStream_Stream : Stream ZeroStream := {
  supportsHalfClose := fun _ => false;
  supportsRead := fun _ => true;
  supportsWrite := fun _ => false;
  supportsSeek := fun _ => true;
  supportsTell := fun _ => true;
  supportsSize := fun _ => false;
  supportsTruncate := fun _ => false;
  supportsFind := fun _ => false;
  supportsUnread := fun _ => false;
  close := fun _ => mret tt;
  read := ZeroStream_read;
  write := fun _ => check false ≫= fun _ => not_reached;
  seek := fun _ _ => mret 0;
  size := not_reached;
  truncate := fun _ => not_reached;
  flush := fun _ => mret tt;
  find := fun _ _ _ => not_reached;
  unread := fun _ => not_reached;
}.

(** ** [CatStream] *)

Section CatStream.
Context {P : Type} `{!Stream P}.

Record CatStream := mkCatStream {
  cs_streams : list P;
  cs_it : nat;
  cs_seekable : bool;
  cs_size : Z;
  cs_pos : Z;
}.

(** The loop of the constructor. *)
Fixpoint CatStream_scan (seekable : bool) (total : Z) (l : list P) : result (bool * Z) :=
  match l with
  | [] => Ok (seekable, total)
  | p :: rest =>
      let seekable := seekable && supportsSeek p in
      if negb (supportsSeek p) && (total =? -1) then Ok (seekable, total)
      else if supportsSize p then
        n ← fst (size p);
        CatStream_scan seekable (total + n) rest
      else Ok (false, -1)
  end.

Definition CatStream_new (streams : list P) : result CatStream :=
  '(seekable, total) ← CatStream_scan true 0 streams;
  Ok (mkCatStream streams 0 seekable total 0).

(** Calling a method of the stream at [m_it]. *)
Definition at_it {A} (m : op P A) : op CatStream A := fun s =>
  match cs_streams s !! cs_it s with
  | None => (Err Undefined, s)
  | Some p =>
      let '(r, p') := m p in
      (r, mkCatStream (<[cs_it s := p']> (cs_streams s)) (cs_it s) (cs_seekable s) (cs_size s) (cs_pos s))
  end.

Definition advance_pos (n : Z) : op CatStream unit :=
  modify (fun s => mkCatStream (cs_streams s) (cs_it s) (cs_seekable s) (cs_size s) (cs_pos s + n)).

Definition next_stream : op CatStream bool := fun s =>
  let s' := mkCatStream (cs_streams s) (S (cs_it s)) (cs_seekable s) (cs_size s) (cs_pos s) in
  (Ok (Nat.eqb (cs_it s') (length (cs_streams s'))), s').

(** [while (true)]: every round but the last passes a stream. *)
Fixpoint CatStream_read_loop (fuel : nat) (length : Z) : op CatStream (list Z) :=
  match fuel with
  | O => lift (Err Diverges)
  | S fuel' =>
      bs ← at_it (read length);
      advance_pos (zlen bs) ≫= fun _ =>
      if zlen bs =? 0 then
        atEnd ← next_stream;
        if atEnd : bool then mret []
        else
          at_it (fun p => if supportsSeek p then (seek 0 BEGIN ≫= fun _ => mret tt) p else (Ok tt, p)) ≫= fun _ =>
          CatStream_read_loop fuel' length
      else mret bs
  end.

Definition CatStream_read (len : Z) : op CatStream (list Z) := fun s =>
  if len =? 0 then (Err Assertion, s)
  else if Nat.eqb (cs_it s) (length (cs_streams s)) then (Ok [], s)
  else CatStream_read_loop (S (length (cs_streams s))) len s.

(** The loop of [seek]: the stream that holds the position, and the position in it. *)
Fixpoint CatStream_locate (newPos cursor : Z) (i : nat) (l : list P) : result (option (nat * Z)) :=
  match l with
  | [] => Ok None
  | p :: rest =>
      n ← fst (size p);
      if newPos <? cursor + n then Ok (Some (i, newPos - cursor))
      else CatStream_locate newPos (cursor + n) (S i) rest
  end.

Definition CatStream_seek (offset : Z) (anchor : Anchor) : op CatStream Z := fun s =>
  if (offset =? 0) && bool_decide (anchor = CURRENT) then (Ok (cs_pos s), s)
  else if negb (cs_seekable s) then (Err Assertion, s)
  else
    let newPos := match anchor with BEGIN => offset | CURRENT => cs_pos s + offset | END_ => cs_size s + offset end in
    if newPos <? 0 then (throw invalid_argument, s)
    else if cs_size s <=? newPos then (throw invalid_argument, s)
    else
      match CatStream_locate newPos 0 0 (cs_streams s) with
      | Err e => (Err e, s)
      | Ok found =>
          let moved :=
            match found with
            | None => (Ok tt, s)
            | Some (i, off) =>
                at_it (seek off BEGIN ≫= fun _ => mret tt)
                  (mkCatStream (cs_streams s) i (cs_seekable s) (cs_size s) (cs_pos s))
            end in
          match moved with
          | (Err e, s') => (Err e, s')
          | (Ok _, s') => (Ok newPos, mkCatStream (cs_streams s') (cs_it s') (cs_seekable s') (cs_size s') newPos)
          end
      end.

Definition CatStream_size : op CatStream Z := fun s =>
  if cs_size s =? -1 then (Err Assertion, s) else (Ok (cs_size s), s).

#[global] Instance CatStream_Stream : Stream CatStream := {
  supportsHalfClose := fun _ => false;
  supportsRead := fun _ => true;
  supportsWrite := fun _ => false;
  supportsSeek := cs_seekable;
  supportsTell := fun _ => true;
  supportsSize := fun s => negb (cs_size s =? -1);
  supportsTruncate := fun _ => false;
  supportsFind := fun _ => false;
  supportsUnread := fun _ => false;
  close := fun _ => mret tt;
  read := CatStream_read;
  write := fun _ => check false ≫= fun _ => not_reached;
  seek := CatStream_seek;
  size := CatStream_size;
  truncate := fun _ => not_reached;
  flush := fun _ => mret tt;
  find := fun _ _ _ => not_reached;
  unread := fun _ => not_reached;
}.

End CatStream.
Arguments CatStream : clear implicits.
