(* ===== verification/StreamProps.v ===== *)
(** Filters over a source are sources; filters compose. *)

From stdpp Require Import numbers list_numbers list.
From S2P Require Import Prelude Stream StreamMemory StreamFilters.

(** ** Filters over a source are sources *)

Section LimitedSource.
Context {P : Type} `{Source P}.

(** A strict stream needs a parent that holds what it promises. *)
Record limited_ok (s : LimitedStream P) : Prop := {
  lo_parent : src_ok (parent s);
  lo_range : 0 <= l_pos (own s) /\ l_size (own s) < 2 ^ 63;
  lo_strict : l_strict (own s) = true -> l_size (own s) - l_pos (own s) <= zlen (src (parent s));
}.

Definition limited_src (s : LimitedStream P) : list Z :=
  ztake (l_size (own s) - l_pos (own s)) (src (parent s)).

Lemma limit_small len d : 0 <= len < 2 ^ 63 -> l_pos d <= l_size d < 2 ^ 63 -> 0 <= l_pos d ->
  limit len d = Z.min len (l_size d - l_pos d).
Proof. intros. unfold limit. rewrite s64_small, u64_small by lia. done. Qed.

Lemma limited_read_ok (s : LimitedStream P) n :
  limited_ok s -> 0 < n < 2 ^ 63 ->
  exists bs s', LimitedStream_read n s = (Ok bs, s') /\ limited_ok s' /\
    limited_src s = bs ++ limited_src s' /\ zlen bs <= n /\ (bs = [] -> limited_src s = []) /\
    l_pos (own s') = l_pos (own s) + zlen bs /\ l_size (own s') = l_size (own s) /\
    src (parent s) = bs ++ src (parent s').
Proof.
  intros [Hp [Hpos Hsize] Hst] Hn. unfold LimitedStream_read, limited_src.
  rewrite (bind_ok _ _ s (own s) s) by done. destruct (Z.leb_spec (l_size (own s)) (l_pos (own s))) as [Hle|Hlt].
  - exists [], s. split_and!; auto; try done; try (change (zlen []) with 0; lia).
    intros _. unfold ztake. by replace (Z.to_nat _) with O by lia.
  - destruct (src_read (parent s) (limit n (own s))) as (bs & p' & E & Hp' & Es & Hl & He); [done|rewrite limit_small; lia|].
    rewrite limit_small in Hl by lia. rewrite (bind_ok _ _ _ _ _ (on_parent_ok _ s _ _ E)).
    pose proof (zlen_nonneg bs).
    assert (Hns : (zlen bs =? 0) && l_strict (own s) = false).
    { destruct (Z.eqb_spec (zlen bs) 0) as [E0|E0]; [|done]. cbn. destruct (l_strict (own s)); [|done].
      specialize (Hst eq_refl). apply zlen_zero_inv in E0. rewrite He in Hst by done. change (zlen []) with 0 in Hst. lia. }
    rewrite Hns. eexists bs, _. split; [done|]. cbn. split_and!; auto; try lia.
    + split; cbn; auto; [lia|]. intros Hs. specialize (Hst Hs). rewrite Es, zlen_app in Hst. lia.
    + rewrite Es, ztake_app_ge by lia. do 2 f_equal. lia.
    + intros ->. rewrite He by done. apply ztake_nil.
Qed.

#[global, refine] Instance LimitedStream_Source : Source (LimitedStream P) := {
  src_ok := limited_ok;
  src := limited_src;
}.
Proof.
  intros s n Hok Hn. destruct (limited_read_ok s n Hok Hn) as (bs & s' & E & Hok' & Es & Hl & He & _).
  exists bs, s'. split_and!; auto.
Defined.

End LimitedSource.

Section CounterSource.
Context {P : Type} `{Source P}.

#[global, refine] Instance CounterStream_Source : Source (CounterStream P) := {
  src_ok := fun s => src_ok (parent s);
  src := fun s => src (parent s);
}.
Proof.
  intros s n Hok Hn. destruct (src_read (parent s) n Hok Hn) as (bs & p' & E & Hp' & Es & Hl & He).
  eexists bs, _. split.
  { cbn [read CounterStream_Stream]. unfold CounterStream_read. rewrite (bind_ok _ _ _ _ _ (on_parent_ok _ s _ _ E)). done. }
  split_and!; [exact Hp'|exact Es|done|done].
Defined.

End CounterSource.

(** ** Streams one after the other *)

Section CatSource.
Context {P : Type} `{Source P}.

(** What a stream gives once [CatStream::read] has come to it. *)
Definition reached (p : P) : P := if supportsSeek p then snd (seek 0 BEGIN p) else p.

Definition reachable_stream (p : P) : Prop :=
  src_ok (reached p) /\ (supportsSeek p = true -> exists v, fst (seek 0 BEGIN p) = Ok v).

(** The stream at [m_it] and the ones after it. *)
Record cat_ok (s : CatStream P) : Prop := {
  ct_it : (cs_it s <= length (cs_streams s))%nat;
  ct_current : match drop (cs_it s) (cs_streams s) with p :: _ => src_ok p | [] => True end;
  ct_later : Forall reachable_stream (drop (S (cs_it s)) (cs_streams s));
}.

Definition cat_src (s : CatStream P) : list Z :=
  match drop (cs_it s) (cs_streams s) with
  | [] => []
  | p :: later => src p ++ concat ((fun q => src (reached q)) <$> later)
  end.

Lemma at_it_ok {A} (m : op P A) s p r p' :
  cs_streams s !! cs_it s = Some p -> m p = (r, p') ->
  at_it m s = (r, mkCatStream (<[cs_it s := p']> (cs_streams s)) (cs_it s) (cs_seekable s) (cs_size s) (cs_pos s)).
Proof. intros E1 E2. unfold at_it. by rewrite E1, E2. Qed.

Lemma drop_insert_at (l : list P) i x : (i < length l)%nat -> drop i (<[i := x]> l) = x :: drop (S i) l.
Proof.
  intros Hi. rewrite insert_take_drop by done. rewrite drop_app_ge by (rewrite length_take; lia).
  rewrite length_take. replace (i - i `min` length l)%nat with O by lia. done.
Qed.

(** Coming to a stream takes it back to its beginning. *)
Lemma reach_ok q : reachable_stream q ->
  (if supportsSeek q then (seek 0 BEGIN ≫= fun _ => mret tt) q else (Ok tt, q)) = (Ok tt, reached q).
Proof.
  intros [_ Hs]. unfold reached. destruct (supportsSeek q); [|done]. destruct (Hs eq_refl) as [v Ev].
  unfold mbind, op_bind. destruct (seek 0 BEGIN q) as [r q']. cbn in Ev. by rewrite Ev.
Qed.

(** The streams after the one that was read to its end and the one that was reached. *)
Lemma drop_reached (l : list P) i p' q : (S i < length l)%nat ->
  drop (S i) (<[S i := q]> (<[i := p']> l)) = q :: drop (S (S i)) l /\
  drop (S (S i)) (<[S i := q]> (<[i := p']> l)) = drop (S (S i)) l.
Proof.
  intros Hi. split.
  - rewrite drop_insert_at by (rewrite length_insert; lia). f_equal. apply drop_insert_lt. lia.
  - rewrite drop_insert_lt by lia. apply drop_insert_lt. lia.
Qed.

Lemma cat_read_loop_ok fuel n s :
  cat_ok s -> 0 < n < 2 ^ 63 -> (cs_it s < length (cs_streams s))%nat -> (length (cs_streams s) - cs_it s < fuel)%nat ->
  exists bs s', CatStream_read_loop fuel n s = (Ok bs, s') /\ cat_ok s' /\ cat_src s = bs ++ cat_src s' /\
    zlen bs <= n /\ (bs = [] -> cat_src s = []) /\ cs_pos s' = cs_pos s + zlen bs.
Proof.
  revert s. induction fuel as [|fuel IH]; intros s [Hi Hc Hl] Hn Hlt Hf; [lia|].
  destruct (lookup_lt_is_Some_2 (cs_streams s) (cs_it s) Hlt) as [p Hp].
  pose proof (drop_S _ _ _ Hp) as Hd. rewrite Hd in Hc. cbn [CatStream_read_loop].
  destruct (src_read p n Hc Hn) as (bs & p' & E & Hp' & Es & Hln & He).
  rewrite (bind_ok _ _ _ _ _ (at_it_ok _ s p _ _ Hp E)).
  set (s1 := mkCatStream (<[cs_it s := p']> (cs_streams s)) (cs_it s) (cs_seekable s) (cs_size s) (cs_pos s + zlen bs)).
  rewrite (bind_ok _ _ _ tt s1) by done.
  assert (Hd1 : drop (cs_it s) (cs_streams s1) = p' :: drop (S (cs_it s)) (cs_streams s)) by (by apply drop_insert_at).
  assert (Hd2 : drop (S (cs_it s)) (cs_streams s1) = drop (S (cs_it s)) (cs_streams s)) by (cbn; apply drop_insert_lt; lia).
  assert (Hlen : length (cs_streams s1) = length (cs_streams s)) by (cbn; apply length_insert).
  unfold cat_src at 1 3. rewrite Hd. destruct (Z.eqb_spec (zlen bs) 0) as [E0|E0].
  2:{ exists bs, s1. split_and!; [done| | |done| |done].
      - split; [cbn; rewrite length_insert; lia|change (cs_it s1) with (cs_it s); by rewrite Hd1|].
        change (cs_it s1) with (cs_it s). by rewrite Hd2.
      - unfold cat_src. change (cs_it s1) with (cs_it s). by rewrite Hd1, Es, app_assoc.
      - intros ->. done. }
  apply zlen_zero_inv in E0 as ->. rewrite He in * by done. cbn [app].
  set (s2 := mkCatStream (cs_streams s1) (S (cs_it s)) (cs_seekable s) (cs_size s) (cs_pos s)).
  assert (En : next_stream s1 = (Ok (Nat.eqb (S (cs_it s)) (length (cs_streams s))), s2)).
  { unfold next_stream. cbn [cs_it cs_streams]. rewrite Hlen. unfold s2. do 2 f_equal. cbn. change (zlen []) with 0. lia. }
  rewrite (bind_ok _ _ _ _ _ En). destruct (Nat.eqb_spec (S (cs_it s)) (length (cs_streams s))) as [El|El].
  - exists [], s2. assert (Hd3 : drop (S (cs_it s)) (cs_streams s) = []) by (apply drop_ge; lia).
    unfold cat_src. change (cs_it s2) with (S (cs_it s)). change (cs_streams s2) with (cs_streams s1).
    rewrite Hd2, Hd3. change (zlen []) with 0. split_and!; auto; try done; [|cbn; lia].
    split; change (cs_it s2) with (S (cs_it s)); change (cs_streams s2) with (cs_streams s1).
    + lia.
    + by rewrite Hd2, Hd3.
    + rewrite drop_ge by lia. constructor.
  - destruct (lookup_lt_is_Some_2 (cs_streams s) (S (cs_it s)) ltac:(lia)) as [q Hq].
    pose proof (drop_S _ _ _ Hq) as Hd3. rewrite Hd3 in Hl. apply Forall_cons in Hl as [[Hq1 Hq2] Hl].
    assert (Hq' : cs_streams s2 !! cs_it s2 = Some q) by (cbn; rewrite list_lookup_insert_ne by lia; done).
    rewrite (bind_ok _ _ _ _ _ (at_it_ok _ s2 q _ _ Hq' (reach_ok q (conj Hq1 Hq2)))). set (s3 := mkCatStream _ _ _ _ _).
    assert (Hlen3 : length (cs_streams s3) = length (cs_streams s)) by (cbn; rewrite !length_insert; done).
    destruct (drop_reached (cs_streams s) (cs_it s) p' (reached q) ltac:(lia)) as [Hd4 Hd5].
    change (<[S (cs_it s) := reached q]> (<[cs_it s := p']> (cs_streams s))) with (cs_streams s3) in Hd4, Hd5.
    assert (Hsrc : cat_src s3 = concat ((fun q => src (reached q)) <$> drop (S (cs_it s)) (cs_streams s))).
    { unfold cat_src. change (cs_it s3) with (S (cs_it s)). rewrite Hd4, Hd3. done. }
    destruct (IH s3) as (bs & s' & E4 & Hok' & Es' & Hl' & He' & Hpos'); auto.
    { split; change (cs_it s3) with (S (cs_it s)); [lia|by rewrite Hd4|by rewrite Hd5]. }
    { change (cs_it s3) with (S (cs_it s)). lia. }
    { change (cs_it s3) with (S (cs_it s)). lia. }
    rewrite Hsrc in Es', He'. exists bs, s'. split_and!; auto.
Qed.

#[global, refine] Instance CatStream_Source : Source (CatStream P) := {
  src_ok := cat_ok;
  src := cat_src;
}.
Proof.
  intros s n Hok Hn. cbn [read CatStream_Stream]. unfold CatStream_read. rewrite (proj2 (Z.eqb_neq n 0)) by lia.
  destruct (Nat.eqb_spec (cs_it s) (length (cs_streams s))) as [E|E].
  - exists [], s. split_and!; auto; [change (zlen []) with 0; lia|]. intros _. unfold cat_src. by rewrite drop_ge by lia.
  - destruct (cat_read_loop_ok (S (length (cs_streams s))) n s Hok Hn) as (bs & s' & E' & Hok' & Es & Hl & He & _);
      [destruct Hok; lia|lia|]. exists bs, s'. split_and!; auto.
Defined.

End CatSource.

(** Filters compose: a LimitedStream over a CatStream, read in pieces of any size until a read returns nothing, gives the first
    [m_size - m_pos] bytes of the streams' contents one after the other, exactly once and in order, without an
    assertion or an exception, however little each read of an underlying stream returns. *)
Theorem limited_cat_read {P} `{Source P} (s : LimitedStream (CatStream P)) n :
  limited_ok s -> 0 < n < 2 ^ 63 ->
  let body := ztake (l_size (own s) - l_pos (own s)) (cat_src (parent s)) in
  exists s', read_all (S (length body)) n s = (Ok body, s') /\ limited_ok s' /\ limited_src s' = [].
Proof. intros Hok Hn. exact (read_all_ok (S (length (limited_src s))) n s Hok Hn (Nat.lt_succ_diag_r _)). Qed.

Definition cat_hello : LimitedStream (CatStream MemoryStream) :=
  mkFilter (mkCatStream [hello; MemoryStream_new; MemoryStream_of [33; 34; 35]] 0 true 8 0) true (mkLimited 0 7 true).

Lemma cat_hello_ok : limited_ok cat_hello.
Proof.
  split; [|cbn; lia|done]. split; [cbn; lia|exact hello_ok|].
  repeat constructor; try done; by eexists.
Defined.

Lemma limited_cat_witness : exists s', read_all 8 3 cat_hello = (Ok [104; 101; 108; 108; 111; 33; 34], s') /\ limited_src s' = [].
Proof.
  destruct (limited_cat_read cat_hello 3 cat_hello_ok) as (s' & E & _ & Es); [lia|]. exists s'. split; [exact E|exact Es].
Defined.

(** LimitedStream::read compares the length as a signed number: asked for [2^63] bytes or more, as a caller does who wants all there is,
    it asks the parent for as much and returns bytes from beyond the limit. *)
Theorem limited_bypass :
  exists s, LimitedStream_new hello 2 true = Ok s /\
    fst (read npos s) = Ok [104; 101; 108; 108; 111] /\ fst (read 100 s) = Ok [104; 101].
Proof. eexists. split; [reflexivity|]. split; vm_compute; reflexivity. Qed.
