(* ===== verification/StreamBuffered.v ===== *)
(** [streams/buffered.h] and [streams/buffered.cpp]: a filter with bytes read ahead and bytes to be written. *)

From stdpp Require Import numbers list_numbers list.
From S2P Require Import Prelude Buffer BufferRead Stream StreamMemory StreamFilters.

(** ** [BufferedStream] *)

Record Buffered := mkBuffered {
  b_bufferSize : Z;       (* size_t *)
  b_allowPartialReads : bool;
  b_flushMultiplesOfBuffer : bool;
  b_readBuffer : list Z;
  b_writeBuffer : list Z;
}.
Definition BufferedStream (P : Type) : Type := Filter P Buffered.

Definition set_readBuffer (x : list Z) (d : Buffered) : Buffered :=
  mkBuffered (b_bufferSize d) (b_allowPartialReads d) (b_flushMultiplesOfBuffer d) x (b_writeBuffer d).
Definition set_writeBuffer (x : list Z) (d : Buffered) : Buffered :=
  mkBuffered (b_bufferSize d) (b_allowPartialReads d) (b_flushMultiplesOfBuffer d) (b_readBuffer d) x.

Section BufferedStream.
Context {P : Type} `{!Stream P}.

(** [defaultBufferSize] is the configuration variable the constructor reads. *)
Definition BufferedStream_new (defaultBufferSize : Z) (p : P) (owns : bool) : BufferedStream P :=
  mkFilter p owns (mkBuffered defaultBufferSize false false [] []).

Definition BufferedStream_bufferSize (n : Z) : op (BufferedStream P) unit :=
  setp (fun d => mkBuffered n (b_allowPartialReads d) (b_flushMultiplesOfBuffer d) (b_readBuffer d) (b_writeBuffer d)).
Definition BufferedStream_allowPartialReads (b : bool) : op (BufferedStream P) unit :=
  setp (fun d => mkBuffered (b_bufferSize d) b (b_flushMultiplesOfBuffer d) (b_readBuffer d) (b_writeBuffer d)).
Definition BufferedStream_flushMultiplesOfBuffer (b : bool) : op (BufferedStream P) unit :=
  setp (fun d => mkBuffered (b_bufferSize d) (b_allowPartialReads d) b (b_readBuffer d) (b_writeBuffer d)).

(** Before the parent is written to, it is moved back over what was read ahead. *)
Definition drop_read_ahead : op (BufferedStream P) unit := fun s =>
  if supportsSeek (parent s) && negb (zlen (b_readBuffer (own s)) =? 0) then
    (on_parent (seek (- zlen (b_readBuffer (own s))) CURRENT) ≫= fun _ => setp (set_readBuffer [])) s
  else (Ok tt, s).

(** The loop of [flush]: every round takes at least a byte from the write buffer. *)
Fixpoint flush_loop (fuel : nat) : op (BufferedStream P) unit := fun s =>
  if zlen (b_writeBuffer (own s)) =? 0 then (Ok tt, s)
  else
    match fuel with
    | O => (Err Diverges, s)
    | S fuel' =>
        (drop_read_ahead ≫= fun _ =>
         n ← method (fun s => on_parent (write (b_writeBuffer (own s))) s);
         check (0 <? n) ≫= fun _ =>
         w ← method (fun s => lift (buf_consume n (b_writeBuffer (own s))) s);
         setp (set_writeBuffer w) ≫= fun _ => flush_loop fuel') s
    end.

Definition BufferedStream_flush (flushParent : bool) : op (BufferedStream P) unit := fun s =>
  (flush_loop (length (b_writeBuffer (own s))) ≫= fun _ =>
   if flushParent then on_parent (flush true) else mret tt) s.

(** [if (supportsSeek()) flush(false);] *)
Definition flush_if_seekable : op (BufferedStream P) unit := fun s =>
  if supportsSeek (parent s) then BufferedStream_flush false s else (Ok tt, s).

(** The [do ... while] of [readInternal]: [acc] is what has been stored in the caller's buffer.  A round
    that does not end the loop stores at least a byte. *)
Fixpoint fill_loop (fuel : nat) (length remaining : Z) (acc : list Z) : op (BufferedStream P) (list Z) := fun s =>
  match fuel with
  | O => (Err Diverges, s)
  | S fuel' =>
      if b_bufferSize (own s) =? 0 then (Err Undefined, s)
      else
        let todo := u64 (u64 ((remaining - 1) / b_bufferSize (own s) + 1) * b_bufferSize (own s)) in
        match on_parent (read todo) s with
        | (Err (Thrown e), s1) => if remaining =? length then (throw e, s1) else (Ok acc, s1)
        | (Err f, s1) => (Err f, s1)
        | (Ok bs, s1) =>
            let readBuffer := b_readBuffer (own s1) ++ bs in
            let buffered := Z.min (zlen readBuffer) remaining in
            let acc' := acc ++ ztake buffered readBuffer in
            let remaining' := remaining - buffered in
            let s2 := set_own (set_readBuffer (zdrop buffered readBuffer) (own s1)) s1 in
            if (0 <? remaining') && negb (b_allowPartialReads (own s2)) && negb (zlen bs =? 0)
            then fill_loop fuel' length remaining' acc' s2
            else (Ok acc', s2)
        end
  end.

Definition BufferedStream_read (length : Z) : op (BufferedStream P) (list Z) :=
  flush_if_seekable ≫= fun _ => method (fun s =>
  let readBuffer := b_readBuffer (own s) in
  let buffered := Z.min (zlen readBuffer) length in
  let acc := ztake buffered readBuffer in
  let remaining := length - buffered in
  let s1 := set_own (set_readBuffer (zdrop buffered readBuffer) (own s)) s in
  if remaining =? 0 then (Ok acc, s1)
  else if (buffered =? 0) || negb (b_allowPartialReads (own s1))
  then fill_loop (S (Z.to_nat remaining)) length remaining acc s1
  else (Ok acc, s1)).

(** The body of the [try] in [flushWrite]. *)
Definition flushWrite_once : op (BufferedStream P) unit :=
  drop_read_ahead ≫= fun _ => method (fun s =>
  let avail := zlen (b_writeBuffer (own s)) in
  let toWrite := if b_flushMultiplesOfBuffer (own s) then avail / b_bufferSize (own s) * b_bufferSize (own s) else avail in
  (n ← on_parent (write (ztake toWrite (b_writeBuffer (own s))));
   w ← method (fun s => lift (buf_consume n (b_writeBuffer (own s))) s);
   setp (set_writeBuffer w)) s).

(** An exception backs the write out when it is still in the buffer as a whole, and is swallowed otherwise. *)
Fixpoint flushWrite (fuel : nat) (length : Z) : op (BufferedStream P) Z := fun s =>
  if zlen (b_writeBuffer (own s)) <? b_bufferSize (own s) then (Ok length, s)
  else
    match fuel with
    | O => (Err Diverges, s)
    | S fuel' =>
        match flushWrite_once s with
        | (Ok _, s1) => flushWrite fuel' length s1
        | (Err (Thrown e), s1) =>
            let w := b_writeBuffer (own s1) in
            if length <=? zlen w then (throw e, set_own (set_writeBuffer (ztake (zlen w - length) w) (own s1)) s1)
            else (Ok length, s1)
        | (Err f, s1) => (Err f, s1)
        end
    end.

Definition BufferedStream_write (bs : list Z) : op (BufferedStream P) Z :=
  setp (fun d => set_writeBuffer (b_writeBuffer d ++ bs) d) ≫= fun _ => method (fun s =>
  (result ← flushWrite (S (length (b_writeBuffer (own s)))) (zlen bs);
   check (result =? zlen bs) ≫= fun _ => mret result) s).

(** [close]: the write buffer is flushed, and the parent closed even when that throws. *)
Definition BufferedStream_close (type : CloseType) : op (BufferedStream P) unit :=
  (if closes_read type then setp (set_readBuffer []) else mret tt) ≫= fun _ =>
  catch (method (fun s => if closes_write type && negb (zlen (b_writeBuffer (own s)) =? 0)
                  then BufferedStream_flush false s else (Ok tt, s)))
    (fun e => FilterStream_close type ≫= fun _ => raise e) ≫= fun _ =>
  FilterStream_close type.

(** Where the client is, given the parent's position. *)
Definition buffered_pos (parentPos : Z) (d : Buffered) : Z :=
  parentPos - zlen (b_readBuffer d) + zlen (b_writeBuffer d).

Definition consume_ahead (n result : Z) : op (BufferedStream P) Z :=
  r ← method (fun s => lift (buf_consume n (b_readBuffer (own s))) s);
  setp (set_readBuffer r) ≫= fun _ => mret result.

Definition BufferedStream_seek (offset : Z) (anchor : Anchor) : op (BufferedStream P) Z :=
  method (fun s => check (supportsTell (parent s)) s) ≫= fun _ =>
  parentPos ← on_parent tell;
  bufferedPos ← getp (buffered_pos parentPos);
  parentSize ← method (fun s => if supportsSize (parent s) then on_parent size s else (Ok (-1), s));
  if ((offset =? 0) && bool_decide (anchor = CURRENT)) ||
     ((offset =? bufferedPos) && bool_decide (anchor = BEGIN)) ||
     (negb (parentSize =? -1) && (offset + parentSize =? bufferedPos) && bool_decide (anchor = END_))
  then mret bufferedPos
  else
    method (fun s => check (supportsSeek (parent s)) s) ≫= fun _ =>
    BufferedStream_flush false ≫= fun _ =>
    method (fun s => check (zlen (b_writeBuffer (own s)) =? 0) s) ≫= fun _ =>
    ahead ← getp (fun d => zlen (b_readBuffer d));
    match anchor with
    | BEGIN =>
        check (0 <=? offset) ≫= fun _ =>
        if (bufferedPos <=? offset) && (offset <=? parentPos) then consume_ahead (u64 (offset - bufferedPos)) offset
        else setp (set_readBuffer []) ≫= fun _ => on_parent (seek offset BEGIN)
    | CURRENT =>
        if (0 <? offset) && (offset <=? ahead) then consume_ahead offset (bufferedPos + offset)
        else setp (set_readBuffer []) ≫= fun _ => on_parent (seek (offset - ahead) CURRENT)
    | END_ =>
        if parentSize =? -1 then raise invalid_argument
        else if (bufferedPos <=? parentSize + offset) && (parentSize + offset <=? parentPos)
        then consume_ahead (u64 (parentSize + offset - bufferedPos)) (parentSize + offset)
        else setp (set_readBuffer []) ≫= fun _ => on_parent (seek offset END_)
    end.

Definition BufferedStream_size : op (BufferedStream P) Z :=
  n ← on_parent size;
  canTell ← gets (fun s => supportsTell (parent s));
  if canTell : bool then t ← BufferedStream_seek 0 CURRENT; mret (Z.max n t)
  else w ← getp (fun d => zlen (b_writeBuffer d)); mret (n + w).

Definition BufferedStream_truncate (newSize : Z) : op (BufferedStream P) unit :=
  canTell ← gets (fun s => supportsTell (parent s));
  needed ← (if canTell : bool then t ← on_parent tell; w ← getp (fun d => zlen (b_writeBuffer d)); mret (newSize <=? t + w)
            else mret true);
  (if needed : bool then BufferedStream_flush false else mret tt) ≫= fun _ =>
  setp (set_readBuffer []) ≫= fun _ => on_parent (truncate newSize).

(** The [while (true)] of [find(char)]: every round but the last reads at least a byte, and there are no more
    rounds once [sanitySize] bytes are there. *)
Fixpoint find_loop (fuel : nat) (delim sanitySize : Z) (throwIfNotFound : bool) : op (BufferedStream P) Z := fun s =>
  let readBuffer := b_readBuffer (own s) in
  let readAvailable := zlen readBuffer in
  match memchr delim (ztake (Z.min sanitySize readAvailable) readBuffer) with
  | Some i => (Ok i, s)
  | None =>
      if sanitySize <=? readAvailable then
        (if throwIfNotFound then throw buffer_overflow else Ok (- readAvailable - 1), s)
      else
        match fuel with
        | O => (Err Diverges, s)
        | S fuel' =>
            match on_parent (read (b_bufferSize (own s))) s with
            | (Err f, s1) => (Err f, s1)
            | (Ok bs, s1) =>
                let s2 := set_own (set_readBuffer (b_readBuffer (own s1) ++ bs) (own s1)) s1 in
                if zlen bs =? 0 then
                  (if throwIfNotFound then throw unexpected_eof else Ok (- zlen (b_readBuffer (own s2)) - 1), s2)
                else find_loop fuel' delim sanitySize throwIfNotFound s2
            end
        end
  end.

Definition BufferedStream_find (delim sanitySize : Z) (throwIfNotFound : bool) : op (BufferedStream P) Z :=
  flush_if_seekable ≫= fun _ => method (fun s =>
  let sanitySize := if sanitySize =? npos then u64 (2 * b_bufferSize (own s)) else sanitySize in
  let sanitySize := u64 (sanitySize + 1) in
  find_loop (S (Z.to_nat (sanitySize - zlen (b_readBuffer (own s))))) delim sanitySize throwIfNotFound s).

Definition supports_unread (p : P) : bool := supportsRead p && (negb (supportsWrite p) || negb (supportsSeek p)).

Definition BufferedStream_unread (bs : list Z) : op (BufferedStream P) unit :=
  method (fun s => check (supports_unread (parent s)) s) ≫= fun _ =>
  setp (fun d => set_readBuffer (bs ++ b_readBuffer d) d).

#[global] Instance BufferedStream_Stream : Stream (BufferedStream P) := {
  supportsHalfClose := fun s => supportsHalfClose (parent s);
  supportsRead := fun s => supportsRead (parent s);
  supportsWrite := fun s => supportsWrite (parent s);
  supportsSeek := fun s => supportsSeek (parent s);
  supportsTell := fun s => supportsTell (parent s);
  supportsSize := fun s => supportsSize (parent s);
  supportsTruncate := fun s => supportsTruncate (parent s);
  supportsFind := fun s => supportsRead (parent s);
  supportsUnread := fun s => supports_unread (parent s);
  close := BufferedStream_close;
  read := BufferedStream_read;
  write := BufferedStream_write;
  seek := BufferedStream_seek;
  size := BufferedStream_size;
  truncate := BufferedStream_truncate;
  flush := BufferedStream_flush;
  find := BufferedStream_find;
  unread := BufferedStream_unread;
}.

End BufferedStream.
