(* ===== verification/BufferedProps.v ===== *)
(** Reading from a [BufferedStream] over any source, reading lines, and writing to one over any sink. *)

From stdpp Require Import numbers list_numbers list.
From S2P Require Import Prelude Buffer BufferRead Stream StreamMemory StreamFilters StreamProps StreamBuffered.

Section Reading.
Context {P : Type} `{Source P}.

(** A buffered stream with nothing left to write. *)
Record buffered_ok (s : BufferedStream P) : Prop := {
  bo_parent : src_ok (parent s);
  bo_size : 0 < b_bufferSize (own s) < 2 ^ 61;
  bo_clean : b_writeBuffer (own s) = [];
}.

(** What a client can still read. *)
Definition buffered_src (s : BufferedStream P) : list Z := b_readBuffer (own s) ++ src (parent s).

(** The settings, which reading does not change. *)
Definition settings (d : Buffered) : Z * bool * bool :=
  (b_bufferSize d, b_allowPartialReads d, b_flushMultiplesOfBuffer d).

Lemma flush_clean s : b_writeBuffer (own s) = [] -> BufferedStream_flush false s = (Ok tt, s).
Proof. intros E. unfold BufferedStream_flush. rewrite E. unfold mbind, op_bind. cbn [length flush_loop]. rewrite E. done. Qed.

Lemma flush_if_seekable_clean s : b_writeBuffer (own s) = [] -> flush_if_seekable s = (Ok tt, s).
Proof. intros E. unfold flush_if_seekable. destruct (supportsSeek _); auto using flush_clean. Qed.

(** The amount asked of the parent: the smallest multiple of the buffer size that is enough. *)
Lemma round_up r b : 0 < r < 2 ^ 62 -> 0 < b < 2 ^ 61 ->
  let todo := u64 (u64 ((r - 1) / b + 1) * b) in r <= todo < 2 ^ 63.
Proof.
  intros Hr Hb. pose proof (Z.div_mod (r - 1) b ltac:(lia)). pose proof (Z.mod_pos_bound (r - 1) b ltac:(lia)).
  assert (0 <= (r - 1) / b <= r - 1) by (split; [apply Z.div_pos; lia|apply Z.div_le_upper_bound; nia]).
  rewrite (u64_small ((r - 1) / b + 1)) by lia. rewrite u64_small by nia. nia.
Qed.

(** Taking [k] bytes of what is buffered and then of the parent. *)
Lemma fill_loop_ok fuel len r acc s :
  buffered_ok s -> b_readBuffer (own s) = [] -> 0 < r < 2 ^ 62 -> r <= Z.of_nat fuel ->
  exists bs s', fill_loop fuel len r acc s = (Ok (acc ++ bs), s') /\ buffered_ok s' /\
    settings (own s') = settings (own s) /\ ownsParent s' = ownsParent s /\
    src (parent s) = bs ++ buffered_src s' /\ zlen bs <= r /\ (bs = [] -> src (parent s) = []) /\
    (b_allowPartialReads (own s) = false -> bs = ztake r (src (parent s))).
Proof.
  revert r acc s. induction fuel as [|fuel IH]; intros r acc s Hok Hrb Hr Hf; [lia|].
  pose proof Hok as [Hp Hb Hc]. cbn [fill_loop]. rewrite (proj2 (Z.eqb_neq (b_bufferSize (own s)) 0)) by lia.
  pose proof (round_up r (b_bufferSize (own s)) Hr Hb) as Ht. cbv zeta in Ht |- *. set (todo := u64 _) in *.
  destruct (src_read (parent s) todo Hp ltac:(lia)) as (bs & p' & E & Hp' & Es & Hl & He).
  rewrite (on_parent_ok _ s _ _ E). cbn [own set_parent]. rewrite Hrb. cbn [app].
  set (k := Z.min (zlen bs) r). set (s2 := set_own _ _).
  assert (Hok2 : buffered_ok s2) by (split; cbn; auto).
  assert (Hset : settings (own s2) = settings (own s)) by done.
  assert (Hsrc2 : buffered_src s2 = zdrop k bs ++ src p') by done. pose proof (zlen_nonneg bs).
  assert (Hk : zlen (ztake k bs) = k) by (rewrite zlen_ztake; lia).
  destruct ((0 <? r - k) && negb (b_allowPartialReads (own s2)) && negb (zlen bs =? 0)) eqn:Eg.
  - apply andb_true_iff in Eg as [Eg E3]. apply andb_true_iff in Eg as [E1 E2].
    apply Z.ltb_lt in E1. apply negb_true_iff, Z.eqb_neq in E3. assert (Ek : k = zlen bs) by lia.
    assert (Hrb2 : b_readBuffer (own s2) = []) by (cbn; apply zdrop_all; lia).
    destruct (IH (r - k) (acc ++ ztake k bs) s2 Hok2 Hrb2) as (bs2 & s' & E4 & Hok' & Hs' & Hown & Hsrc & Hl' & He' & Hall); [lia|lia|].
    exists (bs ++ bs2), s'. rewrite E4, (ztake_all k) by lia. rewrite <- app_assoc.
    change (parent s2) with p' in *. split_and!; auto.
    + rewrite Es, Hsrc, app_assoc. done.
    + rewrite zlen_app. lia.
    + intros E0. apply app_eq_nil in E0 as [-> _]. done.
    + intros Hpart. rewrite Hall, Es, (ztake_app_ge r bs) by (auto; lia). by rewrite Ek.
  - exists (ztake k bs), s2. split_and!; auto.
    + rewrite Es, Hsrc2, app_assoc, ztake_zdrop. done.
    + lia.
    + intros E0. apply He. rewrite E0 in Hk. change (zlen []) with 0 in Hk. apply zlen_zero_inv. lia.
    + intros Hpart. change (b_allowPartialReads (own s2)) with (b_allowPartialReads (own s)) in Eg. rewrite Hpart in Eg.
      destruct (Z.eqb_spec (zlen bs) 0) as [E0|E0].
      * apply zlen_zero_inv in E0 as ->. rewrite He by done. by rewrite !ztake_nil.
      * rewrite !andb_true_r in Eg. apply Z.ltb_ge in Eg. assert (Ekr : k = r) by lia. rewrite Ekr, Es, ztake_app_le by lia. done.
Qed.

Lemma buffered_read_ok s n :
  buffered_ok s -> 0 <= n < 2 ^ 62 ->
  exists bs s', BufferedStream_read n s = (Ok bs, s') /\ buffered_ok s' /\
    settings (own s') = settings (own s) /\ ownsParent s' = ownsParent s /\
    buffered_src s = bs ++ buffered_src s' /\ zlen bs <= n /\ (bs = [] -> 0 < n -> buffered_src s = []) /\
    (b_allowPartialReads (own s) = false -> bs = ztake n (buffered_src s)).
Proof.
  intros Hok Hn. pose proof Hok as [Hp Hb Hc]. unfold BufferedStream_read.
  rewrite (bind_ok _ _ _ _ _ (flush_if_seekable_clean s Hc)). unfold method.
  set (rb := b_readBuffer (own s)). set (k := Z.min (zlen rb) n). pose proof (zlen_nonneg rb).
  set (s1 := set_own _ s). assert (Hok1 : buffered_ok s1) by (split; cbn; auto).
  assert (Hk : zlen (ztake k rb) = k) by (rewrite zlen_ztake; lia).
  assert (Hsrc : buffered_src s = ztake k rb ++ buffered_src s1).
  { unfold buffered_src, s1. cbn. fold rb. rewrite app_assoc, ztake_zdrop. done. }
  destruct (Z.eqb_spec (n - k) 0) as [E|E].
  - exists (ztake k rb), s1. split_and!; auto.
    + lia.
    + intros E0 Hn0. rewrite E0 in Hk. change (zlen []) with 0 in Hk. lia.
    + intros _. unfold buffered_src. fold rb. rewrite ztake_app_le by lia. f_equal. lia.
  - assert (Ek : k = zlen rb) by lia. assert (Hrb1 : b_readBuffer (own s1) = []) by (cbn; apply zdrop_all; lia).
    change (b_allowPartialReads (own s1)) with (b_allowPartialReads (own s)).
    destruct ((k =? 0) || negb (b_allowPartialReads (own s))) eqn:Eg.
    + destruct (fill_loop_ok (S (Z.to_nat (n - k))) n (n - k) (ztake k rb) s1 Hok1 Hrb1)
        as (bs & s' & E4 & Hok' & Hs' & Hown & Hsrc' & Hl' & He' & Hall); [lia|lia|].
      exists (ztake k rb ++ bs), s'. change (parent s1) with (parent s) in *.
      assert (Hs : buffered_src s = ztake k rb ++ bs ++ buffered_src s').
      { rewrite Hsrc. f_equal. unfold buffered_src at 1. rewrite Hrb1. exact Hsrc'. }
      split_and!; auto.
      * by rewrite <- app_assoc.
      * rewrite zlen_app. lia.
      * intros E0 _. apply app_eq_nil in E0 as [E0 ->]. unfold buffered_src. fold rb.
        assert (rb = []) as -> by (apply zlen_zero_inv; rewrite E0 in Hk; change (zlen []) with 0 in Hk; lia).
        by rewrite He'.
      * intros Hpart. rewrite Hall by done. unfold buffered_src. fold rb.
        rewrite (ztake_app_ge n rb), (ztake_all k rb) by lia. by rewrite Ek.
    + exists (ztake k rb), s1. apply orb_false_iff in Eg as [Eg1 Eg2]. apply Z.eqb_neq in Eg1. apply negb_false_iff in Eg2.
      split_and!; auto; [lia| |congruence]. intros E0. rewrite E0 in Hk. change (zlen []) with 0 in Hk. lia.
Qed.

(** What is in the buffer already is read without the parent. *)
Lemma buffered_read_inside s n :
  buffered_ok s -> 0 <= n <= zlen (b_readBuffer (own s)) ->
  BufferedStream_read n s =
    (Ok (ztake n (b_readBuffer (own s))), set_own (set_readBuffer (zdrop n (b_readBuffer (own s))) (own s)) s).
Proof.
  intros [Hp Hb Hc] Hn. unfold BufferedStream_read. rewrite (bind_ok _ _ _ _ _ (flush_if_seekable_clean s Hc)). unfold method.
  rewrite Z.min_r, Z.sub_diag by lia. done.
Qed.

(** ** Looking ahead *)

(** The first [sane] bytes: those in the buffer, then those of the parent. *)
Lemma memchr_window c sane rb p :
  0 <= sane ->
  memchr c (ztake sane (rb ++ p)) =
  match memchr c (ztake (Z.min sane (zlen rb)) rb) with
  | Some i => Some i
  | None => if sane <=? zlen rb then None else Z.add (zlen rb) <$> memchr c (ztake (sane - zlen rb) p)
  end.
Proof.
  intros Hs. destruct (Z.leb_spec sane (zlen rb)).
  - rewrite Z.min_l, ztake_app_le by lia. by destruct (memchr c _).
  - rewrite Z.min_r, (ztake_all (zlen rb)), ztake_app_ge, memchr_app by lia. done.
Qed.

(** What a search over the first [sane] bytes of the stream gives. *)
Definition find_result (delim sane : Z) (thr : bool) (r : result Z) (s s' : BufferedStream P) : Prop :=
  match memchr delim (ztake sane (buffered_src s)) with
  | Some i => r = Ok i /\ i < zlen (b_readBuffer (own s'))
  | None =>
      if zlen (buffered_src s) <? sane
      then r = (if thr then throw unexpected_eof else Ok (- zlen (buffered_src s) - 1)) /\ src (parent s') = []
      else r = (if thr then throw buffer_overflow else Ok (- zlen (b_readBuffer (own s')) - 1)) /\
           sane <= zlen (b_readBuffer (own s'))
  end.

Lemma find_loop_ok fuel delim sane thr s :
  buffered_ok s -> 0 <= sane -> sane - zlen (b_readBuffer (own s)) < Z.of_nat fuel ->
  exists r s', find_loop fuel delim sane thr s = (r, s') /\ buffered_ok s' /\
    settings (own s') = settings (own s) /\ ownsParent s' = ownsParent s /\
    buffered_src s' = buffered_src s /\ find_result delim sane thr r s s'.
Proof.
  revert s. induction fuel as [|fuel IH]; intros s Hok Hs Hf; pose proof Hok as [Hp Hb Hc]; cbn [find_loop];
    set (rb := b_readBuffer (own s)) in *; pose proof (zlen_nonneg rb); pose proof (zlen_nonneg (src (parent s))).
  - rewrite (proj2 (Z.leb_le sane (zlen rb))) by lia.
    pose proof (memchr_window delim sane rb (src (parent s)) Hs) as W. rewrite (proj2 (Z.leb_le sane (zlen rb))) in W by lia.
    destruct (memchr delim (ztake (Z.min sane (zlen rb)) rb)) as [i|] eqn:Ei; eexists _, s; (split; [done|]); split_and!; auto;
      unfold find_result, buffered_src; fold rb; rewrite W.
    + split; [done|]. apply memchr_range in Ei. rewrite zlen_ztake in Ei by lia. lia.
    + rewrite (proj2 (Z.ltb_ge _ sane)) by (rewrite zlen_app; lia). split; [done|lia].
  - pose proof (memchr_window delim sane rb (src (parent s)) Hs) as W.
    destruct (memchr delim (ztake (Z.min sane (zlen rb)) rb)) as [i|] eqn:Ei.
    { eexists _, s. split; [done|]. split_and!; auto. unfold find_result, buffered_src. fold rb. rewrite W. split; [done|].
      apply memchr_range in Ei. rewrite zlen_ztake in Ei by lia. lia. }
    destruct (Z.leb_spec sane (zlen rb)) as [Hle|Hgt].
    { eexists _, s. split; [done|]. split_and!; auto. unfold find_result, buffered_src. fold rb. rewrite W.
      rewrite (proj2 (Z.ltb_ge _ sane)) by (rewrite zlen_app; lia). split; [done|lia]. }
    destruct (src_read (parent s) (b_bufferSize (own s)) Hp ltac:(lia)) as (bs & p' & E & Hp' & Es & Hl & He).
    rewrite (on_parent_ok _ s _ _ E). cbn [own set_parent]. fold rb. set (s2 := set_own _ _).
    assert (Hok2 : buffered_ok s2) by (split; cbn; auto).
    assert (Hsrc2 : buffered_src s2 = buffered_src s).
    { unfold buffered_src. cbn. fold rb. rewrite Es, app_assoc. done. }
    destruct (Z.eqb_spec (zlen bs) 0) as [E0|E0].
    + apply zlen_zero_inv in E0 as ->. pose proof (He eq_refl) as He'. rewrite He' in W, Es. rewrite ztake_nil in W. cbn in W.
      change (b_readBuffer (own s2)) with (rb ++ []). rewrite app_nil_r in *.
      eexists _, s2. split; [done|]. split_and!; auto. unfold find_result, buffered_src. fold rb. rewrite He', app_nil_r, W.
      rewrite (proj2 (Z.ltb_lt _ sane)) by lia. split; [done|]. cbn in Es. by symmetry.
    + destruct (IH s2 Hok2 Hs) as (r & s' & E4 & Hok' & Hset & Hown & Hsrc & Hres).
      { cbn. fold rb. rewrite zlen_app. pose proof (zlen_nonneg bs). lia. }
      exists r, s'. rewrite E4. split_and!; auto; [by rewrite Hsrc|]. unfold find_result in *. by rewrite Hsrc2 in Hres.
Qed.

Lemma buffered_find_ok s delim thr :
  buffered_ok s ->
  exists r s', BufferedStream_find delim npos thr s = (r, s') /\ buffered_ok s' /\
    settings (own s') = settings (own s) /\ ownsParent s' = ownsParent s /\
    buffered_src s' = buffered_src s /\ find_result delim (2 * b_bufferSize (own s) + 1) thr r s s'.
Proof.
  intros Hok. pose proof Hok as [Hp Hb Hc]. unfold BufferedStream_find.
  rewrite (bind_ok _ _ _ _ _ (flush_if_seekable_clean s Hc)). unfold method. rewrite Z.eqb_refl. cbv zeta.
  rewrite (u64_small (2 * b_bufferSize (own s))) by lia. rewrite u64_small by lia. apply find_loop_ok; [done|lia|lia].
Qed.

(** The longest line [getDelimited] looks for: the default of [sanitySize]. *)
Definition line_limit (s : BufferedStream P) : Z := 2 * b_bufferSize (own s) + 1.

(** A line in the buffer is read whole. *)
Lemma delimited_read s n :
  buffered_ok s -> 0 <= n <= zlen (b_readBuffer (own s)) ->
  exists s', BufferedStream_read n s = (Ok (ztake n (buffered_src s)), s') /\ buffered_ok s' /\
    settings (own s') = settings (own s) /\ ownsParent s' = ownsParent s /\ buffered_src s' = zdrop n (buffered_src s).
Proof.
  intros Hok Hn. eexists. rewrite (buffered_read_inside s n Hok Hn). unfold buffered_src at 1.
  rewrite ztake_app_le by lia. split; [done|]. destruct Hok as [Hp Hb Hc]. split_and!; [by split|done|done|].
  unfold buffered_src. cbn. rewrite zdrop_app_le by lia. done.
Qed.

Lemma getDelimited_ok s delim eofd incl :
  buffered_ok s ->
  if decide (delim ∈ ztake (line_limit s) (buffered_src s)) then
    exists line rest s', buffered_src s = line ++ delim :: rest /\ delim ∉ line /\
      getDelimited delim eofd incl s = (Ok (if incl then line ++ [delim] else line), s') /\
      buffered_ok s' /\ settings (own s') = settings (own s) /\ ownsParent s' = ownsParent s /\ buffered_src s' = rest
  else if eofd then
    exists n s', getDelimited delim eofd incl s = (Ok (ztake n (buffered_src s)), s') /\ buffered_ok s' /\
      buffered_src s' = zdrop n (buffered_src s) /\ (zlen (buffered_src s) < line_limit s -> n = zlen (buffered_src s)) /\
      (line_limit s <= zlen (buffered_src s) -> line_limit s <= n)
  else
    exists s', getDelimited delim eofd incl s =
        (throw (if zlen (buffered_src s) <? line_limit s then unexpected_eof else buffer_overflow), s') /\
      buffered_ok s' /\ buffered_src s' = buffered_src s /\ settings (own s') = settings (own s).
Proof.
  intros Hok. destruct (buffered_find_ok s delim (negb eofd) Hok) as (r & s1 & E & Hok1 & Hset & Hown & Hsrc & Hres).
  unfold find_result in Hres. fold (line_limit s) in Hres. unfold getDelimited. change (find delim npos (negb eofd)) with (BufferedStream_find (P := P) delim npos (negb eofd)).
  pose proof (bo_size s Hok).
  destruct (memchr delim (ztake (line_limit s) (buffered_src s))) as [i|] eqn:Ei.
  - rewrite decide_True by (apply memchr_Some in Ei as (l0 & l1 & -> & _); apply elem_of_app; right; by left).
    destruct Hres as [-> Hi]. pose proof (memchr_range _ _ _ Ei) as Hr.
    apply memchr_Some in Ei as (line & l1 & El & <- & Hn).
    set (rest := l1 ++ zdrop (line_limit s) (buffered_src s)).
    assert (Ebs : buffered_src s = line ++ delim :: rest).
    { rewrite <- (ztake_zdrop (line_limit s) (buffered_src s)), El, <- app_assoc. done. }
    destruct (delimited_read s1 (zlen line + 1) Hok1) as (s' & E' & Hok' & Hset' & Hown' & Hsrc'); [lia|].
    exists line, rest, s'. rewrite (bind_ok _ _ _ _ _ E). cbv zeta. rewrite (proj2 (Z.ltb_ge (zlen line) 0)) by lia.
    change (read (zlen line + 1)) with (BufferedStream_read (P := P) (zlen line + 1)). rewrite (bind_ok _ _ _ _ _ E').
    rewrite Hsrc, Ebs, ztake_snoc in *. rewrite Hsrc', zdrop_snoc.
    assert (Ln : zlen (line ++ [delim]) = zlen line + 1) by (rewrite zlen_app; done).
    rewrite Ln, Z.eqb_refl. rewrite (bind_ok _ _ _ tt s') by done. rewrite list_elem_of_In. split_and!; auto; try congruence.
    unfold mret, op_ret. do 2 f_equal. destruct incl; cbn [negb andb]; [done|].
    replace (zlen line + 1 - 1) with (zlen line) by lia. rewrite ztake_app_le, ztake_all by lia. done.
  - assert (Hnone : delim ∉ ztake (line_limit s) (buffered_src s)).
    { intros Hin. apply list_elem_of_In, in_split in Hin as (l0 & l1 & Hin). rewrite Hin, memchr_app in Ei.
      destruct (memchr delim l0); [done|]. cbn in Ei. by rewrite Z.eqb_refl in Ei. }
    rewrite decide_False by done. destruct eofd; cbn [negb] in *.
    + set (n := zlen (b_readBuffer (own s1))). pose proof (zlen_nonneg (b_readBuffer (own s1))).
      assert (Hcase : r = Ok (- n - 1) /\ (zlen (buffered_src s) < line_limit s -> n = zlen (buffered_src s)) /\
        (line_limit s <= zlen (buffered_src s) -> line_limit s <= n)).
      { destruct (Z.ltb_spec (zlen (buffered_src s)) (line_limit s)); destruct Hres as [-> Hres].
        - assert (En : zlen (buffered_src s) = n) by (rewrite <- Hsrc; unfold buffered_src; rewrite Hres, app_nil_r; done).
          rewrite En. split_and!; auto.
        - split_and!; auto. lia. }
      destruct Hcase as (-> & Hn1 & Hn2).
      destruct (delimited_read s1 n Hok1) as (s' & E' & Hok' & Hset' & Hown' & Hsrc'); [unfold n; lia|].
      exists n, s'. rewrite (bind_ok _ _ _ _ _ E). cbv zeta. rewrite (proj2 (Z.ltb_lt (- n - 1) 0)) by lia.
      replace (- (- n - 1) - 1 + 0) with n by lia.
      change (read n) with (BufferedStream_read (P := P) n). rewrite (bind_ok _ _ _ _ _ E'). rewrite Hsrc in *.
      assert (Ln : zlen (ztake n (buffered_src s)) = n).
      { rewrite zlen_ztake by lia. rewrite <- Hsrc. unfold buffered_src. rewrite zlen_app. pose proof (zlen_nonneg (src (parent s1))). lia. }
      rewrite Ln, Z.eqb_refl. rewrite (bind_ok _ _ _ tt s') by done. split_and!; auto.
    + exists s1. destruct (zlen (buffered_src s) <? line_limit s); destruct Hres as [-> _]; rewrite (bind_err _ _ _ _ _ E); split_and!; auto.
Qed.

Lemma settings_limit s s' : settings (own s') = settings (own s) -> line_limit s' = line_limit s.
Proof. intros E. injection E as E _ _. unfold line_limit. by rewrite E. Qed.

#[global, refine] Instance BufferedStream_LineSource : LineSource (BufferedStream P) := {
  ls_ok := buffered_ok;
  ls_src := buffered_src;
  ls_limit := line_limit;
}.
Proof.
  - intros s n Hok Hn. destruct (buffered_read_ok s n Hok ltac:(lia)) as (bs & s' & E & Hok' & Hs & _ & Es & Hl & He & _).
    exists bs, s'. split_and!; auto using settings_limit. intros E0. apply He; [done|lia].
  - intros s delim line rest Hok Es Hline Hlim. pose proof (getDelimited_ok s delim false true Hok) as R.
    pose proof (zlen_nonneg line).
    rewrite decide_True in R.
    2:{ rewrite Es, ztake_app_ge by lia. apply elem_of_app. right. unfold ztake.
        destruct (Z.to_nat (line_limit s - zlen line)) eqn:E; [lia|]. by left. }
    destruct R as (line' & rest' & s' & Es' & Hline' & E & Hok' & Hset & _ & Esrc).
    rewrite Es in Es'. apply app_inj_delim in Es' as [<- <-]; auto.
    exists s'. split_and!; auto using settings_limit.
  - intros s delim Hok Hn Hlim. pose proof (getDelimited_ok s delim false true Hok) as R.
    rewrite decide_False in R by (rewrite ztake_all; [done|lia]).
    rewrite (proj2 (Z.ltb_lt _ _) Hlim) in R. destruct R as (s' & E & Hok' & Es & Hset).
    exists s'. split_and!; auto using settings_limit.
Defined.

End Reading.

(** BufferedStream::read: without partial reads a read gives exactly the bytes asked for, or all that is
    left, however little each read of the parent returns, and nothing that was read ahead is lost. *)
Theorem buffered_read_spec {P} `{Source P} (s : BufferedStream P) n :
  buffered_ok s -> b_allowPartialReads (own s) = false -> 0 <= n < 2 ^ 62 ->
  exists s', read n s = (Ok (ztake n (buffered_src s)), s') /\ buffered_ok s' /\ buffered_src s' = zdrop n (buffered_src s).
Proof.
  intros Hok Hpart Hn. destruct (buffered_read_ok s n Hok Hn) as (bs & s' & E & Hok' & _ & _ & Hsrc & Hl & _ & Hall).
  specialize (Hall Hpart). exists s'. subst bs. split_and!; auto.
  apply (app_inv_head (ztake n (buffered_src s))). rewrite ztake_zdrop. by symmetry.
Qed.

Definition buffered_hello : BufferedStream MemoryStream := BufferedStream_new 2 hello true.

Lemma buffered_hello_ok : buffered_ok buffered_hello.
Proof. split; [exact hello_ok|cbn; lia|done]. Defined.

Lemma buffered_read_witness : exists s', read 3 buffered_hello = (Ok [104; 101; 108], s') /\ buffered_src s' = [108; 111].
Proof.
  destruct (buffered_read_spec buffered_hello 3 buffered_hello_ok eq_refl) as (s' & E & _ & B); [lia|].
  exists s'. split; [exact E|exact B].
Defined.

(** GetDelimited on a BufferedStream: a line within twice the buffer size is returned up to its delimiter and
    exactly that is consumed; at the end of the stream the rest is returned or [UnexpectedEofException] thrown
    with nothing lost; a longer line throws [BufferOverflowException] with nothing lost, but when the end of the
    stream is to count as a delimiter what happens to be buffered is returned as if it were the rest. *)
Theorem buffered_getDelimited_spec {P} `{Source P} (s : BufferedStream P) delim eofd incl :
  buffered_ok s ->
  if decide (delim ∈ ztake (line_limit s) (buffered_src s)) then
    exists line rest s', buffered_src s = line ++ delim :: rest /\ delim ∉ line /\
      getDelimited delim eofd incl s = (Ok (if incl then line ++ [delim] else line), s') /\
      buffered_ok s' /\ buffered_src s' = rest
  else if eofd then
    exists n s', getDelimited delim eofd incl s = (Ok (ztake n (buffered_src s)), s') /\ buffered_ok s' /\
      buffered_src s' = zdrop n (buffered_src s) /\ (zlen (buffered_src s) < line_limit s -> n = zlen (buffered_src s)) /\
      (line_limit s <= zlen (buffered_src s) -> line_limit s <= n)
  else
    exists s', getDelimited delim eofd incl s =
        (throw (if zlen (buffered_src s) <? line_limit s then unexpected_eof else buffer_overflow), s') /\
      buffered_ok s' /\ buffered_src s' = buffered_src s.
Proof.
  intros Hok. pose proof (getDelimited_ok s delim eofd incl Hok) as R. destruct (decide _).
  2:{ destruct eofd; [exact R|]. destruct R as (s' & ? & ? & ? & _). by exists s'. }
  destruct R as (line & rest & s' & ? & ? & ? & ? & _ & _ & ?). exists line, rest, s'. split_and!; auto.
Qed.

Lemma buffered_getDelimited_witness :
  exists s', getDelimited 108 false false buffered_hello = (Ok [104; 101], s') /\ buffered_src s' = [108; 111].
Proof.
  pose proof (buffered_getDelimited_spec buffered_hello 108 false false buffered_hello_ok) as R.
  rewrite decide_True in R by (cbn; apply elem_of_cons; right; apply elem_of_cons; right; by left).
  destruct R as (line & rest & s' & _ & _ & E & _). vm_compute in E. injection E as <- <-. eexists. split; vm_compute; reflexivity.
Defined.

(** Writing to a [BufferedStream] over any sink. *)

(** A memory stream with its position at the end takes what is written. *)
#[global, refine] Instance MemoryStream_Sink : Sink MemoryStream := {
  snk_ok := fun s => ms_ok s /\ ms_offset s = zlen (ms_original s);
  snk := ms_original;
}.
Proof.
  intros s bs [Hok Ho] Hn Hb. destruct (ms_write_ok s bs Hok) as (s' & E & Hok' & F); [lia|left; lia|].
  exists (Ok (zlen bs)), s'. injection F as Fo Fp. split; [exact E|].
  rewrite pad_inside, ztake_all, zdrop_all, app_nil_r in Fo by lia.
  split; [split; [done|rewrite Fo, Fp, zlen_app; lia]|]. left. exists (zlen bs). rewrite Fo, ztake_all by lia. split_and!; auto; lia.
Defined.

Section Writing.
Context {P : Type} `{Sink P}.

(** A buffered stream that nothing was read ahead from. *)
Record bwrite_ok (s : BufferedStream P) : Prop := {
  bw_parent : snk_ok (parent s);
  bw_size : 0 < b_bufferSize (own s) < 2 ^ 61;
  bw_clean : b_readBuffer (own s) = [];
}.

(** What clients have written, whether it has reached the parent or not. *)
Definition buffered_snk (s : BufferedStream P) : list Z := snk (parent s) ++ b_writeBuffer (own s).

Lemma drop_read_ahead_clean s : b_readBuffer (own s) = [] -> drop_read_ahead s = (Ok tt, s).
Proof. intros E. unfold drop_read_ahead. rewrite E. by rewrite andb_false_r. Qed.

(** Handing the first [n] bytes of the write buffer to the parent. *)
Lemma hand_on s n :
  bwrite_ok s -> 0 < n <= zlen (b_writeBuffer (own s)) -> zlen (buffered_snk s) < 2 ^ 62 ->
  exists r s', on_parent (write (ztake n (b_writeBuffer (own s)))) s = (r, s') /\ own s' = own s /\
    ownsParent s' = ownsParent s /\ snk_ok (parent s') /\
    ((exists k, r = Ok k /\ 0 < k <= n /\ snk (parent s') = snk (parent s) ++ ztake k (b_writeBuffer (own s))) \/
     (exists e, r = throw e /\ snk (parent s') = snk (parent s))).
Proof.
  intros [Hp Hb Hc] Hn Hbound. unfold buffered_snk in Hbound. rewrite zlen_app in Hbound.
  assert (L : zlen (ztake n (b_writeBuffer (own s))) = n) by (rewrite zlen_ztake; lia).
  destruct (snk_write (parent s) (ztake n (b_writeBuffer (own s))) Hp) as (r & p' & E & Hp' & Hcase); [lia|lia|].
  exists r, (set_parent p' s). rewrite (on_parent_ok _ s _ _ E). split_and!; auto. cbn [parent set_parent].
  destruct Hcase as [(k & -> & Hk & Es)|(e & -> & Es)]; [left; exists k|right; by exists e].
  split_and!; auto; try lia. rewrite Es, ztake_ztake by lia. done.
Qed.

(** One round of [flushWrite] and of [flush]: the same bytes in the same order, more of them at the parent. *)
Record moved (s s' : BufferedStream P) : Prop := {
  mv_ok : bwrite_ok s';
  mv_settings : b_bufferSize (own s') = b_bufferSize (own s);
  mv_snk : buffered_snk s' = buffered_snk s;
  mv_rest : exists k, 0 <= k /\ b_writeBuffer (own s') = zdrop k (b_writeBuffer (own s)) /\ k <= zlen (b_writeBuffer (own s));
}.

Lemma moved_trans s1 s2 s3 : moved s1 s2 -> moved s2 s3 -> moved s1 s3.
Proof.
  intros [A1 A2 A3 (k & A4 & A5 & A6)] [B1 B2 B3 (j & B4 & B5 & B6)]. split; [done|congruence|congruence|].
  exists (k + j). rewrite B5, A5, zdrop_zdrop by lia. rewrite A5, zlen_zdrop in B6 by lia. split_and!; auto; lia.
Qed.

Lemma moved_refl s : bwrite_ok s -> moved s s.
Proof. intros Hok. split; auto. exists 0. rewrite zdrop_0. pose proof (zlen_nonneg (b_writeBuffer (own s))). split_and!; auto; lia. Qed.

Lemma flushWrite_once_ok s :
  bwrite_ok s -> b_bufferSize (own s) <= zlen (b_writeBuffer (own s)) -> zlen (buffered_snk s) < 2 ^ 62 ->
  exists r s', flushWrite_once s = (r, s') /\ moved s s' /\
    ((r = Ok tt /\ zlen (b_writeBuffer (own s')) < zlen (b_writeBuffer (own s))) \/
     (exists e, r = throw e /\ own s' = own s)).
Proof.
  intros Hok Hle Hbound. pose proof Hok as [Hp Hb Hc]. unfold flushWrite_once.
  rewrite (bind_ok _ _ _ _ _ (drop_read_ahead_clean s Hc)). unfold method. cbv zeta.
  set (w := b_writeBuffer (own s)) in *. set (n := if b_flushMultiplesOfBuffer (own s) then _ else _).
  assert (Hn : 0 < n <= zlen w).
  { unfold n. destruct (b_flushMultiplesOfBuffer (own s)); [|lia].
    pose proof (Z.div_mod (zlen w) (b_bufferSize (own s)) ltac:(lia)).
    pose proof (Z.mod_pos_bound (zlen w) (b_bufferSize (own s)) ltac:(lia)).
    assert (1 <= zlen w / b_bufferSize (own s)) by (apply Z.div_le_lower_bound; lia). nia. }
  destruct (hand_on s n Hok Hn Hbound) as (r & s1 & E & Eo & Ew & Hp1 & [(k & -> & Hk & Es)|(e & -> & Es)]).
  - fold w in E. rewrite (bind_ok _ _ _ _ _ E). rewrite (bind_ok _ _ s1 (zdrop k w) s1).
    2:{ unfold method. rewrite Eo. fold w. unfold buf_consume. rewrite (proj2 (Z.leb_le k (zlen w))) by lia. done. }
    unfold setp, modify. eexists (Ok tt), _. split; [done|]. cbn [own set_own]. split.
    + split; cbn [own parent set_own].
      * split; cbn; rewrite ?Eo; auto.
      * cbn. by rewrite Eo.
      * unfold buffered_snk. cbn. rewrite Es, <- app_assoc. fold w. by rewrite ztake_zdrop.
      * exists k. cbn. fold w. split_and!; auto; lia.
    + left. split; [done|]. cbn. rewrite zlen_zdrop by lia. lia.
  - fold w in E. rewrite (bind_err _ _ _ _ _ E). eexists _, s1. split; [done|]. split; [|right; by exists e]. split.
    + split; rewrite ?Eo; auto.
    + by rewrite Eo.
    + unfold buffered_snk. by rewrite Es, Eo.
    + exists 0. rewrite Eo, zdrop_0. pose proof (zlen_nonneg w). split_and!; auto; lia.
Qed.

(** The loop over the write buffer [old ++ bs]. *)
Lemma flushWrite_ok fuel s old bs :
  bwrite_ok s -> (exists k, 0 <= k <= zlen (old ++ bs) /\ b_writeBuffer (own s) = zdrop k (old ++ bs)) ->
  zlen (buffered_snk s) < 2 ^ 62 -> zlen (b_writeBuffer (own s)) < Z.of_nat fuel ->
  exists r s', flushWrite fuel (zlen bs) s = (r, s') /\ bwrite_ok s' /\
    ((r = Ok (zlen bs) /\ buffered_snk s' = buffered_snk s) \/
     (exists e, r = throw e /\ buffered_snk s' ++ bs = buffered_snk s)).
Proof.
  revert s. induction fuel as [|fuel IH]; intros s Hok Hw Hbound Hf; [pose proof (zlen_nonneg (b_writeBuffer (own s))); lia|].
  cbn [flushWrite]. destruct (Z.ltb_spec (zlen (b_writeBuffer (own s))) (b_bufferSize (own s))) as [Hlt|Hge].
  { eexists _, s. split; [done|]. split; [done|]. by left. }
  destruct (flushWrite_once_ok s Hok Hge Hbound) as (r & s1 & E & M & Hcase). rewrite E. pose proof M as [Hok1 Hs1 Hsnk (j & Hj1 & Hj2 & Hj3)].
  destruct Hw as (k & Hk & Ek).
  assert (Hw1 : exists k, 0 <= k <= zlen (old ++ bs) /\ b_writeBuffer (own s1) = zdrop k (old ++ bs)).
  { exists (k + j). rewrite Hj2, Ek, zdrop_zdrop by lia. rewrite Ek, zlen_zdrop in Hj3 by lia. split; [lia|done]. }
  destruct Hcase as [[-> Hless]|(e & -> & Eo)].
  - destruct (IH s1 Hok1 Hw1) as (r & s' & E' & Hok' & Hcase'); [by rewrite Hsnk|lia|]. exists r, s'. rewrite Hsnk in Hcase'. auto.
  - destruct (Z.leb_spec (zlen bs) (zlen (b_writeBuffer (own s1)))) as [Hle|Hgt].
    + eexists _, _. split; [done|]. split.
      { destruct Hok1 as [? ? ?]. split; cbn; auto. }
      right. exists e. split; [done|]. rewrite <- Hsnk. unfold buffered_snk. cbn. rewrite <- app_assoc. f_equal.
      destruct Hw1 as (i & Hi & Ei). rewrite Ei in *. rewrite zlen_zdrop, zlen_app in * by lia. pose proof (zlen_nonneg bs).
      rewrite Z.max_r in * by lia. rewrite zdrop_app_le by lia.
      rewrite ztake_app_le by (rewrite zlen_zdrop; lia). rewrite ztake_all by (rewrite zlen_zdrop; lia). done.
    + eexists _, s1. split; [done|]. split; [done|]. left. split; [done|]. done.
Qed.

(** The loop of [flush]. *)
Lemma flush_loop_ok fuel s :
  bwrite_ok s -> zlen (buffered_snk s) < 2 ^ 62 -> zlen (b_writeBuffer (own s)) <= Z.of_nat fuel ->
  exists r s', flush_loop fuel s = (r, s') /\ moved s s' /\
    ((r = Ok tt /\ b_writeBuffer (own s') = []) \/ exists e, r = throw e).
Proof.
  revert s. induction fuel as [|fuel IH]; intros s Hok Hbound Hf; pose proof (zlen_nonneg (b_writeBuffer (own s))); cbn [flush_loop].
  - rewrite (proj2 (Z.eqb_eq _ 0)) by lia. eexists _, s. split; [done|]. split; [by apply moved_refl|]. left. split; [done|].
    apply zlen_zero_inv. lia.
  - destruct (Z.eqb_spec (zlen (b_writeBuffer (own s))) 0) as [E0|E0].
    { eexists _, s. split; [done|]. split; [by apply moved_refl|]. left. split; [done|]. by apply zlen_zero_inv. }
    pose proof Hok as [Hp Hb Hc]. rewrite (bind_ok _ _ _ _ _ (drop_read_ahead_clean s Hc)). set (w := b_writeBuffer (own s)) in *.
    destruct (hand_on s (zlen w) Hok) as (r & s1 & E & Eo & Ew & Hp1 & Hcase); [fold w; lia|done|]. fold w in E, Hcase. rewrite ztake_all in E by lia.
    unfold method at 1. destruct Hcase as [(k & -> & Hk & Es)|(e & -> & Es)].
    + rewrite (bind_ok _ _ s k s1) by exact E. rewrite (proj2 (Z.ltb_lt 0 k)) by lia. rewrite (bind_ok _ _ s1 tt s1) by done.
      rewrite (bind_ok _ _ s1 (zdrop k w) s1).
      2:{ unfold method. rewrite Eo. fold w. unfold buf_consume. rewrite (proj2 (Z.leb_le k (zlen w))) by lia. done. }
      set (s2 := set_own (set_writeBuffer (zdrop k w) (own s1)) s1). rewrite (bind_ok _ _ s1 tt s2) by done.
      assert (M : moved s s2).
      { split; cbn [own parent set_own s2].
        - split; cbn; rewrite ?Eo; auto.
        - cbn. by rewrite Eo.
        - unfold buffered_snk. cbn. rewrite Es, <- app_assoc. fold w. by rewrite ztake_zdrop.
        - exists k. cbn. fold w. split_and!; auto; lia. }
      destruct (IH s2) as (r & s' & E' & M' & Hcase'); [apply M|by rewrite (mv_snk _ _ M)|cbn; rewrite zlen_zdrop; lia|].
      exists r, s'. split; [exact E'|]. split; [by eapply moved_trans|done].
    + rewrite (bind_err _ _ s _ s1) by exact E. eexists _, s1. split; [done|]. split; [|right; by exists e]. split.
      * split; rewrite ?Eo; auto.
      * by rewrite Eo.
      * unfold buffered_snk. by rewrite Es, Eo.
      * exists 0. rewrite Eo, zdrop_0. fold w. split_and!; auto; lia.
Qed.

End Writing.

(** BufferedStream::write and flush are all or nothing: a write either takes all its bytes, in order, or throws and
    has taken none of them, even when the parent failed after it had already accepted older bytes; [flush] leaves nothing
    in the buffer unless it throws; in every case no byte written before is lost, repeated or reordered. *)
Theorem buffered_write_spec {P} `{Sink P} (s : BufferedStream P) bs :
  bwrite_ok s -> zlen (buffered_snk s) + zlen bs < 2 ^ 62 ->
  (exists r s', write bs s = (r, s') /\ bwrite_ok s' /\
     ((r = Ok (zlen bs) /\ buffered_snk s' = buffered_snk s ++ bs) \/
      (exists e, r = throw e /\ buffered_snk s' = buffered_snk s))) /\
  (exists r s', flush false s = (r, s') /\ bwrite_ok s' /\ buffered_snk s' = buffered_snk s /\
     ((r = Ok tt /\ snk (parent s') = buffered_snk s) \/ exists e, r = throw e)).
Proof.
  intros Hok Hb. pose proof (zlen_nonneg bs). split.
  - cbn [write BufferedStream_Stream]. unfold BufferedStream_write.
    set (s1 := set_own (set_writeBuffer (b_writeBuffer (own s) ++ bs) (own s)) s).
    rewrite (bind_ok _ _ s tt s1) by done. unfold method.
    assert (Hsnk : buffered_snk s1 = buffered_snk s ++ bs) by (unfold buffered_snk; cbn; by rewrite app_assoc).
    destruct (flushWrite_ok (S (length (b_writeBuffer (own s1)))) s1 (b_writeBuffer (own s)) bs) as (r & s' & E & Hok' & Hcase).
    { destruct Hok. split; auto. }
    { exists 0. rewrite zdrop_0. pose proof (zlen_nonneg (b_writeBuffer (own s) ++ bs)). split; [lia|done]. }
    { rewrite Hsnk, zlen_app. lia. }
    { unfold zlen. lia. }
    destruct Hcase as [[-> Es]|(e & -> & Es)].
    + rewrite (bind_ok _ _ _ _ _ E), Z.eqb_refl. rewrite (bind_ok _ _ s' tt s') by done. exists (Ok (zlen bs)), s'.
      split; [done|]. split; [done|]. left. by rewrite Es, Hsnk.
    + rewrite (bind_err _ _ _ _ _ E). eexists _, s'. split; [done|]. split; [done|]. right. exists e. split; [done|].
      rewrite Hsnk in Es. by apply app_inv_tail in Es.
  - cbn [flush BufferedStream_Stream]. unfold BufferedStream_flush.
    destruct (flush_loop_ok (length (b_writeBuffer (own s))) s Hok) as (r & s' & E & [M1 M2 M3 M4] & Hcase); [lia|unfold zlen; lia|].
    destruct Hcase as [[-> Ew]|(e & ->)].
    + rewrite (bind_ok _ _ _ _ _ E). exists (Ok tt), s'. split_and!; auto. left. split; [done|]. rewrite <- M3.
      unfold buffered_snk. by rewrite Ew, app_nil_r.
    + rewrite (bind_err _ _ _ _ _ E). eexists _, s'. split_and!; auto. right. by exists e.
Qed.

Definition buffered_out : BufferedStream MemoryStream := BufferedStream_new 4 MemoryStream_new true.

Lemma buffered_out_ok : bwrite_ok buffered_out.
Proof. split; [split; [split; [done|done|reflexivity]|done]|cbn; lia|done]. Defined.

Lemma buffered_write_witness :
  exists r s', write [1; 2; 3; 4; 5] buffered_out = (r, s') /\ bwrite_ok s'.
Proof.
  destruct (buffered_write_spec buffered_out [1; 2; 3; 4; 5] buffered_out_ok) as [(r & s' & E & Hok & _) _]; [reflexivity|].
  exists r, s'. split; [exact E|exact Hok].
Defined.

(** A stream on eight bytes of memory, after two bytes were read. *)
Definition eight : BufferedStream MemoryStream := BufferedStream_new 16 (MemoryStream_of [1; 2; 3; 4; 5; 6; 7; 8]) true.
Definition eight_read : BufferedStream MemoryStream := snd (read 2 eight).

(** Seeking on a seekable stream that has been read from and written to: [seek] decides from the positions before
    its own flush, which drops what was read ahead, that the target lies in the read buffer, and trips the
    assertion of [Buffer::consume]. *)
Theorem buffered_seek_asserts :
  fst (read 2 eight) = Ok [1; 2] /\ fst (write [9] eight_read) = Ok 1 /\
  fst (seek 5 BEGIN (snd (write [9] eight_read))) = Err Assertion.
Proof. split_and!; vm_compute; reflexivity. Qed.
