(* ===== verification/Chunked.v ===== *)
(** [http/chunked.h] and [http/chunked.cpp]: the chunked transfer coding, with [std::hex] and [strtoull] written out. *)

From stdpp Require Import numbers list_numbers list.
From S2P Require Import Prelude Stream StreamMemory StreamFilters StreamBuffered.

(** ** Characters *)

Definition CR : Z := 13.
Definition LF : Z := 10.

(** [std::hex << n]: lower case, no leading zeros. *)
Definition hex_char (d : Z) : Z := if d <? 10 then 48 + d else 87 + d.

Fixpoint hex_digits (fuel : nat) (n : Z) (acc : list Z) : list Z :=
  match fuel with
  | O => acc
  | S fuel' =>
      let acc' := hex_char (n mod 16) :: acc in
      if n <? 16 then acc' else hex_digits fuel' (n / 16) acc'
  end.

(** A 64-bit number has at most 16 digits. *)
Definition to_hex (n : Z) : list Z := hex_digits 16 n [].

Definition hex_value (c : Z) : option Z :=
  if (48 <=? c) && (c <=? 57) then Some (c - 48)
  else if (97 <=? c) && (c <=? 102) then Some (c - 87)
  else if (65 <=? c) && (c <=? 70) then Some (c - 55)
  else None.

Definition isspace (c : Z) : bool := (c =? 32) || ((9 <=? c) && (c <=? 13)).

Fixpoint skip_spaces (l : list Z) : list Z :=
  match l with c :: l' => if isspace c then skip_spaces l' else l | [] => [] end.

(** The digits: the value, and how many there were. *)
Fixpoint scan_hex (v : Z) (n : nat) (l : list Z) : Z * nat :=
  match l with
  | c :: l' => match hex_value c with Some d => scan_hex (v * 16 + d) (S n) l' | None => (v, n) end
  | [] => (v, n)
  end.

(** [strtoull(s, &end, 16)]: [None] when [end == s]; a value that does not fit is [ULLONG_MAX], a minus sign negates
    in the unsigned type, and a prefix [0x] is skipped when a digit follows it. *)
Definition strtoull16 (s : list Z) : option Z :=
  let s := skip_spaces s in
  let '(negative, s) := match s with
    | c :: s' => if c =? 45 then (true, s') else if c =? 43 then (false, s') else (false, s)
    | [] => (false, s)
    end in
  let s := match s with
    | z :: x :: d :: s' =>
        if (z =? 48) && ((x =? 120) || (x =? 88)) && bool_decide (is_Some (hex_value d)) then d :: s' else s
    | _ => s
    end in
  match scan_hex 0 0 s with
  | (_, O) => None
  | (v, _) => Some (if 2 ^ 64 <=? v then 2 ^ 64 - 1 else if negative then u64 (- v) else v)
  end.

(** ** [ChunkedStream] *)

(** The member [m_nextChunk]. *)
Definition ChunkedStream (P : Type) : Type := Filter P Z.

(** A header has to be read; the line end after a chunk has to be read. *)
Definition need_header : Z := 2 ^ 64 - 1.
Definition need_footer : Z := 2 ^ 64 - 2.

Section ChunkedStream.
Context {P : Type} `{!Stream P}.

Definition ChunkedStream_new (p : P) (owns : bool) : result (ChunkedStream P) :=
  assert: (if supportsRead p then supportsFind p else true) ;;
  Ok (mkFilter p owns need_header).

Definition ChunkedStream_close (type : CloseType) : op (ChunkedStream P) unit :=
  method (fun s => if supportsWrite (parent s) && closes_write type
    then (on_parent (write [48; CR; LF]) ≫= fun _ => mret tt) s else (Ok tt, s)) ≫= fun _ =>
  FilterStream_close type.

(** [chunk.resize(chunk.size() - 1)], and once more after a carriage return. *)
Definition chop (chunk : list Z) : list Z :=
  let chunk := ztake (zlen chunk - 1) chunk in
  match last chunk with
  | Some c => if c =? CR then ztake (zlen chunk - 1) chunk else chunk
  | None => chunk
  end.

(** [parent()->getDelimited()] without its line end. *)
Definition read_line : op (ChunkedStream P) (list Z) :=
  chunk ← on_parent (getDelimited LF false true);
  check (negb (zlen chunk =? 0)) ≫= fun _ => mret (chop chunk).

(** A C string stops at a zero byte. *)
Fixpoint c_str (l : list Z) : list Z :=
  match l with c :: l' => if c =? 0 then [] else c :: c_str l' | [] => [] end.

Definition read_footer : op (ChunkedStream P) unit :=
  chunk ← read_line;
  if negb (zlen chunk =? 0) then raise invalid_chunk else setp (fun _ => need_header).

Definition read_header : op (ChunkedStream P) unit :=
  chunk ← read_line;
  match strtoull16 (c_str chunk) with
  | None => setp (fun _ => 0) ≫= fun _ => raise invalid_chunk
  | Some n => setp (fun _ => n)
  end.

Definition ChunkedStream_read (len : Z) : op (ChunkedStream P) (list Z) :=
  next ← getp id;
  (if next =? need_footer then read_footer else mret tt) ≫= fun _ =>
  next ← getp id;
  (if next =? need_header then read_header else mret tt) ≫= fun _ =>
  next ← getp id;
  if next =? 0 then mret []
  else
    bs ← on_parent (read (Z.min len next));
    let left := u64 (next - zlen bs) in
    setp (fun _ => if left =? 0 then need_footer else left) ≫= fun _ => mret bs.

(** [while (copy.readAvailable())]: every round writes at least a byte. *)
Fixpoint write_copy (fuel : nat) (copy : list Z) : op (ChunkedStream P) unit :=
  if zlen copy =? 0 then mret tt
  else
    match fuel with
    | O => lift (Err Diverges)
    | S fuel' =>
        n ← on_parent (write copy);
        rest ← lift (buf_consume n copy);
        write_copy fuel' rest
    end.

(** The results of writing the header and the line end are ignored. *)
Definition ChunkedStream_write (bs : list Z) : op (ChunkedStream P) Z :=
  on_parent (write (to_hex (zlen bs) ++ [CR; LF])) ≫= fun _ =>
  write_copy (length bs) bs ≫= fun _ =>
  on_parent (write [CR; LF]) ≫= fun _ => mret (zlen bs).

#[global] Instance ChunkedStream_Stream : Stream (ChunkedStream P) := {
  supportsHalfClose := fun s => supportsHalfClose (parent s);
  supportsRead := fun s => supportsRead (parent s);
  supportsWrite := fun s => supportsWrite (parent s);
  supportsSeek := fun _ => false;
  supportsTell := fun _ => false;
  supportsSize := fun _ => false;
  supportsTruncate := fun _ => false;
  supportsFind := fun _ => false;
  supportsUnread := fun _ => false;
  close := ChunkedStream_close;
  read := ChunkedStream_read;
  write := ChunkedStream_write;
  seek := fun _ _ => not_reached;
  size := not_reached;
  truncate := fun _ => not_reached;
  flush := FilterStream_flush;
  find := fun _ _ _ => not_reached;
  unread := fun _ => not_reached;
}.

End ChunkedStream.
