(* ===== verification/ChunkedProps.v ===== *)
(** The format of the chunked coding, decoding, encoding and the round trip. *)

From stdpp Require Import numbers list_numbers list.
From S2P Require Import Prelude Stream StreamMemory StreamFilters StreamBuffered BufferedProps Chunked.

(** ** Hexadecimal numbers *)

Definition is_hex (c : Z) : Prop := (48 <= c <= 57) \/ (97 <= c <= 102).

Lemma hex_char_ok d : 0 <= d < 16 -> is_hex (hex_char d) /\ hex_value (hex_char d) = Some d.
Proof.
  intros Hd. unfold is_hex, hex_char, hex_value. destruct (Z.ltb_spec d 10).
  - rewrite (proj2 (Z.leb_le 48 _)), (proj2 (Z.leb_le _ 57)) by lia. cbn. split; [lia|]. f_equal. lia.
  - rewrite (proj2 (Z.leb_gt _ 57)) by lia. rewrite andb_false_r.
    rewrite (proj2 (Z.leb_le 97 _)), (proj2 (Z.leb_le _ 102)) by lia. cbn. split; [lia|]. f_equal. lia.
Qed.

Lemma hex_digits_ok fuel n acc : (0 < fuel)%nat -> 0 <= n < 16 ^ Z.of_nat fuel ->
  exists ds, hex_digits fuel n acc = ds ++ acc /\ ds <> [] /\ (length ds <= fuel)%nat /\ Forall is_hex ds /\
    forall v k l, scan_hex v k (ds ++ l) = scan_hex (v * 16 ^ zlen ds + n) (k + length ds)%nat l.
Proof.
  revert n acc. induction fuel as [|fuel IH]; intros n acc Hf Hn; [lia|]. cbn [hex_digits].
  pose proof (Z.mod_pos_bound n 16 ltac:(lia)) as Hm. pose proof (Z.div_mod n 16 ltac:(lia)) as Hd.
  destruct (hex_char_ok (n mod 16) Hm) as [Hc Hv]. set (c := hex_char (n mod 16)) in *.
  destruct (Z.ltb_spec n 16).
  - exists [c]. split_and!; [done|done|cbn; lia|by constructor|]. intros v k l. cbn [app scan_hex]. rewrite Hv.
    rewrite Z.mod_small by lia. change (zlen [c]) with 1. f_equal; cbn [length]; lia.
  - destruct fuel as [|fuel]; [change (16 ^ Z.of_nat 1) with 16 in Hn; lia|].
    destruct (IH (n / 16) (c :: acc)) as (ds & E & Hne & Hl & Hh & Hscan); [lia| |].
    { split; [apply Z.div_pos; lia|]. apply Z.div_lt_upper_bound; [lia|].
      rewrite <- Z.pow_succ_r by lia. replace (Z.succ (Z.of_nat (S fuel))) with (Z.of_nat (S (S fuel))) by lia. lia. }
    exists (ds ++ [c]). rewrite E, <- app_assoc. split_and!; [done|by destruct ds|rewrite length_app; cbn; lia| |].
    + apply Forall_app. split; [done|by constructor].
    + intros v k l. rewrite <- app_assoc, Hscan. cbn [app scan_hex]. rewrite Hv, zlen_app, length_app.
      change (zlen [c]) with 1. rewrite Z.pow_add_r by (pose proof (zlen_nonneg ds); lia). f_equal; cbn [length]; lia.
Qed.

Lemma to_hex_ok n : 0 <= n < 2 ^ 64 ->
  to_hex n <> [] /\ zlen (to_hex n) <= 16 /\ Forall is_hex (to_hex n) /\ strtoull16 (to_hex n) = Some n.
Proof.
  intros Hn. destruct (hex_digits_ok 16 n []) as (ds & E & Hne & Hl & Hh & Hscan); [lia|lia|].
  unfold to_hex. rewrite E, app_nil_r. split_and!; [done|unfold zlen; lia|done|]. specialize (Hscan 0 O []). rewrite app_nil_r in Hscan.
  destruct ds as [|c ds]; [done|]. inversion Hh as [|? ? Hc Hh']; subst. unfold strtoull16.
  assert (isspace c = false) as Hsp.
  { unfold isspace. unfold is_hex in Hc. repeat ztest; cbn; done || lia. }
  cbn [skip_spaces]. rewrite Hsp. unfold is_hex in Hc.
  rewrite (proj2 (Z.eqb_neq c 45)), (proj2 (Z.eqb_neq c 43)) by lia. cbv iota beta zeta.
  assert (Hpre : match c :: ds with
    | z :: x :: d :: s' => if (z =? 48) && ((x =? 120) || (x =? 88)) && bool_decide (is_Some (hex_value d)) then d :: s' else c :: ds
    | _ => c :: ds end = c :: ds).
  { destruct ds as [|x [|d ds]]; auto. inversion Hh' as [|? ? Hx _]; subst. unfold is_hex in Hx.
    rewrite (proj2 (Z.eqb_neq x 120)), (proj2 (Z.eqb_neq x 88)) by lia. cbn. by rewrite andb_false_r. }
  rewrite Hpre, Hscan. cbn [scan_hex length Nat.add]. rewrite (proj2 (Z.leb_gt _ _)) by lia. f_equal.
Qed.

(** ** The format *)

(** What is left of a line when the line end is removed, as the stream does it. *)
Definition header_value (line : list Z) : option Z := strtoull16 (c_str (chop (line ++ [LF]))).

(** [wire lim next payload rest w]: with [m_nextChunk = next], the bytes [w] encode [payload] and are followed by [rest];
    no line is [lim] bytes or longer.  A header may be anything [strtoull] takes, as one with a chunk extension. *)
Inductive wire (lim : Z) : Z -> list Z -> list Z -> list Z -> Prop :=
| wire_end rest : wire lim 0 [] rest rest
| wire_header line n payload rest w :
    LF ∉ line -> zlen line < lim -> header_value line = Some n -> 0 <= n < need_footer ->
    wire lim n payload rest w -> wire lim need_header payload rest (line ++ LF :: w)
| wire_footer line payload rest w :
    line = [] \/ line = [CR] -> zlen line < lim ->
    wire lim need_header payload rest w -> wire lim need_footer payload rest (line ++ LF :: w)
| wire_body n chunk payload rest w :
    0 < n < need_footer -> zlen chunk = n ->
    wire lim need_footer payload rest w -> wire lim n (chunk ++ payload) rest (chunk ++ w).

Definition enc_chunk (chunk : list Z) : list Z := to_hex (zlen chunk) ++ [CR; LF] ++ chunk ++ [CR; LF].
Definition enc (chunks : list (list Z)) : list Z := concat (enc_chunk <$> chunks) ++ [48; CR; LF].

Lemma chop_crlf line : chop (line ++ [CR; LF]) = line.
Proof.
  unfold chop. change [CR; LF] with ([CR] ++ [LF]). rewrite app_assoc. cbv zeta.
  assert (E : ztake (zlen ((line ++ [CR]) ++ [LF]) - 1) ((line ++ [CR]) ++ [LF]) = line ++ [CR]).
  { rewrite zlen_app. change (zlen [LF]) with 1. rewrite ztake_app_le, ztake_all by lia. done. }
  rewrite E, last_snoc. cbn. rewrite zlen_app. change (zlen [CR]) with 1. rewrite ztake_app_le, ztake_all by lia. done.
Qed.

Lemma c_str_hex l : Forall is_hex l -> c_str l = l.
Proof.
  induction 1 as [|c l Hc _ IH]; [done|]. cbn. unfold is_hex in Hc. rewrite (proj2 (Z.eqb_neq c 0)) by lia. by rewrite IH.
Qed.

Lemma header_value_hex n : 0 <= n < 2 ^ 64 -> header_value (to_hex n ++ [CR]) = Some n.
Proof.
  intros Hn. destruct (to_hex_ok n Hn) as (_ & _ & Hh & E). unfold header_value. rewrite <- app_assoc. cbn [app].
  rewrite chop_crlf, c_str_hex; auto.
Qed.

Lemma hex_no_lf l : Forall is_hex l -> LF ∉ l ++ [CR].
Proof.
  intros Hh Hin. apply elem_of_app in Hin as [Hin|Hin].
  - rewrite Forall_forall in Hh. specialize (Hh _ Hin). unfold is_hex, LF in Hh. lia.
  - apply list_elem_of_singleton in Hin. done.
Qed.

(** A list of chunks, none of them empty, written one after the other, is in the format. *)
Lemma enc_wire lim chunks rest :
  18 <= lim -> Forall (fun c => 0 < zlen c < 2 ^ 62) chunks ->
  wire lim need_header (concat chunks) rest (enc chunks ++ rest).
Proof.
  intros Hlim. induction 1 as [|c chunks Hc _ IH].
  - change (enc [] ++ rest) with ([48; CR] ++ LF :: rest). apply (wire_header lim [48; CR] 0); [|change (zlen [48; CR]) with 2; lia|reflexivity|unfold need_footer; lia|constructor].
    apply (hex_no_lf [48]). constructor; [unfold is_hex; lia|constructor].
  - destruct (to_hex_ok (zlen c)) as (Hne & Hl & Hh & _); [lia|].
    replace (enc (c :: chunks) ++ rest) with ((to_hex (zlen c) ++ [CR]) ++ LF :: c ++ [CR] ++ LF :: enc chunks ++ rest).
    2:{ unfold enc, enc_chunk. cbn [fmap list_fmap concat]. rewrite <- !app_assoc. done. }
    apply (wire_header lim _ (zlen c)).
    + by apply hex_no_lf.
    + rewrite zlen_app. change (zlen [CR]) with 1. lia.
    + apply header_value_hex. lia.
    + unfold need_footer. lia.
    + cbn [concat]. apply wire_body; [unfold need_footer; lia|done|]. apply wire_footer; auto. change (zlen [CR]) with 1. lia.
Qed.

(** ** Reading *)

Section Reading.
Context {P : Type} `{LineSource P}.

(** The stream holds [payload] still, and the parent [rest] after it. *)
Record chunked_ok (s : ChunkedStream P) (payload rest : list Z) : Prop := {
  co_parent : ls_ok (parent s);
  co_wire : wire (ls_limit (parent s)) (own s) payload rest (ls_src (parent s));
}.

Lemma read_line_ok (s : ChunkedStream P) line w :
  ls_ok (parent s) -> ls_src (parent s) = line ++ LF :: w -> LF ∉ line -> zlen line < ls_limit (parent s) ->
  exists p', read_line s = (Ok (chop (line ++ [LF])), set_parent p' s) /\ ls_ok p' /\
    ls_limit p' = ls_limit (parent s) /\ ls_src p' = w.
Proof.
  intros Hok Es Hline Hlim. destruct (ls_line (parent s) LF line w Hok Es Hline Hlim) as (p' & E & Hok' & Hl & Es').
  exists p'. split_and!; auto. unfold read_line. rewrite (bind_ok _ _ _ _ _ (on_parent_ok _ s _ _ E)).
  assert (zlen (line ++ [LF]) =? 0 = false) as ->; [|done].
  apply Z.eqb_neq. rewrite zlen_app. change (zlen [LF]) with 1. pose proof (zlen_nonneg line). lia.
Qed.

(** [read_footer]: the line end after a chunk is skipped. *)
Lemma read_footer_ok s payload rest :
  chunked_ok s payload rest -> own s = need_footer ->
  exists s', read_footer s = (Ok tt, s') /\ chunked_ok s' payload rest /\ own s' = need_header.
Proof.
  intros [Hok Hw] Eo. rewrite Eo in Hw. inversion Hw as [| |line ? ? w Hline Hlim Hw'|n]; subst; [|lia].
  destruct (read_line_ok s line w Hok) as (p' & E & Hok' & Hl & Es); auto.
  { destruct Hline as [-> | ->]; [apply not_elem_of_nil|]. intros Hin. by apply list_elem_of_singleton in Hin. }
  eexists. unfold read_footer. rewrite (bind_ok _ _ _ _ _ E).
  assert (chop (line ++ [LF]) = []) as -> by (destruct Hline as [-> | ->]; reflexivity). split; [reflexivity|].
  split; [|done]. split; cbn; [done|]. by rewrite Hl, Es.
Qed.

(** [read_header]: the size of the chunk is taken. *)
Lemma read_header_ok s payload rest :
  chunked_ok s payload rest -> own s = need_header ->
  exists s', read_header s = (Ok tt, s') /\ chunked_ok s' payload rest /\ 0 <= own s' < need_footer.
Proof.
  intros [Hok Hw] Eo. rewrite Eo in Hw. inversion Hw as [|line n ? ? w Hline Hlim Hv Hn Hw'| |n]; subst; [|unfold need_header, need_footer in *; lia].
  destruct (read_line_ok s line w Hok) as (p' & E & Hok' & Hl & Es); auto.
  eexists. unfold read_header. rewrite (bind_ok _ _ _ _ _ E). unfold header_value in Hv. rewrite Hv. split; [reflexivity|].
  split; [|done]. split; cbn; [done|]. by rewrite Hl, Es.
Qed.

Lemma maybe_footer s payload rest :
  chunked_ok s payload rest ->
  exists s', (if own s =? need_footer then read_footer else mret tt) s = (Ok tt, s') /\
    chunked_ok s' payload rest /\ own s' <> need_footer.
Proof.
  intros Hok. destruct (Z.eqb_spec (own s) need_footer) as [E|E].
  - destruct (read_footer_ok s payload rest Hok E) as (s' & E' & Hok' & Eo). exists s'. split_and!; auto. by rewrite Eo.
  - by exists s.
Qed.

Lemma maybe_header s payload rest :
  chunked_ok s payload rest -> own s <> need_footer ->
  exists s', (if own s =? need_header then read_header else mret tt) s = (Ok tt, s') /\
    chunked_ok s' payload rest /\ 0 <= own s' < need_footer.
Proof.
  intros Hok Hnf. destruct (Z.eqb_spec (own s) need_header) as [E|E].
  - destruct (read_header_ok s payload rest Hok E) as (s' & E' & Hok' & Eo). by exists s'.
  - exists s. split; [done|]. split; [done|]. destruct Hok as [_ Hw].
    inversion Hw; [unfold need_footer; lia|congruence|congruence|lia].
Qed.

(** The rest of a chunk after some of it was read. *)
Lemma wire_shorter lim n chunk bs payload rest w w' :
  0 < n < need_footer -> zlen chunk = n -> wire lim need_footer payload rest w ->
  chunk ++ w = bs ++ w' -> 0 < zlen bs <= n ->
  exists payload', chunk ++ payload = bs ++ payload' /\
    wire lim (if u64 (n - zlen bs) =? 0 then need_footer else u64 (n - zlen bs)) payload' rest w'.
Proof.
  intros Hn Hc Hw E Hl. assert (Eb : bs = ztake (zlen bs) chunk).
  { rewrite <- (ztake_all (zlen bs) bs) at 1 by lia. rewrite <- (ztake_app_le (zlen bs) bs w'), <- E, ztake_app_le by lia. done. }
  set (k := zlen bs) in *. rewrite u64_small by (unfold need_footer in Hn; lia).
  assert (Ew : w' = zdrop k chunk ++ w).
  { apply (app_inv_head bs). rewrite <- E, app_assoc. f_equal. rewrite Eb. by rewrite ztake_zdrop. }
  exists (zdrop k chunk ++ payload). split; [by rewrite app_assoc, Eb, ztake_zdrop|]. rewrite Ew.
  destruct (Z.eqb_spec (n - k) 0) as [E0|E0].
  - rewrite zdrop_all by lia. exact Hw.
  - apply wire_body; [lia|rewrite zlen_zdrop; lia|done].
Qed.

Lemma chunked_read_ok s payload rest len :
  chunked_ok s payload rest -> 0 < len < 2 ^ 62 ->
  exists bs s' payload', ChunkedStream_read len s = (Ok bs, s') /\ chunked_ok s' payload' rest /\
    payload = bs ++ payload' /\ zlen bs <= len /\
    (bs = [] -> payload = [] /\ ls_src (parent s') = rest).
Proof.
  intros Hok Hlen. unfold ChunkedStream_read. rewrite (bind_ok _ _ s (own s) s) by done.
  destruct (maybe_footer s payload rest Hok) as (s1 & E1 & Hok1 & Hnf). rewrite (bind_ok _ _ _ _ _ E1).
  rewrite (bind_ok _ _ s1 (own s1) s1) by done.
  destruct (maybe_header s1 payload rest Hok1 Hnf) as (s2 & E2 & Hok2 & Hn). rewrite (bind_ok _ _ _ _ _ E2).
  rewrite (bind_ok _ _ s2 (own s2) s2) by done. destruct Hok2 as [Hp Hw].
  destruct (Z.eqb_spec (own s2) 0) as [E0|E0].
  - exists [], s2, []. rewrite E0 in Hw. inversion Hw; subst; [|lia].
    split_and!; auto; [split; [done|rewrite E0; done]|change (zlen []) with 0; lia].
  - inversion Hw as [? Hq|line ? ? ? ? ? ? ? ? ? Hq|? ? ? ? ? ? ? Hq|n chunk payload1 ? w Hn' Hc Hw' Hq]; subst;
      [lia|unfold need_header, need_footer in *; lia|unfold need_footer in *; lia|]. 
    destruct (ls_read (parent s2) (Z.min len (own s2)) Hp ltac:(lia)) as (bs & p' & E & Hp' & Hl & Es & Hbs & He).
    rewrite (bind_ok _ _ _ _ _ (on_parent_ok _ s2 _ _ E)).
    assert (Hne : 0 < zlen bs).
    { destruct bs as [|b bs]; [|rewrite zlen_cons; pose proof (zlen_nonneg bs); lia].
      rewrite He in * by done. destruct chunk; [change (zlen []) with 0 in Hc; lia|done]. }
    destruct (wire_shorter (ls_limit (parent s2)) (own s2) chunk bs payload1 rest w (ls_src p') Hn' Hc Hw') as (payload' & Epay & Hw2); [congruence|lia|].
    eexists bs, _, payload'. split; [reflexivity|]. split; [|split_and!; [done|lia|]].
    + split; cbn; [done|]. by rewrite Hl.
    + intros ->. change (zlen []) with 0 in Hne. lia.
Qed.

(** Reading a body to its end gives the payload and leaves the parent just after it. *)
Lemma chunked_read_all_ok fuel s payload rest len :
  chunked_ok s payload rest -> 0 < len < 2 ^ 62 -> (length payload < fuel)%nat ->
  exists s', read_all fuel len s = (Ok payload, s') /\ ls_ok (parent s') /\ ls_src (parent s') = rest.
Proof.
  revert s payload. induction fuel as [|fuel IH]; intros s payload Hok Hlen Hf; [lia|].
  destruct (chunked_read_ok s payload rest len Hok Hlen) as (bs & s1 & payload' & E & Hok1 & -> & Hl & He). cbn [read_all].
  change (read len) with (ChunkedStream_read (P := P) len). rewrite (bind_ok _ _ _ _ _ E).
  destruct (Z.eqb_spec (zlen bs) 0) as [E0|E0].
  - apply zlen_zero_inv in E0 as ->. destruct (He eq_refl) as [-> Er]. exists s1. split_and!; auto. apply Hok1.
  - destruct (IH s1 payload' Hok1 Hlen) as (s2 & E2 & Hp & Er).
    { rewrite length_app in Hf. destruct bs; [done|]. cbn in Hf. lia. }
    exists s2. rewrite (bind_ok _ _ _ _ _ E2). split_and!; auto.
Qed.

End Reading.

(** ** Writing *)

(** What a client does to send chunks and end the body. *)
Fixpoint write_chunks {P} `{!Stream P} (chunks : list (list Z)) : op (ChunkedStream P) unit :=
  match chunks with
  | [] => close BOTH
  | c :: chunks' => write c ≫= fun _ => write_chunks chunks'
  end.

Section Writing.
Context {P : Type} `{WholeSink P}.

(** A parent that is owned must be indifferent to being closed. *)
Definition cwrite_ok (s : ChunkedStream P) : Prop :=
  ws_ok (parent s) /\ (ownsParent s = true -> forall p : P, ws_ok p -> close BOTH p = (Ok tt, p)).

Lemma parent_write_ok (s : ChunkedStream P) bs :
  cwrite_ok s -> zlen (ws (parent s)) + zlen bs < 2 ^ 62 ->
  exists s', on_parent (write bs) s = (Ok (zlen bs), s') /\ cwrite_ok s' /\ ws (parent s') = ws (parent s) ++ bs.
Proof.
  intros [Hok Ho] Hl. destruct (ws_write (parent s) bs Hok Hl) as (p' & E & Hok' & Ew).
  exists (set_parent p' s). rewrite (on_parent_ok _ s _ _ E). split_and!; auto. by split.
Qed.

Lemma chunked_write_ok (s : ChunkedStream P) c :
  cwrite_ok s -> 0 < zlen c -> zlen (ws (parent s)) + zlen (enc_chunk c) < 2 ^ 62 ->
  exists s', ChunkedStream_write c s = (Ok (zlen c), s') /\ cwrite_ok s' /\ ws (parent s') = ws (parent s) ++ enc_chunk c.
Proof.
  intros Hok Hc Hl. unfold enc_chunk in *. rewrite !zlen_app in Hl. change (zlen [CR; LF]) with 2 in Hl.
  unfold ChunkedStream_write. pose proof (zlen_nonneg (to_hex (zlen c))).
  destruct (parent_write_ok s (to_hex (zlen c) ++ [CR; LF]) Hok) as (s1 & E1 & Hok1 & Ew1); [rewrite zlen_app; change (zlen [CR; LF]) with 2; lia|].
  rewrite (bind_ok _ _ _ _ _ E1).
  destruct (parent_write_ok s1 c Hok1) as (s2 & E2 & Hok2 & Ew2); [rewrite Ew1, !zlen_app; change (zlen [CR; LF]) with 2; lia|].
  assert (E3 : write_copy (length c) c s1 = (Ok tt, s2)).
  { destruct (length c) as [|n] eqn:El; [unfold zlen in Hc; lia|]. cbn [write_copy].
    rewrite (proj2 (Z.eqb_neq (zlen c) 0)) by lia. rewrite (bind_ok _ _ _ _ _ E2).
    rewrite (bind_ok _ _ s2 [] s2); [by destruct n|]. unfold lift, buf_consume. rewrite (proj2 (Z.leb_le _ _)), zdrop_all by lia. done. }
  rewrite (bind_ok _ _ _ _ _ E3).
  destruct (parent_write_ok s2 [CR; LF] Hok2) as (s3 & E4 & Hok3 & Ew3); [rewrite Ew2, Ew1, !zlen_app; change (zlen [CR; LF]) with 2; lia|].
  rewrite (bind_ok _ _ _ _ _ E4). exists s3. split_and!; auto. rewrite Ew3, Ew2, Ew1, <- !app_assoc. done.
Qed.

Lemma write_chunks_ok chunks (s : ChunkedStream P) :
  cwrite_ok s -> Forall (fun c => 0 < zlen c) chunks -> zlen (ws (parent s)) + zlen (enc chunks) < 2 ^ 62 ->
  exists s', write_chunks chunks s = (Ok tt, s') /\ ws (parent s') = ws (parent s) ++ enc chunks.
Proof.
  revert s. induction chunks as [|c chunks IH]; intros s Hok Hc Hl.
  - cbn [write_chunks]. change (close BOTH) with (ChunkedStream_close (P := P) BOTH). unfold ChunkedStream_close.
    destruct (parent_write_ok s [48; CR; LF] Hok Hl) as (s1 & E1 & [Hok1 Ho1] & Ew1). exists s1. split; [|done].
    unfold method. destruct Hok as [Hp Ho]. unfold mbind at 1, op_bind at 1. rewrite (ws_supports _ Hp). cbn [andb closes_write BOTH].
    rewrite (bind_ok _ _ _ _ _ E1). unfold mret, op_ret, FilterStream_close. destruct (ownsParent s1) eqn:Eo; [| done].
    rewrite (on_parent_ok _ s1 _ _ (Ho1 eq_refl _ Hok1)). by destruct s1.
  - inversion Hc as [|? ? Hc0 Hc']; subst. cbn [write_chunks]. change (write c) with (ChunkedStream_write (P := P) c).
    replace (enc (c :: chunks)) with (enc_chunk c ++ enc chunks) in * by (unfold enc; cbn [fmap list_fmap concat]; by rewrite <- app_assoc).
    rewrite zlen_app in Hl. pose proof (zlen_nonneg (enc chunks)).
    destruct (chunked_write_ok s c Hok Hc0) as (s1 & E1 & Hok1 & Ew1); [lia|]. rewrite (bind_ok _ _ _ _ _ E1).
    destruct (IH s1 Hok1 Hc') as (s2 & E2 & Ew2); [rewrite Ew1, zlen_app; lia|]. exists s2. split; [done|].
    by rewrite Ew2, Ew1, <- app_assoc.
Qed.

End Writing.

#[global, refine] Instance MemoryStream_WholeSink : WholeSink MemoryStream := {
  ws_ok := fun s => ms_ok s /\ ms_offset s = zlen (ms_original s);
  ws := ms_original;
}.
Proof.
  - done.
  - intros s bs [Hok Ho] Hb. pose proof (zlen_nonneg bs). destruct (ms_write_ok s bs Hok) as (s' & E & Hok' & F); [lia|left; lia|].
    injection F as Fo Fp. rewrite pad_inside, ztake_all, zdrop_all, app_nil_r in Fo by lia.
    exists s'. split; [exact E|]. split; [|done]. split; [done|]. rewrite Fo, Fp, zlen_app. lia.
Defined.

(** ChunkedStream::read decodes the chunked transfer coding: read to its end, a body in the format gives the
    chunks' data and nothing else, however little each read of the parent returns and whatever extensions the
    headers carry, and leaves the parent at the first byte after the body. *)
Theorem chunked_decode {P} `{LineSource P} (s : ChunkedStream P) payload rest len :
  chunked_ok s payload rest -> 0 < len < 2 ^ 62 ->
  exists s', read_all (S (length payload)) len s = (Ok payload, s') /\ ls_src (parent s') = rest.
Proof.
  intros Hok Hlen. destruct (chunked_read_all_ok (S (length payload)) s payload rest len Hok Hlen) as (s' & E & _ & Er); [lia|].
  by exists s'.
Qed.

(** "2;x" CRLF "hi" CRLF "0" CRLF "!", buffered two bytes at a time. *)
Definition extended_wire : list Z := [50; 59; 120; 13; 10; 104; 105; 13; 10; 48; 13; 10; 33].
Definition chunked_in : ChunkedStream (BufferedStream MemoryStream) :=
  mkFilter (BufferedStream_new 10 (MemoryStream_of extended_wire) true) true need_header.

Lemma chunked_in_ok : chunked_ok chunked_in [104; 105] [33].
Proof.
  split; [split; [repeat split; done|cbn; lia|done]|]. change (ls_src (parent chunked_in)) with ([50; 59; 120; 13] ++ LF :: [104; 105] ++ [CR] ++ LF :: [48; 13] ++ LF :: [33]).
  apply (wire_header _ _ 2); [|reflexivity|reflexivity|unfold need_footer; lia|].
  { intros Hin. repeat (apply elem_of_cons in Hin as [Hin|Hin]; [done|]). by apply elem_of_nil in Hin. }
  apply (wire_body _ 2 [104; 105] []); [unfold need_footer; lia|reflexivity|]. apply wire_footer; [by right|reflexivity|].
  apply (wire_header _ _ 0); [|reflexivity|reflexivity|unfold need_footer; lia|constructor].
  intros Hin. repeat (apply elem_of_cons in Hin as [Hin|Hin]; [done|]). by apply elem_of_nil in Hin.
Defined.

Lemma chunked_decode_witness :
  exists s', read_all 3 1 chunked_in = (Ok [104; 105], s') /\ ls_src (parent s') = [33].
Proof. apply (chunked_decode chunked_in [104; 105] [33] 1 chunked_in_ok). lia. Defined.

(** C26 -- chunked round trip: chunks written to a stream that takes whole writes, then closed, are read back as the same
    data from any stream that holds what was written, with what follows them untouched. *)
Theorem chunked_roundtrip {W R} `{WholeSink W} `{LineSource R} chunks (w : ChunkedStream W) (r : ChunkedStream R) rest len :
  cwrite_ok w -> ws (parent w) = [] -> Forall (fun c => 0 < zlen c < 2 ^ 62) chunks -> zlen (enc chunks) < 2 ^ 62 ->
  ls_ok (parent r) -> 18 <= ls_limit (parent r) -> own r = need_header -> 0 < len < 2 ^ 62 ->
  exists w', write_chunks chunks w = (Ok tt, w') /\
    (ls_src (parent r) = ws (parent w') ++ rest ->
     exists r', read_all (S (length (concat chunks))) len r = (Ok (concat chunks), r') /\ ls_src (parent r') = rest).
Proof.
  intros Hw Hnil Hc Hl Hr Hlim Hown Hlen.
  destruct (write_chunks_ok chunks w Hw) as (w' & E & Ew).
  { eapply Forall_impl; [exact Hc|]. cbn. lia. }
  { rewrite Hnil. change (zlen []) with 0. lia. }
  exists w'. split; [done|]. rewrite Ew, Hnil. cbn [app]. intros Es.
  destruct (chunked_read_all_ok (S (length (concat chunks))) r (concat chunks) rest len) as (r' & Er & _ & Err); [|done|lia|by exists r'].
  split; [done|]. rewrite Hown, Es. by apply enc_wire.
Qed.

Definition chunked_out : ChunkedStream MemoryStream := mkFilter MemoryStream_new false need_header.
Definition chunked_back : ChunkedStream (BufferedStream MemoryStream) :=
  mkFilter (BufferedStream_new 10 (MemoryStream_of (enc [[104]; [105; 106]] ++ [33])) true) true need_header.

Lemma chunked_roundtrip_witness :
  exists w' r', write_chunks [[104]; [105; 106]] chunked_out = (Ok tt, w') /\
    read_all 4 2 chunked_back = (Ok [104; 105; 106], r') /\ ls_src (parent r') = [33].
Proof.
  destruct (chunked_roundtrip [[104]; [105; 106]] chunked_out chunked_back [33] 2) as (w' & E & R);
    [repeat split; done|done|repeat constructor; done|done|split; [repeat split; done|cbn; lia|done]|done|done|lia|].
  vm_compute in E. injection E as <-. destruct R as (r' & Er & Es); [reflexivity|]. eexists _, r'. split; [vm_compute; reflexivity|].
  split; [exact Er|exact Es].
Defined.

(** The end of the parent stream: between chunks it throws [UnexpectedEofException], but inside the data of a chunk a read
    returns nothing, as it does after the last chunk, so that a body cut short there looks complete. *)
Theorem chunked_eof {P} `{LineSource P} (s : ChunkedStream P) len :
  ls_ok (parent s) -> ls_src (parent s) = [] -> 0 < ls_limit (parent s) -> 0 <= own s < 2 ^ 64 -> 0 < len < 2 ^ 62 ->
  exists s', ChunkedStream_read len s =
      (if (own s =? need_header) || (own s =? need_footer) then throw unexpected_eof else Ok [], s') /\ own s' = own s.
Proof.
  intros Hok Es Hlim Ho Hlen. unfold ChunkedStream_read. rewrite (bind_ok _ _ s (own s) s) by done.
  destruct (ls_no_line (parent s) LF Hok) as (p1 & E1 & _); [rewrite Es; apply not_elem_of_nil|rewrite Es; exact Hlim|].
  assert (El : read_line s = (throw unexpected_eof, set_parent p1 s)).
  { unfold read_line. by rewrite (bind_err _ _ _ _ _ (on_parent_ok _ s _ _ E1)). }
  destruct (Z.eqb_spec (own s) need_footer) as [Ef|Ef].
  { exists (set_parent p1 s). rewrite orb_true_r. split; [|done]. apply bind_err. unfold read_footer. by apply bind_err. }
  rewrite (bind_ok _ _ s tt s), (bind_ok _ _ s (own s) s) by done. rewrite orb_false_r.
  destruct (Z.eqb_spec (own s) need_header) as [Eh|Eh].
  { exists (set_parent p1 s). split; [|done]. apply bind_err. unfold read_header. by apply bind_err. }
  rewrite (bind_ok _ _ s tt s), (bind_ok _ _ s (own s) s) by done.
  destruct (Z.eqb_spec (own s) 0) as [E0|E0]; [by exists s|].
  destruct (ls_read (parent s) (Z.min len (own s)) Hok ltac:(lia)) as (bs & p' & E & _ & _ & Eb & _).
  rewrite Es in Eb. symmetry in Eb. apply app_eq_nil in Eb as [-> _]. rewrite (bind_ok _ _ _ _ _ (on_parent_ok _ s _ _ E)).
  change (zlen []) with 0. rewrite Z.sub_0_r, u64_small by lia. rewrite (proj2 (Z.eqb_neq _ _) E0).
  eexists. split; [reflexivity|]. done.
Qed.

(** "5" CRLF "he": the body of a chunk of five bytes, cut after two. *)
Definition chunked_cut : ChunkedStream (BufferedStream MemoryStream) :=
  mkFilter (BufferedStream_new 10 (MemoryStream_of [53; 13; 10; 104; 101]) true) true need_header.

Lemma chunked_eof_witness :
  fst (read 2 chunked_cut) = Ok [104; 101] /\ exists s', ChunkedStream_read 2 (snd (read 2 chunked_cut)) = (Ok [], s') /\ own s' = 3.
Proof.
  split; [vm_compute; reflexivity|].
  destruct (chunked_eof (snd (read 2 chunked_cut)) 2) as (s' & E & Eo); [split; [repeat split|split|]; vm_compute; done|vm_compute; reflexivity|vm_compute; reflexivity|vm_compute; split; done|lia|].
  exists s'. split; [exact E|exact Eo].
Defined.
