(* ===== verification/Pipe.v ===== *)
(** [streams/pipe.cpp]: the two ends of a pipe.  Each method is a critical section under the mutex the ends share; the loops of [read], [write] and [flush] are
    one pass each, which returns or waits. *)

From stdpp Require Import functions numbers list_numbers list.
From S2P Require Import Prelude Stream StreamMemory FiberSync.

(** ** [PipeStream] *)

Record PipeStream := mkPipeStream {
  ps_readBuffer : list Z;
  ps_bufferSize : Z;
  ps_cancelledRead : bool;
  ps_cancelledWrite : bool;
  ps_closed : CloseType;
  ps_otherClosed : CloseType;
  ps_pendingWriterScheduler : option scheduler;
  ps_pendingReaderScheduler : option scheduler;
  ps_pendingWriter : option fiber;
  ps_pendingReader : option fiber;
  ps_remoteCloses : Z;     (* how often m_onRemoteClose was triggered *)
}.

Definition NONE : CloseType := mkCloseType false false.

(** The operator [|] of [CloseType]. *)
Definition join (a b : CloseType) : CloseType :=
  mkCloseType (closes_read a || closes_read b) (closes_write a || closes_write b).

Definition PipeStream_new (bufferSize : Z) : PipeStream :=
  mkPipeStream [] bufferSize false false NONE NONE None None None None 0.

(** [~0u] is a 32-bit constant. *)
Definition pipeStream (bufferSize : Z) : PipeStream * PipeStream :=
  let bufferSize := if bufferSize =? 2 ^ 32 - 1 then 65536 else bufferSize in
  (PipeStream_new bufferSize, PipeStream_new bufferSize).

(** Assignments to a member. *)
Definition with_readBuffer (b : list Z) (p : PipeStream) : PipeStream :=
  mkPipeStream b (ps_bufferSize p) (ps_cancelledRead p) (ps_cancelledWrite p) (ps_closed p) (ps_otherClosed p)
    (ps_pendingWriterScheduler p) (ps_pendingReaderScheduler p) (ps_pendingWriter p) (ps_pendingReader p) (ps_remoteCloses p).
Definition with_cancelledRead (p : PipeStream) : PipeStream :=
  mkPipeStream (ps_readBuffer p) (ps_bufferSize p) true (ps_cancelledWrite p) (ps_closed p) (ps_otherClosed p)
    (ps_pendingWriterScheduler p) (ps_pendingReaderScheduler p) (ps_pendingWriter p) (ps_pendingReader p) (ps_remoteCloses p).
Definition with_cancelledWrite (p : PipeStream) : PipeStream :=
  mkPipeStream (ps_readBuffer p) (ps_bufferSize p) (ps_cancelledRead p) true (ps_closed p) (ps_otherClosed p)
    (ps_pendingWriterScheduler p) (ps_pendingReaderScheduler p) (ps_pendingWriter p) (ps_pendingReader p) (ps_remoteCloses p).
Definition with_closed (c : CloseType) (p : PipeStream) : PipeStream :=
  mkPipeStream (ps_readBuffer p) (ps_bufferSize p) (ps_cancelledRead p) (ps_cancelledWrite p) c (ps_otherClosed p)
    (ps_pendingWriterScheduler p) (ps_pendingReaderScheduler p) (ps_pendingWriter p) (ps_pendingReader p) (ps_remoteCloses p).
Definition with_otherClosed (c : CloseType) (p : PipeStream) : PipeStream :=
  mkPipeStream (ps_readBuffer p) (ps_bufferSize p) (ps_cancelledRead p) (ps_cancelledWrite p) (ps_closed p) c
    (ps_pendingWriterScheduler p) (ps_pendingReaderScheduler p) (ps_pendingWriter p) (ps_pendingReader p) (ps_remoteCloses p).
Definition with_pendingReader (f : option fiber) (s : option scheduler) (p : PipeStream) : PipeStream :=
  mkPipeStream (ps_readBuffer p) (ps_bufferSize p) (ps_cancelledRead p) (ps_cancelledWrite p) (ps_closed p) (ps_otherClosed p)
    (ps_pendingWriterScheduler p) s (ps_pendingWriter p) f (ps_remoteCloses p).
Definition with_pendingWriter (f : option fiber) (s : option scheduler) (p : PipeStream) : PipeStream :=
  mkPipeStream (ps_readBuffer p) (ps_bufferSize p) (ps_cancelledRead p) (ps_cancelledWrite p) (ps_closed p) (ps_otherClosed p)
    s (ps_pendingReaderScheduler p) f (ps_pendingReader p) (ps_remoteCloses p).
Definition remote_close (p : PipeStream) : PipeStream :=
  mkPipeStream (ps_readBuffer p) (ps_bufferSize p) (ps_cancelledRead p) (ps_cancelledWrite p) (ps_closed p) (ps_otherClosed p)
    (ps_pendingWriterScheduler p) (ps_pendingReaderScheduler p) (ps_pendingWriter p) (ps_pendingReader p) (ps_remoteCloses p + 1).

(** [MORDOR_ASSERT(m_pendingReaderScheduler)], [schedule] and the two resets. *)
Definition schedule_reader (p : PipeStream) : result (PipeStream * list waiter) :=
  match ps_pendingReader p with
  | None => Ok (p, [])
  | Some f =>
      match ps_pendingReaderScheduler p with
      | None => Err Assertion
      | Some s => Ok (with_pendingReader None None p, [(s, f)])
      end
  end.

Definition schedule_writer (p : PipeStream) : result (PipeStream * list waiter) :=
  match ps_pendingWriter p with
  | None => Ok (p, [])
  | Some f =>
      match ps_pendingWriterScheduler p with
      | None => Err Assertion
      | Some s => Ok (with_pendingWriter None None p, [(s, f)])
      end
  end.

(** A method of one end, [self], reaches the other one through [m_otherStream.lock()]: [None] once that has been
    destroyed.  Every method below is one critical section under the shared mutex; it gives both ends and the
    fibers it scheduled. *)

Definition PipeStream_destroy (self : PipeStream) (other : option PipeStream)
    : result (option PipeStream * list waiter) :=
  other' ← match other with
    | None => Ok None
    | Some o =>
        assert: bool_decide (ps_pendingReader o = None) ;;
        assert: bool_decide (ps_pendingReaderScheduler o = None) ;;
        assert: bool_decide (ps_pendingWriter o = None) ;;
        assert: bool_decide (ps_pendingWriterScheduler o = None) ;;
        let was := ps_otherClosed o in
        let now := mkCloseType (zlen (ps_readBuffer self) =? 0) (closes_write was) in
        Ok (Some (remote_close (with_otherClosed now o)))
    end;
  '(self1, woken1) ← schedule_reader self;
  '(_, woken2) ← schedule_writer self1;
  Ok (other', woken1 ++ woken2).

Definition PipeStream_close (type : CloseType) (self : PipeStream) (other : option PipeStream)
    : result (PipeStream * option PipeStream * list waiter) :=
  let closeWriteFirstTime := negb (closes_write (ps_closed self)) && closes_write type in
  let self1 := with_closed (join (ps_closed self) type) self in
  let other1 := (fun o =>
    let o1 := with_otherClosed (ps_closed self1) o in
    if closeWriteFirstTime then remote_close o1 else o1) <$> other in
  '(self2, woken1) ← (if closes_write (ps_closed self1) then schedule_reader self1 else Ok (self1, []));
  '(self3, woken2) ← (if closes_read (ps_closed self2) then schedule_writer self2 else Ok (self2, []));
  Ok (self3, other1, woken1 ++ woken2).

(** What a pass of the loops of [read], [write] and [flush] comes to: a value, or [Scheduler::yieldTo()] and the next pass. *)
Inductive pass (A : Type) := Return (a : A) | Wait.
Arguments Return {A} a.
Arguments Wait {A}.

Definition PipeStream_read (c : caller) (len : Z) (self : PipeStream) (other : option PipeStream)
    : result (pass (list Z) * PipeStream * option PipeStream * list waiter) :=
  assert: negb (len =? 0) ;;
  if closes_read (ps_closed self) then throw broken_pipe
  else if bool_decide (other = None) && negb (closes_write (ps_otherClosed self)) then throw broken_pipe
  else
    let avail := zlen (ps_readBuffer self) in
    if 0 <? avail then
      let todo := Z.min len avail in
      rest ← buf_consume todo (ps_readBuffer self);
      '(self', woken) ← schedule_writer (with_readBuffer rest self);
      Ok (Return (ztake todo (ps_readBuffer self)), self', other, woken)
    else if closes_write (ps_otherClosed self) then Ok (Return [], self, other, [])
    else if ps_cancelledRead self then throw operation_aborted
    else
      match other with
      | None => Err Undefined
      | Some o =>
          assert: bool_decide (ps_pendingReader o = None) ;;
          assert: bool_decide (ps_pendingReaderScheduler o = None) ;;
          Ok (Wait, self, Some (with_pendingReader (Some (this_fiber c)) (this_scheduler c) o), [])
      end.

(** The handler of an exception out of [yieldTo]. *)
Definition read_aborted (c : caller) (other : option PipeStream) : result (option PipeStream) :=
  match other with
  | Some o =>
      if bool_decide (ps_pendingReader o = Some (this_fiber c)) then
        assert: bool_decide (ps_pendingReaderScheduler o = this_scheduler c) ;;
        Ok (Some (with_pendingReader None None o))
      else Ok other
  | None => Ok None
  end.

Definition PipeStream_cancelRead (self : PipeStream) (other : option PipeStream)
    : result (PipeStream * option PipeStream * list waiter) :=
  match other with
  | Some o => '(o', woken) ← schedule_reader o; Ok (with_cancelledRead self, Some o', woken)
  | None => Ok (with_cancelledRead self, None, [])
  end.

Definition PipeStream_write (c : caller) (bs : list Z) (self : PipeStream) (other : option PipeStream)
    : result (pass Z * PipeStream * option PipeStream * list waiter) :=
  assert: negb (zlen bs =? 0) ;;
  if closes_write (ps_closed self) then throw broken_pipe
  else
    match other with
    | None => throw broken_pipe
    | Some o =>
        if closes_read (ps_closed o) then throw broken_pipe
        else
          let available := zlen (ps_readBuffer o) in
          let todo := Z.min (u64 (ps_bufferSize self - available)) (zlen bs) in
          if negb (todo =? 0) then
            '(self', woken) ← schedule_reader self;
            Ok (Return todo, self', Some (with_readBuffer (ps_readBuffer o ++ ztake todo bs) o), woken)
          else if ps_cancelledWrite self then throw operation_aborted
          else
            assert: bool_decide (ps_pendingWriter o = None) ;;
            assert: bool_decide (ps_pendingWriterScheduler o = None) ;;
            Ok (Wait, self, Some (with_pendingWriter (Some (this_fiber c)) (this_scheduler c) o), [])
    end.

(** The handlers of [write] and [flush]. *)
Definition write_aborted (c : caller) (other : option PipeStream) : result (option PipeStream) :=
  match other with
  | Some o =>
      if bool_decide (ps_pendingWriter o = Some (this_fiber c)) then
        assert: bool_decide (ps_pendingWriterScheduler o = this_scheduler c) ;;
        Ok (Some (with_pendingWriter None None o))
      else Ok other
  | None => Ok None
  end.

Definition PipeStream_cancelWrite (self : PipeStream) (other : option PipeStream)
    : result (PipeStream * option PipeStream * list waiter) :=
  match other with
  | Some o => '(o', woken) ← schedule_writer o; Ok (with_cancelledWrite self, Some o', woken)
  | None => Ok (with_cancelledWrite self, None, [])
  end.

Definition PipeStream_flush (c : caller) (self : PipeStream) (other : option PipeStream)
    : result (pass unit * PipeStream * option PipeStream * list waiter) :=
  if ps_cancelledWrite self then throw operation_aborted
  else
    match other with
    | None => if closes_read (ps_otherClosed self) then Ok (Return tt, self, other, []) else throw broken_pipe
    | Some o =>
        if zlen (ps_readBuffer o) =? 0 then Ok (Return tt, self, other, [])
        else if closes_read (ps_closed o) then throw broken_pipe
        else
          assert: bool_decide (ps_pendingWriter o = None) ;;
          assert: bool_decide (ps_pendingWriterScheduler o = None) ;;
          Ok (Wait, self, Some (with_pendingWriter (Some (this_fiber c)) (this_scheduler c) o), [])
    end.
