(* ===== verification/PipeWorld.v ===== *)
(** Fibers that use the two ends of a pipe in any order: calls that wait, fibers that are scheduled, and the bytes put in and taken out so far. *)

From stdpp Require Import functions numbers list_numbers list.
From S2P Require Import Prelude Stream StreamMemory FiberSync Pipe.

(** ** The two ends and the fibers that use them *)

Inductive side := First | Second.

#[global] Instance side_eq_dec : EqDecision side.
Proof. solve_decision. Defined.

Definition opposite (A : side) : side := match A with First => Second | Second => First end.

Inductive call := Read (len : Z) | Write (bs : list Z) | Flush.

(** [write] and [flush] wait in the same place. *)
Definition reads (k : call) : bool := match k with Read _ => true | _ => false end.

Inductive reply := Bytes (bs : list Z) | Count (n : Z) | Flushed.

Definition map_pass {A B} (f : A -> B) (p : pass A) : pass B :=
  match p with Return a => Return (f a) | Wait => Wait end.

(** One pass of the loop of a method. *)
Definition run (w : waiter) (k : call) (self : PipeStream) (other : option PipeStream)
    : result (pass reply * PipeStream * option PipeStream * list waiter) :=
  let c := mkCaller (Some (fst w)) (snd w) in
  match k with
  | Read len => '(p, self', other', woken) ← PipeStream_read c len self other; Ok (map_pass Bytes p, self', other', woken)
  | Write bs => '(p, self', other', woken) ← PipeStream_write c bs self other; Ok (map_pass Count p, self', other', woken)
  | Flush => '(p, self', other', woken) ← PipeStream_flush c self other; Ok (map_pass (fun _ => Flushed) p, self', other', woken)
  end.

Definition aborted (w : waiter) (k : call) (other : option PipeStream) : result (option PipeStream) :=
  let c := mkCaller (Some (fst w)) (snd w) in
  if reads k then read_aborted c other else write_aborted c other.

(** The lengths the methods and their callers agree on. *)
Definition valid_call (k : call) : Prop :=
  match k with Read len => 0 < len < 2 ^ 64 | Write bs => 0 < zlen bs < 2 ^ 64 | Flush => True end.

(** A call that waits, or that was scheduled and has not run yet. *)
Record blocked := mkBlocked { bk_waiter : waiter; bk_side : side; bk_call : call }.

(** The ends that have not been destroyed, the calls under way, what the schedulers have to run, and the bytes that
    were put into the buffer of each end and taken from it so far. *)
Record world := mkWorld {
  w_ends : side -> option PipeStream;
  w_blocked : list blocked;
  w_ready : list waiter;
  w_put : side -> list Z;
  w_taken : side -> list Z;
}.

Definition world_new (bufferSize : Z) : world :=
  let '(first, second) := pipeStream bufferSize in
  mkWorld (fun A => Some (match A with First => first | Second => second end)) [] [] (fun _ => []) (fun _ => []).

Definition remove_waiter (f : fiber) (l : list waiter) : list waiter := filter (fun w => snd w <> f) l.
Definition remove_blocked (f : fiber) (l : list blocked) : list blocked := filter (fun b => snd (bk_waiter b) <> f) l.

(** The bytes a call has put into the other end's buffer. *)
Definition bytes_put (k : call) (r : reply) : list Z :=
  match k, r with Write bs, Count n => ztake n bs | _, _ => [] end.
Definition bytes_taken (r : reply) : list Z := match r with Bytes bs => bs | _ => [] end.

(** Both ends after a method of the end [A]. *)
Definition set_ends (A : side) (self other : option PipeStream) (ends : side -> option PipeStream) : side -> option PipeStream :=
  <[A := self]> (<[opposite A := other]> ends).

(** The rest of a pass: the caller waits, or returns with its result. *)
Definition finish (w : waiter) (A : side) (k : call) (p : pass reply) (self : PipeStream) (other : option PipeStream)
    (woken : list waiter) (W : world) : world :=
  let ends := set_ends A (Some self) other (w_ends W) in
  match p with
  | Wait => mkWorld ends (w_blocked W ++ [mkBlocked w A k]) (w_ready W ++ woken) (w_put W) (w_taken W)
  | Return r =>
      mkWorld ends (w_blocked W) (w_ready W ++ woken)
        (<[opposite A := w_put W (opposite A) ++ bytes_put k r]> (w_put W))
        (<[A := w_taken W A ++ bytes_taken r]> (w_taken W))
  end.

Definition withdraw (f : fiber) (W : world) : world :=
  mkWorld (w_ends W) (remove_blocked f (w_blocked W)) (remove_waiter f (w_ready W)) (w_put W) (w_taken W).

Definition with_ends (A : side) (self other : option PipeStream) (woken : list waiter) (W : world) : world :=
  mkWorld (set_ends A self other (w_ends W)) (w_blocked W) (w_ready W ++ woken) (w_put W) (w_taken W).

(** A fiber may call a method of an end unless it waits itself or another one is in such a call there: [read] and [write] are not re-entrant. *)
Definition may_call (f : fiber) (A : side) (k : call) (W : world) : Prop :=
  forall b, b ∈ w_blocked W -> snd (bk_waiter b) <> f /\ ~ (bk_side b = A /\ reads (bk_call b) = reads k).

(** What can happen next. *)
Inductive step (W : world) : world -> Prop :=
| step_call w A k self p self' other' woken :
    w_ends W A = Some self -> valid_call k -> may_call (snd w) A k W ->
    run w k self (w_ends W (opposite A)) = Ok (p, self', other', woken) ->
    step W (finish w A k p self' other' woken W)
| step_resume w A k self p self' other' woken :
    w_ends W A = Some self -> mkBlocked w A k ∈ w_blocked W -> w ∈ w_ready W ->
    run w k self (w_ends W (opposite A)) = Ok (p, self', other', woken) ->
    step W (finish w A k p self' other' woken (withdraw (snd w) W))
| step_resume_throws w A k self e :
    w_ends W A = Some self -> mkBlocked w A k ∈ w_blocked W -> w ∈ w_ready W ->
    run w k self (w_ends W (opposite A)) = throw e ->
    step W (withdraw (snd w) W)
| step_abort w A k self other' :
    w_ends W A = Some self -> mkBlocked w A k ∈ w_blocked W ->
    aborted w k (w_ends W (opposite A)) = Ok other' ->
    step W (with_ends A (Some self) other' [] (withdraw (snd w) W))
| step_close A type self self' other' woken :
    w_ends W A = Some self -> PipeStream_close type self (w_ends W (opposite A)) = Ok (self', other', woken) ->
    step W (with_ends A (Some self') other' woken W)
| step_cancelRead A self self' other' woken :
    w_ends W A = Some self -> PipeStream_cancelRead self (w_ends W (opposite A)) = Ok (self', other', woken) ->
    step W (with_ends A (Some self') other' woken W)
| step_cancelWrite A self self' other' woken :
    w_ends W A = Some self -> PipeStream_cancelWrite self (w_ends W (opposite A)) = Ok (self', other', woken) ->
    step W (with_ends A (Some self') other' woken W)
| step_destroy A self other' woken :
    w_ends W A = Some self -> (forall b, b ∈ w_blocked W -> bk_side b <> A) ->
    PipeStream_destroy self (w_ends W (opposite A)) = Ok (other', woken) ->
    step W (with_ends A None other' woken W).

(** A call that throws at once changes nothing and needs no rule. *)
Inductive reachable (bufferSize : Z) : world -> Prop :=
| reachable_new : reachable bufferSize (world_new bufferSize)
| reachable_step W W' : reachable bufferSize W -> step W W' -> reachable bufferSize W'.
