(* ===== verification/PipeInv.v ===== *)
(** The invariant of a pipe, and what each method does to its two ends. *)

From stdpp Require Import functions numbers list_numbers list.
From S2P Require Import Prelude Stream StreamMemory FiberSync Pipe PipeWorld.

(** ** Slots *)

(** Who is registered with an end: as reader ([r = true]) or as writer. *)
Definition slot (r : bool) (p : PipeStream) : option scheduler * option fiber :=
  if r then (ps_pendingReaderScheduler p, ps_pendingReader p) else (ps_pendingWriterScheduler p, ps_pendingWriter p).

Definition taken_by (w : waiter) : option scheduler * option fiber := (Some (fst w), Some (snd w)).
Definition free : option scheduler * option fiber := (None, None).

Definition register (r : bool) (w : waiter) (p : PipeStream) : PipeStream :=
  if r then with_pendingReader (Some (snd w)) (Some (fst w)) p else with_pendingWriter (Some (snd w)) (Some (fst w)) p.

(** Why a call on the end [a] waits, with [o] the other end. *)
Definition waits (k : call) (a o : PipeStream) : Prop :=
  match k with
  | Read _ => ps_readBuffer a = [] /\ closes_write (ps_otherClosed a) = false /\ ps_cancelledRead a = false
  | Write _ => zlen (ps_readBuffer o) = ps_bufferSize a /\ closes_read (ps_closed o) = false /\ ps_cancelledWrite a = false
  | Flush => ps_readBuffer o <> [] /\ closes_read (ps_closed o) = false /\ ps_cancelledWrite a = false
  end.

(** ** The invariant *)

Definition registered (ends : side -> option PipeStream) (b : blocked) : Prop :=
  exists o, ends (opposite (bk_side b)) = Some o /\ slot (reads (bk_call b)) o = taken_by (bk_waiter b).

(** Every call under way is scheduled, or registered with a reason to wait; a slot that is not free belongs to such a call. *)
Record waiting_inv (ends : side -> option PipeStream) (bl : list blocked) (ready : list waiter) : Prop := {
  wi_blocked : forall b, b ∈ bl -> valid_call (bk_call b) /\ exists a, ends (bk_side b) = Some a /\
    (bk_waiter b ∈ ready \/
     exists o, ends (opposite (bk_side b)) = Some o /\ slot (reads (bk_call b)) o = taken_by (bk_waiter b) /\
       waits (bk_call b) a o);
  wi_slot : forall A o r, ends (opposite A) = Some o ->
    slot r o = free \/
    exists b, b ∈ bl /\ bk_side b = A /\ reads (bk_call b) = r /\ slot r o = taken_by (bk_waiter b) /\ bk_waiter b ∉ ready;
  wi_ready : forall w, w ∈ ready -> exists b, b ∈ bl /\ bk_waiter b = w;
  wi_fiber : forall b b', b ∈ bl -> b' ∈ bl -> snd (bk_waiter b) = snd (bk_waiter b') -> b = b';
  wi_single : forall b b', b ∈ bl -> b' ∈ bl -> bk_side b = bk_side b' -> reads (bk_call b) = reads (bk_call b') -> b = b';
}.

(** What was put into a buffer is what was taken from it and what it holds, and it holds no more than the pipe allows. *)
Record data_inv (size : Z) (ends : side -> option PipeStream) (put taken : side -> list Z) : Prop := {
  di_end : forall A a, ends A = Some a ->
    ps_bufferSize a = size /\ zlen (ps_readBuffer a) <= size /\ put A = taken A ++ ps_readBuffer a;
  di_closed : forall A a o, ends A = Some a -> ends (opposite A) = Some o -> ps_otherClosed a = ps_closed o;
}.

(** ** What a method may do to the two ends *)

Record effect (a o a' o' : PipeStream) (woken : list waiter) : Prop := {
  ef_slot_self : forall r, slot r a' = slot r a \/ exists w, slot r a = taken_by w /\ slot r a' = free /\ w ∈ woken;
  ef_slot_other : forall r, slot r o' = slot r o \/ exists w, slot r o = taken_by w /\ slot r o' = free /\ w ∈ woken;
  ef_woken : forall w, w ∈ woken ->
    exists r, (slot r a = taken_by w /\ slot r a' = free) \/ (slot r o = taken_by w /\ slot r o' = free);
  ef_waits_self : forall k, valid_call k -> waits k a o -> waits k a' o' \/ slot (reads k) o' = free;
  ef_waits_other : forall k, valid_call k -> waits k o a -> waits k o' a' \/ slot (reads k) a' = free;
}.

Lemma taken_not_free w : taken_by w <> free.
Proof. done. Qed.

Lemma taken_by_inj w w' : taken_by w = taken_by w' -> w = w'.
Proof. destruct w, w'. unfold taken_by. cbn. congruence. Qed.

Lemma opposite_opposite A : opposite (opposite A) = A.
Proof. by destruct A. Qed.

Lemma opposite_ne A : opposite A <> A.
Proof. by destruct A. Qed.

Lemma side_cases A B : B = A \/ B = opposite A.
Proof. destruct A, B; auto. Qed.

Section SetEnds.
Context (A : side) (self other : option PipeStream) (ends : side -> option PipeStream).

Lemma set_ends_self : set_ends A self other ends A = self.
Proof. unfold set_ends. apply fn_lookup_insert. Qed.

Lemma set_ends_other : set_ends A self other ends (opposite A) = other.
Proof. unfold set_ends. rewrite fn_lookup_insert_ne by (by destruct A). apply fn_lookup_insert. Qed.

End SetEnds.

#[export] Hint Rewrite set_ends_self set_ends_other opposite_opposite : pipe.

(** ** Preservation by a method that does not wait *)

Section Effect.
Context (ends : side -> option PipeStream) (bl : list blocked) (ready : list waiter).
Context (A : side) (a o a' o' : PipeStream) (woken : list waiter).
Context (Ha : ends A = Some a) (Ho : ends (opposite A) = Some o) (He : effect a o a' o' woken).

Let ends' := set_ends A (Some a') (Some o') ends.

(** The end at [B], before and after. *)
Lemma effect_slot B p r : ends B = Some p ->
  exists p', ends' B = Some p' /\
    (slot r p' = slot r p \/ exists w, slot r p = taken_by w /\ slot r p' = free /\ w ∈ woken).
Proof.
  intros Hp. destruct (side_cases A B) as [-> | ->]; unfold ends'; autorewrite with pipe; eexists; (split; [done|]).
  - rewrite Ha in Hp. injection Hp as <-. apply He.
  - rewrite Ho in Hp. injection Hp as <-. apply He.
Qed.

Lemma effect_waits B p q k : ends B = Some p -> ends (opposite B) = Some q -> valid_call k -> waits k p q ->
  exists p' q', ends' B = Some p' /\ ends' (opposite B) = Some q' /\ (waits k p' q' \/ slot (reads k) q' = free).
Proof.
  intros Hp Hq Hv Hw. destruct (side_cases A B) as [-> | ->]; unfold ends'; autorewrite with pipe in *; eexists _, _;
    (split; [done|]); (split; [done|]).
  - rewrite Ha in Hp. rewrite Ho in Hq. injection Hp as <-. injection Hq as <-. by apply He.
  - rewrite Ho in Hp. rewrite Ha in Hq. injection Hp as <-. injection Hq as <-. by apply He.
Qed.

(** A fiber that was woken had been registered where now nobody is. *)
Lemma effect_woken w : w ∈ woken ->
  exists B p p' r, ends B = Some p /\ ends' B = Some p' /\ slot r p = taken_by w /\ slot r p' = free.
Proof.
  intros Hw. destruct (ef_woken _ _ _ _ _ He w Hw) as (r & [[E1 E2]|[E1 E2]]).
  - exists A, a, a', r. split_and!; auto. apply set_ends_self.
  - exists (opposite A), o, o', r. split_and!; auto. apply set_ends_other.
Qed.

Lemma effect_waiting : waiting_inv ends bl ready -> waiting_inv ends' bl (ready ++ woken).
Proof.
  intros [Hb Hs Hry Hf H1]. split; [| | |done|done].
  - intros b Hin. destruct (Hb b Hin) as (Hv & p & Hp & Hcase). split; [done|].
    destruct (effect_slot (bk_side b) p true Hp) as (p' & Hp' & _). exists p'. split; [done|].
    destruct Hcase as [Hr|(q & Hq & Hsl & Hw)]; [left; apply elem_of_app; by left|].
    destruct (effect_waits _ _ _ _ Hp Hq Hv Hw) as (p1 & q' & Hp1 & Hq' & Hcase). rewrite Hp' in Hp1. injection Hp1 as <-.
    destruct (effect_slot _ q (reads (bk_call b)) Hq) as (q1 & Hq1 & Hsl'). rewrite Hq' in Hq1. injection Hq1 as <-.
    destruct Hsl' as [Hsl'|(w & Hw1 & Hw2 & Hw3)].
    + right. exists q'. rewrite Hsl'. split_and!; auto. destruct Hcase as [?|E]; [done|]. rewrite Hsl', Hsl in E. by apply taken_not_free in E.
    + left. rewrite Hsl in Hw1. apply taken_by_inj in Hw1 as ->. apply elem_of_app. by right.
  - intros B q' r Hq'. assert (exists q, ends (opposite B) = Some q) as [q Hq].
    { destruct (side_cases A (opposite B)) as [-> | ->]; eauto. }
    destruct (effect_slot _ q r Hq) as (q1 & Hq1 & Hsl). rewrite Hq' in Hq1. injection Hq1 as <-.
    destruct Hsl as [Hsl|(w & _ & Hfree & _)]; [|by left].
    destruct (Hs B q r Hq) as [Hfree|(b & Hin & HB & Hr & Hslb & Hnr)]; [left; by rewrite Hsl|].
    right. exists b. rewrite Hsl. split_and!; auto. intros [Hin'|Hwk]%elem_of_app; [done|].
    destruct (effect_woken _ Hwk) as (C & p & p' & r' & HC & HC' & Ht & Hfr).
    destruct (Hs (opposite C) p r') as [E|(b' & Hin2 & HB2 & Hr2 & Hsl2 & _)]; [by rewrite opposite_opposite|rewrite Ht in E; by apply taken_not_free in E|].
    rewrite Ht in Hsl2. apply taken_by_inj in Hsl2. assert (b = b') as <- by (apply Hf; congruence).
    assert (opposite B = C) as <- by (rewrite <- HB, HB2; apply opposite_opposite).
    rewrite Hq' in HC'. injection HC' as <-. rewrite Hr in Hr2. subst r'. rewrite Hsl, Hslb in Hfr. by apply taken_not_free in Hfr.
  - intros w [Hw|Hw]%elem_of_app; [by apply Hry|]. destruct (effect_woken _ Hw) as (C & p & p' & r' & HC & _ & Ht & _).
    destruct (Hs (opposite C) p r') as [E|(b & Hin & _ & _ & Hsl & _)]; [by rewrite opposite_opposite|rewrite Ht in E; by apply taken_not_free in E|].
    rewrite Ht in Hsl. apply taken_by_inj in Hsl. eauto.
Qed.

End Effect.

(** ** What the methods do *)

Definition well_slotted (p : PipeStream) : Prop := forall r, slot r p = free \/ exists w, slot r p = taken_by w.

Lemma schedule_reader_ok p : well_slotted p ->
  exists woken, schedule_reader p = Ok (with_pendingReader None None p, woken) /\ forall w, w ∈ woken <-> slot true p = taken_by w.
Proof.
  intros Hs. unfold schedule_reader. destruct (Hs true) as [E|[w E]]; cbn in E; injection E as E1 E2; rewrite E2, ?E1.
  - exists []. split; [destruct p; cbn in *; by subst|]. intros w. cbn. rewrite E1, E2. split; [by intros ?%elem_of_nil|done].
  - exists [w]. split; [by destruct w|]. intros w'. cbn. rewrite E1, E2, list_elem_of_singleton. split; [by intros ->|].
    intros E. symmetry. by apply taken_by_inj.
Qed.

Lemma schedule_writer_ok p : well_slotted p ->
  exists woken, schedule_writer p = Ok (with_pendingWriter None None p, woken) /\ forall w, w ∈ woken <-> slot false p = taken_by w.
Proof.
  intros Hs. unfold schedule_writer. destruct (Hs false) as [E|[w E]]; cbn in E; injection E as E1 E2; rewrite E2, ?E1.
  - exists []. split; [destruct p; cbn in *; by subst|]. intros w. cbn. rewrite E1, E2. split; [by intros ?%elem_of_nil|done].
  - exists [w]. split; [by destruct w|]. intros w'. cbn. rewrite E1, E2, list_elem_of_singleton. split; [by intros ->|].
    intros E. symmetry. by apply taken_by_inj.
Qed.

(** A slot that is free after its fiber was woken. *)
Lemma slot_emptied r p q (woken : list waiter) : well_slotted p -> slot r q = free -> (forall w, slot r p = taken_by w -> w ∈ woken) ->
  slot r q = slot r p \/ exists w, slot r p = taken_by w /\ slot r q = free /\ w ∈ woken.
Proof. intros Hs Hq Hw. destruct (Hs r) as [E|[w E]]; [left; congruence|right; exists w; auto]. Qed.

(** The members that hold the data and the flags the two ends agree on. *)
Record same_data (a a' : PipeStream) : Prop := {
  sd_buffer : ps_readBuffer a' = ps_readBuffer a;
  sd_size : ps_bufferSize a' = ps_bufferSize a;
}.

(** A slot is freed when a condition holds. *)
Definition clear_reader (b : bool) (p : PipeStream) : PipeStream := if b then with_pendingReader None None p else p.
Definition clear_writer (b : bool) (p : PipeStream) : PipeStream := if b then with_pendingWriter None None p else p.

Lemma maybe_reader (b : bool) p : well_slotted p ->
  exists woken, (if b then schedule_reader p else Ok (p, [])) = Ok (clear_reader b p, woken) /\
    forall w, w ∈ woken <-> b = true /\ slot true p = taken_by w.
Proof.
  intros Hs. destruct b.
  - destruct (schedule_reader_ok p Hs) as (woken & E & Hw). exists woken. rewrite E. split; [done|]. naive_solver.
  - exists []. split; [done|]. intros w. split; [by intros ?%elem_of_nil|by intros []].
Qed.

Lemma maybe_writer (b : bool) p : well_slotted p ->
  exists woken, (if b then schedule_writer p else Ok (p, [])) = Ok (clear_writer b p, woken) /\
    forall w, w ∈ woken <-> b = true /\ slot false p = taken_by w.
Proof.
  intros Hs. destruct b.
  - destruct (schedule_writer_ok p Hs) as (woken & E & Hw). exists woken. rewrite E. split; [done|]. naive_solver.
  - exists []. split; [done|]. intros w. split; [by intros ?%elem_of_nil|by intros []].
Qed.

Lemma well_slotted_clear_reader b p : well_slotted p -> well_slotted (clear_reader b p).
Proof. intros Hs. destruct b; [|done]. intros []; [by left|apply (Hs false)]. Qed.

Lemma clear_closed x y p : ps_closed (clear_writer x (clear_reader y p)) = ps_closed p.
Proof. by destruct x, y. Qed.

Lemma close_ok type a o : well_slotted a -> well_slotted o ->
  exists a' o' woken, PipeStream_close type a (Some o) = Ok (a', Some o', woken) /\ effect a o a' o' woken /\
    same_data a a' /\ same_data o o' /\ ps_otherClosed a' = ps_otherClosed a /\ ps_closed o' = ps_closed o /\
    ps_otherClosed o' = ps_closed a'.
Proof.
  intros Ha Ho. unfold PipeStream_close. cbn [fmap option_fmap option_map]. set (a1 := with_closed _ a).
  set (o1 := if _ : bool then _ else _).
  assert (Ho1 : ps_readBuffer o1 = ps_readBuffer o /\ ps_bufferSize o1 = ps_bufferSize o /\ ps_closed o1 = ps_closed o /\
    ps_otherClosed o1 = ps_closed a1 /\ (forall r, slot r o1 = slot r o) /\
    ps_cancelledWrite o1 = ps_cancelledWrite o /\ ps_cancelledRead o1 = ps_cancelledRead o).
  { unfold o1. destruct (_ && _); split_and!; try done; by intros []. }
  clearbody o1. destruct Ho1 as (Ho1 & Ho2 & Ho3 & Ho4 & Ho5 & Ho6 & Ho7). assert (Ha1 : well_slotted a1) by exact Ha.
  destruct (maybe_reader (closes_write (ps_closed a1)) a1 Ha1) as (wk1 & E1 & W1). rewrite E1. cbn [mbind result_bind].
  destruct (maybe_writer (closes_read (ps_closed a1)) (clear_reader (closes_write (ps_closed a1)) a1)) as (wk2 & E2 & W2);
    [by apply well_slotted_clear_reader|].
  assert (Ec : ps_closed (clear_reader (closes_write (ps_closed a1)) a1) = ps_closed a1) by (by destruct (closes_write _)).
  rewrite Ec, E2. cbn [mbind result_bind]. eexists _, o1, (wk1 ++ wk2). split; [done|].
  set (cw := closes_write (ps_closed a1)) in *. set (cr := closes_read (ps_closed a1)) in *.
  assert (W2' : forall w, w ∈ wk2 <-> cr = true /\ slot false a = taken_by w) by (intros w; rewrite W2; by destruct cw).
  split; [|unfold clear_writer, clear_reader; split_and!; auto; [split|split|..]; destruct cw, cr; auto].
  split.
  - intros []; [destruct cw eqn:Ew|destruct cr eqn:Er].
    + apply slot_emptied; [done|by destruct cr|]. intros w Hw. apply elem_of_app. left. by apply W1.
    + left. by destruct cr.
    + apply slot_emptied; [done|by destruct cw|]. intros w Hw. apply elem_of_app. right. by apply W2'.
    + left. by destruct cw.
  - intros r. left. apply Ho5.
  - intros w [Hw|Hw]%elem_of_app; [apply W1 in Hw as [-> Hw]; exists true|apply W2' in Hw as [-> Hw]; exists false]; left; (split; [exact Hw|]); [by destruct cr|by destruct cw].
  - intros k Hv Hw. left. unfold waits in *. rewrite Ho1, Ho3. clearbody cw cr. destruct cw, cr, k; exact Hw.
  - intros k Hv Hw. unfold waits in *. rewrite Ho1, Ho2, Ho4, Ho6, Ho7. change (closes_write (ps_closed a1)) with cw.
    rewrite clear_closed. change (closes_read (ps_closed a1)) with cr. clearbody cw cr. destruct k; destruct Hw as (? & ? & ?); destruct cw, cr; auto.
Qed.

Lemma cancelRead_ok a o : well_slotted o ->
  exists a' o' woken, PipeStream_cancelRead a (Some o) = Ok (a', Some o', woken) /\ effect a o a' o' woken /\
    same_data a a' /\ same_data o o' /\ ps_otherClosed a' = ps_otherClosed a /\ ps_closed a' = ps_closed a /\
    ps_otherClosed o' = ps_otherClosed o /\ ps_closed o' = ps_closed o.
Proof.
  intros Ho. unfold PipeStream_cancelRead. destruct (schedule_reader_ok o Ho) as (woken & E & W). rewrite E. cbn [mbind result_bind].
  eexists _, _, woken. split; [done|]. split; [|split_and!; auto; split; done]. split.
  - intros []; by left.
  - intros []; [|by left]. apply slot_emptied; [done|done|]. intros w. apply W.
  - intros w Hw. exists true. right. apply W in Hw. done.
  - intros [] Hv Hw; [by right|by left..].
  - intros [] Hv Hw; by left.
Qed.

Lemma cancelWrite_ok a o : well_slotted o ->
  exists a' o' woken, PipeStream_cancelWrite a (Some o) = Ok (a', Some o', woken) /\ effect a o a' o' woken /\
    same_data a a' /\ same_data o o' /\ ps_otherClosed a' = ps_otherClosed a /\ ps_closed a' = ps_closed a /\
    ps_otherClosed o' = ps_otherClosed o /\ ps_closed o' = ps_closed o.
Proof.
  intros Ho. unfold PipeStream_cancelWrite. destruct (schedule_writer_ok o Ho) as (woken & E & W). rewrite E. cbn [mbind result_bind].
  eexists _, _, woken. split; [done|]. split; [|split_and!; auto; split; done]. split.
  - intros []; by left.
  - intros []; [by left|]. apply slot_emptied; [done|done|]. intros w. apply W.
  - intros w Hw. exists false. right. apply W in Hw. done.
  - intros [] Hv Hw; [by left|by right..].
  - intros [] Hv Hw; by left.
Qed.

(** What a call that returns did to the data. *)
Record returned (k : call) (r : reply) (a o a' o' : PipeStream) : Prop := {
  re_taken : ps_readBuffer a = bytes_taken r ++ ps_readBuffer a';
  re_put : ps_readBuffer o' = ps_readBuffer o ++ bytes_put k r;
  re_bound : zlen (ps_readBuffer o') <= ps_bufferSize a;
  re_sizes : ps_bufferSize a' = ps_bufferSize a /\ ps_bufferSize o' = ps_bufferSize o;
  re_flags : ps_closed a' = ps_closed a /\ ps_closed o' = ps_closed o /\
    ps_otherClosed a' = ps_otherClosed a /\ ps_otherClosed o' = ps_otherClosed o;
}.

(** A pass of a method when both ends are there. *)
Inductive run_spec (w : waiter) (k : call) (a o : PipeStream)
    : result (pass reply * PipeStream * option PipeStream * list waiter) -> Prop :=
| run_throws e : run_spec w k a o (throw e)
| run_returns r a' o' woken :
    effect a o a' o' woken -> returned k r a o a' o' -> run_spec w k a o (Ok (Return r, a', Some o', woken))
| run_waits :
    waits k a o -> run_spec w k a o (Ok (Wait, a, Some (register (reads k) w o), [])).

Lemma effect_none a o : effect a o a o [].
Proof.
  split; try by left. by intros w ?%elem_of_nil.
Qed.

Lemma free_slot r p : slot r p = free ->
  (if r then ps_pendingReader p else ps_pendingWriter p) = None /\
  (if r then ps_pendingReaderScheduler p else ps_pendingWriterScheduler p) = None.
Proof. intros E. destruct r; cbn in E; by injection E. Qed.

Section Run.
Context (w : waiter) (a o : PipeStream).
Context (Ha : well_slotted a) (Ho : well_slotted o).
Context (Hsize : 0 <= ps_bufferSize a < 2 ^ 64) (Hbound : zlen (ps_readBuffer o) <= ps_bufferSize a).

Lemma run_read_ok len : 0 < len < 2 ^ 64 -> slot true o = free -> run_spec w (Read len) a o (run w (Read len) a (Some o)).
Proof.
  intros Hlen Hfree. unfold run, PipeStream_read. rewrite (proj2 (Z.eqb_neq len 0)) by lia. cbn [negb].
  rewrite ASSERT_true by done. destruct (closes_read (ps_closed a)); [constructor|]. rewrite bool_decide_false by done. cbn [andb].
  destruct (Z.ltb_spec 0 (zlen (ps_readBuffer a))) as [Hav|Hav].
  - set (todo := Z.min len (zlen (ps_readBuffer a))). unfold buf_consume. rewrite (ASSERT_true (todo <=? _)) by (apply Z.leb_le; lia). cbn [mbind result_bind].
    set (rest := zdrop todo (ps_readBuffer a)).
    destruct (schedule_writer_ok (with_readBuffer rest a)) as (woken & E & W); [exact Ha|]. rewrite E. cbn [mbind result_bind map_pass].
    constructor; [split|split]; auto.
    + intros []; [by left|]. apply slot_emptied; [done|done|]. intros w'. apply W.
    + intros w' Hw'. exists false. left. apply W in Hw'. done.
    + intros [] Hv Hw; [|by left..]. destruct Hw as [Hw _]. rewrite Hw in Hav. change (zlen []) with 0 in Hav. lia.
    + intros [] Hv Hw; [by left|by right..].
    + cbn. unfold rest. by rewrite ztake_zdrop.
    + cbn. by rewrite app_nil_r.
  - destruct (closes_write (ps_otherClosed a)) eqn:Ecw.
    { cbn. constructor; [apply effect_none|]. split; auto. cbn. by rewrite app_nil_r. }
    destruct (ps_cancelledRead a) eqn:Ecr; [constructor|].
    apply free_slot in Hfree as [F1 F2]. rewrite !ASSERT_true by (by apply bool_decide_true). cbn [mbind result_bind map_pass].
    apply (run_waits w (Read len)). split_and!; auto. apply zlen_zero_inv. pose proof (zlen_nonneg (ps_readBuffer a)). lia.
Qed.

Lemma run_write_ok bs : 0 < zlen bs < 2 ^ 64 -> slot false o = free -> run_spec w (Write bs) a o (run w (Write bs) a (Some o)).
Proof.
  intros Hlen Hfree. unfold run, PipeStream_write. rewrite (proj2 (Z.eqb_neq (zlen bs) 0)) by lia. cbn [negb].
  rewrite ASSERT_true by done. destruct (closes_write (ps_closed a)); [constructor|]. destruct (closes_read (ps_closed o)) eqn:Ecr; [constructor|].
  pose proof (zlen_nonneg (ps_readBuffer o)). rewrite u64_small by lia.
  set (todo := Z.min (ps_bufferSize a - zlen (ps_readBuffer o)) (zlen bs)). destruct (Z.eqb_spec todo 0) as [E0|E0]; cbn [negb].
  - destruct (ps_cancelledWrite a) eqn:Ecw; [constructor|].
    apply free_slot in Hfree as [F1 F2]. rewrite !ASSERT_true by (by apply bool_decide_true). cbn [mbind result_bind map_pass].
    apply (run_waits w (Write bs)). split_and!; auto. lia.
  - destruct (schedule_reader_ok a Ha) as (woken & E & W). rewrite E. cbn [mbind result_bind map_pass].
    assert (Hl : zlen (ztake todo bs) = todo) by (rewrite zlen_ztake; lia).
    constructor; [split|split]; auto.
    + intros []; [|by left]. apply slot_emptied; [done|done|]. intros w'. apply W.
    + intros w' Hw'. exists true. left. apply W in Hw'. done.
    + intros [] Hv Hw; left; cbn in *; [done| |].
      * destruct Hw as [Hw _]. lia.
      * destruct Hw as (Hw & ? & ?). split_and!; auto. intros [? ?]%app_eq_nil. done.
    + intros [] Hv Hw; [by right|by left..].
    + cbn. rewrite zlen_app, Hl. lia.
Qed.

Lemma run_flush_ok : slot false o = free -> run_spec w Flush a o (run w Flush a (Some o)).
Proof.
  intros Hfree. unfold run, PipeStream_flush. destruct (ps_cancelledWrite a) eqn:Ecw; [constructor|].
  destruct (Z.eqb_spec (zlen (ps_readBuffer o)) 0) as [E0|E0].
  { cbn. constructor; [apply effect_none|]. split; auto. cbn. by rewrite app_nil_r. }
  destruct (closes_read (ps_closed o)) eqn:Ecr; [constructor|].
  apply free_slot in Hfree as [F1 F2]. rewrite !ASSERT_true by (by apply bool_decide_true). cbn [mbind result_bind map_pass].
  apply (run_waits w Flush). split_and!; auto. intros E. rewrite E in E0. done.
Qed.

Lemma run_ok k : valid_call k -> slot (reads k) o = free -> run_spec w k a o (run w k a (Some o)).
Proof. destruct k; cbn; [apply run_read_ok|apply run_write_ok|intros _; apply run_flush_ok]. Qed.

End Run.
