(* ===== verification/PipeProps.v ===== *)
(** The invariant is kept by every step, and the theorems about pipes. *)

From stdpp Require Import functions numbers list_numbers list.
From S2P Require Import Prelude Stream StreamMemory FiberSync Pipe PipeWorld PipeInv.

Section Waiting.
Context (ends : side -> option PipeStream) (bl : list blocked) (ready : list waiter).
Context (Hinv : waiting_inv ends bl ready).

Lemma end_well_slotted A p : ends A = Some p -> well_slotted p.
Proof.
  intros Hp r. destruct (wi_slot _ _ _ Hinv (opposite A) p r) as [E|(b & _ & _ & _ & E & _)]; [by rewrite opposite_opposite|by left|right; eauto].
Qed.

(** Nobody is registered with an end whose other end has been destroyed. *)
Lemma alone_free A a r : ends A = Some a -> ends (opposite A) = None -> slot r a = free.
Proof.
  intros Ha Ho. destruct (wi_slot _ _ _ Hinv (opposite A) a r) as [E|(b & Hin & HB & _)]; [by rewrite opposite_opposite|done|].
  destruct (wi_blocked _ _ _ Hinv b Hin) as (_ & p & Hp & _). rewrite HB, Ho in Hp. done.
Qed.

Lemma alone_waiting A a a' : ends A = Some a -> ends (opposite A) = None -> (forall r, slot r a' = free) ->
  waiting_inv (set_ends A (Some a') None ends) bl ready.
Proof.
  intros Ha Ho Hfree. destruct Hinv as [Hb Hs Hry Hf H1]. split; [| |done|done|done].
  - intros b Hin. destruct (Hb b Hin) as (Hv & p & Hp & Hcase). split; [done|].
    destruct (side_cases A (bk_side b)) as [E|E]; rewrite E in *; [|congruence]. exists a'. autorewrite with pipe. split; [done|].
    destruct Hcase as [?|(o & Hq & _)]; [by left|congruence].
  - intros B o r. destruct (side_cases A (opposite B)) as [-> | ->]; autorewrite with pipe; [|done]. intros [= <-]. by left.
Qed.

(** A call that can be made finds its slot free. *)
Lemma may_call_free f A k o W :
  w_blocked W = bl -> may_call f A k W -> ends (opposite A) = Some o -> slot (reads k) o = free.
Proof.
  intros Hbl Hmay Ho. destruct (wi_slot _ _ _ Hinv A o (reads k) Ho) as [E|(b & Hin & HB & Hr & _)]; [done|].
  rewrite <- Hbl in Hin. destruct (Hmay b Hin) as [_ Hno]. destruct Hno. done.
Qed.

(** A caller that waits. *)
Lemma wait_waiting w A k a o :
  ends A = Some a -> ends (opposite A) = Some o -> valid_call k -> slot (reads k) o = free -> waits k a o ->
  (forall b, b ∈ bl -> snd (bk_waiter b) <> snd w /\ ~ (bk_side b = A /\ reads (bk_call b) = reads k)) ->
  waiting_inv (set_ends A (Some a) (Some (register (reads k) w o)) ends) (bl ++ [mkBlocked w A k]) ready.
Proof.
  intros Ha Ho Hv Hfree Hw Hnew. destruct Hinv as [Hb Hs Hry Hf H1]. set (o' := register (reads k) w o).
  assert (Hslot : slot (reads k) o' = taken_by w) by (unfold o', register; by destruct (reads k)).
  assert (Hsame : slot (negb (reads k)) o' = slot (negb (reads k)) o) by (unfold o', register; by destruct (reads k)).
  assert (Hwaits : forall j, (waits j a o -> waits j a o') /\ (waits j o a -> waits j o' a)).
  { intros j. unfold o', register. by destruct (reads k), j. }
  assert (Hnr : w ∉ ready).
  { intros Hr. destruct (Hry w Hr) as (b & Hin & Eb). destruct (Hnew b Hin) as [Hne _]. by rewrite Eb in Hne. }
  assert (Hmid : forall b, b ∈ bl ++ [mkBlocked w A k] -> b ∈ bl \/ b = mkBlocked w A k).
  { intros b [?|?%list_elem_of_singleton]%elem_of_app; auto. }
  assert (Hkeep : forall q r, slot r o = taken_by q -> slot r o' = taken_by q).
  { intros q r Hq. destruct (decide (r = reads k)) as [-> |Hr]; [by rewrite Hfree in Hq|].
    replace r with (negb (reads k)) in * by (by destruct r, (reads k)). by rewrite Hsame. }
  split.
  - intros b [Hin| ->]%Hmid; cbn [bk_side bk_call bk_waiter].
    + destruct (Hb b Hin) as (Hvb & p & Hp & Hcase). split; [done|].
      destruct (side_cases A (bk_side b)) as [E|E]; rewrite E in *; autorewrite with pipe in *.
      * eexists. split; [done|]. destruct Hcase as [?|(q & Hq & Hsl & Hwb)]; [by left|]. rewrite Ha in Hp. rewrite Ho in Hq.
        injection Hp as <-. injection Hq as <-. right. eexists. split; [done|]. split; [by apply Hkeep|by apply Hwaits].
      * eexists. split; [done|]. destruct Hcase as [?|(q & Hq & Hsl & Hwb)]; [by left|]. rewrite Ho in Hp. rewrite Ha in Hq.
        injection Hp as <-. injection Hq as <-. right. eexists. split; [done|]. split; [done|by apply Hwaits].
    + split; [done|]. exists a. autorewrite with pipe. split; [done|]. right. exists o'. split_and!; auto. by apply Hwaits.
  - intros B q r. destruct (side_cases A (opposite B)) as [E|E]; rewrite E; autorewrite with pipe; intros [= <-].
    + destruct (Hs B a r) as [?|(b & Hin & Hrest)]; [by rewrite E|by left|]. right. exists b. split; [apply elem_of_app; by left|done].
    + assert (B = A) as -> by (rewrite <- (opposite_opposite B), E; apply opposite_opposite).
      destruct (decide (r = reads k)) as [-> |Hr].
      * right. exists (mkBlocked w A k). split_and!; auto. apply elem_of_app. right. by left.
      * replace r with (negb (reads k)) in * by (by destruct r, (reads k)). rewrite Hsame.
        destruct (Hs A o (negb (reads k)) Ho) as [?|(b & Hin & Hrest)]; [by left|]. right. exists b. split; [apply elem_of_app; by left|done].
  - intros w' Hw'. destruct (Hry w' Hw') as (b & Hin & Eb). exists b. split; [apply elem_of_app; by left|done].
  - intros b b' [Hin| ->]%Hmid [Hin'| ->]%Hmid E; auto.
    + by destruct (Hnew b Hin).
    + by destruct (Hnew b' Hin').
  - intros b b' [Hin| ->]%Hmid [Hin'| ->]%Hmid E1 E2; auto.
    + destruct (Hnew b Hin) as [_ Hno]. by destruct Hno.
    + destruct (Hnew b' Hin') as [_ Hno]. by destruct Hno.
Qed.

End Waiting.

(** ** Leaving *)

Lemma elem_of_remove_blocked b f l : b ∈ remove_blocked f l <-> b ∈ l /\ snd (bk_waiter b) <> f.
Proof. unfold remove_blocked. rewrite list_elem_of_filter. naive_solver. Qed.

Lemma elem_of_remove_waiter w f l : w ∈ remove_waiter f l <-> w ∈ l /\ snd w <> f.
Proof. unfold remove_waiter. rewrite list_elem_of_filter. naive_solver. Qed.

(** A fiber that runs again, or that an exception reaches, is taken off both lists. *)
Lemma withdraw_waiting ends bl ready w A k :
  waiting_inv ends bl ready -> mkBlocked w A k ∈ bl -> w ∈ ready ->
  waiting_inv ends (remove_blocked (snd w) bl) (remove_waiter (snd w) ready).
Proof.
  intros [Hb Hs Hry Hf H1] Hin Hr. split.
  - intros b [Hin' Hne]%elem_of_remove_blocked. destruct (Hb b Hin') as (Hv & a & Ha & Hcase). split; [done|]. exists a. split; [done|].
    destruct Hcase as [?|?]; [left; by apply elem_of_remove_waiter|by right].
  - intros B o r Ho. destruct (Hs B o r Ho) as [?|(b & Hin' & HB & Hr' & Hsl & Hnr)]; [by left|]. right. exists b. split_and!; auto.
    + apply elem_of_remove_blocked. split; [done|]. intros E. assert (b = mkBlocked w A k) as -> by (by apply Hf). done.
    + intros [? _]%elem_of_remove_waiter. done.
  - intros w' [Hw Hne]%elem_of_remove_waiter. destruct (Hry w' Hw) as (b & Hin' & <-). exists b. split; [|done].
    by apply elem_of_remove_blocked.
  - intros b b' [? _]%elem_of_remove_blocked [? _]%elem_of_remove_blocked. by apply Hf.
  - intros b b' [? _]%elem_of_remove_blocked [? _]%elem_of_remove_blocked. by apply H1.
Qed.

(** Once it is off the lists, its call may be made again. *)
Lemma withdrawn_may_call ends bl ready w A k b :
  waiting_inv ends bl ready -> mkBlocked w A k ∈ bl -> b ∈ remove_blocked (snd w) bl ->
  snd (bk_waiter b) <> snd w /\ ~ (bk_side b = A /\ reads (bk_call b) = reads k).
Proof.
  intros Hinv Hin [Hin' Hne]%elem_of_remove_blocked. split; [done|]. intros [E1 E2].
  assert (b = mkBlocked w A k) as -> by (eapply wi_single; eauto). done.
Qed.

Lemma remove_waiter_last f w l : snd w = f -> remove_waiter f (l ++ [w]) = remove_waiter f l.
Proof.
  intros E. unfold remove_waiter. rewrite filter_app. rewrite (filter_cons_False _ w []) by naive_solver. cbn. apply app_nil_r.
Qed.

Definition vacate (r : bool) (o : PipeStream) : PipeStream :=
  if r then with_pendingReader None None o else with_pendingWriter None None o.

Lemma vacate_effect r w a o : slot r o = taken_by w -> effect a o a (vacate r o) [w].
Proof.
  intros Hs. split.
  - intros r'. by left.
  - intros r'. destruct (decide (r' = r)) as [-> |Hr]; [right; exists w; split_and!; auto; [by destruct r|by left]|].
    left. by destruct r, r'.
  - intros w' ->%list_elem_of_singleton. exists r. right. split; [done|by destruct r].
  - intros k _ Hw. left. by destruct r, k.
  - intros k _ Hw. left. by destruct r, k.
Qed.

(** The handlers do nothing for a fiber that was scheduled, and take one that waits off its slot. *)
Lemma aborted_ok ends bl ready w A k o :
  waiting_inv ends bl ready -> mkBlocked w A k ∈ bl -> ends (opposite A) = Some o ->
  (w ∈ ready /\ aborted w k (Some o) = Ok (Some o)) \/
  (slot (reads k) o = taken_by w /\ aborted w k (Some o) = Ok (Some (vacate (reads k) o))).
Proof.
  intros Hinv Hin Ho. destruct (wi_blocked _ _ _ Hinv _ Hin) as (_ & a & _ & Hcase). cbn [bk_waiter bk_call bk_side] in Hcase.
  destruct (wi_slot _ _ _ Hinv A o (reads k) Ho) as [Hfree|(b & Hin' & HB & Hr & Hsl & Hnr)].
  - left. destruct Hcase as [Hrd|(q & Hq & Hsl & _)]; [|rewrite Ho in Hq; injection Hq as <-; by rewrite Hfree in Hsl]. split; [done|].
    unfold aborted, read_aborted, write_aborted. cbn [this_fiber this_scheduler]. apply free_slot in Hfree as [E _].
    destruct (reads k); rewrite bool_decide_false by congruence; done.
  - assert (b = mkBlocked w A k) as -> by (eapply wi_single; eauto). right. split; [done|].
    unfold aborted, read_aborted, write_aborted. cbn [this_fiber this_scheduler]. destruct (reads k); cbn in Hsl; injection Hsl as E1 E2;
      rewrite !bool_decide_true by done; done.
Qed.

Lemma abort_waiting ends bl ready w A k a o other' :
  waiting_inv ends bl ready -> mkBlocked w A k ∈ bl -> ends A = Some a -> ends (opposite A) = Some o ->
  aborted w k (Some o) = Ok other' ->
  exists o', other' = Some o' /\ (o' = o \/ o' = vacate (reads k) o) /\
    waiting_inv (set_ends A (Some a) other' ends) (remove_blocked (snd w) bl) (remove_waiter (snd w) ready).
Proof.
  intros Hinv Hin Ha Ho E. destruct (aborted_ok _ _ _ _ _ _ _ Hinv Hin Ho) as [[Hr E']|[Hsl E']]; rewrite E in E'; injection E' as ->;
    eexists; (split; [done|]); (split; [auto|]).
  - pose proof (effect_waiting ends bl ready A a o a o [] Ha Ho (effect_none a o) Hinv) as Hinv'. rewrite app_nil_r in Hinv'.
    by eapply withdraw_waiting.
  - pose proof (effect_waiting ends bl ready A a o _ _ [w] Ha Ho (vacate_effect _ w a o Hsl) Hinv) as Hinv'.
    rewrite <- (remove_waiter_last (snd w) w ready) by done. eapply withdraw_waiting; [done|done|]. apply elem_of_app. right. by left.
Qed.

(** ** Destroying an end *)

Lemma destroy_waiting ends bl ready A a :
  waiting_inv ends bl ready -> ends A = Some a -> (forall b, b ∈ bl -> bk_side b <> A) ->
  exists other' woken, PipeStream_destroy a (ends (opposite A)) = Ok (other', woken) /\
    waiting_inv (set_ends A None other' ends) bl (ready ++ woken) /\
    match ends (opposite A), other' with
    | Some o, Some o' => same_data o o'
    | None, None => True
    | _, _ => False
    end.
Proof.
  intros Hinv Ha Hno. pose proof (end_well_slotted _ _ _ Hinv A a Ha) as Hwa. pose proof Hinv as [Hb Hs Hry Hf H1].
  assert (Hfree : forall o r, ends (opposite A) = Some o -> slot r o = free).
  { intros o r Ho. destruct (Hs A o r Ho) as [?|(b & Hin & HB & _)]; [done|]. by destruct (Hno b Hin). }
  destruct (schedule_reader_ok a Hwa) as (wk1 & E1 & W1).
  destruct (schedule_writer_ok (with_pendingReader None None a)) as (wk2 & E2 & W2); [intros []; [by left|apply (Hwa false)]|].
  unfold PipeStream_destroy. set (oo' := match ends (opposite A) with Some o =>
    Some (remote_close (with_otherClosed (mkCloseType (zlen (ps_readBuffer a) =? 0) (closes_write (ps_otherClosed o))) o)) | None => None end).
  exists oo', (wk1 ++ wk2). split.
  { destruct (ends (opposite A)) as [o|] eqn:Ho; [|cbn [mbind result_bind]; rewrite E1; cbn [mbind result_bind]; by rewrite E2].
    destruct (free_slot true o (Hfree o true eq_refl)) as [F1 F2]. destruct (free_slot false o (Hfree o false eq_refl)) as [F3 F4].
    rewrite !ASSERT_true by (by apply bool_decide_true). cbn [mbind result_bind]. rewrite E1. cbn [mbind result_bind]. by rewrite E2. }
  split; [|unfold oo'; destruct (ends (opposite A)); [split; done|done]]. split; [| | |done|done].
  - intros b Hin. destruct (Hb b Hin) as (Hv & p & Hp & Hcase). split; [done|].
    destruct (side_cases A (bk_side b)) as [E|E]; [by destruct (Hno b Hin)|]. rewrite E in *. autorewrite with pipe in *. unfold oo'. rewrite Hp.
    eexists. split; [done|]. left. apply elem_of_app. destruct Hcase as [?|(q & Hq & Hsl & _)]; [by left|right].
    rewrite Ha in Hq. injection Hq as <-. apply elem_of_app. destruct (reads (bk_call b)); [left; by apply W1|right; by apply W2].
  - intros B q r. destruct (side_cases A (opposite B)) as [E|E]; rewrite E; autorewrite with pipe; [done|]. unfold oo'.
    destruct (ends (opposite A)) as [o|] eqn:Ho; [|done]. intros [= <-]. left. pose proof (Hfree o r eq_refl) as F. by destruct r.
  - intros w [Hw|Hw]%elem_of_app; [by apply Hry|]. assert (exists r, slot r a = taken_by w) as [r Hsl].
    { apply elem_of_app in Hw as [Hw|Hw]; [exists true; by apply W1|exists false; by apply W2 in Hw]. }
    destruct (Hs (opposite A) a r) as [E|(b & Hin & _ & _ & Hsl' & _)]; [by rewrite opposite_opposite|by rewrite E in Hsl|].
    exists b. split; [done|]. apply taken_by_inj. congruence.
Qed.

(** ** The data *)

Definition end_data (size : Z) (put taken : list Z) (a : PipeStream) : Prop :=
  ps_bufferSize a = size /\ zlen (ps_readBuffer a) <= size /\ put = taken ++ ps_readBuffer a.

Lemma data_set size ends put taken A self other :
  (forall a, self = Some a -> end_data size (put A) (taken A) a) ->
  (forall o, other = Some o -> end_data size (put (opposite A)) (taken (opposite A)) o) ->
  (forall a o, self = Some a -> other = Some o -> ps_otherClosed a = ps_closed o /\ ps_otherClosed o = ps_closed a) ->
  data_inv size (set_ends A self other ends) put taken.
Proof.
  intros Hs Ho Hc. split.
  - intros B p. destruct (side_cases A B) as [-> | ->]; autorewrite with pipe; [apply Hs|apply Ho].
  - intros B p q. destruct (side_cases A B) as [-> | ->]; autorewrite with pipe; intros E1 E2; [apply (Hc _ _ E1 E2)|apply (Hc _ _ E2 E1)].
Qed.

Lemma same_end_data size put taken a a' : same_data a a' -> end_data size put taken a -> end_data size put taken a'.
Proof. intros [E1 E2] (H1 & H2 & H3). unfold end_data. by rewrite E1, E2. Qed.

Record inv (size : Z) (W : world) : Prop := {
  inv_size : 0 <= size < 2 ^ 64;
  inv_waiting : waiting_inv (w_ends W) (w_blocked W) (w_ready W);
  inv_data : data_inv size (w_ends W) (w_put W) (w_taken W);
}.

(** A pass of a method when the other end has been destroyed. *)
Inductive run_alone (k : call) (a : PipeStream) : result (pass reply * PipeStream * option PipeStream * list waiter) -> Prop :=
| alone_throws e : run_alone k a (throw e)
| alone_returns r rest :
    ps_readBuffer a = bytes_taken r ++ rest -> bytes_put k r = [] ->
    run_alone k a (Ok (Return r, with_readBuffer rest a, None, [])).

Lemma with_same_buffer a : with_readBuffer (ps_readBuffer a) a = a.
Proof. by destruct a. Qed.

Lemma alone_unchanged k a r : bytes_taken r = [] -> bytes_put k r = [] -> run_alone k a (Ok (Return r, a, None, [])).
Proof.
  intros E1 E2. pose proof (alone_returns k a r (ps_readBuffer a)) as R. rewrite with_same_buffer, E1 in R. by apply R.
Qed.

Lemma run_alone_ok w k a : valid_call k -> (forall r, slot r a = free) -> run_alone k a (run w k a None).
Proof.
  intros Hv Hfree. destruct k as [len|bs|]; cbn in Hv; unfold run.
  - unfold PipeStream_read. rewrite (proj2 (Z.eqb_neq len 0)) by lia. cbn [negb]. rewrite ASSERT_true by done.
    destruct (closes_read (ps_closed a)); [constructor|]. rewrite bool_decide_true by done. cbn [andb].
    destruct (closes_write (ps_otherClosed a)) eqn:Ecw; cbn [negb]; [|constructor].
    destruct (Z.ltb_spec 0 (zlen (ps_readBuffer a))) as [Hav|Hav].
    + unfold buf_consume. rewrite (ASSERT_true (_ <=? _)) by (apply Z.leb_le; lia). cbn [mbind result_bind].
      unfold schedule_writer. destruct (free_slot false a (Hfree false)) as [F _]. cbn in F |- *. rewrite F.
      cbn [mbind result_bind map_pass]. constructor; [|done]. cbn. by rewrite ztake_zdrop.
    + by apply alone_unchanged.
  - unfold PipeStream_write. rewrite (proj2 (Z.eqb_neq (zlen bs) 0)) by lia. cbn [negb]. rewrite ASSERT_true by done.
    destruct (closes_write (ps_closed a)); constructor.
  - unfold PipeStream_flush. destruct (ps_cancelledWrite a); [constructor|]. destruct (closes_read (ps_otherClosed a)); [|constructor].
    by apply alone_unchanged.
Qed.

Section Preserve.
Context (size : Z) (W : world) (HW : inv size W).

Let Hwait := inv_waiting _ _ HW.
Let Hdata := inv_data _ _ HW.

Lemma put_unchanged (A : side) (f : side -> list Z) B : <[A := f A ++ []]> f B = f B.
Proof. destruct (decide (A = B)) as [<-|Hne]; [by rewrite fn_lookup_insert, app_nil_r|by apply fn_lookup_insert_ne]. Qed.

(** A pass keeps the invariant. *)
Lemma finish_inv w A k a p a' oo' woken :
  w_ends W A = Some a -> valid_call k -> may_call (snd w) A k W ->
  run w k a (w_ends W (opposite A)) = Ok (p, a', oo', woken) -> inv size (finish w A k p a' oo' woken W).
Proof.
  intros Ha Hv Hmay E. destruct (di_end _ _ _ _ Hdata A a Ha) as (Hsz & Hb & Hput). pose proof (inv_size _ _ HW) as Hs.
  destruct (w_ends W (opposite A)) as [o|] eqn:Ho.
  - destruct (di_end _ _ _ _ Hdata (opposite A) o Ho) as (Hsz' & Hb' & Hput').
    pose proof (di_closed _ _ _ _ Hdata A a o Ha Ho) as Hc1.
    pose proof (di_closed _ _ _ _ Hdata (opposite A) o a Ho ltac:(by rewrite opposite_opposite)) as Hc2.
    pose proof (may_call_free _ _ _ Hwait _ A k o W eq_refl Hmay Ho) as Hfree.
    pose proof (run_ok w a o (end_well_slotted _ _ _ Hwait A a Ha) ltac:(lia) ltac:(lia) k Hv Hfree) as R.
    rewrite E in R. inversion R as [|r ? o' ? Heff Hret|Hwt]; subst.
    + split; [done|by apply effect_waiting with (a := a) (o := o)|]. destruct Hret as [R1 R2 R3 [R4 R5] (R6 & R7 & R8 & R9)].
      apply data_set.
      * intros ? [= <-]. unfold end_data. cbn [finish w_put w_taken]. rewrite fn_lookup_insert, fn_lookup_insert_ne by apply opposite_ne.
        rewrite Hput, R1, <- app_assoc in *. rewrite zlen_app in Hb. pose proof (zlen_nonneg (bytes_taken r)). split_and!; [congruence|lia|done].
      * intros ? [= <-]. unfold end_data. cbn [finish w_put w_taken]. rewrite fn_lookup_insert, fn_lookup_insert_ne by (intros Eo; by apply (opposite_ne A)).
        rewrite Hput', R2, <- app_assoc. split_and!; [congruence|rewrite <- R2; lia|done].
      * intros ? ? [= <-] [= <-]. split; congruence.
    + split; [done|cbn; rewrite app_nil_r; by apply wait_waiting|]. apply data_set.
      * by intros ? [= <-].
      * intros ? [= <-]. unfold end_data, register. by destruct (reads k).
      * intros ? ? [= <-] [= <-]. unfold register. by destruct (reads k).
  - pose proof (run_alone_ok w k a Hv (fun r => alone_free _ _ _ Hwait A a r Ha Ho)) as R. rewrite E in R.
    inversion R as [|r rest Er Ep]; subst.
    assert (Hfree : forall r', slot r' (with_readBuffer rest a) = free) by (intros r'; apply (alone_free _ _ _ Hwait A a r' Ha Ho)).
    split; [done|cbn; rewrite app_nil_r; by apply alone_waiting with (a := a)|]. cbn. rewrite Ep. apply data_set; [|done|done].
    intros ? [= <-]. unfold end_data. rewrite fn_lookup_insert, put_unchanged. cbn. rewrite Hput, Er, <- app_assoc in *.
    rewrite zlen_app in Hb. pose proof (zlen_nonneg (bytes_taken r)). split_and!; [congruence|lia|done].
Qed.

(** So does a method that only touches flags, when both ends are there. *)
Lemma flags_inv A a o a' o' woken :
  w_ends W A = Some a -> w_ends W (opposite A) = Some o -> effect a o a' o' woken -> same_data a a' -> same_data o o' ->
  ps_otherClosed a' = ps_closed o' -> ps_otherClosed o' = ps_closed a' ->
  inv size (with_ends A (Some a') (Some o') woken W).
Proof.
  intros Ha Ho He Sa So C1 C2. split; [apply (inv_size _ _ HW)|by apply effect_waiting with (a := a) (o := o)|].
  apply data_set.
  - intros ? [= <-]. by eapply same_end_data, di_end.
  - intros ? [= <-]. by eapply same_end_data, di_end.
  - intros ? ? [= <-] [= <-]. done.
Qed.

(** And when it is alone. *)
Lemma flags_alone_inv A a a' :
  w_ends W A = Some a -> w_ends W (opposite A) = None -> (forall r, slot r a' = slot r a) -> same_data a a' ->
  inv size (with_ends A (Some a') None [] W).
Proof.
  intros Ha Ho Hsl Sa. split; [apply (inv_size _ _ HW)| |].
  - cbn. rewrite app_nil_r. apply alone_waiting with (a := a); auto. intros r. rewrite Hsl. by apply (alone_free _ _ _ Hwait A).
  - apply data_set; [|done|done]. intros ? [= <-]. by eapply same_end_data, di_end.
Qed.

Lemma withdraw_inv w A k : mkBlocked w A k ∈ w_blocked W -> w ∈ w_ready W -> inv size (withdraw (snd w) W).
Proof. intros Hin Hr. split; [apply (inv_size _ _ HW)|by eapply withdraw_waiting|done]. Qed.

Lemma both_closed A a o : w_ends W A = Some a -> w_ends W (opposite A) = Some o ->
  ps_otherClosed a = ps_closed o /\ ps_otherClosed o = ps_closed a.
Proof.
  intros Ha Ho. split; [by apply (di_closed _ _ _ _ Hdata A)|]. apply (di_closed _ _ _ _ Hdata (opposite A)); [done|by rewrite opposite_opposite].
Qed.

(** Nobody waits at an end whose other end is gone. *)
Lemma alone_ready w A k : mkBlocked w A k ∈ w_blocked W -> w_ends W (opposite A) = None -> w ∈ w_ready W.
Proof.
  intros Hin Ho. destruct (wi_blocked _ _ _ Hwait _ Hin) as (_ & a & _ & [?|(o & Ho' & _)]); [done|]. cbn in Ho'. congruence.
Qed.

Lemma abort_inv w A k a other' :
  w_ends W A = Some a -> mkBlocked w A k ∈ w_blocked W -> aborted w k (w_ends W (opposite A)) = Ok other' ->
  inv size (with_ends A (Some a) other' [] (withdraw (snd w) W)).
Proof.
  intros Ha Hin E. destruct (w_ends W (opposite A)) as [o|] eqn:Ho.
  - destruct (abort_waiting _ _ _ w A k a o other' Hwait Hin Ha Ho E) as (o' & -> & Hcase & Hinv').
    split; [apply (inv_size _ _ HW)|cbn; by rewrite app_nil_r|]. destruct (both_closed A a o Ha Ho) as [C1 C2].
    assert (So : same_data o o' /\ ps_closed o' = ps_closed o /\ ps_otherClosed o' = ps_otherClosed o).
    { destruct Hcase as [-> | ->]; [done|]. by destruct (reads k). }
    destruct So as (So & C3 & C4). apply data_set.
    + intros ? [= <-]. by apply (di_end _ _ _ _ Hdata).
    + intros ? [= <-]. by eapply same_end_data, di_end.
    + intros ? ? [= <-] [= <-]. by rewrite C3, C4.
  - assert (other' = None) as -> by (unfold aborted in E; destruct (reads k); by injection E).
    pose proof (alone_ready w A k Hin Ho) as Hr. pose proof (withdraw_waiting _ _ _ w A k Hwait Hin Hr) as Hinv'.
    split; [apply (inv_size _ _ HW)| |].
    + cbn. rewrite app_nil_r. apply alone_waiting with (a := a); auto. intros r. by apply (alone_free _ _ _ Hwait A).
    + apply data_set; [|done|done]. intros ? [= <-]. by apply (di_end _ _ _ _ Hdata).
Qed.

End Preserve.

Lemma close_alone type a : (forall r, slot r a = free) ->
  PipeStream_close type a None = Ok (with_closed (join (ps_closed a) type) a, None, []).
Proof.
  intros Hf. destruct (free_slot true a (Hf true)) as [F1 _]. destruct (free_slot false a (Hf false)) as [F2 _].
  destruct a as [? ? ? ? cl ? ? ? ? ? ?]. cbn in F1, F2. subst. unfold PipeStream_close. cbn.
  destruct (closes_write cl || closes_write type); cbn; by destruct (closes_read cl || closes_read type).
Qed.

Lemma close_inv size W A type a a' oo' woken :
  inv size W -> w_ends W A = Some a -> PipeStream_close type a (w_ends W (opposite A)) = Ok (a', oo', woken) ->
  inv size (with_ends A (Some a') oo' woken W).
Proof.
  intros HW Ha E. pose proof (inv_waiting _ _ HW) as Hwait. destruct (w_ends W (opposite A)) as [o|] eqn:Ho.
  - destruct (close_ok type a o) as (a1 & o1 & wk & E1 & He & Sa & So & C1 & C2 & C3); [by eapply end_well_slotted..|].
    rewrite E in E1. injection E1 as -> -> ->. destruct (both_closed size W HW A a o Ha Ho) as [D1 D2].
    eapply flags_inv; eauto. congruence.
  - rewrite close_alone in E by (intros r; by apply (alone_free _ _ _ Hwait A)). injection E as <- <- <-.
    by eapply flags_alone_inv.
Qed.

Lemma cancel_inv size W A a a' oo' woken :
  inv size W -> w_ends W A = Some a ->
  PipeStream_cancelRead a (w_ends W (opposite A)) = Ok (a', oo', woken) \/
  PipeStream_cancelWrite a (w_ends W (opposite A)) = Ok (a', oo', woken) ->
  inv size (with_ends A (Some a') oo' woken W).
Proof.
  intros HW Ha E. pose proof (inv_waiting _ _ HW) as Hwait. destruct (w_ends W (opposite A)) as [o|] eqn:Ho.
  - destruct (both_closed size W HW A a o Ha Ho) as [D1 D2]. pose proof (end_well_slotted _ _ _ Hwait _ o Ho) as Hwo.
    destruct E as [E|E]; [destruct (cancelRead_ok a o Hwo) as (a1 & o1 & wk & E1 & He & Sa & So & C1 & C2 & C3 & C4)
      |destruct (cancelWrite_ok a o Hwo) as (a1 & o1 & wk & E1 & He & Sa & So & C1 & C2 & C3 & C4)];
      rewrite E in E1; injection E1 as -> -> ->; eapply flags_inv; eauto; congruence.
  - destruct E as [E|E]; injection E as <- <- <-; by eapply flags_alone_inv.
Qed.

Lemma destroy_inv size W A a other' woken :
  inv size W -> w_ends W A = Some a -> (forall b, b ∈ w_blocked W -> bk_side b <> A) ->
  PipeStream_destroy a (w_ends W (opposite A)) = Ok (other', woken) -> inv size (with_ends A None other' woken W).
Proof.
  intros HW Ha Hno E. destruct (destroy_waiting _ _ _ A a (inv_waiting _ _ HW) Ha Hno) as (oo & wk & E1 & Hinv' & Hsd).
  rewrite E in E1. injection E1 as -> ->. split; [apply (inv_size _ _ HW)|exact Hinv'|]. apply data_set; [done| |done].
  intros o' ->. destruct (w_ends W (opposite A)) as [o|] eqn:Ho; [|done]. eapply same_end_data; [exact Hsd|].
  by apply (di_end _ _ _ _ (inv_data _ _ HW)).
Qed.

Lemma step_inv size W W' : inv size W -> step W W' -> inv size W'.
Proof.
  intros HW Hst. pose proof (inv_waiting _ _ HW) as Hwait.
  destruct Hst as [w A k a p a' oo' woken Ha Hv Hmay E|w A k a p a' oo' woken Ha Hin Hr E|w A k a e Ha Hin Hr E
    |w A k a other' Ha Hin E|A type a a' oo' woken Ha E|A a a' oo' woken Ha E|A a a' oo' woken Ha E|A a other' woken Ha Hno E].
  - by eapply finish_inv.
  - destruct (wi_blocked _ _ _ Hwait _ Hin) as [Hv _]. eapply finish_inv; [by eapply withdraw_inv|exact Ha|exact Hv| |exact E].
    intros b Hb. by eapply withdrawn_may_call.
  - by eapply withdraw_inv.
  - by eapply abort_inv.
  - by eapply close_inv.
  - eapply cancel_inv; eauto.
  - eapply cancel_inv; eauto.
  - by eapply destroy_inv.
Qed.

(** The size the pipe really gets. *)
Definition pipe_size (bufferSize : Z) : Z := if bufferSize =? 2 ^ 32 - 1 then 65536 else bufferSize.

Lemma new_inv bufferSize : 0 <= bufferSize < 2 ^ 64 -> inv (pipe_size bufferSize) (world_new bufferSize).
Proof.
  intros Hs. unfold pipe_size. split.
  - destruct (_ =? _); lia.
  - split; cbn; try (intros; by exfalso; eapply not_elem_of_nil). intros A o r. destruct A; intros [= <-]; left; by destruct r.
  - split; cbn.
    + intros A a. destruct A; intros [= <-]; cbn; unfold zlen; cbn; split_and!; auto; destruct (_ =? _); lia.
    + intros A a o. destruct A; by intros [= <-] [= <-].
Qed.

Lemma reachable_inv bufferSize W : 0 <= bufferSize < 2 ^ 64 -> reachable bufferSize W -> inv (pipe_size bufferSize) W.
Proof. intros Hs. induction 1; [by apply new_inv|by eapply step_inv]. Qed.

(** ** The theorems *)

(** A call that ends in a value, an exception or a wait: no assertion fails and nothing undefined is done. *)
Definition no_fault {A} (r : result A) : Prop := match r with Ok _ | Err (Thrown _) => True | Err _ => False end.

Lemma run_no_fault size W w A k a :
  inv size W -> w_ends W A = Some a -> valid_call k -> may_call (snd w) A k W -> no_fault (run w k a (w_ends W (opposite A))).
Proof.
  intros HW Ha Hv Hmay. pose proof (inv_waiting _ _ HW) as Hwait. pose proof (inv_size _ _ HW) as Hs.
  destruct (di_end _ _ _ _ (inv_data _ _ HW) A a Ha) as (Hsz & _).
  destruct (w_ends W (opposite A)) as [o|] eqn:Ho.
  - destruct (di_end _ _ _ _ (inv_data _ _ HW) _ o Ho) as (_ & Hb & _).
    pose proof (may_call_free _ _ _ Hwait _ A k o W eq_refl Hmay Ho) as Hfree.
    destruct (run_ok w a o (end_well_slotted _ _ _ Hwait A a Ha) ltac:(lia) ltac:(lia) k Hv Hfree); exact I.
  - destruct (run_alone_ok w k a Hv (fun r => alone_free _ _ _ Hwait A a r Ha Ho)); exact I.
Qed.

(** C25 -- PipeStream delivers what was written: in every state that any interleaving of reads, writes, flushes, closes,
    cancellations, aborted waits and destructions of the two ends leads to, the bytes put into an end are the bytes read from it, in order,
    followed by those in its buffer, and the buffer never holds more than the size of the pipe. *)
Theorem pipe_fifo bufferSize W A a :
  0 <= bufferSize < 2 ^ 64 -> reachable bufferSize W -> w_ends W A = Some a ->
  w_put W A = w_taken W A ++ ps_readBuffer a /\ zlen (ps_readBuffer a) <= pipe_size bufferSize.
Proof.
  intros Hs HW Ha. destruct (di_end _ _ _ _ (inv_data _ _ (reachable_inv _ _ Hs HW)) A a Ha) as (_ & ? & ?). done.
Qed.

(** C4 -- no lost wakeup: a fiber whose read, write or flush is under way has been scheduled, or is registered with the
    other end, which still exists, and what it waits for has not happened: nothing to read from an end that is not closed, no room to write, data not read yet;
    nor has it been cancelled. *)
Theorem pipe_no_lost_wakeup bufferSize W b :
  0 <= bufferSize < 2 ^ 64 -> reachable bufferSize W -> b ∈ w_blocked W ->
  exists a, w_ends W (bk_side b) = Some a /\
    (bk_waiter b ∈ w_ready W \/
     exists o, w_ends W (opposite (bk_side b)) = Some o /\ slot (reads (bk_call b)) o = taken_by (bk_waiter b) /\
       waits (bk_call b) a o).
Proof. intros Hs HW Hb. by destruct (wi_blocked _ _ _ (inv_waiting _ _ (reachable_inv _ _ Hs HW)) b Hb). Qed.

(** C27 -- no assertion of PipeStream fails and no null pointer is used, whatever the interleaving, provided no two fibers read from
    an end at once or write to it at once and no end is destroyed under a call of its own. *)
Theorem pipe_no_assertion bufferSize W A a :
  0 <= bufferSize < 2 ^ 64 -> reachable bufferSize W -> w_ends W A = Some a ->
  let other := w_ends W (opposite A) in
  (forall w k, valid_call k -> may_call (snd w) A k W -> no_fault (run w k a other)) /\
  (forall w k, mkBlocked w A k ∈ w_blocked W -> w ∈ w_ready W -> no_fault (run w k a other)) /\
  (forall w k, mkBlocked w A k ∈ w_blocked W -> no_fault (aborted w k other)) /\
  (forall type, no_fault (PipeStream_close type a other)) /\
  no_fault (PipeStream_cancelRead a other) /\
  no_fault (PipeStream_cancelWrite a other) /\
  ((forall b, b ∈ w_blocked W -> bk_side b <> A) -> no_fault (PipeStream_destroy a other)).
Proof.
  intros Hs HR Ha other. pose proof (reachable_inv _ _ Hs HR) as HW. pose proof (inv_waiting _ _ HW) as Hwait. split_and!.
  - intros. by eapply run_no_fault.
  - intros w k Hin Hr. pose proof (withdraw_inv _ _ HW w A k Hin Hr) as HW2. destruct (wi_blocked _ _ _ Hwait _ Hin) as [Hv _].
    apply (run_no_fault _ _ w A k a HW2 Ha Hv). intros b Hb. by eapply withdrawn_may_call.
  - intros w k Hin. unfold other. destruct (w_ends W (opposite A)) as [o|] eqn:Ho; [|unfold aborted; by destruct (reads k)].
    destruct (aborted_ok _ _ _ w A k o Hwait Hin Ho) as [[_ E]|[_ E]]; by rewrite E.
  - intros type. unfold other. destruct (w_ends W (opposite A)) as [o|] eqn:Ho.
    + destruct (close_ok type a o) as (? & ? & ? & E & _); [by eapply end_well_slotted..|]. by rewrite E.
    + rewrite close_alone; [done|]. intros r. by apply (alone_free _ _ _ Hwait A).
  - unfold other. destruct (w_ends W (opposite A)) as [o|] eqn:Ho; [|done].
    destruct (cancelRead_ok a o) as (? & ? & ? & E & _); [by eapply end_well_slotted|]. by rewrite E.
  - unfold other. destruct (w_ends W (opposite A)) as [o|] eqn:Ho; [|done].
    destruct (cancelWrite_ok a o) as (? & ? & ? & E & _); [by eapply end_well_slotted|]. by rewrite E.
  - intros Hno. destruct (destroy_waiting _ _ _ A a Hwait Ha Hno) as (? & ? & E & _). unfold other. by rewrite E.
Qed.

(** A pipe of five bytes: the first end is written to, and a fiber that finds it full waits. *)
Definition pipe_full : world :=
  finish (1, 1)%positive First (Write [1; 2; 3; 4; 5; 6]) (Return (Count 5))
    (PipeStream_new 5) (Some (with_readBuffer [1; 2; 3; 4; 5] (PipeStream_new 5))) [] (world_new 5).

Definition pipe_waiting : world :=
  finish (1, 2)%positive First (Write [6]) Wait
    (PipeStream_new 5) (Some (register false (1, 2)%positive (with_readBuffer [1; 2; 3; 4; 5] (PipeStream_new 5)))) [] pipe_full.

Lemma pipe_full_reachable : reachable 5 pipe_full.
Proof.
  eapply reachable_step; [constructor|]. eapply step_call; [reflexivity|split; reflexivity| |reflexivity].
  intros b Hb. by apply not_elem_of_nil in Hb.
Defined.

Lemma pipe_waiting_reachable : reachable 5 pipe_waiting.
Proof.
  eapply reachable_step; [exact pipe_full_reachable|].
  eapply step_call; [reflexivity|split; reflexivity| |reflexivity]. intros b Hb. by apply not_elem_of_nil in Hb.
Defined.

Lemma pipe_fifo_witness : w_put pipe_full Second = w_taken pipe_full Second ++ [1; 2; 3; 4; 5].
Proof. apply (pipe_fifo 5 pipe_full Second (with_readBuffer [1; 2; 3; 4; 5] (PipeStream_new 5))); [lia|exact pipe_full_reachable|reflexivity]. Defined.

Lemma pipe_no_lost_wakeup_witness :
  exists a, w_ends pipe_waiting First = Some a /\
    ((1, 2)%positive ∈ w_ready pipe_waiting \/
     exists o, w_ends pipe_waiting Second = Some o /\ slot false o = taken_by (1, 2)%positive /\ waits (Write [6]) a o).
Proof.
  apply (pipe_no_lost_wakeup 5 pipe_waiting (mkBlocked (1, 2)%positive First (Write [6]))); [lia|exact pipe_waiting_reachable|by left].
Defined.

Lemma pipe_no_assertion_witness : no_fault (PipeStream_close BOTH (PipeStream_new 5) (w_ends pipe_waiting Second)).
Proof.
  destruct (pipe_no_assertion 5 pipe_waiting First (PipeStream_new 5)) as (_ & _ & _ & H & _); [lia|exact pipe_waiting_reachable|reflexivity|].
  exact (H BOTH).
Defined.

(** The default argument of [pipeStream] is [~0] as a [size_t], which the comparison with [~0u] does not recognise: the buffer of
    a default pipe is not limited to 65536 bytes. *)
Example pipe_default_unbounded : ps_bufferSize (fst (pipeStream npos)) = npos /\ ps_bufferSize (fst (pipeStream (2 ^ 32 - 1))) = 65536.
Proof. split; reflexivity. Qed.
