(* ===== verification/Strings.v ===== *)
(** [string.cpp]: base64, hexadecimal, splitting, replacing and UTF-8. *)

From stdpp Require Import numbers list_numbers list.
From S2P Require Import Prelude.

(** Characters are integers in [0, 256): [unsigned char] where the code reads data, and the codes of
    the characters where it reads text. *)

(** ** Base 64 *)

(** The [i]-th character of the alphabet. *)
Definition base64 (i : Z) : Z :=
  if i <? 26 then 65 + i else if i <? 52 then 97 + (i - 26) else if i <? 62 then 48 + (i - 52) else if i =? 62 then 43 else 47.

Definition EQUALS : Z := 61.

(** [for (; i < 3 && ptr < end; ++i, ++ptr) packed = (packed << 8) | *ptr;]: [n] more bytes at most. *)
Fixpoint pack_bytes (n : nat) (packed : Z) (i : Z) (ptr : list Z) : Z * Z * list Z :=
  match n, ptr with
  | S n', c :: ptr' => pack_bytes n' (u32 (Z.lor (Z.shiftl packed 8) c)) (i + 1) ptr'
  | _, _ => (packed, i, ptr)
  end.

(** [for (; i < 3; ++i) packed <<= 8;] *)
Definition pad_bytes (packed i : Z) : Z :=
  if i =? 2 then u32 (Z.shiftl packed 8)
  else if i =? 1 then u32 (Z.shiftl (u32 (Z.shiftl packed 8)) 8)
  else packed.

Fixpoint encode_loop (fuel : nat) (ptr : list Z) : list Z :=
  match ptr, fuel with
  | [], _ | _, O => []
  | _, S fuel' =>
      let '(packed, i, ptr') := pack_bytes 3 0 0 ptr in
      let padding := if i =? 2 then 1 else if i =? 1 then 2 else 0 in
      let packed := pad_bytes packed i in
      [base64 (Z.shiftr packed 18); base64 (Z.land (Z.shiftr packed 12) 63)] ++
      (if padding =? 2 then [] else [base64 (Z.land (Z.shiftr packed 6) 63)]) ++
      (if padding =? 0 then [base64 (Z.land packed 63)] else []) ++
      repeat EQUALS (Z.to_nat padding) ++ encode_loop fuel' ptr'
  end.

(** Every round takes a byte. *)
Definition base64encode (data : list Z) : list Z := encode_loop (length data) data.

Definition base64_value (c : Z) : option Z :=
  if (65 <=? c) && (c <=? 90) then Some (c - 65)
  else if (97 <=? c) && (c <=? 122) then Some (c - 97 + 26)
  else if (48 <=? c) && (c <=? 57) then Some (c - 48 + 52)
  else if c =? 43 then Some 62
  else if c =? 47 then Some 63
  else None.

(** [for (; i < 4 && ptr < end; ++i, ++ptr) ...]: the packed bits, the padding and how many characters were read; [None] where the loop returns an empty string. *)
Fixpoint unpack_chars (n : nat) (packed padding i : Z) (ptr : list Z) : option (Z * Z * Z * list Z) :=
  match n, ptr with
  | S n', c :: ptr' =>
      if c =? EQUALS then unpack_chars n' (Z.shiftl packed 6) (padding + 1) (i + 1) ptr'
      else if 0 <? padding then None
      else
        match base64_value c with
        | Some val => unpack_chars n' (Z.lor (Z.shiftl packed 6) val) padding (i + 1) ptr'
        | None => None
        end
  | _, _ => Some (packed, padding, i, ptr)
  end.

(** [*writeBuf++ = c] in a string of [capacity] characters. *)
Definition put_char (capacity : Z) (c : Z) (written : list Z) : result (list Z) :=
  if zlen written <? capacity then Ok (written ++ [c]) else Err Undefined.

Fixpoint decode_loop (fuel : nat) (capacity : Z) (ptr written : list Z) : result (list Z) :=
  match ptr, fuel with
  | [], _ => Ok written
  | _, O => Err Diverges
  | _, S fuel' =>
      match unpack_chars 4 0 0 0 ptr with
      | None => Ok []
      | Some (packed, padding, i, ptr') =>
          if negb (i =? 4) then Ok []
          else if (0 <? padding) && negb (zlen ptr' =? 0) then Ok []
          else if 2 <? padding then Ok []
          else
            written ← put_char capacity (Z.land (Z.shiftr packed 16) 255) written;
            written ← (if padding =? 2 then Ok written else put_char capacity (Z.land (Z.shiftr packed 8) 255) written);
            written ← (if padding =? 0 then put_char capacity (Z.land packed 255) written else Ok written);
            decode_loop fuel' capacity ptr' written
      end
  end.

Definition base64decode (src : list Z) : result (list Z) :=
  decode_loop (length src) (zlen src * 3 / 4) src [].

(** ** Hexadecimal *)

Definition hex_digit (c : Z) : Z := if 9 <? c then c + 97 - 10 else c + 48.

Fixpoint hexstringFromData (data : list Z) : list Z :=
  match data with
  | [] => []
  | b :: data' => hex_digit (Z.land (Z.shiftr b 4) 15) :: hex_digit (Z.land b 15) :: hexstringFromData data'
  end.

(** The two [switch] statements. *)
Definition hex_nibble (c : Z) : option Z :=
  if (97 <=? c) && (c <=? 102) then Some (c - 97 + 10)
  else if (65 <=? c) && (c <=? 70) then Some (c - 65 + 10)
  else if (48 <=? c) && (c <=? 57) then Some (c - 48)
  else None.

Fixpoint hex_loop (hexstring : list Z) : result (list Z) :=
  match hexstring with
  | hi :: lo :: hexstring' =>
      match hex_nibble hi with
      | None => throw invalid_argument
      | Some h =>
          match hex_nibble lo with
          | None => throw invalid_argument
          | Some l => rest ← hex_loop hexstring'; Ok (Z.lor (Z.land (Z.shiftl h 4) 255) l :: rest)
          end
      end
  | _ => Ok []
  end.

Definition dataFromHexstring (hexstring : list Z) : result (list Z) :=
  if negb (zlen hexstring mod 2 =? 0) then throw invalid_argument else hex_loop hexstring.

(** ** Searching, splitting, replacing *)

(** [str.find(c, from)] for one of the characters [cs]: the first position at or after [from]. *)
Fixpoint scan (cs : list Z) (i : Z) (str : list Z) : option Z :=
  match str with
  | [] => None
  | c :: str' => if bool_decide (c ∈ cs) then Some i else scan cs (i + 1) str'
  end.

Definition find_first_of (cs : list Z) (from : Z) (str : list Z) : option Z := scan cs from (zdrop from str).

(** [str.substr(last, n)] *)
Definition substr (last n : Z) (str : list Z) : list Z := zslice last n str.

(** [while (pos != npos) { ... }], and the last piece; [max] is a [size_t]. *)
Fixpoint split_loop (fuel : nat) (delims str : list Z) (last : Z) (pos : option Z) (max : Z) : list (list Z) :=
  match pos, fuel with
  | Some p, S fuel' =>
      substr last (p - last) str ::
      (if u64 (max - 1) =? 1 then [zdrop (p + 1) str]
       else split_loop fuel' delims str (p + 1) (find_first_of delims (p + 1) str) (u64 (max - 1)))
  | _, _ => [zdrop last str]
  end.

(** Both overloads: one delimiter, or any of several. *)
Definition split (str delims : list Z) (max : Z) : result (list (list Z)) :=
  assert: 1 <? max ;;
  Ok (match str with
      | [] => []
      | _ => split_loop (S (length str)) delims str 0 (find_first_of delims 0 str) max
      end).

(** [replace(str, find, replaceWith)] for a character by a character and by a string. *)
Fixpoint replace_char_loop (fuel : nat) (c with_ : Z) (str : list Z) (index : option Z) : list Z :=
  match index, fuel with
  | Some i, S fuel' =>
      let str' := ztake i str ++ [with_] ++ zdrop (i + 1) str in
      replace_char_loop fuel' c with_ str' (find_first_of [c] (i + 1) str')
  | _, _ => str
  end.

Definition replace_char (str : list Z) (c with_ : Z) : list Z :=
  replace_char_loop (S (length str)) c with_ str (find_first_of [c] 0 str).

Fixpoint replace_string_loop (fuel : nat) (c : Z) (with_ str : list Z) (index : option Z) : list Z :=
  match index, fuel with
  | Some i, S fuel' =>
      let str' := ztake i str ++ with_ ++ zdrop (i + 1) str in
      replace_string_loop fuel' c with_ str' (find_first_of [c] (i + zlen with_) str')
  | _, _ => str
  end.

Definition replace_string (str : list Z) (c : Z) (with_ : list Z) : list Z :=
  replace_string_loop (S (length str)) c with_ str (find_first_of [c] 0 str).

(** ** Unicode *)

Definition isHighSurrogate (c : Z) : bool := (0xd800 <=? c) && (c <=? 0xdbff).
Definition isLowSurrogate (c : Z) : bool := (0xdc00 <=? c) && (c <=? 0xdfff).

Definition toUtf32 (highSurrogate lowSurrogate : Z) : result Z :=
  assert: isHighSurrogate highSurrogate ;;
  assert: isLowSurrogate lowSurrogate ;;
  Ok (Z.lor (Z.shiftl (highSurrogate - 0xd800) 10) (lowSurrogate - 0xdc00) + 0x10000).

Definition toUtf8 (c : Z) : result (list Z) :=
  assert: c <=? 0x10ffff ;;
  Ok (if c <=? 0x7f then [c]
      else if c <=? 0x7ff then
        [Z.lor 0xc0 (Z.land (Z.shiftr c 6) 0x1f); Z.lor 0x80 (Z.land c 0x3f)]
      else if c <=? 0xffff then
        [Z.lor 0xe0 (Z.land (Z.shiftr c 12) 0xf); Z.lor 0x80 (Z.land (Z.shiftr c 6) 0x3f); Z.lor 0x80 (Z.land c 0x3f)]
      else
        [Z.lor 0xf0 (Z.land (Z.shiftr c 18) 0x7); Z.lor 0x80 (Z.land (Z.shiftr c 12) 0x3f);
         Z.lor 0x80 (Z.land (Z.shiftr c 6) 0x3f); Z.lor 0x80 (Z.land c 0x3f)]).
