(* ===== verification/StringProps.v ===== *)
(** The theorems about [string.cpp]. *)

From stdpp Require Import numbers list_numbers list.
From S2P Require Import Prelude Strings.

(** ** Bit operations as arithmetic *)

Lemma lor_shiftl x y n : 0 <= n -> 0 <= y < 2 ^ n -> Z.lor (Z.shiftl x n) y = x * 2 ^ n + y.
Proof.
  intros Hn Hy. rewrite <- Z.shiftl_mul_pow2 by done. rewrite <- Z.add_lor_land.
  replace (Z.land (Z.shiftl x n) y) with 0; [lia|]. symmetry. apply Z.bits_inj'. intros i Hi. rewrite Z.land_spec, Z.bits_0.
  destruct (Z.ltb_spec i n); [rewrite Z.shiftl_spec_low by lia; done|].
  rewrite <- (Z.mod_small y (2 ^ n)), Z.mod_pow2_bits_high by lia. apply andb_false_r.
Qed.

Lemma land_63 z : Z.land z 63 = z mod 64.
Proof. exact (Z.land_ones z 6 ltac:(lia)). Qed.

Lemma land_255 z : Z.land z 255 = z mod 256.
Proof. exact (Z.land_ones z 8 ltac:(lia)). Qed.

Lemma land_15 z : Z.land z 15 = z mod 16.
Proof. exact (Z.land_ones z 4 ltac:(lia)). Qed.

Lemma u32_small z : 0 <= z < 2 ^ 32 -> u32 z = z.
Proof. apply Z.mod_small. Qed.

(** ** Base 64 *)

Definition is_byte (c : Z) : Prop := 0 <= c < 256.

Lemma base64_value_base64 i : 0 <= i < 64 -> base64_value (base64 i) = Some i /\ base64 i <> EQUALS.
Proof.
  intros Hi. assert (T : Forall (fun i => base64_value (base64 i) = Some i /\ base64 i <> EQUALS) (seqZ 0 64)).
  { cbv [seqZ seq fmap list_fmap Z.to_nat Pos.to_nat Pos.iter_op Nat.add]. repeat constructor; discriminate. }
  rewrite Forall_forall in T. apply T, elem_of_seqZ. lia.
Qed.

(** Three bytes and the four characters they become. *)
Definition pack3 (a b c : Z) : Z := a * 65536 + b * 256 + c.
Definition digits (p : Z) : list Z := [p / 2 ^ 18; p / 2 ^ 12 mod 64; p / 2 ^ 6 mod 64; p mod 64].

Lemma encode_full fuel a b c rest : is_byte a -> is_byte b -> is_byte c ->
  encode_loop (S fuel) (a :: b :: c :: rest) = (base64 <$> digits (pack3 a b c)) ++ encode_loop fuel rest.
Proof.
  intros Ha Hb Hc. unfold is_byte in *. cbn [encode_loop pack_bytes]. change (0 + 1 + 1 + 1) with 3. cbn [Z.eqb Pos.eqb pad_bytes].
  assert (E : u32 (Z.lor (Z.shiftl (u32 (Z.lor (Z.shiftl (u32 (Z.lor (Z.shiftl 0 8) a)) 8) b)) 8) c) = pack3 a b c).
  { unfold pack3. rewrite (lor_shiftl 0 a 8), (u32_small (0 * 2 ^ 8 + a)) by lia.
    rewrite (lor_shiftl _ b 8), (u32_small (_ * 2 ^ 8 + b)) by lia. rewrite (lor_shiftl _ c 8), u32_small by lia. lia. }
  rewrite E. unfold pad_bytes. cbn [Z.eqb Pos.eqb]. rewrite !Z.shiftr_div_pow2, !land_63 by lia. done.
Qed.

Lemma encode_two fuel a b : is_byte a -> is_byte b ->
  encode_loop (S fuel) [a; b] = (base64 <$> take 3 (digits (pack3 a b 0))) ++ [EQUALS].
Proof.
  intros Ha Hb. unfold is_byte in *. cbn [encode_loop pack_bytes]. change (0 + 1 + 1) with 2. unfold pad_bytes. cbn [Z.eqb Pos.eqb].
  assert (E : u32 (Z.shiftl (u32 (Z.lor (Z.shiftl (u32 (Z.lor (Z.shiftl 0 8) a)) 8) b)) 8) = pack3 a b 0).
  { unfold pack3. rewrite (lor_shiftl 0 a 8), (u32_small (0 * 2 ^ 8 + a)) by lia.
    rewrite (lor_shiftl _ b 8), (u32_small (_ * 2 ^ 8 + b)) by lia. rewrite Z.shiftl_mul_pow2, u32_small by lia. lia. }
  rewrite E, !Z.shiftr_div_pow2, !land_63 by lia. by destruct fuel.
Qed.

Lemma encode_one fuel a : is_byte a ->
  encode_loop (S fuel) [a] = (base64 <$> take 2 (digits (pack3 a 0 0))) ++ [EQUALS; EQUALS].
Proof.
  intros Ha. unfold is_byte in *. cbn [encode_loop pack_bytes]. change (0 + 1) with 1. unfold pad_bytes. cbn [Z.eqb Pos.eqb].
  assert (E : u32 (Z.shiftl (u32 (Z.shiftl (u32 (Z.lor (Z.shiftl 0 8) a)) 8)) 8) = pack3 a 0 0).
  { unfold pack3. rewrite (lor_shiftl 0 a 8), (u32_small (0 * 2 ^ 8 + a)) by lia.
    rewrite !Z.shiftl_mul_pow2, (u32_small ((0 * 2 ^ 8 + a) * 2 ^ 8)), u32_small by lia. lia. }
  rewrite E, !Z.shiftr_div_pow2, !land_63 by lia. by destruct fuel.
Qed.

(** The characters of a group are unpacked to the same bits. *)
Lemma unpack_digit n packed i v l : 0 <= v < 64 ->
  unpack_chars (S n) packed 0 i (base64 v :: l) = unpack_chars n (packed * 64 + v) 0 (i + 1) l.
Proof.
  intros Hv. destruct (base64_value_base64 v Hv) as [E Hne]. cbn [unpack_chars]. rewrite (proj2 (Z.eqb_neq _ _) Hne), E.
  cbn [Z.ltb Z.compare]. by rewrite (lor_shiftl packed v 6).
Qed.

Lemma digits_range p : 0 <= p < 2 ^ 24 -> Forall (fun v => 0 <= v < 64) (digits p).
Proof.
  intros Hp. unfold digits. repeat constructor; try apply Z.mod_pos_bound; try lia; [apply Z.div_pos; lia|apply Z.div_lt_upper_bound; lia].
Qed.

Lemma digits_value p : 0 <= p < 2 ^ 24 ->
  (((0 * 64 + p / 2 ^ 18) * 64 + p / 2 ^ 12 mod 64) * 64 + p / 2 ^ 6 mod 64) * 64 + p mod 64 = p.
Proof. intros Hp. Z.div_mod_to_equations. lia. Qed.

Lemma unpack_full p rest : 0 <= p < 2 ^ 24 ->
  unpack_chars 4 0 0 0 ((base64 <$> digits p) ++ rest) = Some (p, 0, 4, rest).
Proof.
  intros Hp. pose proof (digits_range p Hp) as Hd. unfold digits in *. cbn [fmap list_fmap app].
  repeat match goal with H : Forall _ (_ :: _) |- _ => inversion H; clear H; subst end.
  rewrite !unpack_digit by done. cbn [unpack_chars]. rewrite digits_value by done. by destruct rest.
Qed.

Lemma unpack_two p : 0 <= p < 2 ^ 24 -> p mod 64 = 0 ->
  unpack_chars 4 0 0 0 ((base64 <$> take 3 (digits p)) ++ [EQUALS]) = Some (p, 1, 4, []).
Proof.
  intros Hp Hz. pose proof (digits_range p Hp) as Hd. pose proof (digits_value p Hp) as Hv. unfold digits in *. cbn [fmap list_fmap app take].
  repeat match goal with H : Forall _ (_ :: _) |- _ => inversion H; clear H; subst end.
  rewrite !unpack_digit by done. cbn [unpack_chars]. rewrite Z.eqb_refl, Z.shiftl_mul_pow2 by lia. do 4 f_equal. lia.
Qed.

Lemma unpack_one p : 0 <= p < 2 ^ 24 -> p mod 4096 = 0 ->
  unpack_chars 4 0 0 0 ((base64 <$> take 2 (digits p)) ++ [EQUALS; EQUALS]) = Some (p, 2, 4, []).
Proof.
  intros Hp Hz. pose proof (digits_range p Hp) as Hd. unfold digits in *. cbn [fmap list_fmap app take].
  repeat match goal with H : Forall _ (_ :: _) |- _ => inversion H; clear H; subst end.
  rewrite !unpack_digit by done. cbn [unpack_chars]. rewrite Z.eqb_refl, !Z.shiftl_mul_pow2 by lia. do 4 f_equal.
  Z.div_mod_to_equations. lia.
Qed.

(** A character fits when there is room. *)
Lemma put_char_ok capacity c written : zlen written < capacity -> put_char capacity c written = Ok (written ++ [c]).
Proof. intros Hl. unfold put_char. by rewrite (proj2 (Z.ltb_lt _ _) Hl). Qed.

(** The bytes of a packed group. *)
Lemma pack3_bytes a b c : is_byte a -> is_byte b -> is_byte c ->
  Z.land (Z.shiftr (pack3 a b c) 16) 255 = a /\ Z.land (Z.shiftr (pack3 a b c) 8) 255 = b /\ Z.land (pack3 a b c) 255 = c /\
  0 <= pack3 a b c < 2 ^ 24.
Proof.
  unfold is_byte, pack3. intros. rewrite !Z.shiftr_div_pow2, !land_255 by lia.
  split_and!; try lia; Z.div_mod_to_equations; lia.
Qed.

(** Four characters for every three bytes begun. *)
Lemma encode_length fuel data : (length data <= fuel)%nat -> Forall is_byte data ->
  zlen (encode_loop fuel data) = 4 * ((zlen data + 2) / 3).
Proof.
  revert data. induction fuel as [|fuel IH]; intros data Hf Hb; destruct data as [|a [|b [|c rest]]]; cbn in Hf; try lia; try done.
  - by destruct fuel.
  - by destruct fuel.
  - rewrite ?Forall_cons in Hb. destruct_and? Hb. rewrite encode_full, zlen_app, IH by (done || lia). change (zlen (base64 <$> digits (pack3 a b c))) with 4.
    rewrite !zlen_cons. replace (1 + (1 + (1 + zlen rest)) + 2) with (zlen rest + 2 + 1 * 3) by lia. rewrite Z.div_add by lia. lia.
Qed.

(** Tests of constants and binds of [Ok]. *)
Ltac decode_step := cbn [mbind result_bind negb andb Z.eqb Pos.eqb Z.ltb Z.compare Pos.compare Pos.compare_cont].

Lemma decode_encode efuel : forall data fuel capacity written,
  (length data <= efuel)%nat -> Forall is_byte data -> (length (encode_loop efuel data) <= fuel)%nat ->
  zlen written + zlen data <= capacity ->
  decode_loop fuel capacity (encode_loop efuel data) written = Ok (written ++ data).
Proof.
  assert (Hrest : forall fuel capacity l written, l <> [] -> (length l <= S fuel)%nat ->
    decode_loop (S fuel) capacity l written = match unpack_chars 4 0 0 0 l with
      | None => Ok []
      | Some (packed, padding, i, ptr') =>
          if negb (i =? 4) then Ok [] else if (0 <? padding) && negb (zlen ptr' =? 0) then Ok [] else if 2 <? padding then Ok []
          else written ← put_char capacity (Z.land (Z.shiftr packed 16) 255) written;
            written ← (if padding =? 2 then Ok written else put_char capacity (Z.land (Z.shiftr packed 8) 255) written);
            written ← (if padding =? 0 then put_char capacity (Z.land packed 255) written else Ok written);
            decode_loop fuel capacity ptr' written
      end) by (by intros ? ? [|? ?]).
  induction efuel as [|efuel IH]; intros data fuel capacity written He Hb Hf Hc; destruct data as [|a [|b [|c rest]]];
    cbn in He; try lia; try (destruct fuel; cbn; by rewrite app_nil_r); rewrite ?Forall_cons in Hb; destruct_and? Hb.
  - rewrite encode_one in * by done. destruct fuel as [|fuel]; [cbn in Hf; lia|]. rewrite Hrest by done.
    destruct (pack3_bytes a 0 0) as (E1 & _ & _ & Hr); [done|unfold is_byte; lia..|]. change (zlen [a]) with 1 in Hc.
    rewrite unpack_one, E1 by (done || unfold pack3; Z.div_mod_to_equations; lia). change (zlen []) with 0. decode_step.
    rewrite put_char_ok by lia. decode_step. by destruct fuel.
  - rewrite encode_two in * by done. destruct fuel as [|fuel]; [cbn in Hf; lia|]. rewrite Hrest by done.
    destruct (pack3_bytes a b 0) as (E1 & E2 & _ & Hr); [done|done|unfold is_byte; lia|]. change (zlen [a; b]) with 2 in Hc.
    rewrite unpack_two, E1, E2 by (done || unfold pack3; Z.div_mod_to_equations; lia). change (zlen []) with 0. decode_step.
    rewrite put_char_ok by lia. decode_step. rewrite put_char_ok by (rewrite zlen_app; change (zlen [a]) with 1; lia). decode_step.
    rewrite <- app_assoc. by destruct fuel.
  - rewrite encode_full in * by done. rewrite length_app in Hf. cbn [length fmap list_fmap digits] in Hf. destruct fuel as [|fuel]; [lia|].
    rewrite Hrest by (done || rewrite length_app; cbn; lia). destruct (pack3_bytes a b c) as (E1 & E2 & E3 & Hr); [done..|].
    rewrite unpack_full, E1, E2, E3 by done. rewrite !zlen_cons in Hc. pose proof (zlen_nonneg rest). decode_step.
    rewrite put_char_ok by lia. decode_step. rewrite put_char_ok by (rewrite zlen_app; change (zlen [a]) with 1; lia). decode_step.
    rewrite put_char_ok by (rewrite !zlen_app; change (zlen [a]) with 1; change (zlen [b]) with 1; lia). decode_step.
    rewrite IH; [by rewrite <- !app_assoc|lia|done|lia|].
    rewrite !zlen_app. change (zlen [a]) with 1. change (zlen [b]) with 1. change (zlen [c]) with 1. lia.
Qed.

Lemma unpack_consumes n : forall packed padding i l packed' padding' i' l',
  unpack_chars n packed padding i l = Some (packed', padding', i', l') -> zlen l + i = zlen l' + i' /\ i <= i' <= i + Z.of_nat n.
Proof.
  induction n as [|n IH]; intros packed padding i l packed' padding' i' l' E; cbn in E; [injection E; intros; subst; lia|].
  destruct l as [|c l]; [injection E; intros; subst; lia|]. rewrite zlen_cons. destruct (c =? EQUALS); [apply IH in E; lia|].
  destruct (0 <? padding); [done|]. destruct (base64_value c); [|done]. apply IH in E. lia.
Qed.

Lemma decode_total fuel : forall total l written,
  (length l <= fuel)%nat -> 4 * zlen written + 3 * zlen l <= 3 * total ->
  exists out, decode_loop fuel (total * 3 / 4) l written = Ok out /\ zlen out <= Z.max 0 (total * 3 / 4).
Proof.
  induction fuel as [|fuel IH]; intros total l written Hf Hc; (destruct l as [|c l]; [|cbn in Hf; try lia]).
  1,2: exists written; split; [done|]; change (zlen []) with 0 in Hc; Z.div_mod_to_equations; lia.
  cbn [decode_loop]. assert (Hnil : exists out, Ok (A := list Z) [] = Ok out /\ zlen out <= Z.max 0 (total * 3 / 4)).
  { exists []. split; [done|]. change (zlen []) with 0. lia. }
  destruct (unpack_chars 4 0 0 0 (c :: l)) as [[[[packed padding] i] l']|] eqn:E; [|done].
  apply unpack_consumes in E as [El Ei]. destruct (Z.eqb_spec i 4) as [->|]; cbn [negb]; [|done].
  destruct ((0 <? padding) && negb (zlen l' =? 0)); [done|]. destruct (2 <? padding); [done|].
  pose proof (zlen_nonneg l'). pose proof (zlen_nonneg written).
  assert (Hroom : zlen written + 3 <= total * 3 / 4) by (apply Z.div_le_lower_bound; lia).
  assert (Hlen : (length l' <= fuel)%nat) by (unfold zlen in *; cbn in *; lia).
  rewrite put_char_ok by lia. step. destruct (padding =? 2); step.
  - destruct (padding =? 0); step; [rewrite put_char_ok by (rewrite zlen_app, zlen_cons; change (zlen []) with 0; lia); step|];
      apply IH; auto; rewrite !zlen_app, !zlen_cons; change (zlen []) with 0; lia.
  - rewrite put_char_ok by (rewrite zlen_app, zlen_cons; change (zlen []) with 0; lia). step. destruct (padding =? 0); step;
      [rewrite put_char_ok by (rewrite !zlen_app, !zlen_cons; change (zlen []) with 0; lia); step|];
      apply IH; auto; rewrite !zlen_app, !zlen_cons; change (zlen []) with 0; lia.
Qed.

(** Base64: data of any length, encoded and decoded, is the same data; and decoding any text at all ends with a string and without
    writing past the buffer of three quarters of its size. *)
Theorem base64_roundtrip data src :
  Forall is_byte data ->
  base64decode (base64encode data) = Ok data /\
  exists out, base64decode src = Ok out /\ zlen out <= zlen src * 3 / 4.
Proof.
  intros Hb. split.
  - unfold base64decode, base64encode. apply (decode_encode (length data) data _ _ []); [lia|done|lia|].
    rewrite encode_length by (done || lia). change (zlen []) with 0. pose proof (zlen_nonneg data). Z.div_mod_to_equations. lia.
  - pose proof (zlen_nonneg src). destruct (decode_total (length src) (zlen src) src []) as (out & E & Hl); [lia|change (zlen []) with 0; lia|].
    exists out. split; [exact E|]. rewrite Z.max_r in Hl by (apply Z.div_pos; lia). done.
Qed.

Lemma base64_witness : base64decode (base64encode [0; 255; 16; 131]) = Ok [0; 255; 16; 131] /\ base64encode [0; 255; 16; 131] = [65; 80; 56; 81; 103; 119; 61; 61].
Proof.
  split; [|vm_compute; reflexivity]. apply (base64_roundtrip [0; 255; 16; 131] []). repeat constructor; done.
Defined.

(** ** Hexadecimal *)

Definition is_hex_char (c : Z) : Prop := is_Some (hex_nibble c).

#[global] Instance is_hex_char_dec c : Decision (is_hex_char c).
Proof. unfold is_hex_char. apply _. Defined.

(** [A] to [F] in lower case. *)
Definition lower_hex (c : Z) : Z := if (65 <=? c) && (c <=? 70) then c + 32 else c.

Lemma hex_digit_nibble v : 0 <= v < 16 -> hex_nibble (hex_digit v) = Some v.
Proof.
  intros Hv. assert (T : Forall (fun v => hex_nibble (hex_digit v) = Some v) (seqZ 0 16)).
  { cbv [seqZ seq fmap list_fmap Z.to_nat Pos.to_nat Pos.iter_op Nat.add]. repeat constructor. }
  rewrite Forall_forall in T. apply T, elem_of_seqZ. lia.
Qed.

Lemma hex_nibble_digit c v : hex_nibble c = Some v -> 0 <= v < 16 /\ hex_digit v = lower_hex c.
Proof.
  unfold hex_nibble, hex_digit, lower_hex. intros E.
  destruct ((97 <=? c) && (c <=? 102)) eqn:E1; [apply andb_true_iff in E1 as [?%Z.leb_le ?%Z.leb_le]; injection E as <-|].
  { rewrite (proj2 (Z.leb_gt c 70)), andb_false_r, (proj2 (Z.ltb_lt _ _)) by lia. lia. }
  destruct ((65 <=? c) && (c <=? 70)) eqn:E2; [apply andb_true_iff in E2 as [?%Z.leb_le ?%Z.leb_le]; injection E as <-|].
  { rewrite (proj2 (Z.ltb_lt _ _)) by lia. lia. }
  destruct ((48 <=? c) && (c <=? 57)) eqn:E3; [apply andb_true_iff in E3 as [?%Z.leb_le ?%Z.leb_le]; injection E as <-|done].
  rewrite (proj2 (Z.ltb_ge _ _)) by lia. lia.
Qed.

(** The byte of two digits, and the digits of a byte. *)
Lemma byte_of_nibbles h l : 0 <= h < 16 -> 0 <= l < 16 ->
  let b := Z.lor (Z.land (Z.shiftl h 4) 255) l in
  is_byte b /\ Z.land (Z.shiftr b 4) 15 = h /\ Z.land b 15 = l.
Proof.
  intros Hh Hl. cbv zeta. rewrite land_255, Z.shiftl_mul_pow2, Z.mod_small by lia. rewrite <- Z.shiftl_mul_pow2, lor_shiftl by lia.
  rewrite !land_15, Z.shiftr_div_pow2 by lia. unfold is_byte. split_and!; try lia; Z.div_mod_to_equations; lia.
Qed.

Lemma nibbles_of_byte b : is_byte b -> Z.lor (Z.land (Z.shiftl (Z.land (Z.shiftr b 4) 15) 4) 255) (Z.land b 15) = b.
Proof.
  unfold is_byte. intros Hb. rewrite !land_15, Z.shiftr_div_pow2 by lia. pose proof (Z.mod_pos_bound b 16 ltac:(lia)).
  rewrite (Z.mod_small (b / 2 ^ 4) 16) by (Z.div_mod_to_equations; lia). rewrite land_255, Z.shiftl_mul_pow2, Z.mod_small by (Z.div_mod_to_equations; lia).
  rewrite <- Z.shiftl_mul_pow2, lor_shiftl by lia. Z.div_mod_to_equations. lia.
Qed.

Lemma hex_decode_encode d : Forall is_byte d -> hex_loop (hexstringFromData d) = Ok d.
Proof.
  induction 1 as [|b d Hb _ IH]; [done|]. cbn [hexstringFromData hex_loop].
  rewrite !hex_digit_nibble by (rewrite land_15; apply Z.mod_pos_bound; lia). rewrite IH. cbn [mbind result_bind]. by rewrite nibbles_of_byte.
Qed.

Lemma hex_length d : zlen (hexstringFromData d) = 2 * zlen d.
Proof. induction d as [|b d IH]; [done|]. cbn [hexstringFromData]. rewrite !zlen_cons, IH. lia. Qed.

(** Two characters at a time. *)
Lemma list_two_ind {A} (Q : list A -> Prop) : Q [] -> (forall x, Q [x]) -> (forall x y l, Q l -> Q (x :: y :: l)) -> forall l, Q l.
Proof.
  intros H0 H1 H2. assert (forall l, Q l /\ forall x, Q (x :: l)) as H; [|intros l; apply H].
  induction l as [|y l [IH1 IH2]]; split; auto.
Qed.

Lemma hex_loop_ok s : zlen s mod 2 = 0 ->
  if decide (Forall is_hex_char s)
  then exists d, hex_loop s = Ok d /\ Forall is_byte d /\ hexstringFromData d = lower_hex <$> s
  else hex_loop s = throw invalid_argument.
Proof.
  induction s as [|x|x y s IH] using list_two_ind; intros Hl.
  - rewrite decide_True by constructor. by exists [].
  - discriminate Hl.
  - rewrite !zlen_cons in Hl. replace (1 + (1 + zlen s)) with (zlen s + 1 * 2) in Hl by lia. rewrite Z.mod_add in Hl by lia. specialize (IH Hl).
    cbn [hex_loop]. destruct (hex_nibble x) as [h|] eqn:Ex.
    2:{ rewrite decide_False; [done|]. rewrite Forall_cons. unfold is_hex_char. rewrite Ex. by intros [[] _]. }
    destruct (hex_nibble y) as [l|] eqn:Ey.
    2:{ rewrite decide_False; [done|]. rewrite !Forall_cons. unfold is_hex_char. rewrite Ey. by intros (_ & [] & _). }
    apply hex_nibble_digit in Ex as Ex'. apply hex_nibble_digit in Ey as Ey'. destruct Ex' as [Hh Eh], Ey' as [Hl' El].
    destruct (byte_of_nibbles h l Hh Hl') as (Hb & E1 & E2).
    destruct (decide (Forall is_hex_char s)) as [Hs|Hs].
    + rewrite decide_True by (rewrite !Forall_cons; unfold is_hex_char at 1 2; rewrite Ex, Ey; split_and!; eauto).
      destruct IH as (d & E & Hd & Ed). rewrite E. cbn [mbind result_bind]. eexists. split; [done|]. split; [by constructor|].
      cbn [hexstringFromData]. rewrite E1, E2, Eh, El, Ed. done.
    + rewrite decide_False by (rewrite !Forall_cons; naive_solver). by rewrite IH.
Qed.

(** Hexadecimal text: data written in hexadecimal is read back; text is accepted exactly when it has an even number of characters, all
    of them hexadecimal digits in either case, and then it is what the data is written as, up to the case of its letters;
    otherwise [std::invalid_argument] is thrown. *)
Theorem hex_codec data text :
  Forall is_byte data ->
  dataFromHexstring (hexstringFromData data) = Ok data /\
  (if decide (zlen text mod 2 = 0 /\ Forall is_hex_char text)
   then exists d, dataFromHexstring text = Ok d /\ Forall is_byte d /\ hexstringFromData d = lower_hex <$> text
   else dataFromHexstring text = throw invalid_argument).
Proof.
  intros Hb. split.
  - unfold dataFromHexstring. rewrite hex_length. replace (2 * zlen data) with (zlen data * 2) by lia. rewrite Z.mod_mul by lia.
    by apply hex_decode_encode.
  - unfold dataFromHexstring. destruct (Z.eqb_spec (zlen text mod 2) 0) as [E|E]; cbn [negb].
    + pose proof (hex_loop_ok text E) as R. destruct (decide (Forall is_hex_char text)); [rewrite decide_True by done|rewrite decide_False by naive_solver]; exact R.
    + rewrite decide_False by naive_solver. done.
Qed.

Lemma hex_witness : dataFromHexstring (hexstringFromData [171; 5]) = Ok [171; 5] /\ dataFromHexstring [97; 66; 48] = throw invalid_argument.
Proof. apply (hex_codec [171; 5] [97; 66; 48]). repeat constructor; done. Defined.

(** ** Splitting *)

(** The pieces with the delimiters that stood between them. *)
Fixpoint interleave (pieces : list (list Z)) (ds : list Z) : list Z :=
  match pieces, ds with
  | p :: pieces', d :: ds' => p ++ d :: interleave pieces' ds'
  | p :: _, [] => p
  | [], _ => []
  end.

Definition clean (delims piece : list Z) : Prop := Forall (fun c => c ∉ delims) piece.

Lemma scan_ok cs i l :
  match scan cs i l with
  | Some p => exists pre d post, l = pre ++ d :: post /\ p = i + zlen pre /\ d ∈ cs /\ clean cs pre
  | None => clean cs l
  end.
Proof.
  revert i. induction l as [|c l IH]; intros i; cbn [scan]; [constructor|]. destruct (decide (c ∈ cs)) as [Hc|Hc].
  - rewrite bool_decide_true by done. exists [], c, l. split_and!; auto; [change (zlen []) with 0; lia|constructor].
  - rewrite bool_decide_false by done. specialize (IH (i + 1)). destruct (scan cs (i + 1) l) as [p|].
    + destruct IH as (pre & d & post & -> & -> & Hd & Hpre). exists (c :: pre), d, post. rewrite zlen_cons. split_and!; auto; [lia|by constructor].
    + by constructor.
Qed.

(** What [split] makes of the part of the string that is left. *)
Definition split_ok (delims rest : list Z) (max : Z) (pieces : list (list Z)) : Prop :=
  exists ds, rest = interleave pieces ds /\ length pieces = S (length ds) /\ Forall (fun d => d ∈ delims) ds /\
    zlen pieces <= max /\ Forall (clean delims) (removelast pieces) /\ (zlen pieces < max -> Forall (clean delims) pieces).

Lemma split_ok_last delims rest max : 0 < max -> clean delims rest \/ max = 1 -> split_ok delims rest max [rest].
Proof.
  intros Hm Hc. exists []. change (zlen [rest]) with 1. split_and!; [done|done|constructor|lia|constructor|].
  destruct Hc; [by repeat constructor|lia].
Qed.

Lemma split_ok_cons delims p d rest max pieces :
  clean delims p -> d ∈ delims -> split_ok delims rest (max - 1) pieces -> split_ok delims (p ++ d :: rest) max (p :: pieces).
Proof.
  intros Hp Hd (ds & -> & Hl & Hds & Hm & Hc & Hlt). exists (d :: ds). destruct pieces as [|q pieces]; [done|].
  rewrite zlen_cons. split_and!; [done|cbn; cbn in Hl; lia|by constructor|lia|by constructor|].
  - intros Hlt'. constructor; [done|]. apply Hlt. lia.
Qed.

Lemma split_loop_ok fuel delims str last max :
  0 <= last -> (length (zdrop last str) < fuel)%nat -> 1 < max < 2 ^ 64 ->
  split_ok delims (zdrop last str) max (split_loop fuel delims str last (find_first_of delims last str) max).
Proof.
  revert last max. induction fuel as [|fuel IH]; intros last max Hl Hf Hm; [lia|]. unfold find_first_of.
  pose proof (scan_ok delims last (zdrop last str)) as S. destruct (scan delims last (zdrop last str)) as [p|].
  2:{ cbn [split_loop]. apply split_ok_last; [lia|by left]. }
  destruct S as (pre & d & post & E & -> & Hd & Hpre). pose proof (zlen_nonneg pre). cbn [split_loop].
  assert (Epost : zdrop (last + zlen pre + 1) str = post).
  { replace (last + zlen pre + 1) with (last + (zlen pre + 1)) by lia. rewrite <- zdrop_zdrop, E by lia. apply zdrop_snoc. }
  unfold substr, zslice. rewrite E. replace (last + zlen pre - last) with (zlen pre) by lia.
  rewrite ztake_app_le, ztake_all by lia. rewrite u64_small by lia. apply split_ok_cons; [done|done|].
  destruct (Z.eqb_spec (max - 1) 1) as [E1|E1]; rewrite <- Epost.
  - apply split_ok_last; [lia|by right].
  - apply IH; [lia| |lia]. rewrite Epost. rewrite E, length_app in Hf. cbn in Hf. lia.
Qed.

(** Split: the pieces, with the delimiters that stood between them put back, are the string; there are at most [max] of them, no piece but the last has a
    delimiter in it, nor has the last one unless there were too many; an empty string has no pieces. *)
Theorem split_spec str delims max :
  1 < max < 2 ^ 64 ->
  exists pieces, split str delims max = Ok pieces /\
    match str with [] => pieces = [] | _ => split_ok delims str max pieces end.
Proof.
  intros Hm. unfold split. rewrite ASSERT_true by (apply Z.ltb_lt; lia). eexists. split; [reflexivity|]. destruct str as [|c str]; [done|].
  pose proof (split_loop_ok (S (length (c :: str))) delims (c :: str) 0 max) as R. rewrite zdrop_0 in R. apply R; [lia|lia|done].
Qed.

Lemma split_witness : exists pieces, split [97; 44; 98; 44; 99] [44] 2 = Ok pieces /\ split_ok [44] [97; 44; 98; 44; 99] 2 pieces.
Proof. apply (split_spec [97; 44; 98; 44; 99] [44] 2). lia. Defined.

(** ** Replacing *)

Definition substitute (c : Z) (with_ : list Z) (x : Z) : list Z := if x =? c then with_ else [x].

Lemma substitute_clean c with_ l : clean [c] l -> concat (substitute c with_ <$> l) = l.
Proof.
  induction 1 as [|x l Hx _ IH]; [done|]. cbn [fmap list_fmap concat]. unfold substitute at 1.
  rewrite (proj2 (Z.eqb_neq x c)) by (intros ->; apply Hx; by left). cbn [app]. by rewrite IH.
Qed.

Lemma replace_string_loop_ok fuel c with_ front rest :
  (length rest < fuel)%nat ->
  replace_string_loop fuel c with_ (front ++ rest) (find_first_of [c] (zlen front) (front ++ rest)) =
    front ++ concat (substitute c with_ <$> rest).
Proof.
  revert front rest. induction fuel as [|fuel IH]; intros front rest Hf; [lia|]. unfold find_first_of.
  rewrite zdrop_app_ge, Z.sub_diag, zdrop_0 by lia. pose proof (scan_ok [c] (zlen front) rest) as S.
  destruct (scan [c] (zlen front) rest) as [i|]; cbn [replace_string_loop]; [|by rewrite substitute_clean].
  destruct S as (pre & d & post & -> & -> & ->%list_elem_of_singleton & Hpre). pose proof (zlen_nonneg pre). pose proof (zlen_nonneg front).
  assert (E : ztake (zlen front + zlen pre) (front ++ pre ++ c :: post) ++ with_ ++ zdrop (zlen front + zlen pre + 1) (front ++ pre ++ c :: post)
    = (front ++ pre ++ with_) ++ post).
  { replace (front ++ pre ++ c :: post) with ((front ++ pre) ++ c :: post) by (by rewrite <- app_assoc).
    rewrite <- zlen_app, ztake_app_le, ztake_all, zdrop_snoc by lia. by rewrite <- !app_assoc. }
  rewrite E. replace (zlen front + zlen pre + zlen with_) with (zlen (front ++ pre ++ with_)) by (rewrite !zlen_app; lia).
  rewrite IH by (rewrite length_app in Hf; cbn in Hf; lia).
  rewrite fmap_app, concat_app, (substitute_clean c with_ pre) by done. cbn [fmap list_fmap concat]. unfold substitute at 2. rewrite Z.eqb_refl.
  by rewrite <- !app_assoc.
Qed.

(** Every occurrence is replaced, and what is put in is not looked at again. *)
Lemma replace_string_ok str c with_ : replace_string str c with_ = concat (substitute c with_ <$> str).
Proof. exact (replace_string_loop_ok (S (length str)) c with_ [] str (Nat.lt_succ_diag_r _)). Qed.

Lemma replace_char_loop_string fuel c x str index :
  replace_char_loop fuel c x str index = replace_string_loop fuel c [x] str index.
Proof. revert str index. induction fuel as [|fuel IH]; intros str [i|]; cbn; auto. Qed.

Lemma replace_char_ok str c x : replace_char str c x = (fun y => if y =? c then x else y) <$> str.
Proof.
  unfold replace_char. rewrite replace_char_loop_string. fold (replace_string str c [x]). rewrite replace_string_ok.
  induction str as [|y str IH]; [done|]. cbn [fmap list_fmap concat]. rewrite <- IH. unfold substitute. by destruct (y =? c).
Qed.

(** ** UTF-8 *)

(** The code point of a sequence, by the number of bytes. *)
Definition utf8_value (l : list Z) : option Z :=
  match l with
  | [a] => Some a
  | [a; b] => Some (a mod 32 * 64 + b mod 64)
  | [a; b; c] => Some ((a mod 16 * 64 + b mod 64) * 64 + c mod 64)
  | [a; b; c; d] => Some (((a mod 8 * 64 + b mod 64) * 64 + c mod 64) * 64 + d mod 64)
  | _ => None
  end.

(** A mark above the bits of a byte. *)
Lemma marked n m x : 0 <= n -> 0 <= x < 2 ^ n -> Z.lor (Z.shiftl m n) x mod 2 ^ n = x.
Proof. intros Hn Hx. rewrite lor_shiftl by lia. rewrite Z.add_comm, Z.mod_add by lia. apply Z.mod_small. lia. Qed.

Lemma trail_byte x : Z.lor 0x80 (Z.land x 0x3f) mod 64 = x mod 64.
Proof. rewrite land_63. apply (marked 6 2); [lia|]. apply (Z.mod_pos_bound x 64). lia. Qed.

Lemma lead_byte_2 x : Z.lor 0xc0 (Z.land x 0x1f) mod 32 = x mod 32.
Proof. change 0x1f with (Z.ones 5). rewrite Z.land_ones by lia. apply (marked 5 6); [lia|]. apply (Z.mod_pos_bound x 32). lia. Qed.

Lemma lead_byte_3 x : Z.lor 0xe0 (Z.land x 0xf) mod 16 = x mod 16.
Proof. change 0xf with (Z.ones 4). rewrite Z.land_ones by lia. apply (marked 4 14); [lia|]. apply (Z.mod_pos_bound x 16). lia. Qed.

Lemma lead_byte_4 x : Z.lor 0xf0 (Z.land x 0x7) mod 8 = x mod 8.
Proof. change 0x7 with (Z.ones 3). rewrite Z.land_ones by lia. apply (marked 3 30); [lia|]. apply (Z.mod_pos_bound x 8). lia. Qed.

Lemma toUtf8_ok c : 0 <= c <= 0x10ffff ->
  exists l, toUtf8 c = Ok l /\ utf8_value l = Some c /\ (zlen l = 1 <-> c < 128).
Proof.
  intros Hc. unfold toUtf8. rewrite ASSERT_true by (apply Z.leb_le; lia). eexists. split; [reflexivity|].
  destruct (Z.leb_spec c 0x7f); [change (zlen [c]) with 1; split; [done|lia]|].
  destruct (Z.leb_spec c 0x7ff); [|destruct (Z.leb_spec c 0xffff)]; (split; [|unfold zlen; cbn; lia]); unfold utf8_value;
    rewrite ?lead_byte_2, ?lead_byte_3, ?lead_byte_4, !trail_byte, !Z.shiftr_div_pow2 by lia; f_equal; Z.div_mod_to_equations; lia.
Qed.

(** Two surrogates make a code point outside the basic plane, each pair another. *)
Lemma toUtf32_ok hi lo : isHighSurrogate hi = true -> isLowSurrogate lo = true ->
  toUtf32 hi lo = Ok ((hi - 0xd800) * 1024 + (lo - 0xdc00) + 0x10000).
Proof.
  intros Hh Hl. unfold toUtf32. rewrite !ASSERT_true by done. unfold isHighSurrogate, isLowSurrogate in *.
  apply andb_true_iff in Hh as [?%Z.leb_le ?%Z.leb_le], Hl as [?%Z.leb_le ?%Z.leb_le]. by rewrite lor_shiftl by lia.
Qed.
