(* ===== verification/Transfer.v ===== *)
(** [streams/transfer.cpp] and [parallel_do] of [parallel.cpp]: copying one stream to another with two buffers. *)

From stdpp Require Import numbers list_numbers list.
From S2P Require Import Prelude Stream StreamMemory StreamFilters StreamProps BufferedProps.

(** ** [parallel_do] *)

(** [parallel_do] on two functions.  Without a scheduler they are called one after the other, and the second not at all when the first throws;
    with one each runs in a fiber of its own, both to their end, and the first exception in their order is thrown.  The two must
    work on different objects: then the order does not matter, see [parallel_do_any_order]. *)
Definition parallel_do {S A B} (scheduled : bool) (f : op S A) (g : op S B) : op S (A * B) :=
  if scheduled then fun s =>
    let '(ra, s1) := f s in
    let '(rb, s2) := g s1 in
    match ra, rb with
    | Ok a, Ok b => (Ok (a, b), s2)
    | Err e, _ => (Err e, s2)
    | Ok _, Err e => (Err e, s2)
    end
  else a ← f; b ← g; mret (a, b).

(** ** [transferStream] *)

Inductive ExactLength := INFER | EXACT | UNTILEOF.

#[global] Instance ExactLength_eq_dec : EqDecision ExactLength.
Proof. solve_decision. Defined.

Section Transfer.
Context {S D : Type} `{!Stream S} `{!Stream D}.

(** The value of the configuration variable, whether there is a scheduler, and whether [dst] is [NullStream::get()]. *)
Context (chunkSize : Z) (scheduled toNull : bool).

Definition on_src {A} (m : op S A) : op (S * D) A := zoom fst (fun s p => (s, snd p)) m.
Definition on_dst {A} (m : op D A) : op (S * D) A := zoom snd (fun d p => (fst p, d)) m.

Definition readOne (len : Z) : op (S * D) (list Z) := on_src (read len).

(** [while (buffer->readAvailable() > 0)]: what is left in the buffer. *)
Fixpoint writeOne (fuel : nat) (buffer : list Z) : op (S * D) (list Z) :=
  if 0 <? zlen buffer then
    match fuel with
    | O => lift (Err Diverges)
    | Datatypes.S fuel' =>
        result ← on_dst (write buffer);
        rest ← lift (buf_consume result buffer);
        writeOne fuel' rest
    end
  else mret buffer.

Definition todo (toTransfer totalRead : Z) : Z :=
  if u64 (toTransfer - totalRead) <? chunkSize then u64 (toTransfer - totalRead) else chunkSize.

(** The loop for a transfer to nowhere. *)
Fixpoint null_loop (fuel : nat) (toTransfer : Z) (exact : ExactLength) (totalRead : Z) : op (S * D) Z :=
  match fuel with
  | O => lift (Err Diverges)
  | Datatypes.S fuel' =>
      let n := todo toTransfer totalRead in
      if n =? 0 then mret totalRead
      else
        bs ← readOne n;
        let totalRead := u64 (totalRead + zlen bs) in
        if (zlen bs =? 0) && bool_decide (exact = EXACT) then raise unexpected_eof
        else if zlen bs =? 0 then mret totalRead
        else null_loop fuel' toTransfer exact totalRead
  end.

(** [readBuffer] and the other buffer change places in every round. *)
Fixpoint transfer_loop (fuel : nat) (toTransfer : Z) (exact : ExactLength) (totalRead : Z) (readBuffer otherBuffer : list Z)
    : op (S * D) Z :=
  if totalRead <? toTransfer then
    match fuel with
    | O => lift (Err Diverges)
    | Datatypes.S fuel' =>
        '(bs, rest) ← parallel_do scheduled (readOne (todo toTransfer totalRead)) (writeOne (length readBuffer) readBuffer);
        let totalRead := u64 (totalRead + zlen bs) in
        if (zlen bs =? 0) && bool_decide (exact = EXACT) && (totalRead <? toTransfer) then raise unexpected_eof
        else if zlen bs =? 0 then mret totalRead
        else transfer_loop fuel' toTransfer exact totalRead (otherBuffer ++ bs) rest
    end
  else writeOne (length readBuffer) readBuffer ≫= fun _ => mret totalRead.

Definition transferStream (fuel : nat) (toTransfer : Z) (exactLength : ExactLength) : op (S * D) Z :=
  method (fun p => check (supportsRead (fst p)) p) ≫= fun _ =>
  method (fun p => check (supportsWrite (snd p)) p) ≫= fun _ =>
  if toTransfer =? 0 then mret 0
  else
    let exact := if bool_decide (exactLength = INFER) then (if toTransfer =? npos then UNTILEOF else EXACT) else exactLength in
    bs ← readOne (todo toTransfer 0);
    if (zlen bs =? 0) && bool_decide (exact = EXACT) then raise unexpected_eof
    else if zlen bs =? 0 then mret 0
    else if toNull then null_loop fuel toTransfer exact (zlen bs)
    else transfer_loop fuel toTransfer exact (zlen bs) bs [].

End Transfer.

(** Functions on different members give the same in either order, whatever they return. *)
Lemma parallel_do_any_order {S D A B} (f : op S A) (g : op D B) (p : S * D) :
  let F := zoom fst (fun s p => (s, snd p)) f in
  let G := zoom snd (fun d p => (fst p, d)) g in
  (let '(ra, p1) := F p in let '(rb, p2) := G p1 in (ra, rb, p2)) = (let '(rb, p1) := G p in let '(ra, p2) := F p1 in (ra, rb, p2)).
Proof.
  destruct p as [s d]. unfold zoom. cbn [fst snd]. destruct (f s) as [ra s'] eqn:Ef. cbn [fst snd].
  destruct (g d) as [rb d']. cbn [fst snd]. by rewrite Ef.
Qed.

(** ** A source and a sink *)

Section TransferProps.
Context {S D : Type} `{Source S} `{Sink D}.
Context (chunkSize : Z) (scheduled : bool).
Context (Hchunk : 0 < chunkSize < 2 ^ 63).

Notation world := (S * D)%type.

Lemma readOne_ok n (p : world) : src_ok (fst p) -> 0 < n < 2 ^ 63 ->
  exists bs s', readOne n p = (Ok bs, (s', snd p)) /\ src_ok s' /\ src (fst p) = bs ++ src s' /\ zlen bs <= n /\ (bs = [] -> src (fst p) = []).
Proof.
  intros Hok Hn. destruct (src_read (fst p) n Hok Hn) as (bs & s' & E & R). exists bs, s'. split; [|done].
  unfold readOne, on_src, zoom. by rewrite E.
Qed.

(** A write threw [e]: of the data [l], which was to go to the sink [d], the first [k] bytes are there, and the call with a part of the
    next ones is the one that threw. *)
Definition write_threw (l : list Z) (d : D) (e : exn) (k : Z) (d' : D) : Prop :=
  0 <= k /\ exists d0 buffer, snk_ok d0 /\ snk d0 = snk d ++ ztake k l /\ 0 < zlen buffer /\ buffer `prefix_of` zdrop k l /\
    write buffer d0 = (throw e, d') /\ snk d' = snk d ++ ztake k l.

(** It is the same call for more data, and for data that began earlier. *)
Lemma write_threw_more l l' d e k d' : write_threw l d e k d' -> k <= zlen l -> write_threw (l ++ l') d e k d'.
Proof.
  intros (Hk & d0 & b & H1 & H2 & H3 & H4 & H5 & H6) Hl. split; [done |]. exists d0, b. rewrite ztake_app_le by lia.
  split_and!; auto. rewrite zdrop_app_le by lia. by apply prefix_app_r.
Qed.

Lemma write_threw_later pre l d1 d e k d' : snk d1 = snk d ++ pre -> write_threw l d1 e k d' -> write_threw (pre ++ l) d e (zlen pre + k) d'.
Proof.
  intros E (Hk & d0 & b & H1 & H2 & H3 & H4 & H5 & H6). pose proof (zlen_nonneg pre). split; [lia |]. exists d0, b.
  rewrite ztake_app_ge, zdrop_app_ge by lia. replace (zlen pre + k - zlen pre) with k by lia. rewrite E, <- app_assoc in H2, H6. split_and!; auto.
Qed.

(** All of the buffer is written, or an exception leaves a part of it written. *)
Lemma writeOne_ok fuel buffer (p : world) :
  snk_ok (snd p) -> zlen (snk (snd p)) + zlen buffer < 2 ^ 62 -> (length buffer <= fuel)%nat ->
  exists r d', writeOne fuel buffer p = (r, (fst p, d')) /\ snk_ok d' /\
    ((r = Ok [] /\ snk d' = snk (snd p) ++ buffer) \/
     (exists e k, r = throw e /\ write_threw buffer (snd p) e k d' /\ k <= zlen buffer)).
Proof.
  revert buffer p. induction fuel as [|fuel IH]; intros buffer [s d] Hok Hb Hf; cbn [fst snd] in *; pose proof (zlen_nonneg buffer).
  - assert (buffer = []) as -> by (destruct buffer; [done|cbn in Hf; lia]). exists (Ok []), d. split; [done|]. split; [done|]. left. by rewrite app_nil_r.
  - cbn [writeOne]. destruct (Z.ltb_spec 0 (zlen buffer)) as [Hpos|Hz].
    2:{ assert (buffer = []) as -> by (apply zlen_zero_inv; lia). exists (Ok []), d. split; [done|]. split; [done|]. left. by rewrite app_nil_r. }
    destruct (snk_write d buffer Hok Hpos Hb) as (r & d1 & E & Hok1 & Hcase).
    assert (E1 : on_dst (write buffer) (s, d) = (r, (s, d1))) by (unfold on_dst, zoom; cbn [snd fst]; by rewrite E).
    destruct Hcase as [(n & -> & Hn & Es)|(e & -> & Es)].
    + rewrite (bind_ok _ _ _ _ _ E1). unfold buf_consume. rewrite ASSERT_true by (apply Z.leb_le; lia).
      rewrite (bind_ok _ _ (s, d1) (zdrop n buffer) (s, d1)) by done.
      destruct (IH (zdrop n buffer) (s, d1) Hok1) as (r & d' & E2 & Hok' & Hcase).
      { cbn [snd]. rewrite Es, zlen_app, zlen_ztake, zlen_zdrop by lia. lia. }
      { unfold zdrop. rewrite length_drop. unfold zlen in Hn. lia. }
      exists r, d'. split; [exact E2|]. split; [done|]. cbn [snd] in Hcase. rewrite Es in Hcase.
      destruct Hcase as [[-> Ed]|(e & k & -> & Ed & Hk)]; [left; split; [done|]; by rewrite Ed, <- app_assoc, ztake_zdrop|right].
      rewrite zlen_zdrop in Hk by lia. exists e, (n + k). split_and!; [done| |lia].
      apply (write_threw_later (ztake n buffer) _ d1 d) in Ed; [|done]. rewrite ztake_zdrop, zlen_ztake, Z.min_l in Ed by lia. exact Ed.
    + rewrite (bind_err _ _ _ _ _ E1). eexists _, d1. split; [reflexivity|]. split; [done|]. right. exists e, 0.
      split_and!; [done| |lia]. split; [lia|]. exists d, buffer. change (ztake 0 buffer) with (@nil Z). rewrite app_nil_r, zdrop_0. by split_and!.
Qed.

(** [parallel_do] of a read that works and a write. *)
Lemma parallel_ok n buffer (p : world) bs s' r d' :
  readOne n p = (Ok bs, (s', snd p)) -> writeOne (length buffer) buffer (s', snd p) = (r, (s', d')) ->
  parallel_do scheduled (readOne n) (writeOne (length buffer) buffer) p =
    (match r with Ok rest => Ok (bs, rest) | Err e => Err e end, (s', d')).
Proof.
  intros E1 E2. unfold parallel_do. destruct scheduled.
  - rewrite E1, E2. by destruct r.
  - rewrite (bind_ok _ _ _ _ _ E1). destruct r; [by rewrite (bind_ok _ _ _ _ _ E2)|by rewrite (bind_err _ _ _ _ _ E2)].
Qed.

(** What a transfer comes to: an exception of the sink, after which a part of the data has been written in order; or all that was wanted and was there
    has been written, and either it was enough or the end of the source is reported. *)
Definition transferred (T total : Z) (exact : ExactLength) (pending : list Z) (p : world) (r : result Z) (p' : world) : Prop :=
  let body := ztake (T - total) (src (fst p)) in
  (exists e k, r = throw e /\ write_threw (pending ++ body) (snd p) e k (snd p')) \/
  (snk (snd p') = snk (snd p) ++ pending ++ body /\ src (fst p') = zdrop (T - total) (src (fst p)) /\
   r = if bool_decide (exact = EXACT) && (zlen (src (fst p)) <? T - total) then throw unexpected_eof
       else Ok (total + Z.min (T - total) (zlen (src (fst p))))).

Lemma todo_ok T total : 0 <= total -> total < T < 2 ^ 64 -> 0 < todo chunkSize T total <= T - total /\ todo chunkSize T total < 2 ^ 63.
Proof. intros Ht HT. unfold todo. rewrite u64_small by lia. destruct (Z.ltb_spec (T - total) chunkSize); lia. Qed.

Lemma ztake_cut {A} n (l k : list A) : zlen l <= n -> ztake n (l ++ k) = l ++ ztake (n - zlen l) k.
Proof. apply ztake_app_ge. Qed.

Lemma transfer_loop_ok fuel T exact : T < 2 ^ 64 -> forall total pending (p : world),
  src_ok (fst p) -> snk_ok (snd p) -> 0 <= total <= T ->
  zlen (snk (snd p)) + zlen pending + zlen (src (fst p)) < 2 ^ 62 -> (length (src (fst p)) < fuel)%nat ->
  exists r p', transfer_loop chunkSize scheduled fuel T exact total pending [] p = (r, p') /\ transferred T total exact pending p r p'.
Proof.
  intros HT. induction fuel as [|fuel IH]; intros total pending [s d] Hs Hd Ht Hb Hf; cbn [fst snd] in *; [lia|].
  cbn [transfer_loop]. pose proof (zlen_nonneg (src s)). pose proof (zlen_nonneg pending). destruct (Z.ltb_spec total T) as [Hlt|Hge].
  - destruct (todo_ok T total) as [Hn1 Hn2]; [lia|lia|]. set (n := todo chunkSize T total) in *.
    destruct (readOne_ok n (s, d) Hs ltac:(lia)) as (bs & s1 & E1 & Hs1 & Es & Hl & He). cbn [fst snd] in *.
    destruct (writeOne_ok (length pending) pending (s1, d)) as (r & d1 & E2 & Hd1 & Hcase); [done|cbn [snd]; lia|lia|]. cbn [fst snd] in *.
    pose proof (parallel_ok n pending (s, d) bs s1 r d1 E1 E2) as E3. unfold transferred. cbn [fst snd].
    destruct Hcase as [[-> Ed]|(e & k & -> & Ed & Hk)].
    2:{ rewrite (bind_err _ _ _ _ _ E3). eexists _, _. split; [reflexivity|]. left. exists e, k. split; [done|]. by apply write_threw_more. }
    rewrite (bind_ok _ _ _ _ _ E3). pose proof (zlen_nonneg bs). rewrite u64_small by lia. destruct (Z.eqb_spec (zlen bs) 0) as [E0|E0]; cbn [andb].
    + apply zlen_zero_inv in E0 as ->. specialize (He eq_refl). rewrite He in *. rewrite ztake_nil, zdrop_nil, !app_nil_r. change (zlen []) with 0 in *.
      rewrite Z.add_0_r, (proj2 (Z.ltb_lt total T)) by lia. rewrite (proj2 (Z.ltb_lt 0 (T - total))), !andb_true_r by lia.
      symmetry in Es. cbn in Es. destruct (bool_decide (exact = EXACT)); eexists _, _; (split; [reflexivity|]); right; cbn [fst snd]; split_and!; auto.
      f_equal. lia.
    + destruct (IH (total + zlen bs) bs (s1, d1)) as (r & p' & E4 & Htr); cbn [fst snd]; auto; [lia| | |].
      { rewrite Ed, zlen_app. rewrite Es, zlen_app in Hb. lia. }
      { rewrite Es, length_app in Hf. destruct bs; [done|]. cbn in Hf. lia. }
      exists r, p'. split; [exact E4|]. unfold transferred in Htr. cbn [fst snd] in Htr.
      assert (Ebody : ztake (T - total) (src s) = bs ++ ztake (T - (total + zlen bs)) (src s1)).
      { rewrite Es, ztake_app_ge by lia. do 2 f_equal. lia. }
      rewrite Ebody. assert (Edrop : zdrop (T - total) (src s) = zdrop (T - (total + zlen bs)) (src s1)).
      { rewrite Es, zdrop_app_ge by lia. f_equal. lia. }
      rewrite Edrop. assert (Elen : zlen (src s) = zlen bs + zlen (src s1)) by (rewrite Es; apply zlen_app).
      destruct Htr as [(e & k & -> & Ek)|(E5 & E6 & ->)]; [left|right].
      * exists e, (zlen pending + k). split; [done|]. exact (write_threw_later _ _ _ _ _ _ _ Ed Ek).
      * split; [by rewrite E5, Ed, <- !app_assoc|]. split; [done|]. rewrite Elen. replace (zlen (src s1) <? T - (total + zlen bs)) with (zlen bs + zlen (src s1) <? T - total).
        2:{ destruct (Z.ltb_spec (zlen bs + zlen (src s1)) (T - total)), (Z.ltb_spec (zlen (src s1)) (T - (total + zlen bs))); lia. }
        destruct (bool_decide (exact = EXACT)), (zlen bs + zlen (src s1) <? T - total); cbn [andb]; try reflexivity; f_equal; lia.
  - assert (total = T) as -> by lia.
    destruct (writeOne_ok (length pending) pending (s, d)) as (r & d1 & E2 & Hd1 & Hcase); [done|cbn [snd]; lia|lia|]. cbn [fst snd] in *.
    unfold transferred. cbn [fst snd]. rewrite Z.sub_diag. change (ztake 0 (src s)) with (@nil Z). rewrite app_nil_r, zdrop_0.
    destruct Hcase as [[-> Ed]|(e & k & -> & Ed & Hk)].
    + rewrite (bind_ok _ _ _ _ _ E2). eexists _, _. split; [reflexivity|]. right. cbn [fst snd]. split_and!; auto.
      rewrite (proj2 (Z.ltb_ge _ _)), andb_false_r by lia. f_equal. lia.
    + rewrite (bind_err _ _ _ _ _ E2). eexists _, _. split; [reflexivity|]. left. exists e, k. by split.
Qed.

(** The result of a transfer, from what the source holds. *)
Definition transfer_result (T total : Z) (exact : ExactLength) (l : list Z) : result Z :=
  if bool_decide (exact = EXACT) && (zlen l <? T - total) then throw unexpected_eof else Ok (total + Z.min (T - total) (zlen l)).

Lemma transfer_result_step T total exact bs l : 
  transfer_result T (total + zlen bs) exact l = transfer_result T total exact (bs ++ l).
Proof.
  unfold transfer_result. rewrite zlen_app.
  replace (zlen l <? T - (total + zlen bs)) with (zlen bs + zlen l <? T - total).
  2:{ destruct (Z.ltb_spec (zlen bs + zlen l) (T - total)), (Z.ltb_spec (zlen l) (T - (total + zlen bs))); lia. }
  destruct (bool_decide (exact = EXACT)), (zlen bs + zlen l <? T - total); cbn [andb]; try reflexivity; f_equal; lia.
Qed.

Lemma null_loop_ok fuel T exact : T < 2 ^ 64 -> forall total (p : world),
  src_ok (fst p) -> 0 <= total <= T -> (length (src (fst p)) < fuel)%nat ->
  exists s', null_loop chunkSize fuel T exact total p = (transfer_result T total exact (src (fst p)), (s', snd p)) /\
    src s' = zdrop (T - total) (src (fst p)).
Proof.
  intros HT. induction fuel as [|fuel IH]; intros total [s d] Hs Ht Hf; cbn [fst snd] in *; [lia|].
  cbn [null_loop]. pose proof (zlen_nonneg (src s)). destruct (decide (total = T)) as [-> |Hne].
  - assert (todo chunkSize T T = 0) as -> by (unfold todo; rewrite Z.sub_diag, u64_small, (proj2 (Z.ltb_lt 0 chunkSize)) by lia; done).
    exists s. unfold transfer_result. rewrite Z.sub_diag, zdrop_0, (proj2 (Z.ltb_ge _ _)), andb_false_r by lia. split; [|done].
    cbn. unfold mret, op_ret. do 2 f_equal. lia.
  - destruct (todo_ok T total) as [Hn1 Hn2]; [lia|lia|]. set (n := todo chunkSize T total) in *. rewrite (proj2 (Z.eqb_neq n 0)) by lia.
    destruct (readOne_ok n (s, d) Hs ltac:(lia)) as (bs & s1 & E1 & Hs1 & Es & Hl & He). cbn [fst snd] in *.
    rewrite (bind_ok _ _ _ _ _ E1). pose proof (zlen_nonneg bs). rewrite u64_small by lia. destruct (Z.eqb_spec (zlen bs) 0) as [E0|E0]; cbn [andb].
    + apply zlen_zero_inv in E0 as ->. specialize (He eq_refl). rewrite He in *. symmetry in Es. cbn in Es. exists s1. rewrite Es, zdrop_nil.
      unfold transfer_result. change (zlen []) with 0. rewrite (proj2 (Z.ltb_lt 0 (T - total))), andb_true_r by lia. split; [|done].
      destruct (bool_decide (exact = EXACT)); [done|]. unfold mret, op_ret. do 2 f_equal. lia.
    + destruct (IH (total + zlen bs) (s1, d)) as (s' & E4 & Es'); cbn [fst snd]; auto; [lia| |].
      { rewrite Es, length_app in Hf. destruct bs; [done|]. cbn in Hf. lia. }
      exists s'. cbn [fst snd] in *. rewrite E4, transfer_result_step, <- Es. split; [done|]. rewrite Es', Es, zdrop_app_ge by lia. f_equal. lia.
Qed.

(** [INFER] resolved. *)
Definition effective (T : Z) (exactLength : ExactLength) : ExactLength :=
  if bool_decide (exactLength = INFER) then (if T =? npos then UNTILEOF else EXACT) else exactLength.

(** The first read, after which both ways go on. *)
Lemma transfer_first toNull fuel T exactLength (p : world) :
  src_ok (fst p) -> supportsRead (fst p) = true -> supportsWrite (snd p) = true -> 0 < T < 2 ^ 64 ->
  exists bs s1, src_ok s1 /\ src (fst p) = bs ++ src s1 /\ zlen bs <= T /\ (bs = [] -> src (fst p) = []) /\
    transferStream chunkSize scheduled toNull fuel T exactLength p =
      if zlen bs =? 0 then (transfer_result T 0 (effective T exactLength) (src (fst p)), (s1, snd p))
      else (if toNull then null_loop chunkSize fuel T (effective T exactLength) (zlen bs)
            else transfer_loop chunkSize scheduled fuel T (effective T exactLength) (zlen bs) bs []) (s1, snd p).
Proof.
  intros Hs Hr Hw HT. destruct p as [s d]. cbn [fst snd] in *. unfold transferStream.
  rewrite (bind_ok _ _ (s, d) tt (s, d)) by (unfold method, check, lift; cbn [fst]; by rewrite Hr).
  rewrite (bind_ok _ _ (s, d) tt (s, d)) by (unfold method, check, lift; cbn [snd]; by rewrite Hw).
  rewrite (proj2 (Z.eqb_neq T 0)) by lia. fold (effective T exactLength). set (exact := effective T exactLength).
  destruct (todo_ok T 0) as [Hn1 Hn2]; [lia|lia|]. destruct (readOne_ok (todo chunkSize T 0) (s, d) Hs ltac:(lia)) as (bs & s1 & E1 & Hs1 & Es & Hl & He).
  cbn [fst snd] in *. exists bs, s1. rewrite (bind_ok _ _ _ _ _ E1). split_and!; auto; [lia|].
  destruct (Z.eqb_spec (zlen bs) 0) as [E0|E0]; cbn [andb]; [|done]. apply zlen_zero_inv in E0 as ->. rewrite He by done.
  unfold transfer_result. change (zlen []) with 0. rewrite (proj2 (Z.ltb_lt 0 (T - 0))), andb_true_r by lia.
  destruct (bool_decide (exact = EXACT)); [done|]. unfold mret, op_ret. do 2 f_equal. lia.
Qed.

End TransferProps.

(** C37 -- transferStream copies, from a source whose reads do not throw: whatever the sizes of the reads and writes and with or without a scheduler, either
    the destination gets the first [toTransfer] bytes of the source, or all of them if there are fewer, in order and once each, and the number
    returned is how many, or [UnexpectedEofException] is thrown, exactly when an exact transfer comes up short; or a write of the destination threw, the
    same exception comes out, and the destination has the bytes before those of that write, in order and once each. *)
Theorem transfer_spec {S D} `{Source S} `{Sink D} chunkSize scheduled T exactLength (s : S) (d : D) :
  0 < chunkSize < 2 ^ 63 -> src_ok s -> snk_ok d -> supportsRead s = true -> supportsWrite d = true -> 0 <= T < 2 ^ 64 ->
  zlen (snk d) + zlen (src s) < 2 ^ 62 ->
  exists r s' d', transferStream chunkSize scheduled false (Datatypes.S (length (src s))) T exactLength (s, d) = (r, (s', d')) /\
    ((exists e k, r = throw e /\ write_threw (ztake T (src s)) d e k d') \/
     (snk d' = snk d ++ ztake T (src s) /\ src s' = zdrop T (src s) /\
      r = if bool_decide (effective T exactLength = EXACT) && (zlen (src s) <? T) then throw unexpected_eof
          else Ok (Z.min T (zlen (src s))))).
Proof.
  intros Hc Hs Hd Hr Hw HT Hb. destruct (decide (T = 0)) as [-> |Hne].
  { exists (Ok 0), s, d. split.
    - unfold transferStream, method, check, lift, mbind, op_bind. cbn [fst snd]. by rewrite Hr, Hw.
    - right. change (ztake 0 (src s)) with (@nil Z). rewrite app_nil_r, zdrop_0. pose proof (zlen_nonneg (src s)).
      rewrite (proj2 (Z.ltb_ge _ _)), andb_false_r by lia. split_and!; auto. f_equal. lia. }
  destruct (transfer_first chunkSize scheduled Hc false (Datatypes.S (length (src s))) T exactLength (s, d)) as (bs & s1 & Hs1 & Es & Hl & He & E); auto; [cbn; lia|].
  cbn [fst snd] in *. rewrite E. pose proof (zlen_nonneg bs). pose proof (zlen_nonneg (src s1)).
  assert (Hres : forall l, transfer_result T 0 (effective T exactLength) l =
    if bool_decide (effective T exactLength = EXACT) && (zlen l <? T) then throw unexpected_eof else Ok (Z.min T (zlen l))).
  { intros l. unfold transfer_result. by rewrite Z.sub_0_r, Z.add_0_l. }
  destruct (Z.eqb_spec (zlen bs) 0) as [E0|E0].
  - eexists _, _, _. split; [reflexivity|]. right. apply zlen_zero_inv in E0 as ->. rewrite He in * by done. symmetry in Es. cbn in Es.
    rewrite Es, ztake_nil, zdrop_nil, app_nil_r. split_and!; auto.
  - destruct (transfer_loop_ok chunkSize scheduled Hc (Datatypes.S (length (src s))) T (effective T exactLength) ltac:(lia) (zlen bs) bs (s1, d))
      as (r & [s' d'] & E4 & Htr); cbn [fst snd]; auto; [rewrite Es, zlen_app in Hb; lia|rewrite Es, length_app; lia|].
    exists r, s', d'. split; [exact E4|]. unfold transferred in Htr. cbn [fst snd] in Htr. rewrite Es, ztake_app_ge, zdrop_app_ge by lia.
    destruct Htr as [?|(E5 & E6 & E7)]; [by left|right]. split_and!; [exact E5|exact E6|]. rewrite <- Hres. 
    rewrite <- (transfer_result_step T 0). exact E7.
Qed.

(** To [NullStream] the same is read and the same returned, and nothing is written. *)
Lemma transfer_null_ok {S D} `{Source S} `{Sink D} chunkSize scheduled T exactLength (s : S) (d : D) :
  0 < chunkSize < 2 ^ 63 -> src_ok s -> supportsRead s = true -> supportsWrite d = true -> 0 < T < 2 ^ 64 ->
  exists s', transferStream chunkSize scheduled true (Datatypes.S (length (src s))) T exactLength (s, d) =
      (transfer_result T 0 (effective T exactLength) (src s), (s', d)) /\ src s' = zdrop T (src s).
Proof.
  intros Hc Hs Hr Hw HT.
  destruct (transfer_first chunkSize scheduled Hc true (Datatypes.S (length (src s))) T exactLength (s, d)) as (bs & s1 & Hs1 & Es & Hl & He & E); auto.
  cbn [fst snd] in *. rewrite E. pose proof (zlen_nonneg bs). destruct (Z.eqb_spec (zlen bs) 0) as [E0|E0].
  - exists s1. split; [done|]. apply zlen_zero_inv in E0 as ->. rewrite He in * by done. symmetry in Es. cbn in Es. by rewrite Es, zdrop_nil.
  - destruct (null_loop_ok chunkSize Hc (Datatypes.S (length (src s))) T (effective T exactLength) ltac:(lia) (zlen bs) (s1, d))
      as (s' & E4 & Es'); cbn [fst snd]; auto; [rewrite Es, length_app; lia|]. exists s'. cbn [fst snd] in *. split.
    + rewrite E4. f_equal. rewrite Es. apply (transfer_result_step T 0).
    + rewrite Es', Es, zdrop_app_ge by lia. done.
Qed.

Lemma transfer_witness :
  exists r s' d', transferStream 2 true false 6 4 INFER (hello, MemoryStream_new) = (r, (s', d')) /\
    snk d' = [104; 101; 108; 108] /\ src s' = [111] /\ r = Ok 4.
Proof.
  destruct (transfer_spec 2 true 4 INFER hello MemoryStream_new) as (r & s' & d' & E & _);
    [lia|exact hello_ok|split; [repeat split; done|done]|done|done|lia|vm_compute; reflexivity|].
  exists r, s', d'. split; [exact E|]. vm_compute in E. injection E as <- <- <-. repeat split.
Defined.
