(* ===== verification/FiberCore.v ===== *)
(** [fiber.h] and [fiber.cpp]: fibers, the contexts they leave behind when they switch, and the threads they run on.
    [switchContext] splits a method in two: the part before the switch saves where the fiber will go on, the part after
    it runs when somebody switches back, on any thread.  Between two switches a thread is not interrupted. *)

From stdpp Require Import functions numbers list_numbers list.
From S2P Require Import Prelude.

(** ** Data *)

Definition fid : Type := nat.
Definition tid : Type := nat.

Inductive State := INIT | HOLD | EXEC | EXCEPT | TERM.

#[global] Instance State_eq_dec : EqDecision State.
Proof. solve_decision. Defined.

(** Where a fiber goes on: at its entry point, or after the call of [switchContext] in [call] of a fiber, in [yield],
    in [yieldTo] or in [exitPoint]. *)
Inductive context := AtEntry | InCall (child : fid) | InYield | InYieldTo (targetState : State) | InExit.

#[global] Instance context_eq_dec : EqDecision context.
Proof. solve_decision. Defined.

(** [m_ctx] is absent while the fiber is on a thread; [m_live] says that it has not been destroyed. *)
Record Fiber := mkFiber {
  m_live : bool;
  m_dg : bool;
  m_stack : bool;
  m_stacksize : Z;
  m_ctx : option context;
  m_state : State;
  m_yielderNextState : State;
  m_outer : option fid;
  m_yielder : option fid;
  m_terminateOuter : option fid;
  m_exception : option Z;
  m_fls : list Z;
}.

Definition no_fiber : Fiber := mkFiber false false false 0 None TERM HOLD None None None None [].

Definition set_dg (b : bool) (F : Fiber) : Fiber :=
  mkFiber (m_live F) b (m_stack F) (m_stacksize F) (m_ctx F) (m_state F) (m_yielderNextState F) (m_outer F) (m_yielder F) (m_terminateOuter F) (m_exception F) (m_fls F).
Definition set_ctx (c : option context) (F : Fiber) : Fiber :=
  mkFiber (m_live F) (m_dg F) (m_stack F) (m_stacksize F) c (m_state F) (m_yielderNextState F) (m_outer F) (m_yielder F) (m_terminateOuter F) (m_exception F) (m_fls F).
Definition set_state (s : State) (F : Fiber) : Fiber :=
  mkFiber (m_live F) (m_dg F) (m_stack F) (m_stacksize F) (m_ctx F) s (m_yielderNextState F) (m_outer F) (m_yielder F) (m_terminateOuter F) (m_exception F) (m_fls F).
Definition set_outer (o : option fid) (F : Fiber) : Fiber :=
  mkFiber (m_live F) (m_dg F) (m_stack F) (m_stacksize F) (m_ctx F) (m_state F) (m_yielderNextState F) o (m_yielder F) (m_terminateOuter F) (m_exception F) (m_fls F).
(** [m_yielder] and [m_yielderNextState] are always set together. *)
Definition set_yielder (y : option fid) (s : State) (F : Fiber) : Fiber :=
  mkFiber (m_live F) (m_dg F) (m_stack F) (m_stacksize F) (m_ctx F) (m_state F) s (m_outer F) y (m_terminateOuter F) (m_exception F) (m_fls F).
Definition reset_yielder (F : Fiber) : Fiber := set_yielder None (m_yielderNextState F) F.
Definition set_terminateOuter (o : option fid) (F : Fiber) : Fiber :=
  mkFiber (m_live F) (m_dg F) (m_stack F) (m_stacksize F) (m_ctx F) (m_state F) (m_yielderNextState F) (m_outer F) (m_yielder F) o (m_exception F) (m_fls F).
Definition set_exception (e : option Z) (F : Fiber) : Fiber :=
  mkFiber (m_live F) (m_dg F) (m_stack F) (m_stacksize F) (m_ctx F) (m_state F) (m_yielderNextState F) (m_outer F) (m_yielder F) (m_terminateOuter F) e (m_fls F).
Definition set_fls (l : list Z) (F : Fiber) : Fiber :=
  mkFiber (m_live F) (m_dg F) (m_stack F) (m_stacksize F) (m_ctx F) (m_state F) (m_yielderNextState F) (m_outer F) (m_yielder F) (m_terminateOuter F) (m_exception F) l.

(** A thread runs the code of its fiber, or has just switched to a fiber that goes on in a context. *)
Inductive phase := Run | Resume (c : context).

(** [th_fiber] is [t_fiber]; [th_stack] is the fiber whose stack the thread is on.  They differ for a moment in
    [yield] and [exitPoint], where the caller sets [t_fiber] after the switch. *)
Record thread := mkThread { th_fiber : option fid; th_stack : option fid; th_phase : phase }.

Definition no_thread : thread := mkThread None None Run.

Record world := mkWorld { fib : fid -> Fiber; thr : tid -> thread; next : fid }.

Definition world_new : world := mkWorld (fun _ => no_fiber) (fun _ => no_thread) 0%nat.

Definition upd (f : fid) (g : Fiber -> Fiber) (w : world) : world := mkWorld (<[f := g (fib w f)]> (fib w)) (thr w) (next w).
Definition put (t : tid) (th : thread) (w : world) : world := mkWorld (fib w) (<[t := th]> (thr w)) (next w).
(** A new fiber. *)
Definition add (F : Fiber) (w : world) : world := mkWorld (<[next w := F]> (fib w)) (thr w) (S (next w)).

Definition setThis (t : tid) (f : option fid) (w : world) : world :=
  put t (mkThread f (th_stack (thr w t)) (th_phase (thr w t))) w.

(** [m_state == HOLD || m_state == INIT] and [m_state == TERM || m_state == INIT || m_state == EXCEPT] *)
Definition may_enter (s : State) : bool := bool_decide (s = HOLD) || bool_decide (s = INIT).
Definition at_rest (s : State) : bool := bool_decide (s = TERM) || bool_decide (s = INIT) || bool_decide (s = EXCEPT).

(** ** Creation *)

Section Stacks.
Context (g_pagesize g_defaultStackSize : Z).

(** [stacksize += g_pagesize - 1; stacksize -= stacksize % g_pagesize] in [size_t], then the default of [allocStack]. *)
Definition round_stacksize (stacksize : Z) : Z :=
  let stacksize := u64 (stacksize + (g_pagesize - 1)) in
  u64 (stacksize - stacksize mod g_pagesize).
Definition allocStack (stacksize : Z) : Z := if stacksize =? 0 then g_defaultStackSize else stacksize.

Definition Fiber_new (stacksize : Z) : Fiber :=
  mkFiber true true true (allocStack (round_stacksize stacksize)) (Some AtEntry) INIT HOLD None None None None [].
End Stacks.

(** The fiber of a thread's own stack. *)
Definition Fiber_thread : Fiber := mkFiber true false false 0 None EXEC HOLD None None None None [].

Definition getThis (t : tid) (w : world) : fid * world :=
  match th_fiber (thr w t) with
  | Some f => (f, w)
  | None => (next w, put t (mkThread (Some (next w)) (Some (next w)) Run) (add Fiber_thread w))
  end.

(** [initStack] makes the context start at [entryPoint]. *)
Definition initStack (F : Fiber) : Fiber := set_ctx (Some AtEntry) F.

(** [dg] says whether the function is not null. *)
Definition Fiber_reset (f : fid) (dg : bool) (w : world) : result world :=
  assert: m_stack (fib w f) ;;
  assert: at_rest (m_state (fib w f)) ;;
  Ok (upd f (fun F => set_state INIT (initStack (set_dg dg (set_exception None F)))) w).

(** The destructor, on the thread [t]. *)
Definition Fiber_destroy (t : tid) (f : fid) (w : world) : result world :=
  if negb (m_stack (fib w f)) then
    assert: negb (m_dg (fib w f)) ;;
    assert: bool_decide (m_state (fib w f) = EXEC) ;;
    let w' := upd f (fun _ => no_fiber) w in
    Ok (if bool_decide (th_fiber (thr w t) = Some f) then put t no_thread w' else w')
  else
    assert: at_rest (m_state (fib w f)) ;;
    Ok (upd f (fun _ => no_fiber) w).

(** ** Switching *)

(** [from->switchContext(to)] with what [from] will do next: only a saved context can be entered. *)
Definition switchContext (t : tid) (from : fid) (c : context) (to : fid) (w : world) : result world :=
  match m_ctx (fib w to) with
  | None => Err Undefined
  | Some c' =>
      let w := upd from (set_ctx (Some c)) w in
      let w := upd to (set_ctx None) w in
      Ok (put t (mkThread (th_fiber (thr w t)) (Some to) (Resume c')) w)
  end.

Definition Fiber_call (t : tid) (f : fid) (w : world) : result world :=
  assert: bool_decide (m_outer (fib w f) = None) ;;
  let '(cur, w) := getThis t w in
  assert: may_enter (m_state (fib w f)) ;;
  assert: negb (cur =? f)%nat ;;
  let w := setThis t (Some f) w in
  let w := upd f (set_outer (Some cur)) w in
  let w := upd f (fun F => set_state (if m_exception F then EXCEPT else EXEC) F) w in
  switchContext t cur (InCall f) f w.

Definition Fiber_inject (t : tid) (f : fid) (e : Z) (w : world) : result world :=
  Fiber_call t f (upd f (set_exception (Some e)) w).

Definition Fiber_yield (t : tid) (w : world) : result world :=
  let '(cur, w) := getThis t w in
  assert: bool_decide (m_state (fib w cur) = EXEC) ;;
  match m_outer (fib w cur) with
  | None => Err Assertion
  | Some outer => switchContext t cur InYield outer (upd outer (set_yielder (Some cur) HOLD) w)
  end.

(** [while (outer) { previous = outer; outer = outer->m_outer; }] *)
Fixpoint outermost (fuel : nat) (w : world) (f : fid) : result fid :=
  match fuel with
  | O => Err Diverges
  | S fuel => match m_outer (fib w f) with None => Ok f | Some o => outermost fuel w o end
  end.

Definition Fiber_yieldTo (t : tid) (f : fid) (yieldToCallerOnTerminate : bool) (targetState : State) (w : world) : result world :=
  assert: may_enter (m_state (fib w f)) ;;
  assert: bool_decide (targetState ∈ [HOLD; TERM; EXCEPT]) ;;
  let '(cur, w) := getThis t w in
  let w := setThis t (Some f) w in
  w ← (if yieldToCallerOnTerminate
       then previous ← outermost (S (next w)) w f; Ok (upd previous (set_terminateOuter (Some cur)) w)
       else Ok w);
  let w := upd f (set_state EXEC) w in
  let w := upd f (set_yielder (Some cur) targetState) w in
  switchContext t cur (InYieldTo targetState) f w.

Definition exitPoint (t : tid) (cur : fid) (targetState : State) (w : world) : result world :=
  let terminateOuter := o ← m_terminateOuter (fib w cur); if m_live (fib w o) then Some o else None in
  let '(outer, yields) :=
    match terminateOuter, m_outer (fib w cur) with
    | Some o, None => (Some o, true)
    | _, o => (o, false)
    end in
  match outer with
  | None => Err Assertion
  | Some outer =>
      assert: negb (outer =? cur)%nat ;;
      let w := upd outer (set_yielder (Some cur) targetState) w in
      if yields : bool then Fiber_yieldTo t outer false targetState w else switchContext t cur InExit outer w
  end.

(** The function of the fiber returns, or lets an exception out. *)
Definition Fiber_return (t : tid) (cur : fid) (w : world) : result world :=
  exitPoint t cur TERM (upd cur (set_dg false) w).
Definition Fiber_throw (t : tid) (cur : fid) (e : Z) (w : world) : result world :=
  exitPoint t cur EXCEPT (upd cur (set_exception (Some e)) w).

(** ** Going on after a switch *)

(** What the code of the fiber sees: it goes on, possibly told who yielded, or an exception is thrown in it; [Left]
    is an entry point that throws at once and has already switched away. *)
Inductive delivery := Normal (yielder : option fid) | Raises (e : Z) | Left.

Definition running_on (t : tid) (w : world) : world :=
  put t (mkThread (th_fiber (thr w t)) (th_stack (thr w t)) Run) w.

(** [m_yielder->m_state = m_yielderNextState; m_yielder.reset()] *)
Definition settle (cur y : fid) (w : world) : world :=
  upd cur reset_yielder (upd y (set_state (m_yielderNextState (fib w cur))) w).

Definition settle_yielder (cur : fid) (w : world) : world :=
  match m_yielder (fib w cur) with Some y => settle cur y w | None => w end.

(** [if (m_state == EXCEPT) rethrow] and [MORDOR_ASSERT(m_state == EXEC)] *)
Definition check_exception (cur : fid) (w : world) : result delivery :=
  if bool_decide (m_state (fib w cur) = EXCEPT)
  then match m_exception (fib w cur) with Some e => Ok (Raises e) | None => Err Assertion end
  else assert: bool_decide (m_state (fib w cur) = EXEC) ;; Ok (Normal None).

Definition call_resumed (t : tid) (cur child : fid) (w : world) : result (delivery * world) :=
  let w := setThis t (Some cur) w in
  match m_yielder (fib w cur) with
  | None => Err Assertion
  | Some y =>
      let w := upd child (set_outer None) w in
      assert: (y =? child)%nat ;;
      let w := settle cur y w in
      match m_state (fib w y), m_exception (fib w y) with
      | EXCEPT, Some e => Ok (Raises e, w)
      | _, _ => assert: bool_decide (m_state (fib w cur) = EXEC) ;; Ok (Normal None, w)
      end
  end.

Definition yield_resumed (cur : fid) (w : world) : result (delivery * world) :=
  let w := settle_yielder cur w in
  d ← check_exception cur w; Ok (d, w).

Definition yieldTo_resumed (t : tid) (cur : fid) (targetState : State) (w : world) : result (delivery * world) :=
  assert: negb (bool_decide (targetState = TERM)) ;;
  let w := setThis t (Some cur) w in
  match m_yielder (fib w cur) with
  | Some y =>
      let w := settle cur y w in
      match m_exception (fib w y) with Some e => Ok (Raises e, w) | None => Ok (Normal (Some y), w) end
  | None => d ← check_exception cur w; Ok (d, w)
  end.

(** [entryPoint] up to the call of the function: an injected exception ends the fiber at once. *)
Definition entryPoint (t : tid) (w : world) : result (delivery * world) :=
  let '(cur, w) := getThis t w in
  let w := settle_yielder cur w in
  assert: m_dg (fib w cur) ;;
  d ← check_exception cur w;
  match d with
  | Raises e => w ← exitPoint t cur EXCEPT w; Ok (Left, w)
  | d => Ok (d, running_on t w)
  end.

Definition resume (t : tid) (w : world) : result (delivery * world) :=
  match th_stack (thr w t), th_phase (thr w t) with
  | Some cur, Resume AtEntry => entryPoint t w
  | Some cur, Resume (InCall child) => '(d, w) ← call_resumed t cur child w; Ok (d, running_on t w)
  | Some cur, Resume InYield => '(d, w) ← yield_resumed cur w; Ok (d, running_on t w)
  | Some cur, Resume (InYieldTo s) => '(d, w) ← yieldTo_resumed t cur s w; Ok (d, running_on t w)
  | _, _ => Err Assertion
  end.

(** ** Fiber-local storage *)

(** [std::vector::resize]: new elements are zero. *)
Definition resize {A} (d : A) (n : nat) (l : list A) : list A := take n l ++ replicate (n - length l) d.

(** [g_flsIndices]: the result of the search for a free index is overwritten, so that a new index is always taken. *)
Definition flsAlloc (indices : list bool) : nat * list bool :=
  let indices := resize false (length indices + 1) indices in
  (length indices - 1, <[length indices - 1 := true]> indices)%nat.

Definition flsFree (key : nat) (indices : list bool) : result (list bool) :=
  assert: (key <? length indices)%nat ;;
  assert: bool_decide (indices !! key = Some true) ;;
  if (key + 1 =? length indices)%nat then Ok (resize false key indices) else Ok (<[key := false]> indices).

(** On the current fiber. *)
Definition flsSet (key : nat) (value : Z) (F : Fiber) : Fiber :=
  let fls := if (length (m_fls F) <=? key)%nat then resize 0 (key + 1) (m_fls F) else m_fls F in
  set_fls (<[key := value]> fls) F.

Definition flsGet (key : nat) (F : Fiber) : Z :=
  if (length (m_fls F) <=? key)%nat then 0 else default 0 (m_fls F !! key).

(** ** What threads do *)

Inductive action :=
| GetThis
| New (pagesize defaultSize stacksize : Z)
| Call (f : fid)
| Inject (f : fid) (e : Z)
| Yield
| YieldTo (f : fid) (yieldToCallerOnTerminate : bool)
| Return
| Throw (e : Z)
| Reset (f : fid) (dg : bool)
| Destroy (f : fid).

(** [Return] and [Throw] leave the function of the fiber, which the fiber of a thread does not have. *)
Definition leave (t : tid) (w : world) (k : fid -> result world) : result world :=
  match th_stack (thr w t) with
  | Some cur => if m_stack (fib w cur) then k cur else Err Assertion
  | None => Err Assertion
  end.

Definition act (t : tid) (a : action) (w : world) : result world :=
  match a with
  | GetThis => Ok (snd (getThis t w))
  | New p d s => Ok (add (Fiber_new p d s) w)
  | Call f => Fiber_call t f w
  | Inject f e => Fiber_inject t f e w
  | Yield => Fiber_yield t w
  | YieldTo f b => Fiber_yieldTo t f b HOLD w
  | Return => leave t w (fun cur => Fiber_return t cur w)
  | Throw e => leave t w (fun cur => Fiber_throw t cur e w)
  | Reset f dg => Fiber_reset f dg w
  | Destroy f => Fiber_destroy t f w
  end.

(** No thread but [t] is on the stack of [f], and no fiber refers to it. *)
Definition unused (t : tid) (f : fid) (w : world) : Prop :=
  (forall t', t' <> t -> th_stack (thr w t') <> Some f) /\
  (forall x, m_outer (fib w x) <> Some f /\ m_yielder (fib w x) <> Some f) /\
  m_outer (fib w f) = None.

(** What the caller of a method has to respect beyond what the method checks: a fiber is destroyed when the last
    reference to it goes, and a fiber that handles an injected exception, which is in the state [EXCEPT] like one that
    ended with an exception, is not reset or destroyed while it does. *)
Definition permitted (t : tid) (a : action) (w : world) : Prop :=
  match a with
  | Reset f _ => m_state (fib w f) = EXCEPT -> unused t f w /\ th_stack (thr w t) <> Some f
  | Destroy f => unused t f w /\ (m_stack (fib w f) = true -> th_stack (thr w t) <> Some f)
  | _ => True
  end.

Inductive step (w : world) : world -> Prop :=
| step_act t a w' : th_phase (thr w t) = Run -> permitted t a w -> act t a w = Ok w' -> step w w'
| step_resume t d w' : resume t w = Ok (d, w') -> step w w'.

Inductive reachable : world -> Prop :=
| reachable_new : reachable world_new
| reachable_step w w' : reachable w -> step w w' -> reachable w'.
