(* ===== verification/FiberCoreInv.v ===== *)
(** What holds of the fibers and threads at every moment: who is on which stack, which contexts are saved, and how the
    fibers refer to each other. *)

From stdpp Require Import functions sets numbers list_numbers list.
From S2P Require Import Prelude FiberCore.

Open Scope nat_scope.

(** ** The invariant *)

Definition active (s : State) : Prop := s = EXEC \/ s = EXCEPT.

(** The fiber [y] has switched away and its new state [s] is about to be stored. *)
Definition pending (w : world) (y : fid) (s : State) : Prop :=
  active (m_state (fib w y)) /\
  match m_ctx (fib w y) with
  | Some InYield => s = HOLD
  | Some (InYieldTo s') => s = s' /\ s' ∈ [HOLD; TERM; EXCEPT]
  | Some InExit => s = TERM \/ s = EXCEPT
  | _ => False
  end.

(** The fiber [x] goes on in the context [c] on the thread [t]. *)
Definition resumable (w : world) (t : tid) (x : fid) (c : context) : Prop :=
  match c with
  | InCall child => m_yielder (fib w x) = Some child /\ m_outer (fib w child) = Some x
  | InExit => False
  | AtEntry | InYield => th_fiber (thr w t) = Some x /\ (m_state (fib w x) = EXCEPT -> m_exception (fib w x) <> None /\ m_outer (fib w x) <> None)
  | InYieldTo s => s = HOLD /\ th_fiber (thr w t) = Some x /\ (m_state (fib w x) = EXCEPT -> m_exception (fib w x) <> None /\ m_outer (fib w x) <> None)
  end.

Definition blank (F : Fiber) : Prop :=
  m_live F = false /\ m_ctx F = None /\ m_state F = TERM /\ m_outer F = None /\ m_yielder F = None.

Record Inv (w : world) : Prop := mkInv {
  inv_new : forall x, next w <= x -> blank (fib w x);
  inv_one : forall t t' x, th_stack (thr w t) = Some x -> th_stack (thr w t') = Some x -> t = t';
  inv_on : forall t x, th_stack (thr w t) = Some x ->
    m_live (fib w x) = true /\ m_ctx (fib w x) = None /\ active (m_state (fib w x));
  inv_live : forall x c, m_ctx (fib w x) = Some c -> m_live (fib w x) = true;
  inv_stack : forall x, m_stack (fib w x) = true -> m_live (fib w x) = true;
  inv_run : forall t, th_phase (thr w t) = Run -> th_fiber (thr w t) = th_stack (thr w t);
  inv_resume : forall t c, th_phase (thr w t) = Resume c ->
    exists x, th_stack (thr w t) = Some x /\ resumable w t x c;
  inv_yielder : forall x y, m_yielder (fib w x) = Some y ->
    pending w y (m_yielderNextState (fib w x)) /\
    (m_outer (fib w y) = None \/ m_outer (fib w y) = Some x \/ m_yielderNextState (fib w x) = HOLD) /\
    exists t c, th_stack (thr w t) = Some x /\ th_phase (thr w t) = Resume c;
  inv_yielder_one : forall x x' y, m_yielder (fib w x) = Some y -> m_yielder (fib w x') = Some y -> x = x';
  inv_init : forall x, m_state (fib w x) = INIT -> m_ctx (fib w x) = Some AtEntry;
  inv_hold : forall x, m_state (fib w x) = HOLD -> m_ctx (fib w x) ∈ [Some InYield; Some (InYieldTo HOLD)];
  inv_call : forall x ch, m_ctx (fib w x) = Some (InCall ch) -> m_outer (fib w ch) = Some x /\ active (m_state (fib w x));
  inv_outer : forall x o, m_outer (fib w x) = Some o ->
    m_state (fib w x) ∈ [EXEC; EXCEPT; HOLD] /\
    (m_ctx (fib w o) = Some (InCall x) \/
     exists t, th_stack (thr w t) = Some o /\ th_phase (thr w t) = Resume (InCall x));
  inv_rank : exists rank : fid -> nat, forall x o, m_outer (fib w x) = Some o -> rank o < rank x;
}.

(** ** Worlds that differ in fields the invariant does not speak of *)

Definition like (F G : Fiber) : Prop :=
  m_live F = m_live G /\ m_stack F = m_stack G /\ m_ctx F = m_ctx G /\ m_state F = m_state G /\ m_yielderNextState F = m_yielderNextState G /\
  m_outer F = m_outer G /\ m_yielder F = m_yielder G /\ (m_exception F <> None -> m_exception G <> None).

Lemma like_refl F : like F F.
Proof. repeat split; auto. Qed.

Lemma upd_eq f g w : fib (upd f g w) f = g (fib w f).
Proof. unfold upd; cbn. apply fn_lookup_insert. Qed.

Lemma upd_ne f g w x : x <> f -> fib (upd f g w) x = fib w x.
Proof. intros H. unfold upd; cbn. by apply fn_lookup_insert_ne. Qed.

Lemma upd_like f g w x : (forall F, like F (g F)) -> like (fib w x) (fib (upd f g w) x).
Proof.
  intros H. destruct (decide (x = f)) as [-> | Hx]; [rewrite upd_eq; apply H | rewrite upd_ne by done; apply like_refl].
Qed.

Lemma set_dg_like b F : like F (set_dg b F).
Proof. repeat split; auto. Qed.
Lemma set_terminateOuter_like o F : like F (set_terminateOuter o F).
Proof. repeat split; auto. Qed.
Lemma set_exception_like e F : like F (set_exception (Some e) F).
Proof. repeat split; auto; discriminate. Qed.

Lemma Inv_like w w' :
  Inv w -> (forall x, like (fib w x) (fib w' x)) -> (forall t, thr w' t = thr w t) -> next w' = next w -> Inv w'.
Proof.
  intros [] HL Ht Hn.
  assert (HR : forall t x c, resumable w t x c -> resumable w' t x c).
  { intros t x c. destruct (HL x) as (Hl & Hsk & Hc & Hs & Hns & Ho & Hy & He). unfold resumable. rewrite Ht, <- Hs, <- Hy, <- Ho.
    destruct c as [| child | | s |]; try (intuition; fail).
    destruct (HL child) as (_ & _ & _ & _ & _ & Hco & _). rewrite Hco. auto. }
  assert (HP : forall y s, pending w y s -> pending w' y s).
  { intros y s. destruct (HL y) as (Hl & Hsk & Hc & Hs & Hns & Ho & Hy & He). unfold pending. now rewrite <- Hc, <- Hs. }
  assert (Hlive : forall x, m_live (fib w' x) = m_live (fib w x)) by (intros x; destruct (HL x); intuition congruence).
  assert (Hstack : forall x, m_stack (fib w' x) = m_stack (fib w x)) by (intros x; destruct (HL x); intuition congruence).
  assert (Hctx : forall x, m_ctx (fib w' x) = m_ctx (fib w x)) by (intros x; destruct (HL x); intuition congruence).
  assert (Hstate : forall x, m_state (fib w' x) = m_state (fib w x)) by (intros x; destruct (HL x); intuition congruence).
  assert (Hnext : forall x, m_yielderNextState (fib w' x) = m_yielderNextState (fib w x)) by (intros x; destruct (HL x); intuition congruence).
  assert (Houter : forall x, m_outer (fib w' x) = m_outer (fib w x)) by (intros x; destruct (HL x); intuition congruence).
  assert (Hyielder : forall x, m_yielder (fib w' x) = m_yielder (fib w x)) by (intros x; destruct (HL x); intuition congruence).
  split; unfold blank in *; rewrite ?Hn; intros; repeat setoid_rewrite Ht; rewrite ?Ht in *; rewrite ?Hlive, ?Hstack, ?Hctx, ?Hstate, ?Hnext, ?Houter, ?Hyielder in *; eauto.
  - destruct (inv_resume0 t c) as (x & Hx & Hr); eauto.
  - destruct (inv_yielder0 x y) as (Hp & Ho & Hr); eauto.
  - destruct inv_rank0 as (rank & Hrank). exists rank. intros x o. rewrite Houter. auto.
Qed.

(** ** Switching *)

(** The fiber [cur] runs on the thread [t], and nobody waits to be settled by it. *)
Definition calm (w : world) (t : tid) (cur : fid) : Prop :=
  th_stack (thr w t) = Some cur /\ th_fiber (thr w t) = Some cur /\ m_yielder (fib w cur) = None /\
  (forall ch, th_phase (thr w t) <> Resume (InCall ch)).

(** Case analysis on the fibers and threads that were updated. *)
Ltac look := unfold insert, fn_insert in *; cbn in *; repeat case_decide; simplify_eq/=.
Ltac opens := unfold upd, put, setThis, running_on in *; cbn in *.

Lemma may_enter_true s : may_enter s = true -> s = HOLD \/ s = INIT.
Proof. destruct s; cbn; auto; discriminate. Qed.

Lemma may_enter_ctx w f : Inv w -> may_enter (m_state (fib w f)) = true ->
  m_ctx (fib w f) ∈ [Some AtEntry; Some InYield; Some (InYieldTo HOLD)].
Proof.
  intros HI [H | H]%may_enter_true.
  - apply (inv_hold _ HI) in H. set_solver.
  - apply (inv_init _ HI) in H. rewrite H. set_solver.
Qed.

(** A fiber that can be entered is on no stack, and no fiber waits for it or settles it. *)
Lemma may_enter_free w f : Inv w -> may_enter (m_state (fib w f)) = true ->
  (forall t, th_stack (thr w t) <> Some f) /\ (forall x, m_outer (fib w x) <> Some f) /\
  (forall x, m_yielder (fib w x) <> Some f) /\ m_yielder (fib w f) = None.
Proof.
  intros HI H. pose proof (may_enter_ctx w f HI H) as Hc. apply may_enter_true in H.
  assert (Hoff : forall t, th_stack (thr w t) <> Some f).
  { intros t Ht. destruct (inv_on _ HI t f Ht) as (_ & Hn & _). rewrite Hn in Hc. set_solver. }
  split_and!; auto.
  - intros x Hx. destruct (inv_outer _ HI x f Hx) as (_ & [Hctx | (t & Ht & _)]); [| by eapply Hoff].
    rewrite Hctx in Hc. set_solver.
  - intros x Hx. destruct (inv_yielder _ HI x f Hx) as ((Hact & _) & _). destruct Hact, H; congruence.
  - destruct (m_yielder (fib w f)) as [y |] eqn:Hy; [| done].
    destruct (inv_yielder _ HI f y Hy) as (_ & _ & t & c & Ht & _). by apply Hoff in Ht.
Qed.

(** The world after [cur] switches to [f] on the thread [t], leaving [c] behind and entering [c']: the new state, outer
    fiber and yielder of [f], and [t_fiber]. *)
Record switched (w w' : world) (t : tid) (cur : fid) (c : context) (f : fid) (c' : context)
    (s : State) (o y : option fid) (n : State) (tf : option fid) : Prop := mkSwitched {
  sw_ctx' : m_ctx (fib w f) = Some c';
  sw_live : forall x, m_live (fib w' x) = m_live (fib w x);
  sw_stack : forall x, m_stack (fib w' x) = m_stack (fib w x);
  sw_ctx : forall x, m_ctx (fib w' x) = if decide (x = f) then None else if decide (x = cur) then Some c else m_ctx (fib w x);
  sw_state : forall x, m_state (fib w' x) = if decide (x = f) then s else m_state (fib w x);
  sw_outer : forall x, m_outer (fib w' x) = if decide (x = f) then o else m_outer (fib w x);
  sw_yielder : forall x, m_yielder (fib w' x) = if decide (x = f) then y else m_yielder (fib w x);
  sw_next : forall x, m_yielderNextState (fib w' x) = if decide (x = f) then n else m_yielderNextState (fib w x);
  sw_exception : forall x, m_exception (fib w x) <> None -> m_exception (fib w' x) <> None;
  sw_thr : forall t', thr w' t' = if decide (t' = t) then mkThread tf (Some f) (Resume c') else thr w t';
  sw_fresh : next w' = next w;
}.

(** Entering a fiber by [call], entering it by [yieldTo], and going back to the outer fiber. *)
Definition entry (w : world) (cur f : fid) (c : context) (s : State) (o y : option fid) (n : State) (tf : option fid) : Prop :=
  (may_enter (m_state (fib w f)) = true /\ tf = Some f /\
   ((c = InCall f /\ m_outer (fib w f) = None /\ o = Some cur /\ y = None /\ active s /\ (s = EXCEPT -> m_exception (fib w f) <> None)) \/
    (c = InYieldTo n /\ n ∈ [HOLD; TERM; EXCEPT] /\ (n = HOLD \/ m_outer (fib w cur) = None) /\ o = m_outer (fib w f) /\ y = Some cur /\ s = EXEC))) \/
  (m_outer (fib w cur) = Some f /\ o = m_outer (fib w f) /\ y = Some cur /\ s = m_state (fib w f) /\
   ((c = InYield /\ n = HOLD) \/ (c = InExit /\ (n = TERM \/ n = EXCEPT)))).

#[local] Arguments sw_ctx' {_ _ _ _ _ _ _ _ _ _ _ _} _.
#[local] Arguments sw_live {_ _ _ _ _ _ _ _ _ _ _ _} _ _.
#[local] Arguments sw_stack {_ _ _ _ _ _ _ _ _ _ _ _} _ _.
#[local] Arguments sw_ctx {_ _ _ _ _ _ _ _ _ _ _ _} _ _.
#[local] Arguments sw_state {_ _ _ _ _ _ _ _ _ _ _ _} _ _.
#[local] Arguments sw_outer {_ _ _ _ _ _ _ _ _ _ _ _} _ _.
#[local] Arguments sw_yielder {_ _ _ _ _ _ _ _ _ _ _ _} _ _.
#[local] Arguments sw_next {_ _ _ _ _ _ _ _ _ _ _ _} _ _.
#[local] Arguments sw_exception {_ _ _ _ _ _ _ _ _ _ _ _} _ _ _.
#[local] Arguments sw_thr {_ _ _ _ _ _ _ _ _ _ _ _} _ _.
#[local] Arguments sw_fresh {_ _ _ _ _ _ _ _ _ _ _ _} _.

Section Switched.
Context (w w' : world) (t : tid) (cur : fid) (c : context) (f : fid) (c' : context)
  (s : State) (o y : option fid) (n : State) (tf : option fid).
Context (HI : Inv w) (Hcalm : calm w t cur) (HS : switched w w' t cur c f c' s o y n tf) (HE : entry w cur f c s o y n tf).

Lemma switched_off t' : th_stack (thr w t') <> Some f.
Proof. intros Ht. destruct (inv_on _ HI t' f Ht) as (_ & Hn & _). pose proof (sw_ctx' HS). congruence. Qed.

Lemma switched_ne : cur <> f.
Proof. intros E. destruct Hcalm as [H _]. rewrite E in H. by apply switched_off in H. Qed.

Lemma switched_no_yielder x : m_yielder (fib w x) <> Some cur.
Proof.
  intros Hx. destruct (inv_yielder _ HI x cur Hx) as ((_ & Hc) & _). destruct Hcalm as [H _].
  destruct (inv_on _ HI t cur H) as (_ & Hn & _). by rewrite Hn in Hc.
Qed.

Lemma switched_yielder_none : m_yielder (fib w f) = None.
Proof.
  destruct (m_yielder (fib w f)) as [z |] eqn:Hy; [| done].
  destruct (inv_yielder _ HI f z Hy) as (_ & _ & t' & c0 & Ht & _). by apply switched_off in Ht.
Qed.

Lemma switched_back_ctx : m_outer (fib w cur) = Some f -> c' = InCall cur.
Proof.
  intros Ho. destruct (inv_outer _ HI cur f Ho) as (_ & [Hc | (t' & Ht & _)]); [| by apply switched_off in Ht].
  pose proof (sw_ctx' HS). congruence.
Qed.

Lemma switched_active : active s.
Proof.
  destruct HE as [(_ & _ & [(_ & _ & _ & _ & Ha & _) | (_ & _ & _ & _ & _ & Hx)]) | (Ho & _ & _ & Hx & _)]; [done | by left |]. rewrite Hx.
  pose proof (sw_ctx' HS) as Hc. rewrite (switched_back_ctx Ho) in Hc. by destruct (inv_call _ HI f cur Hc).
Qed.

(** Only the fiber that switches back has [f] as its outer fiber, and only [f] becomes a child. *)
Lemma switched_outer_f x : m_outer (fib w x) = Some f -> x = cur /\ m_outer (fib w cur) = Some f.
Proof.
  intros Ho. destruct HE as [(Hm & _) | (Hb & _)]; [destruct (may_enter_free w f HI Hm) as (_ & Hx & _); by apply Hx in Ho |].
  destruct (inv_outer _ HI x f Ho) as (_ & [Hc | (t' & Ht & _)]); [| by apply switched_off in Ht].
  pose proof (sw_ctx' HS) as Hc'. rewrite (switched_back_ctx Hb) in Hc'. split; congruence.
Qed.

Lemma switched_pending x z : m_yielder (fib w x) = Some z -> z <> f /\ z <> cur.
Proof.
  intros Hx. split; [| intros ->; by apply switched_no_yielder in Hx]. intros ->.
  destruct (inv_yielder _ HI x f Hx) as ((Ha & Hc) & _). 
  destruct HE as [(Hm & _) | (Hb & _)]; [destruct (may_enter_free w f HI Hm) as (_ & _ & Hy & _); by apply Hy in Hx |].
  pose proof (sw_ctx' HS) as Hc'. rewrite (switched_back_ctx Hb) in Hc'. by rewrite Hc' in Hc.
Qed.

(** The stacks afterwards. *)
Lemma switched_stack t' x : th_stack (thr w' t') = Some x ->
  (t' = t /\ x = f) \/ (t' <> t /\ x <> f /\ x <> cur /\ th_stack (thr w t') = Some x).
Proof.
  rewrite (sw_thr HS). destruct Hcalm as (Hs & _). destruct (decide (t' = t)) as [E | Hn]; cbn; intros Hx.
  - left. split; congruence.
  - right. split_and!; auto; intros E; rewrite E in Hx; [by apply switched_off in Hx |].
    by pose proof (inv_one _ HI _ _ _ Hs Hx).
Qed.

Lemma switched_thr_t : th_stack (thr w' t) = Some f /\ th_phase (thr w' t) = Resume c' /\ th_fiber (thr w' t) = tf.
Proof. rewrite (sw_thr HS). rewrite decide_True by done. done. Qed.

Lemma switched_thr_ne t' : t' <> t -> thr w' t' = thr w t'.
Proof. intros H. rewrite (sw_thr HS). by rewrite decide_False. Qed.

Lemma switched_fib_ne x : x <> f -> x <> cur ->
  m_ctx (fib w' x) = m_ctx (fib w x) /\ m_state (fib w' x) = m_state (fib w x) /\ m_outer (fib w' x) = m_outer (fib w x) /\
  m_yielder (fib w' x) = m_yielder (fib w x) /\ m_yielderNextState (fib w' x) = m_yielderNextState (fib w x).
Proof. intros H1 H2. rewrite (sw_ctx HS), (sw_state HS), (sw_outer HS), (sw_yielder HS), (sw_next HS). by rewrite !decide_False. Qed.

Lemma switched_fib_f :
  m_ctx (fib w' f) = None /\ m_state (fib w' f) = s /\ m_outer (fib w' f) = o /\ m_yielder (fib w' f) = y /\ m_yielderNextState (fib w' f) = n.
Proof. rewrite (sw_ctx HS), (sw_state HS), (sw_outer HS), (sw_yielder HS), (sw_next HS). by rewrite !decide_True. Qed.

Lemma switched_fib_cur :
  m_ctx (fib w' cur) = Some c /\ m_state (fib w' cur) = m_state (fib w cur) /\ m_outer (fib w' cur) = m_outer (fib w cur) /\ m_yielder (fib w' cur) = None.
Proof.
  pose proof switched_ne. destruct Hcalm as (_ & _ & Hy & _).
  rewrite (sw_ctx HS), (sw_state HS), (sw_outer HS), (sw_yielder HS). rewrite !(decide_False (P := cur = f)) by done. by rewrite decide_True.
Qed.

Lemma switched_resume t' c0 : th_phase (thr w' t') = Resume c0 -> exists x, th_stack (thr w' t') = Some x /\ resumable w' t' x c0.
Proof.
  destruct (decide (t' = t)) as [E | Hne].
  - rewrite E. destruct switched_thr_t as (Hs & Hp & Hf). rewrite Hp. intros [= <-]. exists f. split; [done |].
    destruct switched_fib_f as (_ & Hst & Hof & Hy & _). destruct switched_fib_cur as (_ & _ & Ho & _).
    unfold resumable. rewrite Hf, Hst, Hof. destruct HE as [(Hm & Htf & Hk) | (Hb & _ & Hyy & _)].
    + assert (Hexc : s = EXCEPT -> m_exception (fib w' f) <> None /\ o <> None).
      { intros Hx. destruct Hk as [(_ & _ & Hko & _ & _ & Hk) | (_ & _ & _ & _ & _ & Hk)]; [| congruence].
        split; [apply (sw_exception HS); auto | congruence]. }
      pose proof (may_enter_ctx w f HI Hm) as Hc. rewrite (sw_ctx' HS) in Hc.
      destruct c'; try (split_and!; auto; fail); set_solver.
    + rewrite (switched_back_ctx Hb). split; congruence.
  - rewrite (switched_thr_ne t' Hne). intros Hp. destruct (inv_resume _ HI t' c0 Hp) as (x & Hx & Hr).
    exists x. split; [done |].
    destruct (switched_stack t' x) as [[-> _] | (_ & Hxf & Hxc & _)]; [by rewrite (switched_thr_ne t' Hne) | done |].
    destruct (switched_fib_ne x Hxf Hxc) as (_ & Hst & Ho & Hy & _). pose proof (sw_exception HS x) as He.
    unfold resumable in *. rewrite (switched_thr_ne t' Hne), Hst, Hy, Ho.
    destruct c0 as [| ch | | |]; try tauto. destruct Hr as (Hry & Hro). split; [done |]. destruct (switched_pending x ch Hry).
    by destruct (switched_fib_ne ch) as (_ & _ & -> & _).
Qed.

Lemma switched_yielder x z : m_yielder (fib w' x) = Some z ->
  (x = f /\ z = cur /\ y = Some cur) \/ (x <> f /\ x <> cur /\ z <> f /\ z <> cur /\ m_yielder (fib w x) = Some z).
Proof.
  destruct (decide (x = f)) as [-> | Hf].
  - destruct switched_fib_f as (_ & _ & _ & -> & _). intros Hy. left. split_and!; auto;
      destruct HE as [(_ & _ & [(_ & _ & _ & Hk & _) | (_ & _ & _ & _ & Hk & _)]) | (_ & _ & Hk & _)]; congruence.
  - destruct (decide (x = cur)) as [-> | Hc]; [destruct switched_fib_cur as (_ & _ & _ & ->); discriminate |].
    destruct (switched_fib_ne x Hf Hc) as (_ & _ & _ & -> & _). intros Hy. right. destruct (switched_pending x z Hy). auto.
Qed.

Lemma switched_yielder_ok x z : m_yielder (fib w' x) = Some z ->
  pending w' z (m_yielderNextState (fib w' x)) /\
  (m_outer (fib w' z) = None \/ m_outer (fib w' z) = Some x \/ m_yielderNextState (fib w' x) = HOLD) /\
  exists t c, th_stack (thr w' t) = Some x /\ th_phase (thr w' t) = Resume c.
Proof.
  intros Hx. destruct (switched_yielder x z Hx) as [(-> & -> & Hy) | (Hxf & Hxc & Hzf & Hzc & Hxz)].
  - destruct switched_thr_t as (Hs & Hp & _). destruct switched_fib_cur as (Hc & Hst & Ho & _). destruct switched_fib_f as (_ & _ & _ & _ & Hn).
    destruct Hcalm as (Hcs & _). destruct (inv_on _ HI t cur Hcs) as (_ & _ & Ha).
    unfold pending. rewrite Hst, Hc, Hn, Ho. split_and!; [done | | | by eauto]. all: swap 1 2.
    + destruct HE as [(_ & _ & [(_ & _ & _ & Hk & _) | (_ & _ & Hk & _)]) | (Hk & _)]; [congruence | tauto | auto].
    + destruct HE as [(_ & _ & [(_ & _ & _ & Hk & _) | (Hk & Hn' & Hk' & _)]) | (_ & _ & _ & _ & [[Hk Hk'] | [Hk Hk']])];
        [congruence | by rewrite Hk ..].
  - destruct (inv_yielder _ HI x z Hxz) as (Hp & Ho & t' & c0 & Ht & Hph). split_and!.
    + unfold pending in *. destruct (switched_fib_ne z Hzf Hzc) as (-> & -> & _). by destruct (switched_fib_ne x Hxf Hxc) as (_ & _ & _ & _ & ->).
    + destruct (switched_fib_ne z Hzf Hzc) as (_ & _ & -> & _). by destruct (switched_fib_ne x Hxf Hxc) as (_ & _ & _ & _ & ->).
    + exists t', c0. rewrite switched_thr_ne; [done |]. intros E. rewrite E in Ht. destruct Hcalm as (Hcs & _). congruence.
Qed.

(** Who waited for a fiber still does; [f] itself waited for [cur] only. *)
Lemma switched_outer_old x z : m_outer (fib w x) = Some z ->
  m_ctx (fib w' z) = Some (InCall x) \/ exists t, th_stack (thr w' t) = Some z /\ th_phase (thr w' t) = Resume (InCall x).
Proof.
  intros Hx. destruct switched_thr_t as (Hts & Htp & _). destruct Hcalm as (Hcs & _ & _ & Hcp).
  destruct (decide (z = f)) as [E | Hzf].
  - rewrite E in Hx |- *. destruct (switched_outer_f x Hx) as (-> & Hb). right. exists t. rewrite (switched_back_ctx Hb) in Htp. done.
  - destruct (inv_outer _ HI x z Hx) as (_ & [Hc | (t' & Ht & Hp)]).
    + left. rewrite (sw_ctx HS), decide_False by done. case_decide as E; [| done].
      rewrite E in Hc. destruct (inv_on _ HI t cur Hcs) as (_ & Hn & _). congruence.
    + right. exists t'. rewrite switched_thr_ne; [done |]. intros E. rewrite E in Hp. by apply Hcp in Hp.
Qed.

Lemma switched_outer x z : m_outer (fib w' x) = Some z ->
  m_state (fib w' x) ∈ [EXEC; EXCEPT; HOLD] /\
  (m_ctx (fib w' z) = Some (InCall x) \/ exists t, th_stack (thr w' t) = Some z /\ th_phase (thr w' t) = Resume (InCall x)).
Proof.
  intros Hx. pose proof switched_ne as Hne. destruct switched_fib_f as (_ & Hst & Ho & _). destruct switched_fib_cur as (Hcc & Hcst & Hco & _).
  destruct switched_thr_t as (Hts & Htp & _). destruct Hcalm as (Hcs & _ & _ & Hcp).
  destruct (decide (x = f)) as [-> | Hxf].
  - split; [rewrite Hst; destruct switched_active as [-> | ->]; set_solver |].
    destruct HE as [(Hm & _ & [(Hc & Hof & Hk & _) | (Hc & Hof & _ & Hk & _)]) | (Hb & Hk & _)].
    + left. replace z with cur by congruence. congruence.
    + apply switched_outer_old; congruence.
    + apply switched_outer_old; congruence.
  - assert (Hx' : m_outer (fib w x) = Some z) by (rewrite (sw_outer HS), decide_False in Hx; done).
    split; [rewrite (sw_state HS), decide_False by done; by apply (inv_outer _ HI x z) |].
    by apply switched_outer_old.
Qed.

Lemma switched_call x ch : m_ctx (fib w' x) = Some (InCall ch) -> m_outer (fib w' ch) = Some x /\ active (m_state (fib w' x)).
Proof.
  rewrite (sw_ctx HS), (sw_outer HS), (sw_state HS). pose proof switched_ne as Hne. destruct Hcalm as (Hcs & _).
  destruct (decide (x = f)) as [-> | Hxf]; [done |]. destruct (decide (x = cur)) as [-> | Hxc]; intros Hc.
  - destruct (inv_on _ HI t cur Hcs) as (_ & _ & Ha). split; [| done].
    destruct HE as [(Hm & _ & [(Hc' & Hof & Hk & _) | (Hc' & Hof & _ & Hk & _)]) | (Hb & Hk & _ & _ & [[Hc' _] | [Hc' _]])]; try congruence.
    rewrite decide_True by congruence. done.
  - destruct (inv_call _ HI x ch Hc) as (Ho & Ha). split; [| done]. case_decide as E; [| done]. rewrite E in Ho.
    destruct HE as [(Hm & _ & [(Hc' & Hof & Hk & _) | (Hc' & Hof & _ & Hk & _)]) | (Hb & Hk & _)]; congruence.
Qed.

Lemma switched_rank : exists rank : fid -> nat, forall x z, m_outer (fib w' x) = Some z -> rank z < rank x.
Proof.
  destruct (inv_rank _ HI) as (rank & Hr). pose proof switched_ne as Hne.
  destruct HE as [(Hm & _ & [(_ & Hof & Hk & _) | (_ & _ & _ & Hk & _)]) | (Hb & Hk & _)].
  2-3: exists rank; intros x z; rewrite (sw_outer HS); case_decide; subst; eauto.
  exists (<[f := S (rank cur)]> rank). intros x z. rewrite (sw_outer HS). case_decide as E.
  - rewrite Hk, E. intros [= <-]. rewrite fn_lookup_insert, fn_lookup_insert_ne by congruence. lia.
  - intros Hx. rewrite (fn_lookup_insert_ne _ _ x) by congruence. destruct (decide (z = f)) as [-> | Hz].
    + destruct (may_enter_free w f HI Hm) as (_ & Hno & _). by apply Hno in Hx.
    + rewrite fn_lookup_insert_ne by congruence. auto.
Qed.

Lemma switched_inv : Inv w'.
Proof.
  pose proof switched_ne as Hne. pose proof switched_active as Has. pose proof (inv_live _ HI f c' (sw_ctx' HS)) as Hfl.
  pose proof Hcalm as (Hs & _). destruct (inv_on _ HI t cur Hs) as (Hl & Hcc & Ha).
  split.
  - intros x. rewrite (sw_fresh HS). intros Hx. pose proof (inv_new _ HI x Hx) as Hb.
    assert (x <> f /\ x <> cur) as [Hxf Hxc].
    { split; intros E; rewrite E in Hb; destruct Hb as (? & _); congruence. }
    unfold blank in *. rewrite (sw_live HS). destruct (switched_fib_ne x Hxf Hxc) as (-> & -> & -> & -> & _). done.
  - intros t1 t2 x H1 H2. destruct (switched_stack t1 x H1) as [(E1 & E1') | (? & Hx & _ & H1')];
      destruct (switched_stack t2 x H2) as [(E2 & E2') | (? & ? & _ & H2')]; try congruence. by apply (inv_one _ HI t1 t2 x).
  - intros t1 x H1. rewrite (sw_live HS). destruct (switched_stack t1 x H1) as [(-> & ->) | (? & Hx & Hxc & H1')].
    + destruct switched_fib_f as (-> & -> & _). done.
    + destruct (switched_fib_ne x Hx Hxc) as (-> & -> & _). by apply (inv_on _ HI t1).
  - intros x c0. rewrite (sw_ctx HS), (sw_live HS). case_decide; [done |]. case_decide as E; [by rewrite E |]. apply (inv_live _ HI).
  - intros x. rewrite (sw_stack HS), (sw_live HS). apply (inv_stack _ HI).
  - intros t1. destruct (decide (t1 = t)) as [-> | Ht]; [by destruct switched_thr_t as (_ & -> & _) |].
    rewrite switched_thr_ne by done. apply (inv_run _ HI).
  - apply switched_resume.
  - apply switched_yielder_ok.
  - intros x x' z H1 H2. destruct (switched_yielder x z H1) as [(-> & -> & _) | (_ & _ & _ & ? & H1')];
      destruct (switched_yielder x' _ H2) as [(-> & ? & _) | (_ & _ & _ & ? & H2')]; try done.
    by apply (inv_yielder_one _ HI _ _ z).
  - intros x. rewrite (sw_state HS), (sw_ctx HS). case_decide; [by destruct Has; congruence |].
    case_decide as E; [rewrite E; by destruct Ha; congruence | apply (inv_init _ HI)].
  - intros x. rewrite (sw_state HS), (sw_ctx HS). case_decide; [by destruct Has; congruence |].
    case_decide as E; [rewrite E; by destruct Ha; congruence | apply (inv_hold _ HI)].
  - apply switched_call.
  - apply switched_outer.
  - apply switched_rank.
Qed.
End Switched.
