(* ===== verification/FiberCoreSteps.v ===== *)
(** The methods of [Fiber] keep the invariant. *)

From stdpp Require Import functions sets numbers list_numbers list.
From S2P Require Import Prelude FiberCore FiberCoreInv.

Open Scope nat_scope.

Lemma pending_eq w w' y s : fib w' y = fib w y -> pending w y s -> pending w' y s.
Proof. unfold pending. by intros ->. Qed.

Lemma resumable_eq w w' t x c :
  fib w' x = fib w x -> th_fiber (thr w' t) = th_fiber (thr w t) -> (forall ch, m_outer (fib w ch) = Some x -> fib w' ch = fib w ch) ->
  resumable w t x c -> resumable w' t x c.
Proof.
  unfold resumable. intros -> -> Hch. destruct c; auto. intros (Hy & Ho). split; [done |]. by rewrite (Hch _ Ho).
Qed.

(** ** Fibers nobody refers to *)

Definition unlinked (w : world) (f : fid) : Prop :=
  (forall t, th_stack (thr w t) <> Some f) /\ (forall x, m_outer (fib w x) <> Some f /\ m_yielder (fib w x) <> Some f) /\ m_outer (fib w f) = None.

Lemma at_rest_unlinked w f : Inv w -> m_state (fib w f) = INIT \/ m_state (fib w f) = TERM -> unlinked w f.
Proof.
  intros HI Hf.
  assert (Hoff : forall t, th_stack (thr w t) <> Some f).
  { intros t Ht. destruct (inv_on _ HI t f Ht) as (_ & _ & Ha). destruct Ha, Hf; congruence. }
  split_and!; [done | |].
  - intros x. split; intros H.
    + destruct (inv_outer _ HI x f H) as (_ & [Hc | (t & Ht & _)]); [| by apply Hoff in Ht].
      destruct (inv_call _ HI _ _ Hc) as (_ & Ha). destruct Ha, Hf; congruence.
    + destruct (inv_yielder _ HI x f H) as ((Ha & _) & _). destruct Ha, Hf; congruence.
  - destruct (m_outer (fib w f)) as [o |] eqn:Ho; [| done].
    destruct (inv_outer _ HI f o Ho) as (Hs & _). destruct Hf as [E | E]; rewrite E in Hs; set_solver.
Qed.

(** Such a fiber can be replaced by one that is ready to start, or by none. *)
Definition startable (F : Fiber) : Prop :=
  m_live F = true /\ m_ctx F = Some AtEntry /\ m_state F = INIT /\ m_outer F = None /\ m_yielder F = None.

Lemma replace_inv w w' f F :
  Inv w -> unlinked w f -> fib w' = <[f := F]> (fib w) -> thr w' = thr w -> next w <= next w' ->
  blank F /\ m_stack F = false \/ startable F /\ f < next w' -> Inv w'.
Proof.
  intros HI (Hoff & Href & Hof) Hfib Hthr Hnext HF.
  assert (Hf : fib w' f = F) by (by rewrite Hfib, fn_lookup_insert).
  assert (Hne : forall x, x <> f -> fib w' x = fib w x) by (intros x Hx; by rewrite Hfib, fn_lookup_insert_ne).
  assert (Hnone : m_outer F = None /\ m_yielder F = None) by (destruct HF as [[(? & ? & ? & ? & ?) _] | [(? & ? & ? & ? & ?) _]]; auto).
  assert (Hctx : forall c, m_ctx F = Some c -> m_live F = true /\ c = AtEntry).
  { intros c Hc. destruct HF as [[(? & ? & ?) _] | [(? & ? & ?) _]]; split; congruence. }
  assert (Hstate : m_state F = TERM \/ m_state F = INIT /\ m_ctx F = Some AtEntry).
  { destruct HF as [[(? & ? & ? & ?) _] | [(? & ? & ? & ?) _]]; auto. }
  split; rewrite ?Hthr.
  - intros x Hx. destruct (decide (x = f)) as [-> | Hxf].
    + rewrite Hf. destruct HF as [[? _] | [_ ?]]; [done | lia].
    + rewrite Hne by done. apply (inv_new _ HI). lia.
  - apply (inv_one _ HI).
  - intros t x Ht. assert (x <> f) by (intros ->; by apply Hoff in Ht). rewrite Hne by done. by apply (inv_on _ HI t).
  - intros x c. destruct (decide (x = f)) as [-> | Hxf]; [rewrite Hf; intros Hc; by destruct (Hctx c Hc) | rewrite Hne by done; apply (inv_live _ HI)].
  - intros x. destruct (decide (x = f)) as [-> | Hxf]; [rewrite Hf; destruct HF as [[_ ?] | [(? & _) _]]; congruence | rewrite Hne by done; apply (inv_stack _ HI)].
  - apply (inv_run _ HI).
  - intros t c Hp. destruct (inv_resume _ HI t c Hp) as (x & Hx & Hr). exists x. split; [done |].
    assert (x <> f) by (intros ->; by apply Hoff in Hx).
    apply (resumable_eq w); [by apply Hne | by rewrite Hthr | | done].
    intros ch Hch. apply Hne. intros ->. congruence.
  - intros x y. destruct (decide (x = f)) as [-> | Hxf]; [rewrite Hf; destruct Hnone; congruence |]. rewrite Hne by done. intros Hy.
    assert (y <> f) by (intros ->; by apply Href in Hy). rewrite (Hne y) by done.
    destruct (inv_yielder _ HI x y Hy) as (Hp & Ho). split; [| done]. apply (pending_eq w); auto.
  - intros x x' y. destruct (decide (x = f)) as [-> | Hxf]; [rewrite Hf; destruct Hnone; congruence |].
    destruct (decide (x' = f)) as [-> | Hxf']; [rewrite Hf; destruct Hnone; congruence |].
    rewrite !Hne by done. apply (inv_yielder_one _ HI).
  - intros x. destruct (decide (x = f)) as [-> | Hxf]; [rewrite Hf; destruct Hstate as [? | [? ?]]; congruence | rewrite Hne by done; apply (inv_init _ HI)].
  - intros x. destruct (decide (x = f)) as [-> | Hxf]; [rewrite Hf; destruct Hstate as [? | [? ?]]; congruence | rewrite Hne by done; apply (inv_hold _ HI)].
  - intros x ch. destruct (decide (x = f)) as [-> | Hxf]; [rewrite Hf; intros Hc; by destruct (Hctx _ Hc) |].
    rewrite (Hne x) by done. intros Hc. destruct (inv_call _ HI x ch Hc) as (Ho & Ha). rewrite Hne by congruence. done.
  - intros x o. destruct (decide (x = f)) as [-> | Hxf]; [rewrite Hf; destruct Hnone; congruence |].
    rewrite (Hne x) by done. intros Ho. rewrite (Hne o) by (intros ->; by apply Href in Ho). by apply (inv_outer _ HI).
  - destruct (inv_rank _ HI) as (rank & Hr). exists rank. intros x o. destruct (decide (x = f)) as [-> | Hxf]; [rewrite Hf; destruct Hnone; congruence |].
    rewrite Hne by done. apply Hr.
Qed.

Lemma new_unlinked w : Inv w -> unlinked w (next w).
Proof. intros HI. apply at_rest_unlinked; [done |]. right. apply (inv_new _ HI). lia. Qed.

Lemma add_inv w p d s : Inv w -> Inv (add (Fiber_new p d s) w).
Proof.
  intros HI. eapply (replace_inv w _ (next w)); [done | by apply new_unlinked | reflexivity | done | cbn; lia |].
  right. split; [repeat split | cbn; lia].
Qed.

Lemma unlinked_yielder w f : Inv w -> unlinked w f -> m_yielder (fib w f) = None.
Proof.
  intros HI (Hoff & _). destruct (m_yielder (fib w f)) as [y |] eqn:Hy; [| done].
  destruct (inv_yielder _ HI f y Hy) as (_ & _ & t & c & Ht & _). by apply Hoff in Ht.
Qed.

Lemma live_lt w f : Inv w -> m_live (fib w f) = true -> f < next w.
Proof. intros HI Hl. destruct (decide (f < next w)) as [? | Hn]; [done |]. destruct (inv_new _ HI f) as (? & _); [lia | congruence]. Qed.

Lemma reset_inv w w' t f dg : Inv w -> permitted t (Reset f dg) w -> Fiber_reset f dg w = Ok w' -> Inv w'.
Proof.
  intros HI Hp. unfold Fiber_reset, ASSERT. destruct (m_stack (fib w f)) eqn:Hst; [| done].
  destruct (at_rest (m_state (fib w f))) eqn:Hr; [| done]. intros [= <-].
  assert (Hu : unlinked w f).
  { unfold at_rest in Hr. destruct (m_state (fib w f)) eqn:Hs; try done; [apply at_rest_unlinked; auto | | apply at_rest_unlinked; auto].
    destruct (Hp Hs) as ((H1 & H2 & H3) & H4). split_and!; auto. intros t'. destruct (decide (t' = t)) as [-> | ?]; auto. }
  pose proof (inv_stack _ HI f Hst) as Hl.
  eapply (replace_inv w _ f); [done | done | reflexivity | done | done |]. right. split; [split_and!; cbn; auto |].
  - apply Hu.
  - by apply unlinked_yielder.
  - cbn. by apply live_lt.
Qed.

(** A thread whose code runs and that is left by its fiber, or that has none yet. *)
Lemma no_thread_inv w t : Inv w -> th_phase (thr w t) = Run -> Inv (put t no_thread w).
Proof.
  intros HI Hrun.
  assert (Hne : forall t', t' <> t -> thr (put t no_thread w) t' = thr w t') by (intros t' H; cbn; by rewrite fn_lookup_insert_ne).
  assert (Ht : thr (put t no_thread w) t = no_thread) by (cbn; by rewrite fn_lookup_insert).
  assert (Hstk : forall t' x, th_stack (thr (put t no_thread w) t') = Some x -> t' <> t /\ th_stack (thr w t') = Some x).
  { intros t' x. destruct (decide (t' = t)) as [-> | H]; [by rewrite Ht | by rewrite Hne]. }
  assert (Hph : forall t' x c, th_stack (thr w t') = Some x -> th_phase (thr w t') = Resume c ->
    th_stack (thr (put t no_thread w) t') = Some x /\ th_phase (thr (put t no_thread w) t') = Resume c).
  { intros t' x c H1 H2. rewrite Hne; [done |]. intros ->. congruence. }
  destruct HI. split; auto.
  - intros t1 t2 x H1%Hstk H2%Hstk. naive_solver.
  - intros t1 x H1%Hstk. naive_solver.
  - intros t1. destruct (decide (t1 = t)) as [-> | H]; [by rewrite Ht | by rewrite Hne; auto].
  - intros t1 c. destruct (decide (t1 = t)) as [-> | H]; [by rewrite Ht | rewrite Hne by done]. intros Hc.
    destruct (inv_resume t1 c Hc) as (x & Hx & Hr). exists x. split; [done |]. apply (resumable_eq w); auto. by rewrite Hne.
  - intros x y Hy. destruct (inv_yielder x y Hy) as (Hp & Ho & t1 & c & H1 & H2). split_and!; auto.
    destruct (Hph t1 x c H1 H2). eauto.
  - intros x o Ho. destruct (inv_outer x o Ho) as (Hs & [Hc | (t1 & H1 & H2)]); split; auto.
    right. exists t1. by apply Hph.
Qed.

Lemma fiber_destroy_inv w w' t f : Inv w -> th_phase (thr w t) = Run -> permitted t (Destroy f) w -> Fiber_destroy t f w = Ok w' -> Inv w'.
Proof.
  intros HI Hrun [(H1 & H2 & H3) H4]. unfold Fiber_destroy, ASSERT. destruct (m_stack (fib w f)) eqn:Hst; cbn.
  - destruct (at_rest _); [| done]. intros [= <-].
    eapply (replace_inv w _ f); [done | | reflexivity | done | done |]; [| by left].
    split_and!; auto. intros t'. destruct (decide (t' = t)) as [-> | ?]; auto.
  - destruct (m_dg (fib w f)); cbn; [done |]. case_bool_decide as Hf; (case_bool_decide as Hs; cbn; [| done]); intros [= <-].
    + eapply (replace_inv (put t no_thread w) _ f); [by apply no_thread_inv | | reflexivity | done | done |]; [| by left].
      split_and!; auto. intros t'. cbn. destruct (decide (t' = t)) as [-> | ?]; [by rewrite fn_lookup_insert | rewrite fn_lookup_insert_ne by done; auto].
    + eapply (replace_inv w _ f); [done | | reflexivity | done | done |]; [| by left].
      split_and!; auto. intros t'. destruct (decide (t' = t)) as [-> | ?]; [| auto]. by rewrite <- (inv_run _ HI t Hrun).
Qed.

Lemma adopt_inv w t : Inv w -> th_stack (thr w t) = None -> th_phase (thr w t) = Run ->
  Inv (put t (mkThread (Some (next w)) (Some (next w)) Run) (add Fiber_thread w)).
Proof.
  intros HI Hs Hrun. set (n := next w). set (w' := put _ _ _).
  destruct (new_unlinked w HI) as (Hoff & Href & Hof). fold n in Hoff, Href, Hof.
  pose proof (inv_new _ HI n (le_n _)) as (_ & Hnc & Hns & _ & Hny).
  assert (Hne : forall x, x <> n -> fib w' x = fib w x) by (intros x H; cbn; by rewrite fn_lookup_insert_ne).
  assert (Hn : fib w' n = Fiber_thread) by (cbn; by rewrite fn_lookup_insert).
  assert (Htne : forall t', t' <> t -> thr w' t' = thr w t') by (intros t' H; cbn; by rewrite fn_lookup_insert_ne).
  assert (Ht : thr w' t = mkThread (Some n) (Some n) Run) by (cbn; by rewrite fn_lookup_insert).
  assert (Hstk : forall t' x, th_stack (thr w' t') = Some x -> (t' = t /\ x = n) \/ (t' <> t /\ x <> n /\ th_stack (thr w t') = Some x)).
  { intros t' x. destruct (decide (t' = t)) as [-> | H]; [rewrite Ht; cbn; intros [= <-]; auto | rewrite Htne by done].
    intros Hx. right. split_and!; auto. intros ->. by apply Hoff in Hx. }
  assert (Hph : forall t' x c, th_stack (thr w t') = Some x -> th_phase (thr w t') = Resume c ->
    th_stack (thr w' t') = Some x /\ th_phase (thr w' t') = Resume c).
  { intros t' x c H1 H2. rewrite Htne; [done |]. intros ->. congruence. }
  assert (Hout : forall x o, m_outer (fib w' x) = Some o -> x <> n /\ o <> n /\ m_outer (fib w x) = Some o).
  { intros x o. destruct (decide (x = n)) as [-> | H]; [by rewrite Hn | rewrite Hne by done]. intros Ho. split_and!; auto.
    intros ->. by apply Href in Ho. }
  assert (Hyld : forall x y, m_yielder (fib w' x) = Some y -> x <> n /\ y <> n /\ m_yielder (fib w x) = Some y).
  { intros x y. destruct (decide (x = n)) as [-> | H]; [by rewrite Hn | rewrite Hne by done]. intros Ho. split_and!; auto.
    intros ->. by apply Href in Ho. }
  destruct HI. split.
  - intros x Hx. cbn in Hx. rewrite Hne by lia. apply inv_new. lia.
  - intros t1 t2 x H1%Hstk H2%Hstk. naive_solver.
  - intros t1 x [[-> ->] | (_ & Hx & H1)]%Hstk; [rewrite Hn; by repeat split; left | rewrite Hne by done; eauto].
  - intros x c. destruct (decide (x = n)) as [-> | H]; [by rewrite Hn | rewrite Hne by done; eauto].
  - intros x. destruct (decide (x = n)) as [-> | H]; [by rewrite Hn | rewrite Hne by done; eauto].
  - intros t1. destruct (decide (t1 = t)) as [-> | H]; [by rewrite Ht | by rewrite Htne; auto].
  - intros t1 c. destruct (decide (t1 = t)) as [-> | H]; [by rewrite Ht | rewrite Htne by done]. intros Hc.
    destruct (inv_resume t1 c Hc) as (x & Hx & Hr). exists x. split; [done |].
    apply (resumable_eq w); [apply Hne; intros ->; by apply Hoff in Hx | by rewrite Htne | | done].
    intros ch Hch. apply Hne. intros ->. congruence.
  - intros x y (Hx & Hyn & Hy)%Hyld. destruct (inv_yielder x y Hy) as (Hp & Ho & t1 & c & H1 & H2). rewrite !Hne by done.
    split_and!; [apply (pending_eq w); auto | done | destruct (Hph t1 x c H1 H2); eauto].
  - intros x x' y (_ & _ & H1)%Hyld (_ & _ & H2)%Hyld. eauto.
  - intros x. destruct (decide (x = n)) as [-> | H]; [by rewrite Hn | rewrite Hne by done; eauto].
  - intros x. destruct (decide (x = n)) as [-> | H]; [by rewrite Hn | rewrite Hne by done; eauto].
  - intros x ch. destruct (decide (x = n)) as [-> | H]; [by rewrite Hn | rewrite (Hne x) by done]. intros Hc.
    destruct (inv_call x ch Hc) as (Ho & Ha). rewrite Hne by congruence. done.
  - intros x o (Hx & Hon & Ho)%Hout. rewrite !Hne by done. destruct (inv_outer x o Ho) as (Hst & [Hc | (t1 & H1 & H2)]); split; auto.
    right. exists t1. by apply Hph.
  - destruct inv_rank as (rank & Hr). exists rank. intros x o (_ & _ & Ho)%Hout. auto.
Qed.

Lemma getThis_inv w t cur w1 : Inv w -> th_phase (thr w t) = Run -> getThis t w = (cur, w1) -> Inv w1 /\ calm w1 t cur.
Proof.
  intros HI Hrun. unfold getThis. pose proof (inv_run _ HI t Hrun) as Hf.
  destruct (th_fiber (thr w t)) as [f |] eqn:E; intros [= <- <-].
  - split; [done |]. split_and!; auto; [| intros ch; congruence].
    destruct (m_yielder (fib w f)) as [y |] eqn:Hy; [| done].
    destruct (inv_yielder _ HI f y Hy) as (_ & _ & t' & c & Ht & Hp). pose proof (inv_one _ HI t t' f (eq_sym Hf) Ht). congruence.
  - split; [by apply adopt_inv |]. split_and!; cbn; rewrite ?fn_lookup_insert; done.
Qed.

(** ** Going on *)

(** The world after [cur], which goes on in [c] on the thread [t], has stored the state of [y]. *)
Record settled (w w' : world) (t : tid) (cur y : fid) (oy : option fid) (p : phase) : Prop := mkSettled {
  st_live : forall x, m_live (fib w' x) = m_live (fib w x);
  st_stack : forall x, m_stack (fib w' x) = m_stack (fib w x);
  st_ctx : forall x, m_ctx (fib w' x) = m_ctx (fib w x);
  st_state : forall x, m_state (fib w' x) = if decide (x = y) then m_yielderNextState (fib w cur) else m_state (fib w x);
  st_outer : forall x, m_outer (fib w' x) = if decide (x = y) then oy else m_outer (fib w x);
  st_yielder : forall x, m_yielder (fib w' x) = if decide (x = cur) then None else m_yielder (fib w x);
  st_next : forall x, m_yielderNextState (fib w' x) = m_yielderNextState (fib w x);
  st_exception : forall x, m_exception (fib w' x) = m_exception (fib w x);
  st_thr : forall t', thr w' t' = if decide (t' = t) then mkThread (Some cur) (Some cur) p else thr w t';
  st_fresh : next w' = next w;
}.

#[local] Arguments st_live {_ _ _ _ _ _ _} _ _.
#[local] Arguments st_stack {_ _ _ _ _ _ _} _ _.
#[local] Arguments st_ctx {_ _ _ _ _ _ _} _ _.
#[local] Arguments st_state {_ _ _ _ _ _ _} _ _.
#[local] Arguments st_outer {_ _ _ _ _ _ _} _ _.
#[local] Arguments st_yielder {_ _ _ _ _ _ _} _ _.
#[local] Arguments st_next {_ _ _ _ _ _ _} _ _.
#[local] Arguments st_exception {_ _ _ _ _ _ _} _ _.
#[local] Arguments st_thr {_ _ _ _ _ _ _} _ _.
#[local] Arguments st_fresh {_ _ _ _ _ _ _} _.

Section Settled.
Context (w w' : world) (t : tid) (cur y : fid) (oy : option fid) (p : phase) (c : context).
Context (HI : Inv w) (Hs : th_stack (thr w t) = Some cur) (Hp : th_phase (thr w t) = Resume c) (Hy : m_yielder (fib w cur) = Some y).
Context (HS : settled w w' t cur y oy p).
(** [call] forgets the outer fiber of its child and goes on to run. *)
Context (HC : (c = InCall y /\ p = Run /\ oy = None) \/ ((forall ch, c <> InCall ch) /\ p = Resume c /\ oy = m_outer (fib w y))).

Lemma settled_pending : pending w y (m_yielderNextState (fib w cur)).
Proof. apply (inv_yielder _ HI cur y Hy). Qed.

Lemma settled_next : m_yielderNextState (fib w cur) ∈ [HOLD; TERM; EXCEPT].
Proof.
  destruct settled_pending as (_ & Hpd). destruct (m_ctx (fib w y)) as [[| | | s |] |]; try done.
  - rewrite Hpd. set_solver.
  - destruct Hpd as [-> ?]. done.
  - destruct Hpd as [-> | ->]; set_solver.
Qed.

Lemma settled_ne : y <> cur.
Proof.
  intros E. destruct settled_pending as (_ & Hpd). destruct (inv_on _ HI t cur Hs) as (_ & Hc & _). by rewrite E, Hc in Hpd.
Qed.

Lemma settled_off t' : th_stack (thr w t') <> Some y.
Proof.
  intros Ht. destruct settled_pending as (_ & Hpd). destruct (inv_on _ HI t' y Ht) as (_ & Hc & _). by rewrite Hc in Hpd.
Qed.

Lemma settled_stack t' x : th_stack (thr w' t') = Some x -> th_stack (thr w t') = Some x /\ x <> y.
Proof.
  rewrite (st_thr HS). case_decide as E; cbn; intros Hx.
  - rewrite E. pose proof settled_ne. split; congruence.
  - split; [done |]. intros E'. rewrite E' in Hx. by apply settled_off in Hx.
Qed.

(** The children other than [y] still wait for the same fibers. *)
Lemma settled_outer_old x : x <> y -> m_outer (fib w' x) = m_outer (fib w x).
Proof. intros H. by rewrite (st_outer HS), decide_False. Qed.

Lemma settled_child ch o : m_outer (fib w' ch) = Some o -> m_outer (fib w ch) = Some o.
Proof.
  rewrite (st_outer HS). case_decide as E; [| done]. rewrite E. destruct HC as [(_ & _ & Ho) | (_ & _ & Ho)]; congruence.
Qed.

(** If [cur] is the outer fiber of a fiber then it is in its call of that fiber. *)
Lemma settled_in_call x : m_outer (fib w x) = Some cur -> c = InCall x.
Proof.
  intros Ho. destruct (inv_on _ HI t cur Hs) as (_ & Hc & _).
  destruct (inv_outer _ HI x cur Ho) as (_ & [Hx | (t' & Ht & Hph)]); [congruence |].
  pose proof (inv_one _ HI t t' cur Hs Ht) as E. rewrite <- E in Hph. congruence.
Qed.

Lemma settled_yielder x z : m_yielder (fib w' x) = Some z -> x <> cur /\ z <> y /\ m_yielder (fib w x) = Some z.
Proof.
  rewrite (st_yielder HS). case_decide as E; [done |]. intros Hx. split_and!; auto.
  intros Ez. rewrite Ez in Hx. by apply E, (inv_yielder_one _ HI _ _ y).
Qed.

Lemma settled_phase t' x c0 : th_stack (thr w t') = Some x -> x <> cur -> th_phase (thr w t') = Resume c0 ->
  th_stack (thr w' t') = Some x /\ th_phase (thr w' t') = Resume c0.
Proof. intros H1 H2 H3. rewrite (st_thr HS). case_decide as E; [rewrite E in H1; congruence | done]. Qed.

Lemma settled_resume t' c0 : th_phase (thr w' t') = Resume c0 -> exists x, th_stack (thr w' t') = Some x /\ resumable w' t' x c0.
Proof.
  rewrite (st_thr HS). case_decide as E; cbn.
  - destruct HC as [(_ & Hq & _) | (Hnc & Hq & _)]; rewrite Hq; [done |]. intros [= <-]. exists cur. split; [done |].
    destruct (inv_resume _ HI t c Hp) as (x & Hx & Hr). replace x with cur in Hr by congruence.
    unfold resumable in *. rewrite E, (st_thr HS), decide_True, (st_state HS), (st_exception HS) by done.
    rewrite decide_False by (pose proof settled_ne; congruence). rewrite settled_outer_old by (pose proof settled_ne; congruence). cbn. destruct c as [| ch | | |]; try tauto. by destruct (Hnc ch).
  - intros Hph. destruct (inv_resume _ HI t' c0 Hph) as (x & Hx & Hr). exists x. split; [done |].
    assert (Hxc : x <> cur) by (intros Ex; rewrite Ex in Hx; by pose proof (inv_one _ HI _ _ _ Hs Hx)).
    assert (Hxy : x <> y) by (intros Ex; rewrite Ex in Hx; by apply settled_off in Hx).
    unfold resumable in *. rewrite (st_thr HS), decide_False, (st_state HS), (st_exception HS), (st_yielder HS), !decide_False by done. rewrite (settled_outer_old x) by done.
    destruct c0 as [| ch | | |]; try done. destruct Hr as (Hry & Hro). split; [done |]. rewrite settled_outer_old; [done |].
    intros Ec. rewrite Ec in Hry. by apply Hxc, (inv_yielder_one _ HI _ _ y).
Qed.

Lemma settled_inv : Inv w'.
Proof.
  pose proof settled_ne as Hne. pose proof settled_next as Hn. pose proof settled_pending as (Hpa & Hpc).
  split.
  - intros x. rewrite (st_fresh HS). intros Hx. destruct (inv_new _ HI x Hx) as (H1 & H2 & H3 & H4 & H5).
    unfold blank. rewrite (st_live HS), (st_ctx HS), (st_state HS), (st_outer HS), (st_yielder HS).
    case_decide as E; [rewrite E, H2 in *; done |]. case_decide; auto.
  - intros t1 t2 x (H1 & _)%settled_stack (H2 & _)%settled_stack. by apply (inv_one _ HI t1 t2 x).
  - intros t1 x (H1 & H2)%settled_stack. rewrite (st_live HS), (st_ctx HS), (st_state HS), decide_False by done. by apply (inv_on _ HI t1).
  - intros x c0. rewrite (st_ctx HS), (st_live HS). apply (inv_live _ HI).
  - intros x. rewrite (st_stack HS), (st_live HS). apply (inv_stack _ HI).
  - intros t1. rewrite (st_thr HS). case_decide; [done | apply (inv_run _ HI)].
  - apply settled_resume.
  - intros x z (Hx & Hz & Hyz)%settled_yielder. destruct (inv_yielder _ HI x z Hyz) as (H1 & H2 & t1 & c1 & H3 & H4).
    split_and!.
    + unfold pending in *. by rewrite (st_next HS), (st_state HS), (st_ctx HS), decide_False.
    + by rewrite (st_next HS), settled_outer_old.
    + exists t1, c1. by apply settled_phase.
  - intros x x' z (_ & _ & H1)%settled_yielder (_ & _ & H2)%settled_yielder. by apply (inv_yielder_one _ HI _ _ z).
  - intros x. rewrite (st_state HS), (st_ctx HS). case_decide; [intros E; rewrite E in Hn; set_solver | apply (inv_init _ HI)].
  - intros x. rewrite (st_state HS), (st_ctx HS). case_decide as E; [| apply (inv_hold _ HI)]. rewrite E. intros Eh. rewrite Eh in Hpc.
    destruct (m_ctx (fib w y)) as [[| | | s |] |]; try done; [set_solver | destruct Hpc as [<- _]; set_solver | destruct Hpc; done].
  - intros x ch. rewrite (st_ctx HS), (st_state HS). intros Hc. destruct (inv_call _ HI x ch Hc) as (Ho & Ha).
    assert (x <> y) by (intros E; by rewrite E in Hc; rewrite Hc in Hpc). rewrite decide_False by done. split; [| done].
    rewrite (st_outer HS). case_decide as E; [| done]. destruct HC as [(Ec & _) | (_ & _ & Eo)]; [| congruence].
    destruct (inv_resume _ HI t c Hp) as (z & Hz & Hr). rewrite Ec in Hr. destruct Hr as (_ & Hr).
    destruct (inv_on _ HI t z Hz) as (_ & Hcz & _). congruence.
  - intros x o Hx'. pose proof (settled_child x o Hx') as Hx. destruct (inv_outer _ HI x o Hx) as (H1 & H2).
    rewrite (st_state HS), (st_ctx HS). split.
    + case_decide as E; [| done]. rewrite E in Hx, Hx'. rewrite (st_outer HS), decide_True in Hx' by done.
      destruct HC as [(_ & _ & Eo) | (Hnc & _ & Eo)]; [congruence |].
      destruct (inv_yielder _ HI cur y Hy) as (_ & [Hn0 | [Hn0 | Hn0]] & _); [congruence | | rewrite Hn0; set_solver].
      by apply settled_in_call, Hnc in Hn0.
    + destruct H2 as [Hc | (t1 & H3 & H4)]; [by left |]. right. exists t1. apply settled_phase; auto. intros E. rewrite E in Hx, H3.
      pose proof (inv_one _ HI _ _ _ Hs H3) as Et. pose proof (settled_in_call x Hx) as Ec.
      destruct HC as [(Ec' & _ & Eo) | (Hnc & _)]; [| by apply Hnc in Ec].
      rewrite (st_outer HS), decide_True in Hx' by congruence. congruence.
  - destruct (inv_rank _ HI) as (rank & Hr). exists rank. intros x o Hx%settled_child. auto.
Qed.
End Settled.

(** The methods of [Fiber] that switch, and what runs after a switch, keep the invariant. *)

(** ** The methods that switch *)

Ltac pointwise := split; cbn; intros; unfold insert, fn_insert; cbn; repeat case_decide; subst; cbn; try done.

Lemma switchContext_ok t from c to w w' : switchContext t from c to w = Ok w' ->
  exists c', m_ctx (fib w to) = Some c' /\
    w' = put t (mkThread (th_fiber (thr w t)) (Some to) (Resume c')) (upd to (set_ctx None) (upd from (set_ctx (Some c)) w)).
Proof. unfold switchContext. destruct (m_ctx (fib w to)) as [c' |]; [| done]. intros [= <-]. eauto. Qed.

Lemma enter_call w w' t cur f : Inv w -> calm w t cur -> m_outer (fib w f) = None -> may_enter (m_state (fib w f)) = true ->
  switchContext t cur (InCall f) f
    (upd f (fun F => set_state (if m_exception F then EXCEPT else EXEC) F) (upd f (set_outer (Some cur)) (setThis t (Some f) w))) = Ok w' ->
  Inv w'.
Proof.
  intros HI Hc Ho Hm (c' & Hctx & ->)%switchContext_ok.
  assert (Hne : cur <> f).
  { intros ->. destruct (may_enter_free w f HI Hm) as (Hoff & _). destruct Hc as (Hs & _). by apply Hoff in Hs. }
  assert (Hctx' : m_ctx (fib w f) = Some c').
  { revert Hctx. cbn. rewrite !fn_lookup_insert. done. }
  assert (Hy : m_yielder (fib w f) = None) by by destruct (may_enter_free w f HI Hm) as (_ & _ & _ & ?).
  eapply (switched_inv w _ t cur (InCall f) f c' (if m_exception (fib w f) then EXCEPT else EXEC) (Some cur) None (m_yielderNextState (fib w f)) (Some f));
    [done | done | |].
  - pointwise.
  - left. split_and!; auto. left. split_and!; auto.
    + destruct (m_exception (fib w f)); [by right | by left].
    + destruct (m_exception (fib w f)); done.
Qed.

(** [k] stands for the updates that came first: of the terminating outer fiber, or of the yielder. *)
Lemma enter_yieldTo w w' t cur f s k : Inv w -> calm w t cur -> may_enter (m_state (fib w f)) = true ->
  s ∈ [HOLD; TERM; EXCEPT] -> (s = HOLD \/ m_outer (fib w cur) = None) ->
  (exists p o, k = upd p (set_terminateOuter o)) \/ (exists y s, k = upd f (set_yielder y s)) \/ k = id ->
  switchContext t cur (InYieldTo s) f
    (upd f (set_yielder (Some cur) s) (upd f (set_state EXEC) (k (setThis t (Some f) w)))) = Ok w' ->
  Inv w'.
Proof.
  intros HI Hc Hm Hs Hso Hk (c' & Hctx & ->)%switchContext_ok.
  assert (Hctx' : m_ctx (fib w f) = Some c').
  { revert Hctx. destruct Hk as [(p & o & ->) | [(y & s' & ->) | ->]]; cbn; rewrite !fn_lookup_insert; [| done ..].
    destruct (decide (p = f)) as [-> | ?]; [by rewrite fn_lookup_insert | by rewrite fn_lookup_insert_ne]. }
  assert (Hne : cur <> f).
  { intros ->. destruct (may_enter_free w f HI Hm) as (Hoff & _). destruct Hc as (Hst & _). by apply Hoff in Hst. }
  assert (Hy : m_yielder (fib w f) = None) by by destruct (may_enter_free w f HI Hm) as (_ & _ & _ & ?).
  eapply (switched_inv w _ t cur (InYieldTo s) f c' EXEC (m_outer (fib w f)) (Some cur) s (Some f)); [done | done | |].
  - destruct Hk as [(p & o & ->) | [(y & s' & ->) | ->]]; pointwise.
  - left. split_and!; auto. right. split_and!; auto.
Qed.

Lemma go_back w w' t cur f c s : Inv w -> calm w t cur -> m_outer (fib w cur) = Some f ->
  (c = InYield /\ s = HOLD) \/ (c = InExit /\ (s = TERM \/ s = EXCEPT)) ->
  switchContext t cur c f (upd f (set_yielder (Some cur) s) w) = Ok w' -> Inv w'.
Proof.
  intros HI Hc Ho Hs (c' & Hctx & ->)%switchContext_ok.
  assert (Hctx' : m_ctx (fib w f) = Some c') by (revert Hctx; cbn; by rewrite !fn_lookup_insert).
  assert (Hne : cur <> f).
  { intros ->. destruct Hc as (Hst & _). destruct (inv_on _ HI t f Hst) as (_ & ? & _). congruence. }
  eapply (switched_inv w _ t cur c f c' (m_state (fib w f)) (m_outer (fib w f)) (Some cur) s (th_fiber (thr w t))); [done | done | |].
  - pointwise.
  - right. split_and!; auto.
Qed.

Lemma getThis_fib w t cur w1 f : Inv w -> getThis t w = (cur, w1) -> f <> next w \/ th_fiber (thr w t) <> None -> fib w1 f = fib w f.
Proof.
  unfold getThis. destruct (th_fiber (thr w t)) eqn:E; intros HI [= <- <-] [Hf | Hf]; try done.
  cbn. by rewrite fn_lookup_insert_ne.
Qed.

Lemma getThis_calm w t cur : calm w t cur -> getThis t w = (cur, w).
Proof. intros (_ & H & _). unfold getThis. by rewrite H. Qed.

Lemma call_inv w w' t f : Inv w -> th_phase (thr w t) = Run -> Fiber_call t f w = Ok w' -> Inv w'.
Proof.
  intros HI Hrun. unfold Fiber_call, ASSERT. case_bool_decide as Ho; [| done]. cbn.
  destruct (getThis t w) as (cur, w1) eqn:Hg. destruct (getThis_inv w t cur w1 HI Hrun Hg) as (HI1 & Hc).
  destruct (may_enter (m_state (fib w1 f))) eqn:Hm; cbn; [| done]. destruct (Nat.eqb_spec cur f) as [? | Hne]; cbn; [done |].
  apply enter_call; auto.
  destruct (decide (f = next w)) as [-> | Hf].
  - unfold getThis in Hg. destruct (th_fiber (thr w t)); simplify_eq; cbn; by rewrite ?fn_lookup_insert.
  - by rewrite (getThis_fib w t cur w1 f HI Hg) by auto.
Qed.

Lemma inject_inv w w' t f e : Inv w -> th_phase (thr w t) = Run -> Fiber_inject t f e w = Ok w' -> Inv w'.
Proof.
  intros HI Hrun H. eapply call_inv; [| | exact H]; [| done].
  eapply Inv_like; [exact HI | | done | done]. intros x. apply upd_like. apply set_exception_like.
Qed.

Lemma yield_inv w w' t : Inv w -> th_phase (thr w t) = Run -> Fiber_yield t w = Ok w' -> Inv w'.
Proof.
  intros HI Hrun. unfold Fiber_yield, ASSERT. destruct (getThis t w) as (cur, w1) eqn:Hg.
  destruct (getThis_inv w t cur w1 HI Hrun Hg) as (HI1 & Hc). case_bool_decide as Hs; cbn; [| done].
  destruct (m_outer (fib w1 cur)) as [o |] eqn:Ho; [| done]. apply go_back; auto.
Qed.

Lemma yieldTo_inv w w' t f b : Inv w -> th_phase (thr w t) = Run -> Fiber_yieldTo t f b HOLD w = Ok w' -> Inv w'.
Proof.
  intros HI Hrun. unfold Fiber_yieldTo, ASSERT. destruct (may_enter (m_state (fib w f))) eqn:Hm; cbn -[outermost]; [| done].
  destruct (getThis t w) as (cur, w1) eqn:Hg. destruct (getThis_inv w t cur w1 HI Hrun Hg) as (HI1 & Hc).
  assert (Hf : fib w1 f = fib w f).
  { apply (getThis_fib w t cur); auto. left. intros ->. destruct (inv_new _ HI (next w) (le_n _)) as (_ & _ & Hs & _). by rewrite Hs in Hm. }
  destruct b.
  - destruct (outermost _ _ _) as [p |]; cbn -[outermost]; [| done]. intros H.
    eapply (enter_yieldTo w1 w' t cur f HOLD (upd p (set_terminateOuter (Some cur)))); eauto; [by rewrite Hf | set_solver].
  - intros H. eapply (enter_yieldTo w1 w' t cur f HOLD id); eauto; [by rewrite Hf | set_solver].
Qed.

Lemma calm_like w w' t cur : calm w t cur -> like (fib w cur) (fib w' cur) -> (forall t, thr w' t = thr w t) -> calm w' t cur.
Proof. intros (H1 & H2 & H3 & H4) (_ & _ & _ & _ & _ & _ & H & _) Ht. unfold calm. rewrite Ht, <- H. auto. Qed.

Lemma exit_inv w w' t cur s : Inv w -> calm w t cur -> s = TERM \/ s = EXCEPT -> exitPoint t cur s w = Ok w' -> Inv w'.
Proof.
  intros HI Hc Hs. unfold exitPoint, ASSERT. set (to := m_terminateOuter (fib w cur) ≫= _).
  destruct to as [o |] eqn:Hto, (m_outer (fib w cur)) as [u |] eqn:Ho; cbn; try done.
  - destruct (Nat.eqb_spec u cur); cbn; [done |]. apply go_back; auto.
  - destruct (Nat.eqb_spec o cur) as [? | Hne]; cbn; [done |]. unfold Fiber_yieldTo, ASSERT.
    destruct (may_enter _) eqn:Hm; cbn; [| done]. case_bool_decide as Hin; cbn; [| done].
    assert (Hc1 : calm (upd o (set_yielder (Some cur) s) w) t cur).
    { destruct Hc as (H1 & H2 & H3 & H4). split_and!; auto. cbn. by rewrite fn_lookup_insert_ne. }
    rewrite (getThis_calm _ t cur Hc1). cbn. intros H.
    eapply (enter_yieldTo w w' t cur o s (upd o (set_yielder (Some cur) s))); eauto.
    revert Hm. cbn. by rewrite fn_lookup_insert.
  - destruct (Nat.eqb_spec u cur); cbn; [done |]. apply go_back; auto.
Qed.

Lemma leave_calm w t cur : Inv w -> th_phase (thr w t) = Run -> th_stack (thr w t) = Some cur -> calm w t cur.
Proof.
  intros HI Hrun Hs. pose proof (inv_run _ HI t Hrun) as Hf. rewrite Hs in Hf.
  destruct (getThis t w) as (c, w1) eqn:Hg. destruct (getThis_inv w t c w1 HI Hrun Hg) as (_ & Hc).
  unfold getThis in Hg. rewrite Hf in Hg. by simplify_eq.
Qed.

Lemma return_inv w w' t cur : Inv w -> calm w t cur -> Fiber_return t cur w = Ok w' -> Inv w'.
Proof.
  intros HI Hc H. assert (Hl : forall x, like (fib w x) (fib (upd cur (set_dg false) w) x)) by (intros x; apply upd_like, set_dg_like).
  eapply exit_inv; [| | | exact H]; [by eapply Inv_like | by eapply calm_like | by left].
Qed.

Lemma throw_inv w w' t cur e : Inv w -> calm w t cur -> Fiber_throw t cur e w = Ok w' -> Inv w'.
Proof.
  intros HI Hc H. assert (Hl : forall x, like (fib w x) (fib (upd cur (set_exception (Some e)) w) x)) by (intros x; apply upd_like, set_exception_like).
  eapply exit_inv; [| | | exact H]; [by eapply Inv_like | by eapply calm_like | by right].
Qed.

(** ** After a switch *)

Lemma run_inv w t cur c : Inv w -> th_stack (thr w t) = Some cur -> th_phase (thr w t) = Resume c -> (forall ch, c <> InCall ch) ->
  m_yielder (fib w cur) = None -> Inv (running_on t w).
Proof.
  intros HI Hs Hp Hc Hy.
  assert (Hf : th_fiber (thr w t) = Some cur).
  { destruct (inv_resume _ HI t c Hp) as (x & Hx & Hr). replace x with cur in Hr by congruence.
    destruct c; cbn in Hr; try naive_solver. }
  assert (Hthr : forall t', thr (running_on t w) t' = if decide (t' = t) then mkThread (Some cur) (Some cur) Run else thr w t').
  { intros t'. unfold running_on, put; cbn. rewrite Hs, Hf. case_decide as E; [by rewrite E, fn_lookup_insert | by rewrite fn_lookup_insert_ne]. }
  assert (Hstk : forall t', th_stack (thr (running_on t w) t') = th_stack (thr w t')).
  { intros t'. rewrite Hthr. case_decide as E; [by rewrite E, Hs | done]. }
  destruct HI. split; auto; unfold running_on in *; cbn [fib next put] in *.
  - intros t1 t2 x. rewrite !Hstk. eauto.
  - intros t1 x. rewrite Hstk. eauto.
  - intros t1. rewrite Hthr. case_decide; eauto.
  - intros t1 c0. rewrite Hthr. case_decide as E; [done |]. intros Hp1. destruct (inv_resume t1 c0 Hp1) as (x & Hx & Hr).
    exists x. split; [done |]. apply (resumable_eq w); auto. rewrite Hthr. by rewrite decide_False.
  - intros x y Hxy. destruct (inv_yielder x y Hxy) as (H1 & H2 & t1 & c1 & H3 & H4). split_and!; auto.
    exists t1, c1. rewrite Hthr. case_decide as E; [congruence | done].
  - intros x o Ho. destruct (inv_outer x o Ho) as (H1 & [H2 | (t1 & H2 & H3)]); split; auto. right. exists t1.
    rewrite Hthr. case_decide as E; [| done]. rewrite E in H3. rewrite H3 in Hp. injection Hp as Hp. by destruct (Hc x).
Qed.

Lemma settle_inv w t cur c : Inv w -> th_stack (thr w t) = Some cur -> th_phase (thr w t) = Resume c -> (forall ch, c <> InCall ch) ->
  Inv (settle_yielder cur w) /\ m_yielder (fib (settle_yielder cur w) cur) = None /\ thr (settle_yielder cur w) = thr w.
Proof.
  intros HI Hs Hp Hc. unfold settle_yielder. destruct (m_yielder (fib w cur)) as [y |] eqn:Hy; [| done].
  split_and!; [| by cbn; rewrite fn_lookup_insert | done].
  pose proof (settled_ne w t cur y HI Hs Hy) as Hne.
  assert (Hf : th_fiber (thr w t) = Some cur).
  { destruct (inv_resume _ HI t c Hp) as (x & Hx & Hr). replace x with cur in Hr by congruence. destruct c; cbn in Hr; try naive_solver. }
  apply (settled_inv w _ t cur y (m_outer (fib w y)) (Resume c) c); auto. unfold settle. pointwise. by destruct (thr w t); cbn in *; subst.
Qed.

(** What [call_resumed] does, whatever it delivers. *)
Lemma call_resumed_ok w w' t cur ch d : call_resumed t cur ch w = Ok (d, w') ->
  m_yielder (fib w cur) = Some ch /\ w' = settle cur ch (upd ch (set_outer None) (setThis t (Some cur) w)).
Proof.
  unfold call_resumed, ASSERT. change (fib (setThis t (Some cur) w)) with (fib w). destruct (m_yielder (fib w cur)) as [y |]; [| done].
  destruct (Nat.eqb_spec y ch) as [-> | ?]; step; [| done]. set (w1 := settle cur ch _).
  generalize (m_state (fib w1 ch)), (m_exception (fib w1 ch)), (bool_decide (m_state (fib w1 cur) = EXEC)).
  intros s e b. destruct s, e, b; cbn; intros [= <- <-]; done.
Qed.

Lemma call_resumed_inv w w' t cur ch d : Inv w -> th_stack (thr w t) = Some cur -> th_phase (thr w t) = Resume (InCall ch) ->
  call_resumed t cur ch w = Ok (d, w') -> Inv (running_on t w').
Proof.
  intros HI Hs Hp (Hy & ->)%call_resumed_ok. pose proof (settled_ne w t cur ch HI Hs Hy) as Hne.
  apply (settled_inv w _ t cur ch None Run (InCall ch)); auto. unfold settle. pointwise.
  - congruence.
Qed.

Lemma resume_inv w w' t d : Inv w -> resume t w = Ok (d, w') -> Inv w'.
Proof.
  intros HI. unfold resume. destruct (th_stack (thr w t)) as [cur |] eqn:Hs; [| done].
  destruct (th_phase (thr w t)) as [| c] eqn:Hp; [done |].
  destruct c as [| ch | | s |]; [| | | | done].
  - destruct (settle_inv w t cur AtEntry HI Hs Hp) as (HI1 & Hy1 & Ht1); [done |].
    destruct (inv_resume _ HI t _ Hp) as (x & Hx & (Hf & _)). replace x with cur in Hf by congruence.
    unfold entryPoint, getThis, ASSERT. rewrite Hf. set (w1 := settle_yielder cur w) in *.
    destruct (m_dg (fib w1 cur)); step; [| done].
    destruct (check_exception cur w1) as [[y | e |] |] eqn:Hch; step; [| | | done].
    + intros [= <- <-]. eapply (run_inv _ t cur); [done | by rewrite Ht1 | by rewrite Ht1 | done | done].
    + destruct (exitPoint t cur EXCEPT w1) as [w2 |] eqn:He; step; [| done]. intros [= <- <-].
      eapply exit_inv; [| | | exact He]; [done | | by right]. split_and!; rewrite ?Ht1; auto. intros ch. congruence.
    + intros [= <- <-]. eapply (run_inv _ t cur); [done | by rewrite Ht1 | by rewrite Ht1 | done | done].
  - destruct (call_resumed t cur ch w) as [(d', w1) |] eqn:Hc; step; [| done]. intros [= <- <-].
    by eapply call_resumed_inv.
  - destruct (settle_inv w t cur InYield HI Hs Hp) as (HI1 & Hy1 & Ht1); [done |].
    unfold yield_resumed. destruct (check_exception _ _) as [d' |]; step; [| done]. intros [= <- <-].
    eapply (run_inv _ t cur); [done | by rewrite Ht1 | by rewrite Ht1 | done | done].
  - destruct (settle_inv w t cur (InYieldTo s) HI Hs Hp) as (HI1 & Hy1 & Ht1); [done |].
    destruct (inv_resume _ HI t _ Hp) as (x & Hx & (_ & Hf & _)). replace x with cur in Hf by congruence.
    unfold yieldTo_resumed, ASSERT. destruct (negb _); step; [| done].
    change (fib (setThis t (Some cur) w)) with (fib w).
    assert (Hthis : forall t', thr (setThis t (Some cur) w) t' = thr w t').
    { intros t'. cbn. destruct (decide (t' = t)) as [-> | ?]; [rewrite fn_lookup_insert | by rewrite fn_lookup_insert_ne].
      rewrite <- Hf. by destruct (thr w t). }
    assert (HI2 : Inv (setThis t (Some cur) w)) by (by apply (Inv_like w); [| intros y; apply like_refl | |]).
    clear HI1 Hy1 Ht1.
    destruct (settle_inv (setThis t (Some cur) w) t cur (InYieldTo s)) as (HI1 & Hy1 & Ht1); [done | by rewrite Hthis | by rewrite Hthis | done |].
    assert (Hrun : Inv (running_on t (settle_yielder cur (setThis t (Some cur) w)))).
    { eapply (run_inv _ t cur); rewrite ?Ht1, ?Hthis; done. }
    unfold settle_yielder in Hrun. change (fib (setThis t (Some cur) w)) with (fib w) in Hrun.
    destruct (m_yielder (fib w cur)) as [y |]; step.
    + intros H. destruct (m_exception _); cbn in H; by simplify_eq.
    + destruct (check_exception _ _); step; [| done]. by intros [= <- <-].
Qed.
