(* ===== verification/FiberCoreProps.v ===== *)
(** The fibers in every reachable world: a fiber is on one stack at a time, only saved contexts are entered, and the
    parts of the methods after a switch find what they expect. *)

From stdpp Require Import functions sets numbers list_numbers list.
From S2P Require Import Prelude FiberCore FiberCoreInv FiberCoreSteps.

Open Scope nat_scope.

Lemma world_new_inv : Inv world_new.
Proof.
  split; try done; cbn.
  exists (fun _ => 0). done.
Qed.

Lemma act_inv t a w w' : Inv w -> th_phase (thr w t) = Run -> permitted t a w -> act t a w = Ok w' -> Inv w'.
Proof.
  intros HI Hrun Hp H. destruct a; cbn in H.
  - destruct (getThis t w) as (cur, w1) eqn:Hg. injection H as <-. by destruct (getThis_inv w t cur w1 HI Hrun Hg).
  - injection H as <-. by apply add_inv.
  - by eapply call_inv.
  - by eapply inject_inv.
  - by eapply yield_inv.
  - by eapply yieldTo_inv.
  - unfold leave in H. destruct (th_stack (thr w t)) as [cur |] eqn:Hs; [| done]. destruct (m_stack (fib w cur)); [| done].
    eapply return_inv; [done | | exact H]. by apply leave_calm.
  - unfold leave in H. destruct (th_stack (thr w t)) as [cur |] eqn:Hs; [| done]. destruct (m_stack (fib w cur)); [| done].
    eapply throw_inv; [done | | exact H]. by apply leave_calm.
  - by eapply reset_inv.
  - by eapply fiber_destroy_inv.
Qed.

Lemma fiber_reachable_inv w : reachable w -> Inv w.
Proof.
  induction 1 as [| w w' _ IH [t a w1 Hrun Hp Ha | t d w1 Hr]]; [apply world_new_inv | by eapply act_inv | by eapply resume_inv].
Qed.

(** ** The chain of outer fibers *)

Lemma outer_lt w f o : Inv w -> m_outer (fib w f) = Some o -> o < next w.
Proof.
  intros HI Ho. apply live_lt; [done |].
  destruct (inv_outer _ HI f o Ho) as (_ & [Hc | (t & Ht & _)]); [by eapply inv_live | by eapply inv_on].
Qed.

Inductive outer_of (w : world) (f : fid) : fid -> Prop :=
| outer_refl : outer_of w f f
| outer_step x o : outer_of w f x -> m_outer (fib w x) = Some o -> outer_of w f o.

Lemma nodup_below (l : list nat) n : NoDup l -> (forall x, x ∈ l -> x < n) -> length l <= n.
Proof.
  intros Hn Hl. rewrite <- (length_seq n 0). apply submseteq_length, NoDup_submseteq; [done |].
  intros x Hx. apply elem_of_seq. specialize (Hl x Hx). lia.
Qed.

Lemma outermost_ok fuel w rank f0 f seen :
  Inv w -> (forall x o, m_outer (fib w x) = Some o -> rank o < rank x) -> f < next w ->
  NoDup seen -> (forall x, x ∈ seen -> x < next w /\ rank f < rank x) -> length seen + fuel = S (next w) -> outer_of w f0 f ->
  exists r, outermost fuel w f = Ok r /\ m_outer (fib w r) = None /\ outer_of w f0 r.
Proof.
  intros HI Hr. revert f seen. induction fuel as [| fuel IH]; intros f seen Hf Hn Hs Hl Hof.
  - assert (length seen <= next w) by (apply nodup_below; [done | intros x Hx; by apply Hs]). lia.
  - cbn. destruct (m_outer (fib w f)) as [o |] eqn:Ho; [| by eauto].
    apply (IH o (f :: seen)); cbn; [by eapply outer_lt | | | lia | by eapply outer_step].
    + constructor; [| done]. intros Hx. apply Hs in Hx. lia.
    + pose proof (Hr f o Ho). intros x [-> | Hx]%elem_of_cons; [done |]. apply Hs in Hx. lia.
Qed.

Lemma outermost_fib fuel w w' f : fib w' = fib w -> outermost fuel w' f = outermost fuel w f.
Proof. intros E. revert f. induction fuel as [| fuel IH]; intros f; cbn; [done |]. rewrite E. by destruct (m_outer (fib w f)). Qed.

(** The loop of [yieldTo] that looks for the outermost fiber ends in every reachable world, at a fiber of the
    chain of callers that has no outer fiber, after at most as many steps as there are fibers. *)
Theorem outermost_terminates w f : reachable w ->
  exists r, outermost (S (next w)) w f = Ok r /\ m_outer (fib w r) = None /\ outer_of w f r.
Proof.
  intros HI%fiber_reachable_inv. destruct (inv_rank _ HI) as (rank & Hr). destruct (decide (f < next w)) as [Hf | Hf].
  - apply (outermost_ok _ w rank f f []); auto; [constructor | intros x Hx; by apply elem_of_nil in Hx | constructor].
  - exists f. cbn. destruct (inv_new _ HI f) as (_ & _ & _ & -> & _); [lia |]. repeat constructor.
Qed.

(** ** Stacks and contexts *)

(** No fiber is ever on two stacks, and a fiber whose state says that it can be entered ([INIT] or [HOLD]) is on
    no stack at all and has a saved context: its state becomes [HOLD] only after it has left the stack. *)
Theorem fiber_one_stack w : reachable w ->
  (forall t t' f, th_stack (thr w t) = Some f -> th_stack (thr w t') = Some f -> t = t') /\
  (forall f, may_enter (m_state (fib w f)) = true -> (forall t, th_stack (thr w t) <> Some f) /\ is_Some (m_ctx (fib w f))).
Proof.
  intros HI%fiber_reachable_inv. split; [apply (inv_one _ HI) |]. intros f Hm. split; [by apply may_enter_free |].
  pose proof (may_enter_ctx w f HI Hm) as Hc. destruct (m_ctx (fib w f)); [by eauto | set_solver].
Qed.

(** Neither an invalid context is entered nor a loop goes on for ever. *)
Definition defined {A} (r : result A) : Prop := r <> Err Undefined /\ r <> Err Diverges.

Lemma switchContext_defined t from c to w : m_ctx (fib w to) <> None -> defined (switchContext t from c to w).
Proof. unfold switchContext. by destruct (m_ctx (fib w to)). Qed.

Lemma may_enter_saved w f : Inv w -> may_enter (m_state (fib w f)) = true -> m_ctx (fib w f) <> None.
Proof. intros HI Hm E. pose proof (may_enter_ctx w f HI Hm) as Hc. rewrite E in Hc. set_solver. Qed.

(** The outer fiber of a fiber on a stack waits in its call. *)
Lemma outer_saved w t cur o : Inv w -> th_stack (thr w t) = Some cur -> m_outer (fib w cur) = Some o -> m_ctx (fib w o) = Some (InCall cur).
Proof.
  intros HI Hs Ho. destruct (inv_outer _ HI cur o Ho) as (_ & [Hc | (t' & Ht & Hp)]); [done |].
  destruct (inv_resume _ HI t' _ Hp) as (x & Hx & Hr & _). replace x with o in Hr by congruence.
  destruct (inv_yielder _ HI o cur Hr) as ((_ & Hpc) & _). destruct (inv_on _ HI t cur Hs) as (_ & Hc & _). by rewrite Hc in Hpc.
Qed.

Lemma outer_ne w f o : Inv w -> m_outer (fib w f) = Some o -> o <> f.
Proof. intros HI Ho ->. destruct (inv_rank _ HI) as (rank & Hr). specialize (Hr f f Ho). lia. Qed.

Lemma upd_ctx f g w x : (forall F, m_ctx (g F) = m_ctx F) -> m_ctx (fib (upd f g w) x) = m_ctx (fib w x).
Proof.
  intros H. destruct (decide (x = f)) as [-> | ?]; [by rewrite upd_eq | by rewrite upd_ne].
Qed.

Lemma call_defined w t f : Inv w -> th_phase (thr w t) = Run -> defined (Fiber_call t f w).
Proof.
  intros HI Hrun. unfold Fiber_call, ASSERT. case_bool_decide as Ho; step; [| done].
  destruct (getThis t w) as (cur, w1) eqn:Hg. destruct (getThis_inv w t cur w1 HI Hrun Hg) as (HI1 & Hc).
  destruct (may_enter (m_state (fib w1 f))) eqn:Hm; step; [| done]. destruct (negb _); step; [| done].
  apply switchContext_defined. rewrite !upd_ctx by done. exact (may_enter_saved w1 f HI1 Hm).
Qed.

Lemma yieldTo_defined w t f b s : Inv w -> th_phase (thr w t) = Run \/ b = false /\ (exists cur, th_fiber (thr w t) = Some cur) -> defined (Fiber_yieldTo t f b s w).
Proof.
  intros HI Hrun. unfold Fiber_yieldTo, ASSERT. destruct (may_enter _) eqn:Hm; step; [| done].
  case_bool_decide; step; [| done]. destruct (getThis t w) as (cur, w1) eqn:Hg.
  assert (HI1 : Inv w1).
  { destruct Hrun as [Hrun | (_ & c & Hc)]; [by destruct (getThis_inv w t cur w1 HI Hrun Hg) |].
    unfold getThis in Hg. rewrite Hc in Hg. by simplify_eq. }
  assert (Hf : fib w1 f = fib w f).
  { apply (getThis_fib w t cur); auto. left. intros ->. destruct (inv_new _ HI (next w) (le_n _)) as (_ & _ & Hs & _). by rewrite Hs in Hm. }
  assert (Hsaved : m_ctx (fib w1 f) <> None) by (rewrite Hf; by apply may_enter_saved).
  destruct b; step; [| by apply switchContext_defined; rewrite !upd_ctx].
  change (next (setThis t (Some f) w1)) with (next w1).
  assert (exists r, outermost (S (next w1)) (setThis t (Some f) w1) f = Ok r) as (r & ->).
  { destruct (inv_rank _ HI1) as (rank & Hr). assert (Hlt : f < next w1).
    { apply live_lt; [done |]. destruct (m_ctx (fib w1 f)) eqn:E; [by eapply inv_live | done]. }
    destruct (outermost_ok (S (next w1)) w1 rank f f []) as (r & Hok & _); auto;
      [constructor | intros x Hx; by apply elem_of_nil in Hx | constructor |].
    exists r. rewrite <- Hok. apply outermost_fib. done. }
  step. apply switchContext_defined. by rewrite !upd_ctx.
Qed.

Lemma exit_defined w t cur s : Inv w -> calm w t cur -> defined (exitPoint t cur s w).
Proof.
  intros HI Hc. unfold exitPoint, ASSERT. set (to := m_terminateOuter (fib w cur) ≫= _).
  assert (Hback : forall o, m_outer (fib w cur) = Some o -> defined (switchContext t cur InExit o (upd o (set_yielder (Some cur) s) w))).
  { intros o Ho. apply switchContext_defined. rewrite upd_ctx by done. destruct Hc as (Hs & _). by rewrite (outer_saved w t cur o). }
  destruct to as [o |], (m_outer (fib w cur)) as [u |] eqn:Ho; step; try done.
  - destruct (negb _); step; [by apply Hback | done].
  - destruct (negb _); step; [| done].
    unfold Fiber_yieldTo, ASSERT. destruct (may_enter _) eqn:Hm; step; [| done]. case_bool_decide; step; [| done].
    unfold getThis. destruct Hc as (_ & Hf & _). cbn [thr upd]. rewrite Hf. step.
    apply switchContext_defined. rewrite !upd_ctx by done. change (fib (setThis t (Some o) ?w)) with (fib w). rewrite upd_ctx by done.
    apply may_enter_saved; [done |]. revert Hm. cbn. by rewrite fn_lookup_insert.
  - destruct (negb _); step; [by apply Hback | done].
Qed.

(** C9 -- Whatever the code of a fiber calls in a reachable world, no method switches to a context that was not saved
    and no loop runs on: a call succeeds, or one of the assertions or checks of the method stops it. *)
Theorem fiber_switch_safe w t a : reachable w -> th_phase (thr w t) = Run -> defined (act t a w).
Proof.
  intros HI%fiber_reachable_inv Hrun. destruct a as [| p d s | f | f e | | f b | | e | f dg | f]; cbn; try done.
  - by apply call_defined.
  - apply call_defined; [| done]. apply (Inv_like w); auto. intros x. apply upd_like, set_exception_like.
  - unfold Fiber_yield, ASSERT. destruct (getThis t w) as (cur, w1) eqn:Hg.
    destruct (getThis_inv w t cur w1 HI Hrun Hg) as (HI1 & Hc & _). case_bool_decide; step; [| done].
    destruct (m_outer (fib w1 cur)) as [o |] eqn:Ho; [| done]. apply switchContext_defined. rewrite upd_ctx by done.
    by rewrite (outer_saved w1 t cur o).
  - apply yieldTo_defined; auto.
  - unfold leave. destruct (th_stack (thr w t)) as [cur |] eqn:Hs; [| done]. destruct (m_stack (fib w cur)); [| done].
    unfold Fiber_return. assert (Hl : forall x, like (fib w x) (fib (upd cur (set_dg false) w) x)) by (intros x; apply upd_like, set_dg_like).
    apply exit_defined; [by apply (Inv_like w) |]. apply (calm_like w); auto. by apply leave_calm.
  - unfold leave. destruct (th_stack (thr w t)) as [cur |] eqn:Hs; [| done]. destruct (m_stack (fib w cur)); [| done].
    unfold Fiber_throw. assert (Hl : forall x, like (fib w x) (fib (upd cur (set_exception (Some e)) w) x)) by (intros x; apply upd_like, set_exception_like).
    apply exit_defined; [by apply (Inv_like w) |]. apply (calm_like w); auto. by apply leave_calm.
  - unfold Fiber_reset, ASSERT. destruct (m_stack _), (at_rest _); done.
  - unfold Fiber_destroy, ASSERT. destruct (m_stack _), (at_rest _), (m_dg _); try done; repeat (case_bool_decide; try done).
Qed.

(** ** Going on after a switch *)

Lemma settle_yielder_cur w t cur c : Inv w -> th_stack (thr w t) = Some cur -> th_phase (thr w t) = Resume c -> forall x,
  th_stack (thr w t) = Some x ->
  m_state (fib (settle_yielder cur w) x) = m_state (fib w x) /\ m_exception (fib (settle_yielder cur w) x) = m_exception (fib w x) /\
  m_dg (fib (settle_yielder cur w) x) = m_dg (fib w x) /\ m_outer (fib (settle_yielder cur w) x) = m_outer (fib w x).
Proof.
  intros HI Hs Hp x Hx. replace x with cur by congruence. unfold settle_yielder. destruct (m_yielder (fib w cur)) as [y |] eqn:Hy; [| done].
  pose proof (settled_ne w t cur y HI Hs Hy) as Hne. unfold settle; cbn. rewrite !fn_lookup_insert. by rewrite !fn_lookup_insert_ne.
Qed.

Lemma check_exception_ok w cur : active (m_state (fib w cur)) -> (m_state (fib w cur) = EXCEPT -> m_exception (fib w cur) <> None) ->
  exists d, check_exception cur w = Ok d /\ d <> Left /\ (forall e, d = Raises e -> m_state (fib w cur) = EXCEPT).
Proof.
  intros Ha He. unfold check_exception, ASSERT. case_bool_decide as E.
  - specialize (He E). destruct (m_exception (fib w cur)) as [e |]; [| done]. exists (Raises e). done.
  - destruct Ha as [Ha | Ha]; [| done]. rewrite Ha. exists (Normal None). by step.
Qed.

Lemma exitPoint_outer t cur s w o : m_outer (fib w cur) = Some o -> o <> cur ->
  exitPoint t cur s w = switchContext t cur InExit o (upd o (set_yielder (Some cur) s) w).
Proof.
  intros Ho Hne. unfold exitPoint, ASSERT. rewrite Ho. destruct (_ ≫= _); (destruct (Nat.eqb_spec o cur); [done | by step]).
Qed.

Lemma exit_outer_ok w t cur o s : Inv w -> calm w t cur -> m_outer (fib w cur) = Some o -> exists w', exitPoint t cur s w = Ok w'.
Proof.
  intros HI Hc Ho. rewrite (exitPoint_outer t cur s w o Ho) by (by eapply outer_ne).
  unfold switchContext. rewrite upd_ctx by done. destruct Hc as (Hs & _). rewrite (outer_saved w t cur o) by done. eauto.
Qed.

(** The part of a method after the switch finds everything as it expects: in a reachable world a thread that
    has just switched to a fiber goes on without an assertion failing, provided a fiber that starts has a function and
    a fiber whose call comes back is not itself handling an injected exception. *)
Theorem fiber_resume_total w t cur c : reachable w -> th_stack (thr w t) = Some cur -> th_phase (thr w t) = Resume c ->
  (c = AtEntry -> m_dg (fib w cur) = true) -> ((exists ch, c = InCall ch) -> m_state (fib w cur) = EXEC) ->
  exists d w', resume t w = Ok (d, w').
Proof.
  intros HI%fiber_reachable_inv Hs Hp Hdg Hex. destruct (inv_resume _ HI t c Hp) as (x & Hx & Hr). replace x with cur in Hr by congruence. clear x Hx.
  destruct (inv_on _ HI t cur Hs) as (_ & _ & Ha). destruct (settle_yielder_cur w t cur c HI Hs Hp cur Hs) as (Es & Ee & Ed & Eo).
  unfold resume. rewrite Hs, Hp. destruct c as [| ch | | s |]; [| | | | done].
  - destruct (settle_inv w t cur AtEntry HI Hs Hp) as (HI1 & Hy1 & Ht1); [done |]. destruct Hr as (Hf & Hr).
    unfold entryPoint, getThis, ASSERT. rewrite Hf, Ed, Hdg by done. step.
    destruct (check_exception_ok (settle_yielder cur w) cur) as (d & -> & Hl & He); rewrite ?Es, ?Ee; [done | by apply Hr |]. step.
    destruct d as [y | e |]; [by eauto | | done]. destruct Hr as (_ & Hro); [rewrite <- Es; by apply (He e) |].
    destruct (m_outer (fib w cur)) as [o |] eqn:Ho; [| done].
    destruct (exit_outer_ok (settle_yielder cur w) t cur o EXCEPT) as (w2 & ->); [done | | by rewrite Eo | by step; eauto].
    split_and!; rewrite ?Ht1; auto. congruence.
  - destruct Hr as (Hry & Hro). assert (He : m_state (fib w cur) = EXEC) by (apply Hex; eauto).
    pose proof (settled_ne w t cur ch HI Hs Hry) as Hne.
    unfold call_resumed, ASSERT. change (fib (setThis t (Some cur) w)) with (fib w). rewrite Hry, Nat.eqb_refl. step.
    set (w1 := settle cur ch _). assert (E : m_state (fib w1 cur) = EXEC).
    { unfold w1, settle; cbn. rewrite !fn_lookup_insert. by rewrite !fn_lookup_insert_ne. }
    rewrite E. generalize (m_state (fib w1 ch)), (m_exception (fib w1 ch)). intros s' e'. destruct s', e'; step; eauto.
  - destruct Hr as (Hf & Hr). unfold yield_resumed.
    destruct (check_exception_ok (settle_yielder cur w) cur) as (d & -> & _); rewrite ?Es, ?Ee; [done | by apply Hr |]. step. eauto.
  - destruct Hr as (-> & Hf & Hr). unfold yieldTo_resumed, ASSERT. rewrite bool_decide_false by done. step.
    change (fib (setThis t (Some cur) w)) with (fib w). destruct (m_yielder (fib w cur)) as [y |].
    + destruct (m_exception (fib (settle cur y _) y)); step; eauto.
    + destruct (check_exception_ok (setThis t (Some cur) w) cur) as (d & -> & _); [done | by apply Hr |]. step. eauto.
Qed.

(** How the function of a called fiber gives control back: it yields, returns or throws. *)
Inductive way := Yields | Returns | Throws (e : Z).

Definition way_act (h : way) : action := match h with Yields => Yield | Returns => Return | Throws e => Throw e end.
Definition way_state (h : way) : State := match h with Yields => HOLD | Returns => TERM | Throws _ => EXCEPT end.
Definition way_delivers (h : way) : delivery := match h with Throws e => Raises e | _ => Normal None end.

(** What a fiber did to itself before it switches to its caller, where it continues, and the state of all fibers after the switch. *)
Definition way_world (h : way) (f : nat) (w : world) : world :=
  match h with Yields => w | Returns => upd f (set_dg false) w | Throws e => upd f (set_exception (Some e)) w end.
Definition way_cont (h : way) : context := match h with Yields => InYield | _ => InExit end.
Definition way_left (h : way) (t f o : nat) (w : world) : world :=
  put t (mkThread (th_fiber (thr w t)) (Some o) (Resume (InCall f)))
    (upd o (set_ctx None) (upd f (set_ctx (Some (way_cont h))) (upd o (set_yielder (Some f) (way_state h)) (way_world h f w)))).

Lemma way_leaves w t f o h : Inv w -> th_phase (thr w t) = Run -> th_stack (thr w t) = Some f ->
  m_stack (fib w f) = true -> m_outer (fib w f) = Some o -> m_state (fib w f) = EXEC -> act t (way_act h) w = Ok (way_left h t f o w).
Proof.
  intros HI Hrun Hs Hst Ho Hf. pose proof (leave_calm w t f HI Hrun Hs) as Hc.
  pose proof (outer_ne w f o HI Ho) as Hne. pose proof (outer_saved w t f o HI Hs Ho) as Hctx.
  assert (Hact : act t (way_act h) w = switchContext t f (way_cont h) o (upd o (set_yielder (Some f) (way_state h)) (way_world h f w))).
  { destruct h; cbn [act way_act]; unfold leave.
    - unfold Fiber_yield. rewrite (getThis_calm w t f Hc). rewrite Hf, Ho. by step.
    - rewrite Hs, Hst. apply exitPoint_outer; [cbn; by rewrite fn_lookup_insert | done].
    - rewrite Hs, Hst. apply exitPoint_outer; [cbn; by rewrite fn_lookup_insert | done]. }
  assert (Hw0 : thr (way_world h f w) = thr w /\ fib (way_world h f w) o = fib w o).
  { destruct h; cbn; rewrite ?fn_lookup_insert_ne by done; done. }
  destruct Hw0 as (Ht0 & Ho0). rewrite Hact. unfold switchContext. rewrite upd_ctx by done. rewrite Ho0, Hctx. unfold way_left. cbn. by rewrite Ht0.
Qed.

Lemma way_left_outer h t f o w : o <> f -> fib (way_left h t f o w) o = set_ctx None (set_yielder (Some f) (way_state h) (fib w o)).
Proof.
  intros Hne. unfold way_left. cbn [fib put]. rewrite upd_eq, upd_ne, upd_eq by done. destruct h; cbn [way_world]; by rewrite ?upd_ne by done.
Qed.

Lemma way_left_self h t f o w : o <> f -> fib (way_left h t f o w) f = set_ctx (Some (way_cont h)) (fib (way_world h f w) f).
Proof. intros Hne. unfold way_left. cbn [fib put]. by rewrite upd_ne, upd_eq, upd_ne by done. Qed.

(** [call] comes back: when the function of a fiber that was called yields, returns or throws, the thread goes
    on in the call of the outer fiber, which sees the exception if there was one; the fiber is left in the state
    [HOLD], [TERM] or [EXCEPT], off the stack and with no outer fiber. *)
Theorem call_comes_back w t f o h : reachable w -> th_phase (thr w t) = Run -> th_stack (thr w t) = Some f ->
  m_stack (fib w f) = true -> m_outer (fib w f) = Some o -> m_state (fib w f) = EXEC -> m_state (fib w o) = EXEC ->
  exists w1 w2, act t (way_act h) w = Ok w1 /\ resume t w1 = Ok (way_delivers h, w2) /\
    thr w2 t = mkThread (Some o) (Some o) Run /\
    m_state (fib w2 f) = way_state h /\ m_outer (fib w2 f) = None /\ is_Some (m_ctx (fib w2 f)) /\ m_state (fib w2 o) = EXEC.
Proof.
  intros HI%fiber_reachable_inv Hrun Hs Hst Ho Hf Heo. pose proof (outer_ne w f o HI Ho) as Hne. set (w1 := way_left h t f o w).
  pose proof (way_left_outer h t f o w Hne) as Hwo. pose proof (way_left_self h t f o w Hne) as Hwf. fold w1 in Hwo, Hwf.
  exists w1. unfold resume, w1 at 2 3. unfold way_left. cbn [thr put]. rewrite fn_lookup_insert. cbn [th_stack th_phase].
  unfold call_resumed, ASSERT. change (fib (setThis t (Some o) w1)) with (fib w1).
  rewrite Hwo. cbn [set_ctx set_yielder m_yielder]. rewrite Nat.eqb_refl. step.
  set (w2 := settle o f _).
  assert (H2o : fib w2 o = reset_yielder (fib w1 o)).
  { unfold w2, settle. by rewrite upd_eq, !upd_ne by done. }
  assert (H2f : fib w2 f = set_state (way_state h) (set_outer None (fib w1 f))).
  { unfold w2, settle. rewrite upd_ne, !upd_eq, upd_ne by done. change (fib (setThis t (Some o) w1)) with (fib w1). by rewrite Hwo. }
  assert (Hd : match m_state (fib w2 f), m_exception (fib w2 f) with
    | EXCEPT, Some e => Ok (Raises e, w2)
    | _, _ => mbind (M := result) (fun _ => Ok (Normal None, w2)) (if bool_decide (m_state (fib w2 o) = EXEC) then Ok () else Err Assertion)
    end = Ok (way_delivers h, w2)).
  { rewrite H2f, H2o, Hwo, Hwf. cbn. rewrite Heo. destruct h as [| | e]; cbn; [done.. |]. by rewrite fn_lookup_insert. }
  exists (running_on t w2). rewrite Hd. step. split_and!; [by apply way_leaves | done | ..].
  - unfold running_on. cbn. rewrite !fn_lookup_insert. done.
  - change (fib (running_on t w2)) with (fib w2). by rewrite H2f.
  - change (fib (running_on t w2)) with (fib w2). by rewrite H2f.
  - change (fib (running_on t w2)) with (fib w2). rewrite H2f, Hwf. by eexists.
  - change (fib (running_on t w2)) with (fib w2). by rewrite H2o, Hwo.
Qed.

(** ** Stacks and fiber-local storage *)

(** The size of a new stack is a multiple of the page size, at least what was asked for and less than a page
    more, as long as the sum fits into [size_t]; when nothing is asked for it is the default. *)
Theorem stacksize_bounds (pagesize defaultSize stacksize : Z) :
  (0 < pagesize < 2 ^ 63)%Z -> (0 <= stacksize < 2 ^ 63)%Z ->
  let size := m_stacksize (Fiber_new pagesize defaultSize stacksize) in
  (stacksize = 0 -> size = defaultSize)%Z /\
  (0 < stacksize -> (size mod pagesize = 0 /\ stacksize <= size < stacksize + pagesize))%Z.
Proof.
  intros Hp Hs. cbn. unfold allocStack, round_stacksize.
  assert (Hu : u64 (stacksize + (pagesize - 1)) = (stacksize + (pagesize - 1))%Z) by (apply u64_small; lia). rewrite Hu.
  pose proof (Z.mod_pos_bound (stacksize + (pagesize - 1)) pagesize) as Hm.
  pose proof (Z.div_mod (stacksize + (pagesize - 1)) pagesize) as Hd.
  pose proof (Z.mod_le (stacksize + (pagesize - 1)) pagesize) as Hle.
  rewrite u64_small by lia. split; intros H.
  - subst stacksize. rewrite (Z.mod_small (0 + _)) by lia. by rewrite (proj2 (Z.eqb_eq _ _)) by lia.
  - rewrite (proj2 (Z.eqb_neq _ _)) by lia. split; [| lia].
    replace (stacksize + (pagesize - 1) - (stacksize + (pagesize - 1)) `mod` pagesize)%Z with ((stacksize + (pagesize - 1)) `div` pagesize * pagesize)%Z by lia.
    apply Z.mod_mul. lia.
Qed.

Lemma length_resize {A} (d : A) n l : length (resize d n l) = n.
Proof. unfold resize. rewrite length_app, length_take, length_replicate. lia. Qed.

Lemma lookup_resize {A} (d : A) n l i : i < n -> resize d n l !! i = Some (default d (l !! i)).
Proof.
  intros Hi. unfold resize. destruct (decide (i < length l)) as [H | H].
  - rewrite lookup_app_l by (rewrite length_take; lia). rewrite lookup_take_lt by done. destruct (lookup_lt_is_Some_2 l i H) as [x ->]. done.
  - rewrite lookup_app_r by (rewrite length_take; lia). rewrite length_take. rewrite (lookup_ge_None_2 l i) by lia. cbn. apply lookup_replicate_2. lia.
Qed.

Lemma flsGet_default key F : flsGet key F = default 0%Z (m_fls F !! key).
Proof. unfold flsGet. destruct (Nat.leb_spec (length (m_fls F)) key); [by rewrite lookup_ge_None_2 | done]. Qed.

Lemma flsGet_flsSet key value F : flsGet key (flsSet key value F) = value.
Proof.
  rewrite flsGet_default. unfold flsSet. cbn [m_fls set_fls]. rewrite list_lookup_insert_eq; [done |].
  destruct (Nat.leb_spec (length (m_fls F)) key); [rewrite length_resize; lia | done].
Qed.

(** Fiber-local storage keeps one value per key: a value that was set is found again under its key, the values of
    the other keys stay, a key that was never set reads as zero, and a new key is not one in use. *)
Theorem fls_spec key key' value F indices :
  flsGet key (flsSet key value F) = value /\
  (key' <> key -> flsGet key' (flsSet key value F) = flsGet key' F) /\
  (length (m_fls F) <= key -> flsGet key F = 0%Z) /\
  (let '(k, indices') := flsAlloc indices in
   indices !! k = None /\ indices' !! k = Some true /\ (forall i, i <> k -> indices' !! i = indices !! i)).
Proof.
  split; [apply flsGet_flsSet |]. rewrite !flsGet_default. unfold flsSet. cbn [m_fls set_fls]. set (l := if length (m_fls F) <=? key then _ else _).
  assert (Hl : forall i, default 0%Z (l !! i) = default 0%Z (m_fls F !! i)).
  { unfold l. destruct (Nat.leb_spec (length (m_fls F)) key); [| auto]. intros i.
    destruct (decide (i < key + 1)) as [? | ?]; [by rewrite lookup_resize |].
    rewrite !(lookup_ge_None_2) by (rewrite ?length_resize; lia). done. }
  split_and!.
  - intros Hne. rewrite list_lookup_insert_ne by done. apply Hl.
  - intros H. by rewrite lookup_ge_None_2.
  - unfold flsAlloc. rewrite length_resize. replace (length indices + 1 - 1) with (length indices) by lia. split_and!.
    + by apply lookup_ge_None_2.
    + rewrite list_lookup_insert_eq; [done |]. rewrite length_resize. lia.
    + intros i Hi. rewrite list_lookup_insert_ne by done. destruct (decide (i < length indices)) as [H | H].
      * rewrite lookup_resize by lia. by destruct (lookup_lt_is_Some_2 indices i H) as [x ->].
      * rewrite !lookup_ge_None_2; rewrite ?length_resize; lia || done.
Qed.

(** The last key is given out again after it was freed, although the values are not cleared: a fiber reads under
    the new key what was set under the old one. *)
Theorem fls_stale value F indices :
  let '(key, indices1) := flsAlloc indices in
  exists indices2, flsFree key indices1 = Ok indices2 /\
    fst (flsAlloc indices2) = key /\ flsGet (fst (flsAlloc indices2)) (flsSet key value F) = value.
Proof.
  destruct (flsAlloc indices) as (key, indices1) eqn:E. unfold flsAlloc in E. rewrite length_resize in E.
  replace (length indices + 1 - 1) with (length indices) in E by lia. injection E as <- <-.
  set (l := <[length indices := true]> _). assert (Hlen : length l = length indices + 1) by (unfold l; by rewrite length_insert, length_resize).
  assert (Hk : l !! length indices = Some true) by (unfold l; apply list_lookup_insert_eq; rewrite length_resize; lia).
  exists (resize false (length indices) l). unfold flsFree, ASSERT. rewrite Hlen, Hk.
  rewrite (proj2 (Nat.ltb_lt _ _)) by lia. rewrite bool_decide_true by done. step. rewrite Nat.eqb_refl.
  unfold flsAlloc. cbn [fst]. rewrite !length_resize. replace (length indices + 1 - 1) with (length indices) by lia.
  split_and!; [done | done |]. apply flsGet_flsSet.
Qed.

(** ** Worlds that a script leads to *)

(** A thread acts, or goes on after a switch. *)
Definition move (w : world) (m : tid * option action) : result world :=
  match m with
  | (t, None) => '(_, w') ← resume t w; Ok w'
  | (t, Some a) =>
      match a, th_phase (thr w t) with
      | (Reset _ _ | Destroy _), _ | _, Resume _ => Err Assertion
      | _, Run => act t a w
      end
  end.

Fixpoint play (script : list (tid * option action)) (w : world) : world :=
  match script with
  | [] => w
  | m :: script => match move w m with Ok w' => play script w' | Err _ => w end
  end.

Lemma move_step w m w' : move w m = Ok w' -> step w w'.
Proof.
  destruct m as (t, [a |]); cbn.
  - intros H. destruct (th_phase (thr w t)) eqn:Hp; [| by destruct a].
    apply (step_act w t a w'); [done | by destruct a | by destruct a].
  - destruct (resume t w) as [(d, w1) |] eqn:Hr; cbn; [| done]. intros [= <-]. by eapply step_resume.
Qed.

Lemma play_reachable script w : reachable w -> reachable (play script w).
Proof.
  revert w. induction script as [| m script IH]; intros w Hw; cbn -[move]; [done |].
  destruct (move w m) eqn:E; [| done]. apply IH. eapply reachable_step; [done | by eapply move_step].
Qed.

(** A fiber that calls a second one, which runs. *)
Definition calling : world :=
  play [(0, Some GetThis); (0, Some (New 4096 1048576 5000)); (0, Some (Call 1)); (0, None)] world_new.

Lemma calling_reachable : reachable calling.
Proof. apply play_reachable. constructor. Qed.

(** The same, switching and not yet in the function of the second fiber. *)
Definition switching : world :=
  play [(0, Some GetThis); (0, Some (New 4096 1048576 5000)); (0, Some (Call 1))] world_new.

Lemma switching_reachable : reachable switching.
Proof. apply play_reachable. constructor. Qed.

Lemma outermost_terminates_witness : outermost 3 calling 1 = Ok 0 /\
  exists r, outermost (S (next calling)) calling 1 = Ok r /\ m_outer (fib calling r) = None /\ outer_of calling 1 r.
Proof. split; [vm_compute; reflexivity |]. apply outermost_terminates, calling_reachable. Defined.

Lemma fiber_one_stack_witness : th_stack (thr calling 0) = Some 1 /\
  (forall t t' f, th_stack (thr calling t) = Some f -> th_stack (thr calling t') = Some f -> t = t') /\
  (forall f, may_enter (m_state (fib calling f)) = true -> (forall t, th_stack (thr calling t) <> Some f) /\ is_Some (m_ctx (fib calling f))).
Proof. split; [vm_compute; reflexivity |]. apply fiber_one_stack, calling_reachable. Defined.

Lemma fiber_switch_safe_witness : m_outer (fib calling 1) = Some 0 /\ defined (act 0 Yield calling).
Proof. split; [vm_compute; reflexivity |]. apply fiber_switch_safe; [apply calling_reachable | vm_compute; reflexivity]. Defined.

Lemma fiber_resume_total_witness : exists d w', resume 0 switching = Ok (d, w').
Proof.
  apply (fiber_resume_total switching 0 1 AtEntry); [apply switching_reachable | vm_compute; reflexivity .. | intros [ch H]; discriminate].
Defined.

Lemma call_comes_back_witness : exists w1 w2, act 0 (Throw 7) calling = Ok w1 /\ resume 0 w1 = Ok (Raises 7, w2) /\
  thr w2 0 = mkThread (Some 0) (Some 0) Run /\
  m_state (fib w2 1) = EXCEPT /\ m_outer (fib w2 1) = None /\ is_Some (m_ctx (fib w2 1)) /\ m_state (fib w2 0) = EXEC.
Proof. apply (call_comes_back calling 0 1 0 (Throws 7)); [apply calling_reachable | vm_compute; reflexivity ..]. Defined.

Lemma stacksize_bounds_witness : m_stacksize (Fiber_new 4096 1048576 5000) = 8192%Z /\
  (8192 mod 4096 = 0 /\ 5000 <= 8192 < 5000 + 4096)%Z.
Proof.
  split; [vm_compute; reflexivity |].
  exact (proj2 (stacksize_bounds 4096 1048576 5000 ltac:(lia) ltac:(lia)) ltac:(lia)).
Defined.
