(* ===== verification/Scheduler.v ===== *)
(** [scheduler.h] and [scheduler.cpp]: the queue of a scheduler, the choice of a batch in [run], what becomes of the
    threads, and how a fiber gets on and off a scheduler.  A section under [m_mutex] is one function. *)

From stdpp Require Import numbers list_numbers list.
From S2P Require Import Prelude Stream FiberCore.

(** A function scheduled without a fiber is known by a number; the empty thread id is [None]. *)
Definition dg : Type := nat.

Record FiberAndThread := mkFT { ft_fiber : option fid; ft_dg : option dg; ft_thread : option tid }.

#[global] Instance FiberAndThread_eq_dec : EqDecision FiberAndThread.
Proof. solve_decision. Defined.

(** [m_threads] holds pointers to threads, which can be null. *)
Record Scheduler := mkScheduler {
  m_fibers : list FiberAndThread;
  m_rootThread : option tid;
  m_rootFiber : option fid;
  m_callingFiber : option fid;
  m_threads : list (option tid);
  m_threadCount : Z;
  m_activeThreadCount : Z;
  m_idleThreadCount : Z;
  m_stopping : bool;
  m_autoStop : bool;
  m_batchSize : Z;
}.

Definition set_fibers (l : list FiberAndThread) (s : Scheduler) : Scheduler :=
  mkScheduler l (m_rootThread s) (m_rootFiber s) (m_callingFiber s) (m_threads s) (m_threadCount s) (m_activeThreadCount s) (m_idleThreadCount s) (m_stopping s) (m_autoStop s) (m_batchSize s).
Definition set_callingFiber (f : option fid) (s : Scheduler) : Scheduler :=
  mkScheduler (m_fibers s) (m_rootThread s) (m_rootFiber s) f (m_threads s) (m_threadCount s) (m_activeThreadCount s) (m_idleThreadCount s) (m_stopping s) (m_autoStop s) (m_batchSize s).
Definition set_threads (l : list (option tid)) (s : Scheduler) : Scheduler :=
  mkScheduler (m_fibers s) (m_rootThread s) (m_rootFiber s) (m_callingFiber s) l (m_threadCount s) (m_activeThreadCount s) (m_idleThreadCount s) (m_stopping s) (m_autoStop s) (m_batchSize s).
Definition set_threadCount (n : Z) (s : Scheduler) : Scheduler :=
  mkScheduler (m_fibers s) (m_rootThread s) (m_rootFiber s) (m_callingFiber s) (m_threads s) n (m_activeThreadCount s) (m_idleThreadCount s) (m_stopping s) (m_autoStop s) (m_batchSize s).
Definition set_active (n : Z) (s : Scheduler) : Scheduler :=
  mkScheduler (m_fibers s) (m_rootThread s) (m_rootFiber s) (m_callingFiber s) (m_threads s) (m_threadCount s) n (m_idleThreadCount s) (m_stopping s) (m_autoStop s) (m_batchSize s).
Definition set_idle (n : Z) (s : Scheduler) : Scheduler :=
  mkScheduler (m_fibers s) (m_rootThread s) (m_rootFiber s) (m_callingFiber s) (m_threads s) (m_threadCount s) (m_activeThreadCount s) n (m_stopping s) (m_autoStop s) (m_batchSize s).
Definition set_stopping (b a : bool) (s : Scheduler) : Scheduler :=
  mkScheduler (m_fibers s) (m_rootThread s) (m_rootFiber s) (m_callingFiber s) (m_threads s) (m_threadCount s) (m_activeThreadCount s) (m_idleThreadCount s) b a (m_batchSize s).

(** ** Construction and threads *)

(** [me] is the thread that calls and [free] says that no scheduler controls it; [root] is the new root fiber. *)
Definition Scheduler_new (me : tid) (free : bool) (root : fid) (threads : Z) (useCaller : bool) (batchSize : Z) : result Scheduler :=
  assert: 1 <=? threads ;;
  if useCaller then
    assert: free ;;
    Ok (mkScheduler [] (Some me) (Some root) None [] (u64 (threads - 1)) 0 0 true false batchSize)
  else Ok (mkScheduler [] None None None [] threads 0 0 true false batchSize).

Definition Scheduler_destroy (s : Scheduler) : result unit := assert: m_stopping s ;; Ok tt.

(** The threads get the ids [new]. *)
Definition start (new : list tid) (s : Scheduler) : result Scheduler :=
  if negb (m_stopping s) then Ok s
  else
    let s := set_stopping false (m_autoStop s) s in
    assert: bool_decide (m_threads s = []) ;;
    Ok (set_threads (Some <$> take (Z.to_nat (m_threadCount s)) new) s).

Definition hasWorkToDo (s : Scheduler) : bool := negb (bool_decide (m_fibers s = [])).

Definition stopping (s : Scheduler) : bool :=
  m_stopping s && bool_decide (m_fibers s = []) && (m_activeThreadCount s =? 0).

Definition threadCount (s : Scheduler) : Z := u64 (m_threadCount s + if m_rootFiber s then 1 else 0).

(** The threads that were started and have not left. *)
Definition spawned (s : Scheduler) : list tid := omap id (m_threads s).

(** [threadCount(threads)]: more threads are started at once, in the places from the old count on; with fewer the surplus
    ones leave in [run]. *)
Definition change_threadCount (threads : Z) (new : list tid) (s : Scheduler) : result Scheduler :=
  assert: 1 <=? threads ;;
  let threads := if m_rootFiber s then u64 (threads - 1) else threads in
  if threads =? m_threadCount s then Ok s
  else if m_threadCount s <? threads
  then
    let old := Z.to_nat (m_threadCount s) in
    let resized := resize None (Z.to_nat threads) (m_threads s) in
    Ok (set_threadCount threads (set_threads (take old resized ++ (Some <$> take (Z.to_nat threads - old) new)) s))
  else Ok (set_threadCount threads s).

(** ** Scheduling *)

Definition scheduleNoLock (ft : FiberAndThread) (s : Scheduler) : bool * Scheduler :=
  (bool_decide (m_fibers s = []), set_fibers (m_fibers s ++ [ft]) s).

(** [here] says that the caller runs on this scheduler. *)
Definition shouldTickle (empty here : bool) : bool := empty && negb here.

(** Whether [tickle] is called afterwards. *)
Definition schedule (ft : FiberAndThread) (here : bool) (s : Scheduler) : bool * Scheduler :=
  let '(tickleMe, s) := scheduleNoLock ft s in (shouldTickle tickleMe here, s).

Fixpoint schedule_loop (l : list FiberAndThread) (tickleMe : bool) (s : Scheduler) : bool * Scheduler :=
  match l with
  | [] => (tickleMe, s)
  | ft :: l => let '(b, s) := scheduleNoLock ft s in schedule_loop l (b || tickleMe) s
  end.

Definition schedule_range (l : list FiberAndThread) (here : bool) (s : Scheduler) : bool * Scheduler :=
  let '(tickleMe, s) := schedule_loop l false s in (shouldTickle tickleMe here, s).

(** ** The choice of a batch in [run] *)

(** The variables of one iteration of [run]. *)
Record iteration := mkIteration {
  it_batch : list FiberAndThread;
  it_tickleMe : bool;
  it_dontIdle : bool;
  it_isActive : bool;
}.

Section Run.
(** Which fibers are executing, and the thread that runs. *)
Context (executing : fid -> bool) (me : tid).

Definition for_another_thread (ft : FiberAndThread) : bool :=
  match ft_thread ft with Some t => negb (t =? me)%nat | None => false end.

Definition still_executing (ft : FiberAndThread) : bool :=
  match ft_fiber ft with Some f => executing f | None => false end.

(** The loop over [m_fibers]: [kept] are the items that were passed over. *)
Fixpoint select (threads batchSize active : Z) (rest kept : list FiberAndThread) (it : iteration)
    : result (list FiberAndThread * Z * iteration) :=
  let '(mkIteration batch tickleMe dontIdle isActive) := it in
  match rest with
  | [] => Ok (kept, active, it)
  | ft :: rest' =>
      if (tickleMe || (active =? threads)) && (zlen batch =? batchSize) then Ok (kept ++ rest, active, it)
      else if for_another_thread ft then
        select threads batchSize active rest' (kept ++ [ft]) (mkIteration batch true true isActive)
      else
        assert: bool_decide (ft_fiber ft <> None) || bool_decide (ft_dg ft <> None) ;;
        if still_executing ft then
          select threads batchSize active rest' (kept ++ [ft]) (mkIteration batch tickleMe true isActive)
        else if zlen batch =? batchSize then Ok (kept ++ rest, active, mkIteration batch true dontIdle isActive)
        else
          let active := if isActive then active else u64 (active + 1) in
          select threads batchSize active rest' kept (mkIteration (batch ++ [ft]) tickleMe dontIdle true)
  end.

(** The whole critical section, after the check for surplus threads. *)
Definition choose (isActive : bool) (s : Scheduler) : result (Scheduler * iteration) :=
  '(kept, active, it) ← select (threadCount s) (m_batchSize s) (m_activeThreadCount s) (m_fibers s) [] (mkIteration [] false false isActive);
  let '(mkIteration batch tickleMe dontIdle isActive) := it in
  if bool_decide (batch = []) && isActive
  then Ok (set_active (u64 (active - 1)) (set_fibers kept s), mkIteration batch tickleMe dontIdle false)
  else Ok (set_active active (set_fibers kept s), it).
End Run.

(** [if (m_threads.size() > m_threadCount && gettid() != m_rootThread)] *)
Definition surplus (me : tid) (s : Scheduler) : bool :=
  (m_threadCount s <? zlen (m_threads s)) && negb (bool_decide (m_rootThread s = Some me)).

(** [m_threads.erase(it)] for the thread with the id [me]. *)
Fixpoint erase_thread (me : tid) (l : list (option tid)) : result (list (option tid)) :=
  match l with
  | [] => Err Assertion
  | None :: _ => Err Undefined
  | Some t :: l => if (t =? me)%nat then Ok l else l' ← erase_thread me l; Ok (Some t :: l')
  end.

(** A surplus thread leaves: the idle fiber gets an exception, which comes back out of [inject] when the fiber was
    never started; the flag says whether the next thread is tickled. *)
Definition kill_off (me : tid) (isActive : bool) (idle : State) (s : Scheduler) : result (Scheduler * bool) :=
  let s := if isActive then set_active (u64 (m_activeThreadCount s - 1)) s else s in
  match idle with
  | HOLD => threads ← erase_thread me (m_threads s); Ok (set_threads threads s, m_threadCount s <? zlen threads)
  | INIT => throw operation_aborted
  | _ => Err Assertion
  end.

(** An item of the batch threw: the rest goes back to the end of the queue. *)
Definition give_back (batch : list FiberAndThread) (s : Scheduler) : Scheduler :=
  set_active (u64 (m_activeThreadCount s - 1)) (set_fibers (m_fibers s ++ batch) s).

(** ** Getting on and off a scheduler *)

(** Who calls: the thread, its scheduler ([t_scheduler], by a number) if it has one, and the current fiber. *)
Record caller := mkCaller { co_thread : tid; co_this : option nat; co_fiber : fid }.

(** What [switchTo] does: nothing, or schedule the fiber here and yield to the scheduler of the caller. *)
Inductive switch := Stays | Moves (ft : FiberAndThread) (tickles : bool) (s : Scheduler).

(** [id] names this scheduler. *)
Definition switchTo (c : caller) (id : nat) (thread : option tid) (s : Scheduler) : result switch :=
  match co_this c with
  | None => Err Assertion
  | Some cur =>
      let here := (cur =? id)%nat in
      if here && (bool_decide (thread = None) || bool_decide (thread = Some (co_thread c))) then Ok Stays
      else
        let ft := mkFT (Some (co_fiber c)) None thread in
        let '(tickles, s) := schedule ft here s in Ok (Moves ft tickles s)
  end.

(** The private [yieldTo] up to the switch: the run fiber is reset if it is not on hold.  [run_state] is the state of
    [t_fiber]; the result says whether it was reset. *)
Definition yieldTo_bool (me : tid) (here yieldToCallerOnTerminate : bool) (run_state : State) (s : Scheduler) : result (bool * Scheduler) :=
  assert: here ;;
  assert: negb yieldToCallerOnTerminate || bool_decide (m_rootThread s = Some me) ;;
  if bool_decide (run_state = HOLD) then Ok (false, s)
  else
    let s := set_stopping (m_autoStop s || m_stopping s) (m_autoStop s) s in
    assert: at_rest run_state ;;
    Ok (true, s).

(** The static [yieldTo], on the scheduler of the caller: on the root thread a run fiber that is not on hold yields back to this fiber at its end. *)
Definition yieldTo (c : caller) (run_state : State) (s : Scheduler) : result (bool * Scheduler) :=
  if bool_decide (m_rootThread s = Some (co_thread c)) && (bool_decide (run_state = INIT) || bool_decide (run_state = TERM))
  then yieldTo_bool (co_thread c) true true run_state (set_callingFiber (Some (co_fiber c)) s)
  else yieldTo_bool (co_thread c) true false run_state s.

(** [yield] on the scheduler of the caller. *)
Definition yield (c : caller) (run_state : State) (s : Scheduler) : result (bool * Scheduler) :=
  let '(_, s) := schedule (mkFT (Some (co_fiber c)) None None) true s in yieldTo c run_state s.

(** [dispatch] up to the switch. *)
Definition dispatch (c : caller) (run_state : State) (s : Scheduler) : result (bool * Scheduler) :=
  assert: bool_decide (m_rootThread s = Some (co_thread c)) && (m_threadCount s =? 0) ;;
  yieldTo c run_state (set_stopping true true s).
Definition dispatch_resumed (s : Scheduler) : Scheduler := set_stopping (m_stopping s) false s.

(** The start of [stop] on a scheduler of spawned threads only: the number of calls of [tickle]; the threads are joined
    afterwards. *)
Definition stop_spawned (here : bool) (s : Scheduler) : result (Z * Scheduler) :=
  assert: negb here ;;
  Ok (m_threadCount s, set_stopping true (m_autoStop s) s).
