(* ===== verification/SchedulerProps.v ===== *)
(** The batch that a thread of a scheduler takes, and what scheduling, switching and stopping do. *)

From stdpp Require Import numbers list_numbers list.
From S2P Require Import Prelude Stream FiberCore Scheduler.

Definition valid_item (ft : FiberAndThread) : Prop := ft_fiber ft <> None \/ ft_dg ft <> None.

Lemma valid_item_check ft : valid_item ft -> bool_decide (ft_fiber ft <> None) || bool_decide (ft_dg ft <> None) = true.
Proof. intros [H | H]; rewrite (bool_decide_true _ H); [done | apply orb_true_r]. Qed.

Section Select.
Context (executing : fid -> bool) (me : tid) (threads batchSize : Z).

Definition runnable (ft : FiberAndThread) : Prop := for_another_thread me ft = false /\ still_executing executing ft = false.

(** What passing over [rest] does to the variables of the loop: [taken] are the items that were put into the batch
    and [left] the others. *)
Record selected (active active' : Z) (rest left taken : list FiberAndThread) (it it' : iteration) : Prop := mkSelected {
  se_perm : rest ≡ₚ left ++ taken;
  se_taken : taken `sublist_of` rest;
  se_left : left `sublist_of` rest;
  se_batch : it_batch it' = it_batch it ++ taken;
  se_full : zlen (it_batch it) <= batchSize -> zlen (it_batch it') <= batchSize;
  se_runnable : Forall runnable taken;
  se_isActive : it_isActive it' = it_isActive it || bool_decide (taken <> []);
  se_active : active' = active + if negb (it_isActive it) && bool_decide (taken <> []) then 1 else 0;
  se_dontIdle : zlen (it_batch it') < batchSize -> Forall (fun ft => ~ runnable ft) left /\ (left <> [] -> it_dontIdle it' = true);
  se_tickle : it_tickleMe it' = false -> it_tickleMe it = false /\
    ((active' = threads /\ zlen (it_batch it') = batchSize) \/
     Forall (fun ft => for_another_thread me ft = false /\ still_executing executing ft = true) left);
  se_idle_mono : it_dontIdle it = true -> it_dontIdle it' = true;
}.

Lemma selected_skip active active' ft rest left taken it it' tickleMe :
  selected active active' rest left taken (mkIteration (it_batch it) tickleMe true (it_isActive it)) it' ->
  (it_tickleMe it = true -> tickleMe = true) ->
  ~ runnable ft -> (for_another_thread me ft = true -> tickleMe = true) ->
  selected active active' (ft :: rest) (ft :: left) taken it it'.
Proof.
  intros [] Hm Hr Ht. cbn in *. split; auto.
  - by rewrite se_perm0.
  - by constructor.
  - by constructor.
  - intros H. destruct (se_dontIdle0 H) as (H1 & H2). split; [by constructor | auto].
  - intros H. destruct (se_tickle0 H) as (H1 & H2). split; [destruct (it_tickleMe it); [by rewrite Hm in H1 | done] |].
    destruct H2 as [? | H2]; [by left | right]. constructor; [| done].
    destruct (for_another_thread me ft) eqn:Ha; [by rewrite Ht in H1 |]. split; [done |].
    destruct (still_executing executing ft) eqn:He; [done |]. by destruct Hr.
Qed.

Lemma select_spec active rest kept it :
  Forall valid_item rest -> 0 <= active -> (it_isActive it = false -> active + 1 < 2 ^ 64) ->
  exists left taken active' it', select executing me threads batchSize active rest kept it = Ok (kept ++ left, active', it') /\
    selected active active' rest left taken it it'.
Proof.
  revert active kept it. induction rest as [| ft rest IH]; intros active kept [batch tickleMe dontIdle isActive] Hv Ha Ha'; cbn [select]; cbn in Ha'.
  - exists [], [], active, (mkIteration batch tickleMe dontIdle isActive). rewrite app_nil_r. split; [done |].
    split; cbn; rewrite ?app_nil_r; auto; try done; [by rewrite orb_false_r | by rewrite andb_false_r, Z.add_0_r].
  - apply Forall_cons in Hv as (Hv & Hvs).
    assert (Hstop : forall tm, (tm = false -> active = threads /\ zlen batch = batchSize /\ tickleMe = false) -> zlen batch = batchSize ->
      selected active active (ft :: rest) (ft :: rest) [] (mkIteration batch tickleMe dontIdle isActive) (mkIteration batch tm dontIdle isActive)).
    { intros tm Htm Hb. split; cbn; rewrite ?app_nil_r, ?orb_false_r, ?andb_false_r, ?Z.add_0_r; auto; try done;
        [by apply sublist_nil_l | lia | intros H; destruct (Htm H) as (? & ? & ?); auto]. }
    destruct ((tickleMe || (active =? threads)) && (zlen batch =? batchSize)) eqn:Hbreak.
    { apply andb_true_iff in Hbreak as (H1 & H2%Z.eqb_eq). exists (ft :: rest), [], active, (mkIteration batch tickleMe dontIdle isActive).
      split; [done |]. apply Hstop; [| done]. intros ->. apply Z.eqb_eq in H1. auto. }
    destruct (for_another_thread me ft) eqn:Hft.
    { destruct (IH active (kept ++ [ft]) (mkIteration batch true true isActive) Hvs Ha Ha') as (left & taken & active' & it' & -> & Hs).
      exists (ft :: left), taken, active', it'. rewrite <- app_assoc. split; [done |].
      eapply selected_skip; eauto. intros [H _]. congruence. }
    rewrite ASSERT_true by (by apply valid_item_check). step.
    destruct (still_executing executing ft) eqn:He.
    { destruct (IH active (kept ++ [ft]) (mkIteration batch tickleMe true isActive) Hvs Ha Ha') as (left & taken & active' & it' & -> & Hs).
      exists (ft :: left), taken, active', it'. rewrite <- app_assoc. split; [done |].
      eapply selected_skip; eauto; [intros [_ H]; congruence | congruence]. }
    destruct (Z.eqb_spec (zlen batch) batchSize) as [Hb | Hb].
    { exists (ft :: rest), [], active, (mkIteration batch true dontIdle isActive). split; [done |]. by apply Hstop. }
    set (active1 := if isActive then active else u64 (active + 1)).
    assert (Hact : active1 = active + if isActive then 0 else 1).
    { unfold active1. destruct isActive; [lia | by rewrite u64_small by (specialize (Ha' eq_refl); lia)]. }
    destruct (IH active1 kept (mkIteration (batch ++ [ft]) tickleMe dontIdle true) Hvs) as (left & taken & active' & it' & -> & []);
      [destruct isActive; lia | done |].
    exists left, (ft :: taken), active', it'. split; [done |]. cbn in *. split; cbn; auto.
    + rewrite se_perm0. apply Permutation_middle.
    + by constructor.
    + by constructor.
    + rewrite se_batch0. by rewrite <- app_assoc.
    + intros H. apply se_full0. rewrite zlen_app. change (zlen [ft]) with 1. lia.
    + constructor; [| done]. split; auto.
    + rewrite se_isActive0. by destruct isActive.
    + rewrite se_active0, Hact. destruct isActive; cbn; lia.
Qed.
End Select.

(** ** The batch *)

Lemma choose_selected executing me (isActive : bool) s :
  1 <= m_batchSize s -> Forall valid_item (m_fibers s) ->
  (if isActive then 1 else 0) <= m_activeThreadCount s < 2 ^ 64 - 1 ->
  exists s' it left active', choose executing me isActive s = Ok (s', it) /\
    s' = set_active active' (set_fibers left s) /\
    m_fibers s ≡ₚ left ++ it_batch it /\ it_batch it `sublist_of` m_fibers s /\ left `sublist_of` m_fibers s /\
    zlen (it_batch it) <= m_batchSize s /\ Forall (runnable executing me) (it_batch it) /\
    (zlen (it_batch it) < m_batchSize s -> Forall (fun ft => ~ runnable executing me ft) left) /\
    it_isActive it = negb (bool_decide (it_batch it = [])) /\
    active' + (if isActive then 1 else 0) = m_activeThreadCount s + (if it_isActive it then 1 else 0) /\
    (it_batch it = [] -> it_dontIdle it = false -> left = []) /\
    (it_tickleMe it = false ->
      (active' = threadCount s /\ zlen (it_batch it) = m_batchSize s) \/
      Forall (fun ft => for_another_thread me ft = false /\ still_executing executing ft = true) left).
Proof.
  intros Hb Hv Ha. unfold choose.
  destruct (select_spec executing me (threadCount s) (m_batchSize s) (m_activeThreadCount s) (m_fibers s) [] (mkIteration [] false false isActive))
    as (left & taken & active' & [batch tickleMe dontIdle isActive'] & -> & []); [done | destruct isActive; lia | lia |].
  cbn in *. subst batch. assert (Hd : taken = [] -> dontIdle = false -> left = []).
  { intros -> ->. destruct left; [done |]. destruct se_dontIdle0 as (_ & H); [change (zlen []) with 0; lia |]. by discriminate H. }
  destruct (bool_decide (taken = []) && isActive') eqn:E.
  - apply andb_true_iff in E as (->%bool_decide_eq_true & ->). cbn in *. rewrite andb_false_r in se_active0. rewrite orb_false_r in se_isActive0. subst isActive.
    eexists _, _, left, _. split; [done |]. split; [done |]. cbn. rewrite app_nil_r in *. rewrite u64_small by lia. change (zlen []) with 0 in *.
    split_and!; auto; try lia; [by apply se_dontIdle0 |].
    intros H. destruct (se_tickle0 H) as (_ & [[_ ?] | ?]); [lia | by right].
  - eexists _, _, left, _. split; [done |]. split; [done |]. cbn. split_and!; auto.
    + apply se_full0. change (zlen []) with 0. lia.
    + intros H. by apply se_dontIdle0.
    + destruct taken; [done |]. rewrite se_isActive0. apply orb_true_r.
    + rewrite se_active0, se_isActive0. destruct isActive; cbn; [lia |]. case_bool_decide; lia.
    + intros H. destruct (se_tickle0 H) as (_ & ?). done.
Qed.

Lemma choose_props executing me (isActive : bool) s :
  1 <= m_batchSize s -> Forall valid_item (m_fibers s) ->
  (if isActive then 1 else 0) <= m_activeThreadCount s < 2 ^ 64 - 1 ->
  exists s' it, choose executing me isActive s = Ok (s', it) /\
    (spawned s' = spawned s /\ m_threadCount s' = m_threadCount s /\ m_rootFiber s' = m_rootFiber s /\ m_rootThread s' = m_rootThread s /\
     m_batchSize s' = m_batchSize s /\ m_stopping s' = m_stopping s) /\
    m_fibers s ≡ₚ m_fibers s' ++ it_batch it /\ m_fibers s' `sublist_of` m_fibers s /\
    it_isActive it = negb (bool_decide (it_batch it = [])) /\
    m_activeThreadCount s' + (if isActive then 1 else 0) = m_activeThreadCount s + (if it_isActive it then 1 else 0) /\
    (it_batch it = [] -> it_dontIdle it = false -> m_fibers s' = []).
Proof.
  intros Hb Hv Ha. destruct (choose_selected executing me isActive s Hb Hv Ha) as (s' & it & left & active' & H & -> & H1 & H2 & H3 & H4 & H5 & H6 & H7 & H8 & H9 & _).
  eexists _, it. split_and!; try done.
Qed.

(** The critical section of [run] takes items for this thread only, whose fibers are not executing, in the order of
    the queue and no more than the batch size; every item is either in the batch or left in the queue, in order.  When
    the batch is not full, nothing that could run here is left.  The thread counts as active exactly when the batch
    is not empty, which [run] asserts, and the count of the active threads follows it.  A thread that gets nothing
    goes idle only if the queue is empty; and if no other thread is woken, then all threads are active and the batch is
    full, or all that is left are fibers of this thread that are still executing. *)
Theorem choose_spec executing me (isActive : bool) s :
  1 <= m_batchSize s -> Forall valid_item (m_fibers s) ->
  (if isActive then 1 else 0) <= m_activeThreadCount s < 2 ^ 64 - 1 ->
  exists s' it, choose executing me isActive s = Ok (s', it) /\
    m_fibers s ≡ₚ m_fibers s' ++ it_batch it /\ it_batch it `sublist_of` m_fibers s /\ m_fibers s' `sublist_of` m_fibers s /\
    zlen (it_batch it) <= m_batchSize s /\ Forall (runnable executing me) (it_batch it) /\
    (zlen (it_batch it) < m_batchSize s -> Forall (fun ft => ~ runnable executing me ft) (m_fibers s')) /\
    it_isActive it = negb (bool_decide (it_batch it = [])) /\
    m_activeThreadCount s' + (if isActive then 1 else 0) = m_activeThreadCount s + (if it_isActive it then 1 else 0) /\
    (it_batch it = [] -> it_dontIdle it = false -> m_fibers s' = []) /\
    (it_tickleMe it = false ->
      (m_activeThreadCount s' = threadCount s /\ zlen (it_batch it) = m_batchSize s) \/
      Forall (fun ft => for_another_thread me ft = false /\ still_executing executing ft = true) (m_fibers s')).
Proof.
  intros Hb Hv Ha. destruct (choose_selected executing me isActive s Hb Hv Ha) as (s' & it & left & active' & H & -> & Hr).
  eexists _, it. split; [done |]. exact Hr.
Qed.

Lemma choose_spec_witness : exists s' it,
  choose (fun _ => false) 1%nat false
    (mkScheduler [mkFT (Some 3%nat) None (Some 2%nat); mkFT None (Some 7%nat) None; mkFT (Some 4%nat) None (Some 1%nat)] None None None [Some 1; Some 2]%nat 2 0 2 false false 1) = Ok (s', it) /\
  it_batch it = [mkFT None (Some 7%nat) None] /\ it_tickleMe it = true /\ it_isActive it = true /\
  it_isActive it = negb (bool_decide (it_batch it = [])).
Proof.
  eexists _, _. split; [reflexivity |]. split; [reflexivity |]. split; [reflexivity |]. split; [reflexivity |].
  destruct (choose_spec (fun _ => false) 1%nat false
    (mkScheduler [mkFT (Some 3%nat) None (Some 2%nat); mkFT None (Some 7%nat) None; mkFT (Some 4%nat) None (Some 1%nat)] None None None [Some 1; Some 2]%nat 2 0 2 false false 1))
    as (s' & it & Hc & _ & _ & _ & _ & _ & _ & Hia & _); [cbn; lia | | cbn; lia |].
  - apply Forall_cons; split; [by left |]. apply Forall_cons; split; [by right |]. apply Forall_cons; split; [by left | constructor].
  - injection Hc as <- <-. exact Hia.
Defined.

(** ** Scheduling several items *)

Lemma schedule_loop_spec l tickleMe s :
  schedule_loop l tickleMe s = (tickleMe || (bool_decide (m_fibers s = []) && negb (bool_decide (l = []))), set_fibers (m_fibers s ++ l) s).
Proof.
  revert tickleMe s. induction l as [| ft l IH]; intros tickleMe s; cbn [schedule_loop scheduleNoLock].
  - rewrite andb_false_r, orb_false_r, app_nil_r. by destruct s.
  - rewrite IH. cbn. rewrite <- app_assoc. f_equal. rewrite (bool_decide_false (m_fibers s ++ [ft] = [])) by (by destruct (m_fibers s)).
    change (bool_decide (ft :: l = [])) with false. cbn. rewrite andb_true_r, orb_false_r. apply orb_comm.
Qed.

(** Scheduling a range puts its items at the end of the queue in their order, and wakes a thread exactly when the
    queue was empty, there was something to schedule and the caller is not on this scheduler. *)
Theorem schedule_range_spec l here s :
  schedule_range l here s =
    (bool_decide (m_fibers s = []) && negb (bool_decide (l = [])) && negb here, set_fibers (m_fibers s ++ l) s).
Proof. unfold schedule_range. rewrite schedule_loop_spec. done. Qed.

(** ** Surplus threads *)

Lemma erase_thread_spec me (l : list tid) : NoDup l -> me ∈ l ->
  exists l', erase_thread me (Some <$> l) = Ok (Some <$> l') /\ l ≡ₚ me :: l' /\ me ∉ l'.
Proof.
  induction l as [| t l IH]; [by intros _ ?%elem_of_nil |]. intros (Ht & Hn)%NoDup_cons Hin. cbn.
  destruct (Nat.eqb_spec t me) as [-> | Hne]; [by exists l |].
  destruct IH as (l' & -> & Hp & Hni); [done | by apply elem_of_cons in Hin as [? | ?] |]. exists (t :: l'). cbn. split; [done |]. split.
  - rewrite Hp. constructor.
  - apply not_elem_of_cons. auto.
Qed.

(** A thread that is too many takes itself out of the list of threads and out of the count of active ones and
    passes the word on while there are more such threads; but only if its idle fiber has run before: an idle fiber that
    was never started hands the exception back, which then leaves [run] and the thread. *)
Theorem kill_off_spec me (isActive : bool) idle s (threads : list tid) :
  m_threads s = (Some <$> threads) -> NoDup threads -> me ∈ threads ->
  (if isActive then 1 else 0) <= m_activeThreadCount s < 2 ^ 64 ->
  (idle = HOLD -> exists s' threads' again, kill_off me isActive idle s = Ok (s', again) /\
     m_threads s' = (Some <$> threads') /\ threads ≡ₚ me :: threads' /\ me ∉ threads' /\
     m_activeThreadCount s' + (if isActive then 1 else 0) = m_activeThreadCount s /\ m_fibers s' = m_fibers s /\
     (again = true <-> m_threadCount s' < zlen threads')) /\
  (idle = INIT -> kill_off me isActive idle s = throw operation_aborted).
Proof.
  intros Hm Hn Hin Ha. split; intros ->; [| done]. unfold kill_off.
  destruct (erase_thread_spec me threads Hn Hin) as (l' & He & Hp & Hni). exists (set_threads (Some <$> l') (if isActive then set_active (u64 (m_activeThreadCount s - 1)) s else s)), l', (m_threadCount s <? zlen l').
  assert (Hz : zlen (Some <$> l') = zlen l') by (unfold zlen; by rewrite length_fmap).
  destruct isActive; cbn; rewrite Hm, He; cbn; rewrite Hz; (split; [done |]); rewrite ?u64_small by lia; split_and!; auto; try lia; apply Z.ltb_lt.
Qed.

Lemma kill_off_spec_witness : let s := mkScheduler [] None None None (Some <$> [1; 2; 3]%nat) 1 2 0 false false 1 in
  (exists s' again, kill_off 2%nat true HOLD s = Ok (s', again) /\ m_threads s' = (Some <$> [1; 3]%nat) /\ again = true) /\
  kill_off 2%nat true INIT s = throw operation_aborted.
Proof.
  split; [eexists _, _; split; [reflexivity |]; split; reflexivity |].
  apply (kill_off_spec 2%nat true INIT (mkScheduler [] None None None (Some <$> [1; 2; 3]%nat) 1 2 0 false false 1) [1; 2; 3]%nat); [done | | | cbn; lia | done].
  - apply (bool_decide_unpack _). vm_compute. exact I.
  - apply (bool_decide_unpack _). vm_compute. exact I.
Defined.

(** ** The number of threads *)

(** More threads are put behind the ones there are, when those are as many as the count says. *)
Lemma change_threadCount_grows threads new s (old : list tid) :
  m_rootFiber s = None -> m_threads s = (Some <$> old) -> m_threadCount s = zlen old -> zlen old < threads ->
  zlen new = threads - zlen old ->
  change_threadCount threads new s = Ok (set_threadCount threads (set_threads (Some <$> (old ++ new)) s)).
Proof.
  intros Hr Hm Hc Hlt Hn. unfold change_threadCount. rewrite ASSERT_true by (apply Z.leb_le; unfold zlen in *; lia). step. rewrite Hr, Hc, Hm.
  rewrite (proj2 (Z.eqb_neq _ _)) by lia. rewrite (proj2 (Z.ltb_lt _ _)) by lia. do 3 f_equal. unfold resize. unfold zlen in *.
  rewrite length_fmap, Nat2Z.id, fmap_app. rewrite (take_ge (Some <$> old)) by (rewrite length_fmap; lia).
  rewrite take_app_le by (rewrite length_fmap; lia). rewrite (take_ge (Some <$> old)) by (rewrite length_fmap; lia).
  by rewrite take_ge by lia.
Qed.

(** A thread that is too many but has not left yet loses its place to a new one. *)
Example threadCount_drops : let s := mkScheduler [] None None None [Some 1; Some 2; Some 3]%nat 1 0 0 false false 1 in
  (s' ← change_threadCount 2 [9]%nat s; Ok (m_threads s')) = Ok [Some 1; Some 9]%nat.
Proof. reflexivity. Qed.

(** Before [start] the places of the threads that are still to come stay null. *)
Example threadCount_before_start :
  (s ← Scheduler_new 0%nat true 0%nat 2 false 1; s ← change_threadCount 3 [9]%nat s; start [1; 2; 3]%nat s) = Err Assertion /\
  (s ← Scheduler_new 0%nat true 0%nat 2 false 1; s ← change_threadCount 3 [9]%nat s; Ok (m_threads s)) = Ok [None; None; Some 9%nat].
Proof. split; reflexivity. Qed.

(** ** Moving to another scheduler *)

(** [switchTo] stays where it is exactly when the fiber is on the scheduler already and, if a thread was named, on
    that thread; otherwise the fiber is put at the end of the queue of the scheduler it moves to, for that thread, and
    that scheduler is woken if its queue was empty and the fiber comes from another one. *)
Theorem switchTo_spec c id thread s cur :
  co_this c = Some cur ->
  ((cur = id /\ (thread = None \/ thread = Some (co_thread c))) -> switchTo c id thread s = Ok Stays) /\
  (~ (cur = id /\ (thread = None \/ thread = Some (co_thread c))) ->
    switchTo c id thread s = Ok (Moves (mkFT (Some (co_fiber c)) None thread)
      (bool_decide (m_fibers s = []) && bool_decide (cur <> id)) (set_fibers (m_fibers s ++ [mkFT (Some (co_fiber c)) None thread]) s))).
Proof.
  intros Hc. unfold switchTo. rewrite Hc. split.
  - intros (-> & Ht). rewrite Nat.eqb_refl. destruct Ht as [-> | ->]; rewrite (bool_decide_true _ eq_refl); [done | by rewrite orb_true_r].
  - intros H. destruct ((cur =? id)%nat && _) eqn:E.
    + exfalso. apply H. apply andb_true_iff in E as (->%Nat.eqb_eq & E). split; [done |].
      apply orb_true_iff in E as [E%bool_decide_eq_true | E%bool_decide_eq_true]; auto.
    + unfold schedule, scheduleNoLock, shouldTickle.
      assert (Hb : negb (cur =? id)%nat = bool_decide (cur <> id)).
      { destruct (Nat.eqb_spec cur id) as [-> | ?]; [by rewrite bool_decide_false by auto | by rewrite bool_decide_true]. }
      by rewrite Hb.
Qed.

Lemma switchTo_spec_witness : let s := mkScheduler [] None None None [Some 2]%nat 1 0 0 false false 1 in
  switchTo (mkCaller 5%nat (Some 1%nat) 9%nat) 2%nat None s =
    Ok (Moves (mkFT (Some 9%nat) None None) true (set_fibers [mkFT (Some 9%nat) None None] s)).
Proof.
  apply (switchTo_spec (mkCaller 5%nat (Some 1%nat) 9%nat) 2%nat None (mkScheduler [] None None None [Some 2]%nat 1 0 0 false false 1) 1%nat); [done |].
  intros (H & _). discriminate.
Defined.
