(* ===== verification/Pool.v ===== *)
(** [workerpool.cpp] on top of [run] of [scheduler.cpp]: the threads of a pool, which take batches of work, run them and
    sleep on a semaphore, together with the callers who schedule work, change the number of threads and stop the pool.  The pool
    has its own threads only ([useCaller] is false).  The threads take turns between critical sections, calls of the
    semaphore and switches of fibers.  An exception that comes out of an item leaves [run] and with it the function of the
    thread, which ends the process, and so does that of a surplus thread whose idle fiber never ran ([kill_off]): there is no
    step for them. *)

From stdpp Require Import functions numbers list_numbers list.
From S2P Require Import Prelude Stream FiberCore Scheduler.

(** ** [Semaphore] *)

Definition Semaphore_notify (count : Z) : Z := count + 1.
(** [None]: the caller blocks. *)
Definition Semaphore_wait (count : Z) : option Z := if 0 <? count then Some (count - 1) else None.

(** ** A thread in [run] *)

(** Before the critical section; after it; after [tickle]; in [idle] before [stopping] and before [wait]; in the loop over
    the batch; while an item runs; before the last [tickle]; and after [run]. *)
Inductive pc := Scan | AfterScan (tickleMe : bool) | Decide | IdleCheck | IdleWait | Exec | Running (ft : FiberAndThread) | Leaving | Exited.

(** The variables of [run]: the batch, [isActive], [dontIdle] and the state of the idle fiber. *)
Record worker := mkWorker { wk_pc : pc; wk_batch : list FiberAndThread; wk_isActive : bool; wk_dontIdle : bool; wk_idle : State }.

Definition worker_new : worker := mkWorker Scan [] false false INIT.

Definition goto (p : pc) (wk : worker) : worker := mkWorker p (wk_batch wk) (wk_isActive wk) (wk_dontIdle wk) (wk_idle wk).

(** From [MORDOR_ASSERT(isActive == !batch.empty())] to the call of the idle fiber or the loop over the batch. *)
Definition decide_next (wk : worker) (s : Scheduler) : result (worker * Scheduler) :=
  assert: Bool.eqb (wk_isActive wk) (negb (bool_decide (wk_batch wk = []))) ;;
  if bool_decide (wk_batch wk = []) then
    if wk_dontIdle wk then Ok (goto Scan wk, s)
    else if bool_decide (wk_idle wk = TERM) then Ok (goto Leaving wk, s)
    else Ok (goto IdleCheck wk, set_idle (u64 (m_idleThreadCount s + 1)) s)
  else Ok (goto Exec wk, s).

(** [WorkerPool::idle]: one round up to [wait]. *)
Definition idle_check (wk : worker) (s : Scheduler) : worker * Scheduler :=
  if stopping s
  then (mkWorker Scan (wk_batch wk) (wk_isActive wk) (wk_dontIdle wk) TERM, set_idle (u64 (m_idleThreadCount s - 1)) s)
  else (goto IdleWait wk, s).

(** [wait] returns and the idle fiber yields. *)
Definition idle_wait (wk : worker) (s : Scheduler) (count : Z) : option (worker * Scheduler * Z) :=
  count' ← Semaphore_wait count;
  Some (mkWorker Scan (wk_batch wk) (wk_isActive wk) (wk_dontIdle wk) HOLD, set_idle (u64 (m_idleThreadCount s - 1)) s, count').

(** The next item of the batch, which is taken from its end: it runs, or there is nothing to run. *)
Inductive start_item := Runs (fibers : fid -> State) | Nothing.

Definition run_item (ft : FiberAndThread) (fibers : fid -> State) : result start_item :=
  match ft_fiber ft with
  | Some f =>
      if bool_decide (fibers f = TERM) then match ft_dg ft with Some _ => Ok (Runs fibers) | None => Ok Nothing end
      else assert: may_enter (fibers f) ;; Ok (Runs (<[f := EXEC]> fibers))
  | None => match ft_dg ft with Some _ => Ok (Runs fibers) | None => Ok Nothing end
  end.

(** ** The pool *)

(** [p_tickles] calls of [tickle] are still to come from callers outside the pool; [p_scheduled] and [p_done] are the items
    that were ever scheduled and that a thread is finished with; [p_shrunk] says that at some time there were more threads than
    [threadCount] asked for. *)
Record pool := mkPool {
  p_sched : Scheduler;
  p_count : Z;
  p_workers : tid -> worker;
  p_fibers : fid -> State;
  p_tickles : Z;
  p_scheduled : list FiberAndThread;
  p_done : list FiberAndThread;
  p_shrunk : bool;
}.

Definition set_worker (t : tid) (wk : worker) (s : Scheduler) (W : pool) : pool :=
  mkPool s (p_count W) (<[t := wk]> (p_workers W)) (p_fibers W) (p_tickles W) (p_scheduled W) (p_done W) (p_shrunk W).
Definition set_count (n : Z) (W : pool) : pool :=
  mkPool (p_sched W) n (p_workers W) (p_fibers W) (p_tickles W) (p_scheduled W) (p_done W) (p_shrunk W).
Definition set_pfibers (fibers : fid -> State) (W : pool) : pool :=
  mkPool (p_sched W) (p_count W) (p_workers W) fibers (p_tickles W) (p_scheduled W) (p_done W) (p_shrunk W).
Definition set_tickles (n : Z) (W : pool) : pool :=
  mkPool (p_sched W) (p_count W) (p_workers W) (p_fibers W) n (p_scheduled W) (p_done W) (p_shrunk W).
Definition finished (ft : FiberAndThread) (W : pool) : pool :=
  mkPool (p_sched W) (p_count W) (p_workers W) (p_fibers W) (p_tickles W) (p_scheduled W) (p_done W ++ [ft]) (p_shrunk W).

Definition add_work (ft : FiberAndThread) (here : bool) (W : pool) : pool :=
  let '(tickles, s) := schedule ft here (p_sched W) in
  mkPool s (p_count W) (p_workers W) (p_fibers W) (p_tickles W + if tickles then 1 else 0) (p_scheduled W ++ [ft]) (p_done W) (p_shrunk W).

(** [WorkerPool(threads, false, batchSize)] with the threads [tids]. *)
Definition pool_new (tids : list tid) (batchSize : Z) : result pool :=
  s ← Scheduler_new 0%nat true 0%nat (zlen tids) false batchSize;
  s ← start tids s;
  Ok (mkPool s 0 (fun _ => worker_new) (fun _ => INIT) 0 [] [] false).

(** The threads [new] begin to run. *)
Definition start_workers (new : list tid) (s : Scheduler) (W : pool) : pool :=
  mkPool s (p_count W) (fun t => if bool_decide (t ∈ new) then worker_new else p_workers W t) (p_fibers W) (p_tickles W) (p_scheduled W) (p_done W)
    (p_shrunk W || (m_threadCount s <? zlen (m_threads s))).

Definition executing (W : pool) (f : fid) : bool := bool_decide (p_fibers W f = EXEC).

(** The steps of the threads, by where they are in [run]; then of the callers outside: work is scheduled and the threads are tickled, the pool is stopped, the number of threads
    is changed, which starts threads with ids that are not in use, before the pool is stopped; and what fibers do elsewhere. *)
Inductive step (W : pool) : pool -> Prop :=
| step_scan t s' it :
    t ∈ spawned (p_sched W) -> wk_pc (p_workers W t) = Scan -> surplus t (p_sched W) = false ->
    choose (executing W) t (wk_isActive (p_workers W t)) (p_sched W) = Ok (s', it) ->
    step W (set_worker t (mkWorker (AfterScan (it_tickleMe it)) (it_batch it) (it_isActive it) (it_dontIdle it) (wk_idle (p_workers W t))) s' W)
| step_surplus t s' again :
    t ∈ spawned (p_sched W) -> wk_pc (p_workers W t) = Scan -> surplus t (p_sched W) = true ->
    kill_off t (wk_isActive (p_workers W t)) (wk_idle (p_workers W t)) (p_sched W) = Ok (s', again) ->
    step W (set_count (if again : bool then Semaphore_notify (p_count W) else p_count W) (set_worker t (goto Exited (p_workers W t)) s' W))
| step_after t tickleMe :
    t ∈ spawned (p_sched W) -> wk_pc (p_workers W t) = AfterScan tickleMe ->
    step W (set_count (if tickleMe then Semaphore_notify (p_count W) else p_count W) (set_worker t (goto Decide (p_workers W t)) (p_sched W) W))
| step_decide t wk s' :
    t ∈ spawned (p_sched W) -> wk_pc (p_workers W t) = Decide ->
    decide_next (p_workers W t) (p_sched W) = Ok (wk, s') -> step W (set_worker t wk s' W)
| step_check t :
    t ∈ spawned (p_sched W) -> wk_pc (p_workers W t) = IdleCheck ->
    step W (set_worker t (fst (idle_check (p_workers W t) (p_sched W))) (snd (idle_check (p_workers W t) (p_sched W))) W)
| step_wait t wk s' n :
    t ∈ spawned (p_sched W) -> wk_pc (p_workers W t) = IdleWait ->
    idle_wait (p_workers W t) (p_sched W) (p_count W) = Some (wk, s', n) -> step W (set_count n (set_worker t wk s' W))
| step_leave t :
    t ∈ spawned (p_sched W) -> wk_pc (p_workers W t) = Leaving ->
    step W (set_count (if 1 <? threadCount (p_sched W) then Semaphore_notify (p_count W) else p_count W)
      (set_worker t (goto Exited (p_workers W t)) (p_sched W) W))
| step_batch_empty t :
    t ∈ spawned (p_sched W) -> wk_pc (p_workers W t) = Exec -> wk_batch (p_workers W t) = [] ->
    step W (set_worker t (goto Scan (p_workers W t)) (p_sched W) W)
| step_run t batch ft fibers :
    t ∈ spawned (p_sched W) -> wk_pc (p_workers W t) = Exec -> wk_batch (p_workers W t) = batch ++ [ft] ->
    run_item ft (p_fibers W) = Ok (Runs fibers) ->
    step W (set_pfibers fibers (set_worker t (mkWorker (Running ft) batch (wk_isActive (p_workers W t)) (wk_dontIdle (p_workers W t)) (wk_idle (p_workers W t))) (p_sched W) W))
| step_run_nothing t batch ft :
    t ∈ spawned (p_sched W) -> wk_pc (p_workers W t) = Exec -> wk_batch (p_workers W t) = batch ++ [ft] ->
    run_item ft (p_fibers W) = Ok Nothing ->
    step W (finished ft (set_worker t (mkWorker Exec batch (wk_isActive (p_workers W t)) (wk_dontIdle (p_workers W t)) (wk_idle (p_workers W t))) (p_sched W) W))
| step_returns t ft fibers :
    t ∈ spawned (p_sched W) -> wk_pc (p_workers W t) = Running ft ->
    step W (finished ft (set_pfibers fibers (set_worker t (goto Exec (p_workers W t)) (p_sched W) W)))
| step_schedule_here t ft ft' :
    t ∈ spawned (p_sched W) -> wk_pc (p_workers W t) = Running ft' -> ft_fiber ft <> None \/ ft_dg ft <> None ->
    step W (add_work ft true W)
| step_schedule ft : ft_fiber ft <> None \/ ft_dg ft <> None -> step W (add_work ft false W)
| step_tickle : 0 < p_tickles W -> step W (set_tickles (p_tickles W - 1) (set_count (Semaphore_notify (p_count W)) W))
| step_stop n s' : stop_spawned false (p_sched W) = Ok (n, s') ->
    step W (mkPool s' (p_count W) (p_workers W) (p_fibers W) (p_tickles W + n) (p_scheduled W) (p_done W) (p_shrunk W))
| step_threadCount threads new s' :
    m_stopping (p_sched W) = false -> threads < 2 ^ 63 -> NoDup new -> (forall t, t ∈ new -> t ∉ spawned (p_sched W)) ->
    zlen new = Z.max 0 (threads - m_threadCount (p_sched W)) -> change_threadCount threads new (p_sched W) = Ok s' ->
    step W (start_workers new s' W)
| step_fibers fibers : step W (set_pfibers fibers W).

Inductive reachable (tids : list tid) (batchSize : Z) : pool -> Prop :=
| reachable_new W : pool_new tids batchSize = Ok W -> reachable tids batchSize W
| reachable_step W W' : reachable tids batchSize W -> step W W' -> reachable tids batchSize W'.
