(* ===== verification/PoolInv.v ===== *)
(** The threads of a pool in every reachable state: who is active, where every item is, and who will look at the queue
    next. *)

From stdpp Require Import functions numbers list_numbers list.
From S2P Require Import Prelude Stream FiberCore Scheduler SchedulerProps Pool.

(** ** Sums over the threads *)

(** Only the summand of [t] changes. *)
Lemma mbind_insert {A} (ts : list tid) (F : tid -> list A) t x : NoDup ts -> t ∈ ts ->
  exists R, ts ≫= F ≡ₚ F t ++ R /\ ts ≫= <[t := x]> F ≡ₚ x ++ R.
Proof.
  intros Hn Ht. apply elem_of_Permutation in Ht as (ts' & Hp). exists (ts' ≫= F).
  assert (Hni : t ∉ ts') by (rewrite Hp in Hn; by apply NoDup_cons in Hn as [? _]).
  split; rewrite Hp; cbn; [done |]. rewrite fn_lookup_insert. apply Permutation_app_head.
  clear -Hni. induction ts' as [| u ts' IH]; cbn; [done |]. apply not_elem_of_cons in Hni as (Hu & Hni).
  rewrite fn_lookup_insert_ne by done. by rewrite IH.
Qed.

Definition sum {A} (g : worker -> list A) (W : pool) : list A := spawned (p_sched W) ≫= fun t => g (p_workers W t).

(** The items in the hands of a thread, and the thread itself if it counts as active. *)
Definition held (wk : worker) : list FiberAndThread := wk_batch wk ++ match wk_pc wk with Running ft => [ft] | _ => [] end.
Definition counted (wk : worker) : list unit := if wk_isActive wk then [tt] else [].
Definition idling (wk : worker) : list unit := match wk_pc wk with IdleCheck | IdleWait => [tt] | _ => [] end.

Lemma sum_set_worker {A} (g : worker -> list A) t wk s W :
  NoDup (spawned (p_sched W)) -> t ∈ spawned (p_sched W) -> spawned s = spawned (p_sched W) ->
  exists R, sum g W ≡ₚ g (p_workers W t) ++ R /\ sum g (set_worker t wk s W) ≡ₚ g wk ++ R.
Proof.
  intros Hn Ht Hs. destruct (mbind_insert (spawned (p_sched W)) (fun t => g (p_workers W t)) t (g wk) Hn Ht) as (R & H1 & H2).
  exists R. split; [exact H1 |]. rewrite <- H2. unfold sum. cbn. rewrite Hs. clear.
  induction (spawned (p_sched W)) as [| u l IH]; cbn; [done |]. rewrite IH. f_equiv.
  unfold insert, fn_insert. by case_decide.
Qed.

(** ** The invariant *)

(** A thread that will look at the queue again before it can block. *)
Definition committed (wk : worker) : Prop :=
  match wk_pc wk with
  | Scan | Exec | Running _ => True
  | AfterScan b => wk_batch wk <> [] \/ wk_dontIdle wk = true \/ b = true
  | Decide => wk_batch wk <> [] \/ wk_dontIdle wk = true
  | _ => False
  end.

Definition parked (wk : worker) : Prop := wk_pc wk = IdleWait \/ wk_pc wk = Exited.

(** Where the variables of [run] stand. *)
Definition tidy (wk : worker) : Prop :=
  match wk_pc wk with
  | Scan => wk_batch wk = []
  | AfterScan _ | Decide => wk_isActive wk = negb (bool_decide (wk_batch wk = []))
  | Exec | Running _ => wk_isActive wk = true
  | IdleCheck | IdleWait | Leaving | Exited => wk_isActive wk = false /\ wk_batch wk = []
  end.

Record Inv (tids : list tid) (batchSize : Z) (W : pool) : Prop := mkInv {
  inv_all : m_threads (p_sched W) = Some <$> tids;
  inv_count : m_threadCount (p_sched W) = zlen tids /\ m_rootFiber (p_sched W) = None /\ m_rootThread (p_sched W) = None /\ m_batchSize (p_sched W) = batchSize;
  inv_valid : Forall valid_item (m_fibers (p_sched W));
  inv_tidy : forall t, t ∈ tids -> tidy (p_workers W t);
  inv_active : m_activeThreadCount (p_sched W) = zlen (sum counted W);
  inv_nonneg : 0 <= p_count W /\ 0 <= p_tickles W;
  inv_items : p_scheduled W ≡ₚ m_fibers (p_sched W) ++ sum held W ++ p_done W;
  inv_work : m_fibers (p_sched W) <> [] -> 0 < p_count W + p_tickles W \/ (exists t, t ∈ tids /\ committed (p_workers W t)) \/
    (forall t, t ∈ tids -> wk_pc (p_workers W t) = Exited);
  inv_stop : m_stopping (p_sched W) = true -> 0 < p_count W + p_tickles W \/ (exists t, t ∈ tids /\ ~ parked (p_workers W t)) \/
    (forall t, t ∈ tids -> wk_pc (p_workers W t) = Exited);
}.

Lemma spawned_some l : omap id (Some <$> l) = (l : list tid).
Proof. induction l as [| t l IH]; cbn; [done | by rewrite IH]. Qed.

Lemma inv_threads tids batchSize W : Inv tids batchSize W -> spawned (p_sched W) = tids.
Proof. intros []. unfold spawned. rewrite inv_all0. apply spawned_some. Qed.

Lemma choose_threads executing me isActive s s' it : choose executing me isActive s = Ok (s', it) -> m_threads s' = m_threads s.
Proof. unfold choose. destruct (select _ _ _ _ _ _ _ _) as [[[kept active] []] |]; cbn; [| done]. by destruct (_ && _); intros [= <- <-]. Qed.

Section Steps.
Context (tids : list tid) (batchSize : Z).
Context (Hdup : NoDup tids) (Hsize : 0 < zlen tids < 2 ^ 63) (Hbatch : 1 <= batchSize).

Lemma sum_counted_bound W : spawned (p_sched W) = tids -> 0 <= zlen (sum counted W) <= zlen tids.
Proof.
  intros <-. unfold sum. clear Hdup Hsize. induction (spawned (p_sched W)) as [| u l IH]; cbn; [change (zlen []) with 0; lia |].
  rewrite zlen_app, zlen_cons. unfold counted at 1 3. destruct (wk_isActive _); [change (zlen [()]) with 1 | change (zlen []) with 0]; lia.
Qed.

Lemma threadCount_tids W : Inv tids batchSize W -> threadCount (p_sched W) = zlen tids.
Proof. intros []. destruct inv_count0 as (H1 & H2 & _). unfold threadCount. rewrite H1, H2. rewrite u64_small; lia. Qed.

Lemma active_bound W t : Inv tids batchSize W -> t ∈ tids ->
  (if wk_isActive (p_workers W t) then 1 else 0) <= m_activeThreadCount (p_sched W) < 2 ^ 64 - 1.
Proof.
  intros HI Ht. pose proof (sum_counted_bound W (inv_threads _ _ _ HI)) as Hb. rewrite (inv_active _ _ _ HI).
  destruct (sum_set_worker counted t worker_new (p_sched W) W) as (R & H1 & _); [by rewrite (inv_threads _ _ _ HI) .. | done |].
  apply Permutation_length in H1. rewrite length_app in H1. unfold zlen in *. unfold counted in H1 at 2. destruct (wk_isActive _); cbn in H1; lia.
Qed.

(** A step of the thread [t] keeps the invariant if it keeps its own part of it. *)
Lemma worker_inv W t wk s' count' fibers' done' :
  Inv tids batchSize W -> t ∈ tids ->
  m_threads s' = m_threads (p_sched W) -> m_threadCount s' = m_threadCount (p_sched W) -> m_rootFiber s' = m_rootFiber (p_sched W) ->
  m_rootThread s' = m_rootThread (p_sched W) -> m_batchSize s' = m_batchSize (p_sched W) -> m_stopping s' = m_stopping (p_sched W) ->
  Forall valid_item (m_fibers s') -> tidy wk ->
  m_activeThreadCount s' + zlen (counted (p_workers W t)) = m_activeThreadCount (p_sched W) + zlen (counted wk) ->
  0 <= count' ->
  m_fibers (p_sched W) ++ held (p_workers W t) ++ p_done W ≡ₚ m_fibers s' ++ held wk ++ done' ->
  wk_pc (p_workers W t) <> Exited ->
  (m_fibers s' <> [] -> 0 < count' + p_tickles W \/ committed wk \/
    (m_fibers (p_sched W) <> [] /\ ~ committed (p_workers W t) /\ p_count W <= count')) ->
  (m_stopping s' = true -> 0 < count' + p_tickles W \/ ~ parked wk \/ (exists t', t' <> t /\ t' ∈ tids /\ ~ parked (p_workers W t')) \/
    (wk_pc wk = Exited /\ tids = [t])) ->
  Inv tids batchSize (mkPool s' count' (<[t := wk]> (p_workers W)) fibers' (p_tickles W) (p_scheduled W) done' (p_shrunk W)).
Proof.
  intros HI Ht Hms Htc Hrf Hrt Hbs Hst Hv Htd Hac Hc Hit Hex Hwork Hstop.
  assert (Hth : spawned s' = spawned (p_sched W)) by (unfold spawned; by rewrite Hms).
  pose proof (inv_threads _ _ _ HI) as inv_threads0.
  assert (Hset : forall g : worker -> list unit, exists R, sum g W ≡ₚ g (p_workers W t) ++ R /\
    sum g (set_worker t wk s' W) ≡ₚ g wk ++ R).
  { intros g. apply sum_set_worker; [by rewrite (inv_threads _ _ _ HI) .. | done]. }
  destruct HI. split; cbn; auto.
  - congruence.
  - destruct inv_count0 as (? & ? & ? & ?). split_and!; congruence.
  - intros u Hu. unfold insert, fn_insert. case_decide; auto.
  - destruct (Hset counted) as (R & H1 & H2). change (sum counted _) with (sum counted (set_worker t wk s' W)).
    apply Permutation_length in H1, H2. unfold zlen in *. rewrite H2, length_app. rewrite H1, length_app in inv_active0. lia.
  - lia.
  - destruct (sum_set_worker held t wk s' W) as (R & H1 & H2); [by rewrite inv_threads0 .. | done |].
    change (sum held _) with (sum held (set_worker t wk s' W)). rewrite H2, inv_items0, H1.
    transitivity ((m_fibers (p_sched W) ++ held (p_workers W t) ++ p_done W) ++ R); [solve_Permutation |]. rewrite Hit. solve_Permutation.
  - intros Hf. destruct (Hwork Hf) as [H | [H | (H1 & H2 & H3)]]; [by left | right; left; exists t; by rewrite fn_lookup_insert |].
    destruct (inv_work0 H1) as [H | [(u & Hu & H) | H]]; [left; lia | right; left; exists u | exfalso; by apply Hex, H].
    split; [done |]. rewrite fn_lookup_insert_ne; [done |]. intros ->. done.
  - intros Hs. destruct (Hstop Hs) as [H | [H | [(u & Hu & Hu' & H) | (H & ->)]]]; [by left | right; left; exists t; by rewrite fn_lookup_insert | |].
    + right; left. exists u. split; [done |]. by rewrite fn_lookup_insert_ne.
    + right; right. intros u Hu. apply list_elem_of_singleton in Hu as ->. by rewrite fn_lookup_insert.
Qed.

Lemma scan_inv W t s' it : Inv tids batchSize W -> t ∈ tids -> wk_pc (p_workers W t) = Scan ->
  choose (executing W) t (wk_isActive (p_workers W t)) (p_sched W) = Ok (s', it) ->
  Inv tids batchSize (set_worker t (mkWorker (AfterScan (it_tickleMe it)) (it_batch it) (it_isActive it) (it_dontIdle it) (wk_idle (p_workers W t))) s' W).
Proof.
  intros HI Ht Hpc Hch.
  pose proof (inv_count _ _ _ HI) as (Htc & Hrf & Hrt & Hbs). pose proof (inv_tidy _ _ _ HI t Ht) as Htd. unfold tidy in Htd. rewrite Hpc in Htd.
  pose proof (active_bound W t HI Ht) as Hact.
  destruct (choose_props (executing W) t (wk_isActive (p_workers W t)) (p_sched W)) as (s1 & it1 & Hch' & Hfix & Hperm & Hsub & Hia & Hac & Hidle);
    [by rewrite Hbs | apply (inv_valid _ _ _ HI) | done |].
  rewrite Hch in Hch'. injection Hch' as <- <-. destruct Hfix as (F1 & F2 & F3 & F4 & F5 & F6).
  unfold set_worker. apply worker_inv; auto.
  - by eapply choose_threads.
  - pose proof (inv_valid _ _ _ HI) as Hv. rewrite Hperm in Hv. by apply Forall_app in Hv as [? _].
  - unfold counted; cbn. destruct (wk_isActive _), (it_isActive it); cbn; change (zlen [()]) with 1; change (zlen (@nil unit)) with 0; lia.
  - apply (inv_nonneg _ _ _ HI).
  - unfold held; cbn. rewrite Htd, Hpc, !app_nil_r. cbn. rewrite Hperm. solve_Permutation.
  - by rewrite Hpc.
  - intros Hne. right; left. unfold committed; cbn. destruct (decide (it_batch it = [])) as [E | E]; [| by left].
    right; left. destruct (it_dontIdle it) eqn:Hd; [done |]. by destruct (Hne (Hidle E eq_refl)).
  - intros _. right; left. unfold parked; cbn. naive_solver.
Qed.

Lemma counted_same wk wk' : wk_isActive wk' = wk_isActive wk -> counted wk' = counted wk.
Proof. unfold counted. by intros ->. Qed.

Lemma not_committed wk : wk_pc wk = IdleCheck \/ wk_pc wk = Leaving -> ~ committed wk.
Proof. unfold committed. by intros [-> | ->] []. Qed.

Lemma not_parked wk : wk_pc wk <> IdleWait -> wk_pc wk <> Exited -> ~ parked wk.
Proof. intros H1 H2 [H | H]; done. Qed.

Lemma tidy_at W t : Inv tids batchSize W -> t ∈ tids -> tidy (p_workers W t).
Proof. intros HI. apply (inv_tidy _ _ _ HI). Qed.

Lemma after_inv W t b : Inv tids batchSize W -> t ∈ tids -> wk_pc (p_workers W t) = AfterScan b ->
  Inv tids batchSize (set_count (if b then Semaphore_notify (p_count W) else p_count W) (set_worker t (goto Decide (p_workers W t)) (p_sched W) W)).
Proof.
  intros HI Ht Hpc. pose proof (tidy_at W t HI Ht) as Htd. unfold tidy in Htd. rewrite Hpc in Htd.
  pose proof (inv_nonneg _ _ _ HI) as (Hc & Hk). unfold set_count, set_worker, Semaphore_notify; cbn.
  apply worker_inv; auto; cbn.
  - apply (inv_valid _ _ _ HI).
  - destruct b; lia.
  - unfold held; cbn. by rewrite Hpc.
  - by rewrite Hpc.
  - intros Hf. destruct b; [left; lia |]. right. unfold committed. cbn. rewrite ?Hpc.
    destruct (decide (wk_batch (p_workers W t) = [])) as [E | E]; [| by left; left].
    destruct (wk_dontIdle (p_workers W t)); [by left; right |]. right. split_and!; [done | naive_solver | done].
  - intros _. right; left. by apply not_parked.
Qed.

Lemma decide_inv W t wk s' : Inv tids batchSize W -> t ∈ tids -> wk_pc (p_workers W t) = Decide ->
  decide_next (p_workers W t) (p_sched W) = Ok (wk, s') -> Inv tids batchSize (set_worker t wk s' W).
Proof.
  intros HI Ht Hpc. pose proof (tidy_at W t HI Ht) as Htd. unfold tidy in Htd. rewrite Hpc in Htd.
  pose proof (inv_nonneg _ _ _ HI) as (Hc & Hk). pose proof (inv_valid _ _ _ HI) as Hv.
  unfold decide_next. rewrite Htd. rewrite ASSERT_true by (by destruct (negb _)). step.
  assert (Hheld : forall p, (match p with Running _ => False | _ => True end) -> held (goto p (p_workers W t)) = held (p_workers W t)).
  { intros p Hp. unfold held; cbn. rewrite Hpc. by destruct p. }
  case_bool_decide as Hb; [destruct (wk_dontIdle (p_workers W t)) eqn:Hd; [| case_bool_decide as Hi] |]; intros [= <- <-];
    unfold set_worker; apply worker_inv; auto; cbn; rewrite ?Hheld, ?Hpc by done; try done; auto.
  all: try (intros _; right; left; by apply not_parked).
  all: try (intros Hf; right; left; exact I).
  all: try (intros Hf; right; right; split_and!; [done | unfold committed; rewrite Hpc, Hd; naive_solver | done]).
  all: unfold held; by rewrite Hpc.
Qed.

(** Somebody else is awake when the queue is not empty or a thread is active. *)
Lemma someone_awake W t : Inv tids batchSize W -> t ∈ tids -> wk_pc (p_workers W t) = IdleCheck -> m_stopping (p_sched W) = true ->
  stopping (p_sched W) = false -> 0 < p_count W + p_tickles W \/ exists t', t' <> t /\ t' ∈ tids /\ ~ parked (p_workers W t').
Proof.
  intros HI Ht Hpc Hs Hst. unfold stopping in Hst. rewrite Hs in Hst. cbn in Hst. case_bool_decide as Hf.
  - apply Z.eqb_neq in Hst. right.
    assert (exists t', t' ∈ tids /\ wk_isActive (p_workers W t') = true) as (t' & Ht' & Ha).
    { rewrite (inv_active _ _ _ HI) in Hst. unfold sum in Hst. rewrite (inv_threads _ _ _ HI) in Hst. clear -Hst.
      induction tids as [| u l IH]; [done |]. destruct (wk_isActive (p_workers W u)) eqn:E; [exists u; split; [by constructor | done] |].
      cbn in Hst. unfold counted in Hst at 1. rewrite E in Hst. destruct (IH Hst) as (t' & ? & ?). exists t'. split; [by constructor | done]. }
    exists t'. pose proof (tidy_at W t' HI Ht') as Htd. unfold tidy in Htd.
    split_and!; [intros ->; rewrite Hpc in Htd; destruct Htd; congruence | done |].
    intros [Hp | Hp]; rewrite Hp in Htd; destruct Htd; congruence.
  - destruct (inv_work _ _ _ HI Hf) as [H | [(t' & Ht' & H) | H]]; [by left | right; exists t' | specialize (H t Ht); congruence].
    unfold committed in H. split_and!; [intros ->; by rewrite Hpc in H | done |]. intros [Hp | Hp]; by rewrite Hp in H.
Qed.

Lemma check_inv W t : Inv tids batchSize W -> t ∈ tids -> wk_pc (p_workers W t) = IdleCheck ->
  Inv tids batchSize (set_worker t (fst (idle_check (p_workers W t) (p_sched W))) (snd (idle_check (p_workers W t) (p_sched W))) W).
Proof.
  intros HI Ht Hpc. pose proof (tidy_at W t HI Ht) as Htd. unfold tidy in Htd. rewrite Hpc in Htd. destruct Htd as (Hia & Hb).
  pose proof (inv_nonneg _ _ _ HI) as (Hc & Hk). pose proof (inv_valid _ _ _ HI) as Hv.
  assert (Hheld : held (p_workers W t) = []) by (unfold held; by rewrite Hpc, Hb).
  unfold idle_check. destruct (stopping (p_sched W)) eqn:Hst; unfold set_worker; cbn [fst snd]; apply worker_inv; auto; cbn; rewrite ?Hpc; auto.
  - unfold held; cbn. by rewrite Hpc, Hb.
  - intros _. right; left. by apply not_parked.
  - unfold held; cbn. by rewrite Hpc, Hb.
  - intros Hf. right; right. split_and!; [done | apply not_committed; auto | done].
  - intros Hs. destruct (someone_awake W t HI Ht Hpc Hs Hst) as [? | ?]; auto.
Qed.

Lemma wait_inv W t wk s' n : Inv tids batchSize W -> t ∈ tids -> wk_pc (p_workers W t) = IdleWait ->
  idle_wait (p_workers W t) (p_sched W) (p_count W) = Some (wk, s', n) -> Inv tids batchSize (set_count n (set_worker t wk s' W)).
Proof.
  intros HI Ht Hpc. pose proof (tidy_at W t HI Ht) as Htd. unfold tidy in Htd. rewrite Hpc in Htd. destruct Htd as (Hia & Hb).
  unfold idle_wait, Semaphore_wait. destruct (Z.ltb_spec 0 (p_count W)); cbn; [| done]. intros [= <- <- <-].
  pose proof (inv_valid _ _ _ HI) as Hv. unfold set_count, set_worker; cbn. apply worker_inv; auto; cbn; rewrite ?Hpc; auto; try lia.
  - unfold held; cbn. by rewrite Hpc, Hb.
  - intros _. right; left. by apply not_parked.
Qed.

Lemma leave_inv W t : Inv tids batchSize W -> t ∈ tids -> wk_pc (p_workers W t) = Leaving ->
  Inv tids batchSize (set_count (if 1 <? threadCount (p_sched W) then Semaphore_notify (p_count W) else p_count W)
    (set_worker t (goto Exited (p_workers W t)) (p_sched W) W)).
Proof.
  intros HI Ht Hpc. pose proof (tidy_at W t HI Ht) as Htd. unfold tidy in Htd. rewrite Hpc in Htd. destruct Htd as (Hia & Hb).
  pose proof (inv_nonneg _ _ _ HI) as (Hc & Hk). pose proof (inv_valid _ _ _ HI) as Hv. rewrite (threadCount_tids W HI).
  unfold set_count, set_worker, Semaphore_notify; cbn. apply worker_inv; auto; cbn; rewrite ?Hpc; auto.
  - destruct (Z.ltb_spec 1 (zlen tids)); lia.
  - unfold held; cbn. by rewrite Hpc, Hb.
  - intros Hf. destruct (Z.ltb_spec 1 (zlen tids)); [left; lia |]. right; right. split_and!; [done | apply not_committed; auto | done].
  - intros Hs. destruct (Z.ltb_spec 1 (zlen tids)) as [? | Hl]; [left; lia |]. right; right; right. split; [done |].
    destruct tids as [| u [| v l]]; [by apply elem_of_nil in Ht | by apply list_elem_of_singleton in Ht as -> |].
    rewrite !zlen_cons in Hl. pose proof (zlen_nonneg l). lia.
Qed.

Lemma batch_empty_inv W t : Inv tids batchSize W -> t ∈ tids -> wk_pc (p_workers W t) = Exec -> wk_batch (p_workers W t) = [] ->
  Inv tids batchSize (set_worker t (goto Scan (p_workers W t)) (p_sched W) W).
Proof.
  intros HI Ht Hpc Hb. pose proof (inv_nonneg _ _ _ HI) as (Hc & Hk). pose proof (inv_valid _ _ _ HI) as Hv.
  unfold set_worker. apply worker_inv; auto; cbn; rewrite ?Hpc; auto.
  - unfold held; cbn. by rewrite Hpc.
  - intros _. right; left. by apply not_parked.
Qed.

(** An item leaves the batch: it runs, or the thread is done with it. *)
Lemma item_inv W t p batch done' fibers' ft :
  Inv tids batchSize W -> t ∈ tids -> wk_pc (p_workers W t) = Exec -> wk_batch (p_workers W t) = batch ++ [ft] ->
  (p = Running ft /\ done' = p_done W) \/ (p = Exec /\ done' = p_done W ++ [ft]) ->
  Inv tids batchSize (mkPool (p_sched W) (p_count W)
    (<[t := mkWorker p batch (wk_isActive (p_workers W t)) (wk_dontIdle (p_workers W t)) (wk_idle (p_workers W t))]> (p_workers W))
    fibers' (p_tickles W) (p_scheduled W) done' (p_shrunk W)).
Proof.
  intros HI Ht Hpc Hb Hp. pose proof (tidy_at W t HI Ht) as Htd. unfold tidy in Htd. rewrite Hpc in Htd.
  pose proof (inv_nonneg _ _ _ HI) as (Hc & Hk). pose proof (inv_valid _ _ _ HI) as Hv.
  destruct Hp as [(-> & ->) | (-> & ->)]; apply worker_inv; auto; cbn; rewrite ?Hpc; auto; unfold held; cbn; rewrite ?Hpc, ?Hb, ?app_nil_r.
  all: try solve_Permutation.
  all: intros _; right; left; by apply not_parked.
Qed.

Lemma returns_inv W t ft fibers' : Inv tids batchSize W -> t ∈ tids -> wk_pc (p_workers W t) = Running ft ->
  Inv tids batchSize (finished ft (set_pfibers fibers' (set_worker t (goto Exec (p_workers W t)) (p_sched W) W))).
Proof.
  intros HI Ht Hpc. pose proof (tidy_at W t HI Ht) as Htd. unfold tidy in Htd. rewrite Hpc in Htd.
  pose proof (inv_nonneg _ _ _ HI) as (Hc & Hk). pose proof (inv_valid _ _ _ HI) as Hv.
  unfold finished, set_pfibers, set_worker; cbn. apply worker_inv; auto; cbn; rewrite ?Hpc; auto.
  - unfold held; cbn. rewrite Hpc, app_nil_r. solve_Permutation.
  - intros _. right; left. by apply not_parked.
Qed.

(** Work is added: by a thread of the pool, which goes on to look at the queue, or from outside. *)
Lemma add_work_inv W ft here : Inv tids batchSize W -> valid_item ft ->
  (here = true -> exists t, t ∈ tids /\ committed (p_workers W t)) -> Inv tids batchSize (add_work ft here W).
Proof.
  intros [] Hv Hh. unfold add_work, schedule, scheduleNoLock, shouldTickle. split; cbn; auto.
  - apply Forall_app. split; [done | by constructor].
  - destruct (_ && _); lia.
  - unfold sum in *; cbn. rewrite inv_items0. solve_Permutation.
  - intros _. destruct here; [right; left; auto |]. rewrite andb_true_r. case_bool_decide as E; [left; lia |].
    destruct (inv_work0 E) as [? | ?]; [left; lia | by right].
  - intros Hs. destruct (inv_stop0 Hs) as [? | ?]; [left; destruct (_ && _); lia | by right].
Qed.

Lemma tickle_inv W : Inv tids batchSize W -> 0 < p_tickles W ->
  Inv tids batchSize (set_tickles (p_tickles W - 1) (set_count (Semaphore_notify (p_count W)) W)).
Proof.
  intros [] Ht. unfold Semaphore_notify. split; cbn; auto; [lia | intros _; left; lia | intros _; left; lia].
Qed.

Lemma stop_inv W n s' : Inv tids batchSize W -> stop_spawned false (p_sched W) = Ok (n, s') ->
  Inv tids batchSize (mkPool s' (p_count W) (p_workers W) (p_fibers W) (p_tickles W + n) (p_scheduled W) (p_done W) (p_shrunk W)).
Proof.
  intros [] [= <- <-]. destruct inv_count0 as (Hn & ?). rewrite Hn. split; cbn; auto; [lia | intros _; left; lia | intros _; left; lia].
Qed.

Lemma fibers_inv W fibers' : Inv tids batchSize W -> Inv tids batchSize (set_pfibers fibers' W).
Proof. intros []. split; auto. Qed.

(** The number of threads is as asked for, so that no thread leaves before the pool is stopped. *)
Lemma no_surplus W t : Inv tids batchSize W -> surplus t (p_sched W) = false.
Proof.
  intros []. destruct inv_count0 as (Hc & _). unfold surplus. rewrite inv_all0, Hc. unfold zlen at 2. rewrite length_fmap. by rewrite (proj2 (Z.ltb_ge _ _)) by (unfold zlen; lia).
Qed.

Lemma pool_step_inv W W' : Inv tids batchSize W -> step W W' -> Inv tids batchSize W' \/ exists threads new s', W' = start_workers new s' W /\
    m_stopping (p_sched W) = false /\ threads < 2 ^ 63 /\ NoDup new /\ (forall t, t ∈ new -> t ∉ tids) /\ zlen new = Z.max 0 (threads - zlen tids) /\
    change_threadCount threads new (p_sched W) = Ok s'.
Proof.
  intros HI Hs. pose proof (inv_threads _ _ _ HI) as Ht. destruct Hs; rewrite ?Ht in *.
  - left. by apply scan_inv.
  - pose proof (no_surplus W t HI). congruence.
  - left. by apply after_inv.
  - left. by eapply decide_inv.
  - left. by apply check_inv.
  - left. by eapply wait_inv.
  - left. by apply leave_inv.
  - left. by apply batch_empty_inv.
  - left. apply (item_inv W t (Running ft) batch (p_done W) fibers ft); auto.
  - left. apply (item_inv W t Exec batch (p_done W ++ [ft]) (p_fibers W) ft); auto.
  - left. by apply returns_inv.
  - left. apply add_work_inv; auto. intros _. exists t. split; [done |]. unfold committed. by rewrite H0.
  - left. by apply add_work_inv.
  - left. by apply tickle_inv.
  - left. by apply stop_inv.
  - right. rewrite (proj1 (inv_count _ _ _ HI)) in *. by exists threads, new, s'.
  - left. by apply fibers_inv.
Qed.

Lemma pool_new_inv W : pool_new tids batchSize = Ok W -> Inv tids batchSize W.
Proof.
  unfold pool_new, Scheduler_new, start. rewrite ASSERT_true by (apply Z.leb_le; lia). step. intros [= <-].
  assert (Htk : take (Z.to_nat (zlen tids)) tids = tids) by (unfold zlen; rewrite Nat2Z.id; apply firstn_all).
  pose proof (spawned_some tids) as Hsp.
  assert (Hnil : forall A (l : list tid), (l ≫= fun _ => []) = ([] : list A)) by (intros A l; by induction l).
  split; unfold sum, spawned; cbn; rewrite ?Htk, ?Hsp; auto; try done; try lia; by rewrite Hnil.
Qed.

End Steps.

(** ** More threads *)

Lemma sum_start {A} (g : worker -> list A) tids new s W : g worker_new = [] -> (forall t, t ∈ new -> t ∉ tids) -> spawned (p_sched W) = tids -> spawned s = tids ++ new ->
  sum g (start_workers new s W) = sum g W.
Proof.
  intros Hg Hnew Hold Hs. unfold sum, start_workers. cbn. rewrite Hs, Hold, bind_app.
  assert (H1 : forall l, (forall t, t ∈ l -> t ∉ new) -> (l ≫= fun t => g (if bool_decide (t ∈ new) then worker_new else p_workers W t)) = (l ≫= fun t => g (p_workers W t))).
  { induction l as [| t l IH]; intros Hl; [done |]. cbn. rewrite bool_decide_false by (apply Hl; by left). rewrite IH; [done |]. intros u Hu. apply Hl. by right. }
  assert (H2 : forall l, (forall t, t ∈ l -> t ∈ new) -> (l ≫= fun t => g (if bool_decide (t ∈ new) then worker_new else p_workers W t)) = []).
  { induction l as [| t l IH]; intros Hl; [done |]. cbn. rewrite bool_decide_true, Hg by (apply Hl; by left). apply IH. intros u Hu. apply Hl. by right. }
  rewrite H1, H2, app_nil_r; [done | done |]. intros t Ht Hn. by apply (Hnew t).
Qed.

Lemma grow_inv tids batchSize W threads new s' : 0 < zlen tids -> Inv tids batchSize W -> m_stopping (p_sched W) = false -> (forall t, t ∈ new -> t ∉ tids) -> zlen new = Z.max 0 (threads - zlen tids) ->
  change_threadCount threads new (p_sched W) = Ok s' -> p_shrunk (start_workers new s' W) = false -> Inv (tids ++ new) batchSize (start_workers new s' W).
Proof.
  intros Hpos HI Hst Hnew Hlen Hch Hsh. pose proof (inv_threads _ _ _ HI) as Hth. pose proof (inv_count _ _ _ HI) as (Hc & Hrf & Hrt & Hb). pose proof (inv_all _ _ _ HI) as Hall.
  assert (Hs' : s' = p_sched W /\ new = [] \/ zlen tids < threads /\ s' = set_threadCount threads (set_threads (Some <$> (tids ++ new)) (p_sched W))).
  { destruct (Z.lt_trichotomy threads (zlen tids)) as [Hlt | [-> | Hgt]].
    - exfalso. unfold change_threadCount in Hch. destruct (1 <=? threads); [| done]. cbn [ASSERT mbind result_bind] in Hch. rewrite Hrf, Hc, (proj2 (Z.eqb_neq _ _)), (proj2 (Z.ltb_ge _ _)) in Hch by lia.
      injection Hch as <-. cbn in Hsh. apply orb_false_iff in Hsh as [_ Hsh%Z.ltb_ge]. rewrite Hall in Hsh. unfold zlen in *. rewrite length_fmap in Hsh. lia.
    - left. unfold change_threadCount in Hch. rewrite ASSERT_true in Hch by (apply Z.leb_le; lia). cbn [mbind result_bind] in Hch. rewrite Hrf, Hc, Z.eqb_refl in Hch. injection Hch as <-.
      split; [done |]. apply zlen_zero_inv. lia.
    - right. split; [done |]. rewrite (change_threadCount_grows threads new (p_sched W) tids) in Hch by (done || lia). by injection Hch as <-. }
  assert (Hsp : m_threads s' = Some <$> (tids ++ new)) by (destruct Hs' as [[-> ->] | [_ ->]]; [by rewrite app_nil_r | done]).
  assert (Hfix : m_fibers s' = m_fibers (p_sched W) /\ m_rootFiber s' = None /\ m_rootThread s' = None /\ m_batchSize s' = batchSize /\ m_activeThreadCount s' = m_activeThreadCount (p_sched W) /\
    m_stopping s' = false /\ m_threadCount s' = zlen (tids ++ new)).
  { destruct Hs' as [[-> ->] | [Hgt ->]]; [rewrite app_nil_r; by split_and! | cbn; split_and!; auto; rewrite zlen_app; lia]. }
  destruct Hfix as (F1 & F2 & F3 & F4 & F5 & F6 & F7).
  assert (Hold : forall t, t ∈ tids -> p_workers (start_workers new s' W) t = p_workers W t) by (intros t Ht; cbn; rewrite bool_decide_false; [done | intros Hn; by apply (Hnew t)]).
  assert (Hsum : forall A (g : worker -> list A), g worker_new = [] -> sum g (start_workers new s' W) = sum g W).
  { intros A g Hg. apply (sum_start g tids); auto. unfold spawned. rewrite Hsp. apply spawned_some. }
  assert (Hin : forall t, t ∈ new -> committed (p_workers (start_workers new s' W) t) /\ tidy (p_workers (start_workers new s' W) t)) by (intros t Ht; cbn; by rewrite bool_decide_true).
  destruct HI. split; cbn [p_sched p_count p_tickles p_done p_scheduled start_workers]; rewrite ?F1, ?F5, ?Hsum by done; auto.
  - intros t [Ht | Ht]%elem_of_app; [rewrite Hold by done; auto | by apply Hin].
  - intros Hne. destruct (inv_work0 Hne) as [? | [(t & Ht & H) | H]]; [by left | right; left; exists t; rewrite Hold by done; split; [apply elem_of_app; by left | done] |].
    destruct new as [| n l]; [| right; left; exists n; split; [apply elem_of_app; right; by left | by apply Hin; left]]. right; right. rewrite app_nil_r. intros t Ht. rewrite Hold by done. auto.
  - congruence.
Qed.

Lemma shrunk_mono W W' : step W W' -> p_shrunk W' = false -> p_shrunk W = false.
Proof. destruct 1; cbn; try done. by intros [? _]%orb_false_iff. Qed.

(** What holds of a pool that never had more threads than it should: the invariant for the threads that it has. *)
Lemma pool_reachable_inv tids batchSize W : NoDup tids -> 0 < zlen tids < 2 ^ 63 -> 1 <= batchSize -> reachable tids batchSize W -> p_shrunk W = false ->
  let ts := spawned (p_sched W) in NoDup ts /\ 0 < zlen ts < 2 ^ 63 /\ Inv ts batchSize W.
Proof.
  intros Hd Hz Hb. induction 1 as [W E | W W' Hr IH Hs]; intros Hsh; cbv zeta.
  - pose proof (pool_new_inv tids batchSize Hz W E) as HI. by rewrite (inv_threads _ _ _ HI).
  - destruct (IH (shrunk_mono _ _ Hs Hsh)) as (Hd' & Hz' & HI). destruct (pool_step_inv _ _ Hd' Hz' Hb _ _ HI Hs) as [HI' | (threads & new & s' & -> & H1 & H2 & H3 & H4 & H5 & H6)].
    + by rewrite (inv_threads _ _ _ HI').
    + pose proof (grow_inv _ _ _ _ _ _ (proj1 Hz') HI H1 H4 H5 H6 Hsh) as HI'. rewrite (inv_threads _ _ _ HI'). split_and!; auto; [| rewrite zlen_app; lia | rewrite zlen_app; lia].
      apply NoDup_app. split_and!; auto. intros t Ht Hn. by apply (H4 t).
Qed.
