(* ===== verification/PoolProps.v ===== *)
(** A pool of threads loses no work and no wakeup, counts its active threads, and stops. *)

From stdpp Require Import functions sets numbers list_numbers list.
From S2P Require Import Prelude Stream FiberCore Scheduler SchedulerProps Pool PoolInv.

Section Pools.
Context (tids : list tid) (batchSize : Z).
Context (Hdup : NoDup tids) (Hsize : 0 < zlen tids < 2 ^ 63) (Hbatch : 1 <= batchSize).

(** C2 -- A pool of its own threads (without that of the caller) that is never given fewer threads than it has does not sleep through work or through [stop]: as long as a thread has not left [run], and there is
    an item in the queue or the pool was told to stop, a thread is awake, or the semaphore is positive, or a caller is about to tickle.  Threads may be added while it runs.  With fewer threads it can
    sleep for ever while there is work, see [shrunk_pool_sleeps]; and an exception that comes out of an item ends the process. *)
Theorem pool_no_deadlock W : reachable tids batchSize W -> p_shrunk W = false -> let ts := spawned (p_sched W) in
  (exists t, t ∈ ts /\ wk_pc (p_workers W t) <> Exited) ->
  m_fibers (p_sched W) <> [] \/ m_stopping (p_sched W) = true ->
  ~ ((forall t, t ∈ ts -> parked (p_workers W t)) /\ p_count W = 0 /\ p_tickles W = 0).
Proof.
  intros HR Hsh ts (u & Hu & Hue) Hw (Hp & Hc & Hk). destruct (pool_reachable_inv tids batchSize W Hdup Hsize Hbatch HR Hsh) as (_ & _ & HI). fold ts in HI.
  destruct Hw as [Hw | Hw].
  - destruct (inv_work _ _ _ HI Hw) as [? | [(t & Ht & H) | H]]; [lia | | by apply Hue, H].
    unfold committed in H. destruct (Hp t Ht) as [E | E]; by rewrite E in H.
  - destruct (inv_stop _ _ _ HI Hw) as [? | [(t & Ht & H) | H]]; [lia | by apply H, Hp | by apply Hue, H].
Qed.

(** No work is lost and none is done twice: at any time the items that were ever scheduled are exactly those in the
    queue, those in the batch of a thread or running on it, and those that a thread is finished with. *)
Theorem pool_conserves W : reachable tids batchSize W -> p_shrunk W = false ->
  p_scheduled W ≡ₚ m_fibers (p_sched W) ++ sum held W ++ p_done W.
Proof. intros HR Hsh. destruct (pool_reachable_inv tids batchSize W Hdup Hsize Hbatch HR Hsh) as (_ & _ & HI). apply (inv_items _ _ _ HI). Qed.

(** [m_activeThreadCount] is the number of the threads that count themselves active, so that it never underflows,
    and a thread that has left, sleeps or is about to is not one of them and holds no work; when the pool reports
    that it is stopping, no thread holds any work. *)
Theorem pool_active_count W : reachable tids batchSize W -> p_shrunk W = false -> let ts := spawned (p_sched W) in
  m_activeThreadCount (p_sched W) = zlen (sum counted W) /\ 0 <= m_activeThreadCount (p_sched W) <= zlen ts /\
  (forall t, t ∈ ts -> parked (p_workers W t) -> wk_isActive (p_workers W t) = false /\ held (p_workers W t) = []) /\
  (stopping (p_sched W) = true -> forall t, t ∈ ts -> wk_isActive (p_workers W t) = false).
Proof.
  intros HR Hsh ts. destruct (pool_reachable_inv tids batchSize W Hdup Hsize Hbatch HR Hsh) as (Hd & Hz & HI). fold ts in Hd, Hz, HI. pose proof (inv_active _ _ _ HI) as Ha.
  pose proof (sum_counted_bound ts Hd Hz W (inv_threads _ _ _ HI)) as Hb. split_and!; [done | lia | lia | |].
  - intros t Ht Hp. pose proof (inv_tidy _ _ _ HI t Ht) as Htd. unfold tidy in Htd. unfold held.
    destruct Hp as [E | E]; rewrite E in Htd |- *; destruct Htd as (? & ->); done.
  - unfold stopping. intros (_ & Hz0%Z.eqb_eq)%andb_true_iff t Ht. rewrite Ha in Hz0.
    destruct (sum_set_worker counted t worker_new (p_sched W) W) as (R & H1 & _); [done | done | done |].
    apply Permutation_length in H1. rewrite length_app in H1. unfold zlen in Hz0. unfold counted in H1 at 2.
    destruct (wk_isActive (p_workers W t)); cbn in H1; [lia | done].
Qed.

(** The assertions of [run] hold: the critical section finds an item that can be run in every entry that is for
    this thread, and afterwards the thread is active exactly when it has a batch. *)
Theorem pool_no_assertion W t : reachable tids batchSize W -> p_shrunk W = false -> t ∈ spawned (p_sched W) ->
  (wk_pc (p_workers W t) = Scan -> wk_batch (p_workers W t) = [] /\ surplus t (p_sched W) = false /\
    exists s' it, choose (executing W) t (wk_isActive (p_workers W t)) (p_sched W) = Ok (s', it)) /\
  (wk_pc (p_workers W t) = Decide -> exists wk s', decide_next (p_workers W t) (p_sched W) = Ok (wk, s')).
Proof.
  intros HR Hsh Ht. destruct (pool_reachable_inv tids batchSize W Hdup Hsize Hbatch HR Hsh) as (Hd & Hz & HI).
  pose proof (inv_tidy _ _ _ HI t Ht) as Htd. unfold tidy in Htd. split; intros Hpc; rewrite Hpc in Htd.
  - split; [done |]. split; [by eapply no_surplus |]. pose proof (active_bound _ batchSize Hd Hz W t HI Ht) as Hact. destruct (inv_count _ _ _ HI) as (_ & _ & _ & Hb).
    destruct (choose_props (executing W) t (wk_isActive (p_workers W t)) (p_sched W)) as (s' & it & H & _);
      [by rewrite Hb | apply (inv_valid _ _ _ HI) | done | eauto].
  - unfold decide_next. rewrite Htd. rewrite ASSERT_true by (by destruct (negb _)). step. repeat case_match; eauto.
Qed.
End Pools.

(** ** Two threads and one item *)

Definition two_threads : list tid := [1; 2]%nat.
Definition an_item : FiberAndThread := mkFT None (Some 7%nat) None.

(** The item is scheduled from outside. *)
Lemma pool_with_work : exists W, reachable two_threads 1 W /\ p_shrunk W = false /\ spawned (p_sched W) = two_threads /\ m_fibers (p_sched W) = [an_item] /\ wk_pc (p_workers W 1%nat) = Scan.
Proof.
  eexists. split; [eapply reachable_step; [apply reachable_new; reflexivity |]; apply (step_schedule _ an_item); right; done |]. repeat split; reflexivity.
Qed.

Lemma pool_no_deadlock_witness : exists W, reachable two_threads 1 W /\ m_fibers (p_sched W) = [an_item] /\
  ~ ((forall t, t ∈ spawned (p_sched W) -> parked (p_workers W t)) /\ p_count W = 0 /\ p_tickles W = 0).
Proof.
  destruct pool_with_work as (W & HR & Hsh & Hsp & Hf & Hpc). exists W. split; [done |]. split; [done |].
  apply (pool_no_deadlock two_threads 1); [repeat constructor; set_solver | done | done | done | done | |].
  - exists 1%nat. rewrite Hsp. split; [constructor | congruence].
  - left. by rewrite Hf.
Defined.

Lemma pool_conserves_witness : exists W, reachable two_threads 1 W /\ m_fibers (p_sched W) = [an_item] /\
  p_scheduled W ≡ₚ m_fibers (p_sched W) ++ sum held W ++ p_done W.
Proof.
  destruct pool_with_work as (W & HR & Hsh & _ & Hf & _). exists W. split; [done |]. split; [done |].
  apply (pool_conserves two_threads 1); [repeat constructor; set_solver | done | done | done | done].
Defined.

(** ** Fewer threads *)

(** The next step of a run, by the rule for it. *)
Tactic Notation "next_step" hyp(R) uconstr(rule) := eapply reachable_step in R; [| eapply rule; first [reflexivity | done | (apply (bool_decide_unpack _); vm_compute; exact I) | (vm_compute; reflexivity)]]; vm_compute in R.

(** A pool of two threads that both sleep is told to have one; then an item is scheduled.  The thread that is tickled is one too many and leaves without a word; the other sleeps on although there is work. *)
Lemma shrunk_pool_sleeps : exists W, reachable two_threads 1 W /\ m_fibers (p_sched W) = [an_item] /\ spawned (p_sched W) = [1%nat] /\ m_threadCount (p_sched W) = 1 /\
  wk_pc (p_workers W 1%nat) = IdleWait /\ p_count W = 0 /\ p_tickles W = 0.
Proof.
  eassert (R : reachable two_threads 1 _) by (apply reachable_new; reflexivity).
  next_step R (step_scan _ 1%nat). next_step R (step_after _ 1%nat false). next_step R (step_decide _ 1%nat). next_step R (step_check _ 1%nat).
  next_step R (step_scan _ 2%nat). next_step R (step_after _ 2%nat false). next_step R (step_decide _ 2%nat). next_step R (step_check _ 2%nat).
  eapply reachable_step in R; [| eapply (step_threadCount _ 1 []); [reflexivity | lia | constructor | intros t Ht; by apply not_elem_of_nil in Ht | reflexivity | reflexivity]]; vm_compute in R.
  eapply reachable_step in R; [| apply (step_schedule _ an_item); by right]; vm_compute in R. next_step R step_tickle. next_step R (step_wait _ 2%nat). next_step R (step_surplus _ 2%nat).
  eexists. split; [exact R |]. repeat split; vm_compute; reflexivity.
Qed.
