(* ===== verification/Future.v ===== *)
(** [future.h]: a future keeps the address of the waiting fiber and the mark of being signalled in one word, which waiters
    and signallers exchange by compare-and-swap. *)

From stdpp Require Import numbers list_numbers list.
From S2P Require Import Prelude.

(** ** The word *)

(** [atomicCompareAndSwap]: the old value, and the new word. *)
Definition atomicCompareAndSwap (word newvalue comparand : Z) : Z * Z :=
  (word, if word =? comparand then newvalue else word).

Record Future := mkFuture { m_fiber : Z; m_scheduler : option nat; m_dg : option nat }.

Definition set_fiber (v : Z) (F : Future) : Future := mkFuture v (m_scheduler F) (m_dg F).
Definition set_scheduler (s : option nat) (F : Future) : Future := mkFuture (m_fiber F) s (m_dg F).

Definition Future_new (dg scheduler : option nat) : result Future :=
  assert: bool_decide (dg <> None) || bool_decide (scheduler = None) ;;
  Ok (mkFuture (if dg then 2 else 0) scheduler dg).

Definition signalled (F : Future) : bool := negb (Z.land (m_fiber F) 1 =? 0).

(** [result()] may be asked for until the future is signalled. *)
Definition result_allowed (F : Future) : result unit := assert: negb (signalled F) ;; Ok tt.

Definition Future_reset (F : Future) : Future :=
  let F := set_fiber 0 F in
  match m_dg F with Some _ => F | None => set_scheduler None F end.

(** ** Waiting *)

(** The checks at the start of [wait] and [startWait], and the store of the scheduler [s]; [self] is the address of the
    current fiber. *)
Definition prepare_wait (self : Z) (s : option nat) (F : Future) : result Future :=
  assert: bool_decide (m_scheduler F = None) ;;
  assert: bool_decide (m_dg F = None) ;;
  assert: Z.land self 1 =? 0 ;;
  Ok (set_scheduler s F).

(** The compare-and-swap: whether the future was signalled already. *)
Definition begin_wait (self : Z) (F : Future) : result (bool * Future) :=
  let '(currentValue, word) := atomicCompareAndSwap (m_fiber F) self 0 in
  let F := set_fiber word F in
  if currentValue =? 0 then Ok (false, F) else if currentValue =? 1 then Ok (true, F) else Err Assertion.

(** After [wait] has yielded. *)
Definition wait_resumed (F : Future) : result unit := assert: signalled F ;; Ok tt.

Definition startWait (self : Z) (s : option nat) (F : Future) : result (bool * Future) :=
  F ← prepare_wait self s F; begin_wait self F.

(** [between] is what others do to the future between the read and the compare-and-swap. *)
Definition cancelWait (between : Future -> Future) (F : Future) : result (bool * Future) :=
  assert: bool_decide (m_dg F = None) ;;
  let oldValue := m_fiber F in
  if negb (Z.land oldValue 1 =? 0) then Ok (true, F)
  else
    let F := between F in
    let '(oldValue, word) := atomicCompareAndSwap (m_fiber F) 0 oldValue in
    let F := set_fiber word F in
    if negb (Z.land oldValue 1 =? 0) then Ok (true, F) else Ok (false, set_scheduler None F).

(** ** Signalling *)

Inductive effect := NoEffect | CallsDg (d : nat) | SchedulesDg (d s : nat) | SchedulesFiber (address : Z) (s : nat).

(** One round of the loop of [signal]: the future, and the value to go on with, or the value of the word without the mark
    when the loop ends. *)
Inductive round := Again (newValue : Z) | Marked (waiter : Z).

Definition signal_round (newValue : Z) (F : Future) : round * Future :=
  let oldValue := newValue in
  let newValue := Z.lor oldValue 1 in
  let '(newValue, word) := atomicCompareAndSwap (m_fiber F) newValue oldValue in
  (if newValue =? oldValue then Marked (Z.land newValue (Z.lnot 1)) else Again newValue, set_fiber word F).

(** What happens after the loop. *)
Definition signal_waiter (waiter : Z) (F : Future) : result effect :=
  if waiter =? 0 then Ok NoEffect
  else
    match m_scheduler F with
    | None => Err Assertion
    | Some s => assert: bool_decide (m_dg F = None) ;; Ok (SchedulesFiber waiter s)
    end.

(** A future with a function. *)
Definition signal_dg (F : Future) : result effect :=
  match m_dg F with
  | None => Err Assertion
  | Some d => Ok (match m_scheduler F with Some s => SchedulesDg d s | None => CallsDg d end)
  end.

(** [signal] when nobody interferes. *)
Definition signal (F : Future) : result (effect * Future) :=
  if m_fiber F =? 2 then e ← signal_dg F; Ok (e, F)
  else
    match signal_round (m_fiber F) F with
    | (Marked waiter, F) => e ← signal_waiter waiter F; Ok (e, F)
    | (Again _, _) => Err Diverges
    end.

(** ** A waiter and any number of signallers *)

(** Before [wait]; before the compare-and-swap; asleep; and back, having slept or not. *)
Inductive waiter_pc := WIdle | WReady | WAsleep | WDone (slept : bool).
(** Before [signal]; in the loop; after it; and back. *)
Inductive signaller_pc := SIdle | SLoop (newValue : Z) | SWake (waiter : Z) | SDone.

Record race := mkRace { r_future : Future; r_waiter : waiter_pc; r_signallers : list signaller_pc; r_wakeups : Z }.

Section Race.
(** The address and the scheduler of the fiber that waits. *)
Context (self : Z) (sched : nat).

Definition race_new (n : nat) : race := mkRace (mkFuture 0 None None) WIdle (replicate n SIdle) 0.

(** [None] is a step that cannot be taken, an [Err] a failed assertion. *)
Definition waiter_step (r : race) : option (result race) :=
  match r_waiter r with
  | WIdle => Some (F ← prepare_wait self (Some sched) (r_future r); Ok (mkRace F WReady (r_signallers r) (r_wakeups r)))
  | WReady =>
      Some ('(b, F) ← begin_wait self (r_future r);
            Ok (mkRace F (if b : bool then WDone false else WAsleep) (r_signallers r) (r_wakeups r)))
  | WAsleep =>
      if 0 <? r_wakeups r
      then Some (wait_resumed (r_future r) ≫= fun _ => Ok (mkRace (r_future r) (WDone true) (r_signallers r) (r_wakeups r - 1)))
      else None
  | WDone _ => None
  end.

Definition signaller_step (i : nat) (r : race) : option (result race) :=
  pc ← r_signallers r !! i;
  let go pc F n := Ok (mkRace F (r_waiter r) (<[i := pc]> (r_signallers r)) n) in
  match pc with
  | SIdle =>
      Some (if m_fiber (r_future r) =? 2 then Err Assertion else go (SLoop (m_fiber (r_future r))) (r_future r) (r_wakeups r))
  | SLoop v =>
      Some (match signal_round v (r_future r) with
            | (Again v', F) => go (SLoop v') F (r_wakeups r)
            | (Marked w, F) => go (SWake w) F (r_wakeups r)
            end)
  | SWake w =>
      Some (e ← signal_waiter w (r_future r);
            go SDone (r_future r) (r_wakeups r + match e with SchedulesFiber a _ => if a =? self then 1 else 0 | _ => 0 end))
  | SDone => None
  end.

Inductive step (r : race) : race -> Prop :=
| step_waiter r' : waiter_step r = Some (Ok r') -> step r r'
| step_signaller i r' : signaller_step i r = Some (Ok r') -> step r r'.

Inductive reachable (n : nat) : race -> Prop :=
| reachable_new : reachable n (race_new n)
| reachable_step r r' : reachable n r -> step r r' -> reachable n r'.
End Race.

(** ** Waiting for several futures *)

(** The futures, the number of times the fiber was scheduled and has not run since, and what others signal: one list of
    futures before each operation of the fiber. *)
Record waits := mkWaits { ws_futures : list Future; ws_wakeups : Z; ws_events : list (list nat) }.

Section Several.
Context (self : Z) (sched : nat).

(** Somebody signals the future [i]; each future is signalled once. *)
Definition signal_one (w : waits) (i : nat) : waits :=
  match ws_futures w !! i with
  | Some F =>
      if signalled F then w
      else match signal F with
           | Ok (e, F') => mkWaits (<[i := F']> (ws_futures w)) (ws_wakeups w + match e with SchedulesFiber _ _ => 1 | _ => 0 end) (ws_events w)
           | Err _ => w
           end
  | None => w
  end.

Definition others (w : waits) : waits :=
  match ws_events w with
  | [] => w
  | ev :: evs => foldl signal_one (mkWaits (ws_futures w) (ws_wakeups w) evs) ev
  end.

(** An operation on the future [i]. *)
Definition on_future (i : nat) (op : Future -> result (bool * Future)) (w : waits) : result (bool * waits) :=
  let w := others w in
  match ws_futures w !! i with
  | Some F => '(b, F') ← op F; Ok (b, mkWaits (<[i := F']> (ws_futures w)) (ws_wakeups w) (ws_events w))
  | None => Err Undefined
  end.

(** [Scheduler::yieldTo()] returns when the fiber was scheduled. *)
Fixpoint yieldTo (fuel : nat) (w : waits) : result waits :=
  if 0 <? ws_wakeups w then Ok (mkWaits (ws_futures w) (ws_wakeups w - 1) (ws_events w))
  else match fuel with O => Err Diverges | S fuel => yieldTo fuel (others w) end.

Definition yield_here (w : waits) : result waits := yieldTo (length (ws_events w)) w.

(** [while (--yieldsNeeded) Scheduler::yieldTo()] for [yieldsNeeded - 1] = [n]. *)
Fixpoint yields (n : nat) (w : waits) : result waits :=
  match n with O => Ok w | S n => w ← yield_here w; yields n w end.

(** [waitAll]: the futures from [i] on, and how many were not signalled. *)
Fixpoint start_all (i k : nat) (w : waits) : result (nat * waits) :=
  match k with
  | O => Ok (O, w)
  | S k =>
      '(b, w) ← on_future i (startWait self (Some sched)) w;
      '(n, w) ← start_all (S i) k w;
      Ok (if b : bool then n else S n, w)
  end.

Definition waitAll (w : waits) : result waits :=
  assert: negb (bool_decide (ws_futures w = [])) ;;
  '(n, w) ← start_all 0 (length (ws_futures w)) w;
  yields n w.

(** The first loop of [waitAny]: where it stops, [index] and [result]. *)
Fixpoint start_any (it k : nat) (index : nat) (w : waits) : result (nat * nat * option nat * waits) :=
  match k with
  | O => Ok (it, index, None, w)
  | S k =>
      let index := S index in
      '(b, w) ← on_future it (startWait self (Some sched)) w;
      if b : bool then Ok (it - 1, index, Some index, w)%nat else start_any (S it) k index w
  end.

(** The loop that cancels, down to the first future. *)
Fixpoint cancel_any (it index : nat) (r : option nat) (yieldsNeeded : nat) (w : waits) : result (option nat * nat * waits) :=
  '(b, w) ← on_future it (cancelWait id) w;
  match it with
  | O => Ok (if b : bool then Some O else r, if b : bool then S yieldsNeeded else yieldsNeeded, w)
  | S it' => cancel_any it' (index - 1)%nat (if b : bool then Some index else r) (if b : bool then S yieldsNeeded else yieldsNeeded) w
  end.

Definition waitAny (w : waits) : result (nat * waits) :=
  let last := length (ws_futures w) in
  assert: negb (bool_decide (ws_futures w = [])) ;;
  '(b, w) ← on_future 0%nat (startWait self (Some sched)) w;
  if b : bool then Ok (O, w)
  else
    '(it, index, r, w) ← start_any 1 (last - 1) 0 w;
    '(it, yieldsNeeded, w) ← (if (it =? last)%nat then w ← yield_here w; Ok (it - 1, O, w)%nat else Ok (it, 1%nat, w));
    '(r, yieldsNeeded, w) ← cancel_any it index r yieldsNeeded w;
    match r with
    | None => Err Assertion
    | Some r => w ← yields (yieldsNeeded - 1) w; Ok (r, w)
    end.
End Several.
