(* ===== verification/FutureProps.v ===== *)
(** Waiting for a future and signalling it never miss each other, and what [reset], [signal] and the waits for several
    futures do. *)

From stdpp Require Import sets numbers list_numbers list.
From S2P Require Import Prelude Future.

(** ** Words *)

Lemma land_1 v : Z.land v 1 = v mod 2.
Proof. exact (Z.land_ones v 1 ltac:(lia)). Qed.

Lemma land_lnot_1 v : Z.land v (Z.lnot 1) = v / 2 * 2.
Proof.
  rewrite <- Z.ldiff_land. change 1 with (Z.ones 1) at 1. rewrite Z.ldiff_ones_r by lia.
  by rewrite Z.shiftl_mul_pow2, Z.shiftr_div_pow2 by lia.
Qed.

Section Address.
(** A fiber is at an even address that is neither null nor the mark of a function. *)
Context (self : Z) (sched : nat) (Heven : Z.land self 1 = 0) (Hself : 2 < self).

(** The words of a future without a function: nobody waits, nobody waits and it is signalled, the fiber waits, and the
    fiber waited when it was signalled. *)
Definition word_of (slept marked : bool) : Z := (if slept then self else 0) + (if marked then 1 else 0).

Lemma self_mod : self mod 2 = 0.
Proof. by rewrite <- land_1. Qed.

Lemma lor_word slept marked : Z.lor (word_of slept marked) 1 = word_of slept true.
Proof.
  assert (H : Z.lor self 1 = self + 1) by (rewrite Z.add_nocarry_lxor by done; symmetry; by apply Z.lxor_lor).
  unfold word_of. destruct slept, marked; rewrite ?Z.add_0_r, ?Z.add_0_l; auto.
  rewrite <- H, <- Z.lor_assoc. done.
Qed.

Lemma land_word slept marked : Z.land (word_of slept marked) (Z.lnot 1) = word_of slept false.
Proof. rewrite land_lnot_1. pose proof self_mod. unfold word_of. destruct slept, marked; Z.div_mod_to_equations; lia. Qed.

Lemma odd_word slept marked : negb (Z.land (word_of slept marked) 1 =? 0) = marked.
Proof.
  rewrite land_1. pose proof self_mod as H. unfold word_of.
  destruct slept, marked; [rewrite (Z.add_mod self 1 2), H by lia | rewrite Z.add_0_r, H | |]; done.
Qed.

Lemma word_inj s m s' m' : word_of s m = word_of s' m' -> s = s' /\ m = m'.
Proof. unfold word_of. destruct s, m, s', m'; split; auto; lia. Qed.

Lemma word_not_2 s m : word_of s m <> 2.
Proof. pose proof self_mod. unfold word_of. destruct s, m; lia. Qed.

(** ** The race between a waiter and its signallers *)

Definition slept (p : waiter_pc) : bool := match p with WAsleep | WDone true => true | _ => false end.
Definition woken (p : waiter_pc) : Z := match p with WDone true => 1 | _ => 0 end.
Definition past_mark (p : signaller_pc) : Prop := match p with SWake _ | SDone => True | _ => False end.
Definition done_count (p : signaller_pc) : Z := match p with SDone => 1 | _ => 0 end.
Fixpoint finished (l : list signaller_pc) : Z := match l with [] => 0 | p :: l => done_count p + finished l end.

Record Inv (n : nat) (r : race) : Prop := mkInv {
  inv_length : length (r_signallers r) = n;
  inv_dg : m_dg (r_future r) = None;
  inv_sched : m_scheduler (r_future r) = match r_waiter r with WIdle => None | _ => Some sched end;
  inv_word : exists marked, m_fiber (r_future r) = word_of (slept (r_waiter r)) marked /\
    (marked = true <-> exists p, p ∈ r_signallers r /\ past_mark p) /\ (r_waiter r = WDone false -> marked = true);
  inv_loop : forall v, SLoop v ∈ r_signallers r -> exists s m, v = word_of s m;
  inv_wake : forall w, SWake w ∈ r_signallers r -> w = word_of (slept (r_waiter r)) false;
  inv_wakeups : r_wakeups r + woken (r_waiter r) = if slept (r_waiter r) then finished (r_signallers r) else 0;
  inv_nonneg : 0 <= r_wakeups r;
}.

Lemma finished_insert l i p q : l !! i = Some p -> finished (<[i := q]> l) + done_count p = finished l + done_count q.
Proof.
  revert i. induction l as [| x l IH]; intros [| i] Hi; try done; [injection Hi as ->; cbn [insert list_insert finished]; lia |]. cbn [insert list_insert finished].
  rewrite <- !Z.add_assoc. f_equal. exact (IH i Hi).
Qed.

Lemma finished_nonneg l : 0 <= finished l.
Proof. induction l as [| [] l IH]; cbn; lia. Qed.

Lemma finished_pos l : 0 < finished l <-> SDone ∈ l.
Proof.
  induction l as [| x l IH]; cbn; [split; [lia | by intros ?%elem_of_nil] |]. pose proof (finished_nonneg l).
  rewrite elem_of_cons, <- IH. destruct x; cbn; split; intros; try lia; try naive_solver lia; by left.
Qed.

Lemma elem_insert {A} (l : list A) i p q x : l !! i = Some p -> x ∈ <[i := q]> l -> x = q \/ x ∈ l.
Proof.
  intros Hi. rewrite insert_take_drop by (by eapply lookup_lt_Some). rewrite elem_of_app, elem_of_cons.
  rewrite <- (take_drop_middle l i p Hi) at 3. rewrite elem_of_app, elem_of_cons. naive_solver.
Qed.

Lemma race_new_inv n : Inv n (race_new n).
Proof.
  assert (Hr : forall p, p ∈ replicate n SIdle -> p = SIdle) by (intros p [-> _]%elem_of_replicate; done).
  split; cbn; auto; try done.
  - apply length_replicate.
  - exists false. split_and!; [done | | done]. split; [done | intros (p & ->%Hr & []) ].
  - intros v Hv%Hr. done.
  - intros w Hw%Hr. done.
Qed.

Lemma waiter_total n r : Inv n r -> forall e, waiter_step self sched r <> Some (Err e).
Proof.
  intros [] e. unfold waiter_step. destruct inv_word0 as (marked & Hw & inv_word1 & Hd). destruct (r_waiter r) as [| | | []] eqn:Hp; cbn in *; try done.
  - unfold prepare_wait, ASSERT. rewrite inv_sched0, inv_dg0, Heven. done.
  - unfold begin_wait, atomicCompareAndSwap. rewrite Hw. destruct marked; done.
  - unfold wait_resumed, signalled, ASSERT. destruct (Z.ltb_spec 0 (r_wakeups r)); [| done]. rewrite Hw, odd_word.
    assert (marked = true) as ->; [| done]. apply inv_word1. exists SDone. split; [| done]. apply finished_pos. lia.
Qed.

Lemma signaller_total n r i : Inv n r -> forall e, signaller_step self i r <> Some (Err e).
Proof.
  intros [] e. unfold signaller_step. destruct (r_signallers r !! i) as [p |] eqn:Hi; cbn -[signal_round]; [| done].
  destruct inv_word0 as (marked & Hw & _). destruct p as [| v | w |]; [| by destruct (signal_round v (r_future r)) as [[] ?] | | done].
  - rewrite Hw. destruct (Z.eqb_spec (word_of (slept (r_waiter r)) marked) 2) as [E | ?]; [by apply word_not_2 in E | done].
  - unfold signal_waiter. destruct (w =? 0) eqn:E; [done |]. apply Z.eqb_neq in E.
    pose proof (inv_wake0 w (list_elem_of_lookup_2 _ _ _ Hi)) as ->. rewrite inv_sched0.
    destruct (r_waiter r); cbn in *; try done; unfold ASSERT; by rewrite inv_dg0.
Qed.

Lemma waiter_inv n r r' : Inv n r -> waiter_step self sched r = Some (Ok r') -> Inv n r'.
Proof.
  intros HI Hs. pose proof HI as []. unfold waiter_step in Hs. destruct inv_word0 as (marked & Hw & Hm & Hd).
  pose proof (finished_nonneg (r_signallers r)) as Hf0.
  destruct (r_waiter r) as [| | | b] eqn:Hp; cbn in *; [| | | done].
  - injection Hs as Hs. unfold prepare_wait, ASSERT in Hs. rewrite inv_sched0, inv_dg0, Heven in Hs. cbn in Hs. injection Hs as <-.
    split; cbn; auto. exists marked. split_and!; [done | done | done].
  - injection Hs as Hs. unfold begin_wait, atomicCompareAndSwap in Hs. rewrite Hw in Hs. destruct marked; cbn in Hs; injection Hs as <-; cbn.
    + split; cbn; auto. exists true. auto.
    + assert (Hno : forall p, p ∈ r_signallers r -> ~ past_mark p).
      { intros p Hp1 Hp2. assert (false = true) by (apply Hm; eauto). done. }
      split; cbn; auto.
      * exists false. unfold word_of. split_and!; [lia | done | done].
      * intros w Hin. by destruct (Hno _ Hin).
      * assert (finished (r_signallers r) = 0) as ->; [| lia].
        destruct (decide (0 < finished (r_signallers r))) as [H%finished_pos | ?]; [by destruct (Hno _ H) | lia].
  - destruct (Z.ltb_spec 0 (r_wakeups r)); [| done]. injection Hs as Hs. unfold wait_resumed, signalled, ASSERT in Hs. rewrite Hw, odd_word in Hs.
    destruct marked; [| done]. cbn in Hs. injection Hs as <-. split; cbn; auto; try lia. exists true. auto.
Qed.

(** A signaller moves from [p] to [q]. *)
Lemma signaller_inv n r r' i : Inv n r -> signaller_step self i r = Some (Ok r') -> Inv n r'.
Proof.
  intros HI Hs. pose proof HI as []. unfold signaller_step in Hs. destruct (r_signallers r !! i) as [p |] eqn:Hi; cbn in Hs; [| done].
  pose proof (list_elem_of_lookup_2 _ _ _ Hi) as Hin. pose proof (lookup_lt_Some _ _ _ Hi) as Hlt.
  destruct inv_word0 as (marked & Hw & Hm & Hd). pose proof (fun q => finished_insert _ _ _ q Hi) as Hfin.
  assert (Hnew : forall q, q ∈ <[i := q]> (r_signallers r)) by (intros q; eapply list_elem_of_lookup_2; by apply list_lookup_insert_eq).
  assert (Hold : forall q x, x ∈ r_signallers r -> x <> p -> x ∈ <[i := q]> (r_signallers r)).
  { intros q x (j & Hj)%list_elem_of_lookup Hx. eapply list_elem_of_lookup_2. rewrite list_lookup_insert_ne; [exact Hj |]. intros ->. congruence. }
  assert (Hmark : forall q, ~ past_mark p -> ~ past_mark q -> marked = true <-> exists x, x ∈ <[i := q]> (r_signallers r) /\ past_mark x).
  { intros q Hp Hq. rewrite Hm. split; intros (x & Hx & Hx'); exists x; (split; [| done]).
    - apply Hold; [done |]. intros ->. done.
    - destruct (elem_insert _ _ _ _ _ Hi Hx) as [-> | ?]; [done | done]. }
  destruct p as [| v | w |]; [| | | done].
  - rewrite Hw in Hs. destruct (Z.eqb_spec (word_of (slept (r_waiter r)) marked) 2); [done |]. injection Hs as <-.
    specialize (Hfin (SLoop (word_of (slept (r_waiter r)) marked))). cbn in Hfin. split; cbn; auto.
    + by rewrite length_insert.
    + exists marked. auto.
    + intros v Hv. destruct (elem_insert _ _ _ _ _ Hi Hv) as [[= ->] | ?]; eauto.
    + intros w Hv. destruct (elem_insert _ _ _ _ _ Hi Hv) as [? | ?]; [done | auto].
    + rewrite inv_wakeups0. destruct (slept _); lia.
  - destruct (inv_loop0 v Hin) as (s0 & m0 & Hv). unfold signal_round, atomicCompareAndSwap in Hs. cbn in Hs. rewrite Hw, Hv in Hs.
    destruct (Z.eqb_spec (word_of (slept (r_waiter r)) marked) (word_of s0 m0)) as [E | E].
    + apply word_inj in E as [<- <-]. rewrite lor_word, land_word in Hs. injection Hs as <-.
      specialize (Hfin (SWake (word_of (slept (r_waiter r)) false))). cbn in Hfin. split; cbn; auto.
      * by rewrite length_insert.
      * exists true. split_and!; auto. split; [| done]. intros _. exists (SWake (word_of (slept (r_waiter r)) false)). split; [apply Hnew | done].
      * intros v' Hv'. destruct (elem_insert _ _ _ _ _ Hi Hv') as [? | ?]; [done | auto].
      * intros w Hv'. destruct (elem_insert _ _ _ _ _ Hi Hv') as [[= ->] | ?]; auto.
      * rewrite inv_wakeups0. destruct (slept _); lia.
    + injection Hs as <-. specialize (Hfin (SLoop (word_of (slept (r_waiter r)) marked))). cbn in Hfin. split; cbn; auto.
      * by rewrite length_insert.
      * exists marked. auto.
      * intros v' Hv'. destruct (elem_insert _ _ _ _ _ Hi Hv') as [[= ->] | ?]; eauto.
      * intros w Hv'. destruct (elem_insert _ _ _ _ _ Hi Hv') as [? | ?]; [done | auto].
      * rewrite inv_wakeups0. destruct (slept _); lia.
  - pose proof (inv_wake0 w Hin) as ->. specialize (Hfin SDone). cbn in Hfin.
    assert (Hmd : marked = true <-> exists x, x ∈ <[i := SDone]> (r_signallers r) /\ past_mark x).
    { split; [intros _; exists SDone; split; [apply Hnew | done] | intros _]. apply Hm. eexists. split; [exact Hin | done]. }
    destruct (slept (r_waiter r)) eqn:Hsl.
    + assert (Hws : word_of true false = self) by (unfold word_of; lia). rewrite Hws in Hs.
      unfold signal_waiter, ASSERT in Hs. destruct (Z.eqb_spec self 0) as [? | _]; [lia |]. rewrite inv_sched0, inv_dg0 in Hs.
      destruct (r_waiter r) as [| | | []] eqn:Hp; cbn in Hsl, Hs; try done; rewrite Z.eqb_refl in Hs; injection Hs as <-; split; cbn; auto;
        rewrite ?length_insert; auto; try lia.
      all: try (exists marked; auto; fail).
      all: try (intros v Hv; destruct (elem_insert _ _ _ _ _ Hi Hv) as [? | ?]; [done | auto]).
      all: cbn [woken] in inv_wakeups0; lia.
    + cbn in Hs. injection Hs as <-. split; cbn; rewrite ?Hsl; auto; rewrite ?length_insert; auto; try lia.
      * exists marked. auto.
      * intros v Hv. destruct (elem_insert _ _ _ _ _ Hi Hv) as [? | ?]; [done | auto].
      * intros v Hv. destruct (elem_insert _ _ _ _ _ Hi Hv) as [? | ?]; [done |]. by apply inv_wake0.
Qed.

Lemma race_reachable_inv n r : reachable self sched n r -> Inv n r.
Proof. induction 1 as [| r r' _ IH [r1 H | i r1 H]]; [apply race_new_inv | by eapply waiter_inv | by eapply signaller_inv]. Qed.
End Address.

(** C11 -- A waiter and its signallers never miss each other, however they interleave: no assertion of [wait] or [signal]
    fails, a waiter that sleeps after some [signal] has returned was scheduled, and it is scheduled once for each
    [signal] that found it waiting, so with one signaller exactly once. *)
Theorem future_no_lost_wakeup self sched n r : Z.land self 1 = 0 -> 2 < self -> reachable self sched n r ->
  (forall e, waiter_step self sched r <> Some (Err e)) /\ (forall i e, signaller_step self i r <> Some (Err e)) /\
  (r_waiter r = WAsleep -> SDone ∈ r_signallers r -> 0 < r_wakeups r) /\
  r_wakeups r + woken (r_waiter r) = (if slept (r_waiter r) then finished (r_signallers r) else 0) /\
  (n = 1%nat -> 0 <= r_wakeups r + woken (r_waiter r) <= 1).
Proof.
  intros He Hs HR. pose proof (race_reachable_inv self sched He Hs n r HR) as HI. split_and!.
  - by eapply waiter_total.
  - intros i. by eapply signaller_total.
  - intros Hw Hd%finished_pos. pose proof (inv_wakeups _ _ _ _ HI) as H. rewrite Hw in H. cbn in H. lia.
  - apply (inv_wakeups _ _ _ _ HI).
  - intros ->. pose proof (inv_wakeups _ _ _ _ HI) as ->. pose proof (inv_length _ _ _ _ HI) as Hl.
    destruct (r_signallers r) as [| p [| q l]]; try done. destruct (slept _), p; cbn; lia.
Qed.

Lemma future_no_lost_wakeup_witness : exists r, reachable 16 1 1 r /\ r_waiter r = WAsleep /\ SDone ∈ r_signallers r /\ 0 < r_wakeups r.
Proof.
  assert (HR : reachable 16 1 1 (mkRace (mkFuture 17 (Some 1%nat) None) WAsleep [SDone] 1)).
  { apply (reachable_step 16 1 1 (mkRace (mkFuture 17 (Some 1%nat) None) WAsleep [SWake 16] 0)); [| by apply (step_signaller _ _ _ 0%nat)].
    apply (reachable_step 16 1 1 (mkRace (mkFuture 16 (Some 1%nat) None) WAsleep [SLoop 16] 0)); [| by apply (step_signaller _ _ _ 0%nat)].
    apply (reachable_step 16 1 1 (mkRace (mkFuture 16 (Some 1%nat) None) WAsleep [SIdle] 0)); [| by apply (step_signaller _ _ _ 0%nat)].
    apply (reachable_step 16 1 1 (mkRace (mkFuture 0 (Some 1%nat) None) WReady [SIdle] 0)); [| by apply step_waiter].
    apply (reachable_step 16 1 1 (mkRace (mkFuture 0 None None) WIdle [SIdle] 0)); [apply reachable_new | by apply step_waiter]. }
  eexists. split; [exact HR |]. split; [reflexivity |]. split; [constructor |].
  apply (future_no_lost_wakeup 16 1 1 _ eq_refl eq_refl HR); [reflexivity | constructor].
Defined.

(** ** [signal] and [reset] *)

(** A future with a function hands it to its scheduler, or calls it, whenever it is signalled; but after [reset] it
    only gets the mark: the function is never called again. *)
Theorem reset_loses_dg d s :
  let F := mkFuture 2 s (Some d) in
  signal F = Ok (match s with Some s => SchedulesDg d s | None => CallsDg d end, F) /\
  signal (Future_reset F) = Ok (NoEffect, mkFuture 1 s (Some d)) /\
  forall e F', signal (mkFuture 1 s (Some d)) = Ok (e, F') -> e = NoEffect.
Proof. split_and!; [done | done |]. by intros e F' [= <- _]. Qed.

(** ** Several futures *)

(** [waitAny] may name the wrong future: of four futures the last is signalled, the fiber waits for the other three,
    and the second is signalled before the waits are cancelled; the answer is the third, which is not signalled. *)
Theorem waitAny_wrong_index :
  exists w, waitAny 16 1%nat (mkWaits [mkFuture 0 None None; mkFuture 0 None None; mkFuture 0 None None; mkFuture 1 None None] 0
      [[]; []; []; []; [1%nat]]) = Ok (2%nat, w) /\
    map signalled (ws_futures w) = [false; true; false; true].
Proof. eexists. split; [vm_compute; reflexivity | reflexivity]. Qed.

(** [waitAll] and [waitAny], with others signalling in between: they return only when they should and leave no wakeup
    behind. *)

Section Waits.
Context (self : Z) (sched : nat) (Heven : Z.land self 1 = 0) (Hself : 2 < self).

(** A future of the fiber that waits: whether it sleeps on it, and whether the future is signalled. *)
Definition has (s m : bool) (F : Future) : Prop :=
  m_fiber F = word_of self s m /\ m_dg F = None /\ (s = true -> m_scheduler F = Some sched).
Definition known (F : Future) : Prop := exists s m, has s m F.
Definition fresh (F : Future) : Prop := m_scheduler F = None /\ exists m, has false m F.

Definition sleeps (F : Future) : bool := (m_fiber F =? self) || (m_fiber F =? self + 1).

Lemma is_signalled s m F : has s m F -> signalled F = m.
Proof. intros (H & _). unfold signalled. rewrite H. by apply odd_word. Qed.

Lemma is_sleeps s m F : has s m F -> sleeps F = s.
Proof.
  intros (H & _). unfold sleeps. rewrite H. unfold word_of. destruct s, m; repeat (destruct (Z.eqb_spec _ _)); try lia; done.
Qed.

(** The wakeups that the futures have caused. *)
Definition caused (F : Future) : Z := if sleeps F && signalled F then 1 else 0.
Fixpoint total (g : Future -> Z) (l : list Future) : Z := match l with [] => 0 | F :: l => g F + total g l end.
Definition owed (w : waits) : Z := total caused (ws_futures w) - ws_wakeups w.

Lemma total_insert g l i F F' : l !! i = Some F -> total g (<[i := F']> l) + g F = total g l + g F'.
Proof.
  revert i. induction l as [| G l IH]; intros [| i] Hi; try done; [injection Hi as ->; cbn [insert list_insert total]; lia |].
  cbn [insert list_insert total]. rewrite <- !Z.add_assoc. f_equal. exact (IH i Hi).
Qed.

(** ** Signals of others *)

(** What others do to a future. *)
Definition grew (F F' : Future) : Prop :=
  F' = F \/ (signalled F = false /\ signalled F' = true /\ sleeps F' = sleeps F /\ m_scheduler F' = m_scheduler F).

Lemma signal_is s F : has s false F ->
  exists e, signal F = Ok (e, set_fiber (word_of self s true) F) /\ (match e with SchedulesFiber _ _ => 1 | _ => 0 end) = if s then 1 else 0.
Proof.
  intros (Hw & Hd & Hs). unfold signal. rewrite Hw. destruct (Z.eqb_spec (word_of self s false) 2) as [E | _]; [by apply word_not_2 in E |].
  unfold signal_round, atomicCompareAndSwap. cbv zeta. rewrite Hw, !Z.eqb_refl, lor_word, land_word by done.
  unfold signal_waiter. cbn [m_scheduler set_fiber m_dg]. rewrite Hd. destruct s.
  - rewrite Hs by done. destruct (Z.eqb_spec (word_of self true false) 0) as [E | _]; [unfold word_of in E; lia |]. cbn. eauto.
  - cbn. eauto.
Qed.

Lemma is_marked s F : has s false F -> has s true (set_fiber (word_of self s true) F).
Proof. intros (Hw & Hd & Hs). split_and!; auto. Qed.

Definition same_events (w w' : waits) : Prop := ws_events w' = ws_events w.

Lemma signal_one_ok w i : Forall known (ws_futures w) ->
  Forall known (ws_futures (signal_one w i)) /\ owed (signal_one w i) = owed w /\ same_events w (signal_one w i) /\
  Forall2 grew (ws_futures w) (ws_futures (signal_one w i)) /\ ws_wakeups w <= ws_wakeups (signal_one w i) /\
  (forall F, ws_futures (signal_one w i) !! i = Some F -> signalled F = true).
Proof.
  intros Hk. unfold signal_one. destruct (ws_futures w !! i) as [F |] eqn:Hi.
  2: { split_and!; auto; [done | apply Forall_Forall2_diag, Forall_true; intros; by left | lia | congruence]. }
  destruct (proj1 (Forall_lookup known _) Hk i F Hi) as (s & m & HF). rewrite (is_signalled _ _ _ HF). destruct m.
  { split_and!; auto; [done | apply Forall_Forall2_diag, Forall_true; intros; by left | lia |]. rewrite Hi. intros F' [= <-]. by eapply is_signalled. }
  destruct (signal_is s F HF) as (e & -> & He). rewrite He. pose proof (is_marked s F HF) as HF'. set (F' := set_fiber _ F) in *.
  pose proof (lookup_lt_Some _ _ _ Hi) as Hlt. split_and!; cbn.
  - apply Forall_insert; [done | by eexists _, _].
  - unfold owed; cbn. pose proof (total_insert caused _ _ _ F' Hi) as Ht. unfold caused in Ht at 2 4.
    rewrite (is_sleeps _ _ _ HF), (is_sleeps _ _ _ HF'), (is_signalled _ _ _ HF), (is_signalled _ _ _ HF') in Ht. destruct s; cbn in Ht; lia.
  - done.
  - apply Forall2_same_length_lookup_2; [by rewrite length_insert |]. intros j x y Hx. destruct (decide (j = i)) as [-> | Hj].
    + rewrite list_lookup_insert_eq by done. rewrite Hi in Hx. intros [= <-]. injection Hx as <-. right.
      by rewrite (is_sleeps _ _ _ HF), (is_sleeps _ _ _ HF'), (is_signalled _ _ _ HF), (is_signalled _ _ _ HF').
    + rewrite list_lookup_insert_ne by done. intros Hy. left. congruence.
  - destruct s; lia.
  - rewrite list_lookup_insert_eq by done. intros F0 [= <-]. by eapply is_signalled.
Qed.

Lemma grew_trans F1 F2 F3 : grew F1 F2 -> grew F2 F3 -> grew F1 F3.
Proof. intros [-> | (H1 & H2 & H3 & H4)] [-> | (H5 & H6 & H7 & H8)]; [by left | by right | by right |]. congruence. Qed.

Lemma grew_signalled F F' : grew F F' -> signalled F = true -> signalled F' = true.
Proof. intros [-> | (_ & H & _)]; auto. Qed.

Lemma grew_sleeps F F' : grew F F' -> sleeps F' = sleeps F.
Proof. intros [-> | (_ & _ & H & _)]; auto. Qed.

Lemma grew_scheduler F F' : grew F F' -> m_scheduler F' = m_scheduler F.
Proof. intros [-> | (_ & _ & _ & H)]; auto. Qed.

(** What others have done in the meantime. *)
Record meanwhile (w w' : waits) : Prop := mkMeanwhile {
  mw_known : Forall known (ws_futures w');
  mw_owed : owed w' = owed w;
  mw_grew : Forall2 grew (ws_futures w) (ws_futures w');
  mw_wakeups : ws_wakeups w <= ws_wakeups w';
}.

Lemma meanwhile_refl w : Forall known (ws_futures w) -> meanwhile w w.
Proof. intros H. split; auto; [apply Forall_Forall2_diag, Forall_true; intros; by left | lia]. Qed.

Lemma meanwhile_trans w1 w2 w3 : meanwhile w1 w2 -> meanwhile w2 w3 -> meanwhile w1 w3.
Proof.
  intros [] []. split; auto; [congruence | | lia]. eapply Forall2_trans; [| done | done]. intros; by eapply grew_trans.
Qed.

Lemma signals_ok l w : Forall known (ws_futures w) ->
  meanwhile w (foldl signal_one w l) /\ same_events w (foldl signal_one w l) /\
  forall i F, i ∈ l -> ws_futures (foldl signal_one w l) !! i = Some F -> signalled F = true.
Proof.
  revert w. induction l as [| i l IH]; intros w Hk; cbn; [split_and!; [by apply meanwhile_refl | done | by intros ? ? ?%elem_of_nil] |].
  destruct (signal_one_ok w i Hk) as (H1 & H2 & H3 & H4 & H5 & H6). destruct (IH (signal_one w i) H1) as (H7 & H8 & H9).
  split_and!; [eapply meanwhile_trans; [by split | done] | unfold same_events in *; congruence |].
  intros j F [-> | Hj]%elem_of_cons HF; [| eauto].
  destruct (Forall2_lookup_r _ _ _ _ _ (mw_grew _ _ H7) HF) as (F0 & HF0 & Hg). eapply grew_signalled; [exact Hg |]. by apply H6.
Qed.

(** Who has not been signalled yet will be. *)
Definition coming (w : waits) : Prop := forall i F, ws_futures w !! i = Some F -> signalled F = true \/ i ∈ concat (ws_events w).

Lemma others_ok w : Forall known (ws_futures w) -> meanwhile w (others w) /\ ws_events (others w) = tail (ws_events w) /\ (coming w -> coming (others w)).
Proof.
  intros Hk. unfold others. destruct (ws_events w) as [| ev evs] eqn:He.
  { split_and!; [by apply meanwhile_refl | done | done]. }
  destruct (signals_ok ev (mkWaits (ws_futures w) (ws_wakeups w) evs) Hk) as (H1 & H2 & H3).
  split_and!; [by destruct H1 | exact H2 |]. intros Hc i F HF.
  destruct (Forall2_lookup_r _ _ _ _ _ (mw_grew _ _ H1) HF) as (F0 & HF0 & Hg). cbn in HF0.
  destruct (Hc i F0 HF0) as [H | H]; [left; by eapply grew_signalled |]. rewrite He in H. cbn in H. apply elem_of_app in H as [H | H]; [left; by eapply H3 | right].
  rewrite H2. exact H.
Qed.

(** ** Yielding *)

Definition took (w w' : waits) : Prop :=
  Forall known (ws_futures w') /\ owed w' = owed w + 1 /\ Forall2 grew (ws_futures w) (ws_futures w') /\ 0 <= ws_wakeups w'.

Lemma yieldTo_ok fuel w w' : Forall known (ws_futures w) -> yieldTo fuel w = Ok w' -> took w w' /\ (coming w -> coming w').
Proof.
  revert w. induction fuel as [| fuel IH]; intros w Hk; cbn; destruct (Z.ltb_spec 0 (ws_wakeups w)) as [Hp | Hp]; try done.
  - intros [= <-]. split; [| done]. split_and!; cbn; auto; [unfold owed; cbn; lia | apply Forall_Forall2_diag, Forall_true; intros; by left | lia].
  - intros [= <-]. split; [| done]. split_and!; cbn; auto; [unfold owed; cbn; lia | apply Forall_Forall2_diag, Forall_true; intros; by left | lia].
  - destruct (others_ok w Hk) as (Hm & _ & Hc). intros H. destruct (IH _ (mw_known _ _ Hm) H) as ((H1 & H2 & H3 & H4) & H5).
    split; [| auto]. split_and!; auto; [by rewrite H2, (mw_owed _ _ Hm) |]. eapply Forall2_trans; [| apply Hm | done]. intros; by eapply grew_trans.
Qed.

Definition asleep (F : Future) : Z := if sleeps F then 1 else 0.

Lemma total_grew l l' : Forall2 grew l l' -> total asleep l' = total asleep l.
Proof. induction 1 as [| F F' l l' HF _ IH]; cbn [total]; [done |]. rewrite IH. f_equal. unfold asleep. by rewrite (grew_sleeps _ _ HF). Qed.

(** Yielding returns if a wakeup is owed once all signals have come. *)
Lemma yieldTo_returns w : Forall known (ws_futures w) -> coming w ->
  owed w < total asleep (ws_futures w) -> exists w', yield_here w = Ok w'.
Proof.
  unfold yield_here. remember (length (ws_events w)) as n eqn:Hn. revert w Hn. induction n as [| n IH]; intros w Hn Hk Hc Ho; cbn;
    destruct (Z.ltb_spec 0 (ws_wakeups w)) as [Hp | Hp]; eauto.
  - exfalso. destruct (ws_events w) eqn:He; [| done]. unfold owed in Ho.
    assert (H : total caused (ws_futures w) = total asleep (ws_futures w)); [| lia].
    assert (Hall : Forall (fun F => signalled F = true) (ws_futures w)).
    { apply Forall_lookup. intros i F HF. destruct (Hc i F HF) as [? | Hi]; [done |]. rewrite He in Hi. by apply elem_of_nil in Hi. }
    clear -Hall. induction Hall as [| F l HF _ IH]; cbn; [done |]. unfold caused at 1, asleep at 1. rewrite HF, andb_true_r. lia.
  - destruct (others_ok w Hk) as (Hm & He & Hc'). apply IH; [rewrite He; destruct (ws_events w); cbn in *; lia | apply Hm | auto |].
    by rewrite (mw_owed _ _ Hm), (total_grew _ _ (mw_grew _ _ Hm)).
Qed.

(** ** Starting to wait *)

Lemma grew_fresh F F' : known F' -> grew F F' -> fresh F -> fresh F'.
Proof.
  intros (s & m & H) Hg (Hs & m0 & H0). split; [by rewrite (grew_scheduler _ _ Hg) |]. exists m.
  pose proof (grew_sleeps _ _ Hg) as E. rewrite (is_sleeps _ _ _ H), (is_sleeps _ _ _ H0) in E. by subst s.
Qed.

Lemma startWait_fresh F : fresh F -> exists m F', startWait self (Some sched) F = Ok (m, F') /\
  has (negb m) m F' /\ signalled F = m /\ sleeps F = false.
Proof.
  intros (Hs & m & HF). pose proof (is_signalled _ _ _ HF) as Hsg. pose proof (is_sleeps _ _ _ HF) as Hsl. destruct HF as (Hw & Hd & _).
  unfold startWait, prepare_wait, ASSERT. rewrite Hs, Hd, Heven. cbn -[begin_wait]. unfold begin_wait, atomicCompareAndSwap. cbn. rewrite Hw.
  destruct m; cbn; (eexists _, _; split; [reflexivity |]); (split; [| auto]); unfold has, word_of; cbn; split_and!; auto; try lia; change (0 + 0 =? 0) with true; cbn; lia.
Qed.

(** One operation: others come first, then the future [i] changes from [F] to [F']. *)
Lemma on_future_ok w i op F : Forall known (ws_futures w) -> ws_futures w !! i = Some F ->
  exists w1 F1, meanwhile w w1 /\ ws_futures w1 !! i = Some F1 /\ grew F F1 /\ known F1 /\ (coming w -> coming w1) /\
    on_future i op w = ('(b, F') ← op F1; Ok (b, mkWaits (<[i := F']> (ws_futures w1)) (ws_wakeups w1) (ws_events w1))).
Proof.
  intros Hk Hi. destruct (others_ok w Hk) as (Hm & _ & Hc).
  destruct (Forall2_lookup_l _ _ _ _ _ (mw_grew _ _ Hm) Hi) as (F1 & HF1 & Hg). exists (others w), F1. split_and!; auto.
  - eapply Forall_lookup; [apply Hm | exact HF1].
  - unfold on_future. by rewrite HF1.
Qed.

Lemma coming_insert w i F F' : ws_futures w !! i = Some F -> (signalled F = true -> signalled F' = true) -> coming w ->
  coming (mkWaits (<[i := F']> (ws_futures w)) (ws_wakeups w) (ws_events w)).
Proof.
  intros Hi Hs Hc j G. cbn. destruct (decide (j = i)) as [-> | Hj].
  - rewrite list_lookup_insert_eq by (by eapply lookup_lt_Some). intros [= <-]. destruct (Hc i F Hi); auto.
  - rewrite list_lookup_insert_ne by done. apply Hc.
Qed.

Definition settled (F : Future) : Prop := sleeps F = true \/ signalled F = true.

Lemma grew_settled F F' : grew F F' -> settled F -> settled F'.
Proof. intros Hg [H | H]; [left; by rewrite (grew_sleeps _ _ Hg) | right; by eapply grew_signalled]. Qed.

Lemma start_one w i F : Forall known (ws_futures w) -> ws_futures w !! i = Some F -> fresh F ->
  exists b w', on_future i (startWait self (Some sched)) w = Ok (b, w') /\ Forall known (ws_futures w') /\ owed w' = owed w /\
    total asleep (ws_futures w') = total asleep (ws_futures w) + (if b then 0 else 1) /\
    (forall j G', ws_futures w' !! j = Some G' -> j <> i -> exists G, ws_futures w !! j = Some G /\ grew G G') /\
    (forall G', ws_futures w' !! i = Some G' -> has (negb b) b G') /\
    length (ws_futures w') = length (ws_futures w) /\ (coming w -> coming w') /\ ws_wakeups w <= ws_wakeups w'.
Proof.
  intros Hk Hi Hf. destruct (on_future_ok w i (startWait self (Some sched)) F Hk Hi) as (w1 & F1 & Hm & HF1 & Hg & Hk1 & Hc & ->).
  destruct (startWait_fresh F1 (grew_fresh F F1 Hk1 Hg Hf)) as (b & F' & -> & HF' & Hs1 & Hl1). step.
  pose proof (lookup_lt_Some _ _ _ HF1) as Hlt. pose proof (is_signalled _ _ _ HF') as Hsg'. pose proof (is_sleeps _ _ _ HF') as Hsl'.
  eexists b, _. split; [reflexivity |]. cbn. split_and!.
  - apply Forall_insert; [apply Hm | by eexists _, _].
  - unfold owed. cbn. pose proof (total_insert caused _ _ _ F' HF1) as Ht. unfold caused in Ht at 2 4. rewrite Hs1, Hl1, Hsg', Hsl' in Ht.
    pose proof (mw_owed _ _ Hm) as Ho. unfold owed in Ho. destruct b; cbn in Ht; lia.
  - pose proof (total_insert asleep _ _ _ F' HF1) as Ht. unfold asleep in Ht at 2 4. rewrite Hl1, Hsl' in Ht.
    pose proof (total_grew _ _ (mw_grew _ _ Hm)). destruct b; cbn in Ht; lia.
  - intros j G' HG Hj. rewrite list_lookup_insert_ne in HG by done. destruct (Forall2_lookup_r _ _ _ _ _ (mw_grew _ _ Hm) HG) as (G & ? & ?). eauto.
  - intros G'. rewrite list_lookup_insert_eq by done. by intros [= <-].
  - rewrite length_insert. symmetry. eapply Forall2_length, Hm.
  - intros H. apply (coming_insert w1 i F1); auto. intros H1. congruence.
  - apply Hm.
Qed.

Lemma start_all_ok (k i : nat) w : (i + k = length (ws_futures w))%nat -> Forall known (ws_futures w) ->
  (forall j F, (i <= j)%nat -> ws_futures w !! j = Some F -> fresh F) -> (forall j F, (j < i)%nat -> ws_futures w !! j = Some F -> settled F) ->
  exists n w', start_all self sched i k w = Ok (n, w') /\ Forall known (ws_futures w') /\ owed w' = owed w /\
    total asleep (ws_futures w') = total asleep (ws_futures w) + Z.of_nat n /\ Forall settled (ws_futures w') /\
    (coming w -> coming w') /\ ws_wakeups w <= ws_wakeups w'.
Proof.
  revert i w. induction k as [| k IH]; intros i w Hl Hk Hf Hs; cbn [start_all].
  - exists 0%nat, w. split_and!; auto; try lia. apply Forall_lookup. intros j F HF. apply (Hs j F); [| done]. apply lookup_lt_Some in HF. lia.
  - destruct (lookup_lt_is_Some_2 (ws_futures w) i) as (F & HF); [lia |].
    destruct (start_one w i F Hk HF (Hf i F (le_n _) HF)) as (b & w1 & -> & Hk1 & Ho1 & Ht1 & Hne & Hi & Hl1 & Hc1 & Hw1). step.
    destruct (IH (S i) w1) as (n & w' & -> & Hk' & Ho' & Ht' & Hs' & Hc' & Hw'); [lia | done | | |].
    + intros j G Hj HG. destruct (Hne j G HG) as (G0 & HG0 & Hg); [lia |]. eapply grew_fresh; [| exact Hg |]; [by eapply Forall_lookup | apply (Hf j); [lia | done]].
    + intros j G Hj HG. destruct (decide (j = i)) as [-> | Hji].
      * pose proof (Hi G HG) as HH. unfold settled. rewrite (is_sleeps _ _ _ HH), (is_signalled _ _ _ HH). destruct b; auto.
      * destruct (Hne j G HG Hji) as (G0 & HG0 & Hg). eapply grew_settled; [exact Hg |]. apply (Hs j); [lia | done].
    + step. eexists _, w'. split; [reflexivity |]. split_and!; auto; try lia; try congruence. destruct b; lia.
Qed.

(** ** [waitAll] *)

Lemma yields_ok n w : Forall known (ws_futures w) -> coming w -> owed w + Z.of_nat n <= total asleep (ws_futures w) -> 0 <= ws_wakeups w ->
  exists w', yields n w = Ok w' /\ Forall known (ws_futures w') /\ owed w' = owed w + Z.of_nat n /\
    Forall2 grew (ws_futures w) (ws_futures w') /\ 0 <= ws_wakeups w'.
Proof.
  revert w. induction n as [| n IH]; intros w Hk Hc Ho Hw; cbn [yields].
  - exists w. split_and!; auto; [lia | apply Forall_Forall2_diag, Forall_true; intros; by left].
  - destruct (yieldTo_returns w Hk Hc) as (w1 & Hy); [lia |]. rewrite Hy. step.
    destruct (yieldTo_ok _ _ _ Hk Hy) as ((Hk1 & Ho1 & Hg1 & Hw1) & Hc1).
    destruct (IH w1) as (w' & -> & Hk' & Ho' & Hg' & Hw'); auto; [rewrite Ho1, (total_grew _ _ Hg1); lia |].
    exists w'. split_and!; auto; [lia |]. eapply Forall2_trans; [| exact Hg1 | exact Hg']. intros; by eapply grew_trans.
Qed.

Lemma caused_le l : total caused l <= total asleep l /\
  (total caused l = total asleep l -> Forall (fun F => sleeps F = true -> signalled F = true) l).
Proof.
  induction l as [| F l (IH1 & IH2)]; [split; [done | by constructor] |]. cbn [total]. unfold caused at 1 3, asleep at 1 3.
  destruct (sleeps F) eqn:Hs, (signalled F) eqn:Hg; cbn; (split; [lia |]); intros H; try lia; (constructor; [congruence | apply IH2; lia]).
Qed.

Lemma fresh_known F : fresh F -> known F.
Proof. intros (_ & m & H). by exists false, m. Qed.

Lemma fresh_total l : Forall fresh l -> total asleep l = 0 /\ total caused l = 0.
Proof.
  induction 1 as [| F l (_ & m & HF) _ (IH1 & IH2)]; [done |]. cbn [total]. rewrite IH1, IH2. unfold asleep, caused. by rewrite (is_sleeps _ _ _ HF).
Qed.

Lemma waitAll_ok w : ws_futures w <> [] -> Forall fresh (ws_futures w) -> ws_wakeups w = 0 -> coming w ->
  exists w', waitAll self sched w = Ok w' /\ Forall (fun F => signalled F = true) (ws_futures w') /\ ws_wakeups w' = 0.
Proof.
  intros Hne Hf Hw Hc. unfold waitAll. rewrite bool_decide_false by done. step.
  destruct (fresh_total _ Hf) as (Ha & Hca).
  destruct (start_all_ok (length (ws_futures w)) 0 w) as (n & w1 & -> & Hk1 & Ho1 & Ht1 & Hs1 & Hc1 & Hw1); [done | | | |].
  { eapply Forall_impl; [exact Hf | apply fresh_known]. }
  { intros j F _ HF. by eapply Forall_lookup. }
  { intros j F Hj. lia. }
  step. assert (Hz : owed w1 = 0) by (rewrite Ho1; unfold owed; lia).
  destruct (yields_ok n w1) as (w' & -> & Hk' & Ho' & Hg' & Hw'); auto; [lia | lia |]. exists w'. split; [done |].
  destruct (caused_le (ws_futures w')) as (Hle & Heq). rewrite (total_grew _ _ Hg') in Hle, Heq. rewrite Hz in Ho'. unfold owed in Ho'.
  split; [| lia]. apply Forall_lookup. intros i F HF. destruct (Forall2_lookup_r _ _ _ _ _ Hg' HF) as (F1 & HF1 & Hg).
  destruct (grew_settled _ _ Hg (proj1 (Forall_lookup _ _) Hs1 i F1 HF1)) as [Hsl | ?]; [| done].
  specialize (Heq ltac:(lia)). eapply (proj1 (Forall_lookup _ _) Heq); eauto.
Qed.

(** ** [waitAny] *)

Lemma cancel_has m F : has true m F -> exists F', cancelWait id F = Ok (m, F') /\ has m m F'.
Proof.
  intros (Hw & Hd & Hs). unfold cancelWait, ASSERT. rewrite Hd. step. rewrite bool_decide_true by done. step. cbv zeta. rewrite Hw, odd_word by done.
  destruct m; [exists F; done |]. cbn [id]. unfold atomicCompareAndSwap. rewrite Hw, Z.eqb_refl. cbv zeta beta iota.
  rewrite odd_word by done. eexists. split; [done |]. split_and!; [done | done | done].
Qed.

Lemma cancel_one w i F : Forall known (ws_futures w) -> ws_futures w !! i = Some F -> sleeps F = true ->
  exists b w', on_future i (cancelWait id) w = Ok (b, w') /\ Forall known (ws_futures w') /\ owed w' = owed w /\
    total asleep (ws_futures w') = total asleep (ws_futures w) - (if b then 0 else 1) /\
    (forall j G', ws_futures w' !! j = Some G' -> j <> i -> exists G, ws_futures w !! j = Some G /\ grew G G') /\
    (forall G', ws_futures w' !! i = Some G' -> has b b G') /\
    length (ws_futures w') = length (ws_futures w) /\ ws_wakeups w <= ws_wakeups w'.
Proof.
  intros Hk Hi Hf. destruct (on_future_ok w i (cancelWait id) F Hk Hi) as (w1 & F1 & Hm & HF1 & Hg & (s & m & HH) & _ & ->).
  pose proof (grew_sleeps _ _ Hg) as Hs. rewrite Hf, (is_sleeps _ _ _ HH) in Hs. subst s.
  destruct (cancel_has m F1 HH) as (F' & -> & HF'). step. pose proof (lookup_lt_Some _ _ _ HF1) as Hlt.
  pose proof (is_signalled _ _ _ HH) as Hs1. pose proof (is_sleeps _ _ _ HH) as Hl1.
  pose proof (is_signalled _ _ _ HF') as Hsg'. pose proof (is_sleeps _ _ _ HF') as Hsl'.
  eexists m, _. split; [reflexivity |]. cbn. split_and!.
  - apply Forall_insert; [apply Hm | by eexists _, _].
  - unfold owed. cbn. pose proof (total_insert caused _ _ _ F' HF1) as Ht. unfold caused in Ht at 2 4. rewrite Hs1, Hl1, Hsg', Hsl' in Ht.
    pose proof (mw_owed _ _ Hm) as Ho. unfold owed in Ho. destruct m; cbn in Ht; lia.
  - pose proof (total_insert asleep _ _ _ F' HF1) as Ht. unfold asleep in Ht at 2 4. rewrite Hl1, Hsl' in Ht.
    pose proof (total_grew _ _ (mw_grew _ _ Hm)). destruct m; cbn in Ht; lia.
  - intros j G' HG Hj. rewrite list_lookup_insert_ne in HG by done. destruct (Forall2_lookup_r _ _ _ _ _ (mw_grew _ _ Hm) HG) as (G & ? & ?). eauto.
  - intros G'. rewrite list_lookup_insert_eq by done. by intros [= <-].
  - rewrite length_insert. symmetry. eapply Forall2_length, Hm.
  - apply Hm.
Qed.

(** The fiber sleeps on the first futures only, or is woken already. *)
Definition prefix_asleep (n : nat) (w : waits) : Prop :=
  forall j F, ws_futures w !! j = Some F -> if (j <? n)%nat then sleeps F = true else sleeps F = true -> signalled F = true.

Lemma cancel_any_ok it index r y w : Forall known (ws_futures w) -> prefix_asleep (S it) w -> (it < length (ws_futures w))%nat ->
  exists r' y' w', cancel_any it index r y w = Ok (r', y', w') /\ Forall known (ws_futures w') /\ owed w' = owed w /\
    (forall j F, ws_futures w' !! j = Some F -> sleeps F = true -> signalled F = true) /\
    total asleep (ws_futures w') - total asleep (ws_futures w) = Z.of_nat y' - Z.of_nat y - Z.of_nat (S it) /\
    (y <= y')%nat /\ ws_wakeups w <= ws_wakeups w' /\
    (index = it -> (y < y' -> exists j F, r' = Some j /\ ws_futures w' !! j = Some F /\ signalled F = true)%nat) /\ (r <> None -> r' <> None) /\
    (y' = y -> r' = r) /\ length (ws_futures w') = length (ws_futures w) /\
    (forall j F', (it < j)%nat -> ws_futures w' !! j = Some F' -> exists F, ws_futures w !! j = Some F /\ grew F F').
Proof.
  revert index r y w. induction it as [| it IH]; intros index r y w Hk Hp Hlt; cbn [cancel_any];
    (destruct (lookup_lt_is_Some_2 _ _ Hlt) as (F & HF); pose proof (Hp _ F HF) as Hsl; rewrite (proj2 (Nat.ltb_lt _ _)) in Hsl by lia;
     destruct (cancel_one w _ F Hk HF Hsl) as (b & w1 & -> & Hk1 & Ho1 & Ht1 & Hne & Hi & Hl1 & Hw1); step).
  - eexists _, _, w1. split; [reflexivity |]. split_and!; auto; try (destruct b; lia).
    + intros j G HG Hs. destruct (decide (j = 0%nat)) as [-> | Hj].
      * pose proof (Hi G HG) as HH. rewrite (is_sleeps _ _ _ HH) in Hs. by rewrite (is_signalled _ _ _ HH).
      * destruct (Hne j G HG Hj) as (G0 & HG0 & Hg). eapply grew_signalled; [exact Hg |]. pose proof (Hp j G0 HG0) as HX.
        rewrite (proj2 (Nat.ltb_ge j 1)) in HX by lia. apply HX. by rewrite <- (grew_sleeps _ _ Hg).
    + intros _ Hlt'. destruct b; [| lia]. destruct (lookup_lt_is_Some_2 (ws_futures w1) 0) as (G & HG); [lia |].
      exists 0%nat, G. split_and!; auto. by rewrite (is_signalled _ _ _ (Hi G HG)).
    + by destruct b.
    + destruct b; [lia | done].
    + intros j G Hj HG. apply Hne; [done | lia].
  - destruct (IH (index - 1)%nat (if b then Some index else r) (if b then S y else y) w1) as (r' & y' & w' & -> & Hk' & Ho' & Hs' & Ht' & Hy' & Hw' & Hr' & Hn' & Heq' & Hl' & Hg'); auto; [| lia |].
    + intros j G HG. destruct (decide (j = S it)) as [-> | Hj].
      * rewrite (proj2 (Nat.ltb_ge _ _)) by lia. pose proof (Hi G HG) as HH. rewrite (is_sleeps _ _ _ HH), (is_signalled _ _ _ HH). done.
      * destruct (Hne j G HG Hj) as (G0 & HG0 & Hg). pose proof (Hp j G0 HG0) as HX. destruct (Nat.ltb_spec j (S it)).
        -- rewrite (proj2 (Nat.ltb_lt j (S (S it)))) in HX by lia. by rewrite (grew_sleeps _ _ Hg).
        -- rewrite (proj2 (Nat.ltb_ge j (S (S it)))) in HX by lia. rewrite (grew_sleeps _ _ Hg). intros Hs. eapply grew_signalled; [exact Hg | auto].
    + eexists r', y', w'. split; [reflexivity |]. split_and!; auto; try lia; try (destruct b; lia); try congruence.
      * intros -> Hyy. destruct (decide ((if b then S y else y) < y')%nat) as [? | ?]; [apply Hr'; lia |].
        destruct b; [| lia]. destruct (lookup_lt_is_Some_2 (ws_futures w') (S it)) as (G & HG); [lia |].
        exists (S it), G. split_and!; [apply Heq'; lia | done |]. destruct (Hg' (S it) G) as (G0 & HG0 & Hgg); [lia | done |].
        eapply grew_signalled; [exact Hgg |]. by rewrite (is_signalled _ _ _ (Hi G0 HG0)).
      * intros Hr. apply Hn'. by destruct b.
      * intros ->. destruct b; [lia | by apply Heq'].
      * intros j G Hj HG. destruct (Hg' j G) as (G1 & HG1 & Hg1); [lia | done |]. destruct (Hne j G1 HG1) as (G0 & HG0 & Hg0); [lia |].
        exists G0. split; [done |]. by eapply grew_trans.
Qed.

Lemma start_any_ok (k it : nat) index w : S index = it -> (it + k = length (ws_futures w))%nat -> Forall known (ws_futures w) ->
  (forall j F, (it <= j)%nat -> ws_futures w !! j = Some F -> fresh F) -> (forall j F, (j < it)%nat -> ws_futures w !! j = Some F -> sleeps F = true) ->
  total asleep (ws_futures w) = Z.of_nat it ->
  exists it' index' r w', start_any self sched it k index w = Ok (it', index', r, w') /\ Forall known (ws_futures w') /\ owed w' = owed w /\
    length (ws_futures w') = length (ws_futures w) /\ ws_wakeups w <= ws_wakeups w' /\
    ((r = None /\ it' = length (ws_futures w) /\ S index' = it' /\ prefix_asleep it' w' /\ total asleep (ws_futures w') = Z.of_nat it') \/
     (r <> None /\ (S it' < length (ws_futures w))%nat /\ prefix_asleep (S it') w' /\ total asleep (ws_futures w') = Z.of_nat (S it'))).
Proof.
  revert it index w. induction k as [| k IH]; intros it index w Hi Hl Hk Hf Hs Ht; cbn [start_any].
  - exists it, index, None, w. split_and!; auto; [lia |]. left. split_and!; auto; [lia |].
    intros j F HF. destruct (Nat.ltb_spec j it); [by apply (Hs j) |]. apply lookup_lt_Some in HF. lia.
  - destruct (lookup_lt_is_Some_2 (ws_futures w) it) as (F & HF); [lia |].
    destruct (start_one w it F Hk HF (Hf it F (le_n _) HF)) as (b & w1 & -> & Hk1 & Ho1 & Ht1 & Hne & Hit & Hl1 & _ & Hw1). step.
    assert (Hlow : forall j G, (j < it)%nat -> ws_futures w1 !! j = Some G -> sleeps G = true).
    { intros j G Hj HG. destruct (Hne j G HG) as (G0 & HG0 & Hg); [lia |]. rewrite (grew_sleeps _ _ Hg). by apply (Hs j). }
    assert (Hhigh : forall j G, (it < j)%nat -> ws_futures w1 !! j = Some G -> fresh G).
    { intros j G Hj HG. destruct (Hne j G HG) as (G0 & HG0 & Hg); [lia |]. eapply grew_fresh; [| exact Hg |]; [by eapply Forall_lookup | apply (Hf j); [lia | done]]. }
    destruct b.
    + eexists _, _, _, w1. split; [reflexivity |]. split_and!; auto. right. replace (S (it - 1)) with it by lia. split_and!; [done | lia | | lia].
      intros j G HG. destruct (Nat.ltb_spec j it); [by apply (Hlow j) |]. intros HS. destruct (decide (j = it)) as [-> | Hj].
      * by rewrite (is_signalled _ _ _ (Hit G HG)).
      * destruct (Hhigh j G) as (_ & m & HH); [lia | done |]. by rewrite (is_sleeps _ _ _ HH) in HS.
    + destruct (IH (S it) (S index) w1) as (it' & index' & r & w' & -> & Hk' & Ho' & Hl' & Hw' & Hcase); [lia | lia | done | done | | lia |].
      * intros j G Hj HG. destruct (decide (j = it)) as [-> | Hji]; [by rewrite (is_sleeps _ _ _ (Hit G HG)) | apply (Hlow j); [lia | done]].
      * eexists _, _, _, w'. split; [reflexivity |]. rewrite Hl1 in Hcase. split_and!; [done | congruence | congruence | lia | done].
Qed.

(** Yielding as often as there are wakeups needs nobody else. *)
Lemma yields_owed n w : ws_wakeups w = Z.of_nat n -> yields n w = Ok (mkWaits (ws_futures w) 0 (ws_events w)).
Proof.
  revert w. induction n as [| n IH]; intros w Hw; cbn [yields]; [destruct w; cbn in *; by subst |].
  unfold yield_here. assert (yieldTo (length (ws_events w)) w = Ok (mkWaits (ws_futures w) (ws_wakeups w - 1) (ws_events w))) as ->.
  { destruct (length (ws_events w)); cbn; by rewrite (proj2 (Z.ltb_lt _ _)) by lia. }
  step. rewrite IH; [done |]. cbn. lia.
Qed.

Lemma settled_caused l : (forall j F, l !! j = Some F -> sleeps F = true -> signalled F = true) -> total caused l = total asleep l.
Proof.
  intros H. apply Forall_lookup in H. induction H as [| F l HF _ IH]; [done |]. cbn [total]. rewrite IH. f_equal. unfold caused, asleep.
  destruct (sleeps F); [by rewrite HF | done].
Qed.

Lemma waitAny_ok w r w' : Forall fresh (ws_futures w) -> ws_wakeups w = 0 -> waitAny self sched w = Ok (r, w') ->
  ws_wakeups w' = 0 /\ (forall j F, ws_futures w' !! j = Some F -> sleeps F = true -> signalled F = true) /\
  ((exists w1 it index w2, on_future 0 (startWait self (Some sched)) w = Ok (false, w1) /\
      start_any self sched 1 (length (ws_futures w) - 1) 0 w1 = Ok (it, index, None, w2)) ->
   exists F, ws_futures w' !! r = Some F /\ signalled F = true).
Proof.
  intros Hf Hw. unfold waitAny. case_bool_decide as Hne; step; [done |].
  destruct (fresh_total _ Hf) as (Ha & Hca). assert (Hk : Forall known (ws_futures w)) by (eapply Forall_impl; [exact Hf | apply fresh_known]).
  destruct (lookup_lt_is_Some_2 (ws_futures w) 0) as (F0 & HF0); [destruct (ws_futures w); cbn; [done | lia] |].
  destruct (start_one w 0 F0 Hk HF0 (proj1 (Forall_lookup _ _) Hf 0%nat F0 HF0)) as (b & w1 & E1 & Hk1 & Ho1 & Ht1 & Hne1 & Hi1 & Hl1 & _ & Hw1).
  rewrite E1. step.
  assert (Hz : owed w1 = 0) by (rewrite Ho1; unfold owed; lia).
  assert (Hhigh : forall j G, (0 < j)%nat -> ws_futures w1 !! j = Some G -> fresh G).
  { intros j G Hj HG. destruct (Hne1 j G HG) as (G0 & HG0 & Hg); [lia |]. eapply grew_fresh; [by eapply Forall_lookup | exact Hg | by eapply Forall_lookup]. }
  assert (Hlen : (0 < length (ws_futures w))%nat) by (by apply lookup_lt_Some in HF0).
  destruct b.
  { intros [= <- <-]. assert (Hset : forall j F, ws_futures w1 !! j = Some F -> sleeps F = true -> signalled F = true).
    { intros j G HG HS. destruct (decide (j = 0%nat)) as [-> | Hj]; [by rewrite (is_sleeps _ _ _ (Hi1 G HG)) in HS |].
      destruct (Hhigh j G) as (_ & m & HH); [lia | done |]. by rewrite (is_sleeps _ _ _ HH) in HS. }
    split_and!; [| done |].
    - unfold owed in Hz. rewrite (settled_caused _ Hset) in Hz. lia.
    - intros (w2 & it & index & w3 & [=] & _). }
  destruct (start_any_ok (length (ws_futures w) - 1) 1 0 w1) as (it & index & r0 & w2 & E2 & Hk2 & Ho2 & Hl2 & Hw2 & Hcase); auto; [lia | | lia |].
  { intros j G Hj HG. replace j with 0%nat in HG by lia. by rewrite (is_sleeps _ _ _ (Hi1 G HG)). }
  rewrite E2. step. rewrite Hl1 in Hcase.
  destruct Hcase as [(-> & Hit & Hix & Hp & Ht) | (Hr0 & Hit & Hp & Ht)].
  - (* nothing was signalled in time: the fiber sleeps *)
    rewrite (proj2 (Nat.eqb_eq _ _) Hit). destruct (yield_here w2) as [w3 |] eqn:Hy; step; [| done].
    destruct (yieldTo_ok _ _ _ Hk2 Hy) as ((Hk3 & Ho3 & Hg3 & Hw3) & _). pose proof (Forall2_length _ _ _ Hg3) as Hl3.
    replace it with (S (it - 1)) in Hp by lia.
    destruct (cancel_any_ok (it - 1) index None 0 w3) as (r' & y' & w4 & -> & Hk4 & Ho4 & Hs4 & Ht4 & Hy4 & Hw4 & Hr4 & _ & Heq4 & _); [done | | lia |].
    { intros j G HG. destruct (Forall2_lookup_r _ _ _ _ _ Hg3 HG) as (G0 & HG0 & Hg). pose proof (Hp j G0 HG0) as HX.
      rewrite (grew_sleeps _ _ Hg). destruct (j <? S (it - 1))%nat; [done |]. intros HS. eapply grew_signalled; eauto. }
    step. destruct r' as [r' |]; [| done]. pose proof (settled_caused _ Hs4) as Hc4. unfold owed in Ho4 at 1. rewrite (total_grew _ _ Hg3) in Ht4.
    assert (Hyw : ws_wakeups w4 = Z.of_nat (y' - 1) /\ (0 < y')%nat) by lia. destruct Hyw as (Hyw & Hypos).
    rewrite (yields_owed _ _ Hyw). step. intros [= <- <-]. cbn. split_and!; [done | done |]. intros _.
    destruct (Hr4 ltac:(lia) Hypos) as (j & G & [= <-] & HG & Hsig). eauto.
  - rewrite (proj2 (Nat.eqb_neq _ _)) by lia. step.
    destruct (cancel_any_ok it index r0 1 w2) as (r' & y' & w4 & -> & Hk4 & Ho4 & Hs4 & Ht4 & Hy4 & Hw4 & _); [done | done | lia |].
    step. destruct r' as [r' |]; [| done]. pose proof (settled_caused _ Hs4) as Hc4. unfold owed in Ho4 at 1.
    rewrite (yields_owed (y' - 1) w4) by lia. step. intros [= <- <-]. cbn. split_and!; [done | done |].
    intros (w5 & it5 & index5 & w6 & [= <-] & E6). rewrite E2 in E6. by injection E6 as _ _ -> _.
Qed.
End Waits.

(** [waitAll] returns once every future has been signalled, whatever the order and however the signals fall between
    its own steps: if each future is signalled or will be, it does return, then all of them are signalled, and the fiber
    was scheduled exactly as often as it yielded, so that no wakeup is left for its next yield. *)
Theorem waitAll_spec self sched w : Z.land self 1 = 0 -> 2 < self ->
  ws_futures w <> [] -> Forall (fresh self sched) (ws_futures w) -> ws_wakeups w = 0 -> coming w ->
  exists w', waitAll self sched w = Ok w' /\ Forall (fun F => signalled F = true) (ws_futures w') /\ ws_wakeups w' = 0.
Proof. intros He Hs. by apply waitAll_ok. Qed.

Lemma waitAll_spec_witness :
  exists w', waitAll 16 1%nat (mkWaits [mkFuture 0 None None; mkFuture 1 None None; mkFuture 0 None None] 0 [[]; [0%nat]; []; []; [2%nat]]) = Ok w' /\
    Forall (fun F => signalled F = true) (ws_futures w') /\ ws_wakeups w' = 0.
Proof.
  apply (waitAll_spec 16 1%nat); [done | done | done | | done |].
  - repeat (apply Forall_cons; split; [split; [done |] |]); [by exists false | by exists true | by exists false | constructor].
  - intros i F. cbn. destruct i as [| [| [| i]]]; cbn; intros [= <-]; [right; set_solver | left; done | right; set_solver].
Defined.

(** When [waitAny] returns, the fiber waits for no future any more and no wakeup is left for its next yield, whenever
    the signals came; and if no future was found signalled when the waits were started, the index it returns is that of
    a signalled future. *)
Theorem waitAny_spec self sched w r w' : Z.land self 1 = 0 -> 2 < self ->
  Forall (fresh self sched) (ws_futures w) -> ws_wakeups w = 0 -> waitAny self sched w = Ok (r, w') ->
  ws_wakeups w' = 0 /\ (forall j F, ws_futures w' !! j = Some F -> sleeps self F = true -> signalled F = true) /\
  ((exists w1 it index w2, on_future 0 (startWait self (Some sched)) w = Ok (false, w1) /\
      start_any self sched 1 (length (ws_futures w) - 1) 0 w1 = Ok (it, index, None, w2)) ->
   exists F, ws_futures w' !! r = Some F /\ signalled F = true).
Proof. intros He Hs. by apply waitAny_ok. Qed.

Lemma waitAny_spec_witness :
  exists w', waitAny 16 1%nat (mkWaits [mkFuture 0 None None; mkFuture 0 None None; mkFuture 0 None None] 0 [[]; []; []; [1%nat]; [2%nat]]) = Ok (1%nat, w') /\
    ws_wakeups w' = 0 /\ map signalled (ws_futures w') = [false; true; true] /\ exists F, ws_futures w' !! 1%nat = Some F /\ signalled F = true.
Proof.
  eexists. split; [vm_compute; reflexivity |]. split; [reflexivity |]. split; [reflexivity |].
  eapply (waitAny_spec 16 1%nat (mkWaits [mkFuture 0 None None; mkFuture 0 None None; mkFuture 0 None None] 0 [[]; []; []; [1%nat]; [2%nat]]) 1%nat);
    [done | done | | done | vm_compute; reflexivity | eexists _, _, _, _; split; vm_compute; reflexivity].
  repeat (apply Forall_cons; split; [split; [done | by exists false] |]). constructor.
Defined.
