(* ===== verification/IOManager.v ===== *)
(** [iomanager_epoll.h] and [iomanager_epoll.cpp]: fibers and functions that wait until a file descriptor can be read or
    written, with [epoll] as a class of what the system promises.  A method is one step: the state of a descriptor, once
    made, stays until the manager is destroyed, so that nothing happens between the two mutexes a method takes in turn. *)

From stdpp Require Import numbers list_numbers list.
From S2P Require Import Prelude Stream Timer FiberCore Scheduler.

(** ** Events *)

Module Event.
Definition NONE : Z := 0x0000.
Definition READ : Z := 0x0001.
Definition WRITE : Z := 0x0004.
Definition CLOSE : Z := 0x2000.
End Event.

Definition EPOLLIN : Z := 0x001.
Definition EPOLLOUT : Z := 0x004.
Definition EPOLLERR : Z := 0x008.
Definition EPOLLHUP : Z := 0x010.
Definition EPOLLRDHUP : Z := 0x2000.
Definition EPOLLET : Z := 0x80000000.

(** [a & b] as a condition. *)
Definition has_bits (a b : Z) : bool := negb (Z.land a b =? 0).

Record EventContext := mkContext { ec_scheduler : option nat; ec_fiber : option fid; ec_dg : option dg }.

Definition EventContext_new : EventContext := mkContext None None None.

Record AsyncState := mkAsync { m_fd : Z; m_in : EventContext; m_out : EventContext; m_close : EventContext; m_events : Z }.

Definition AsyncState_new : AsyncState := mkAsync 0 EventContext_new EventContext_new EventContext_new Event.NONE.

Definition AsyncState_destroy (s : AsyncState) : result unit := assert: m_events s =? 0 ;; Ok tt.

Definition set_fd (fd : Z) (s : AsyncState) : AsyncState := mkAsync fd (m_in s) (m_out s) (m_close s) (m_events s).
Definition set_events (ev : Z) (s : AsyncState) : AsyncState := mkAsync (m_fd s) (m_in s) (m_out s) (m_close s) ev.

Definition contextForEvent (event : Z) (s : AsyncState) : result EventContext :=
  if event =? Event.READ then Ok (m_in s)
  else if event =? Event.WRITE then Ok (m_out s)
  else if event =? Event.CLOSE then Ok (m_close s)
  else Err Assertion.

(** Storing through the reference that [contextForEvent] returns. *)
Definition set_context (event : Z) (c : EventContext) (s : AsyncState) : AsyncState :=
  if event =? Event.READ then mkAsync (m_fd s) c (m_out s) (m_close s) (m_events s)
  else if event =? Event.WRITE then mkAsync (m_fd s) (m_in s) c (m_close s) (m_events s)
  else mkAsync (m_fd s) (m_in s) (m_out s) c (m_events s).

(** What is put on a scheduler: a function, a fiber, or [asyncResetContext] with a copy of a context. *)
Inductive task := RunDg (d : dg) | RunFiber (f : option fid) | ResetContext (c : EventContext).

(** The function or the fiber is swapped out of the context. *)
Definition take_task (c : EventContext) : task * EventContext :=
  match ec_dg c with
  | Some d => (RunDg d, mkContext None (ec_fiber c) None)
  | None => (RunFiber (ec_fiber c), mkContext None None None)
  end.

(** Whether something was triggered, the state, the count of pending events and what was scheduled where. *)
Definition triggerEvent (event : Z) (s : AsyncState) (pendingEventCount : Z) : result (bool * AsyncState * Z * list (nat * task)) :=
  if negb (has_bits (m_events s) event) then Ok (false, s, pendingEventCount, [])
  else
    let s := set_events (Z.land (m_events s) (Z.lnot event)) s in
    context ← contextForEvent event s;
    match ec_scheduler context with
    | None => Err Undefined
    | Some scheduler =>
        let '(t, context) := take_task context in
        Ok (true, set_context event context s, u64 (pendingEventCount - 1), [(scheduler, t)])
    end.

Definition resetContext (context : EventContext) : result (EventContext * (nat * task)) :=
  match ec_scheduler context with
  | None => Err Undefined
  | Some scheduler => Ok (EventContext_new, (scheduler, ResetContext context))
  end.

(** [asyncResetContext] works on the copy it was bound to. *)
Definition asyncResetContext (context : EventContext) : EventContext := mkContext (ec_scheduler context) None None.

(** ** [epoll] *)

Inductive epoll_op := EPOLL_CTL_ADD | EPOLL_CTL_MOD | EPOLL_CTL_DEL.

Definition EEXIST : Z := 17.
Definition ENOENT : Z := 2.

(** [epoll_ctl] gives an error number or succeeds; [interest] is what the descriptor is registered for.  The laws are those of
    the manual page: a success changes the registration, a failure does not, [EEXIST] is for a descriptor that is registered
    already and [ENOENT] for one that is not. *)
Class Epoll (K : Type) := {
  epoll_ctl : epoll_op -> Z -> Z -> K -> option Z * K;
  interest : K -> Z -> option Z;
  ctl_ok : forall o fd ev k k', epoll_ctl o fd ev k = (None, k') ->
    interest k' fd = (match o with EPOLL_CTL_DEL => None | _ => Some ev end) /\
    (forall fd', fd' <> fd -> interest k' fd' = interest k fd');
  ctl_failed : forall o fd ev k e k', epoll_ctl o fd ev k = (Some e, k') -> forall fd', interest k' fd' = interest k fd';
  ctl_EEXIST : forall o fd ev k k', epoll_ctl o fd ev k = (Some EEXIST, k') -> o = EPOLL_CTL_ADD /\ interest k fd <> None;
  ctl_ENOENT : forall o fd ev k k', epoll_ctl o fd ev k = (Some ENOENT, k') -> o <> EPOLL_CTL_ADD /\ interest k fd = None;
}.

(** [MORDOR_THROW_EXCEPTION_FROM_LAST_ERROR_API] *)
Definition last_error (errno : Z) : exn := other_exn (1000 + errno).

(** ** The manager *)

(** [m_log] is what was put on the schedulers so far, and [m_tickles] the bytes in the pipe that wakes [epoll_wait]. *)
Record IOManager (K : Type) := mkIOManager {
  m_epfd : K;
  m_tickles : Z;
  m_pendingEventCount : Z;
  m_pendingEvents : list (option AsyncState);
  m_log : list (nat * task);
}.
Arguments mkIOManager {K} _ _ _ _ _.
Arguments m_epfd {K} _.
Arguments m_tickles {K} _.
Arguments m_pendingEventCount {K} _.
Arguments m_pendingEvents {K} _.
Arguments m_log {K} _.

Section Manager.
Context {K : Type} `{!Epoll K}.

Definition set_epfd (k : K) (m : IOManager K) : IOManager K := mkIOManager k (m_tickles m) (m_pendingEventCount m) (m_pendingEvents m) (m_log m).
Definition set_tickled (n : Z) (m : IOManager K) : IOManager K := mkIOManager (m_epfd m) n (m_pendingEventCount m) (m_pendingEvents m) (m_log m).
Definition set_pendingEvents (l : list (option AsyncState)) (m : IOManager K) : IOManager K :=
  mkIOManager (m_epfd m) (m_tickles m) (m_pendingEventCount m) l (m_log m).
(** The state of a descriptor, the count and the log change together. *)
Definition set_state_of (fd : Z) (s : AsyncState) (n : Z) (log : list (nat * task)) (m : IOManager K) : IOManager K :=
  mkIOManager (m_epfd m) (m_tickles m) n (<[Z.to_nat (fd - 1) := Some s]> (m_pendingEvents m)) (m_log m ++ log).

Definition IOManager_new (k : K) : IOManager K := mkIOManager k 0 0 [] [].

(** [epoll_ctl(m_epfd, op, fd, &epevent)] and the exception if it fails. *)
Definition ctl (o : epoll_op) (fd events : Z) : op (IOManager K) unit := fun m =>
  match epoll_ctl o fd events (m_epfd m) with
  | (None, k) => (Ok tt, set_epfd k m)
  | (Some e, k) => (throw (last_error e), set_epfd k m)
  end.

Definition is_event (event : Z) : bool := (event =? Event.READ) || (event =? Event.WRITE) || (event =? Event.CLOSE).

(** [*m_pendingEvents[fd - 1]] *)
Definition state_at (fd : Z) (m : IOManager K) : result AsyncState :=
  match m_pendingEvents m !! Z.to_nat (fd - 1) with Some (Some s) => Ok s | _ => Err Undefined end.

(** The state of a descriptor is made when it is needed; [fd * 3 / 2] is computed in [int]. *)
Definition expand (fd : Z) (m : IOManager K) : result unit * IOManager K :=
  let size := zlen (m_pendingEvents m) in
  if (size <? fd) && (2 ^ 31 <=? fd * 3) then (Err Undefined, m)
  else
    let l := if size <? fd then resize None (Z.to_nat (fd * 3 / 2)) (m_pendingEvents m) else m_pendingEvents m in
    let l := match l !! Z.to_nat (fd - 1) with
             | Some None => <[Z.to_nat (fd - 1) := Some (set_fd fd AsyncState_new)]> l
             | _ => l
             end in
    (Ok tt, set_pendingEvents l m).

(** [scheduler] and [fiber] are [Scheduler::getThis()] and [Fiber::getThis()]. *)
Definition registerEvent (scheduler : option nat) (fiber : fid) (fd event : Z) (dg : option dg) : op (IOManager K) unit :=
  check (0 <? fd) ≫= fun _ =>
  check (bool_decide (scheduler <> None)) ≫= fun _ =>
  check (is_event event) ≫= fun _ =>
  method (expand fd) ≫= fun _ =>
  state ← gets (state_at fd) ≫= lift;
  check (fd =? m_fd state) ≫= fun _ =>
  check (negb (has_bits (m_events state) event)) ≫= fun _ =>
  ctl (if m_events state =? 0 then EPOLL_CTL_ADD else EPOLL_CTL_MOD) fd (Z.lor (Z.lor EPOLLET (m_events state)) event) ≫= fun _ =>
  context ← lift (contextForEvent event state);
  check (bool_decide (ec_scheduler context = None)) ≫= fun _ =>
  check (bool_decide (ec_fiber context = None)) ≫= fun _ =>
  check (bool_decide (ec_dg context = None)) ≫= fun _ =>
  let context := match dg with Some _ => mkContext scheduler None dg | None => mkContext scheduler (Some fiber) None end in
  let state := set_context event context (set_events (Z.lor (m_events state) event) state) in
  n ← gets m_pendingEventCount;
  modify (set_state_of fd state (u64 (n + 1)) []).

(** [m_pendingEvents.size() < (size_t)fd || !m_pendingEvents[fd - 1]] *)
Definition known (fd : Z) (m : IOManager K) : option AsyncState :=
  if zlen (m_pendingEvents m) <? fd then None
  else match m_pendingEvents m !! Z.to_nat (fd - 1) with Some (Some s) => Some s | _ => None end.

(** The common part of [unregisterEvent] and [cancelEvent]: the state with the event taken out of what [epoll] looks for, or
    nothing when it was not registered. *)
Definition withdraw (fd event : Z) : op (IOManager K) (option AsyncState) :=
  check (0 <? fd) ≫= fun _ =>
  check (is_event event) ≫= fun _ =>
  o ← gets (known fd);
  match o with
  | None => mret None
  | Some state =>
      check (fd =? m_fd state) ≫= fun _ =>
      if negb (has_bits (m_events state) event) then mret None
      else
        check (fd =? m_fd state) ≫= fun _ =>
        let newEvents := Z.land (m_events state) (Z.lnot event) in
        ctl (if newEvents =? 0 then EPOLL_CTL_DEL else EPOLL_CTL_MOD) fd (Z.lor EPOLLET newEvents) ≫= fun _ =>
        mret (Some state)
  end.

Definition unregisterEvent (fd event : Z) : op (IOManager K) bool :=
  o ← withdraw fd event;
  match o with
  | None => mret false
  | Some state =>
      let state := set_events (Z.land (m_events state) (Z.lnot event)) state in
      context ← lift (contextForEvent event state);
      '(context, t) ← lift (resetContext context);
      n ← gets m_pendingEventCount;
      modify (set_state_of fd (set_context event context state) (u64 (n - 1)) [t]) ≫= fun _ => mret true
  end.

(** [state.triggerEvent(event, m_pendingEventCount)] for the descriptor [fd]. *)
Definition trigger (fd event : Z) : op (IOManager K) bool :=
  state ← gets (state_at fd) ≫= lift;
  n ← gets m_pendingEventCount;
  '(b, state, n, log) ← lift (triggerEvent event state n);
  modify (set_state_of fd state n log) ≫= fun _ => mret b.

Definition cancelEvent (fd event : Z) : op (IOManager K) bool :=
  o ← withdraw fd event;
  match o with
  | None => mret false
  | Some _ => trigger fd event ≫= fun _ => mret true
  end.

(** ** The idle fiber *)

(** What [epoll_wait] reports: the pipe, or the events of a descriptor. *)
Inductive source := Tickle | Descriptor (fd : Z) (events : Z).

Definition incoming (events : Z) : Z :=
  let events := if has_bits events (Z.lor EPOLLERR EPOLLHUP) then Z.lor events (Z.lor EPOLLIN EPOLLOUT) else events in
  let incomingEvents := if has_bits events EPOLLIN then Event.READ else Event.NONE in
  let incomingEvents := if has_bits events EPOLLOUT then Z.lor incomingEvents Event.WRITE else incomingEvents in
  if has_bits events EPOLLRDHUP then Z.lor incomingEvents Event.CLOSE else incomingEvents.

Definition trigger_if (incomingEvents fd event : Z) (triggered : bool) : op (IOManager K) bool :=
  if has_bits incomingEvents event then b ← trigger fd event; mret (b || triggered) else mret triggered.

(** One of the events; the result is the exception that is kept for the end of the loop. *)
Definition idle_event (e : source) (exception : option exn) : op (IOManager K) (option exn) :=
  match e with
  | Tickle => modify (set_tickled 0) ≫= fun _ => mret exception
  | Descriptor fd events =>
      state ← gets (state_at fd) ≫= lift;
      let incomingEvents := incoming events in
      if Z.land (m_events state) incomingEvents =? Event.NONE then mret exception
      else
        let remainingEvents := Z.land (m_events state) (Z.lnot incomingEvents) in
        rc ← catch (ctl (if remainingEvents =? 0 then EPOLL_CTL_DEL else EPOLL_CTL_MOD) (m_fd state) (Z.lor EPOLLET remainingEvents) ≫= fun _ => mret None)
                   (fun e => mret (Some e));
        match rc with
        | Some e => mret (Some e)
        | None =>
            triggered ← trigger_if incomingEvents fd Event.READ false;
            triggered ← trigger_if incomingEvents fd Event.WRITE triggered;
            triggered ← trigger_if incomingEvents fd Event.CLOSE triggered;
            check triggered ≫= fun _ => mret exception
        end
  end.

Fixpoint event_loop (l : list source) (exception : option exn) : op (IOManager K) (option exn) :=
  match l with
  | [] => mret exception
  | e :: l => exception ← idle_event e exception; event_loop l exception
  end.

Definition idle_events (l : list source) : op (IOManager K) unit :=
  exception ← event_loop l None;
  match exception with Some e => raise e | None => mret tt end.

(** ** Stopping, sleeping and waking *)

Definition hasIdleThreads (s : Scheduler) : bool := negb (m_idleThreadCount s =? 0).

(** Nothing is written to the pipe unless a thread is idle. *)
Definition IOManager_tickle (s : Scheduler) (m : IOManager K) : IOManager K :=
  if negb (hasIdleThreads s) then m else set_tickled (m_tickles m + 1) m.

(** The time to the next timer, and whether the manager can stop. *)
Definition IOManager_stopping (now : Z) (t : TimerManager) (s : Scheduler) (m : IOManager K) : result (Z * bool * TimerManager) :=
  '(t, nextTimeout) ← nextTimer t now;
  Ok (nextTimeout, (nextTimeout =? npos) && stopping s && (m_pendingEventCount m =? 0), t).
End Manager.

(** The argument of [epoll_wait] in milliseconds: [(int)(nextTimeout / 1000) + 1], or -1 to wait without end. *)
Definition epoll_timeout (nextTimeout : Z) : result Z :=
  if negb (nextTimeout =? npos) then
    let t := s32 (nextTimeout / 1000) in
    if t =? 2 ^ 31 - 1 then Err Undefined else Ok (t + 1)
  else Ok (-1).

(** [epoll_wait] returns events, fails, or is interrupted, after which the next timer is looked at again. *)
Inductive waited := Returned (l : list source) | Failed (errno : Z) | Interrupted (now : Z).

(** The loop around [epoll_wait]. *)
Fixpoint wait_loop (ws : list waited) (nextTimeout : Z) (t : TimerManager) : result (list source * list Z * TimerManager) :=
  timeout ← epoll_timeout nextTimeout;
  match ws with
  | [] => Err Diverges
  | Returned l :: _ => Ok (l, [timeout], t)
  | Failed e :: _ => throw (last_error e)
  | Interrupted now :: ws =>
      '(t, nextTimeout) ← nextTimer t now;
      '(l, timeouts, t) ← wait_loop ws nextTimeout t;
      Ok (l, timeout :: timeouts, t)
  end.

(** ** A round of the idle fiber *)

(** The three base objects of an [IOManager]. *)
Record manager (K : Type) := mkManager { mg_io : IOManager K; mg_scheduler : Scheduler; mg_timers : TimerManager }.
Arguments mkManager {K} _ _ _.
Arguments mg_io {K} _.
Arguments mg_scheduler {K} _.
Arguments mg_timers {K} _.

Section Idle.
Context {K : Type} `{!Epoll K}.
(** The threshold of the timers' clock, and the number by which a scheduler knows the function of a timer. *)
Context (clockRolloverThreshold : Z) (number : callback -> dg).

Definition on_io {A} (m : op (IOManager K) A) : op (manager K) A :=
  zoom mg_io (fun x M => mkManager x (mg_scheduler M) (mg_timers M)) m.

(** From [processTimers] to the end of the loop over the events, at the time [now]; the functions of timers are
    scheduled by a thread of the manager itself. *)
Definition idle_round (nowPtr now : Z) (l : list source) : op (manager K) unit :=
  expired ← method (fun M => match processTimers clockRolloverThreshold (mg_timers M) nowPtr now with
                             | Ok (t, dgs) => (Ok dgs, mkManager (mg_io M) (mg_scheduler M) t)
                             | Err f => (Err f, M)
                             end);
  (if bool_decide (expired = []) then mret tt
   else modify (fun M => mkManager (mg_io M) (snd (schedule_range ((fun d => mkFT None (Some (number d)) None) <$> expired) true (mg_scheduler M))) (mg_timers M))) ≫= fun _ =>
  on_io (idle_events l).
End Idle.
