(* ===== verification/IOManagerInv.v ===== *)
(** The invariant of the I/O manager: the events of a descriptor, the contexts that wait for them, the count of all of them
    and what [epoll] looks for agree; and what each method does to the waiting ones. *)

From stdpp Require Import numbers list_numbers list.
From S2P Require Import Prelude Stream FiberCore Scheduler IOManager.

(** ** One descriptor *)

(** A context is empty, or has a scheduler and either a function or a fiber. *)
Definition ctx_ok (c : EventContext) : Prop :=
  c = EventContext_new \/ (exists sc d, c = mkContext (Some sc) None (Some d)) \/ (exists sc f, c = mkContext (Some sc) (Some f) None).

Definition armed (c : EventContext) : bool := match ec_scheduler c with Some _ => true | None => false end.

(** What is to be scheduled, and where. *)
Definition waiter (c : EventContext) : option (nat * task) := sc ← ec_scheduler c; Some (sc, fst (take_task c)).

Definition mask (i o c : bool) : Z := (if i then Event.READ else 0) + (if o then Event.WRITE else 0) + (if c then Event.CLOSE else 0).

Record state_ok (fd : Z) (s : AsyncState) : Prop := mkStateOk {
  so_fd : m_fd s = fd;
  so_in : ctx_ok (m_in s);
  so_out : ctx_ok (m_out s);
  so_close : ctx_ok (m_close s);
  so_events : m_events s = mask (armed (m_in s)) (armed (m_out s)) (armed (m_close s));
}.

Definition waiters (s : AsyncState) : list (nat * task) := omap waiter [m_in s; m_out s; m_close s].

(** The context of a valid event. *)
Definition ctx (event : Z) (s : AsyncState) : EventContext :=
  if event =? Event.READ then m_in s else if event =? Event.WRITE then m_out s else m_close s.

Definition valid_event (event : Z) : Prop := event = Event.READ \/ event = Event.WRITE \/ event = Event.CLOSE.

Lemma is_event_valid event : is_event event = true <-> valid_event event.
Proof. unfold is_event, valid_event. rewrite !orb_true_iff, !Z.eqb_eq. tauto. Qed.

Lemma contextForEvent_ctx event s : valid_event event -> contextForEvent event s = Ok (ctx event s).
Proof. by intros [-> | [-> | ->]]. Qed.

(** Splits on the event and on which contexts are armed. *)
Ltac events_cases :=
  repeat match goal with
  | |- context [armed ?c] => let b := fresh "b" in generalize (armed c); intros b
  end;
  repeat match goal with b : bool |- _ => destruct b end; reflexivity.

Lemma has_event event fd s : valid_event event -> state_ok fd s -> has_bits (m_events s) event = armed (ctx event s).
Proof. intros [-> | [-> | ->]] [_ _ _ _ ->]; unfold ctx; cbn; events_cases. Qed.

Lemma events_zero fd s : state_ok fd s -> m_events s = 0 <-> waiters s = [].
Proof.
  intros [_ _ _ _ ->]. unfold waiters, waiter, armed. cbn.
  destruct (ec_scheduler (m_in s)), (ec_scheduler (m_out s)), (ec_scheduler (m_close s)); cbn; split; intros H; try done; discriminate H.
Qed.

Lemma ctx_ok_ctx event fd s : state_ok fd s -> ctx_ok (ctx event s).
Proof. intros []. unfold ctx. by repeat case_match. Qed.

Lemma ctx_ok_armed c : ctx_ok c -> armed c = true -> exists sc t, ec_scheduler c = Some sc /\ take_task c = (t, EventContext_new) /\ waiter c = Some (sc, t).
Proof. intros [-> | [(sc & d & ->) | (sc & f & ->)]] H; [done | |]; eexists _, _; done. Qed.

Lemma ctx_ok_idle c : ctx_ok c -> armed c = false -> c = EventContext_new.
Proof. by intros [-> | [(sc & d & ->) | (sc & f & ->)]]. Qed.

(** Emptying the context of an event. *)
Definition clear_event (event : Z) (s : AsyncState) : AsyncState :=
  set_context event EventContext_new (set_events (Z.land (m_events s) (Z.lnot event)) s).

Lemma clear_event_ok event fd s : valid_event event -> state_ok fd s -> state_ok fd (clear_event event s).
Proof.
  intros He [Hfd Hi Ho Hc Hev]. unfold clear_event. destruct He as [-> | [-> | ->]]; cbn; split; cbn; auto; try (by left); rewrite Hev; events_cases.
Qed.

Lemma clear_event_waiters event s w : valid_event event -> waiter (ctx event s) = Some w -> waiters s ≡ₚ w :: waiters (clear_event event s).
Proof.
  unfold waiters. intros [-> | [-> | ->]]; cbn; intros ->; cbn; [done | |].
  - destruct (waiter (m_in s)); cbn; [constructor | done].
  - destruct (waiter (m_in s)), (waiter (m_out s)); cbn; rewrite ?(Permutation_swap w); done.
Qed.

Lemma clear_event_idle event fd s : valid_event event -> state_ok fd s -> armed (ctx event s) = false -> clear_event event s = s.
Proof.
  intros He Hs Ha. pose proof (ctx_ok_idle _ (ctx_ok_ctx event _ _ Hs) Ha) as Hc. destruct Hs as [Hfd Hi Ho Hcl Hev].
  destruct s as [f i o c ev]; cbn in *. subst ev. unfold clear_event, ctx in *. destruct He as [-> | [-> | ->]]; cbn in *; rewrite Ha, Hc; f_equal; events_cases.
Qed.

(** [triggerEvent] empties the context and schedules what waited in it. *)
Lemma triggerEvent_ok event fd s n : valid_event event -> state_ok fd s ->
  triggerEvent event s n = Ok (armed (ctx event s), clear_event event s, if armed (ctx event s) then u64 (n - 1) else n, option_list (waiter (ctx event s))).
Proof.
  intros He Hs. unfold triggerEvent. rewrite (has_event event fd s He Hs). destruct (armed (ctx event s)) eqn:Ha; cbn.
  - rewrite contextForEvent_ctx by done. cbn.
    assert (ctx event (set_events (Z.land (m_events s) (Z.lnot event)) s) = ctx event s) as -> by done.
    destruct (ctx_ok_armed _ (ctx_ok_ctx event fd s Hs) Ha) as (sc & t & -> & -> & ->). done.
  - rewrite (clear_event_idle event fd s He Hs Ha). rewrite (ctx_ok_idle _ (ctx_ok_ctx event fd s Hs) Ha). done.
Qed.

(** Filling it. *)
Definition arm (event : Z) (c : EventContext) (s : AsyncState) : AsyncState := set_context event c (set_events (Z.lor (m_events s) event) s).

Lemma arm_ok event c fd s : valid_event event -> state_ok fd s -> ctx_ok c -> armed c = true -> armed (ctx event s) = false ->
  state_ok fd (arm event c s).
Proof.
  intros He [Hfd Hi Ho Hcl Hev] Hc Ha Hn. unfold arm, ctx in *. destruct He as [-> | [-> | ->]]; cbn in *; split; cbn; auto; rewrite Hev, Ha, Hn; events_cases.
Qed.

Lemma arm_waiters event c s w : valid_event event -> waiter (ctx event s) = None -> waiter c = Some w -> waiters (arm event c s) ≡ₚ w :: waiters s.
Proof.
  unfold waiters. intros [-> | [-> | ->]]; cbn; intros -> ->; cbn; [done | |].
  - destruct (waiter (m_in s)); cbn; [constructor | done].
  - destruct (waiter (m_in s)), (waiter (m_out s)); cbn; rewrite ?(Permutation_swap w); done.
Qed.

(** ** All descriptors *)

Definition waiters_of (o : option AsyncState) : list (nat * task) := match o with Some s => waiters s | None => [] end.
Definition all_waiters (l : list (option AsyncState)) : list (nat * task) := l ≫= waiters_of.
#[global] Arguments all_waiters : simpl never.

(** Looking up a descriptor, and what [epoll] should look for. *)
Definition slot (fd : Z) (l : list (option AsyncState)) : option AsyncState := mjoin (l !! Z.to_nat (fd - 1)).
Definition wanted (o : option AsyncState) : option Z :=
  s ← o; if m_events s =? 0 then None else Some (Z.lor EPOLLET (m_events s)).

Lemma all_waiters_insert l i o o' : l !! i = Some o -> exists R, all_waiters l ≡ₚ waiters_of o ++ R /\ all_waiters (<[i := o']> l) ≡ₚ waiters_of o' ++ R.
Proof.
  intros H. exists (all_waiters (take i l) ++ all_waiters (drop (S i) l)). unfold all_waiters.
  rewrite (insert_take_drop l i o') by (by eapply lookup_lt_Some). rewrite <- (take_drop_middle l i o H) at 1.
  rewrite !bind_app, !bind_cons. split; solve_Permutation.
Qed.

Lemma all_waiters_length l : zlen (all_waiters l) <= 3 * zlen l.
Proof.
  unfold all_waiters. induction l as [| o l IH]; [done |]. cbn. rewrite zlen_app, zlen_cons.
  assert (zlen (waiters_of o) <= 3); [| lia]. destruct o as [s |]; [| done]. unfold waiters_of, waiters. cbn.
  destruct (waiter (m_in s)), (waiter (m_out s)), (waiter (m_close s)); done.
Qed.

Section Inv.
Context {K : Type} `{!Epoll K} (tickleFd : Z).

Definition pending (m : IOManager K) : list (nat * task) := all_waiters (m_pendingEvents m).

(** A descriptor of the users of the manager, small enough for the table. *)
Definition user_fd (fd : Z) : Prop := 0 < fd /\ fd * 3 < 2 ^ 31 /\ fd <> tickleFd.

Record io_ok (m : IOManager K) : Prop := mkIoOk {
  io_states : forall i s, m_pendingEvents m !! i = Some (Some s) -> state_ok (Z.of_nat i + 1) s;
  io_count : m_pendingEventCount m = zlen (pending m);
  io_size : zlen (m_pendingEvents m) <= 2 ^ 31;
  io_epoll : forall fd, user_fd fd -> interest (m_epfd m) fd = wanted (slot fd (m_pendingEvents m));
}.

Lemma io_slot m fd s : io_ok m -> 0 < fd -> slot fd (m_pendingEvents m) = Some s ->
  state_ok fd s /\ m_pendingEvents m !! Z.to_nat (fd - 1) = Some (Some s).
Proof.
  intros HI Hfd H. unfold slot in H. destruct (m_pendingEvents m !! Z.to_nat (fd - 1)) as [[s' |] |] eqn:E; cbn in H; try done.
  injection H as ->. split; [| done]. pose proof (io_states _ HI _ _ E) as Hs. by replace (Z.of_nat (Z.to_nat (fd - 1)) + 1) with fd in Hs by lia.
Qed.

Lemma slot_insert fd fd' o l : 0 < fd -> 0 < fd' -> (Z.to_nat (fd - 1) < length l)%nat ->
  slot fd' (<[Z.to_nat (fd - 1) := o]> l) = if fd' =? fd then o else slot fd' l.
Proof.
  intros H1 H2 H3. unfold slot. destruct (Z.eqb_spec fd' fd) as [-> | Hne].
  - by rewrite list_lookup_insert_eq.
  - by rewrite list_lookup_insert_ne by lia.
Qed.

(** One descriptor changes from [s] to [s'], and [epoll] with it. *)
Lemma update_ok m fd s s' k n log :
  io_ok m -> 0 < fd -> slot fd (m_pendingEvents m) = Some s -> state_ok fd s' ->
  (user_fd fd -> interest k fd = wanted (Some s')) -> (forall fd', user_fd fd' -> fd' <> fd -> interest k fd' = interest (m_epfd m) fd') ->
  n - m_pendingEventCount m = zlen (waiters s') - zlen (waiters s) ->
  io_ok (set_state_of fd s' n log (set_epfd k m)) /\
  waiters s' ++ pending m ≡ₚ waiters s ++ pending (set_state_of fd s' n log (set_epfd k m)).
Proof.
  intros HI Hfd Hs Hs' Hk Hk' Hn. destruct (io_slot m fd s HI Hfd Hs) as (Hok & Hl).
  destruct (all_waiters_insert (m_pendingEvents m) _ _ (Some s') Hl) as (R & H1 & H2).
  assert (Hp : waiters s' ++ pending m ≡ₚ waiters s ++ pending (set_state_of fd s' n log (set_epfd k m))).
  { unfold pending. cbn. rewrite H1, H2. cbn. solve_Permutation. }
  split; [| done]. split; cbn.
  - intros i x. rewrite list_lookup_insert_Some. intros [(<- & [= <-] & _) | (_ & H)]; [| by apply (io_states _ HI)].
    by replace (Z.of_nat (Z.to_nat (fd - 1)) + 1) with fd by lia.
  - apply Permutation_length in Hp. rewrite !length_app in Hp. rewrite (io_count _ HI) in Hn. unfold pending, zlen in *. cbn in *. lia.
  - unfold zlen. rewrite length_insert. apply (io_size _ HI).
  - intros fd' Hu. rewrite slot_insert by (unfold user_fd in Hu; first [lia | by eapply lookup_lt_Some]).
    destruct (Z.eqb_spec fd' fd) as [-> | Hne]; [by apply Hk |]. rewrite Hk' by done. by apply (io_epoll _ HI).
Qed.

(** [epoll] for the descriptor [fd] changes as told, or fails without a change and for a reason of the system's own. *)
Lemma ctl_cases (o : epoll_op) fd ev m : io_ok m -> user_fd fd ->
  (o = EPOLL_CTL_ADD <-> wanted (slot fd (m_pendingEvents m)) = None) ->
  exists r k, ctl o fd ev m = (r, set_epfd k m) /\ (forall fd', fd' <> fd -> interest k fd' = interest (m_epfd m) fd') /\
    ((r = Ok tt /\ interest k fd = match o with EPOLL_CTL_DEL => None | _ => Some ev end) \/
     (exists e, r = throw (last_error e) /\ e <> EEXIST /\ e <> ENOENT /\ interest k fd = interest (m_epfd m) fd)).
Proof.
  intros HI Hu Ho. unfold ctl. destruct (epoll_ctl o fd ev (m_epfd m)) as [[e |] k] eqn:E; eexists _, k; (split; [reflexivity |]).
  - pose proof (ctl_failed _ _ _ _ _ _ E) as Hf. split; [auto |]. right. exists e. rewrite <- (io_epoll _ HI fd Hu) in Ho. split_and!; auto.
    + intros ->. apply ctl_EEXIST in E as (H1 & H2). tauto.
    + intros ->. apply ctl_ENOENT in E as (H1 & H2). tauto.
  - apply ctl_ok in E as (H1 & H2). auto.
Qed.

(** A change of [epoll] alone that leaves what it looks for. *)
Lemma set_epfd_ok k m : io_ok m -> (forall fd, user_fd fd -> interest k fd = interest (m_epfd m) fd) -> io_ok (set_epfd k m).
Proof. intros [] H. split; cbn; auto. intros fd Hu. rewrite H by done. auto. Qed.
End Inv.
