(* ===== verification/IOManagerSteps.v ===== *)
(** Every method of the I/O manager and the idle loop keep the invariant, and what it does to the ones that wait. *)

From stdpp Require Import numbers list_numbers list.
From S2P Require Import Prelude Stream FiberCore Scheduler IOManager IOManagerInv.

Section Steps.
Context {K : Type} `{!Epoll K} (tickleFd : Z).
Local Notation io_ok := (io_ok (K := K) tickleFd).
Local Notation user_fd := (user_fd tickleFd).

Lemma check_true {S} (b : bool) (s : S) : b = true -> check b s = (Ok tt, s).
Proof. by intros ->. Qed.

Lemma bind_check {S B} (b : bool) (f : unit -> op S B) s : b = true -> (check b ≫= f) s = f tt s.
Proof. intros ->. reflexivity. Qed.

Lemma bind_gets {S A B} (g : S -> A) (f : A -> op S B) s : (gets g ≫= f) s = f (g s) s.
Proof. reflexivity. Qed.

Lemma bind_lift {S A B} (a : A) (f : A -> op S B) s : (lift (Ok a) ≫= f) s = f a s.
Proof. reflexivity. Qed.

Lemma bind_state_at {B} fd s (f : AsyncState -> op (IOManager K) B) m :
  slot fd (m_pendingEvents m) = Some s -> ((gets (state_at fd) ≫= lift) ≫= f) m = f s m.
Proof.
  intros H. unfold mbind, op_bind, gets, lift, state_at. unfold slot in H.
  destruct (m_pendingEvents m !! Z.to_nat (fd - 1)) as [[x |] |]; cbn in H; try done. by injection H as ->.
Qed.

(** Making room for a descriptor changes nothing for those that wait. *)
Lemma expand_ok fd m : io_ok m -> user_fd fd ->
  exists m' s, expand fd m = (Ok tt, m') /\ io_ok m' /\ slot fd (m_pendingEvents m') = Some s /\ pending m' = pending m /\
    m_log m' = m_log m /\ m_epfd m' = m_epfd m /\ wanted (Some s) = wanted (slot fd (m_pendingEvents m)) /\
    (forall s', slot fd (m_pendingEvents m) = Some s' -> s = s') /\ (slot fd (m_pendingEvents m) = None -> s = set_fd fd AsyncState_new).
Proof.
  intros HI Hu. unfold expand. assert (Hb : 0 < fd /\ fd * 3 < 2 ^ 31) by (unfold user_fd in Hu; lia).
  rewrite (proj2 (Z.leb_gt (2 ^ 31) (fd * 3))) by lia. rewrite andb_false_r.
  set (l := if zlen (m_pendingEvents m) <? fd then _ else _).
  assert (Hl : exists n, l = m_pendingEvents m ++ replicate n None /\ (Z.to_nat (fd - 1) < length l)%nat /\ zlen l <= 2 ^ 31).
  { pose proof (io_size _ _ HI) as Hsz. unfold l, zlen in *. destruct (Z.ltb_spec (Z.of_nat (length (m_pendingEvents m))) fd) as [Hlt | Hge].
    - exists (Z.to_nat (fd * 3 / 2) - length (m_pendingEvents m))%nat. unfold resize.
      assert (fd <= fd * 3 / 2 < 2 ^ 31) by (split; [apply Z.div_le_lower_bound; lia | apply Z.div_lt_upper_bound; lia]). rewrite take_ge by lia. rewrite length_app, length_replicate. split_and!; [done | lia | lia].
    - exists 0%nat. cbn. rewrite app_nil_r. split_and!; [done | lia | lia]. }
  destruct Hl as (n & Hl & Hlen & Hsz). clearbody l.
  assert (Hslot : forall fd', 0 < fd' -> slot fd' l = slot fd' (m_pendingEvents m)).
  { intros fd' H'. unfold slot. rewrite Hl, lookup_app. destruct (m_pendingEvents m !! _); [done |].
    destruct (replicate n None !! _) as [x |] eqn:E; [| done]. apply lookup_replicate in E as (-> & _). done. }
  assert (Hstates : forall i s, l !! i = Some (Some s) -> state_ok (Z.of_nat i + 1) s).
  { intros i s. rewrite Hl, lookup_app_Some. intros [H | (_ & H)]; [by apply (io_states _ _ HI) |]. by apply lookup_replicate in H as (? & _). }
  assert (Hw : all_waiters l = pending m).
  { unfold pending, all_waiters. rewrite Hl, bind_app. rewrite <- (app_nil_r (m_pendingEvents m ≫= waiters_of)) at 2. f_equal. clear. by induction n. }
  destruct (lookup_lt_is_Some_2 l _ Hlen) as (x & Hx). rewrite Hx. destruct x as [s |].
  - exists (set_pendingEvents l m), s. assert (Hs : slot fd l = Some s) by (unfold slot; by rewrite Hx).
    split_and!; try done; [| by rewrite <- Hslot, Hs by lia | | ].
    + split; cbn; auto; [etrans; [apply (io_count _ _ HI) | by rewrite <- Hw] |].
      intros fd' Hu'. rewrite Hslot by (unfold user_fd in Hu'; lia). by apply (io_epoll _ _ HI).
    + intros s'. rewrite <- Hslot, Hs by lia. by intros [= <-].
    + rewrite <- Hslot, Hs by lia. done.
  - set (s := set_fd fd AsyncState_new). assert (Hnone : slot fd (m_pendingEvents m) = None) by (rewrite <- Hslot by lia; unfold slot; by rewrite Hx).
    assert (Hw' : all_waiters (<[Z.to_nat (fd - 1) := Some s]> l) = pending m).
    { rewrite <- Hw. unfold all_waiters. rewrite (insert_take_drop l _ (Some s) Hlen). rewrite <- (take_drop_middle l _ _ Hx) at 3.
      rewrite !bind_app, !bind_cons. done. }
    exists (set_pendingEvents (<[Z.to_nat (fd - 1) := Some s]> l) m), s. cbn.
    rewrite slot_insert, Z.eqb_refl, Hnone by lia. split_and!; try done.
    split; cbn.
    + intros i x. rewrite list_lookup_insert_Some. intros [(<- & [= <-] & _) | (_ & H)]; [| by apply Hstates].
      replace (Z.of_nat (Z.to_nat (fd - 1)) + 1) with fd by lia. split; cbn; auto; by left.
    + etrans; [apply (io_count _ _ HI) | by rewrite <- Hw'].
    + unfold zlen. by rewrite length_insert.
    + intros fd' Hu'. rewrite slot_insert by (unfold user_fd in *; lia). rewrite (io_epoll _ _ HI fd' Hu').
      destruct (Z.eqb_spec fd' fd) as [-> | Hne]; [by rewrite Hnone |]. by rewrite Hslot by (unfold user_fd in Hu'; lia).
Qed.

(** What a failure of [epoll_ctl] leaves. *)
Definition failed {A} (r : result A) : Prop := exists e, r = throw (last_error e) /\ e <> EEXIST /\ e <> ENOENT.

Definition registered (fd event : Z) (m : IOManager K) : Prop := exists s, slot fd (m_pendingEvents m) = Some s /\ armed (ctx event s) = true.

Definition new_context (sc : nat) (f : fid) (dg : option dg) : EventContext :=
  match dg with Some _ => mkContext (Some sc) None dg | None => mkContext (Some sc) (Some f) None end.

Definition new_task (f : fid) (dg : option dg) : task := match dg with Some d => RunDg d | None => RunFiber (Some f) end.

Lemma new_context_ok sc f dg : ctx_ok (new_context sc f dg) /\ armed (new_context sc f dg) = true /\ waiter (new_context sc f dg) = Some (sc, new_task f dg).
Proof. destruct dg; (split; [right; eauto | done]). Qed.

Lemma lor_wanted event c fd s : valid_event event -> state_ok fd s -> ctx_ok c -> armed c = true -> armed (ctx event s) = false ->
  Some (Z.lor (Z.lor EPOLLET (m_events s)) event) = wanted (Some (arm event c s)).
Proof.
  intros He Hs Hc Ha Hn. destruct (arm_ok event c fd s He Hs Hc Ha Hn) as [_ _ _ _ Hev]. unfold wanted. cbn.
  replace (m_events (arm event c s)) with (Z.lor (m_events s) event) in * by (unfold arm, set_context; by repeat case_match).
  rewrite <- Z.lor_assoc. destruct (Z.eqb_spec (Z.lor (m_events s) event) 0) as [E | E]; [| done]. exfalso.
  rewrite Z.lor_eq_0_iff in E. destruct E as (_ & ->). by destruct He as [? | [? | ?]].
Qed.

Lemma registerEvent_ok sc f fd event dg m :
  io_ok m -> user_fd fd -> valid_event event -> ~ registered fd event m ->
  exists r m', registerEvent (Some sc) f fd event dg m = (r, m') /\ io_ok m' /\ m_log m' = m_log m /\
    ((r = Ok tt /\ registered fd event m' /\ pending m' ≡ₚ (sc, new_task f dg) :: pending m) \/ (failed r /\ pending m' ≡ₚ pending m)).
Proof.
  intros HI Hu He Hn. pose proof (proj2 (is_event_valid event) He) as Hev. assert (Hfd : 0 < fd) by (unfold user_fd in Hu; lia).
  unfold registerEvent. rewrite !bind_check by (done || by apply Z.ltb_lt).
  destruct (expand_ok fd m HI Hu) as (m1 & s & E1 & HI1 & Hs & Hp1 & Hl1 & Hk1 & Hw1 & Hsame & Hnew).
  unfold method at 1. rewrite (bind_ok _ _ _ _ _ E1), (bind_state_at fd s) by done.
  destruct (io_slot _ m1 fd s HI1 Hfd Hs) as (Hsok & _). pose proof (so_fd _ _ Hsok) as Hm_fd.
  assert (Ha : armed (ctx event s) = false).
  { destruct (slot fd (m_pendingEvents m)) as [s0 |] eqn:E0; [| rewrite Hnew by done; unfold ctx; by repeat case_match].
    rewrite (Hsame s0) by done. destruct (armed (ctx event s0)) eqn:Ea; [| done]. destruct Hn. by exists s0. }
  rewrite (bind_check (fd =? m_fd s)) by (by apply Z.eqb_eq). rewrite bind_check by (by rewrite (has_event event fd), Ha).
  destruct (ctl_cases tickleFd (if m_events s =? 0 then EPOLL_CTL_ADD else EPOLL_CTL_MOD) fd (Z.lor (Z.lor EPOLLET (m_events s)) event) m1 HI1 Hu)
    as (r & k & Ec & Hko & Hr).
  { rewrite Hs. unfold wanted. cbn. by destruct (m_events s =? 0). }
  destruct Hr as [(-> & Hk) | (e & -> & He1 & He2 & Hk)].
  - rewrite (bind_ok _ _ _ _ _ Ec), contextForEvent_ctx, bind_lift by done.
    rewrite (ctx_ok_idle _ (ctx_ok_ctx event fd s Hsok) Ha). rewrite !bind_check by done.
    change (match dg with Some _ => mkContext (Some sc) None dg | None => mkContext (Some sc) (Some f) None end) with (new_context sc f dg).
    rewrite bind_gets. change (m_pendingEventCount (set_epfd k m1)) with (m_pendingEventCount m1).
    change (set_context event (new_context sc f dg) (set_events (Z.lor (m_events s) event) s)) with (arm event (new_context sc f dg) s).
    destruct (new_context_ok sc f dg) as (Hc & Hca & Hcw).
    assert (Hwn : waiter (ctx event s) = None) by (rewrite (ctx_ok_idle _ (ctx_ok_ctx event fd s Hsok) Ha); done).
    pose proof (arm_waiters event (new_context sc f dg) s _ He Hwn Hcw) as Hw.
    pose proof (all_waiters_length (m_pendingEvents m1)) as Hlen. pose proof (io_size _ _ HI1) as Hsz. pose proof (io_count _ _ HI1) as Hcnt.
    assert (Hlen' : zlen (waiters (arm event (new_context sc f dg) s)) = 1 + zlen (waiters s)) by (apply Permutation_length in Hw; unfold zlen; rewrite Hw; cbn; lia).
    unfold pending in Hcnt. pose proof (zlen_nonneg (all_waiters (m_pendingEvents m1))) as Hnn. rewrite u64_small by lia.
    destruct (update_ok tickleFd m1 fd s (arm event (new_context sc f dg) s) k (m_pendingEventCount m1 + 1) [] HI1 Hfd Hs) as (HI2 & Hp2).
    { by apply arm_ok. }
    { intros _. rewrite Hk. rewrite <- (lor_wanted event (new_context sc f dg) fd s) by done. by destruct (m_events s =? 0). }
    { auto. }
    { lia. }
    eexists (Ok tt), _. split; [reflexivity |]. split; [exact HI2 |]. split; [cbn; by rewrite app_nil_r |]. left. split; [done |]. split.
    + exists (arm event (new_context sc f dg) s). cbn. destruct (io_slot _ m1 fd s HI1 Hfd Hs) as (_ & Hlk).
      rewrite slot_insert, Z.eqb_refl by (lia || by eapply lookup_lt_Some). split; [done |]. unfold arm, ctx. by destruct He as [-> | [-> | ->]].
    + rewrite Hw in Hp2. cbn in Hp2. rewrite <- Hp1. apply (Permutation_app_inv_l (waiters s)). rewrite <- Hp2. solve_Permutation.
  - rewrite (bind_err _ _ _ _ _ Ec). eexists _, _. split; [reflexivity |]. split; [| split; [done | right; split; [by exists e | by unfold pending in *; cbn; rewrite Hp1]]].
    apply set_epfd_ok; [done |]. intros fd' Hu'. destruct (decide (fd' = fd)) as [-> | Hne]; auto.
Qed.

(** ** Taking an event back *)

Lemma clear_event_events event s : m_events (clear_event event s) = Z.land (m_events s) (Z.lnot event).
Proof. unfold clear_event, set_context. by repeat case_match. Qed.

Lemma slot_known fd (m : IOManager K) : 0 < fd -> known fd m = slot fd (m_pendingEvents m).
Proof.
  intros Hfd. unfold known, slot. destruct (Z.ltb_spec (zlen (m_pendingEvents m)) fd) as [Hlt | Hge].
  - rewrite lookup_ge_None_2 by (unfold zlen in *; lia). done.
  - by destruct (m_pendingEvents m !! Z.to_nat (fd - 1)) as [[s |] |].
Qed.

Lemma armed_events event fd s : valid_event event -> state_ok fd s -> armed (ctx event s) = true -> m_events s <> 0.
Proof. intros He Hs Ha E. pose proof (has_event event fd s He Hs) as H. rewrite E, Ha in H. unfold has_bits in H. by rewrite Z.land_0_l in H. Qed.

Lemma wanted_armed event fd s : valid_event event -> state_ok fd s -> armed (ctx event s) = true -> wanted (Some s) <> None.
Proof. intros He Hs Ha. unfold wanted. cbn. by rewrite (proj2 (Z.eqb_neq _ _) (armed_events event fd s He Hs Ha)). Qed.

(** What [epoll] is told when some events go. *)
Definition less (ev : Z) : epoll_op := if ev =? 0 then EPOLL_CTL_DEL else EPOLL_CTL_MOD.

Lemma less_wanted ev s' : m_events s' = ev -> match less ev with EPOLL_CTL_DEL => None | _ => Some (Z.lor EPOLLET ev) end = wanted (Some s').
Proof. intros <-. unfold less, wanted. cbn. by destruct (m_events s' =? 0). Qed.

Lemma withdraw_ok fd event m : io_ok m -> user_fd fd -> valid_event event ->
  exists r k, withdraw fd event m = (r, set_epfd k m) /\
    ((r = Ok None /\ k = m_epfd m /\ ~ registered fd event m) \/
     (exists s, r = Ok (Some s) /\ slot fd (m_pendingEvents m) = Some s /\ armed (ctx event s) = true /\
       interest k fd = wanted (Some (clear_event event s)) /\ (forall fd', fd' <> fd -> interest k fd' = interest (m_epfd m) fd')) \/
     (failed r /\ io_ok (set_epfd k m))).
Proof.
  intros HI Hu He. pose proof (proj2 (is_event_valid event) He) as Hev. assert (Hfd : 0 < fd) by (unfold user_fd in Hu; lia).
  assert (Hid : set_epfd (m_epfd m) m = m) by (by destruct m).
  unfold withdraw. rewrite !bind_check by (done || by apply Z.ltb_lt). rewrite bind_gets, slot_known by done.
  destruct (slot fd (m_pendingEvents m)) as [s |] eqn:Hs.
  2: { exists (Ok None), (m_epfd m). rewrite Hid. split; [done |]. left. split_and!; auto. intros (s & H & _). congruence. }
  destruct (io_slot _ m fd s HI Hfd Hs) as (Hsok & _). pose proof (so_fd _ _ Hsok) as Hm_fd.
  rewrite (bind_check (fd =? m_fd s)) by (by apply Z.eqb_eq). rewrite (has_event event fd) by done.
  destruct (armed (ctx event s)) eqn:Ha; cbn [negb].
  2: { exists (Ok None), (m_epfd m). rewrite Hid. split; [done |]. left. split_and!; auto. intros (s' & H & Ha'). congruence. }
  rewrite (bind_check (fd =? m_fd s)) by (by apply Z.eqb_eq).
  change (if Z.land (m_events s) (Z.lnot event) =? 0 then EPOLL_CTL_DEL else EPOLL_CTL_MOD) with (less (Z.land (m_events s) (Z.lnot event))).
  destruct (ctl_cases tickleFd (less (Z.land (m_events s) (Z.lnot event))) fd (Z.lor EPOLLET (Z.land (m_events s) (Z.lnot event))) m HI Hu)
    as (r & k & Ec & Hko & Hr).
  { rewrite Hs. split; [unfold less; by destruct (_ =? 0) | by intros H%(wanted_armed event fd s He Hsok Ha)]. }
  destruct Hr as [(-> & Hk) | (e & -> & He1 & He2 & Hk)].
  - rewrite (bind_ok _ _ _ _ _ Ec). exists (Ok (Some s)), k. split; [done |]. right. left. exists s. split_and!; auto.
    rewrite Hk. apply less_wanted, clear_event_events.
  - rewrite (bind_err _ _ _ _ _ Ec). exists (Err (Thrown (last_error e))), k. split; [done |]. right. right. split; [by exists e |].
    apply set_epfd_ok; [done |]. intros fd' Hu'. destruct (decide (fd' = fd)) as [-> | Hne]; auto.
Qed.

Lemma waiters_count fd s m : io_ok m -> 0 < fd -> slot fd (m_pendingEvents m) = Some s -> zlen (waiters s) <= m_pendingEventCount m < 2 ^ 64.
Proof.
  intros HI Hfd Hs. destruct (io_slot _ m fd s HI Hfd Hs) as (_ & Hl). rewrite (io_count _ _ HI). unfold pending.
  pose proof (all_waiters_length (m_pendingEvents m)). pose proof (io_size _ _ HI).
  destruct (all_waiters_insert (m_pendingEvents m) _ _ None Hl) as (R & H1 & _). apply Permutation_length in H1. rewrite length_app in H1.
  change (waiters_of (Some s)) with (waiters s) in H1. unfold zlen in *. lia.
Qed.

(** The event goes, from [epoll] and from its context. *)
Lemma clear_event_step_ok fd event s k log m : io_ok m -> user_fd fd -> valid_event event -> slot fd (m_pendingEvents m) = Some s -> armed (ctx event s) = true ->
  interest k fd = wanted (Some (clear_event event s)) -> (forall fd', fd' <> fd -> interest k fd' = interest (m_epfd m) fd') ->
  exists w, waiter (ctx event s) = Some w /\
    io_ok (set_state_of fd (clear_event event s) (u64 (m_pendingEventCount m - 1)) log (set_epfd k m)) /\
    pending m ≡ₚ w :: pending (set_state_of fd (clear_event event s) (u64 (m_pendingEventCount m - 1)) log (set_epfd k m)).
Proof.
  intros HI Hu He Hs Ha Hk Hk'. assert (Hfd : 0 < fd) by (unfold user_fd in Hu; lia).
  destruct (io_slot _ m fd s HI Hfd Hs) as (Hsok & Hl). destruct (ctx_ok_armed _ (ctx_ok_ctx event fd s Hsok) Ha) as (sc & t & _ & _ & Hw).
  exists (sc, t). split; [done |]. pose proof (clear_event_waiters event s _ He Hw) as Hp.
  assert (Hlen : zlen (waiters s) = 1 + zlen (waiters (clear_event event s))) by (apply Permutation_length in Hp; unfold zlen; rewrite Hp; cbn; lia).
  pose proof (waiters_count fd s m HI Hfd Hs) as Hle.
  pose proof (zlen_nonneg (waiters (clear_event event s))). rewrite u64_small by lia.
  destruct (update_ok tickleFd m fd s (clear_event event s) k (m_pendingEventCount m - 1) log HI Hfd Hs) as (HI2 & Hp2); [by apply clear_event_ok | auto | auto | lia |].
  split; [done |]. rewrite Hp in Hp2. apply (Permutation_app_inv_l (waiters (clear_event event s))). rewrite Hp2. solve_Permutation.
Qed.

Lemma unregisterEvent_ok fd event m : io_ok m -> user_fd fd -> valid_event event ->
  exists r m', unregisterEvent fd event m = (r, m') /\ io_ok m' /\
    ((r = Ok false /\ m' = m /\ ~ registered fd event m) \/
     (r = Ok true /\ exists c w, waiter c = Some w /\ pending m ≡ₚ w :: pending m' /\ m_log m' = m_log m ++ [(fst w, ResetContext c)]) \/
     (failed r /\ pending m' = pending m /\ m_log m' = m_log m)).
Proof.
  intros HI Hu He. unfold unregisterEvent. destruct (withdraw_ok fd event m HI Hu He) as (r & k & E & H).
  destruct H as [(-> & -> & Hn) | [(s & -> & Hs & Ha & Hk & Hk') | ((e & -> & He1 & He2) & HI')]].
  - rewrite (bind_ok _ _ _ _ _ E). eexists _, _. split; [reflexivity |]. assert (set_epfd (m_epfd m) m = m) as -> by (by destruct m). auto 10.
  - rewrite (bind_ok _ _ _ _ _ E). rewrite contextForEvent_ctx, bind_lift by done.
    change (ctx event (set_events (Z.land (m_events s) (Z.lnot event)) s)) with (ctx event s).
    destruct (io_slot _ m fd s HI (proj1 Hu) Hs) as (Hsok & _).
    destruct (ctx_ok_armed _ (ctx_ok_ctx event fd s Hsok) Ha) as (sc & t & Hsc & _ & Hw). unfold resetContext. rewrite Hsc, bind_lift, bind_gets.
    destruct (clear_event_step_ok fd event s k [(sc, ResetContext (ctx event s))] m HI Hu He Hs Ha Hk Hk') as (w & Hw' & HI2 & Hp).
    eexists _, _. split; [reflexivity |]. split; [exact HI2 |]. right. left. split; [done |]. exists (ctx event s), w. split_and!; auto.
    cbn. rewrite Hw in Hw'. by injection Hw' as <-.
  - rewrite (bind_err _ _ _ _ _ E). eexists _, _. split; [reflexivity |]. split; [done |]. right. right. split; [by exists e | done].
Qed.

Lemma trigger_ok fd event s (m : IOManager K) : 0 < fd -> valid_event event -> state_ok fd s -> slot fd (m_pendingEvents m) = Some s ->
  trigger fd event m = (Ok (armed (ctx event s)),
    set_state_of fd (clear_event event s) (if armed (ctx event s) then u64 (m_pendingEventCount m - 1) else m_pendingEventCount m)
      (option_list (waiter (ctx event s))) m).
Proof.
  intros Hfd He Hsok Hs. unfold trigger. rewrite (bind_state_at fd s), bind_gets, (triggerEvent_ok event fd) by done. done.
Qed.

Lemma cancelEvent_ok fd event m : io_ok m -> user_fd fd -> valid_event event ->
  exists r m', cancelEvent fd event m = (r, m') /\ io_ok m' /\
    ((r = Ok false /\ m' = m /\ ~ registered fd event m) \/
     (r = Ok true /\ exists w, pending m ≡ₚ w :: pending m' /\ m_log m' = m_log m ++ [w]) \/
     (failed r /\ pending m' = pending m /\ m_log m' = m_log m)).
Proof.
  intros HI Hu He. unfold cancelEvent. destruct (withdraw_ok fd event m HI Hu He) as (r & k & E & H).
  destruct H as [(-> & -> & Hn) | [(s & -> & Hs & Ha & Hk & Hk') | ((e & -> & He1 & He2) & HI')]].
  - rewrite (bind_ok _ _ _ _ _ E). eexists _, _. split; [reflexivity |]. assert (set_epfd (m_epfd m) m = m) as -> by (by destruct m). auto 10.
  - rewrite (bind_ok _ _ _ _ _ E). destruct (io_slot _ m fd s HI (proj1 Hu) Hs) as (Hsok & _).
    destruct (clear_event_step_ok fd event s k (option_list (waiter (ctx event s))) m HI Hu He Hs Ha Hk Hk') as (w & Hw & HI2 & Hp).
    rewrite (bind_ok _ _ _ _ _ (trigger_ok fd event s (set_epfd k m) (proj1 Hu) He Hsok Hs)), Ha.
    eexists _, _. split; [reflexivity |]. split; [exact HI2 |]. right. left. split; [done |]. exists w. split; [exact Hp |]. cbn. by rewrite Hw.
  - rewrite (bind_err _ _ _ _ _ E). eexists _, _. split; [reflexivity |]. split; [done |]. right. right. split; [by exists e | done].
Qed.
End Steps.

(** The loop of the idle fiber over the events that [epoll_wait] reports. *)

(** ** The events of a report *)

Lemma incoming_mask ev : exists i o c, incoming ev = mask i o c.
Proof.
  unfold incoming. set (ev' := if has_bits ev _ then _ else _). clearbody ev'.
  exists (has_bits ev' EPOLLIN), (has_bits ev' EPOLLOUT), (has_bits ev' EPOLLRDHUP).
  destruct (has_bits ev' EPOLLIN), (has_bits ev' EPOLLOUT), (has_bits ev' EPOLLRDHUP); reflexivity.
Qed.

Lemma mask_bits i o c :
  has_bits (mask i o c) Event.READ = i /\ has_bits (mask i o c) Event.WRITE = o /\ has_bits (mask i o c) Event.CLOSE = c.
Proof. by destruct i, o, c. Qed.

Lemma valid_READ : valid_event Event.READ.
Proof. by left. Qed.
Lemma valid_WRITE : valid_event Event.WRITE.
Proof. right. by left. Qed.
Lemma valid_CLOSE : valid_event Event.CLOSE.
Proof. right. by right. Qed.

(** An error or a hangup wakes those who wait to read and those who wait to write. *)
Lemma incoming_error ev : has_bits ev (Z.lor EPOLLERR EPOLLHUP) = true ->
  has_bits (incoming ev) Event.READ = true /\ has_bits (incoming ev) Event.WRITE = true.
Proof.
  intros H. unfold incoming. rewrite H. set (ev' := Z.lor ev _).
  assert (has_bits ev' EPOLLIN = true /\ has_bits ev' EPOLLOUT = true) as (-> & ->).
  { unfold has_bits, ev'. split; apply negb_true_iff, Z.eqb_neq; intros E.
    - apply (f_equal (fun z => Z.testbit z 0)) in E. rewrite Z.land_spec, Z.lor_spec in E. cbn in E. by rewrite orb_true_r in E.
    - apply (f_equal (fun z => Z.testbit z 2)) in E. rewrite Z.land_spec, Z.lor_spec in E. cbn in E. by rewrite orb_true_r in E. }
  by destruct (has_bits ev' EPOLLRDHUP).
Qed.

(** The contexts of the events in [inc] are emptied. *)
Definition clear_if (inc event : Z) (s : AsyncState) : AsyncState := if has_bits inc event then clear_event event s else s.
Definition fired_if (inc event : Z) (s : AsyncState) : list (nat * task) := if has_bits inc event then option_list (waiter (ctx event s)) else [].

Definition clear_mask (inc : Z) (s : AsyncState) : AsyncState :=
  clear_if inc Event.CLOSE (clear_if inc Event.WRITE (clear_if inc Event.READ s)).
Definition fired (inc : Z) (s : AsyncState) : list (nat * task) :=
  fired_if inc Event.READ s ++ fired_if inc Event.WRITE s ++ fired_if inc Event.CLOSE s.

Lemma clear_if_ok inc event fd s : valid_event event -> state_ok fd s -> state_ok fd (clear_if inc event s).
Proof. intros He Hs. unfold clear_if. destruct (has_bits inc event); [by apply clear_event_ok | done]. Qed.

Lemma clear_if_waiters inc event s : valid_event event -> (waiter (ctx event s) = None -> waiters (clear_event event s) = waiters s) ->
  waiters s ≡ₚ fired_if inc event s ++ waiters (clear_if inc event s).
Proof.
  intros He Hid. unfold fired_if, clear_if. destruct (has_bits inc event); [| done].
  destruct (waiter (ctx event s)) as [w |] eqn:Ew; [by apply clear_event_waiters | by rewrite (Hid eq_refl)].
Qed.

Lemma waiter_none fd event s : valid_event event -> state_ok fd s -> waiter (ctx event s) = None -> waiters (clear_event event s) = waiters s.
Proof.
  intros He Hs Hn. rewrite (clear_event_idle event fd s) by (auto; unfold armed; unfold waiter in Hn; by destruct (ec_scheduler (ctx event s))). done.
Qed.

(** What fires for an event does not depend on the other contexts. *)
Lemma fired_WRITE inc s : fired_if inc Event.WRITE (clear_if inc Event.READ s) = fired_if inc Event.WRITE s.
Proof. unfold fired_if, clear_if. by destruct (has_bits inc Event.READ). Qed.
Lemma fired_CLOSE inc s : fired_if inc Event.CLOSE (clear_if inc Event.WRITE (clear_if inc Event.READ s)) = fired_if inc Event.CLOSE s.
Proof. unfold fired_if, clear_if. by destruct (has_bits inc Event.READ), (has_bits inc Event.WRITE). Qed.

Lemma clear_mask_ok inc fd s : state_ok fd s -> state_ok fd (clear_mask inc s) /\ waiters s ≡ₚ fired inc s ++ waiters (clear_mask inc s).
Proof.
  intros Hs. unfold clear_mask, fired. pose proof valid_READ as He1. pose proof valid_WRITE as He2. pose proof valid_CLOSE as He3.
  pose proof (clear_if_ok inc _ fd s He1 Hs) as H1. pose proof (clear_if_ok inc _ fd _ He2 H1) as H2. pose proof (clear_if_ok inc _ fd _ He3 H2) as H3.
  split; [done |]. rewrite (clear_if_waiters inc Event.READ s He1) by (by apply (waiter_none fd)).
  rewrite (clear_if_waiters inc Event.WRITE (clear_if inc Event.READ s) He2) by (by apply (waiter_none fd)).
  rewrite (clear_if_waiters inc Event.CLOSE (clear_if inc Event.WRITE (clear_if inc Event.READ s)) He3) by (by apply (waiter_none fd)).
  rewrite fired_WRITE, fired_CLOSE. solve_Permutation.
Qed.

(** Whether anybody waits for one of the events. *)
Definition any_fires (inc : Z) (s : AsyncState) : bool :=
  (has_bits inc Event.READ && armed (m_in s)) || (has_bits inc Event.WRITE && armed (m_out s)) || (has_bits inc Event.CLOSE && armed (m_close s)).

Lemma clear_mask_events i o c fd s : state_ok fd s ->
  m_events (clear_mask (mask i o c) s) = Z.land (m_events s) (Z.lnot (mask i o c)) /\
  (Z.land (m_events s) (mask i o c) =? Event.NONE) = negb (any_fires (mask i o c) s).
Proof.
  intros Hs. destruct Hs as [_ _ _ _ Hev]. unfold clear_mask, clear_if, any_fires. destruct (mask_bits i o c) as (-> & -> & ->).
  pose proof clear_event_events as Hm.
  destruct i, o, c; rewrite ?Hm, Hev; generalize (armed (m_in s)) (armed (m_out s)) (armed (m_close s)); intros [] [] []; split; reflexivity.
Qed.

Lemma nothing_fires i o c fd s : state_ok fd s -> any_fires (mask i o c) s = false -> clear_mask (mask i o c) s = s /\ fired (mask i o c) s = [].
Proof.
  intros Hsok. unfold any_fires, clear_mask, clear_if, fired, fired_if. destruct (mask_bits i o c) as (-> & -> & ->).
  intros ((Hi & Ho)%orb_false_iff & Hcl)%orb_false_iff.
  assert (Hid : forall (b : bool) e, valid_event e -> b && armed (ctx e s) = false ->
    (if b then clear_event e s else s) = s /\ (if b then option_list (waiter (ctx e s)) else []) = []).
  { intros [] e Hv Hb; [cbn in Hb | done]. rewrite (clear_event_idle e fd s) by done. unfold waiter. unfold armed in Hb. by destruct (ec_scheduler (ctx e s)). }
  destruct (Hid i Event.READ valid_READ Hi) as (-> & ->). destruct (Hid o Event.WRITE valid_WRITE Ho) as (-> & ->).
  destruct (Hid c Event.CLOSE valid_CLOSE Hcl) as (-> & ->). done.
Qed.

Lemma fires_wanted i o c fd s : state_ok fd s -> any_fires (mask i o c) s = true -> wanted (Some s) <> None.
Proof.
  intros Hsok Hany. unfold wanted. cbn. destruct (Z.eqb_spec (m_events s) 0) as [E | _]; [| done]. apply (events_zero fd s Hsok) in E.
  exfalso. unfold waiters, waiter in E. cbn in E. unfold any_fires, armed in Hany.
  destruct (ec_scheduler (m_in s)), (ec_scheduler (m_out s)), (ec_scheduler (m_close s)); try discriminate E. by rewrite !andb_false_r in Hany.
Qed.

Section Idle.
Context {K : Type} `{!Epoll K} (tickleFd : Z).
Local Notation io_ok := (io_ok (K := K) tickleFd).
Local Notation user_fd := (user_fd tickleFd).

Lemma set_state_of_twice fd s1 n1 l1 s2 n2 l2 (m : IOManager K) :
  set_state_of fd s2 n2 l2 (set_state_of fd s1 n1 l1 m) = set_state_of fd s2 n2 (l1 ++ l2) m.
Proof. unfold set_state_of. cbn. by rewrite list_insert_insert_eq, app_assoc. Qed.

Lemma set_state_of_same fd s (m : IOManager K) : slot fd (m_pendingEvents m) = Some s -> set_state_of fd s (m_pendingEventCount m) [] m = m.
Proof.
  intros H. unfold set_state_of. rewrite app_nil_r, list_insert_id; [by destruct m |].
  unfold slot in H. destruct (m_pendingEvents m !! _) as [[x |] |] eqn:E; cbn in H; try done. by injection H as ->.
Qed.

Lemma trigger_if_ok inc fd event triggered s (m : IOManager K) : 0 < fd -> valid_event event -> state_ok fd s -> slot fd (m_pendingEvents m) = Some s ->
  zlen (fired_if inc event s) <= m_pendingEventCount m < 2 ^ 64 ->
  trigger_if inc fd event triggered m = (Ok ((has_bits inc event && armed (ctx event s)) || triggered),
    set_state_of fd (clear_if inc event s) (m_pendingEventCount m - zlen (fired_if inc event s)) (fired_if inc event s) m).
Proof.
  intros Hfd He Hsok Hs Hn. unfold trigger_if, clear_if, fired_if in *. destruct (has_bits inc event); cbn [andb orb].
  - rewrite (bind_ok _ _ _ _ _ (trigger_ok fd event s m Hfd He Hsok Hs)). unfold mret, op_ret. do 2 f_equal.
    destruct (armed (ctx event s)) eqn:Ha.
    + destruct (ctx_ok_armed _ (ctx_ok_ctx event fd s Hsok) Ha) as (sc & t & _ & _ & Hw). rewrite Hw in *. cbn in *. change (zlen [(sc, t)]) with 1 in *. by rewrite u64_small by lia.
    + rewrite (ctx_ok_idle _ (ctx_ok_ctx event fd s Hsok) Ha) in *. cbn in *. change (zlen []) with 0. by rewrite Z.sub_0_r.
  - rewrite zlen_nil, Z.sub_0_r, set_state_of_same by done. done.
Qed.

(** The three events in turn. *)
Definition trigger_all (inc fd : Z) : op (IOManager K) bool :=
  triggered ← trigger_if inc fd Event.READ false;
  triggered ← trigger_if inc fd Event.WRITE triggered;
  trigger_if inc fd Event.CLOSE triggered.

Lemma trigger_all_ok inc fd s (m : IOManager K) : 0 < fd -> state_ok fd s -> slot fd (m_pendingEvents m) = Some s ->
  zlen (waiters s) <= m_pendingEventCount m < 2 ^ 64 ->
  trigger_all inc fd m = (Ok (any_fires inc s), set_state_of fd (clear_mask inc s) (m_pendingEventCount m - zlen (fired inc s)) (fired inc s) m).
Proof.
  intros Hfd Hsok Hs Hle. destruct (clear_mask_ok inc fd s Hsok) as (_ & Hc2). apply Permutation_length in Hc2.
  unfold fired in Hc2. rewrite !length_app in Hc2.
  assert (Hlen : (Z.to_nat (fd - 1) < length (m_pendingEvents m))%nat).
  { unfold slot in Hs. destruct (m_pendingEvents m !! _) eqn:E; [by eapply lookup_lt_Some | done]. }
  pose proof (clear_if_ok inc _ fd s valid_READ Hsok) as H1. pose proof (clear_if_ok inc _ fd _ valid_WRITE H1) as H2. unfold trigger_all.
  rewrite (bind_ok _ _ _ _ _ (trigger_if_ok inc fd Event.READ false s m Hfd valid_READ Hsok Hs ltac:(unfold zlen in *; lia))).
  set (m2 := set_state_of fd (clear_if inc Event.READ s) _ _ m).
  assert (Hs2 : slot fd (m_pendingEvents m2) = Some (clear_if inc Event.READ s)) by (cbn; by rewrite slot_insert, Z.eqb_refl).
  rewrite (bind_ok _ _ _ _ _ (trigger_if_ok inc fd Event.WRITE _ _ m2 Hfd valid_WRITE H1 Hs2 ltac:(rewrite fired_WRITE; cbn; unfold zlen in *; lia))).
  set (m3 := set_state_of fd (clear_if inc Event.WRITE _) _ _ m2).
  assert (Hs3 : slot fd (m_pendingEvents m3) = Some (clear_if inc Event.WRITE (clear_if inc Event.READ s)))
    by (cbn; by rewrite slot_insert, Z.eqb_refl by (rewrite ?length_insert; lia)).
  rewrite (trigger_if_ok inc fd Event.CLOSE _ _ m3 Hfd valid_CLOSE H2 Hs3) by (rewrite fired_CLOSE; cbn; rewrite fired_WRITE; unfold zlen in *; lia).
  assert (ctx Event.WRITE (clear_if inc Event.READ s) = m_out s) as -> by (unfold clear_if; by destruct (has_bits inc Event.READ)).
  assert (ctx Event.CLOSE (clear_if inc Event.WRITE (clear_if inc Event.READ s)) = m_close s) as ->
    by (unfold clear_if; by destruct (has_bits inc Event.READ), (has_bits inc Event.WRITE)).
  f_equal.
  - unfold any_fires. change (ctx Event.READ s) with (m_in s). rewrite orb_false_r. f_equal. rewrite (orb_comm (has_bits inc Event.CLOSE && _)). f_equal. apply orb_comm.
  - unfold m3, m2. rewrite !set_state_of_twice, fired_WRITE, fired_CLOSE. cbn [m_pendingEventCount set_state_of].
    unfold fired, clear_mask. rewrite !zlen_app. f_equal. lia.
Qed.

Lemma bind_bind {A B C} (x : op (IOManager K) A) (f : A -> op (IOManager K) B) (g : B -> op (IOManager K) C) m :
  ((x ≫= f) ≫= g) m = (x ≫= fun a => f a ≫= g) m.
Proof. unfold mbind, op_bind. by destruct (x m) as [[a |] m']. Qed.

Lemma bind_ext {A B} (x : op (IOManager K) A) (f g : A -> op (IOManager K) B) m :
  (forall a m', f a m' = g a m') -> (x ≫= f) m = (x ≫= g) m.
Proof. intros H. unfold mbind, op_bind. by destruct (x m) as [[a |] m']. Qed.

(** [epoll_ctl] with its failure kept. *)
Lemma catch_ctl o fd ev m r k : ctl o fd ev m = (r, set_epfd k m) ->
  catch (ctl o fd ev ≫= fun _ => mret None) (fun e => mret (Some e)) m =
    match r with Ok _ => (Ok None, set_epfd k m) | Err (Thrown e) => (Ok (Some e), set_epfd k m) | Err f => (Err f, set_epfd k m) end.
Proof.
  intros E. unfold catch. destruct r as [[] | f]; [by rewrite (bind_ok _ _ _ _ _ E) |]. rewrite (bind_err _ _ _ _ _ E). by destruct f.
Qed.

Lemma idle_event_unfold fd ev s exception m : slot fd (m_pendingEvents m) = Some s -> m_fd s = fd ->
  (Z.land (m_events s) (incoming ev) =? Event.NONE) = false ->
  idle_event (Descriptor fd ev) exception m =
    (rc ← catch (ctl (less (Z.land (m_events s) (Z.lnot (incoming ev)))) fd (Z.lor EPOLLET (Z.land (m_events s) (Z.lnot (incoming ev)))) ≫= fun _ => mret None)
       (fun e => mret (Some e));
     match rc with Some e => mret (Some e) | None => triggered ← trigger_all (incoming ev) fd; check triggered ≫= fun _ => mret exception end) m.
Proof.
  intros Hs Hfd Hz. unfold idle_event. rewrite (bind_state_at fd s) by done. rewrite Hz, Hfd. apply bind_ext. intros [e |] m1; [done |].
  unfold trigger_all. rewrite bind_bind. apply bind_ext. intros b m2. by rewrite bind_bind.
Qed.

(** One reported descriptor: the contexts that wait for what it reports are emptied, or [epoll_ctl] fails and nothing changes. *)
Lemma idle_event_ok fd ev s exception m : io_ok m -> user_fd fd -> slot fd (m_pendingEvents m) = Some s ->
  exists x m', idle_event (Descriptor fd ev) exception m = (Ok x, m') /\ io_ok m' /\
    ((x = exception /\ exists k, m' = set_state_of fd (clear_mask (incoming ev) s) (m_pendingEventCount m - zlen (fired (incoming ev) s)) (fired (incoming ev) s) (set_epfd k m)) \/
     (exists e k o ev', x = Some (last_error e) /\ m' = set_epfd k m /\ o <> EPOLL_CTL_ADD /\ interest (m_epfd m) fd <> None /\ fst (epoll_ctl o fd ev' (m_epfd m)) = Some e /\ e <> EEXIST /\ e <> ENOENT)) /\
    pending m ≡ₚ drop (length (m_log m)) (m_log m') ++ pending m'.
Proof.
  intros HI Hu Hs. assert (Hfd : 0 < fd) by apply Hu. destruct (io_slot _ m fd s HI Hfd Hs) as (Hsok & Hl).
  destruct (incoming_mask ev) as (i & o & c & Hmask). destruct (clear_mask_ok (incoming ev) fd s Hsok) as (Hc1 & Hc2).
  destruct (clear_mask_events i o c fd s Hsok) as (Hce & Hz). destruct (any_fires (mask i o c) s) eqn:Hany.
  2: { destruct (nothing_fires i o c fd s Hsok Hany) as (Hid & Hf). rewrite Hmask, Hid, Hf. exists exception, m.
    unfold idle_event. rewrite (bind_state_at fd s) by done. rewrite Hmask, Hz. split; [done |]. split; [done |]. split; [| by rewrite drop_all].
    left. split; [done |]. exists (m_epfd m). assert (set_epfd (m_epfd m) m = m) as -> by (by destruct m).
    by rewrite zlen_nil, Z.sub_0_r, set_state_of_same. }
  pose proof (fires_wanted i o c fd s Hsok Hany) as Hne. rewrite <- Hmask in *.
  rewrite (idle_event_unfold fd ev s exception m Hs (so_fd _ _ Hsok) Hz), <- Hce.
  destruct (ctl_cases tickleFd (less (m_events (clear_mask (incoming ev) s))) fd (Z.lor EPOLLET (m_events (clear_mask (incoming ev) s))) m HI Hu)
    as (r & k & Ec & Hko & Hr); [rewrite Hs; split; [unfold less; by destruct (_ =? 0) | done] |].
  pose proof (catch_ctl _ _ _ _ _ _ Ec) as Hcatch. pose proof (waiters_count tickleFd fd s m HI Hfd Hs) as Hle.
  destruct Hr as [(-> & Hk) | (e & -> & He1 & He2 & Hk)]; rewrite (bind_ok _ _ _ _ _ Hcatch).
  - rewrite (bind_ok _ _ _ _ _ (trigger_all_ok (incoming ev) fd s (set_epfd k m) Hfd Hsok Hs Hle)). rewrite bind_check by done.
    destruct (update_ok tickleFd m fd s (clear_mask (incoming ev) s) k (m_pendingEventCount m - zlen (fired (incoming ev) s)) (fired (incoming ev) s) HI Hfd Hs) as (HI2 & Hp2); [done | | auto | |].
    { intros _. rewrite Hk. by apply less_wanted. }
    { apply Permutation_length in Hc2. rewrite length_app in Hc2. unfold zlen. lia. }
    eexists exception, _. split; [reflexivity |]. split; [exact HI2 |]. split; [left; split; [done |]; by exists k |].
    cbn [m_log set_state_of set_epfd]. rewrite drop_app_length. rewrite Hc2 in Hp2.
    apply (Permutation_app_inv_l (waiters (clear_mask (incoming ev) s))). etrans; [exact Hp2 |]. solve_Permutation.
  - eexists _, _. split; [reflexivity |]. split; [| split; [| cbn; by rewrite drop_all]].
    + apply set_epfd_ok; [done |]. intros fd' Hu'. destruct (decide (fd' = fd)) as [-> | Hne']; auto.
    + right. exists e, k, (less (m_events (clear_mask (incoming ev) s))), (Z.lor EPOLLET (m_events (clear_mask (incoming ev) s))). split; [done |]. split; [done |].
      split; [unfold less; by destruct (_ =? 0) |]. split; [by rewrite (io_epoll _ _ HI fd Hu), Hs |]. split; [| done].
      unfold ctl in Ec. destruct (epoll_ctl _ _ _ (m_epfd m)) as [[e' |] k'] eqn:E; [| discriminate Ec]. injection Ec as Ee _.
      cbn. f_equal. lia.
Qed.

(** ** The whole loop *)

(** A source that [epoll_wait] can report: a descriptor that was registered once. *)
Definition reported (m : IOManager K) (e : source) : Prop :=
  match e with Tickle => True | Descriptor fd _ => user_fd fd /\ slot fd (m_pendingEvents m) <> None end.

(** The events of the descriptor [fd] in a list of sources. *)
Definition reports (fd : Z) (l : list source) : list Z :=
  omap (fun e => match e with Descriptor fd' ev => if fd' =? fd then Some (incoming ev) else None | Tickle => None end) l.

Definition after_reports (fd : Z) (l : list source) (s : AsyncState) : AsyncState := foldl (fun s inc => clear_mask inc s) s (reports fd l).

(** [epoll_ctl] does not fail for a descriptor that is registered. *)
Definition never_fails : Prop := forall o fd ev (k : K), o <> EPOLL_CTL_ADD -> interest k fd <> None -> fst (epoll_ctl o fd ev k) = None.

Definition bad_errno (x : option exn) : Prop := exists e, x = Some (last_error e) /\ e <> EEXIST /\ e <> ENOENT.

(** What a step of the loop leaves. *)
Record processed (l : list source) (m m' : IOManager K) : Prop := mkProcessed {
  pr_ok : io_ok m';
  pr_log : exists fires, m_log m' = m_log m ++ fires /\ pending m ≡ₚ fires ++ pending m';
  pr_reported : forall e, reported m e -> reported m' e;
  pr_slots : never_fails -> forall fd s, 0 < fd -> slot fd (m_pendingEvents m) = Some s -> slot fd (m_pendingEvents m') = Some (after_reports fd l s);
}.

Lemma idle_event_processed e exception m : io_ok m -> reported m e ->
  exists x m', idle_event e exception m = (Ok x, m') /\ processed [e] m m' /\ (x = exception \/ bad_errno x) /\ (never_fails -> x = exception).
Proof.
  intros HI He. destruct e as [| fd ev].
  - exists exception, (set_tickled 0 m). split; [done |]. split; [| auto]. split; try done; [| exists []; by rewrite app_nil_r].
    destruct HI. by split.
  - destruct He as (Hu & Hsome). destruct (slot fd (m_pendingEvents m)) as [s |] eqn:Hs; [| done].
    destruct (idle_event_ok fd ev s exception m HI Hu Hs) as (x & m' & E & HI' & Hcase & Hp). exists x, m'. split; [done |].
    destruct (io_slot _ m fd s HI (proj1 Hu) Hs) as (_ & Hl). apply lookup_lt_Some in Hl.
    destruct Hcase as [(-> & k & ->) | (e & k & o & ev' & -> & -> & Ho & Hi & Hfail & He1 & He2)].
    + split; [| auto]. cbn [m_log set_state_of set_epfd] in Hp. rewrite drop_app_length in Hp. split; [done | by eexists | |].
      * intros [| fd' ev']; [done |]. cbn. intros (Hu' & Hn). split; [done |]. rewrite slot_insert by (apply Hu || apply Hu' || done). by case_match.
      * intros _ fd' s' Hfd' Hs'. cbn. rewrite slot_insert by (apply Hu || done). unfold after_reports, reports. cbn. rewrite (Z.eqb_sym fd fd').
        destruct (Z.eqb_spec fd' fd) as [-> | _]; [| done]. cbn. congruence.
    + split; [| split; [right; by exists e | intros Hnf; by rewrite (Hnf o fd ev' (m_epfd m)) in Hfail]].
      split; [done | exists []; by rewrite app_nil_r | done |]. intros Hnf. by rewrite (Hnf o fd ev' (m_epfd m)) in Hfail.
Qed.

Lemma event_loop_processed l exception m : io_ok m -> Forall (reported m) l ->
  exists x m', event_loop l exception m = (Ok x, m') /\ processed l m m' /\ (x = exception \/ bad_errno x) /\ (never_fails -> x = exception).
Proof.
  revert exception m. induction l as [| e l IH]; intros exception m HI Hl.
  - exists exception, m. split; [done |]. split; [| auto]. split; auto. exists []. by rewrite app_nil_r.
  - apply Forall_cons in Hl as (He & Hl). destruct (idle_event_processed e exception m HI He) as (x1 & m1 & E1 & [HI1 (f1 & Hl1 & Hp1) Hr1 Hs1] & Hx1 & Hn1).
    destruct (IH x1 m1 HI1) as (x2 & m2 & E2 & [HI2 (f2 & Hl2 & Hp2) Hr2 Hs2] & Hx2 & Hn2); [by eapply Forall_impl |].
    exists x2, m2. cbn [event_loop]. rewrite (bind_ok _ _ _ _ _ E1). split; [done |]. split; [split |split].
    + done.
    + exists (f1 ++ f2). rewrite Hl2, Hl1, app_assoc. split; [done |]. by rewrite Hp1, Hp2, app_assoc.
    + auto.
    + intros Hnf fd s Hfd Hs. rewrite (Hs2 Hnf fd (after_reports fd [e] s) Hfd (Hs1 Hnf fd s Hfd Hs)). f_equal.
      unfold after_reports, reports. cbn. by destruct e as [| fd' ev]; [| destruct (fd' =? fd)].
    + destruct Hx2 as [-> | ?]; auto.
    + intros Hnf. rewrite Hn2 by done. auto.
Qed.

Lemma idle_events_processed l m : io_ok m -> Forall (reported m) l ->
  exists r m', idle_events l m = (r, m') /\ processed l m m' /\ (r = Ok tt \/ failed r) /\ (never_fails -> r = Ok tt).
Proof.
  intros HI Hl. destruct (event_loop_processed l None m HI Hl) as (x & m' & E & Hp & Hx & Hn). unfold idle_events. rewrite (bind_ok _ _ _ _ _ E).
  destruct x as [e |].
  - exists (throw e), m'. split; [done |]. split; [done |]. split; [| by intros Hnf%Hn]. right. destruct Hx as [? | (e' & [= ->] & ?)]; [done | by exists e'].
  - exists (Ok tt), m'. auto.
Qed.

(** The context of an event is emptied exactly if the event was reported. *)
Lemma ctx_clear_mask event inc s : valid_event event -> ctx event (clear_mask inc s) = if has_bits inc event then EventContext_new else ctx event s.
Proof.
  intros [-> | [-> | ->]]; unfold clear_mask, clear_if; by destruct (has_bits inc Event.READ), (has_bits inc Event.WRITE), (has_bits inc Event.CLOSE).
Qed.

Lemma ctx_after_reports event fd l s : valid_event event ->
  ctx event (after_reports fd l s) = if existsb (fun inc => has_bits inc event) (reports fd l) then EventContext_new else ctx event s.
Proof.
  intros He. unfold after_reports. revert s. induction (reports fd l) as [| inc r IH]; intros s; [done |]. cbn. rewrite IH, ctx_clear_mask by done.
  destruct (has_bits inc event); cbn; [by destruct (existsb _ r) | done].
Qed.
End Idle.
