(* ===== verification/IOManagerProps.v ===== *)
(** Threads that use an I/O manager in any order: nobody who waits is forgotten or woken twice, [epoll] looks for exactly what
    is waited for, and no assertion fails; how long the idle fiber sleeps; and a wakeup that is lost. *)

From stdpp Require Import functions numbers list_numbers list.
From S2P Require Import Prelude Stream Timer FiberCore Scheduler SchedulerProps Pool TimerInv IOManager IOManagerInv IOManagerSteps.

(** ** Everything that can be done to a manager *)

(** [w_registered] is everything that was ever registered. *)
Record world (K : Type) := mkWorld { w_io : IOManager K; w_registered : list (nat * task) }.
Arguments mkWorld {K} _ _.
Arguments w_io {K} _.
Arguments w_registered {K} _.

Section Worlds.
Context {K : Type} `{!Epoll K} (tickleFd : Z).
Local Notation user_fd := (user_fd tickleFd).

Inductive step (w : world K) : world K -> Prop :=
| step_register sc f fd event dg r m :
    user_fd fd -> valid_event event -> ~ registered fd event (w_io w) ->
    registerEvent (Some sc) f fd event dg (w_io w) = (r, m) ->
    step w (mkWorld m (w_registered w ++ if is_Ok r then [(sc, new_task f dg)] else []))
| step_unregister fd event r m :
    user_fd fd -> valid_event event -> unregisterEvent fd event (w_io w) = (r, m) -> step w (mkWorld m (w_registered w))
| step_cancel fd event r m :
    user_fd fd -> valid_event event -> cancelEvent fd event (w_io w) = (r, m) -> step w (mkWorld m (w_registered w))
| step_ready l r m :
    Forall (reported tickleFd (w_io w)) l -> idle_events l (w_io w) = (r, m) -> step w (mkWorld m (w_registered w)).

Inductive reachable : world K -> Prop :=
| reachable_new k : (forall fd, user_fd fd -> interest k fd = None) -> reachable (mkWorld (IOManager_new k) [])
| reachable_step w w' : reachable w -> step w w' -> reachable w'.

(** Who an entry of the log is about: the one that was scheduled, or the one that [unregisterEvent] dropped. *)
Definition about (e : nat * task) : option (nat * task) := match snd e with ResetContext c => waiter c | _ => Some e end.

(** Tasks that wait are functions and fibers. *)
Lemma waiter_task c w : ctx_ok c -> waiter c = Some w -> about w = Some w.
Proof. intros [-> | [(sc & d & ->) | (sc & f & ->)]]; cbn; by intros [= <-]. Qed.

Lemma pending_tasks m : io_ok tickleFd m -> Forall (fun w => about w = Some w) (pending m).
Proof.
  intros HI. apply Forall_forall. intros w. unfold pending, all_waiters. rewrite list_elem_of_bind.
  intros ([s |] & Hw & Hin); [| by apply elem_of_nil in Hw]. apply list_elem_of_lookup in Hin as (i & Hi).
  destruct (io_states _ _ HI i s Hi) as [_ H1 H2 H3 _]. unfold waiters_of, waiters in Hw.
  apply list_elem_of_omap in Hw as (c & Hc & Hw). rewrite !elem_of_cons, elem_of_nil in Hc. apply (waiter_task c); [| done].
  by destruct Hc as [-> | [-> | [-> | []]]].
Qed.

Lemma omap_about l : Forall (fun w => about w = Some w) l -> omap about l = l.
Proof. induction 1 as [| w l Hw _ IH]; [done |]. cbn. by rewrite Hw, IH. Qed.

Definition Inv (w : world K) : Prop :=
  io_ok tickleFd (w_io w) /\ w_registered w ≡ₚ pending (w_io w) ++ omap about (m_log (w_io w)).

Lemma io_step_inv w w' : Inv w -> step w w' -> Inv w'.
Proof.
  intros (HI & Hp) Hs. unfold Inv. destruct Hs as [sc f fd event dg r m Hu He Hn E | fd event r m Hu He E | fd event r m Hu He E | l r m Hl E]; cbn.
  - destruct (registerEvent_ok tickleFd sc f fd event dg _ HI Hu He Hn) as (r' & m' & E' & HI' & Hlog & Hc).
    rewrite E in E'. injection E' as <- <-. split; [done |]. rewrite Hlog.
    destruct Hc as [(-> & _ & Hc) | ((e & -> & _) & Hc)]; cbn; rewrite Hc, Hp; solve_Permutation.
  - destruct (unregisterEvent_ok tickleFd fd event _ HI Hu He) as (r' & m' & E' & HI' & Hc). rewrite E in E'. injection E' as <- <-. split; [done |].
    destruct Hc as [(_ & -> & _) | [(_ & c & w0 & Hw & Hc & ->) | (_ & -> & ->)]]; [done | | done].
    rewrite omap_app. cbn. rewrite Hw, Hp, Hc. cbn. solve_Permutation.
  - destruct (cancelEvent_ok tickleFd fd event _ HI Hu He) as (r' & m' & E' & HI' & Hc). rewrite E in E'. injection E' as <- <-. split; [done |].
    destruct Hc as [(_ & -> & _) | [(_ & w0 & Hc & ->) | (_ & -> & ->)]]; [done | | done].
    pose proof (pending_tasks _ HI) as Hf. rewrite Hc in Hf. apply Forall_cons in Hf as (Hf & _).
    rewrite omap_app. cbn. rewrite Hf, Hp, Hc. solve_Permutation.
  - destruct (idle_events_processed tickleFd l _ HI Hl) as (r' & m' & E' & [HI' (fires & Hlog & Hc) _ _] & _). rewrite E in E'. injection E' as <- <-. split; [done |]. rewrite Hlog.
    pose proof (pending_tasks _ HI) as Hf. rewrite Hc in Hf. apply Forall_app in Hf as (Hf & _).
    rewrite omap_app, (omap_about fires) by done. rewrite Hp, Hc. solve_Permutation.
Qed.

Lemma io_reachable_inv w : reachable w -> Inv w.
Proof.
  induction 1 as [k Hk | w w' _ IH Hs]; [| by eapply io_step_inv]. split; [| done]. split; cbn; try done; try lia.
Qed.

(** C5 -- Nobody who waits for a descriptor is forgotten or woken twice: at any time the functions and fibers that were ever
    registered are exactly those that still wait, those that were put on their scheduler and those that
    [unregisterEvent] took back, and the count of pending events is the number of those that still wait. *)
Theorem io_conserves w : reachable w ->
  w_registered w ≡ₚ pending (w_io w) ++ omap about (m_log (w_io w)) /\ m_pendingEventCount (w_io w) = zlen (pending (w_io w)).
Proof. intros (HI & Hp)%io_reachable_inv. split; [done | apply (io_count _ _ HI)]. Qed.

(** C6 -- [epoll] looks for an event of a descriptor exactly when something waits for it. *)
Theorem io_agrees_with_epoll w fd event : reachable w -> user_fd fd -> valid_event event ->
  registered fd event (w_io w) <-> exists ev, interest (m_epfd (w_io w)) fd = Some ev /\ has_bits ev event = true.
Proof.
  intros (HI & _)%io_reachable_inv Hu He. rewrite (io_epoll _ _ HI fd Hu).
  assert (Het : forall ev, has_bits (Z.lor EPOLLET ev) event = has_bits ev event).
  { intros ev. unfold has_bits. rewrite Z.land_lor_distr_l. by destruct He as [-> | [-> | ->]]; rewrite Z.lor_0_l. }
  split.
  - intros (s & Hs & Ha). destruct (io_slot _ _ fd s HI (proj1 Hu) Hs) as (Hsok & _). pose proof (armed_events event fd s He Hsok Ha) as Hne.
    exists (Z.lor EPOLLET (m_events s)). rewrite Hs, Het, (has_event event fd) by done. unfold wanted. cbn. by rewrite (proj2 (Z.eqb_neq _ _) Hne).
  - intros (ev & Hw & Hb). unfold wanted in Hw. destruct (slot fd (m_pendingEvents (w_io w))) as [s |] eqn:Hs; cbn in Hw; [| done].
    destruct (io_slot _ _ fd s HI (proj1 Hu) Hs) as (Hsok & _). exists s. split; [done |]. destruct (m_events s =? 0); [done |]. injection Hw as <-.
    by rewrite Het, (has_event event fd) in Hb.
Qed.

(** A call returns or throws what [epoll_ctl] failed with, and never because the manager added a descriptor twice or changed
    one that is not there. *)
Definition sound {A} (r : result A) : Prop := is_Ok r = true \/ failed r.

(** No call trips an assertion, uses a state that is not there or misuses [epoll_ctl]: whatever was done before, registering an
    event that is not registered, taking one back, cancelling one and handling any reports returns, or throws an error that the system had
    for reasons of its own. *)
Theorem io_calls_sound w : reachable w ->
  (forall sc f fd event dg, user_fd fd -> valid_event event -> ~ registered fd event (w_io w) -> sound (fst (registerEvent (Some sc) f fd event dg (w_io w)))) /\
  (forall fd event, user_fd fd -> valid_event event -> sound (fst (unregisterEvent fd event (w_io w))) /\ sound (fst (cancelEvent fd event (w_io w)))) /\
  (forall l, Forall (reported tickleFd (w_io w)) l -> sound (fst (idle_events l (w_io w)))).
Proof.
  intros (HI & _)%io_reachable_inv. split_and!.
  - intros sc f fd event dg Hu He Hn. destruct (registerEvent_ok tickleFd sc f fd event dg _ HI Hu He Hn) as (r & m & -> & _ & _ & [(-> & _) | (? & _)]); [by left | by right].
  - intros fd event Hu He. split.
    + destruct (unregisterEvent_ok tickleFd fd event _ HI Hu He) as (r & m & -> & _ & [(-> & _) | [(-> & _) | (? & _)]]); [by left | by left | by right].
    + destruct (cancelEvent_ok tickleFd fd event _ HI Hu He) as (r & m & -> & _ & [(-> & _) | [(-> & _) | (? & _)]]); [by left | by left | by right].
  - intros l Hl. destruct (idle_events_processed tickleFd l _ HI Hl) as (r & m & -> & _ & [-> | ?] & _); [by left | by right].
Qed.

(** When [epoll_ctl] works, the idle fiber wakes exactly the ones that wait for what was reported: after the loop over the reports the
    context of an event of a descriptor is empty if one of the reports had the event, and as before if none had; those that were taken out are
    on their schedulers, each once.  An error or a hangup counts as an event for those who read and those who write. *)
Lemma idle_events_spec l w : reachable w -> never_fails (K := K) -> Forall (reported tickleFd (w_io w)) l ->
  exists m fires, idle_events l (w_io w) = (Ok tt, m) /\ m_log m = m_log (w_io w) ++ fires /\ pending (w_io w) ≡ₚ fires ++ pending m /\
    (forall fd s event, 0 < fd -> slot fd (m_pendingEvents (w_io w)) = Some s -> valid_event event ->
      exists s', slot fd (m_pendingEvents m) = Some s' /\
        ctx event s' = if existsb (fun inc => has_bits inc event) (reports fd l) then EventContext_new else ctx event s) /\
    (forall fd ev event, Descriptor fd ev ∈ l -> has_bits ev (Z.lor EPOLLERR EPOLLHUP) = true -> event = Event.READ \/ event = Event.WRITE ->
      existsb (fun inc => has_bits inc event) (reports fd l) = true).
Proof.
  intros (HI & _)%io_reachable_inv Hnf Hl. destruct (idle_events_processed tickleFd l _ HI Hl) as (r & m & E & [HI' (fires & Hlog & Hp) _ Hs] & _ & Hr).
  rewrite (Hr Hnf) in E. exists m, fires. split_and!; auto.
  - intros fd s event Hfd Hs0 He. exists (after_reports fd l s). split; [by apply Hs |]. by apply ctx_after_reports.
  - intros fd ev event Hin Herr He. apply existsb_exists. exists (incoming ev). split.
    + apply list_elem_of_In. apply list_elem_of_omap. exists (Descriptor fd ev). by rewrite Z.eqb_refl.
    + destruct (incoming_error ev Herr). by destruct He as [-> | ->].
Qed.

Definition timer_item (number : callback -> Scheduler.dg) (d : callback) : FiberAndThread := mkFT None (Some (number d)) None.

(** A round of the idle fiber brings timers, descriptors and scheduler together: the functions of exactly the timers that are due are put at
    the end of the manager's queue in the order of their times; then, when [epoll_ctl] works, exactly the ones that wait for what
    [epoll_wait] reported are put on their schedulers, each once: the context of an event is empty afterwards if a report had the event and as
    before if none had, and an error or a hangup counts for those who read and those who write. *)
Theorem idle_round_spec threshold number q now l (w : world K) s t :
  reachable w -> never_fails (K := K) -> Forall (reported tickleFd (w_io w)) l -> tm_ok t -> q ∉ m_timers t ->
  exists m fires t', idle_round threshold number q now l (mkManager (w_io w) s t) =
      (Ok tt, mkManager m (set_fibers (m_fibers s ++ (timer_item number <$> omap (fun p => timers t !! p ≫= Timer.m_dg) (expiring threshold t now))) s) t') /\
    tm_ok t' /\ m_log m = m_log (w_io w) ++ fires /\ pending (w_io w) ≡ₚ fires ++ pending m /\
    (forall fd st event, 0 < fd -> slot fd (m_pendingEvents (w_io w)) = Some st -> valid_event event ->
      exists st', slot fd (m_pendingEvents m) = Some st' /\
        ctx event st' = if existsb (fun inc => has_bits inc event) (reports fd l) then EventContext_new else ctx event st) /\
    (forall fd ev event, Descriptor fd ev ∈ l -> has_bits ev (Z.lor EPOLLERR EPOLLHUP) = true -> event = Event.READ \/ event = Event.WRITE ->
      existsb (fun inc => has_bits inc event) (reports fd l) = true).
Proof.
  intros Hw Hnf Hl Ht Hq. destruct (idle_events_spec l w Hw Hnf Hl) as (m & fires & E & Hlog & Hp & Hs & Herr).
  destruct (process_ok threshold t q now Ht Hq) as (t' & Et & Ht' & _). exists m, fires, t'. split; [| auto].
  unfold idle_round, method, mbind, op_bind. cbn [mg_timers mg_io mg_scheduler]. rewrite Et.
  set (dgs := omap _ _). case_bool_decide as Hd.
  - rewrite Hd. unfold mret, op_ret, on_io, zoom. cbn [mg_io mg_scheduler mg_timers]. rewrite E. cbn. rewrite app_nil_r. by destruct s.
  - unfold modify, on_io, zoom. cbn [mg_io mg_scheduler mg_timers]. rewrite E. unfold schedule_range. rewrite schedule_loop_spec. done.
Qed.
End Worlds.

(** ** How long the idle fiber sleeps *)

(** The argument of [epoll_wait] for a timer that is due in [t] microseconds is less than a millisecond longer than that, as long as [t] is below
    2^31 milliseconds; with no timer it is -1, which means for ever.  A timer that is further away than 2^31 milliseconds, about 25 days, and
    less than twice that gives a negative number and so a sleep without end, and at 2^31 - 1 milliseconds the addition overflows. *)
Theorem epoll_timeout_bounds t :
  (0 <= t < (2 ^ 31 - 1) * 1000 -> exists ms, epoll_timeout t = Ok ms /\ t < ms * 1000 <= t + 1000 /\ 0 < ms < 2 ^ 31) /\
  epoll_timeout npos = Ok (-1) /\
  (2 ^ 31 * 1000 <= t < (2 ^ 32 - 1) * 1000 -> exists ms, epoll_timeout t = Ok ms /\ ms < 0) /\
  ((2 ^ 31 - 1) * 1000 <= t < 2 ^ 31 * 1000 -> epoll_timeout t = Err Undefined).
Proof.
  pose proof (Z.div_mod t 1000 ltac:(lia)) as Hd. pose proof (Z.mod_pos_bound t 1000 ltac:(lia)) as Hm. unfold epoll_timeout, npos, s32, signed.
  set (d := t / 1000) in *. split_and!; [| done | |]; intros H; rewrite (proj2 (Z.eqb_neq t _)) by lia; cbn [negb]; rewrite (Z.mod_small d) by lia.
  - rewrite (proj2 (Z.ltb_lt d _)) by lia. rewrite (proj2 (Z.eqb_neq d _)) by lia. exists (d + 1). split; [done | lia].
  - rewrite (proj2 (Z.ltb_ge d _)) by lia. rewrite (proj2 (Z.eqb_neq (d - _) _)) by lia. eexists. split; [done | lia].
  - rewrite (proj2 (Z.ltb_lt d _)) by lia. rewrite (proj2 (Z.eqb_eq d _)) by lia. done.
Qed.

Lemma epoll_timeout_witness : exists ms, epoll_timeout 1500 = Ok ms /\ 1500 < ms * 1000 <= 2500 /\ ms = 2.
Proof.
  destruct (proj1 (epoll_timeout_bounds 1500)) as (ms & E & H & _); [lia |]. exists ms. split; [exact E |]. split; [lia |]. vm_compute in E. congruence.
Defined.

(** ** A lost wakeup *)

(** The I/O manager can sleep while there is work: a thread finds the queue empty; before it counts itself idle another thread schedules a
    function, is told to tickle because the queue was empty, and writes nothing because no thread counts as idle; then the first thread goes
    idle, and with no timer and no event it calls [epoll_wait] without a timeout, with the function in the queue and nothing in the pipe. *)
Theorem io_lost_wakeup (K : Type) (k : K) : let ft := mkFT None (Some 1%nat) None in let m := IOManager_new k in
  exists s0 s1 it s2 wk s3 t,
    (s ← Scheduler_new 0%nat true 0%nat 1 false 1; start [7%nat] s) = Ok s0 /\
    choose (fun _ => false) 7%nat false s0 = Ok (s1, it) /\
    schedule ft false s1 = (true, s2) /\ IOManager_tickle s2 m = m /\
    decide_next (mkWorker Decide (it_batch it) (it_isActive it) (it_dontIdle it) INIT) s2 = Ok (wk, s3) /\ wk_pc wk = IdleCheck /\
    IOManager_stopping 0 TimerManager_new s3 m = Ok (npos, false, t) /\ epoll_timeout npos = Ok (-1) /\
    m_fibers s3 = [ft] /\ m_tickles m = 0.
Proof. eexists _, _, _, _, _, _, _. repeat (split; [reflexivity |]). reflexivity. Qed.

(** ** Examples *)

(** [epoll] as a table of what is registered. *)
Definition table : Type := Z -> option Z.

Definition table_ctl (o : epoll_op) (fd ev : Z) (k : table) : option Z * table :=
  match o, k fd with
  | EPOLL_CTL_ADD, Some _ => (Some EEXIST, k)
  | EPOLL_CTL_ADD, None => (None, <[fd := Some ev]> k)
  | EPOLL_CTL_MOD, Some _ => (None, <[fd := Some ev]> k)
  | EPOLL_CTL_DEL, Some _ => (None, <[fd := None]> k)
  | _, None => (Some ENOENT, k)
  end.

#[global] Instance table_epoll : Epoll table.
Proof.
  refine {| epoll_ctl := table_ctl; interest k fd := k fd |}; unfold table_ctl.
  - intros o fd ev k k'. destruct o, (k fd); intros [= <-]; (split; [| intros fd' Hne]); unfold insert, fn_insert; case_decide; congruence.
  - intros o fd ev k e k'. destruct o, (k fd); intros [= <- <-]; done.
  - intros o fd ev k k'. destruct o, (k fd) eqn:E; intros [= <-]; split; congruence.
  - intros o fd ev k k'. destruct o, (k fd) eqn:E; intros [= <-]; split; congruence.
Defined.

Lemma table_never_fails : never_fails (K := table).
Proof. intros o fd ev k Ho Hi. cbn in *. unfold table_ctl. by destruct o, (k fd). Qed.

(** The fiber 3 on the scheduler 1 waits to read from the descriptor 5; the pipe is the descriptor 4. *)
Definition waiting : world table :=
  mkWorld (snd (registerEvent (Some 1%nat) 3%nat 5 Event.READ None (IOManager_new (fun _ => None)))) [(1%nat, RunFiber (Some 3%nat))].

Lemma user_fd_5 : user_fd 4 5.
Proof. unfold user_fd. lia. Qed.

Lemma waiting_reachable : reachable 4 waiting.
Proof.
  eapply reachable_step; [apply (reachable_new 4 (fun _ => None)); done |].
  refine (step_register 4 (mkWorld (IOManager_new (fun _ => None)) []) 1%nat 3%nat 5 Event.READ None (Ok tt) (w_io waiting) user_fd_5 (or_introl eq_refl) _ eq_refl).
  intros (s & Hs & _). discriminate Hs.
Qed.

Lemma io_conserves_witness : w_registered waiting ≡ₚ [(1%nat, RunFiber (Some 3%nat))] ++ [] /\ m_pendingEventCount (w_io waiting) = 1.
Proof. exact (io_conserves 4 waiting waiting_reachable). Defined.

Lemma io_agrees_witness : registered 5 Event.READ (w_io waiting) /\
  (registered 5 Event.READ (w_io waiting) -> exists ev, interest (m_epfd (w_io waiting)) 5 = Some ev /\ has_bits ev Event.READ = true).
Proof.
  split; [eexists; split; reflexivity |]. apply (io_agrees_with_epoll 4 waiting 5 Event.READ waiting_reachable user_fd_5). by left.
Defined.

Lemma io_calls_sound_witness : sound (fst (cancelEvent 5 Event.READ (w_io waiting))) /\ fst (cancelEvent 5 Event.READ (w_io waiting)) = Ok true.
Proof.
  split; [| reflexivity]. destruct (io_calls_sound 4 waiting waiting_reachable) as (_ & H & _). apply (H 5 Event.READ user_fd_5). by left.
Defined.

Lemma idle_round_witness : exists m fires t', idle_round 5000000 (fun _ => 9%nat) 77 105 [Tickle; Descriptor 5 EPOLLHUP]
    (mkManager (w_io waiting) (mkScheduler [] None None None [] 1 0 0 false false 1) TimerManager_new) =
      (Ok tt, mkManager m (mkScheduler [] None None None [] 1 0 0 false false 1) t') /\
    m_log m = [] ++ fires /\ [(1%nat, RunFiber (Some 3%nat))] ≡ₚ fires ++ pending m.
Proof.
  destruct (idle_round_spec 4 5000000 (fun _ => 9%nat) 77 105 [Tickle; Descriptor 5 EPOLLHUP] waiting (mkScheduler [] None None None [] 1 0 0 false false 1) TimerManager_new
    waiting_reachable table_never_fails) as (m & fires & t' & E & _ & Hl & Hp & _).
  - apply Forall_cons; split; [done |]. apply Forall_cons; split; [| constructor]. split; [apply user_fd_5 | done].
  - split; cbn; try done; [constructor |]. intros p. split; [intros H; by apply elem_of_nil in H | intros (t & Ht & _); done].
  - intros H. by apply elem_of_nil in H.
  - exists m, fires, t'. split; [exact E |]. split; [exact Hl | exact Hp].
Defined.
