(* ===== verification/Notify.v ===== *)
(** [streams/notify.h]: a filter that calls functions when its parent is closed, flushed or at its end, or throws. *)

From stdpp Require Import numbers list_numbers list.
From S2P Require Import Prelude Stream StreamFilters.

(** What is notified, in the order of the calls. *)
Inductive notification := OnFlush | OnEof | OnException | OnClose (type : CloseType).

(** Which functions are set, and the calls made so far. *)
Record Notify := mkNotify { n_flush : bool; n_eof : bool; n_exception : bool; n_close : bool; n_log : list notification }.
Definition NotifyStream (P : Type) : Type := Filter P Notify.

Section NotifyStream.
Context {P : Type} `{!Stream P}.

Definition NotifyStream_new (p : P) (owns : bool) : NotifyStream P := mkFilter p owns (mkNotify false false false false []).

Definition notify (isset : Notify -> bool) (n : notification) : op (NotifyStream P) unit :=
  setp (fun d => if isset d then mkNotify (n_flush d) (n_eof d) (n_exception d) (n_close d) (n_log d ++ [n]) else d).

(** [try { m } catch (...) { if (notifyOnException) notifyOnException(); throw; }] *)
Definition guarded {A} (m : op (NotifyStream P) A) : op (NotifyStream P) A :=
  catch m (fun e => notify n_exception OnException ≫= fun _ => raise e).

Definition NotifyStream_close (type : CloseType) : op (NotifyStream P) unit :=
  guarded (FilterStream_close type) ≫= fun _ => notify n_close (OnClose type).

Definition NotifyStream_read (len : Z) : op (NotifyStream P) (list Z) :=
  bs ← guarded (on_parent (read len));
  (if zlen bs =? 0 then notify n_eof OnEof else mret tt) ≫= fun _ => mret bs.

Definition NotifyStream_write (bs : list Z) : op (NotifyStream P) Z := guarded (on_parent (write bs)).

Definition NotifyStream_flush (flushParent : bool) : op (NotifyStream P) unit :=
  guarded (on_parent (flush flushParent)) ≫= fun _ => notify n_flush OnFlush.

#[global] Instance NotifyStream_Stream : Stream (NotifyStream P) := {
  supportsHalfClose := fun s => supportsHalfClose (parent s);
  supportsRead := fun s => supportsRead (parent s);
  supportsWrite := fun s => supportsWrite (parent s);
  supportsSeek := fun s => supportsSeek (parent s);
  supportsTell := fun s => supportsTell (parent s);
  supportsSize := fun s => supportsSize (parent s);
  supportsTruncate := fun s => supportsTruncate (parent s);
  supportsFind := fun s => supportsFind (parent s);
  supportsUnread := fun s => supportsUnread (parent s);
  close := NotifyStream_close;
  read := NotifyStream_read;
  write := NotifyStream_write;
  seek := fun o a => on_parent (seek o a);
  size := on_parent size;
  truncate := fun n => on_parent (truncate n);
  flush := NotifyStream_flush;
  find := fun d n t => on_parent (find d n t);
  unread := fun bs => on_parent (unread bs);
}.

(** ** What comes through *)

Lemma guarded_ok {A} (m : op (NotifyStream P) A) s a s' : m s = (Ok a, s') -> guarded m s = (Ok a, s').
Proof. intros E. unfold guarded, catch. by rewrite E. Qed.

Lemma notify_read_ok len s bs p' : read len (parent s) = (Ok bs, p') ->
  exists d, NotifyStream_read len s = (Ok bs, mkFilter p' (ownsParent s) d) /\
    n_log d = n_log (own s) ++ (if (zlen bs =? 0) && n_eof (own s) then [OnEof] else []) /\ n_eof d = n_eof (own s).
Proof.
  intros E. unfold NotifyStream_read. rewrite (bind_ok _ _ _ _ _ (guarded_ok _ _ _ _ (on_parent_ok _ s _ _ E))).
  destruct (zlen bs =? 0); cbn; [destruct (n_eof (own s)) eqn:He |]; eexists; (split; [reflexivity |]); cbn; rewrite ?He, ?app_nil_r; done.
Qed.

Lemma notify_write_ok bs s n p' : write bs (parent s) = (Ok n, p') -> NotifyStream_write bs s = (Ok n, set_parent p' s).
Proof. intros E. unfold NotifyStream_write. apply guarded_ok. by apply on_parent_ok. Qed.

Lemma notify_close_ok type s p' : ownsParent s = true -> close type (parent s) = (Ok tt, p') ->
  exists d, NotifyStream_close type s = (Ok tt, mkFilter p' true d).
Proof.
  intros Ho E. unfold NotifyStream_close. assert (E' : FilterStream_close type s = (Ok tt, set_parent p' s)).
  { unfold FilterStream_close. rewrite Ho. by apply on_parent_ok. }
  rewrite (bind_ok _ _ _ _ _ (guarded_ok _ _ _ _ E')). unfold notify, setp, modify, set_own, set_parent. cbn. rewrite Ho. by eexists.
Qed.

(** Reading to the end through the filter: the same bytes, and the end is announced once. *)
Lemma notify_read_all fuel n s bs p' : read_all fuel n (parent s) = (Ok bs, p') ->
  exists d, read_all fuel n s = (Ok bs, mkFilter p' (ownsParent s) d) /\ n_log d = n_log (own s) ++ if n_eof (own s) then [OnEof] else [].
Proof.
  revert s bs p'. induction fuel as [| fuel IH]; intros s bs p' E; [done |]. cbn [read_all] in *. unfold mbind, op_bind in E.
  destruct (read n (parent s)) as [[b |] p1] eqn:E1; [| discriminate E]. destruct (notify_read_ok n s b p1 E1) as (d & E2 & Hl & He).
  change (read n) with (NotifyStream_read n). rewrite (bind_ok _ _ _ _ _ E2). destruct (zlen b =? 0) eqn:Eb.
  - injection E as <- <-. exists d. split; [done |]. rewrite Hl. cbn. done.
  - destruct (read_all fuel n p1) as [[rest |] p2] eqn:E3; [| discriminate E]. injection E as <- <-.
    destruct (IH (mkFilter p1 (ownsParent s) d) rest p2 E3) as (d' & E4 & Hl'). exists d'. rewrite (bind_ok _ _ _ _ _ E4). split; [done |].
    rewrite Hl'. cbn. rewrite Hl, He. cbn. by rewrite app_nil_r.
Qed.
End NotifyStream.
