(* ===== verification/Http.v ===== *)
(** [http/http.h] and [http/http.cpp]: the data of requests and responses, quoting, comparison of what a client accepts with what a server
    has, and how messages are printed.  Text is a list of bytes. *)

From Stdlib Require Import String Ascii.
From stdpp Require Import numbers list_numbers list.
From S2P Require Import Prelude Chunked.

(** ** Text *)

Notation text := (list Z) (only parsing).

Fixpoint str (s : string) : text :=
  match s with EmptyString => [] | String a s => Z.of_nat (nat_of_ascii a) :: str s end.

Definition CRLF : text := [CR; LF].

(** [operator<<] of an unsigned number: decimal, no leading zeros; a 64-bit number has at most 20 digits. *)
Fixpoint dec_digits (fuel : nat) (n : Z) (acc : text) : text :=
  match fuel with
  | O => acc
  | S fuel => let acc := 48 + n mod 10 :: acc in if n <? 10 then acc else dec_digits fuel (n / 10) acc
  end.
Definition to_dec (n : Z) : text := dec_digits 20 n [].

(** [stricmp(a.c_str(), b.c_str())]: ASCII letters compare without case, a zero byte ends the text. *)
Definition tolower (c : Z) : Z := if (65 <=? c) && (c <=? 90) then c + 32 else c.

Fixpoint stricmp (a b : text) : Z :=
  let ca := match a with c :: _ => tolower c | [] => 0 end in
  let cb := match b with c :: _ => tolower c | [] => 0 end in
  if negb (ca =? cb) then ca - cb
  else match a, b with
       | c :: a, _ :: b => if c =? 0 then 0 else stricmp a b
       | _, _ => 0
       end.

Definition same_text (a b : text) : bool := stricmp a b =? 0.
Definition caseinsensitiveless (a b : text) : bool := stricmp a b <? 0.

(** ** Quoting *)

Definition QUOTE : Z := 34.
Definition LPAREN : Z := 40.
Definition RPAREN : Z := 41.
Definition BACKSLASH : Z := 92.

Definition token_chars : text := str "!#$%&'*+-.0123456789ABCDEFGHIJKLMNOPQRSTUVWXYZ^_`abcdefghijklmnopqrstuvwxyz|~".

Definition control_chars : text := [0; 1; 2; 3; 4; 5; 6; 7; 8; 11; 12; 14; 15; 16; 17; 18; 19; 20; 21; 22; 23; 24; 25; 26; 27; 28; 29; 30; 31; 127].
Definition escapedQuote : text := control_chars ++ [BACKSLASH; QUOTE].
Definition escapedComment : text := control_chars ++ [BACKSLASH; LPAREN; RPAREN].

(** [str.find_first_of(escaped, ...)]: the text before the first of these characters, and the rest from it on. *)
Fixpoint find_escape (escaped s : text) : text * text :=
  match s with
  | [] => ([], [])
  | c :: s' => if bool_decide (c ∈ escaped) then ([], s) else let '(pre, post) := find_escape escaped s' in (c :: pre, post)
  end.

Definition count_char (c : Z) (s : text) : Z := zlen (filter (fun x => x = c) s).

(** The loop over the characters to escape; every round takes at least one. *)
Fixpoint quote_loop (fuel : nat) (escaped s : text) (leftParens rightParens : Z) (result : text) : Prelude.result text :=
  match find_escape escaped s with
  | (pre, []) => Ok (result ++ pre)
  | (pre, c :: rest) =>
      match fuel with
      | O => Err Diverges
      | S fuel =>
          if (c =? LPAREN) && (0 <? rightParens) then
            quote_loop fuel escaped rest (leftParens + 1) (rightParens - 1) (result ++ pre ++ [c])
          else if (c =? RPAREN) && (0 <? leftParens) then
            quote_loop fuel escaped rest (leftParens - 1) rightParens (result ++ pre ++ [c])
          else
            rightParens ← (if c =? RPAREN then assert: 0 <? rightParens ;; Ok (rightParens - 1) else Ok rightParens);
            quote_loop fuel escaped rest leftParens rightParens (result ++ pre ++ [BACKSLASH; c])
      end
  end.

Definition quote (s : text) (alwaysQuote comment : bool) : result text :=
  let alwaysQuote := comment || alwaysQuote in
  if bool_decide (s = []) then Ok (if comment then [LPAREN; RPAREN] else [QUOTE; QUOTE])
  else if negb alwaysQuote && forallb (fun c => bool_decide (c ∈ token_chars)) s then Ok s
  else
    let rightParens := if comment then count_char RPAREN s else 0 in
    body ← quote_loop (length s) (if comment then escapedComment else escapedQuote) s 0 rightParens [];
    Ok ([if comment then LPAREN else QUOTE] ++ body ++ [if comment then RPAREN else QUOTE]).

(** The loop of [unquote] over the characters between the quotes. *)
Fixpoint unquote_loop (escaping : bool) (s : text) : text :=
  match s with
  | [] => []
  | c :: s => if negb escaping && (c =? BACKSLASH) then unquote_loop true s else c :: unquote_loop false s
  end.

(** What [std::string(str + 1, size - 2)] throws when [size] is 1. *)
Definition length_error : exn := other_exn 6.

Definition unquote (s : text) : result text :=
  match s with
  | [] => Ok s
  | c :: s' =>
      if negb ((c =? QUOTE) || (c =? LPAREN)) then Ok s
      else
        let e := default c (last s) in
        assert: ((e =? QUOTE) && (c =? QUOTE)) || ((e =? RPAREN) && (c =? LPAREN)) ;;
        if zlen s <? 2 then throw length_error else Ok (unquote_loop false (take (length s - 2) s'))
  end.

(** ** Versions and entity tags *)

Record Version := mkVersion { major : Z; minor : Z }.

Definition Version_unknown : Version := mkVersion 255 255.

Definition Version_eq (a b : Version) : bool := (major a =? major b) && (minor a =? minor b).
Definition Version_lt (a b : Version) : bool := if major a <? major b then true else minor a <? minor b.
Definition Version_le (a b : Version) : bool := if major b <? major a then false else if major a <? major b then true else minor a <=? minor b.
Definition Version_gt (a b : Version) : bool := if major b <? major a then true else minor b <? minor a.
Definition Version_ge (a b : Version) : bool := if major a <? major b then false else if major b <? major a then true else minor b <=? minor a.

Record ETag := mkETag { et_weak : bool; et_unspecified : bool; et_value : text }.

#[global] Instance ETag_eq_dec : EqDecision ETag.
Proof. solve_decision. Defined.

(** [std::string::operator<] *)
Fixpoint text_lt (a b : text) : bool :=
  match a, b with
  | _, [] => false
  | [], _ :: _ => true
  | x :: a, y :: b => if x <? y then true else if y <? x then false else text_lt a b
  end.

Definition ETag_lt (a b : ETag) : bool :=
  if et_unspecified a && negb (et_unspecified b) then true
  else if negb (et_unspecified a) && et_unspecified b then false
  else if et_weak a && negb (et_weak b) then false
  else if negb (et_weak a) && et_weak b then true
  else text_lt (et_value a) (et_value b).

Definition weakCompare (a b : ETag) : bool := Bool.eqb (et_unspecified a) (et_unspecified b) && bool_decide (et_value a = et_value b).
Definition strongCompare (a b : ETag) : bool :=
  negb (et_weak a) && negb (et_weak b) && Bool.eqb (et_unspecified a) (et_unspecified b) && bool_decide (et_value a = et_value b).
Definition ETag_eq (a b : ETag) : bool :=
  Bool.eqb (et_weak a) (et_weak b) && Bool.eqb (et_unspecified a) (et_unspecified b) && bool_decide (et_value a = et_value b).

(** ** Values with parameters *)

(** [StringMap] in the order of its keys. *)
Definition StringMap : Type := list (text * text).

Definition map_find (key : text) (m : StringMap) : option text := snd <$> List.find (fun p => same_text (fst p) key) m.

Record Product := mkProduct { pd_product : text; pd_version : text }.
Record ValueWithParameters := mkValue { vp_value : text; vp_parameters : StringMap }.
Record AuthParams := mkAuth { au_scheme : text; au_param : text; au_parameters : StringMap }.
Record KeyValueWithParameters := mkKeyValue { kv_key : text; kv_value : text; kv_parameters : StringMap }.
Record MediaType := mkMedia { mt_type : text; mt_subtype : text; mt_parameters : StringMap }.
Record ContentRange := mkRange { cr_first : Z; cr_last : Z; cr_instance : Z }.
Record AcceptValue := mkAccept { av_value : text; av_qvalue : Z }.
Record AcceptValueWithParameters := mkAcceptP { ap_value : text; ap_parameters : StringMap; ap_qvalue : Z; ap_acceptParams : StringMap }.

(** [~0u], which stands for no quality. *)
Definition no_qvalue : Z := 2 ^ 32 - 1.

Definition AcceptValue_eq (a b : AcceptValue) : bool := same_text (av_value a) (av_value b).
Definition AcceptValueWithParameters_eq (a b : AcceptValueWithParameters) : bool :=
  same_text (ap_value a) (ap_value b) && bool_decide (ap_parameters a = ap_parameters b).

Definition ContentRange_eq (a b : ContentRange) : bool :=
  (cr_first a =? cr_first b) && ((cr_first a =? npos) || (cr_last a =? cr_last b)) && (cr_instance a =? cr_instance b).

Definition isAcceptable_scheme (l : list AuthParams) (scheme : text) : bool := existsb (fun a => same_text (au_scheme a) scheme) l.

Fixpoint challengeForSchemeAndRealm (l : list AuthParams) (scheme realm : text) : result AuthParams :=
  match l with
  | [] => Err Assertion
  | a :: l =>
      if same_text (au_scheme a) scheme &&
         (bool_decide (realm = []) || match map_find (str "realm") (au_parameters a) with Some r => same_text r realm | None => false end)
      then Ok a
      else challengeForSchemeAndRealm l scheme realm
  end.

(** The templates over the two kinds of values. *)
Section Accept.
Context {T : Type} (eq : T -> T -> bool) (qvalue : T -> Z).

Fixpoint isAcceptable (l : list T) (value : T) (defaultMissing : bool) : bool :=
  match l with
  | [] => defaultMissing
  | a :: l => if eq a value then 0 <? qvalue a else isAcceptable l value defaultMissing
  end.

(** [MORDOR_ASSERT]s on the available values. *)
Fixpoint check_available (available : list T) : bool :=
  match available with
  | [] => true
  | a :: l => (qvalue a <=? 1000) && match l with b :: _ => qvalue b <=? qvalue a | [] => true end && check_available l
  end.

(** The first entry that matches and is wanted. *)
Definition wants (accept : list T) (a : T) : option T := List.find (fun it => eq it a && (0 <? qvalue it)) accept.

Definition better (accept : list T) (res : option T) (a : T) : option T :=
  match wants accept a, res with
  | Some it, None => Some it
  | Some it, Some r => if Z.min (qvalue r) 1000 <? Z.min (qvalue it) 1000 then Some it else res
  | None, _ => res
  end.

(** The run of available values with the quality [q], and the rest. *)
Fixpoint span (q : Z) (l : list T) : list T * list T :=
  match l with
  | a :: l' => if qvalue a =? q then let '(g, rest) := span q l' in (a :: g, rest) else ([], l)
  | [] => ([], [])
  end.

Fixpoint preferred_loop (fuel : nat) (accept available : list T) : option T :=
  match fuel, available with
  | S fuel, a :: l =>
      let '(g, rest) := span (qvalue a) l in
      match foldl (better accept) None (a :: g) with
      | Some r => Some r
      | None => preferred_loop fuel accept rest
      end
  | _, _ => None
  end.

Definition preferred (accept available : list T) : result (option T) :=
  assert: negb (bool_decide (length available = 0%nat)) ;;
  assert: check_available available ;;
  Ok (preferred_loop (length available) accept available).
End Accept.

(** ** Printing *)

(** The elements with a separator between them. *)
Fixpoint separated (sep : text) (l : list text) : text :=
  match l with
  | [] => []
  | [x] => x
  | x :: l => x ++ sep ++ separated sep l
  end.

(** Printing each element, where printing may fail. *)
Fixpoint prints {A} (f : A -> result text) (l : list A) : result (list text) :=
  match l with
  | [] => Ok []
  | x :: l => t ← f x; ts ← prints f l; Ok (t :: ts)
  end.

Definition comma : text := str ", ".

Definition print_list {A} (f : A -> result text) (sep : text) (l : list A) : result text := ts ← prints f l; Ok (separated sep ts).

(** [operator<<] of [StringSet] and of a vector of strings. *)
Definition print_strings (l : list text) : text := separated comma l.

Definition print_bound (n : Z) : text := if n =? npos then [] else to_dec n.
Definition print_range (r : Z * Z) : text := print_bound (fst r) ++ str "-" ++ print_bound (snd r).
Definition print_RangeSet (l : list (Z * Z)) : result text :=
  assert: negb (bool_decide (l = [])) ;;
  Ok (str "bytes=" ++ separated comma (print_range <$> l)).

Definition print_required (delimiter : text) (lead : bool) (m : StringMap) : result text :=
  ts ← prints (fun p => v ← quote (snd p) false false; Ok (fst p ++ str "=" ++ v)) m;
  Ok ((if lead && negb (bool_decide (m = [])) then delimiter else []) ++ separated delimiter ts).

Definition print_optional (m : StringMap) : result text :=
  ts ← prints (fun p => if bool_decide (snd p = []) then Ok (str ";" ++ fst p)
                        else v ← quote (snd p) false false; Ok (str ";" ++ fst p ++ str "=" ++ v)) m;
  Ok (concat ts).

Definition print_Version (v : Version) : text :=
  if (major v =? 255) || (minor v =? 255) then str "HTTP/0.0" else str "HTTP/" ++ to_dec (major v) ++ str "." ++ to_dec (minor v).

Definition print_ETag (e : ETag) : result text :=
  if et_unspecified e then Ok (str "*")
  else v ← quote (et_value e) true false; Ok ((if et_weak e then str "W/" else []) ++ v).

Definition print_ETags (l : list ETag) : result text :=
  assert: negb (bool_decide (l = [])) ;;
  print_list (fun e => assert: negb (et_unspecified e) || (zlen l =? 1) ;; print_ETag e) comma l.

Definition print_Product (p : Product) : result text :=
  assert: negb (bool_decide (pd_product p = [])) ;;
  Ok (pd_product p ++ if bool_decide (pd_version p = []) then [] else str "/" ++ pd_version p).

Definition print_ProductList (l : list Product) : result text :=
  assert: negb (bool_decide (length l = 0%nat)) ;; print_list print_Product comma l.

(** Products and comments. *)
Definition print_ProductAndCommentList (l : list (Product + text)) : result text :=
  assert: negb (bool_decide (length l = 0%nat)) ;;
  print_list (fun x => match x with inl p => print_Product p | inr c => quote c true true end) (str " ") l.

Definition print_ValueWithParameters (v : ValueWithParameters) : result text :=
  assert: negb (bool_decide (vp_value v = [])) ;;
  ps ← print_required (str ";") true (vp_parameters v); Ok (vp_value v ++ ps).

Definition print_ParameterizedList (l : list ValueWithParameters) : result text := print_list print_ValueWithParameters comma l.

Definition print_AuthParams (a : AuthParams) : result text :=
  assert: bool_decide (au_param a = []) || bool_decide (au_parameters a = []) ;;
  ps ← print_required comma false (au_parameters a);
  Ok (au_scheme a ++ (if bool_decide (au_param a = []) then [] else str " " ++ au_param a) ++
      (if bool_decide (au_parameters a = []) then [] else str " " ++ ps)).

Definition print_ChallengeList (l : list AuthParams) : result text := print_list print_AuthParams comma l.

Definition print_KeyValue (v : KeyValueWithParameters) : result text :=
  assert: negb (bool_decide (kv_key v = [])) ;;
  k ← quote (kv_key v) false false;
  if bool_decide (kv_value v = []) then Ok k
  else x ← quote (kv_value v) false false; ps ← print_optional (kv_parameters v); Ok (k ++ str "=" ++ x ++ ps).

Definition print_ParameterizedKeyValueList (l : list KeyValueWithParameters) : result text :=
  assert: negb (bool_decide (length l = 0%nat)) ;; print_list print_KeyValue comma l.

Definition print_MediaType (m : MediaType) : result text :=
  assert: negb (bool_decide (mt_type m = [])) ;;
  assert: negb (bool_decide (mt_subtype m = [])) ;;
  ps ← print_required (str ";") true (mt_parameters m); Ok (mt_type m ++ str "/" ++ mt_subtype m ++ ps).

Definition print_ContentRange (r : ContentRange) : text :=
  str "bytes " ++
  (if cr_first r =? npos then str "*" else to_dec (cr_first r) ++ str "-" ++ print_bound (cr_last r)) ++
  str "/" ++ (if cr_instance r =? npos then str "*" else to_dec (cr_instance r)).

(** The digits of a quality after the point; three places at most. *)
Fixpoint qvalue_loop (fuel : nat) (curPlace qvalue : Z) : result text :=
  if (0 <? curPlace) && (0 <? qvalue) then
    match fuel with
    | O => Err Diverges
    | S fuel =>
        let cur := qvalue / curPlace in
        assert: cur <? 10 ;;
        rest ← qvalue_loop fuel (curPlace / 10) (u32 (qvalue - u32 (cur * curPlace)));
        Ok ((if curPlace =? 100 then str "." else []) ++ to_dec cur ++ rest)
    end
  else Ok [].

Definition print_qvalue (qvalue : Z) : result text :=
  assert: qvalue <=? 1000 ;;
  if qvalue =? 1000 then Ok (str ";q=1") else ds ← qvalue_loop 3 100 qvalue; Ok (str ";q=0" ++ ds).

Definition print_AcceptValue (v : AcceptValue) : result text :=
  q ← (if av_qvalue v =? no_qvalue then Ok [] else print_qvalue (av_qvalue v));
  Ok ((if bool_decide (av_value v = []) then str "*" else av_value v) ++ q).

Definition print_AcceptList (l : list AcceptValue) : result text :=
  assert: negb (bool_decide (length l = 0%nat)) ;; print_list print_AcceptValue comma l.

Definition print_AcceptValueWithParameters (v : AcceptValueWithParameters) : result text :=
  assert: negb (bool_decide (ap_value v = [])) ;;
  ps ← print_required (str ";") true (ap_parameters v);
  q ← (if ap_qvalue v =? no_qvalue then assert: bool_decide (ap_acceptParams v = []) ;; Ok []
       else q ← print_qvalue (ap_qvalue v); os ← print_optional (ap_acceptParams v); Ok (q ++ os));
  Ok (ap_value v ++ ps ++ q).

Definition print_AcceptListWithParameters (l : list AcceptValueWithParameters) : result text :=
  assert: negb (bool_decide (length l = 0%nat)) ;; print_list print_AcceptValueWithParameters comma l.

(** ** Messages *)

(** A date as the library prints it; [None] is [not_a_date_time]. *)
Definition ptime : Type := option text.

(** Of a URI, what the request line looks at; [uri_text] and [uri_authority] are what [uri.h] prints. *)
Record URI := mkURI {
  uri_text : text;
  uri_authority : text;
  uri_scheme : bool;
  uri_host : bool;
  uri_query : bool;
  uri_fragment : bool;
  uri_segments : list text;
}.

Definition path_isEmpty (segments : list text) : bool := match segments with [] => true | [s] => bool_decide (s = []) | _ => false end.
Definition path_isAbsolute (segments : list text) : bool := match segments with s :: _ :: _ => bool_decide (s = []) | _ => false end.
Definition uri_defined (u : URI) : bool :=
  uri_scheme u || uri_host u || negb (path_isEmpty (uri_segments u)) || uri_query u || uri_fragment u.

Record RequestLine := mkRequestLine { rl_method : text; rl_uri : URI; rl_ver : Version }.
Record StatusLine := mkStatusLine { sl_status : Z; sl_reason : text; sl_ver : Version }.

Record GeneralHeaders := mkGeneral {
  gh_connection : list text;
  gh_date : ptime;
  gh_proxyConnection : list text;
  gh_transferEncoding : list ValueWithParameters;
  gh_trailer : list text;
  gh_upgrade : list Product;
}.

Record RequestHeaders := mkRequestHeaders {
  rq_acceptCharset : list AcceptValue;
  rq_acceptEncoding : list AcceptValue;
  rq_authorization : AuthParams;
  rq_expect : list KeyValueWithParameters;
  rq_host : text;
  rq_ifMatch : list ETag;
  rq_ifModifiedSince : ptime;
  rq_ifNoneMatch : list ETag;
  rq_ifRange : ETag + ptime;
  rq_ifUnmodifiedSince : ptime;
  rq_proxyAuthorization : AuthParams;
  rq_range : list (Z * Z);
  rq_referer : URI;
  rq_te : list AcceptValueWithParameters;
  rq_userAgent : list (Product + text);
}.

Record ResponseHeaders := mkResponseHeaders {
  rs_acceptRanges : list text;
  rs_eTag : ETag;
  rs_location : URI;
  rs_proxyAuthenticate : list AuthParams;
  rs_retryAfter : ptime + Z;
  rs_server : list (Product + text);
  rs_wwwAuthenticate : list AuthParams;
}.

Record EntityHeaders := mkEntity {
  en_allow : list text;
  en_contentEncoding : list text;
  en_contentLength : Z;
  en_contentMD5 : text;
  en_contentRange : ContentRange;
  en_contentType : MediaType;
  en_expires : ptime;
  en_lastModified : ptime;
  en_extension : StringMap;
}.

Record Request := mkRequest { req_line : RequestLine; req_general : GeneralHeaders; req_request : RequestHeaders; req_entity : EntityHeaders }.
Record Response := mkResponse { res_status : StatusLine; res_general : GeneralHeaders; res_response : ResponseHeaders; res_entity : EntityHeaders }.

Definition CONNECT : text := str "CONNECT".

Definition print_RequestLine (r : RequestLine) : result text :=
  let u := rl_uri r in
  if bool_decide (rl_method r = CONNECT) then
    assert: uri_host u ;;
    assert: negb (uri_scheme u) ;;
    assert: path_isEmpty (uri_segments u) ;;
    assert: negb (uri_query u) ;;
    assert: negb (uri_fragment u) ;;
    Ok (rl_method r ++ str " " ++ uri_authority u ++ str " " ++ print_Version (rl_ver r))
  else if negb (uri_defined u) then Ok (rl_method r ++ str " * " ++ print_Version (rl_ver r))
  else
    assert: negb (uri_fragment u) ;;
    assert: uri_scheme u || (negb (uri_host u) && path_isAbsolute (uri_segments u) &&
      ((zlen (uri_segments u) <=? 2) || match uri_segments u !! 1%nat with Some s => negb (bool_decide (s = [])) | None => false end)) ;;
    Ok (rl_method r ++ str " " ++ uri_text u ++ str " " ++ print_Version (rl_ver r)).

Definition print_StatusLine (s : StatusLine) : result text :=
  assert: negb (bool_decide (sl_reason s = [])) ;;
  Ok (print_Version (sl_ver s) ++ str " " ++ to_dec (sl_status s) ++ str " " ++ sl_reason s).

(** A header line, or nothing. *)
Definition header (name : string) (present : bool) (value : result text) : result text :=
  if present then v ← value; Ok (str name ++ str ": " ++ v ++ CRLF) else Ok [].

Definition present {A} (l : list A) : bool := match l with [] => false | _ => true end.

Definition date_header (name : string) (d : ptime) : result text := header name (bool_decide (is_Some d)) (Ok (default [] d)).

(** One header after the other. *)
Fixpoint headers (l : list (result text)) : result text :=
  match l with
  | [] => Ok []
  | h :: l => t ← h; ts ← headers l; Ok (t ++ ts)
  end.

Definition print_GeneralHeaders (g : GeneralHeaders) : result text := headers [
  header "Connection" (present (gh_connection g)) (Ok (print_strings (gh_connection g)));
  date_header "Date" (gh_date g);
  header "Proxy-Connection" (present (gh_proxyConnection g)) (Ok (print_strings (gh_proxyConnection g)));
  header "Trailer" (present (gh_trailer g)) (Ok (print_strings (gh_trailer g)));
  header "Transfer-Encoding" (present (gh_transferEncoding g)) (print_ParameterizedList (gh_transferEncoding g));
  header "Upgrade" (present (gh_upgrade g)) (print_ProductList (gh_upgrade g))].

Definition print_RequestHeaders (r : RequestHeaders) : result text := headers [
  header "Accept-Charset" (present (rq_acceptCharset r)) (print_AcceptList (rq_acceptCharset r));
  header "Accept-Encoding" (present (rq_acceptEncoding r)) (print_AcceptList (rq_acceptEncoding r));
  header "Authorization" (present (au_scheme (rq_authorization r))) (print_AuthParams (rq_authorization r));
  header "Expect" (present (rq_expect r)) (print_ParameterizedKeyValueList (rq_expect r));
  header "Host" (present (rq_host r)) (Ok (rq_host r));
  header "If-Match" (present (rq_ifMatch r)) (print_ETags (rq_ifMatch r));
  date_header "If-Modified-Since" (rq_ifModifiedSince r);
  header "If-None-Match" (present (rq_ifNoneMatch r)) (print_ETags (rq_ifNoneMatch r));
  match rq_ifRange r with
  | inl e => header "If-Range" (negb (et_unspecified e)) (print_ETag e)
  | inr d => date_header "If-Range" d
  end;
  date_header "If-Unmodified-Since" (rq_ifUnmodifiedSince r);
  header "Proxy-Authorization" (present (au_scheme (rq_proxyAuthorization r))) (print_AuthParams (rq_proxyAuthorization r));
  header "Range" (present (rq_range r)) (print_RangeSet (rq_range r));
  header "Referer" (uri_defined (rq_referer r)) (Ok (uri_text (rq_referer r)));
  header "TE" (present (rq_te r)) (print_AcceptListWithParameters (rq_te r));
  header "User-Agent" (present (rq_userAgent r)) (print_ProductAndCommentList (rq_userAgent r))].

Definition print_ResponseHeaders (r : ResponseHeaders) : result text := headers [
  header "Accept-Ranges" (present (rs_acceptRanges r)) (Ok (print_strings (rs_acceptRanges r)));
  header "ETag" (negb (et_unspecified (rs_eTag r))) (print_ETag (rs_eTag r));
  header "Location" (uri_defined (rs_location r)) (Ok (uri_text (rs_location r)));
  header "Proxy-Authenticate" (present (rs_proxyAuthenticate r)) (print_ChallengeList (rs_proxyAuthenticate r));
  match rs_retryAfter r with
  | inl d => date_header "Retry-After" d
  | inr n => header "Retry-After" (negb (n =? npos)) (Ok (to_dec n))
  end;
  header "Server" (present (rs_server r)) (print_ProductAndCommentList (rs_server r));
  header "WWW-Authenticate" (present (rs_wwwAuthenticate r)) (print_ChallengeList (rs_wwwAuthenticate r))].

Definition print_extension (m : StringMap) : text := concat ((fun p => fst p ++ str ": " ++ snd p ++ CRLF) <$> m).

Definition print_EntityHeaders (e : EntityHeaders) : result text := headers [
  header "Allow" (present (en_allow e)) (Ok (print_strings (en_allow e)));
  header "Content-Encoding" (present (en_contentEncoding e)) (Ok (print_strings (en_contentEncoding e)));
  header "Content-Length" (negb (en_contentLength e =? npos)) (Ok (to_dec (en_contentLength e)));
  header "Content-MD5" (present (en_contentMD5 e)) (Ok (en_contentMD5 e));
  header "Content-Range" (negb (cr_first (en_contentRange e) =? npos) || negb (cr_last (en_contentRange e) =? npos) || negb (cr_instance (en_contentRange e) =? npos))
    (Ok (print_ContentRange (en_contentRange e)));
  header "Content-Type" (present (mt_type (en_contentType e)) && present (mt_subtype (en_contentType e))) (print_MediaType (en_contentType e));
  date_header "Expires" (en_expires e);
  date_header "Last-Modified" (en_lastModified e);
  Ok (print_extension (en_extension e))].

Definition print_Request (r : Request) : result text :=
  l ← print_RequestLine (req_line r);
  h ← headers [print_GeneralHeaders (req_general r); print_RequestHeaders (req_request r); print_EntityHeaders (req_entity r)];
  Ok (l ++ CRLF ++ h ++ CRLF).

Definition print_Response (r : Response) : result text :=
  l ← print_StatusLine (res_status r);
  h ← headers [print_GeneralHeaders (res_general r); print_ResponseHeaders (res_response r); print_EntityHeaders (res_entity r)];
  Ok (l ++ CRLF ++ h ++ CRLF).
