(* ===== verification/HttpProps.v ===== *)
(** Quoting and its inverse, qualities, the choice between what a client accepts and what a server has, and the orders of versions and
    entity tags. *)

From Stdlib Require Import String.
From stdpp Require Import sets numbers list_numbers list.
From S2P Require Import Prelude Chunked Http.

(** ** Quoting *)

(** How the end of a quoted string or a comment is found: the rest after the quote that is not escaped, or after the parenthesis that
    closes the first one. *)
Fixpoint closing (comment escaping : bool) (depth : Z) (s : text) : option text :=
  match s with
  | [] => None
  | c :: s =>
      if escaping then closing comment false depth s
      else if c =? BACKSLASH then closing comment true depth s
      else if comment then
        if c =? LPAREN then closing comment false (depth + 1) s
        else if c =? RPAREN then if depth =? 0 then Some s else closing comment false (depth - 1) s
        else closing comment false depth s
      else if c =? QUOTE then Some s
      else closing comment false depth s
  end.

Definition escaped_set (comment : bool) : text := if comment then escapedComment else escapedQuote.

Lemma find_escape_spec escaped s pre post : find_escape escaped s = (pre, post) ->
  s = pre ++ post /\ Forall (fun c => c ∉ escaped) pre /\ match post with c :: _ => c ∈ escaped | [] => True end.
Proof.
  revert pre post. induction s as [| c s IH]; intros pre post; cbn; [by intros [= <- <-] |].
  case_bool_decide as Hc; [by intros [= <- <-] |]. destruct (find_escape escaped s) as [pre' post'].
  destruct (IH pre' post' eq_refl) as (-> & Hf & Hp). intros [= <- <-]. split_and!; auto.
Qed.

Definition ordinary (comment : bool) (c : Z) : Prop :=
  c <> BACKSLASH /\ (if comment then c <> LPAREN /\ c <> RPAREN else c <> QUOTE).

Lemma not_escaped_ordinary comment c : c ∉ escaped_set comment -> ordinary comment c.
Proof.
  intros H. destruct comment; unfold ordinary; repeat split; intros ->; apply H; by apply (bool_decide_unpack _).
Qed.

Lemma closing_ordinary comment c depth s : ordinary comment c -> closing comment false depth (c :: s) = closing comment false depth s.
Proof.
  intros (H1 & H2). cbn. rewrite (proj2 (Z.eqb_neq _ _) H1). destruct comment.
  - destruct H2 as (H2 & H3). by rewrite (proj2 (Z.eqb_neq _ _) H2), (proj2 (Z.eqb_neq _ _) H3).
  - by rewrite (proj2 (Z.eqb_neq _ _) H2).
Qed.

Lemma closing_pre comment depth pre s : Forall (ordinary comment) pre -> closing comment false depth (pre ++ s) = closing comment false depth s.
Proof. induction 1 as [| c pre Hc _ IH]; [done |]. rewrite <- app_comm_cons, closing_ordinary by done. done. Qed.

Lemma unquote_pre comment pre s : Forall (ordinary comment) pre -> unquote_loop false (pre ++ s) = pre ++ unquote_loop false s.
Proof. induction 1 as [| c pre (Hc & _) _ IH]; [done |]. cbn. rewrite (proj2 (Z.eqb_neq _ _) Hc). cbn. by rewrite IH. Qed.

Lemma count_app c s1 s2 : count_char c (s1 ++ s2) = count_char c s1 + count_char c s2.
Proof. unfold count_char. by rewrite filter_app, zlen_app. Qed.
Lemma count_cons c x s : count_char c (x :: s) = (if x =? c then 1 else 0) + count_char c s.
Proof. unfold count_char. rewrite filter_cons. destruct (Z.eqb_spec x c); [rewrite decide_True by done; by rewrite zlen_cons | by rewrite decide_False by done]. Qed.
Lemma count_pre pre : Forall (ordinary true) pre -> count_char RPAREN pre = 0.
Proof. induction 1 as [| c pre (_ & _ & Hc) _ IH]; [done |]. rewrite count_cons, (proj2 (Z.eqb_neq _ _) Hc). lia. Qed.

(** The parentheses still to come are those that close open ones and the others. *)
Definition balanced (comment : bool) (s : text) (leftParens rightParens : Z) : Prop :=
  if comment then 0 <= leftParens /\ 0 <= rightParens /\ count_char RPAREN s = leftParens + rightParens else leftParens = 0 /\ rightParens = 0.

Lemma balanced_after comment pre c rest lp rp : Forall (ordinary comment) pre -> balanced comment (pre ++ c :: rest) lp rp ->
  if comment then 0 <= lp /\ 0 <= rp /\ (if c =? RPAREN then 1 else 0) + count_char RPAREN rest = lp + rp else lp = 0 /\ rp = 0.
Proof.
  intros Hp. destruct comment; cbn; [| done]. rewrite count_app, count_cons, (count_pre pre Hp). tauto.
Qed.

(** A character that is not ordinary, with a backslash. *)
Lemma escaped_pair comment depth c s : closing comment false depth (BACKSLASH :: c :: s) = closing comment false depth s /\
  unquote_loop false (BACKSLASH :: c :: s) = c :: unquote_loop false s.
Proof. done. Qed.

Lemma quote_loop_ok comment fuel s lp rp res : (length s <= fuel)%nat -> balanced comment s lp rp ->
  exists b, quote_loop fuel (escaped_set comment) s lp rp res = Ok (res ++ b) /\ unquote_loop false b = s /\
    forall rest, closing comment false lp (b ++ (if comment then RPAREN else QUOTE) :: rest) = Some rest.
Proof.
  revert s lp rp res. induction fuel as [| fuel IH]; intros s lp rp res Hf Hb.
  all: destruct (find_escape (escaped_set comment) s) as [pre post] eqn:E; destruct (find_escape_spec _ _ _ _ E) as (-> & Hpre & Hpost).
  all: assert (Hord : Forall (ordinary comment) pre) by (eapply Forall_impl; [exact Hpre | intros; by apply not_escaped_ordinary]).
  all: destruct post as [| c rest].
  1, 3: rewrite app_nil_r in *; exists pre; cbn [quote_loop]; rewrite E; split; [done |]; split; [rewrite <- (app_nil_r pre) at 1; by rewrite (unquote_pre comment), app_nil_r |].
  1, 2: intros rest; rewrite closing_pre by done; destruct comment; cbn in *; [| done];
    rewrite (count_pre pre Hord) in Hb; by replace lp with 0 by lia.
  - rewrite length_app in Hf. cbn in Hf. lia.
  - cbn [quote_loop]. rewrite E. apply (balanced_after comment pre c rest lp rp Hord) in Hb.
    assert (Hlen : (length rest <= fuel)%nat) by (rewrite length_app in Hf; cbn in Hf; lia).
    assert (Hgo : forall w lp' rp', closing comment false lp (w ++ []) = closing comment false lp w -> balanced comment rest lp' rp' ->
      (forall x, unquote_loop false (w ++ x) = c :: unquote_loop false x) -> (forall x, closing comment false lp (w ++ x) = closing comment false lp' x) ->
      exists b, quote_loop fuel (escaped_set comment) rest lp' rp' (res ++ pre ++ w) = Ok (res ++ b) /\ unquote_loop false b = pre ++ c :: rest /\
        forall r, closing comment false lp (b ++ (if comment then RPAREN else QUOTE) :: r) = Some r).
    { intros w lp' rp' _ Hb' Hu Hc. destruct (IH rest lp' rp' (res ++ pre ++ w) Hlen Hb') as (b & -> & Hub & Hcb). exists (pre ++ w ++ b).
      split; [by rewrite <- !app_assoc |]. split; [by rewrite (unquote_pre comment), Hu, Hub |]. intros r. rewrite <- !app_assoc, closing_pre, Hc by done. apply Hcb. }
    destruct ((c =? LPAREN) && (0 <? rp)) eqn:E1.
    { apply andb_true_iff in E1 as (->%Z.eqb_eq & Hrp%Z.ltb_lt). destruct comment; [| destruct Hb; lia]. change (LPAREN =? RPAREN) with false in Hb. destruct Hb as (? & ? & ?). apply (Hgo [LPAREN]); try done. cbn. lia. }
    destruct ((c =? RPAREN) && (0 <? lp)) eqn:E2.
    { apply andb_true_iff in E2 as (->%Z.eqb_eq & Hlp%Z.ltb_lt). destruct comment; [| destruct Hb; lia]. change (RPAREN =? RPAREN) with true in Hb. destruct Hb as (? & ? & ?).
      apply (Hgo [RPAREN]); try done; [cbn; lia |]. intros x. cbn. by rewrite (proj2 (Z.eqb_neq lp 0)) by lia. }
    destruct (Z.eqb_spec c RPAREN) as [-> | Hc].
    + destruct comment.
      * destruct Hb as (? & ? & Hb). assert (Hrp : 0 < rp /\ lp = 0) by (rewrite andb_true_l in E2; apply Z.ltb_ge in E2; pose proof (zlen_nonneg (filter (fun x => x = RPAREN) rest)); unfold count_char in Hb; lia). rewrite ASSERT_true by (apply Z.ltb_lt; lia). step. apply (Hgo [BACKSLASH; RPAREN]); try done. cbn. lia.
      * exfalso. revert Hpost. apply (bool_decide_unpack _). by vm_compute.
    + step. apply (Hgo [BACKSLASH; c]); done.
Qed.

(** Quoting can be undone: [quote] never fails and [unquote] gives back the text, whatever bytes it has and whether it is quoted as a token,
    a string or a comment.  A text that is not left as it is, because all its characters are those of a token, gets quotes around it, and a reader
    who looks for the closing quote, or in a comment for the closing parenthesis, over escaped characters and inner parentheses, stops exactly at its end. *)
Theorem quote_roundtrip s alwaysQuote comment :
  exists q, quote s alwaysQuote comment = Ok q /\ unquote q = Ok s /\
    ((q = s /\ Forall (fun c => c ∈ token_chars) s) \/
     exists b, q = (if comment then LPAREN else QUOTE) :: b ++ [if comment then RPAREN else QUOTE] /\
       forall rest, closing comment false 0 (b ++ (if comment then RPAREN else QUOTE) :: rest) = Some rest).
Proof.
  unfold quote. case_bool_decide as Hs.
  { subst s. destruct comment; eexists; (split; [done |]); (split; [done |]); right; exists []; done. }
  destruct (negb (comment || alwaysQuote) && forallb _ s) eqn:E.
  - apply andb_true_iff in E as (_ & E). rewrite forallb_forall in E.
    assert (Ht : Forall (fun c => c ∈ token_chars) s) by (apply Forall_forall; intros c Hc; apply (bool_decide_unpack _), Is_true_true, E; by apply list_elem_of_In).
    exists s. split; [done |]. split; [| by left]. unfold unquote. destruct s as [| c s]; [done |]. apply Forall_cons in Ht as (Hc & _).
    assert (negb ((c =? QUOTE) || (c =? LPAREN)) = true) as ->; [| done].
    destruct (Z.eqb_spec c QUOTE) as [-> | _]; [by exfalso; revert Hc; apply (bool_decide_unpack _) |].
    destruct (Z.eqb_spec c LPAREN) as [-> | _]; [by exfalso; revert Hc; apply (bool_decide_unpack _) | done].
  - set (rp := if comment then count_char RPAREN s else 0).
    destruct (quote_loop_ok comment (length s) s 0 rp []) as (b & Hb & Hu & Hc); [done | |].
    { unfold balanced, rp. destruct comment; [| done]. pose proof (zlen_nonneg (filter (fun x => x = RPAREN) s)). unfold count_char. lia. }
    unfold escaped_set in Hb. rewrite Hb. cbn [app]. eexists. split; [done |]. split; [| right; by exists b].
    unfold unquote. set (o := if comment then LPAREN else QUOTE). set (e := if comment then RPAREN else QUOTE).
    assert (Ho : (o =? QUOTE) || (o =? LPAREN) = true) by (by unfold o; destruct comment). rewrite Ho. cbn [negb].
    assert (He : default o (last (o :: b ++ [e])) = e) by (rewrite app_comm_cons, last_snoc; done). rewrite He.
    rewrite ASSERT_true by (by unfold o, e; destruct comment). step.
    rewrite (proj2 (Z.ltb_ge _ _)) by (rewrite zlen_cons, zlen_app; pose proof (zlen_nonneg b); change (zlen [e]) with 1; lia).
    cbn [length]. rewrite length_app. cbn [length]. replace (S (length b + 1) - 2)%nat with (length b) by lia. by rewrite take_app_length, Hu.
Qed.

(** ** Qualities *)

(** Reading a quality: [;q=1], or [;q=0] and up to three digits after a point. *)
Definition digit (c : Z) : option Z := if (48 <=? c) && (c <=? 57) then Some (c - 48) else None.

Fixpoint read_digits (place : Z) (s : text) : option Z :=
  match s with
  | [] => Some 0
  | c :: s => d ← digit c; if place =? 0 then None else v ← read_digits (place / 10) s; Some (d * place + v)
  end.

Definition read_qvalue (s : text) : option Z :=
  if bool_decide (s = str ";q=1") then Some 1000
  else if bool_decide (take 4 s = str ";q=0") then
    match drop 4 s with
    | [] => Some 0
    | c :: s => if c =? 46 then read_digits 100 s else None
    end
  else None.

Definition qvalue_ok (q : Z) : bool := match print_qvalue q with Ok t => bool_decide (read_qvalue t = Some q) | Err _ => false end.

Lemma qvalue_all : forallb qvalue_ok (seqZ 0 1001) = true.
Proof. vm_compute. reflexivity. Qed.

(** A quality between 0 and 1000 thousandths is printed as a number between 0 and 1 with at most three digits, without failing an
    assertion, and reads back as itself. *)
Theorem qvalue_roundtrip q : 0 <= q <= 1000 -> exists t, print_qvalue q = Ok t /\ read_qvalue t = Some q.
Proof.
  intros Hq. pose proof qvalue_all as H. rewrite forallb_forall in H. specialize (H q). unfold qvalue_ok in H.
  destruct (print_qvalue q) as [t |]; [| by discriminate H; apply list_elem_of_In, elem_of_seqZ; lia].
  exists t. split; [done |]. apply (bool_decide_eq_true_1 _), H. apply list_elem_of_In, elem_of_seqZ. lia.
Qed.

Lemma qvalue_roundtrip_witness : exists t, print_qvalue 250 = Ok t /\ read_qvalue t = Some 250 /\ t = str ";q=0.25".
Proof. destruct (qvalue_roundtrip 250) as (t & E & Hr); [lia |]. exists t. split; [exact E |]. split; [exact Hr |]. vm_compute in E. injection E as <-. reflexivity. Defined.

(** ** What is preferred *)

Section Preferred.
Context {T : Type} (eq : T -> T -> bool) (qvalue : T -> Z).
Notation wants := (wants eq qvalue).
Notation better := (better eq qvalue).

(** The quality a client gives, where no quality counts as 1000. *)
Definition quality (x : T) : Z := Z.min (qvalue x) 1000.

(** [x] is what the client wants of [a], which is the best of [l] so far. *)
Definition best (accept : list T) (l : list T) (x : T) : Prop :=
  exists pre a post, l = pre ++ a :: post /\ wants accept a = Some x /\
    (forall b y, b ∈ pre -> wants accept b = Some y -> quality y < quality x) /\
    (forall b y, b ∈ post -> wants accept b = Some y -> quality y <= quality x).

Lemma foldl_better accept l res :
  match res with
  | None => match foldl (better accept) None l with
            | Some x => best accept l x
            | None => forall b, b ∈ l -> wants accept b = None
            end
  | Some r => exists x, foldl (better accept) (Some r) l = Some x /\
      ((x = r /\ forall b y, b ∈ l -> wants accept b = Some y -> quality y <= quality r) \/ (quality r < quality x /\ best accept l x))
  end.
Proof.
  revert res. induction l as [| a l IH]; intros res.
  - destruct res as [r |]; cbn; [| by intros b ?%elem_of_nil]. exists r. split; [done |]. left. split; [done |]. by intros b y ?%elem_of_nil.
  - destruct res as [r |].
    + cbn. unfold Http.better at 2. destruct (wants accept a) as [it |] eqn:Ew.
      * fold (quality r) (quality it). destruct (Z.ltb_spec (quality r) (quality it)) as [Hlt | Hge].
        { destruct (IH (Some it)) as (x & -> & Hx). exists x. split; [done |]. right. destruct Hx as [(-> & Hx) | (Hlt' & pre & b & post & -> & Hb & H1 & H2)].
          - split; [done |]. exists [], a, l. split_and!; auto. by intros b y ?%elem_of_nil.
          - split; [lia |]. exists (a :: pre), b, post. split_and!; auto. intros c y Hc Hy. apply elem_of_cons in Hc as [-> | Hc]; [| eauto]. rewrite Ew in Hy. injection Hy as <-. lia. }
        { destruct (IH (Some r)) as (x & -> & Hx). exists x. split; [done |]. destruct Hx as [(-> & Hx) | (Hlt' & pre & b & post & -> & Hb & H1 & H2)]; [left | right].
          - split; [done |]. intros b y Hb Hy. apply elem_of_cons in Hb as [-> | Hb]; [| eauto]. rewrite Ew in Hy. by injection Hy as <-.
          - split; [done |]. exists (a :: pre), b, post. split_and!; auto. intros c y Hc Hy. apply elem_of_cons in Hc as [-> | Hc]; [| eauto]. rewrite Ew in Hy. injection Hy as <-. lia. }
      * destruct (IH (Some r)) as (x & -> & Hx). exists x. split; [done |]. destruct Hx as [(-> & Hx) | (Hlt' & pre & b & post & -> & Hb & H1 & H2)]; [left | right].
        -- split; [done |]. intros b y Hb Hy. apply elem_of_cons in Hb as [-> | Hb]; [congruence | eauto].
        -- split; [done |]. exists (a :: pre), b, post. split_and!; auto. intros c y Hc Hy. apply elem_of_cons in Hc as [-> | Hc]; [congruence | eauto].
    + cbn. unfold Http.better at 2. destruct (wants accept a) as [it |] eqn:Ew.
      * destruct (IH (Some it)) as (x & -> & [(-> & Hx) | (Hlt & pre & b & post & -> & Hb & H1 & H2)]).
        -- exists [], a, l. split_and!; auto. by intros b y ?%elem_of_nil.
        -- exists (a :: pre), b, post. split_and!; auto. intros c y Hc Hy. apply elem_of_cons in Hc as [-> | Hc]; [| eauto]. rewrite Ew in Hy. by injection Hy as <-.
      * specialize (IH None). destruct (foldl (better accept) None l) as [x |].
        -- destruct IH as (pre & b & post & -> & Hb & H1 & H2). exists (a :: pre), b, post. split_and!; auto.
           intros c y Hc Hy. apply elem_of_cons in Hc as [-> | Hc]; [congruence | eauto].
        -- intros b Hb. apply elem_of_cons in Hb as [-> | Hb]; auto.
Qed.

Lemma span_spec q l g rest : span qvalue q l = (g, rest) ->
  l = g ++ rest /\ Forall (fun a => qvalue a = q) g /\ match rest with a :: _ => qvalue a <> q | [] => True end.
Proof.
  revert g rest. induction l as [| a l IH]; intros g rest; cbn; [by intros [= <- <-] |].
  destruct (Z.eqb_spec (qvalue a) q) as [Hq | Hq]; [| by intros [= <- <-]]. destruct (span qvalue q l) as [g' rest'].
  destruct (IH g' rest' eq_refl) as (-> & Hf & Hr). intros [= <- <-]. split_and!; auto.
Qed.

Lemma check_sorted a l : check_available qvalue (a :: l) = true -> Forall (fun b => qvalue b <= qvalue a) l /\ check_available qvalue l = true.
Proof.
  revert a. induction l as [| b l IH]; intros a; [done |]. cbn [check_available]. intros ((_ & Hab%Z.leb_le)%andb_true_iff & Hl)%andb_true_iff.
  split; [| exact Hl]. constructor; [done |]. destruct (IH b Hl) as (Hf & _). eapply Forall_impl; [exact Hf |]. cbn. intros c Hc. lia.
Qed.

Lemma check_app l1 l2 : check_available qvalue (l1 ++ l2) = true -> check_available qvalue l2 = true.
Proof. induction l1 as [| a l1 IH]; [done |]. intros H. apply IH. by eapply check_sorted. Qed.

Lemma preferred_loop_spec accept fuel available : (length available <= fuel)%nat -> check_available qvalue available = true ->
  match preferred_loop eq qvalue fuel accept available with
  | Some x => exists pre a post, available = pre ++ a :: post /\ wants accept a = Some x /\
      (forall b y, b ∈ pre -> wants accept b = Some y -> qvalue b = qvalue a /\ quality y < quality x) /\
      (forall b y, b ∈ post -> wants accept b = Some y -> qvalue b < qvalue a \/ (qvalue b = qvalue a /\ quality y <= quality x))
  | None => forall b, b ∈ available -> wants accept b = None
  end.
Proof.
  revert available. induction fuel as [| fuel IH]; intros [| a l] Hf Hc; [by intros b ?%elem_of_nil | cbn in Hf; lia | by intros b ?%elem_of_nil |].
  cbn [preferred_loop]. destruct (span qvalue (qvalue a) l) as [g rest] eqn:E. destruct (span_spec _ _ _ _ E) as (-> & Hg & Hr).
  destruct (check_sorted a (g ++ rest) Hc) as (Hsort & Hc'). apply Forall_app in Hsort as (_ & Hsort).
  assert (Hrest : Forall (fun b => qvalue b < qvalue a) rest).
  { destruct rest as [| b rest]; [done |]. apply Forall_cons in Hsort as (Hb & _). destruct (check_sorted b rest) as (Hs & _); [by eapply check_app |].
    constructor; [lia |]. eapply Forall_impl; [exact Hs |]. cbn. intros c ?. lia. }
  assert (Hgroup : forall b, b ∈ a :: g -> qvalue b = qvalue a) by (intros b [-> | Hb]%elem_of_cons; [done | by rewrite Forall_forall in Hg; apply Hg]).
  pose proof (foldl_better accept (a :: g) None) as Hbest. destruct (foldl (better accept) None (a :: g)) as [x |].
  - destruct Hbest as (pre & b & post & Hsplit & Hw & H1 & H2). exists pre, b, (post ++ rest).
    assert (Hb : qvalue b = qvalue a) by (apply Hgroup; rewrite Hsplit; set_solver).
    split; [by rewrite app_comm_cons, Hsplit, <- app_assoc |]. split; [done |]. split.
    + intros c y Hc0 Hy. rewrite Hb. split; [apply Hgroup; rewrite Hsplit; set_solver | eauto].
    + intros c y Hc0 Hy. apply elem_of_app in Hc0 as [Hc0 | Hc0]; [right | left; rewrite Hb; by rewrite Forall_forall in Hrest; apply Hrest].
      rewrite Hb. split; [apply Hgroup; rewrite Hsplit; set_solver | eauto].
  - specialize (IH rest). destruct (preferred_loop eq qvalue fuel accept rest) as [x |].
    + destruct IH as (pre & b & post & -> & Hw & H1 & H2); [rewrite ?length_app in Hf; cbn in Hf; rewrite ?length_app in Hf; lia | by apply (check_app g) |].
      exists (a :: g ++ pre), b, post. split; [by rewrite <- app_comm_cons, <- app_assoc |]. split; [done |]. split; [| done].
      intros c y Hc0 Hy. rewrite app_comm_cons in Hc0. apply elem_of_app in Hc0 as [Hc0 | Hc0]; [| eauto]. by rewrite Hbest in Hy.
    + intros b Hb. rewrite app_comm_cons in Hb. apply elem_of_app in Hb as [Hb | Hb]; [auto |].
      apply IH; [cbn in Hf; rewrite length_app in Hf; lia | by apply (check_app g) | done].
Qed.
End Preferred.

(** [preferred] takes, among the values the server has, one of highest quality for the server of those that the client wants at all; among these the one
    to which the client gives the highest quality, where none given counts as 1000; and among equals the first of the server's list.  It
    returns nothing exactly when the client wants none of them, and its assertions are that there is a value and that the server's list is in order. *)
Theorem preferred_spec {T} (eq : T -> T -> bool) (qvalue : T -> Z) accept available :
  available <> [] -> check_available qvalue available = true ->
  exists r, preferred eq qvalue accept available = Ok r /\
    match r with
    | Some x => exists pre a post, available = pre ++ a :: post /\ wants eq qvalue accept a = Some x /\
        (forall b y, b ∈ pre -> wants eq qvalue accept b = Some y -> qvalue b = qvalue a /\ quality qvalue y < quality qvalue x) /\
        (forall b y, b ∈ post -> wants eq qvalue accept b = Some y ->
           qvalue b < qvalue a \/ (qvalue b = qvalue a /\ quality qvalue y <= quality qvalue x))
    | None => forall b, b ∈ available -> wants eq qvalue accept b = None
    end.
Proof.
  intros Hne Hc. eexists. split.
  - unfold preferred. rewrite ASSERT_true by (by destruct available). step. by rewrite ASSERT_true.
  - by apply preferred_loop_spec.
Qed.

Lemma preferred_witness : let gzip := str "gzip" in let deflate := str "Deflate" in
  exists r, preferred AcceptValue_eq av_qvalue [mkAccept (str "DEFLATE") 500; mkAccept gzip no_qvalue] [mkAccept deflate 1000; mkAccept gzip 1000; mkAccept (str "identity") 1] = Ok r /\
    r = Some (mkAccept gzip no_qvalue).
Proof.
  destruct (preferred_spec AcceptValue_eq av_qvalue [mkAccept (str "DEFLATE") 500; mkAccept (str "gzip") no_qvalue]
    [mkAccept (str "Deflate") 1000; mkAccept (str "gzip") 1000; mkAccept (str "identity") 1]) as (r & E & _); [done | reflexivity |].
  exists r. split; [exact E |]. vm_compute in E. injection E as <-. reflexivity.
Defined.

(** ** Orders *)

(** The order of versions by major and then by minor number. *)
Definition version_before (a b : Version) : Prop := major a < major b \/ (major a = major b /\ minor a < minor b).

(** [<=] and [>=] of versions are the lexicographic order. *)
Lemma version_le_spec a b : (Version_le a b = true <-> version_before a b \/ a = b) /\ Version_ge a b = Version_le b a.
Proof.
  destruct a as [m n], b as [m' n']. unfold version_before, Version_le, Version_ge. cbn. split; [| done].
  destruct (Z.ltb_spec m' m), (Z.ltb_spec m m'); try (split; [done | intros [[? | (? & ?)] | [=]]; lia]); [split; [by left; left | done] |].
  assert (m = m') as <- by lia. rewrite Z.leb_le. split; [| intros [[? | (_ & ?)] | [=]]; lia].
  intros Hle. destruct (decide (n = n')) as [-> | Hne]; [by right | left; right; lia].
Qed.

(** [<] of versions looks at the minor numbers even when the first major number is the greater one, so that it is not an order: it is wrong exactly
    when the major number is greater and the minor one smaller, and then each of the two versions is before the other. *)
Theorem version_lt_wrong a b :
  (Version_lt a b = true <-> version_before a b \/ (major b < major a /\ minor a < minor b)) /\
  Version_gt a b = Version_lt b a /\
  (major b < major a -> minor a < minor b -> Version_lt a b = true /\ Version_lt b a = true).
Proof.
  unfold version_before, Version_lt, Version_gt. split_and!; [| done |].
  - destruct (Z.ltb_spec (major a) (major b)); [split; [by left; left | done] |]. rewrite Z.ltb_lt. split; [| lia].
    intros Hm. destruct (decide (major a = major b)); [left; right; lia | right; lia].
  - intros H1 H2. rewrite (proj2 (Z.ltb_lt (major b) _)) by lia. by destruct (major a <? major b); rewrite ?(proj2 (Z.ltb_lt _ _)) by lia.
Qed.

Lemma version_lt_witness : Version_lt (mkVersion 2 0) (mkVersion 1 1) = true /\ Version_lt (mkVersion 1 1) (mkVersion 2 0) = true.
Proof. apply (version_lt_wrong (mkVersion 2 0) (mkVersion 1 1)); cbn; lia. Defined.

Lemma text_lt_irrefl a : text_lt a a = false.
Proof. induction a as [| x a IH]; [done |]. cbn. by rewrite Z.ltb_irrefl. Qed.

Lemma text_lt_trans a b c : text_lt a b = true -> text_lt b c = true -> text_lt a c = true.
Proof.
  revert b c. induction a as [| x a IH]; intros [| y b] [| z c]; try done. cbn.
  destruct (Z.ltb_spec x y); destruct (Z.ltb_spec y z); destruct (Z.ltb_spec x z); try done; try lia;
    destruct (Z.ltb_spec y x); destruct (Z.ltb_spec z y); destruct (Z.ltb_spec z x); try done; try lia. apply IH.
Qed.

Lemma text_lt_total a b : text_lt a b = false -> text_lt b a = false -> a = b.
Proof.
  revert b. induction a as [| x a IH]; intros [| y b]; try done. cbn.
  destruct (Z.ltb_spec x y); destruct (Z.ltb_spec y x); try done. intros H1 H2. f_equal; [lia | auto].
Qed.

(** The order of entity tags is a strict total order that agrees with their equality, as a set of them needs. *)
Theorem etag_order a b c :
  ETag_lt a a = false /\
  (ETag_lt a b = true -> ETag_lt b c = true -> ETag_lt a c = true) /\
  ((ETag_lt a b = false /\ ETag_lt b a = false) <-> ETag_eq a b = true) /\
  (ETag_eq a b = true <-> a = b).
Proof.
  destruct a as [wa ua va], b as [wb ub vb], c as [wc uc vc]. unfold ETag_lt, ETag_eq. cbn. split_and!.
  - destruct wa, ua; cbn; apply text_lt_irrefl.
  - destruct wa, ua, wb, ub, wc, uc; cbn; try done; apply text_lt_trans.
  - split.
    + destruct wa, ua, wb, ub; cbn; intros (H1 & H2); try done; by apply bool_decide_true, text_lt_total.
    + destruct wa, ua, wb, ub; cbn; try done; intros ->%bool_decide_eq_true; by rewrite text_lt_irrefl.
  - split.
    + destruct wa, ua, wb, ub; cbn; try done; by intros ->%bool_decide_eq_true.
    + intros [= <- <- <-]. destruct wa, ua; cbn; by apply bool_decide_true.
Qed.

Lemma etag_order_witness : ETag_lt (mkETag false false (str "a")) (mkETag true false (str "b")) = true.
Proof.
  destruct (etag_order (mkETag false false (str "a")) (mkETag false false (str "b")) (mkETag true false (str "b"))) as (_ & Ht & _).
  apply Ht; reflexivity.
Defined.
