(* ===== verification/Connection.v ===== *)
(** [http/connection.cpp]: which messages have a body, and the stack of streams through which a body is read or written; and the checks that
    [http/server.cpp] makes of the headers of a request. *)

From Stdlib Require Import String.
From stdpp Require Import numbers list_numbers list.
From S2P Require Import Prelude Stream StreamFilters StreamBuffered Chunked Notify Http.

Definition INVALID : Z := 0.
Definition STATUS_OK : Z := 200.
Definition HEAD : text := str "HEAD".
Definition TRACE : text := str "TRACE".

Definition hasMessageBody (general : GeneralHeaders) (entity : EntityHeaders) (method : text) (status : Z) (includeEmpty : bool) : bool :=
  if bool_decide (method = CONNECT) && ((status =? STATUS_OK) || (status =? INVALID)) then false
  else if (status =? INVALID) && bool_decide (method = TRACE) then false
  else if negb (status =? INVALID) && bool_decide (method = HEAD) then false
  else if ((100 <=? status) && (status <=? 199)) || (status =? 204) || (status =? 304) then false
  else if existsb (fun v => negb (same_text (vp_value v) (str "identity"))) (gh_transferEncoding general) then true
  else if en_contentLength entity =? 0 then includeEmpty
  else if negb (en_contentLength entity =? npos) then true
  else if bool_decide (mt_type (en_contentType entity) = str "multipart") then true
  else negb (status =? INVALID).

(** ** The streams of a body *)

Inductive layer := LChunked | LZlib | LGzip.

(** The filter for one transfer coding; the codings that are not supported are assertions. *)
Definition coding (v : ValueWithParameters) : result layer :=
  if same_text (vp_value v) (str "chunked") then Ok LChunked
  else if same_text (vp_value v) (str "deflate") then Ok LZlib
  else if same_text (vp_value v) (str "gzip") || same_text (vp_value v) (str "x-gzip") then Ok LGzip
  else Err Assertion.

(** The codings from the last to the first, each filter on top of the ones before. *)
Fixpoint codings (l : list ValueWithParameters) : result (list layer) :=
  match l with
  | [] => Ok []
  | v :: l => c ← coding v; cs ← codings l; Ok (c :: cs)
  end.

(** A body: chunked, of a given length, or delimited by itself or by the end of the connection, each with its notifications on top; stacks with
    a compression, which is done by a library, are known by their layers only. *)
Inductive body (P : Type) :=
| BodyChunked (s : NotifyStream (ChunkedStream (SingleplexStream P)))
| BodyLimited (s : NotifyStream (LimitedStream (SingleplexStream P)))
| BodyPlain (s : NotifyStream (SingleplexStream P))
| BodyCoded (base : SingleplexStream P) (layers : list layer).
Arguments BodyChunked {P} s. Arguments BodyLimited {P} s. Arguments BodyPlain {P} s. Arguments BodyCoded {P} base layers.

Section Connection.
Context {P : Type} `{!Stream P}.

(** The stream of the connection, which is buffered if it cannot take bytes back or look for a delimiter. *)
Definition Connection_new (stream : P) (bufferSize : Z) : result (P + BufferedStream P) :=
  assert: supportsRead stream ;;
  assert: supportsWrite stream ;;
  if negb (supportsUnread stream) || negb (supportsFind stream)
  then Ok (inr (snd (BufferedStream_allowPartialReads true (BufferedStream_new bufferSize stream true))))
  else Ok (inl stream).

(** [new NotifyStream(stream)] with its functions; [eof] and [exception] say whether they were given. *)
Definition with_notify {S} (s : S) (eof exception : bool) : NotifyStream S := mkFilter s true (mkNotify false eof exception eof []).

Definition getStream (m_stream : P) (general : GeneralHeaders) (entity : EntityHeaders) (method : text) (status : Z)
    (notifyOnEof notifyOnException forRead : bool) : result (body P) :=
  assert: hasMessageBody general entity method status true ;;
  base ← SingleplexStream_new m_stream (if forRead then ReadSide else WriteSide) false;
  layers ← codings (rev (gh_transferEncoding general));
  match layers with
  | [LChunked] => s ← ChunkedStream_new base true; Ok (BodyChunked (with_notify s notifyOnEof notifyOnException))
  | _ :: _ => Ok (BodyCoded base layers)
  | [] =>
      if negb (en_contentLength entity =? npos) then
        s ← LimitedStream_new base (s64 (en_contentLength entity)) true;
        Ok (BodyLimited (with_notify (snd (LimitedStream_strict true s)) notifyOnEof notifyOnException))
      else Ok (BodyPlain (with_notify base notifyOnEof notifyOnException))
  end.

(** ** Using a body *)

(** A method of the top stream; not for the stacks with compression. *)
Definition on_body {A} (m : forall S, Stream S -> op S A) : op (body P) A := fun b =>
  match b with
  | BodyChunked s => let '(r, s') := m _ _ s in (r, BodyChunked s')
  | BodyLimited s => let '(r, s') := m _ _ s in (r, BodyLimited s')
  | BodyPlain s => let '(r, s') := m _ _ s in (r, BodyPlain s')
  | BodyCoded _ _ => (Err Undefined, b)
  end.

(** The stream of the connection below. *)
Definition connection (b : body P) : P :=
  match b with
  | BodyChunked s => parent (parent (parent s))
  | BodyLimited s => parent (parent (parent s))
  | BodyPlain s => parent (parent s)
  | BodyCoded base _ => parent base
  end.

(** What was notified. *)
Definition notified (b : body P) : list notification :=
  match b with
  | BodyChunked s => n_log (own s)
  | BodyLimited s => n_log (own s)
  | BodyPlain s => n_log (own s)
  | BodyCoded _ _ => []
  end.

(** Sending a body in pieces, and ending it. *)
Fixpoint write_pieces (pieces : list text) (S : Type) (H : Stream S) : op S unit :=
  match pieces with
  | [] => close BOTH
  | p :: pieces => n ← write p; check (n =? zlen p) ≫= fun _ => write_pieces pieces S H
  end.

Definition write_body (pieces : list text) : op (body P) unit := on_body (write_pieces pieces).
Definition read_body (fuel : nat) (len : Z) : op (body P) text := on_body (fun S H => read_all fuel len).
End Connection.

(** ** The checks of a request *)

(** The request is taken, with whether the connection closes after it, or answered with an error, after which the connection may be closed. *)
Inductive verdict := Accepted (general : GeneralHeaders) (willClose : bool) | Rejected (status : Z) (closeConnection : bool).

(** [connection.find(name) != connection.end()] in a set of names without case. *)
Definition has_name (name : text) (l : list text) : bool := existsb (fun x => same_text x name) l.

(** The loop that erases [identity]: erasing the first coding steps the iterator before the beginning, which the language leaves undefined. *)
Fixpoint remove_identity (first : bool) (l : list ValueWithParameters) : result (list ValueWithParameters) :=
  match l with
  | [] => Ok []
  | v :: l =>
      if same_text (vp_value v) (str "identity") then if first then Err Undefined else remove_identity first l
      else l' ← remove_identity false l; Ok (v :: l')
  end.

Definition supported_coding (v : ValueWithParameters) : bool :=
  same_text (vp_value v) (str "deflate") || same_text (vp_value v) (str "gzip") || same_text (vp_value v) (str "x-gzip").

(** All codings but the last: the answer to the first that is refused. *)
Fixpoint check_codings (l : list ValueWithParameters) : option (Z * bool) :=
  match l with
  | [] | [_] => None
  | v :: l => if same_text (vp_value v) (str "chunked") then Some (400, true) else if supported_coding v then check_codings l else Some (501, false)
  end.

Definition check_transferEncoding (l : list ValueWithParameters) : option (Z * bool) :=
  match last l with
  | None => None
  | Some v =>
      if negb (same_text (vp_value v) (str "chunked")) then Some (400, true)
      else if negb (bool_decide (vp_parameters v = [])) then Some (501, true)
      else check_codings l
  end.

Fixpoint check_expect (hasBody : bool) (l : list KeyValueWithParameters) : option (Z * bool) :=
  match l with
  | [] => None
  | e :: l =>
      if same_text (kv_key e) (str "100-continue") then
        if negb (bool_decide (kv_value e = [])) || negb (bool_decide (kv_parameters e = [])) then Some (417, false)
        else if negb hasBody then Some (400, false)
        else check_expect hasBody l
      else Some (417, false)
  end.

Definition set_transferEncoding (l : list ValueWithParameters) (g : GeneralHeaders) : GeneralHeaders :=
  mkGeneral (gh_connection g) (gh_date g) (gh_proxyConnection g) l (gh_trailer g) (gh_upgrade g).
(** [StringSet::insert] *)
Fixpoint insert_name (name : text) (l : list text) : list text :=
  match l with
  | [] => [name]
  | x :: l' => if caseinsensitiveless x name then x :: insert_name name l' else if same_text x name then l else name :: l
  end.
Definition add_connection (name : text) (g : GeneralHeaders) : GeneralHeaders :=
  mkGeneral (insert_name name (gh_connection g)) (gh_date g) (gh_proxyConnection g) (gh_transferEncoding g) (gh_trailer g) (gh_upgrade g).

(** The part of [doRequest] from the version to the expectations. *)
Definition check_request (r : Request) : result verdict :=
  let ver := rl_ver (req_line r) in
  let g := req_general r in
  if negb (major ver =? 1) then Ok (Rejected 505 true)
  else
    let willClose := (Version_eq ver (mkVersion 1 0) && negb (has_name (str "Keep-Alive") (gh_connection g))) || has_name (str "close") (gh_connection g) in
    if Version_ge ver (mkVersion 1 1) && bool_decide (rq_host (req_request r) = []) then Ok (Rejected 400 true)
    else
      te ← remove_identity true (gh_transferEncoding g);
      match check_transferEncoding te with
      | Some (status, closing) => Ok (Rejected status closing)
      | None =>
          let g := set_transferEncoding te g in
          match check_expect (hasMessageBody g (req_entity r) (rl_method (req_line r)) INVALID false) (rq_expect (req_request r)) with
          | Some (status, closing) => Ok (Rejected status closing)
          | None => Ok (Accepted (if present (rq_te (req_request r)) then add_connection (str "TE") g else g) willClose)
          end
      end.
