(* ===== verification/ConnectionProps.v ===== *)
(** Bodies of messages: what the server lets through can be read, and what is written on one side arrives on the other. *)

From Stdlib Require Import String.
From stdpp Require Import numbers list_numbers list.
From S2P Require Import Prelude Stream StreamMemory StreamFilters StreamProps StreamBuffered BufferedProps Chunked ChunkedProps Notify Http Connection.

(** ** A side of the connection *)

Section SingleplexSource.
Context {P : Type} `{LineSource P}.

Definition single_ok (s : SingleplexStream P) : Prop := ls_ok (parent s) /\ own s = ReadSide.

Lemma on_side_ok {A} side (m : op P A) (s : SingleplexStream P) r p' : own s = side -> m (parent s) = (r, p') -> on_side side m s = (r, set_parent p' s).
Proof.
  intros Hs E. unfold on_side. rewrite (bind_ok _ _ s (own s) s) by done. rewrite (bind_ok (check _) _ s tt s).
  - by apply on_parent_ok.
  - unfold check, lift. by rewrite (bool_decide_true _ Hs).
Qed.

Lemma single_getDelimited delim e i (s : SingleplexStream P) : own s = ReadSide ->
  getDelimited delim e i s = (fst (getDelimited delim e i (parent s)), set_parent (snd (getDelimited delim e i (parent s))) s).
Proof.
  intros Hs. unfold getDelimited. unfold mbind at 1 4 7, op_bind at 1 4 7. cbn [find SingleplexStream_Stream].
  destruct (find delim npos (negb e) (parent s)) as [r p1] eqn:E1. rewrite (on_side_ok _ _ _ _ _ Hs E1). destruct r as [o |]; [| done].
  unfold mbind at 1 3 5, op_bind at 1 3 5. cbn [read SingleplexStream_Stream].
  set (n := _ + _). destruct (read n p1) as [r p2] eqn:E2. rewrite (on_side_ok ReadSide (read n) (set_parent p1 s) r p2 Hs E2). destruct r as [bs |]; [| done].
  unfold mbind, op_bind, check, lift. destruct (zlen bs =? n); done.
Qed.

#[global, refine] Instance SingleplexStream_LineSource : LineSource (SingleplexStream P) := {
  ls_ok := single_ok;
  ls_src := fun s => ls_src (parent s);
  ls_limit := fun s => ls_limit (parent s);
}.
Proof.
  - intros s n (Hp & Hs) Hn. destruct (ls_read (parent s) n Hp Hn) as (bs & p' & E & Hp' & Hl & He). exists bs, (set_parent p' s).
    split; [by apply on_side_ok |]. split; [done |]. done.
  - intros s delim line rest (Hp & Hs) E Hd Hl. destruct (ls_line (parent s) delim line rest Hp E Hd Hl) as (p' & Eg & Hp' & Hlim & Er).
    exists (set_parent p' s). rewrite single_getDelimited by done. rewrite Eg. done.
  - intros s delim (Hp & Hs) Hd Hl. destruct (ls_no_line (parent s) delim Hp Hd Hl) as (p' & Eg & Hp' & Hlim & Er).
    exists (set_parent p' s). rewrite single_getDelimited by done. rewrite Eg. done.
Defined.

(** Reading a strict stream of a given length, whose parent has at least that much. *)
Lemma limited_line_read n s : l_strict (own s) = true -> ls_ok (parent s) -> 0 <= l_pos (own s) <= l_size (own s) -> l_size (own s) < 2 ^ 62 ->
  l_size (own s) - l_pos (own s) <= zlen (ls_src (parent s)) -> 0 < n < 2 ^ 62 ->
  exists bs p', LimitedStream_read (P := P) n s = (Ok bs, mkFilter p' (ownsParent s) (set_pos (l_pos (own s) + zlen bs) (own s))) /\ ls_ok p' /\ ls_src (parent s) = bs ++ ls_src p' /\
    zlen bs <= l_size (own s) - l_pos (own s) /\ (bs = [] -> l_pos (own s) = l_size (own s)).
Proof.
  intros Hst Hp Hpos Hsize Hlen Hn. unfold LimitedStream_read. rewrite (bind_ok _ _ s (own s) s) by done.
  destruct (Z.leb_spec (l_size (own s)) (l_pos (own s))) as [Hle | Hlt].
  - exists [], (parent s). change (zlen []) with 0. rewrite Z.add_0_r. split; [| split_and!; auto; lia]. destruct s as [p o [a b c]]. done.
  - destruct (ls_read (parent s) (limit n (own s)) Hp) as (bs & p' & E & Hp' & Hl & Es & Hb & He); [rewrite limit_small; lia |].
    rewrite limit_small in Hb by lia. rewrite (bind_ok _ _ _ _ _ (on_parent_ok _ s _ _ E)).
    assert (Hne : (zlen bs =? 0) = false).
    { apply Z.eqb_neq. intros E0%zlen_zero_inv. rewrite He in Hlen by done. change (zlen []) with 0 in Hlen. lia. }
    rewrite Hne. cbn [andb]. exists bs, p'. split; [done |]. split_and!; auto; [lia |]. intros ->. by change (zlen [] =? 0) with true in Hne.
Qed.

Lemma limited_read_all fuel n s : l_strict (own s) = true -> ls_ok (parent s) -> 0 <= l_pos (own s) <= l_size (own s) -> l_size (own s) < 2 ^ 62 ->
  l_size (own s) - l_pos (own s) <= zlen (ls_src (parent s)) -> 0 < n < 2 ^ 62 -> l_size (own s) - l_pos (own s) < Z.of_nat fuel ->
  exists s', read_all (S := LimitedStream P) fuel n s = (Ok (ztake (l_size (own s) - l_pos (own s)) (ls_src (parent s))), s') /\
    ls_src (parent s') = zdrop (l_size (own s) - l_pos (own s)) (ls_src (parent s)).
Proof.
  revert s. induction fuel as [| fuel IH]; intros s Hst Hp Hpos Hsize Hlen Hn Hf; [lia |]. cbn [read_all].
  destruct (limited_line_read n s Hst Hp Hpos Hsize Hlen Hn) as (bs & p' & E & Hp' & Es & Hb & He).
  change (read n) with (LimitedStream_read (P := P) n). rewrite (bind_ok _ _ _ _ _ E). pose proof (zlen_nonneg bs) as Hnn. destruct (Z.eqb_spec (zlen bs) 0) as [E0 | E0].
  - apply zlen_zero_inv in E0 as ->. rewrite (He eq_refl), Z.sub_diag. eexists. split; [reflexivity |]. cbn. by rewrite Es.
  - destruct (IH (mkFilter p' (ownsParent s) (set_pos (l_pos (own s) + zlen bs) (own s)))) as (s' & E' & Er); cbn; auto; try lia.
    { rewrite Es, zlen_app in Hlen. lia. }
    rewrite (bind_ok _ _ _ _ _ E'). exists s'. cbn in Er |- *. unfold mret, op_ret. rewrite Es, ztake_app_ge, zdrop_app_ge by lia.
    replace (l_size (own s) - (l_pos (own s) + zlen bs)) with (l_size (own s) - l_pos (own s) - zlen bs) in * by lia. done.
Qed.
End SingleplexSource.

Section SingleplexSink.
Context {P : Type} `{WholeSink P}.

#[global, refine] Instance SingleplexStream_WholeSink : WholeSink (SingleplexStream P) := {
  ws_ok := fun s => ws_ok (parent s) /\ own s = WriteSide /\ ownsParent s = false;
  ws := fun s => ws (parent s);
}.
Proof.
  - intros s (_ & Hs & _). cbn. by apply bool_decide_true.
  - intros s bs (Hp & Hs & Ho) Hl. destruct (ws_write (parent s) bs Hp Hl) as (p' & E & Hp' & Ew). exists (set_parent p' s). split; [by apply on_side_ok |]. done.
Defined.

(** Closing a side that does not own the connection does nothing. *)
Lemma single_close type (s : SingleplexStream P) : ownsParent s = false -> close type s = (Ok tt, s).
Proof. intros Ho. cbn. unfold SingleplexStream_close. by rewrite Ho. Qed.
End SingleplexSink.

(** ** Writing a body *)

Lemma notify_pieces {S} {HS : Stream S} pieces (s : NotifyStream S) p' : ownsParent s = true -> write_pieces pieces S HS (parent s) = (Ok tt, p') ->
  exists d, write_pieces pieces (NotifyStream S) NotifyStream_Stream s = (Ok tt, mkFilter p' true d).
Proof.
  revert s p'. induction pieces as [| x pieces IH]; intros s p' Ho E; cbn [write_pieces] in *; [by apply notify_close_ok |].
  unfold mbind at 1, op_bind at 1 in E. destruct (write x (parent s)) as [[n |] p1] eqn:E1; [| discriminate E].
  change (write x) with (NotifyStream_write (P := S) x). rewrite (bind_ok _ _ _ _ _ (notify_write_ok x s n p1 E1)).
  unfold mbind, op_bind, check, lift, ASSERT in *. destruct (n =? zlen x); [| discriminate E].
  destruct (IH (set_parent p1 s) p' Ho E) as (d & E2). by exists d.
Qed.

Section WriteBody.
Context {P : Type} `{WholeSink P}.

Lemma chunked_pieces pieces (s : ChunkedStream P) : cwrite_ok s -> Forall (fun c => 0 < zlen c) pieces -> zlen (ws (parent s)) + zlen (enc pieces) < 2 ^ 62 ->
  exists s', write_pieces pieces _ _ s = (Ok tt, s') /\ ws (parent s') = ws (parent s) ++ enc pieces.
Proof.
  revert s. induction pieces as [| c pieces IH]; intros s Hok Hc Hl; [by apply (write_chunks_ok [] s) |].
  apply Forall_cons in Hc as (Hc & Hcs). cbn [write_pieces]. change (write c) with (ChunkedStream_write (P := P) c).
  replace (enc (c :: pieces)) with (enc_chunk c ++ enc pieces) in * by (unfold enc; cbn [fmap list_fmap concat]; by rewrite <- app_assoc).
  rewrite zlen_app in Hl. pose proof (zlen_nonneg (enc pieces)).
  destruct (chunked_write_ok s c Hok Hc) as (s1 & E1 & Hok1 & Ew1); [lia |]. rewrite (bind_ok _ _ _ _ _ E1).
  rewrite (bind_ok (check _) _ s1 tt s1) by (unfold check, lift; by rewrite Z.eqb_refl).
  destruct (IH s1 Hok1 Hcs) as (s2 & E2 & Ew2); [rewrite Ew1, zlen_app; lia |]. exists s2. split; [done |]. by rewrite Ew2, Ew1, <- app_assoc.
Qed.

(** A stream of a given length takes exactly that much. *)
Lemma limited_pieces pieces (s : LimitedStream P) :
  ws_ok (parent s) -> (forall p : P, ws_ok p -> close BOTH p = (Ok tt, p)) -> Forall (fun c => 0 < zlen c) pieces ->
  0 <= l_pos (own s) -> l_pos (own s) + zlen (concat pieces) = l_size (own s) -> l_size (own s) < 2 ^ 62 ->
  zlen (ws (parent s)) + zlen (concat pieces) < 2 ^ 62 ->
  exists s', write_pieces pieces _ _ s = (Ok tt, s') /\ ws (parent s') = ws (parent s) ++ concat pieces.
Proof.
  revert s. induction pieces as [| c pieces IH]; intros s Hok Hclose Hc Hpos Hsum Hsize Hl; cbn [write_pieces concat] in *.
  - exists s. rewrite app_nil_r. split; [| done]. cbn. unfold FilterStream_close. destruct (ownsParent s) eqn:Ho; [| done].
    rewrite (on_parent_ok _ s _ _ (Hclose _ Hok)). by destruct s.
  - apply Forall_cons in Hc as (Hc & Hcs). rewrite zlen_app in *. pose proof (zlen_nonneg (concat pieces)).
    change (write c) with (LimitedStream_write (P := P) c). unfold LimitedStream_write at 1.
    destruct (ws_write (parent s) c Hok) as (p' & E & Hok' & Ew); [lia |].
    assert (E' : LimitedStream_write c s = (Ok (zlen c), mkFilter p' (ownsParent s) (set_pos (l_pos (own s) + zlen c) (own s)))).
    { unfold LimitedStream_write. rewrite (bind_ok _ _ s (own s) s) by done. rewrite (proj2 (Z.leb_gt _ _)) by lia.
      rewrite limit_small by lia. rewrite ztake_all by lia. by rewrite (bind_ok _ _ _ _ _ (on_parent_ok _ s _ _ E)). }
    rewrite (bind_ok _ _ _ _ _ E'). rewrite (bind_ok (check _) _ _ tt (mkFilter p' (ownsParent s) (set_pos (l_pos (own s) + zlen c) (own s)))) by (unfold check, lift; by rewrite Z.eqb_refl).
    destruct (IH (mkFilter p' (ownsParent s) (set_pos (l_pos (own s) + zlen c) (own s)))) as (s2 & E2 & Ew2); cbn; auto; try lia.
    { rewrite Ew, zlen_app. lia. }
    exists s2. split; [done |]. rewrite Ew2. cbn. by rewrite Ew, <- app_assoc.
Qed.
End WriteBody.

(** ** Round trip *)

(** How the two sides agree on the end of the body: by the chunked coding, or by the length. *)
Definition framed (general : GeneralHeaders) (entity : EntityHeaders) (pieces : list text) (limit : Z) : Prop :=
  (codings (rev (gh_transferEncoding general)) = Ok [LChunked] /\ 18 <= limit) \/
  (gh_transferEncoding general = [] /\ en_contentLength entity = zlen (concat pieces)).

(** What is sent. *)
Definition on_wire (general : GeneralHeaders) (pieces : list text) : text :=
  match gh_transferEncoding general with [] => concat pieces | _ => enc pieces end.

Lemma enc_length pieces : zlen (concat pieces) <= zlen (enc pieces).
Proof.
  induction pieces as [| c pieces IH]; [done |].
  replace (enc (c :: pieces)) with (enc_chunk c ++ enc pieces) by (unfold enc; cbn [fmap list_fmap concat]; by rewrite <- app_assoc).
  cbn [concat]. unfold enc_chunk. rewrite !zlen_app.
  pose proof (zlen_nonneg (to_hex (zlen c))). pose proof (zlen_nonneg [CR; LF]). lia.
Qed.

Section OnBody.
Context {P : Type} `{!Stream P} {A : Type} (m : forall S, Stream S -> op S A).

Lemma on_chunked s r s' : m (NotifyStream (ChunkedStream (SingleplexStream P))) _ s = (r, s') -> on_body m (BodyChunked s) = (r, BodyChunked s').
Proof. intros E. unfold on_body. by rewrite E. Qed.
Lemma on_limited s r s' : m (NotifyStream (LimitedStream (SingleplexStream P))) _ s = (r, s') -> on_body m (BodyLimited s) = (r, BodyLimited s').
Proof. intros E. unfold on_body. by rewrite E. Qed.
End OnBody.

Section BodyRoundtrip.
Context {W R : Type} `{WholeSink W} `{LineSource R}.
Context (general : GeneralHeaders) (entity : EntityHeaders) (method : text) (status : Z) (pieces : list text).
Context (Hbody : hasMessageBody general entity method status true = true).
Context (Hpieces : Forall (fun c => 0 < zlen c < 2 ^ 62) pieces).

Lemma send_body limit (w : W) : framed general entity pieces limit -> ws_ok w -> zlen (ws w) + zlen (enc pieces) < 2 ^ 62 ->
  exists b b', getStream w general entity method status true true false = Ok b /\ write_body pieces b = (Ok tt, b') /\
    ws (connection b') = ws w ++ on_wire general pieces.
Proof.
  intros Hf Hw Hl. assert (Hp : Forall (fun c => 0 < zlen c) pieces) by (eapply Forall_impl; [exact Hpieces |]; cbn; intros; lia).
  set (base := mkFilter w false WriteSide : SingleplexStream W).
  assert (Hb : ws_ok base) by (cbn; auto). assert (Hcl : forall p : SingleplexStream W, ws_ok p -> close BOTH p = (Ok tt, p)) by (intros p (_ & _ & Ho); by apply single_close).
  unfold getStream, SingleplexStream_new. rewrite Hbody. cbn [ASSERT mbind result_bind]. rewrite (ws_supports w Hw). cbn [ASSERT mbind result_bind].
  pose proof (enc_length pieces). pose proof (zlen_nonneg (concat pieces)). pose proof (zlen_nonneg (ws w)).
  destruct Hf as [(Hc & _) | (Hte & Hlen)].
  - rewrite Hc. cbn [mbind result_bind]. unfold ChunkedStream_new. cbn [supportsRead SingleplexStream_Stream]. rewrite bool_decide_false by done. cbn [ASSERT mbind result_bind].
    destruct (chunked_pieces pieces (mkFilter base true need_header)) as (s' & E & Ew); [by split | done | done |].
    destruct (notify_pieces pieces (with_notify (mkFilter base true need_header) true true) s' eq_refl E) as (d & E').
    eexists _, _. split; [reflexivity |]. split; [exact (on_chunked (write_pieces pieces) _ _ _ E') |]. cbn. unfold on_wire.
    destruct (gh_transferEncoding general); [discriminate Hc | exact Ew].
  - rewrite Hte. cbn [rev codings mbind result_bind]. unfold npos. rewrite (proj2 (Z.eqb_neq _ _)) by lia. cbn [negb].
    unfold LimitedStream_new. rewrite s64_small by lia. rewrite (proj2 (Z.leb_le _ _)) by lia. cbn [ASSERT mbind result_bind].
    destruct (limited_pieces pieces (mkFilter base true (mkLimited 0 (zlen (concat pieces)) true)) Hb Hcl Hp) as (s' & E & Ew); cbn; try lia.
    destruct (notify_pieces pieces (with_notify (mkFilter base true (mkLimited 0 (zlen (concat pieces)) true)) true true) s' eq_refl E) as (d & E').
    rewrite Hlen. eexists _, _. split; [reflexivity |]. split; [exact (on_limited (write_pieces pieces) _ _ _ E') |]. cbn. unfold on_wire. by rewrite Hte.
Qed.

Lemma receive_body (r : R) rest len fuel : framed general entity pieces (ls_limit r) -> ls_ok r -> supportsRead r = true -> supportsFind r = true ->
  zlen (enc pieces) < 2 ^ 62 -> 0 < len < 2 ^ 62 -> (length (concat pieces) < fuel)%nat -> ls_src r = on_wire general pieces ++ rest ->
  exists b b', getStream r general entity method status true true true = Ok b /\ read_body fuel len b = (Ok (concat pieces), b') /\
    ls_src (connection b') = rest /\ notified b' = [OnEof].
Proof.
  intros Hf Hr Hsr Hsf Hl Hlen Hfuel Hsrc. set (base := mkFilter r false ReadSide : SingleplexStream R).
  assert (Hb : ls_ok base) by (by split). pose proof (enc_length pieces). pose proof (zlen_nonneg (concat pieces)).
  unfold getStream, SingleplexStream_new. rewrite Hbody. cbn [ASSERT mbind result_bind]. rewrite Hsr. cbn [ASSERT mbind result_bind]. unfold on_wire in Hsrc.
  destruct Hf as [(Hc & Hlim) | (Hte & Hcl)].
  - rewrite Hc. cbn [mbind result_bind]. unfold ChunkedStream_new. cbn [supportsRead supportsFind SingleplexStream_Stream own parent]. rewrite bool_decide_true by done.
    cbn [andb]. rewrite Hsf. cbn [ASSERT mbind result_bind].
    destruct (chunked_read_all_ok fuel (mkFilter base true need_header) (concat pieces) rest len) as (s' & E & _ & Er); [| done | done |].
    { split; [exact Hb |]. cbn. rewrite Hsrc. destruct (gh_transferEncoding general); [discriminate Hc |]. by apply enc_wire. }
    destruct (notify_read_all fuel len (with_notify (mkFilter base true need_header) true true) _ _ E) as (d & E' & Hd).
    eexists _, _. split; [reflexivity |]. split; [exact (on_chunked (fun S _ => read_all fuel len) _ _ _ E') |]. cbn. split; [exact Er | exact Hd].
  - rewrite Hte in *. cbn [rev codings mbind result_bind]. unfold npos. rewrite (proj2 (Z.eqb_neq _ _)) by lia. cbn [negb].
    unfold LimitedStream_new. rewrite s64_small by lia. rewrite (proj2 (Z.leb_le _ _)) by lia. cbn [ASSERT mbind result_bind]. rewrite Hcl.
    destruct (limited_read_all fuel len (mkFilter base true (mkLimited 0 (zlen (concat pieces)) true))) as (s' & E & Er); cbn; auto; try lia.
    { rewrite Hsrc, zlen_app. pose proof (zlen_nonneg rest). lia. }
    { unfold zlen. lia. }
    cbn in E, Er. rewrite Z.sub_0_r, Hsrc in *. rewrite ztake_app_le, ztake_all in E by lia. rewrite zdrop_app_ge, Z.sub_diag in Er by lia. rewrite zdrop_0 in Er.
    destruct (notify_read_all fuel len (with_notify (mkFilter base true (mkLimited 0 (zlen (concat pieces)) true)) true true) _ _ E) as (d & E' & Hd).
    eexists _, _. split; [reflexivity |]. split; [exact (on_limited (fun S _ => read_all fuel len) _ _ _ E') |]. cbn. split; [exact Er | exact Hd].
Qed.
End BodyRoundtrip.

(** C7 -- A body that one side writes in pieces through the stream that [getStream] builds from the headers, and then closes, is read by the other side through
    the stream that [getStream] builds from the same headers: the same bytes, then the end, announced once, with the bytes of the next message
    on the connection untouched; whether the end of the body is told by the chunked coding or by the content length. *)
Theorem body_roundtrip {W R} `{WholeSink W} `{LineSource R} general entity method status pieces (w : W) (r : R) rest len fuel :
  hasMessageBody general entity method status true = true -> framed general entity pieces (ls_limit r) ->
  Forall (fun c => 0 < zlen c < 2 ^ 62) pieces -> ws_ok w -> zlen (ws w) + zlen (enc pieces) < 2 ^ 62 ->
  ls_ok r -> supportsRead r = true -> supportsFind r = true -> 0 < len < 2 ^ 62 -> (length (concat pieces) < fuel)%nat ->
  exists b b' sent, getStream w general entity method status true true false = Ok b /\ write_body pieces b = (Ok tt, b') /\
    ws (connection b') = ws w ++ sent /\
    (ls_src r = sent ++ rest ->
     exists c c', getStream r general entity method status true true true = Ok c /\ read_body fuel len c = (Ok (concat pieces), c') /\
       ls_src (connection c') = rest /\ notified c' = [OnEof]).
Proof.
  intros Hbody Hf Hp Hw Hl Hr Hsr Hsf Hlen Hfuel. pose proof (zlen_nonneg (ws w)).
  destruct (send_body general entity method status pieces Hbody Hp (ls_limit r) w Hf Hw Hl) as (b & b' & E1 & E2 & E3).
  exists b, b', (on_wire general pieces). split_and!; auto. intros Hs. apply (receive_body general entity method status pieces Hbody Hp r rest len fuel); auto. lia.
Qed.

Definition no_general : GeneralHeaders := mkGeneral [] None [] [] [] [].
Definition with_chunked : GeneralHeaders := set_transferEncoding [mkValue (str "chunked") []] no_general.
Definition no_entity (contentLength : Z) : EntityHeaders := mkEntity [] [] contentLength [] (mkRange npos npos npos) (mkMedia [] [] []) None None [].

Lemma body_roundtrip_witness :
  exists (b : body MemoryStream) b' c c', getStream (MemoryStream_of []) with_chunked (no_entity npos) (str "PUT") INVALID true true false = Ok b /\
    write_body [[104]; [105; 106]] b = (Ok tt, b') /\
    getStream (BufferedStream_new 18 (MemoryStream_of (enc [[104]; [105; 106]] ++ [33])) true) with_chunked (no_entity npos) (str "PUT") INVALID true true true = Ok c /\
    read_body 4 2 c = (Ok [104; 105; 106], c') /\ ls_src (connection c') = [33].
Proof.
  destruct (body_roundtrip with_chunked (no_entity npos) (str "PUT") INVALID [[104]; [105; 106]] (MemoryStream_of [])
    (BufferedStream_new 18 (MemoryStream_of (enc [[104]; [105; 106]] ++ [33])) true) [33] 2 4) as (b & b' & sent & Eb & Ew & Es & R);
    [done | left; split; [reflexivity | vm_compute; discriminate] | repeat (apply Forall_cons; split); try apply Forall_nil; vm_compute; done | repeat split; done | reflexivity | repeat split; done | done | done | lia | cbn; lia |].
  vm_compute in Eb. injection Eb as <-. vm_compute in Ew. injection Ew as <-. vm_compute in Es. subst sent. destruct R as (c & c' & Ec & Er & Ers & _); [reflexivity |].
  eexists _, _, c, c'. split; [vm_compute; reflexivity |]. split; [vm_compute; reflexivity |]. split_and!; [exact Ec | exact Er | exact Ers].
Defined.

(** ** The codings that a request may have *)

Lemma check_codings_none pre v : check_codings (pre ++ [v]) = None ->
  Forall (fun x => same_text (vp_value x) (str "chunked") = false /\ supported_coding x = true) pre.
Proof.
  induction pre as [| x pre IH]; cbn [app check_codings]; [done |]. destruct (pre ++ [v]) as [| y l] eqn:E; [by destruct pre |]. rewrite <- E in *.
  destruct (same_text (vp_value x) (str "chunked")) eqn:Ec; [done |]. destruct (supported_coding x) eqn:Es; [| done]. intros Hn. constructor; auto.
Qed.

Lemma codings_supported l : Forall (fun x => same_text (vp_value x) (str "chunked") = false /\ supported_coding x = true) l ->
  exists ls, codings l = Ok ls /\ length ls = length l /\ LChunked ∉ ls.
Proof.
  induction 1 as [| x l (Hc & Hs) _ (ls & E & El & Hn)]; [exists []; split_and!; [done | done | apply not_elem_of_nil] |].
  cbn [codings]. unfold coding. rewrite Hc. unfold supported_coding in Hs.
  destruct (same_text (vp_value x) (str "deflate")); [| destruct (same_text (vp_value x) (str "gzip") || same_text (vp_value x) (str "x-gzip")) eqn:Eg; [| by rewrite <- orb_assoc, Eg in Hs]];
    cbn [mbind result_bind]; rewrite E; eexists; split; try reflexivity; cbn [length]; rewrite El, not_elem_of_cons; done.
Qed.

Lemma checked_codings l : check_transferEncoding l = None ->
  l = [] \/ exists pre v ls, l = pre ++ [v] /\ same_text (vp_value v) (str "chunked") = true /\ codings (rev l) = Ok (LChunked :: ls) /\ length ls = length pre /\ LChunked ∉ ls.
Proof.
  unfold check_transferEncoding. destruct l as [| v pre] using rev_ind; [by left |]. right. rewrite last_snoc in H.
  destruct (same_text (vp_value v) (str "chunked")) eqn:Ec; [| done]. cbn [negb] in H. destruct (bool_decide (vp_parameters v = [])); [| done]. cbn [negb] in H.
  destruct (codings_supported (rev pre)) as (ls & E & El & Hn); [rewrite rev_alt; apply (Forall_reverse _ pre); by apply check_codings_none with v |].
  exists pre, v, ls. split_and!; auto; [| by rewrite El, length_rev]. rewrite rev_app_distr. cbn [rev app codings]. unfold coding at 1. rewrite Ec. cbn [mbind result_bind]. by rewrite E.
Qed.

Lemma check_request_accepted r g willClose : check_request r = Ok (Accepted g willClose) -> check_transferEncoding (gh_transferEncoding g) = None.
Proof.
  unfold check_request. destruct (negb _); [done |]. destruct (_ && _); [done |]. destruct (remove_identity _ _) as [te |]; [| done]. cbn [mbind result_bind].
  destruct (check_transferEncoding te) as [[] |] eqn:Et; [done |]. destruct (check_expect _ _) as [[] |]; [done |]. intros [= <- _]. by destruct (present _).
Qed.

(** The checks that the server makes of a request are enough for its body: the stream of the body of every accepted request can be built (no transfer coding
    reaches an assertion), when its content length fits in [long long]; and the end of the body can always be told: the coding that is decoded first is [chunked], once,
    or the body has the content length of the request, or it is a multipart body, never one that ends with the connection. *)
Theorem accepted_body {P} `{!Stream P} (conn : P) r g willClose eof exception :
  check_request r = Ok (Accepted g willClose) -> hasMessageBody g (req_entity r) (rl_method (req_line r)) INVALID true = true ->
  supportsRead conn = true -> supportsFind conn = true -> 0 <= en_contentLength (req_entity r) < 2 ^ 63 \/ en_contentLength (req_entity r) = npos ->
  exists b, getStream conn g (req_entity r) (rl_method (req_line r)) INVALID eof exception true = Ok b /\
    match b with
    | BodyChunked _ => exists v, gh_transferEncoding g = [v] /\ same_text (vp_value v) (str "chunked") = true
    | BodyCoded _ layers => exists ls, layers = LChunked :: ls /\ ls <> [] /\ LChunked ∉ ls
    | BodyLimited s => gh_transferEncoding g = [] /\ l_size (own (parent s)) = en_contentLength (req_entity r)
    | BodyPlain _ => gh_transferEncoding g = [] /\ mt_type (en_contentType (req_entity r)) = str "multipart"
    end.
Proof.
  intros Hr Hb Hsr Hsf Hl. unfold getStream, SingleplexStream_new. rewrite Hb, Hsr. cbn [ASSERT mbind result_bind].
  destruct (checked_codings _ (check_request_accepted _ _ _ Hr)) as [Ht | (pre & v & ls & Et & Hv & Ec & El & Hn)].
  - rewrite Ht. cbn [rev codings mbind result_bind]. destruct (Z.eqb_spec (en_contentLength (req_entity r)) npos) as [En | En]; cbn [negb].
    + eexists. split; [reflexivity |]. split; [done |]. revert Hb. unfold hasMessageBody. rewrite Ht, En. cbn [existsb].
      destruct (bool_decide (mt_type _ = _)) eqn:Em; [by apply bool_decide_eq_true in Em |]. by repeat (destruct (_ && _)).
    + destruct Hl as [Hl | Hl]; [| done]. unfold LimitedStream_new. rewrite s64_small by lia. rewrite (proj2 (Z.leb_le _ _)) by lia. cbn [ASSERT mbind result_bind].
      eexists. split; [reflexivity |]. done.
  - rewrite Ec. cbn [mbind result_bind]. destruct ls as [| y ls].
    + unfold ChunkedStream_new. cbn. rewrite Hsf. eexists. split; [reflexivity |]. destruct pre; [| done]. by exists v.
    + eexists. split; [reflexivity |]. by exists (y :: ls).
Qed.

(** A content length that does not fit in [long long] passes the checks of a request, and then an assertion of [LimitedStream] fails. *)
Lemma long_body_asserts {P} `{!Stream P} (conn : P) r g willClose eof exception :
  check_request r = Ok (Accepted g willClose) -> hasMessageBody g (req_entity r) (rl_method (req_line r)) INVALID true = true -> gh_transferEncoding g = [] ->
  supportsRead conn = true -> 2 ^ 63 <= en_contentLength (req_entity r) < npos ->
  getStream conn g (req_entity r) (rl_method (req_line r)) INVALID eof exception true = Err Assertion.
Proof.
  intros _ Hb Ht Hsr Hl. unfold getStream, SingleplexStream_new. rewrite Hb, Hsr, Ht. cbn [rev codings ASSERT mbind result_bind].
  rewrite (proj2 (Z.eqb_neq _ _)) by lia. cbn [negb]. unfold LimitedStream_new. rewrite (proj2 (Z.leb_gt _ _)); [done |].
  unfold npos in Hl. unfold s64, signed. rewrite Z.mod_small by lia. rewrite (proj2 (Z.ltb_ge _ _)); lia.
Qed.

Definition no_uri : URI := mkURI [] [] false false false false [].
Definition no_request (host : text) : RequestHeaders :=
  mkRequestHeaders [] [] (mkAuth [] [] []) [] host [] None [] (inr None) None (mkAuth [] [] []) [] no_uri [] [].
Definition put_request : Request :=
  mkRequest (mkRequestLine (str "PUT") no_uri (mkVersion 1 1)) (set_transferEncoding [mkValue (str "gzip") []; mkValue (str "chunked") []] no_general)
    (no_request (str "example")) (no_entity npos).

Lemma accepted_body_witness :
  exists b, getStream (MemoryStream_of [1]) (req_general put_request) (req_entity put_request) (str "PUT") INVALID true true true = Ok b /\
    match b with BodyCoded _ layers => LChunked :: [LGzip] = layers | _ => False end.
Proof.
  destruct (accepted_body (MemoryStream_of [1]) put_request (req_general put_request) false true true) as (b & E & _);
    [vm_compute; reflexivity | reflexivity | reflexivity | reflexivity | by right |].
  exists b. split; [exact E |]. vm_compute in E. by injection E as <-.
Defined.
