(* ===== verification/Server.v ===== *)
(** [http/server.h] and [http/server.cpp]: the requests of a connection that are in progress, and the order of their responses.  Each function is a critical section
    under [m_mutex]; scheduling a fiber and calls of the stream are events.  A request is its number, [~0ull] of [m_priorRequestFailed] and the like is [None],
    and the counter of requests is taken not to wrap around. *)

From Stdlib Require Import String.
From stdpp Require Import functions numbers list_numbers list.
From S2P Require Import Prelude.

#[local] Open Scope nat_scope.

(** [ServerRequest::State], in this order. *)
Inductive ServerState := PENDING | WAITING | HEADERS | BODY | COMPLETE | ERROR.

#[global] Instance ServerState_eq_dec : EqDecision ServerState.
Proof. solve_decision. Defined.

(** [state >= COMPLETE] and [state >= HEADERS] *)
Definition completed (s : ServerState) : bool := match s with COMPLETE | ERROR => true | _ => false end.
Definition state_committed (s : ServerState) : bool := match s with PENDING | WAITING => false | _ => true end.

Record ServerRequest := mkServerRequest {
  m_requestState : ServerState;
  m_responseState : ServerState;
  m_willClose : bool;
  m_pipeline : bool;
}.

Definition ServerRequest_new : ServerRequest := mkServerRequest HEADERS PENDING false false.

(** A fiber that reads the next request, or one that waits for its turn to respond, is scheduled; the stream is closed for reading; what
    waits on the stream is cancelled. *)
Inductive event := DoRequest (n : nat) | ResumeFiber (n : nat) | CloseRead | CancelStream.

Record ServerConnection := mkConnection {
  m_requests : nat -> ServerRequest;
  m_pendingRequests : list nat;
  m_waitingResponses : list nat;
  m_requestCount : nat;
  m_priorRequestFailed : option nat;
  m_priorRequestClosed : option nat;
  m_priorResponseClosed : option nat;
  m_events : list event;
}.

Definition ServerConnection_new : ServerConnection := mkConnection (fun _ => ServerRequest_new) [] [] 0 None None None [].

Definition set_request (n : nat) (f : ServerRequest -> ServerRequest) (c : ServerConnection) : ServerConnection :=
  mkConnection (<[n := f (m_requests c n)]> (m_requests c)) (m_pendingRequests c) (m_waitingResponses c) (m_requestCount c)
    (m_priorRequestFailed c) (m_priorRequestClosed c) (m_priorResponseClosed c) (m_events c).
Definition set_pending (l : list nat) (c : ServerConnection) : ServerConnection :=
  mkConnection (m_requests c) l (m_waitingResponses c) (m_requestCount c)
    (m_priorRequestFailed c) (m_priorRequestClosed c) (m_priorResponseClosed c) (m_events c).
Definition set_waiting (l : list nat) (c : ServerConnection) : ServerConnection :=
  mkConnection (m_requests c) (m_pendingRequests c) l (m_requestCount c)
    (m_priorRequestFailed c) (m_priorRequestClosed c) (m_priorResponseClosed c) (m_events c).
Definition set_failed (o : option nat) (c : ServerConnection) : ServerConnection :=
  mkConnection (m_requests c) (m_pendingRequests c) (m_waitingResponses c) (m_requestCount c)
    o (m_priorRequestClosed c) (m_priorResponseClosed c) (m_events c).
Definition set_requestClosed (o : option nat) (c : ServerConnection) : ServerConnection :=
  mkConnection (m_requests c) (m_pendingRequests c) (m_waitingResponses c) (m_requestCount c)
    (m_priorRequestFailed c) o (m_priorResponseClosed c) (m_events c).
Definition set_responseClosed (o : option nat) (c : ServerConnection) : ServerConnection :=
  mkConnection (m_requests c) (m_pendingRequests c) (m_waitingResponses c) (m_requestCount c)
    (m_priorRequestFailed c) (m_priorRequestClosed c) o (m_events c).
Definition raise (l : list event) (c : ServerConnection) : ServerConnection :=
  mkConnection (m_requests c) (m_pendingRequests c) (m_waitingResponses c) (m_requestCount c)
    (m_priorRequestFailed c) (m_priorRequestClosed c) (m_priorResponseClosed c) (m_events c ++ l).
Definition add_request (c : ServerConnection) : ServerConnection :=
  let n := S (m_requestCount c) in
  mkConnection (<[n := ServerRequest_new]> (m_requests c)) (m_pendingRequests c ++ [n]) (m_waitingResponses c) n
    (m_priorRequestFailed c) (m_priorRequestClosed c) (m_priorResponseClosed c) (m_events c ++ [DoRequest n]).

Definition set_requestState (s : ServerState) (r : ServerRequest) : ServerRequest := mkServerRequest s (m_responseState r) (m_willClose r) (m_pipeline r).
Definition set_responseState (s : ServerState) (r : ServerRequest) : ServerRequest := mkServerRequest (m_requestState r) s (m_willClose r) (m_pipeline r).
Definition set_willClose (b : bool) (r : ServerRequest) : ServerRequest := mkServerRequest (m_requestState r) (m_responseState r) b (m_pipeline r).
Definition set_pipeline (b : bool) (r : ServerRequest) : ServerRequest := mkServerRequest (m_requestState r) (m_responseState r) (m_willClose r) b.

(** [std::min] and [<] where [~0ull] is [None] *)
Definition min_number (a : option nat) (n : nat) : nat := match a with Some k => Nat.min k n | None => n end.
Definition number_before (a : option nat) (n : nat) : bool := match a with Some k => k <? n | None => false end.
Definition number_upto (a : option nat) (n : nat) : bool := match a with Some k => k <=? n | None => false end.

Definition mem (n : nat) (l : list nat) : bool := bool_decide (n ∈ l).
Definition erase (n : nat) (l : list nat) : list nat := filter (fun x => x <> n) l.

(** ** ServerConnection *)

Fixpoint invariant_loop (seenResponseNotDone : bool) (reqs : nat -> ServerRequest) (l : list nat) : result unit :=
  match l with
  | [] => Ok tt
  | n :: l =>
      let request := reqs n in
      assert: negb (completed (m_requestState request)) || negb (completed (m_responseState request)) ;;
      assert: negb seenResponseNotDone || negb (completed (m_responseState request)) ;;
      if negb (completed (m_requestState request)) then assert: bool_decide (l = []) ;; Ok tt
      else invariant_loop (seenResponseNotDone || negb (completed (m_responseState request))) reqs l
  end.

Definition invariant (c : ServerConnection) : result unit :=
  invariant_loop false (m_requests c) (m_pendingRequests c) ≫= fun _ =>
  assert: forallb (fun n => bool_decide (m_responseState (m_requests c n) = WAITING)) (m_waitingResponses c) ;;
  Ok tt.

Definition scheduleNextRequest (request : option nat) (c : ServerConnection) : result ServerConnection :=
  assert: bool_decide (is_Some request) || (m_requestCount c =? 0) ;;
  Ok (if (m_requestCount c =? 0) ||
         match request with
         | Some n => (n =? m_requestCount c) && bool_decide (m_requestState (m_requests c n) = COMPLETE) &&
             bool_decide (m_priorRequestFailed c = None) && bool_decide (m_priorRequestClosed c = None) && bool_decide (m_priorResponseClosed c = None)
         | None => false
         end
      then add_request c else c).

Definition processRequests (c : ServerConnection) : result ServerConnection :=
  invariant c ≫= fun _ => scheduleNextRequest None c.

(** [m_pendingRequests.pop_front()] *)
Definition pop_front (c : ServerConnection) : ServerConnection := set_pending (tail (m_pendingRequests c)) c.

Definition front_is (n : nat) (c : ServerConnection) : bool := bool_decide (head (m_pendingRequests c) = Some n).

(** [halfClose] is [m_stream->supportsHalfClose()]. *)
Definition requestComplete (halfClose : bool) (n : nat) (c : ServerConnection) : result ServerConnection :=
  invariant c ≫= fun _ =>
  assert: bool_decide (last (m_pendingRequests c) = Some n) ;;
  assert: bool_decide (m_requestState (m_requests c n) = HEADERS) || bool_decide (m_requestState (m_requests c n) = BODY) ;;
  let c := set_request n (set_requestState COMPLETE) c in
  let close := m_willClose (m_requests c n) in
  c ← (if completed (m_responseState (m_requests c n)) then
         assert: front_is n c ;;
         let c := pop_front c in
         if negb close then scheduleNextRequest (Some n) c else Ok c
       else Ok c);
  if negb close then if m_pipeline (m_requests c n) then scheduleNextRequest (Some n) c else Ok c
  else Ok (raise (if halfClose then [CloseRead] else []) (set_requestClosed (Some n) c)).

(** The turn to respond goes to the request [n], which waits for it. *)
Definition hand_over (n : nat) (c : ServerConnection) : ServerConnection :=
  raise [ResumeFiber n] (set_waiting (erase n (m_waitingResponses c)) (set_request n (set_responseState HEADERS) c)).

(** The first critical section of [responseComplete], after the response was flushed; whether it returns there. *)
Definition responseComplete1 (n : nat) (c : ServerConnection) : result (bool * ServerConnection) :=
  invariant c ≫= fun _ =>
  assert: front_is n c ;;
  match nth_error (m_pendingRequests c) 1 with
  | Some next =>
      if mem next (m_waitingResponses c) then
        let c := set_request n (set_responseState COMPLETE) c in
        c ← (if completed (m_requestState (m_requests c n)) then scheduleNextRequest (Some n) (pop_front c) else Ok c);
        Ok (true, hand_over next c)
      else Ok (false, if m_willClose (m_requests c n) then set_responseClosed (Some n) c else c)
  | None =>
      c ← (if completed (m_requestState (m_requests c n)) then scheduleNextRequest (Some n) c else Ok c);
      Ok (false, if m_willClose (m_requests c n) then set_responseClosed (Some n) c else c)
  end.

(** The second critical section of [responseComplete]. *)
Definition responseComplete2 (n : nat) (c : ServerConnection) : result ServerConnection :=
  invariant c ≫= fun _ =>
  assert: front_is n c ;;
  let c := set_request n (set_responseState COMPLETE) c in
  let c := if completed (m_requestState (m_requests c n)) then pop_front c else c in
  match head (m_pendingRequests c) with
  | Some next => Ok (if mem next (m_waitingResponses c) then hand_over next c else c)
  | None => Ok c
  end.

(** The loop erases the requests that wait from a list that is circular, as in the usual implementations of [std::list], so that the step back from the first
    element and forward again is the new first element. *)
Definition scheduleAllWaitingResponses (c : ServerConnection) : result ServerConnection :=
  match m_priorRequestFailed c, m_priorResponseClosed c with
  | None, None => Err Assertion
  | failed, closed =>
      let firstFailedRequest := match failed, closed with Some a, Some b => Nat.min a b | Some a, None => a | None, Some b => b | None, None => 0 end in
      let goes n := firstFailedRequest <= n /\ n ∈ m_waitingResponses c in
      let woken := filter goes (m_pendingRequests c) in
      Ok (raise (ResumeFiber <$> woken)
            (set_waiting (filter (fun n => n ∉ woken) (m_waitingResponses c))
              (set_pending (filter (fun n => ~ goes n) (m_pendingRequests c)) c)))
  end.

(** ** ServerRequest *)

Definition processNextRequest (n : nat) (c : ServerConnection) : result ServerConnection :=
  let c := set_request n (set_pipeline true) c in
  invariant c ≫= fun _ => scheduleNextRequest (Some n) c.

Definition cancel (n : nat) (c : ServerConnection) : result ServerConnection :=
  let request := m_requests c n in
  if completed (m_requestState request) && completed (m_responseState request) then Ok c
  else
    invariant c ≫= fun _ =>
    let c := if negb (completed (m_requestState request)) then set_request n (set_requestState ERROR) c else c in
    let c := if negb (completed (m_responseState request)) then set_request n (set_responseState ERROR) c else c in
    let c := raise [CancelStream] c in
    let c := set_failed (Some (min_number (m_priorRequestFailed c) n)) c in
    let c := set_pending (erase n (m_pendingRequests c)) c in
    scheduleAllWaitingResponses c.

(** What [commit] comes to: the request responds, waits for its turn, or cannot respond any more. *)
Inductive commit_outcome := Responds | Waits | PriorRequestFailed | ConnectionVoluntarilyClosed.

(** [m_willClose] closes the connection after this response. *)
Definition announce_close (n : nat) (c : ServerConnection) : result ServerConnection :=
  if m_willClose (m_requests c n) then scheduleAllWaitingResponses (set_responseClosed (Some n) c) else Ok c.

(** The first critical section of [commit]. *)
Definition commit_enter (n : nat) (c : ServerConnection) : result (commit_outcome * ServerConnection) :=
  invariant c ≫= fun _ =>
  if number_before (m_priorRequestFailed c) n || number_before (m_priorResponseClosed c) n then
    assert: mem n (m_pendingRequests c) ;;
    Ok (if number_before (m_priorRequestFailed c) n then PriorRequestFailed else ConnectionVoluntarilyClosed, set_pending (erase n (m_pendingRequests c)) c)
  else
    assert: negb (bool_decide (m_pendingRequests c = [])) ;;
    if negb (front_is n c) then
      let c := set_request n (set_responseState WAITING) c in
      assert: negb (mem n (m_waitingResponses c)) ;;
      Ok (Waits, set_waiting (m_waitingResponses c ++ [n]) c)
    else
      c ← announce_close n (set_request n (set_responseState HEADERS) c);
      Ok (Responds, c).

(** The critical section after a request that waited was scheduled. *)
Definition commit_resumed (n : nat) (c : ServerConnection) : result (commit_outcome * ServerConnection) :=
  invariant c ≫= fun _ =>
  if number_upto (m_priorRequestFailed c) n then Ok (PriorRequestFailed, c)
  else if number_upto (m_priorResponseClosed c) n then Ok (ConnectionVoluntarilyClosed, c)
  else
    assert: front_is n c ;;
    c ← announce_close n c;
    Ok (Responds, set_request n (set_responseState HEADERS) c).

(** The handler of exceptions at the end of [commit]. *)
Definition commit_failed (n : nat) (c : ServerConnection) : result ServerConnection :=
  invariant c ≫= fun _ => scheduleAllWaitingResponses (set_failed (Some (min_number (m_priorRequestFailed c) n)) c).
