(* ===== verification/ServerResponse.v ===== *)
(** The parts of [http/server.cpp] that look at headers: what [commit] does to a response before it is sent, error responses, preconditions, and the ranges of
    [respondStream]. *)

From Stdlib Require Import String.
From stdpp Require Import numbers list_numbers list.
From S2P Require Import Prelude Stream StreamFilters Chunked Notify Http Connection.

(** ** Reasons *)

Definition reasons : list (Z * string) := [
  (100, "Continue"); (101, "Switching Protocols");
  (200, "OK"); (201, "Created"); (202, "Accepted"); (203, "Non-Authoritative Information"); (204, "No Content"); (205, "Reset Content"); (206, "Partial Content");
  (300, "Multiple Choices"); (301, "Moved Permanently"); (302, "Found"); (303, "See Other"); (304, "Not Modified"); (305, "Use Proxy"); (307, "Temporary Redirect");
  (400, "Bad Request"); (401, "Unauthorized"); (402, "Payment Required"); (403, "Forbidden"); (404, "Not Found"); (405, "Method Not Allowed"); (406, "Not Acceptable");
  (407, "Proxy Authentication Required"); (408, "Request Time-out"); (409, "Conflict"); (410, "Gone"); (411, "Length Required"); (412, "Precondition Failed");
  (413, "Request Entity Too Large"); (414, "Request-URI Too Long"); (415, "Unsupported Media Type"); (416, "Requested range not satisfiable"); (417, "Expectation Failed");
  (500, "Internal Server Error"); (501, "Not Implemented"); (502, "Bad Gateway"); (503, "Service Unavailable"); (504, "Gateway Time-out"); (505, "HTTP Version not supported")]%string.

Definition reason (s : Z) : text :=
  match List.find (fun p => fst p =? s) reasons with Some (_, t) => str t | None => str "<INVALID>" end.

(** The members of [enum Status]; 428 is [PRECONDITION_REQUIRED]. *)
Definition statuses : list Z := [100; 101; 200; 201; 202; 203; 204; 205; 206; 300; 301; 302; 303; 304; 305; 307; 400; 401; 402; 403; 404; 405; 406; 407; 408; 409; 410; 411; 412; 413; 414; 415; 416; 417;
  428; 500; 501; 502; 503; 504; 505].

(** ** Responses *)

Definition set_status (s : StatusLine) (r : Response) : Response := mkResponse s (res_general r) (res_response r) (res_entity r).
Definition set_general (g : GeneralHeaders) (r : Response) : Response := mkResponse (res_status r) g (res_response r) (res_entity r).
Definition set_entity (e : EntityHeaders) (r : Response) : Response := mkResponse (res_status r) (res_general r) (res_response r) e.

(** The assertions about a transfer coding that is not the last. *)
Definition known_coding (v : ValueWithParameters) : bool :=
  negb (same_text (vp_value v) (str "chunked")) && negb (bool_decide (vp_value v = str "identity")) &&
  (bool_decide (vp_value v = str "gzip") || bool_decide (vp_value v = str "x-gzip") || bool_decide (vp_value v = str "deflate")).

Definition acceptable_chunked (r : Request) : bool :=
  isAcceptable AcceptValueWithParameters_eq ap_qvalue (rq_te (req_request r)) (mkAcceptP (str "chunked") [] no_qvalue []) true.

(** [commit] up to where it waits for its turn: the response with its headers completed, and [m_willClose].  The assertions about transfer codings look at those of the request. *)
Definition prepare_response (request : Request) (response : Response) (willClose : bool) : result (Response * bool) :=
  let willClose := willClose || has_name (str "close") (gh_connection (res_general response)) in
  let ver := sl_ver (res_status response) in
  let ver := if Version_eq ver Version_unknown then rl_ver (req_line request) else ver in
  let ver := if Version_eq ver Version_unknown then mkVersion 1 1 else ver in
  assert: Version_eq ver (mkVersion 1 0) || Version_eq ver (mkVersion 1 1) ;;
  let g := res_general response in
  let undelimited := (en_contentLength (res_entity response) =? npos) && bool_decide (gh_transferEncoding g = []) &&
    negb (bool_decide (mt_type (en_contentType (res_entity response)) = str "multipart")) in
  let chunk := Version_eq ver (mkVersion 1 1) && acceptable_chunked request in
  let g := if undelimited && chunk then set_transferEncoding (gh_transferEncoding g ++ [mkValue (str "chunked") []]) g else g in
  let willClose := willClose || (undelimited && negb chunk) in
  let g := if willClose then add_connection (str "close") g else if Version_eq ver (mkVersion 1 0) then add_connection (str "Keep-Alive") g else g in
  let status := sl_status (res_status response) in
  let phrase := if bool_decide (sl_reason (res_status response) = []) then reason status else sl_reason (res_status response) in
  let codings := gh_transferEncoding (req_general request) in
  assert: Version_ge ver (mkVersion 1 1) || bool_decide (codings = []) ;;
  assert: match last codings with
          | None => true
          | Some v => Version_eq ver (mkVersion 1 1) && same_text (vp_value v) (str "chunked") && forallb known_coding (removelast codings)
          end ;;
  assert: negb (status =? 401) || present (rs_wwwAuthenticate (res_response response)) ;;
  assert: negb (status =? 407) || present (rs_proxyAuthenticate (res_response response)) ;;
  assert: negb (status =? INVALID) ;;
  Ok (set_status (mkStatusLine status phrase ver) (set_general g response), willClose).

(** The headers that [respondError] sets; [closeConnection] and [clearETag] are its arguments. *)
Definition error_response (status : Z) (message : text) (closeConnection clearETag : bool) (r : Response) : Response :=
  let g := res_general r in
  let g := if closeConnection then add_connection (str "close") g else g in
  let g := mkGeneral (gh_connection g) (gh_date g) (gh_proxyConnection g) [] [] (gh_upgrade g) in
  let e := res_entity r in
  let t := en_contentType e in
  let t := if bool_decide (message = []) then mkMedia [] (mt_subtype t) (mt_parameters t) else mkMedia (str "text") (str "plain") (mt_parameters t) in
  let e := mkEntity (en_allow e) (en_contentEncoding e) (zlen message) (en_contentMD5 e) (en_contentRange e) t (en_expires e) (en_lastModified e) (en_extension e) in
  let h := res_response r in
  let h := mkResponseHeaders (rs_acceptRanges h) (if clearETag then mkETag false true [] else rs_eTag h) (rs_location h) (rs_proxyAuthenticate h) (rs_retryAfter h) (rs_server h) (rs_wwwAuthenticate h) in
  mkResponse (mkStatusLine status (sl_reason (res_status r)) (sl_ver (res_status r))) g h e.

(** ** Preconditions *)

Definition GET : text := str "GET".

(** Only [*] *)
Definition any_entity (l : list ETag) : bool := match l with [e] => et_unspecified e | _ => false end.

(** [ifMatch]: the status of the error response, and whether it carries the tag of the entity; [None] when the request should continue. *)
Definition ifMatch (request : Request) (eTag : ETag) : option (Z * bool) :=
  let match_ := rq_ifMatch (req_request request) in
  let none_match := rq_ifNoneMatch (req_request request) in
  let method := rl_method (req_line request) in
  let getOrHead := bool_decide (method = GET) || bool_decide (method = HEAD) in
  let failed := if any_entity match_ then et_unspecified eTag else present match_ && negb (existsb (fun e => strongCompare e eTag) match_) in
  let matched := if any_entity none_match then negb (et_unspecified eTag)
    else existsb (fun e => if getOrHead then weakCompare e eTag else strongCompare e eTag) none_match in
  if failed then Some (412, false)
  else if matched then Some (if getOrHead then 304 else 412, getOrHead)
  else None.

(** ** Ranges *)

Inductive range_verdict := FullEntity | NotSatisfiable | Partial.

(** The loop over the ranges; [size] is [~0ull] when it is not known, the first bound of a range for its last bytes, and the second of one without an end. *)
Fixpoint check_ranges (size : Z) (seek first : bool) (previousLast : Z) (l : list (Z * Z)) : range_verdict :=
  match l with
  | [] => Partial
  | (lo, hi) :: l =>
      if (hi <? lo) && negb (lo =? npos) then FullEntity
      else if (lo =? npos) && (size =? npos) then FullEntity
      else if (size <=? lo) && negb (size =? npos) && negb (lo =? npos) then NotSatisfiable
      else if (lo =? npos) && (size <=? hi) then FullEntity
      else if (lo =? 0) && (u64 (size - 1) <=? hi) then FullEntity
      else if negb first && (lo <=? previousLast) && negb seek then FullEntity
      else check_ranges size seek false (if lo =? npos then u64 (size - 1) else hi) l
  end.

(** Whether [respondStream] sends the whole entity, an error or the ranges; [trailers] is whether the client takes trailers and the size is not known. *)
Definition respond_ranges (size : Z) (seek trailers : bool) (ifRange : ETag + ptime) (eTag : ETag) (range : list (Z * Z)) : range_verdict :=
  let fullEntity := bool_decide (range = []) || ((size =? npos) && negb trailers) || (trailers && (1 <? zlen range)) ||
    match ifRange with
    | inl e => negb (et_unspecified e) && negb (strongCompare e eTag)
    | inr d => negb (bool_decide (d = None))
    end in
  if fullEntity then FullEntity else check_ranges size seek true 0 range.

(** A single range of an entity whose size is known. *)
Definition single_range (size : Z) (r : Z * Z) : ContentRange :=
  if fst r =? npos then mkRange (if size <? snd r then 0 else u64 (size - snd r)) (u64 (size - 1)) size
  else mkRange (fst r) (Z.min (snd r) (u64 (size - 1))) size.

(** One of several ranges, in the headers of a new part, whose bounds are [~0ull]. *)
Definition part_range (size : Z) (r : Z * Z) : ContentRange :=
  if fst r =? npos then mkRange (if size <? snd r then 0 else u64 (size - snd r)) npos size
  else mkRange (fst r) (Z.min (snd r) (u64 (size - 1))) size.

(** What becomes of the range [r] of those that were accepted: more than one are served as the parts of a multipart body. *)
Definition content_range (size : Z) (range : list (Z * Z)) (r : Z * Z) : ContentRange :=
  if 1 <? zlen range then part_range size r else single_range size r.

(** [cr.last - cr.first + 1], the number of bytes to send. *)
Definition range_length (cr : ContentRange) : Z := u64 (cr_last cr - cr_first cr + 1).
