(* ===== verification/ServerResponseProps.v ===== *)
(** The theorems about the headers of responses and about ranges. *)

From Stdlib Require Import String.
From stdpp Require Import numbers list_numbers list.
From S2P Require Import Prelude Stream StreamFilters Chunked Notify Http Connection ConnectionProps ServerResponse.

(** ** Ranges *)

(** What the loop lets through. *)
Lemma check_ranges_partial size seek first previousLast l : 0 <= size < npos -> check_ranges size seek first previousLast l = Partial ->
  Forall (fun r => (fst r <> npos -> fst r <= snd r /\ fst r < size) /\ (fst r = npos -> snd r < size)) l.
Proof.
  intros Hs. revert first previousLast. induction l as [| [lo hi] l IH]; intros first previousLast; cbn [check_ranges]; [constructor |].
  rewrite (proj2 (Z.eqb_neq size npos)) by lia. destruct (Z.eqb_spec lo npos) as [E | E]; cbn [negb andb]; rewrite ?andb_true_r, ?andb_false_r.
  - destruct (Z.leb_spec size hi); [done |]. destruct (_ && _); [done |]. destruct (_ && _ && _); [done |]. intros Hc%IH. constructor; [| done]. cbn. split; [congruence | lia].
  - destruct (Z.ltb_spec hi lo); [done |]. destruct (Z.leb_spec size lo); [done |]. destruct (_ && _); [done |]. destruct (_ && _ && _); [done |].
    intros Hc%IH. constructor; [| done]. cbn. split; [lia | congruence].
Qed.

Lemma respond_partial size seek trailers ifRange eTag range : respond_ranges size seek trailers ifRange eTag range = Partial -> check_ranges size seek true 0 range = Partial.
Proof. unfold respond_ranges. by destruct (_ || _). Qed.

(** C36 -- What [respondStream] serves of an entity of known size lies within it: when the ranges are accepted, each of those that have a first byte, be it the only one or one
    of several, and the suffix that is the only range and not empty, becomes a content range with 0 <= first <= last < size, its number of bytes does not wrap around, and it has the bytes
    that were asked for: from the first bound to the second or to the end of the entity, or the last bytes for a suffix. A suffix among several is not served so: its part is left without a
    last byte, see [multi_suffix_wrong], and an empty suffix neither, see [empty_suffix]. *)
Theorem range_bounds size seek ifRange eTag range lo hi : 0 <= size < npos -> (lo, hi) ∈ range -> 0 <= lo <= npos -> 0 <= hi <= npos ->
  respond_ranges size seek false ifRange eTag range = Partial -> (lo = npos -> 0 < hi /\ zlen range = 1) ->
  let cr := content_range size range (lo, hi) in
  0 <= cr_first cr <= cr_last cr /\ cr_last cr < size /\ range_length cr = cr_last cr - cr_first cr + 1 /\ cr_instance cr = size /\
  (if lo =? npos then cr_first cr = size - hi /\ cr_last cr = size - 1 else cr_first cr = lo /\ cr_last cr = Z.min hi (size - 1)).
Proof.
  intros Hs Hin Hlo Hhi Hp%respond_partial Hz. apply check_ranges_partial in Hp; [| done]. rewrite Forall_forall in Hp. destruct (Hp _ Hin) as [H1 H2]. cbn in H1, H2.
  cbv zeta. unfold content_range, single_range, part_range, range_length. cbn [fst snd]. destruct (Z.eqb_spec lo npos) as [E | E].
  - specialize (H2 E). destruct (Hz E) as [Hh ->]. unfold npos in *. rewrite (proj2 (Z.ltb_ge size hi)) by lia. cbn.
    rewrite (u64_small (size - hi)), (u64_small (size - 1)) by lia. rewrite u64_small by lia. split_and!; lia.
  - specialize (H1 E). unfold npos in *. destruct (1 <? zlen range); cbn; rewrite (u64_small (size - 1)) by lia; rewrite u64_small by lia; split_and!; auto; lia.
Qed.

Lemma range_bounds_witness : cr_last (content_range 1000 [(npos, 200)] (npos, 200)) = 999 /\ cr_last (content_range 1000 [(0, 99); (500, 2000)] (500, 2000)) = 999.
Proof.
  split.
  - destruct (range_bounds 1000 true (inr None) (mkETag false true []) [(npos, 200)] npos 200) as (_ & _ & _ & _ & _ & H);
      [unfold npos; lia | by left | unfold npos; lia | unfold npos; lia | vm_compute; reflexivity | by intros _ | exact H].
  - destruct (range_bounds 1000 true (inr None) (mkETag false true []) [(0, 99); (500, 2000)] 500 2000) as (_ & _ & _ & _ & _ & H);
      [unfold npos; lia | right; by left | unfold npos; lia | unfold npos; lia | vm_compute; reflexivity | done | exact H].
Defined.

(** A suffix among several ranges: the last byte of its part is never set, and the number of bytes to send is not that of the range. *)
Lemma multi_suffix_wrong size range hi : 0 < hi < size -> size < 2 ^ 63 -> 1 < zlen range ->
  cr_last (content_range size range (npos, hi)) = npos /\ range_length (content_range size range (npos, hi)) = 2 ^ 64 - (size - hi).
Proof.
  intros Hh Hs Hr. unfold content_range. rewrite (proj2 (Z.ltb_lt _ _) Hr). unfold part_range, range_length. cbn [fst snd]. rewrite Z.eqb_refl. rewrite (proj2 (Z.ltb_ge _ _)) by lia. cbn. split; [done |].
  rewrite (u64_small (size - hi)) by lia. unfold npos. rewrite u64_small; lia.
Qed.

(** The suffix of no bytes is accepted, with a range that ends before it begins. *)
Lemma empty_suffix size : 0 < size < 2 ^ 63 -> respond_ranges size true false (inr None) (mkETag false true []) [(npos, 0)] = Partial /\
  cr_first (single_range size (npos, 0)) = cr_last (single_range size (npos, 0)) + 1.
Proof.
  intros Hs. assert (Hn : (size =? npos) = false) by (apply Z.eqb_neq; unfold npos; lia). assert (H0 : (npos =? 0) = false) by done. unfold respond_ranges, single_range. cbn [check_ranges fst snd].
  rewrite Hn, H0, !Z.eqb_refl, (proj2 (Z.leb_gt size 0)), (proj2 (Z.ltb_ge size 0)) by lia. split; [rewrite bool_decide_false, bool_decide_true by done; cbn [negb]; by rewrite !andb_false_r |]. cbn. rewrite !u64_small; lia.
Qed.

(** ** Headers *)

Lemma stricmp_refl a : stricmp a a = 0.
Proof. induction a as [| x a IH]; [done |]. cbn. rewrite Z.eqb_refl. cbn. by destruct (x =? 0). Qed.

Lemma has_name_insert name l : has_name name (insert_name name l) = true.
Proof.
  induction l as [| x l IH]; cbn [insert_name]; unfold has_name in *; [cbn; unfold same_text; by rewrite stricmp_refl |].
  destruct (caseinsensitiveless x name); [cbn; by rewrite IH, orb_true_r |]. destruct (same_text x name) eqn:E; cbn; [by rewrite E |].
  unfold same_text. by rewrite stricmp_refl.
Qed.

(** The end of every response can be told: after [commit] has completed the headers, the response has a transfer coding, a content length or is multipart, or else the connection closes after it; the
    client is told that the connection closes exactly when it does on the server's part, or that it is kept where that is not the default; and the response has a version and a status. *)
Theorem response_delimited request response willClose response' willClose' : prepare_response request response willClose = Ok (response', willClose') ->
  let g := res_general response' in let e := res_entity response' in let s := res_status response' in
  (gh_transferEncoding g <> [] \/ en_contentLength e <> npos \/ mt_type (en_contentType e) = str "multipart" \/ willClose' = true) /\
  (willClose' = true -> has_name (str "close") (gh_connection g) = true) /\ (willClose = true -> willClose' = true) /\
  (willClose' = false -> sl_ver s = mkVersion 1 0 -> has_name (str "Keep-Alive") (gh_connection g) = true) /\
  (sl_ver s = mkVersion 1 0 \/ sl_ver s = mkVersion 1 1) /\ sl_status s <> INVALID /\ sl_status s = sl_status (res_status response).
Proof.
  unfold prepare_response. set (wc := willClose || _). 
  set (ver0 := if Version_eq (sl_ver (res_status response)) Version_unknown then rl_ver (req_line request) else sl_ver (res_status response)).
  set (ver := if Version_eq ver0 Version_unknown then mkVersion 1 1 else ver0).
  set (un := _ && bool_decide (gh_transferEncoding _ = []) && negb _). set (ch := _ && acceptable_chunked request).
  assert (Hv : Version_eq ver (mkVersion 1 0) || Version_eq ver (mkVersion 1 1) = true -> ver = mkVersion 1 0 \/ ver = mkVersion 1 1).
  { unfold Version_eq. destruct ver as [ma mi]. cbn. rewrite orb_true_iff, !andb_true_iff, !Z.eqb_eq. intros [[-> ->] | [-> ->]]; auto. }
  destruct (Version_eq ver (mkVersion 1 0) || Version_eq ver (mkVersion 1 1)) eqn:Ev; [| done]. specialize (Hv eq_refl). cbn [ASSERT mbind result_bind].
  intros E. repeat (match type of E with (ASSERT ?b ≫= _) = _ => destruct b eqn:?; [| done]; cbn [ASSERT mbind result_bind] in E end).
  injection E as <- <-. cbn zeta. cbn [res_general res_entity res_status set_status set_general sl_ver sl_status].
  match goal with H : negb (sl_status _ =? INVALID) = true |- _ => apply negb_true_iff, Z.eqb_neq in H; rename H into Hst end.
  split_and!; auto.
  - destruct un eqn:Eu.
    + destruct ch; cbn [andb negb]; [| right; right; right; apply orb_true_r]. left. destruct (wc || _); [| destruct (Version_eq ver _)]; cbn; by destruct (gh_transferEncoding (res_general response)).
    + subst un. rewrite !andb_false_iff, negb_false_iff, Z.eqb_neq, bool_decide_eq_false, bool_decide_eq_true in Eu. destruct Eu as [[? | Ht] | ?]; auto. left.
      cbn [andb]; repeat (match goal with |- context [if ?b then _ else _] => destruct b end); exact Ht.
  - intros ->. cbn. apply has_name_insert.
  - intros ->. done.
  - intros -> ->. cbn. apply has_name_insert.
Qed.

Definition no_response : Response :=
  mkResponse (mkStatusLine 200 [] Version_unknown) no_general (mkResponseHeaders [] (mkETag false true []) no_uri [] (inl None) [] []) (no_entity npos).
Definition get_request : Request := mkRequest (mkRequestLine GET no_uri (mkVersion 1 0)) no_general (no_request []) (no_entity npos).

(** The response to an HTTP/1.0 request, of unknown length: the connection closes. *)
Lemma response_delimited_witness : exists r, prepare_response get_request no_response false = Ok (r, true) /\ has_name (str "close") (gh_connection (res_general r)) = true.
Proof.
  destruct (prepare_response get_request no_response false) as [[r b] |] eqn:E; [| vm_compute in E; done].
  assert (Eb : b = true) by (vm_compute in E; congruence). subst b. exists r. split; [done |]. by apply (response_delimited get_request no_response false r true).
Defined.

(** [commit] trips no assertion on a response to a request that the server accepted, when the response has no version or the one of the request, a status that needs no authentication header, and
    the codings of the request are spelled in lower case and come with HTTP/1.1. *)
Theorem prepare_total r g willClose response close : check_request r = Ok (Accepted g willClose) ->
  let request := mkRequest (req_line r) g (req_request r) (req_entity r) in
  rl_ver (req_line r) = mkVersion 1 1 \/ (rl_ver (req_line r) = mkVersion 1 0 /\ gh_transferEncoding g = []) ->
  forallb known_coding (removelast (gh_transferEncoding g)) = true ->
  sl_ver (res_status response) = Version_unknown \/ sl_ver (res_status response) = rl_ver (req_line r) ->
  sl_status (res_status response) <> 401 -> sl_status (res_status response) <> 407 -> sl_status (res_status response) <> INVALID ->
  exists response' close', prepare_response request response close = Ok (response', close').
Proof.
  intros Hr request Hv Hc Hsv H1 H2 H3. apply check_request_accepted in Hr. subst request. unfold prepare_response. cbn [req_line req_general req_request req_entity].
  set (ver := if Version_eq (sl_ver (res_status response)) Version_unknown then rl_ver (req_line r) else sl_ver (res_status response)).
  assert (Ever : ver = rl_ver (req_line r)) by (unfold ver; destruct Hsv as [E | E]; rewrite E; [done | by destruct (Version_eq (rl_ver (req_line r)) Version_unknown)]). rewrite Ever.
  assert (Hu : Version_eq (rl_ver (req_line r)) Version_unknown = false) by (destruct Hv as [-> | [-> _]]; done). rewrite Hu.
  assert (Ho : Version_eq (rl_ver (req_line r)) (mkVersion 1 0) || Version_eq (rl_ver (req_line r)) (mkVersion 1 1) = true) by (destruct Hv as [-> | [-> _]]; done).
  rewrite Ho. cbn [ASSERT mbind result_bind]. rewrite (proj2 (Z.eqb_neq _ _) H1), (proj2 (Z.eqb_neq _ _) H2), (proj2 (Z.eqb_neq _ _) H3). cbn [negb orb].
  assert (Hte : Version_ge (rl_ver (req_line r)) (mkVersion 1 1) || bool_decide (gh_transferEncoding g = []) = true) by (destruct Hv as [-> | [-> ->]]; done).
  rewrite Hte. cbn [ASSERT mbind result_bind].
  assert (Hlast : match last (gh_transferEncoding g) with
    | None => true
    | Some v => Version_eq (rl_ver (req_line r)) (mkVersion 1 1) && same_text (vp_value v) (str "chunked") && forallb known_coding (removelast (gh_transferEncoding g))
    end = true).
  { destruct (checked_codings _ Hr) as [Et | (pre & v & ls & Et & Hch & _)]; [by rewrite Et |]. rewrite Et in Hc |- *. rewrite last_snoc, Hch, Hc.
    destruct Hv as [-> | [_ Hn]]; [done |]. rewrite Et in Hn. by destruct pre. }
  rewrite Hlast. cbn [ASSERT mbind result_bind]. by eexists _, _.
Qed.

Lemma prepare_total_witness : exists response' close', prepare_response put_request no_response false = Ok (response', close').
Proof.
  apply (prepare_total put_request (req_general put_request) false no_response false);
    [vm_compute; reflexivity | by left | vm_compute; reflexivity | by left | done | done | done].
Defined.

(** Requests that pass all checks and on which every response fails an assertion of [commit]: a coding in upper case, and a body with a transfer coding in HTTP/1.0. *)
Definition with_codings (l : list ValueWithParameters) (ver : Version) : Request :=
  mkRequest (mkRequestLine (str "PUT") no_uri ver) (set_transferEncoding l no_general) (no_request (str "example")) (no_entity npos).

Lemma accepted_request_asserts : forall r, r = with_codings [mkValue (str "GZIP") []; mkValue (str "chunked") []] (mkVersion 1 1) \/ r = with_codings [mkValue (str "chunked") []] (mkVersion 1 0) ->
  (exists willClose, check_request r = Ok (Accepted (req_general r) willClose)) /\
  forall response close, sl_ver (res_status response) = Version_unknown -> prepare_response r response close = Err Assertion.
Proof.
  intros r [-> | ->]; (split; [eexists; vm_compute; reflexivity |]); intros response close E; unfold prepare_response; by rewrite E.
Qed.

(** Every status of the enumeration has its reason, but for 428. *)
Lemma reason_known : forall s, s ∈ statuses -> reason s = str "<INVALID>" <-> s = 428.
Proof.
  assert (H : forallb (fun s => Bool.eqb (bool_decide (reason s = str "<INVALID>")) (s =? 428)) statuses = true) by (vm_compute; reflexivity).
  rewrite forallb_forall in H. intros s Hs%list_elem_of_In%H. apply Bool.eqb_prop in Hs. rewrite <- Z.eqb_eq, <- Hs. by rewrite bool_decide_eq_true.
Qed.
