(* ===== verification/ServerWorld.v ===== *)
(** The requests of a connection in progress at once: one fiber for each, which runs [doRequest] and the function that the server was given, and the critical
    sections of [Server.v] in any order that these fibers can take.  A request may be handed to other fibers, which may then read its body, ask for the next request or cancel it at any time ([possible]); the runs that
    the theorems are about are those where a request is used by its own fiber only ([own_fiber]). *)

From Stdlib Require Import String.
From stdpp Require Import functions numbers list_numbers list.
From S2P Require Import Prelude Http ServerResponse Server.

#[local] Open Scope nat_scope.

(** Where the fiber of a request is.
    - [Absent]: there is no such request yet.
    - [Reading]: the headers are being read.
    - [Handling]: the function of the server has the request, and the response is not committed.
    - [Waiting]: in [commit], until it is scheduled; [Woken]: scheduled and not yet running.
    - [Responding]: from the end of [commit] on; [Flushed]: between the critical sections of [responseComplete].
    - [Responded]: the response is complete; the body of the request may not have been read.
    - [Failed]: writing failed, and the handler in [commit] has run.
    - [Thrown]: [commit] threw because an earlier request failed or closed the connection.
    - [Stopped]: cancelled. *)
Inductive place := Absent | Reading | Handling | Waiting | Woken | Responding | Flushed | Responded | Failed | Thrown (closed : bool) | Stopped.

#[global] Instance place_eq_dec : EqDecision place.
Proof. solve_decision. Defined.

(** [w_order]: the requests that got their turn to respond, the last one first. *)
Record world := mkWorld { w_conn : ServerConnection; w_place : nat -> place; w_order : list nat }.

Definition world_new : world := mkWorld ServerConnection_new (fun _ => Absent) [].

(** What the fiber of a request can do.
    - [Start]: [processRequests], by the server.
    - [ReadEnds n]: the stream ended or failed before a request: [cancel].
    - [Unparsable n], [Rejected n]: the request is answered with an error; only the first makes the connection one that is not read from any more.
    - [Accepted n willClose hasBody]: the function of the server is called.
    - [NextRequest n]: [processNextRequest].
    - [BodyRead n]: the end of the request's body: [requestDone].
    - [Commit n request response]: [commit], with the headers of the request and those that the function of the server gave the response.
    - [Resume n]: the fiber that waited runs.
    - [HeadersSent n]: a body follows.
    - [Complete n], [CompleteRest n]: the two critical sections of [responseComplete].
    - [WriteFails n], [CloseFails n]: an exception while the headers are written, or while the connection is closed.
    - [Recover n]: the handler of [doRequest] tries to respond with an error and to read the rest of the body, after [commit] threw.
    - [Cancel n]: [cancel], also by the destructor of the request. *)
Inductive action :=
| Start | ReadEnds (n : nat) | Unparsable (n : nat) | Rejected (n : nat) | Accepted (n : nat) (willClose hasBody : bool)
| NextRequest (n : nat) | BodyRead (n : nat) | Commit (n : nat) (request : Request) (response : Response) | Resume (n : nat) | HeadersSent (n : nat)
| Complete (n : nat) | CompleteRest (n : nat) | WriteFails (n : nat) | CloseFails (n : nat) | Recover (n : nat) | Cancel (n : nat).

(** The events of a section reach the fibers. *)
Definition deliver (e : event) (p : nat -> place) : nat -> place :=
  match e with DoRequest n => <[n := Reading]> p | ResumeFiber n => <[n := Woken]> p | _ => p end.

Definition clear_events (c : ServerConnection) : ServerConnection :=
  mkConnection (m_requests c) (m_pendingRequests c) (m_waitingResponses c) (m_requestCount c)
    (m_priorRequestFailed c) (m_priorRequestClosed c) (m_priorResponseClosed c) [].

(** The fiber of [n] goes to a place, and the fibers that were scheduled to theirs. *)
Definition moves (n : nat) (p : place) (c : ServerConnection) (w : world) : world :=
  mkWorld (clear_events c) (foldl (fun ps e => deliver e ps) (<[n := p]> (w_place w)) (m_events c)) (w_order w).
Definition stays (c : ServerConnection) (w : world) : world :=
  mkWorld (clear_events c) (foldl (fun ps e => deliver e ps) (w_place w) (m_events c)) (w_order w).
Definition takes_turn (n : nat) (w : world) : world := mkWorld (w_conn w) (w_place w) (n :: w_order w).

Definition after_commit (n : nat) (o : commit_outcome) (c : ServerConnection) (w : world) : world :=
  match o with
  | Responds => takes_turn n (moves n Responding c w)
  | Waits => moves n Waiting c w
  | PriorRequestFailed => moves n (Thrown false) c w
  | ConnectionVoluntarilyClosed => moves n (Thrown true) c w
  end.

Definition after_complete (n : nat) (returned : bool) (c : ServerConnection) (w : world) : world := moves n (if returned then Responded else Flushed) c w.

Definition handled (p : place) : bool := match p with Handling | Responding | Responded | Failed => true | _ => false end.

(** The fiber of the request is in the middle of [commit] or of [responseComplete]. *)
Definition busy (p : place) : bool := match p with Waiting | Woken | Flushed => true | _ => false end.

(** When it can be done, by the fiber of the request or by another one that was given the request. *)
Definition possible (a : action) (w : world) : bool :=
  let at_ n p := bool_decide (w_place w n = p) in
  match a with
  | Start => m_requestCount (w_conn w) =? 0
  | ReadEnds n | Unparsable n | Rejected n | Accepted n _ _ => at_ n Reading
  | NextRequest n => handled (w_place w n) || busy (w_place w n)
  | BodyRead n => (handled (w_place w n) || busy (w_place w n)) && bool_decide (m_requestState (m_requests (w_conn w) n) = BODY)
  | Commit n _ _ => at_ n Handling
  | Resume n => at_ n Woken
  | HeadersSent n | Complete n | WriteFails n | CloseFails n => at_ n Responding
  | CompleteRest n => at_ n Flushed
  | Recover n => at_ n (Thrown true)
  | Cancel n => handled (w_place w n) || busy (w_place w n) || at_ n Reading || at_ n (Thrown false) || at_ n (Thrown true)
  end.

(** Only the fiber of the request does these things to it, which it cannot while it is in the middle of something else. *)
Definition own_fiber (a : action) (w : world) : bool := match a with NextRequest n | BodyRead n | Cancel n => negb (busy (w_place w n)) | _ => true end.

Definition enabled (a : action) (w : world) : bool := possible a w && own_fiber a w.

Definition perform (a : action) (halfClose : bool) (w : world) : result world :=
  let c := w_conn w in
  match a with
  | Start => c ← processRequests c; Ok (stays c w)
  | ReadEnds n => c ← cancel n c; Ok (moves n Stopped c w)
  | Cancel n => c ← cancel n c; Ok (if busy (w_place w n) then stays c w else moves n Stopped c w)
  | Unparsable n => Ok (moves n Handling (set_requestClosed (Some n) (set_request n (set_requestState ERROR) c)) w)
  | Rejected n => Ok (moves n Handling (set_request n (set_requestState ERROR) c) w)
  | Accepted n willClose hasBody =>
      let c := set_request n (set_willClose willClose) c in
      c ← (if hasBody then Ok (set_request n (set_requestState BODY) c) else requestComplete halfClose n c);
      Ok (moves n Handling c w)
  | NextRequest n => c ← processNextRequest n c; Ok (stays c w)
  | BodyRead n => c ← requestComplete halfClose n c; Ok (stays c w)
  | Commit n request response =>
      '(_, willClose) ← prepare_response request response (m_willClose (m_requests c n));
      '(o, c) ← commit_enter n (set_request n (set_willClose willClose) c);
      Ok (after_commit n o c w)
  | Resume n => '(o, c) ← commit_resumed n c; Ok (after_commit n o c w)
  | HeadersSent n => Ok (stays (set_request n (set_responseState BODY) c) w)
  | Complete n => '(returned, c) ← responseComplete1 n c; Ok (after_complete n returned c w)
  | CompleteRest n => c ← responseComplete2 n c; Ok (moves n Responded c w)
  | WriteFails n => c ← commit_failed n c; Ok (moves n Failed c w)
  | CloseFails n => c ← cancel n c; c ← commit_failed n c; Ok (moves n Stopped c w)
  | Recover n =>
      let request := m_requests c n in
      if bool_decide (m_requestState request = ERROR) then Ok w
      else if bool_decide (m_responseState request = PENDING) then '(o, c) ← commit_enter n c; Ok (after_commit n o c w)
      else if bool_decide (m_requestState request = BODY) && negb (m_willClose request) then c ← requestComplete halfClose n c; Ok (stays c w)
      else Ok w
  end.

(** The headers of a response pass the assertions of [commit] about them. *)
Definition headers_pass (a : action) (w : world) : bool :=
  match a with
  | Commit n request response => match prepare_response request response (m_willClose (m_requests (w_conn w) n)) with Ok _ => true | Err _ => false end
  | _ => true
  end.

Inductive reachable : world -> Prop :=
| reachable_new : reachable world_new
| reachable_step w w' a halfClose : reachable w -> enabled a w = true -> perform a halfClose w = Ok w' -> reachable w'.
