(* ===== verification/ServerInv.v ===== *)
(** The invariant of the requests in progress, with one of them left open while its critical section runs, and what the parts of a section do to the others. *)

From Stdlib Require Import String.
From stdpp Require Import functions numbers list_numbers list sorting.
From S2P Require Import Prelude Server ServerWorld.

#[local] Open Scope nat_scope.

Notation req c n := (m_requestState (m_requests c n)).
Notation resp c n := (m_responseState (m_requests c n)).

(** The first of the pending requests. *)
Definition front (c : ServerConnection) (n : nat) : Prop := n ∈ m_pendingRequests c /\ forall m, m ∈ m_pendingRequests c -> n <= m.

(** No earlier request, nor this one, has failed or closed the connection. *)
Definition below (c : ServerConnection) (n : nat) : Prop :=
  (forall k, m_priorRequestFailed c = Some k -> n < k) /\ (forall k, m_priorResponseClosed c = Some k -> n < k).

(** A request up to this one has failed, or closed the connection. *)
Definition failed_upto (c : ServerConnection) (n : nat) : Prop := exists k, m_priorRequestFailed c = Some k /\ k <= n.
Definition closed_upto (c : ServerConnection) (n : nat) : Prop := exists k, m_priorResponseClosed c = Some k /\ k <= n.

Definition read_on (s : ServerState) : Prop := s = BODY \/ completed s = true.
Definition sending (s : ServerState) : Prop := s = HEADERS \/ s = BODY.

(** What holds of a request by the place its fiber is at. *)
Definition place_ok (c : ServerConnection) (n : nat) (p : place) : Prop :=
  match p with
  | Absent => True
  | Reading => n ∈ m_pendingRequests c /\ req c n = HEADERS /\ resp c n = PENDING
  | Handling => n ∈ m_pendingRequests c /\ read_on (req c n) /\ resp c n = PENDING
  | Waiting => n ∈ m_pendingRequests c /\ read_on (req c n) /\ resp c n = WAITING
  | Woken => read_on (req c n) /\ ((front c n /\ resp c n = HEADERS /\ below c n) \/ (n ∉ m_pendingRequests c /\ resp c n = WAITING /\ (failed_upto c n \/ closed_upto c n)))
  | Responding | Flushed => front c n /\ read_on (req c n) /\ sending (resp c n) /\ (m_willClose (m_requests c n) = true -> m_priorResponseClosed c = Some n)
  | Responded => resp c n = COMPLETE /\ ((completed (req c n) = true /\ n ∉ m_pendingRequests c) \/ (req c n = BODY /\ front c n))
  | Failed => front c n /\ read_on (req c n) /\ sending (resp c n) /\ failed_upto c n
  | Thrown closed => n ∉ m_pendingRequests c /\ read_on (req c n) /\ (resp c n = PENDING \/ resp c n = WAITING) /\ (if closed then closed_upto c n else failed_upto c n)
  | Stopped => n ∉ m_pendingRequests c /\ completed (req c n) = true /\ completed (resp c n) = true /\ (resp c n = COMPLETE \/ failed_upto c n)
  end.

Definition early (p : place) : Prop := p = Handling \/ p = Waiting \/ p = Woken \/ p = Responding.
Definition past (p : place) : Prop := p = Responding \/ p = Flushed \/ p = Responded \/ p = Failed.

(** The last request was read to its end and its response is on its way; otherwise the next one would be read by now. *)
Definition kept (c : ServerConnection) (n : nat) (p : place) : Prop :=
  m_priorRequestFailed c = None -> m_priorRequestClosed c = None -> m_priorResponseClosed c = None ->
  n = m_requestCount c -> req c n = COMPLETE -> m_pipeline (m_requests c n) = false /\ early p.

Definition turn_ok (c : ServerConnection) (n : nat) : Prop := ~ front c n /\ below c n.

(** Everything but what is about the request [a]; the requests of [E] may wait although it is their turn. *)
Record inv_but (E : nat -> Prop) (a : nat) (c : ServerConnection) (p : nat -> place) (o : list nat) : Prop := {
  i_sorted : StronglySorted lt (m_pendingRequests c);
  i_range : forall n, n ∈ m_pendingRequests c -> 1 <= n <= m_requestCount c;
  i_actor : a <= m_requestCount c;
  i_done : forall n, n <> a -> 1 <= n < m_requestCount c -> completed (req c n) = true;
  i_absent : forall n, n <> a -> p n = Absent <-> n = 0 \/ m_requestCount c < n;
  i_waiting : forall n, n <> a -> n ∈ m_waitingResponses c <-> p n = Waiting;
  i_place : forall n, n <> a -> place_ok c n (p n);
  i_turn : forall n, n <> a -> p n = Waiting -> E n \/ turn_ok c n;
  i_kept : forall n, n <> a -> kept c n (p n);
  i_failed : forall k, k <> a -> m_priorRequestFailed c = Some k -> p k = Stopped \/ p k = Failed;
  i_closed : forall k, k <> a -> m_priorResponseClosed c = Some k -> past (p k) \/ p k = Stopped;
  i_order_le : forall k m, k ∈ o -> m ∈ m_pendingRequests c -> k <= m;
  i_order_range : forall k, k ∈ o -> 1 <= k <= m_requestCount c;
  i_order_sorted : StronglySorted gt o;
  i_past : forall n, n <> a -> past (p n) -> n ∈ o;
  i_order_past : forall n, n <> a -> n ∈ o -> past (p n) \/ p n = Stopped;
  i_order_done : forall k, k <> a -> k ∈ tail o -> resp c k = COMPLETE;
}.

Definition nobody (n : nat) : Prop := False.

(** The invariant of the whole: there is no request number 0. *)
Definition Inv (w : world) : Prop :=
  inv_but nobody 0 (w_conn w) (w_place w) (w_order w) /\ w_place w 0 = Absent /\ 0 ∉ m_waitingResponses (w_conn w) /\
  (m_priorRequestFailed (w_conn w) <> Some 0 /\ m_priorResponseClosed (w_conn w) <> Some 0) /\ m_events (w_conn w) = [].

(** What the invariant says of one request. *)
Record about (c : ServerConnection) (p : place) (o : list nat) (a : nat) : Prop := {
  a_range : 1 <= a <= m_requestCount c;
  a_done : a < m_requestCount c -> completed (req c a) = true;
  a_present : p <> Absent;
  a_waiting : a ∈ m_waitingResponses c <-> p = Waiting;
  a_place : place_ok c a p;
  a_turn : p = Waiting -> turn_ok c a;
  a_kept : kept c a p;
  a_failed : m_priorRequestFailed c = Some a -> p = Stopped \/ p = Failed;
  a_closed : m_priorResponseClosed c = Some a -> past p \/ p = Stopped;
  a_past : past p -> a ∈ o;
  a_order_past : a ∈ o -> past p \/ p = Stopped;
  a_order_done : a ∈ tail o -> resp c a = COMPLETE;
}.

Lemma elem_of_tail {A} (x : A) l : x ∈ tail l -> x ∈ l.
Proof. destruct l; [done |]. by right. Qed.

Lemma open_inv w a : Inv w -> w_place w a <> Absent -> inv_but nobody a (w_conn w) (w_place w) (w_order w) /\ about (w_conn w) (w_place w a) (w_order w) a.
Proof.
  intros (HI & H0 & Hw0 & H00 & _) Ha. assert (Hne : a <> 0) by congruence.
  assert (Hr : 1 <= a <= m_requestCount (w_conn w)).
  { destruct (decide (1 <= a <= m_requestCount (w_conn w))); [done |]. destruct Ha. apply (i_absent _ _ _ _ _ HI); lia. }
  split.
  - destruct HI. constructor; auto; [lia | ..].
    + intros n _ ?. apply i_done0; lia.
    + intros n _. destruct (decide (n = 0)) as [-> |]; [| auto]. split; [lia | done].
    + intros n _. destruct (decide (n = 0)) as [-> |]; [| auto]. rewrite H0. done.
    + intros n _. destruct (decide (n = 0)) as [-> |]; [| auto]. by rewrite H0.
    + intros n _. destruct (decide (n = 0)) as [-> |]; [| auto]. by rewrite H0.
    + intros n _. destruct (decide (n = 0)) as [-> |]; [| auto]. intros ? ? ? ?. lia.
    + intros n _. destruct (decide (n = 0)) as [-> |]; [| auto]. intros E. by apply H00 in E.
    + intros n _. destruct (decide (n = 0)) as [-> |]; [| auto]. intros E. by apply H00 in E.
    + intros n _. destruct (decide (n = 0)) as [-> |]; [| auto]. rewrite H0. by intros [|[|[|]]].
    + intros n _. destruct (decide (n = 0)) as [-> |]; [| auto]. intros Hin. apply i_order_range0 in Hin. lia.
    + intros k _ Hk. apply i_order_done0; [| done]. apply elem_of_tail, i_order_range0 in Hk. lia.
  - destruct HI. constructor; auto; [|]; intros; [apply i_done0; lia |]. destruct (i_turn0 a Hne) as [[] |]; auto.
Qed.

(** The request that was left open is settled. *)
Lemma server_close_inv c p o a : inv_but nobody a c p o -> about c (p a) o a -> m_events c = [] -> Inv (mkWorld c p o).
Proof.
  intros HI HA He. destruct HI, HA. assert (Hne : a <> 0) by lia.
  assert (H0 : p 0 = Absent) by (apply i_absent0; lia).
  split_and!; cbn [w_conn w_place w_order]; auto.
  - constructor; auto; [lia | ..]; intros n _; (destruct (decide (n = a)) as [-> | Hn]; auto).
    + intros ?. apply a_done0; lia.
    + split; [done | lia].
  - intros Hw. apply i_waiting0 in Hw; [| done]. congruence.
  - intros E. destruct (i_failed0 0 ltac:(done) E); congruence.
  - intros E. destruct (i_closed0 0 ltac:(done) E) as [[|[|[|]]] |]; congruence.
Qed.

(** The place of the request that is left open does not matter. *)
Lemma move_inv E a c p o x : inv_but E a c p o -> inv_but E a c (<[a := x]> p) o.
Proof. intros []. constructor; auto; intros n Hn; rewrite ?fn_lookup_insert_ne by done; auto. Qed.

(** ** The check of the code *)

Lemma front_iff c n : StronglySorted lt (m_pendingRequests c) -> head (m_pendingRequests c) = Some n <-> front c n.
Proof.
  unfold front. destruct (m_pendingRequests c) as [| x l]; intros Hs; cbn.
  - split; [done | intros [?%elem_of_nil _]; done].
  - apply StronglySorted_inv in Hs as [_ Hall]. rewrite Forall_forall in Hall. split.
    + intros [= ->]. split; [by left |]. intros m [-> | Hm]%elem_of_cons; [done | apply Hall in Hm; lia].
    + intros [Hn Hle]. apply elem_of_cons in Hn as [-> | Hn]; [done |]. apply Hall in Hn. specialize (Hle x ltac:(by left)). lia.
Qed.

Lemma front_is_iff c n : StronglySorted lt (m_pendingRequests c) -> front_is n c = true <-> front c n.
Proof. intros Hs. unfold front_is. rewrite bool_decide_eq_true. by apply front_iff. Qed.

Lemma front_unique c n m : front c n -> front c m -> n = m.
Proof. intros [H1 H2] [H3 H4]. apply H2 in H3. apply H4 in H1. lia. Qed.

Lemma last_max c n : StronglySorted lt (m_pendingRequests c) -> n ∈ m_pendingRequests c -> (forall m, m ∈ m_pendingRequests c -> m <= n) -> last (m_pendingRequests c) = Some n.
Proof.
  intros Hs Hn Hmax. apply list_elem_of_split in Hn as (l1 & l2 & E). rewrite E in *. destruct l2 as [| y l2].
  - by rewrite last_snoc.
  - apply StronglySorted_app in Hs as (_ & _ & [_ Hall]%StronglySorted_inv). rewrite Forall_forall in Hall. specialize (Hall y ltac:(by left)).
    specialize (Hmax y ltac:(rewrite !elem_of_app, !elem_of_cons; auto)). lia.
Qed.

Lemma invariant_intro c : StronglySorted lt (m_pendingRequests c) ->
  (forall n, n ∈ m_pendingRequests c -> completed (resp c n) = true -> completed (req c n) = false /\ front c n) ->
  (forall n, n ∈ m_pendingRequests c -> completed (req c n) = false -> forall m, m ∈ m_pendingRequests c -> m <= n) ->
  (forall n, n ∈ m_waitingResponses c -> resp c n = WAITING) -> invariant c = Ok tt.
Proof.
  intros Hs Hfr Hlast Hw. unfold invariant.
  assert (Hloop : forall l seen, StronglySorted lt l -> (forall n, n ∈ l -> n ∈ m_pendingRequests c) -> (forall n, n ∈ l -> seen = true -> completed (resp c n) = false) ->
    invariant_loop seen (m_requests c) l = Ok tt).
  { induction l as [| n l IH]; intros seen Hsl Hin Hseen; [done |]. cbn [invariant_loop]. apply StronglySorted_inv in Hsl as [Hsl Hall]. rewrite Forall_forall in Hall.
    pose proof (Hin n ltac:(by left)) as Hn. pose proof (Hfr n Hn) as Hfn.
    destruct (completed (resp c n)) eqn:Er.
    - destruct Hfn as [-> _]; [done |]. destruct seen; [specialize (Hseen n ltac:(by left) eq_refl); congruence |]. cbn. destruct l as [| m l]; [done |].
      specialize (Hall m ltac:(by left)). assert (m <= n); [| lia].
      apply (Hlast n Hn); [by apply Hfr | apply Hin; right; left].
    - rewrite !orb_true_r. cbn. destruct (completed (req c n)) eqn:Eq; cbn.
      + apply IH; auto; [intros m Hm; apply Hin; by right |]. intros m Hm _. destruct (completed (resp c m)) eqn:Em; [| done].
        destruct (Hfr m) as [_ [_ Hle]]; [apply Hin; by right | done |]. specialize (Hle n Hn). apply Hall in Hm. lia.
      + destruct l as [| m l]; [done |]. specialize (Hall m ltac:(by left)). assert (m <= n); [| lia]. apply (Hlast n Hn Eq). apply Hin. right. by left. }
  rewrite (Hloop _ false Hs) by done. cbn [mbind result_bind]. replace (forallb _ _) with true; [done |]. symmetry. apply forallb_forall.
  intros n Hn. apply bool_decide_eq_true. apply Hw. by apply list_elem_of_In.
Qed.

(** A request that is pending: its response is complete only when it is the first and its body is being read. *)
Lemma place_pending c n p : place_ok c n p -> n ∈ m_pendingRequests c -> p <> Absent -> completed (resp c n) = true -> completed (req c n) = false /\ front c n.
Proof.
  intros Hp Hn Ha Hr.
  destruct p; cbn in Hp; try done.
  7: destruct Hp as (_ & [[_ ?] | [-> ?]]); done.
  all: unfold sending in Hp; repeat match goal with H : _ /\ _ |- _ => destruct H | H : _ \/ _ |- _ => destruct H end; try done.
  all: match goal with H : m_responseState _ = _ |- _ => by rewrite H in Hr end.
Qed.

(** ** What the parts of a section do to the other requests *)

(** [a] later than [b], or not at all. *)
Definition no_later (b a : option nat) : Prop := forall k, a = Some k -> exists k', b = Some k' /\ k' <= k.

Lemma no_later_refl a : no_later a a.
Proof. intros k ->. by exists k. Qed.
Lemma no_later_none b : no_later b None.
Proof. by intros k [=]. Qed.
Lemma no_later_some a n : no_later (Some (min_number a n)) a.
Proof. intros k ->. eexists. split; [reflexivity |]. cbn. lia. Qed.

Lemma no_later_None b a : no_later b a -> b = None -> a = None.
Proof. intros H ->. destruct a; [| done]. by destruct (H n eq_refl) as (? & ? & _). Qed.

Lemma upto_later {b a n} : no_later b a -> (exists k, a = Some k /\ k <= n) -> exists k, b = Some k /\ k <= n.
Proof. intros H (k & E & ?). destruct (H k E) as (k' & ? & ?). exists k'. split; [done | lia]. Qed.

Lemma place_mono c c' n p : place_ok c n p -> m_requests c' n = m_requests c n -> n ∈ m_pendingRequests c' <-> n ∈ m_pendingRequests c -> (front c n -> front c' n) ->
  no_later (m_priorRequestFailed c') (m_priorRequestFailed c) -> no_later (m_priorResponseClosed c') (m_priorResponseClosed c) ->
  (p = Woken -> front c n -> below c n -> below c' n) ->
  (p = Responding \/ p = Flushed -> front c n -> m_priorResponseClosed c = Some n -> m_priorResponseClosed c' = Some n) ->
  place_ok c' n p.
Proof.
  intros Hp Er Hin Hfr HF HR Hw Hs. pose proof (@upto_later _ _ n HF) as HF'. pose proof (@upto_later _ _ n HR) as HR'.
  unfold failed_upto, closed_upto in *. destruct p; cbn in *; unfold failed_upto, closed_upto in *; rewrite ?Er; rewrite ?Hin; auto.
  - destruct Hp as (Hq & [(? & ? & ?) | (? & ? & Hup)]); (split; [done |]); [left | right]; split_and!; auto. destruct Hup; auto.
  - destruct Hp as (? & ? & ? & ?). split_and!; auto.
  - destruct Hp as (? & ? & ? & ?). split_and!; auto.
  - destruct Hp as (? & [|(? & ?)]); split; auto.
  - destruct Hp as (? & ? & ? & ?). split_and!; auto.
  - destruct Hp as (? & ? & ? & ?). split_and!; auto. destruct closed; auto.
  - destruct Hp as (? & ? & ? & [|]); split_and!; auto.
Qed.

(** Changes that leave the places and the other requests alone. *)
Lemma inv_mono E E' a c c' p o : inv_but E a c p o -> (forall n, n <> a -> m_requests c' n = m_requests c n) -> m_requestCount c' = m_requestCount c ->
  (forall n, n <> a -> n ∈ m_waitingResponses c' <-> n ∈ m_waitingResponses c) -> StronglySorted lt (m_pendingRequests c') ->
  (forall n, n ∈ m_pendingRequests c' -> n ∈ m_pendingRequests c) -> (forall n, n <> a -> n ∈ m_pendingRequests c -> n ∈ m_pendingRequests c') ->
  no_later (m_priorRequestFailed c') (m_priorRequestFailed c) -> no_later (m_priorResponseClosed c') (m_priorResponseClosed c) ->
  (m_priorRequestClosed c' = None -> m_priorRequestClosed c = None) ->
  (forall k, k <> a -> m_priorRequestFailed c' = Some k -> m_priorRequestFailed c = Some k) ->
  (forall k, k <> a -> m_priorResponseClosed c' = Some k -> m_priorResponseClosed c = Some k) ->
  (forall n, n <> a -> p n = Woken -> front c n -> below c n -> below c' n) ->
  (forall n, n <> a -> front c n -> m_priorResponseClosed c = Some n -> m_priorResponseClosed c' = Some n) ->
  (forall n, n <> a -> p n = Waiting -> E n \/ turn_ok c n -> E' n \/ turn_ok c' n) -> inv_but E' a c' p o.
Proof.
  intros [] Hr HN HW Hs Hin Hout HF HR HC HF1 HR1 Hw Hc Ht. constructor; rewrite ?HN; auto.
  - intros n Hn Hlt. rewrite Hr; auto.
  - intros n Hn. rewrite HW; auto.
  - intros n Hn. apply (place_mono c); auto; [split; auto | intros [H1 H2]; split; auto].
  - intros n Hn. unfold kept. rewrite Hr, HN by done. intros ? ? ?. apply i_kept0; eauto using no_later_None.
  - intros k Hk Hk'. rewrite Hr; auto.
Qed.

Lemma sorted_filter (Q : nat -> Prop) `{forall n, Decision (Q n)} l : StronglySorted lt l -> StronglySorted lt (filter Q l).
Proof.
  induction 1 as [| x l Hs IH Hall]; [constructor |]. rewrite filter_cons. destruct (decide (Q x)); [| done]. constructor; [done |].
  rewrite Forall_forall in *. intros y Hy. apply list_elem_of_filter in Hy as [_ ?]. auto.
Qed.

Lemma elem_of_erase n m l : n ∈ erase m l <-> n <> m /\ n ∈ l.
Proof. unfold erase. by rewrite list_elem_of_filter. Qed.

Lemma erase_absent n l : n ∉ l -> erase n l = l.
Proof.
  induction l as [| x l IH]; [done |]. rewrite not_elem_of_cons. intros [Hx Hl]. unfold erase in *. rewrite filter_cons, decide_True by congruence. by rewrite IH.
Qed.

Lemma sorted_tail n l : StronglySorted lt (n :: l) -> l = erase n (n :: l).
Proof.
  intros [_ Hall]%StronglySorted_inv. unfold erase. rewrite filter_cons, decide_False by naive_solver. symmetry. apply erase_absent.
  rewrite Forall_forall in Hall. intros Hn%Hall. lia.
Qed.

Lemma server_add_inv E a c p o : inv_but E a c p o -> m_requestCount c = a -> inv_but E a (add_request c) (<[S (m_requestCount c) := Reading]> p) o.
Proof.
  intros [] Ha. set (N := S (m_requestCount c)) in *. assert (HpN : p N = Absent) by (apply i_absent0; unfold N; lia).
  assert (Hin : forall n, n ∈ m_pendingRequests (add_request c) <-> n ∈ m_pendingRequests c \/ n = N) by (intros n; cbn; by rewrite elem_of_app, list_elem_of_singleton).
  assert (Hfr : forall n, n <> N -> front (add_request c) n <-> front c n).
  { intros n Hn. unfold front. split; intros [H1 H2].
    - split; [apply Hin in H1 as [|]; done |]. intros m Hm. apply H2, Hin. by left.
    - split; [apply Hin; by left |]. intros m [Hm | ->]%Hin; [auto |]. apply i_range0 in H1. unfold N. lia. }
  constructor; auto.
  - cbn. apply StronglySorted_app_2; [| done | constructor; constructor]. intros x y Hx ->%list_elem_of_singleton. apply i_range0 in Hx. lia.
  - intros n [Hn%i_range0 | ->]%Hin; cbn; lia.
  - cbn. lia.
  - intros n Hn. cbn. intros Hlt. rewrite fn_lookup_insert_ne by lia. apply i_done0; lia.
  - intros n Hn. cbn. destruct (decide (n = N)) as [-> |]; [rewrite fn_lookup_insert; split; [done | unfold N; lia] |].
    rewrite fn_lookup_insert_ne, i_absent0 by done. unfold N in *. lia.
  - intros n Hn. cbn. destruct (decide (n = N)) as [-> |]; [| by rewrite fn_lookup_insert_ne by done; apply i_waiting0].
    rewrite fn_lookup_insert, i_waiting0 by done. by rewrite HpN.
  - intros n Hn. destruct (decide (n = N)) as [-> |].
    + rewrite fn_lookup_insert. cbn. rewrite fn_lookup_insert. split_and!; [| done | done]. apply elem_of_app. right. by left.
    + rewrite fn_lookup_insert_ne by done. apply (place_mono c); auto using no_later_refl; cbn.
      * by rewrite fn_lookup_insert_ne.
      * rewrite elem_of_app, list_elem_of_singleton. naive_solver.
      * by rewrite Hfr.
  - intros n Hn. destruct (decide (n = N)) as [-> |]; [by rewrite fn_lookup_insert |]. rewrite fn_lookup_insert_ne by done. intros Hp.
    unfold turn_ok. rewrite Hfr by done. by apply i_turn0.
  - intros n Hn. unfold kept. cbn. destruct (decide (n = N)) as [-> |]; [by rewrite fn_lookup_insert |]. done.
  - intros k Hk E'. pose proof (i_failed0 k Hk E'). rewrite fn_lookup_insert_ne by (intros ->; rewrite HpN in *; naive_solver). done.
  - intros k Hk E'. pose proof (i_closed0 k Hk E') as Hp. rewrite fn_lookup_insert_ne; [done |]. intros ->. rewrite HpN in Hp. by destruct Hp as [[|[|[|]]] |].
  - intros k m Hk [Hm | ->]%Hin; [auto |]. apply i_order_range0 in Hk. unfold N. lia.
  - intros k Hk. apply i_order_range0 in Hk. cbn. lia.
  - intros n Hn. destruct (decide (n = N)) as [-> |]; [rewrite fn_lookup_insert; by intros [|[|[|]]] |]. rewrite fn_lookup_insert_ne by done. auto.
  - intros n Hn Ho. destruct (decide (n = N)) as [-> |]; [apply i_order_range0 in Ho; unfold N in *; lia |]. rewrite fn_lookup_insert_ne by done. auto.
  - intros k Hk Ht. cbn. rewrite fn_lookup_insert_ne; [auto |]. intros <-. apply elem_of_tail, i_order_range0 in Ht. lia.
Qed.

(** ** Waking those who wait *)

Lemma deliver_resumes l p n : foldl (fun ps e => deliver e ps) p (ResumeFiber <$> l) n = if decide (n ∈ l) then Woken else p n.
Proof.
  revert p. induction l as [| x l IH]; intros p; [by rewrite decide_False by apply not_elem_of_nil |]. cbn [fmap list_fmap foldl deliver]. rewrite IH.
  destruct (decide (n ∈ l)) as [Hl | Hl]; [by rewrite decide_True by (by right) |].
  destruct (decide (n = x)) as [-> | Hx]; [rewrite fn_lookup_insert, decide_True by (by left); done |].
  rewrite fn_lookup_insert_ne by done. rewrite decide_False; [done |]. rewrite not_elem_of_cons. done.
Qed.

(** [firstFailedRequest] *)
Definition first_failed (c : ServerConnection) (k : nat) : Prop :=
  match m_priorRequestFailed c, m_priorResponseClosed c with
  | Some x, Some y => k = Nat.min x y
  | Some x, None => k = x
  | None, Some y => k = y
  | None, None => False
  end.

Lemma first_failed_below c k n : first_failed c k -> n < k <-> below c n.
Proof.
  unfold first_failed, below. destruct (m_priorRequestFailed c) as [x |], (m_priorResponseClosed c) as [y |]; intros Hk; [subst k.. | done].
  - split; [intros ?; split; intros ? [= <-]; lia | intros [H1 H2]; specialize (H1 x eq_refl); specialize (H2 y eq_refl); lia].
  - split; [intros ?; split; intros ? [=]; lia | intros [H1 H2]; by specialize (H1 x eq_refl)].
  - split; [intros ?; split; intros ? [=]; lia | intros [H1 H2]; by specialize (H2 y eq_refl)].
Qed.

Lemma first_failed_upto c k n : first_failed c k -> k <= n -> failed_upto c n \/ closed_upto c n.
Proof.
  unfold first_failed, failed_upto, closed_upto. destruct (m_priorRequestFailed c) as [x |], (m_priorResponseClosed c) as [y |]; intros Hk Hn; [subst k.. | done].
  - destruct (Nat.min_spec x y) as [[_ E] | [_ E]]; rewrite E in Hn; [left | right]; eauto.
  - left. eauto.
  - right. eauto.
Qed.

(** What is the same after [scheduleAllWaitingResponses], and which requests it takes out. *)
Record woken_all (k : nat) (c c' : ServerConnection) : Prop := {
  wa_requests : m_requests c' = m_requests c;
  wa_count : m_requestCount c' = m_requestCount c;
  wa_failed : m_priorRequestFailed c' = m_priorRequestFailed c;
  wa_requestClosed : m_priorRequestClosed c' = m_priorRequestClosed c;
  wa_responseClosed : m_priorResponseClosed c' = m_priorResponseClosed c;
  wa_pending : forall n, n ∈ m_pendingRequests c' <-> n ∈ m_pendingRequests c /\ ~ (k <= n /\ n ∈ m_waitingResponses c);
  wa_waiting : forall n, n ∈ m_waitingResponses c' <-> n ∈ m_waitingResponses c /\ ~ (k <= n /\ n ∈ m_pendingRequests c);
}.

Lemma schedule_all_ok k c : first_failed c k -> exists c', scheduleAllWaitingResponses c = Ok c' /\ woken_all k c c' /\
  m_events c' = m_events c ++ (ResumeFiber <$> filter (fun n => k <= n /\ n ∈ m_waitingResponses c) (m_pendingRequests c)) /\
  m_pendingRequests c' = filter (fun n => ~ (k <= n /\ n ∈ m_waitingResponses c)) (m_pendingRequests c).
Proof.
  intros Hk. unfold scheduleAllWaitingResponses, first_failed in *.
  destruct (m_priorRequestFailed c) as [x |] eqn:EF, (m_priorResponseClosed c) as [y |] eqn:ER; [subst k.. | done];
    (eexists; split; [reflexivity |]; split; [| split; reflexivity]; constructor; cbn; auto; intros n; rewrite list_elem_of_filter; [tauto |]; rewrite list_elem_of_filter; tauto).
Qed.

Lemma woken_inv E a c c' p o k l : inv_but E a c p o -> a ∉ m_waitingResponses c -> first_failed c k -> (forall n, E n -> k <= n) -> woken_all k c c' ->
  StronglySorted lt (m_pendingRequests c') -> (forall n, n ∈ l <-> k <= n /\ n ∈ m_waitingResponses c /\ n ∈ m_pendingRequests c) ->
  inv_but nobody a c' (foldl (fun ps e => deliver e ps) p (ResumeFiber <$> l)) o.
Proof.
  intros HI Ha Hk HE [] Hs Hl. destruct HI. set (p' := foldl _ _ _).
  assert (Hwake : forall n, n ∈ l -> n <> a /\ p n = Waiting /\ p' n = Woken /\ n ∉ m_pendingRequests c').
  { intros n Hn. pose proof (proj1 (Hl n) Hn) as (? & ? & ?). assert (n <> a) by congruence. split_and!; [done | by apply i_waiting0 | | rewrite wa_pending0; tauto].
    unfold p'. by rewrite deliver_resumes, decide_True. }
  assert (Hstay : forall n, n ∉ l -> p' n = p n /\ (n <> a -> n ∈ m_pendingRequests c' <-> n ∈ m_pendingRequests c)).
  { intros n Hn. split; [unfold p'; by rewrite deliver_resumes, decide_False |]. intros Hna. rewrite wa_pending0. split; [tauto |]. intros Hp. split; [done |]. intros [? ?]. apply Hn, Hl. done. }
  assert (Hcase : forall Q : place -> Prop, forall n, n <> a -> (n ∈ l -> Q Woken) -> (n ∉ l -> Q (p n)) -> Q (p' n)).
  { intros Q n Hn H1 H2. destruct (decide (n ∈ l)) as [Hd | Hd]; [destruct (Hwake n Hd) as (_ & _ & -> & _); auto | destruct (Hstay n Hd) as (-> & _); auto]. }
  constructor; rewrite ?wa_count0; auto.
  - intros n Hn%wa_pending0. apply i_range0, Hn.
  - intros n Hn ?. rewrite wa_requests0. auto.
  - intros n Hn. apply (Hcase (fun q => q = Absent <-> _)); [done | intros Hd | auto].
    destruct (Hwake n Hd) as (_ & Hp & _). rewrite <- i_absent0, Hp by done. done.
  - intros n Hn. rewrite wa_waiting0. apply (Hcase (fun q => _ <-> q = Waiting)); [done | intros Hd | intros Hd].
    + split; [| done]. intros [? []]. apply Hl in Hd. tauto.
    + rewrite <- i_waiting0 by done. split; [tauto |]. intros Hw. split; [done |]. intros [? ?]. apply Hd, Hl. done.
  - intros n Hn. apply (Hcase (place_ok c' n)); [done | intros Hd | intros Hd].
    + destruct (Hwake n Hd) as (_ & Hp & _ & Hnp). pose proof (i_place0 n Hn) as Hok. rewrite Hp in Hok. cbn in Hok |- *. rewrite wa_requests0.
      destruct Hok as (_ & ? & ?). split; [done |]. right. split_and!; auto. unfold failed_upto, closed_upto. rewrite wa_failed0, wa_responseClosed0.
      apply (first_failed_upto c k); [done | by apply Hl].
    + destruct (Hstay n Hd) as (_ & Hin). specialize (Hin Hn). apply (place_mono c); auto; rewrite ?wa_requests0, ?wa_failed0, ?wa_responseClosed0; auto using no_later_refl.
      * intros [H1 H2]. split; [by apply Hin |]. intros m Hm%wa_pending0. apply H2, Hm.
      * intros _ _. unfold below. by rewrite wa_failed0, wa_responseClosed0.
  - intros n Hn. apply (Hcase (fun q => q = Waiting -> _)); [done | done |]. intros Hd Hp. right.
    assert (Hlt : n < k).
    { pose proof (i_place0 n Hn) as Hok. rewrite Hp in Hok. destruct Hok as (? & _). apply Nat.nle_gt. intros ?. apply Hd, Hl. split_and!; auto. by apply i_waiting0. }
    destruct (i_turn0 n Hn Hp) as [He%HE | [Hf Hb]]; [lia |]. split; [| unfold below; by rewrite wa_failed0, wa_responseClosed0].
    intros [H1 H2]. apply Hf. split; [apply wa_pending0 in H1; apply H1 |]. intros m Hm. destruct (decide (k <= m)) as [|]; [lia |]. apply H2, wa_pending0. tauto.
  - intros n Hn. unfold kept. rewrite wa_requests0, wa_failed0, wa_requestClosed0, wa_responseClosed0, wa_count0. intros. destruct (i_kept0 n Hn) as [? He]; auto. split; [done |].
    apply Hcase; auto. intros _. right. right. by left.
  - intros n Hn E'. rewrite wa_failed0 in E'. pose proof (i_failed0 n Hn E') as Hp. apply (Hcase (fun q => q = Stopped \/ q = Failed)); auto. intros Hd.
    destruct (Hwake n Hd) as (_ & Hpw & _). destruct Hp; congruence.
  - intros n Hn E'. rewrite wa_responseClosed0 in E'. pose proof (i_closed0 n Hn E') as Hp. apply (Hcase (fun q => past q \/ q = Stopped)); auto. intros Hd.
    destruct (Hwake n Hd) as (_ & Hpw & _). destruct Hp as [[|[|[|]]] |]; congruence.
  - intros m n Hm Hn%wa_pending0. apply i_order_le0; [done | apply Hn].
  - intros n Hn. apply (Hcase (fun q => past q -> _)); [done | | auto]. intros _ [|[|[|]]]; done.
  - intros n Hn Ho. apply (Hcase (fun q => past q \/ q = Stopped)); auto. intros Hd. destruct (Hwake n Hd) as (_ & Hp & _). destruct (i_order_past0 n Hn Ho) as [[|[|[|]]] |]; congruence.
  - intros n Hn ?. rewrite wa_requests0. auto.
Qed.
