(* ===== verification/ServerSteps.v ===== *)
(** The critical sections of [Server.v] keep the invariant: no assertion fails in them, and what they leave behind. *)

From Stdlib Require Import String.
From stdpp Require Import functions numbers list_numbers list sorting.
From S2P Require Import Prelude Server ServerWorld ServerInv.

#[local] Open Scope nat_scope.

Notation delivered p evs := (foldl (fun ps e => deliver e ps) p evs).

Lemma server_invariant_ok c p o a : inv_but nobody a c p o -> about c (p a) o a -> invariant c = Ok tt.
Proof.
  intros HI HA. assert (Hall : forall n, n ∈ m_pendingRequests c -> place_ok c n (p n) /\ p n <> Absent /\ (n < m_requestCount c -> completed (req c n) = true)).
  { intros n Hn. destruct HI, HA. pose proof (i_range n Hn). destruct (decide (n = a)) as [-> | Hna]; [done |]. split_and!; auto; [| intros ?; apply i_done; lia].
    intros E%i_absent; [lia | done]. }
  apply invariant_intro.
  - apply HI.
  - intros n Hn. destruct (Hall n Hn) as (H1 & H2 & _). by apply place_pending with (p n).
  - intros n Hn Hr m Hm. destruct (Hall n Hn) as (_ & _ & H3). pose proof (i_range _ _ _ _ _ HI n Hn). pose proof (i_range _ _ _ _ _ HI m Hm).
    destruct (decide (n < m_requestCount c)) as [Hlt |]; [| lia]. rewrite H3 in Hr by done. done.
  - intros n Hn. assert (Hp : place_ok c n (p n) /\ p n = Waiting).
    { destruct HI, HA. destruct (decide (n = a)) as [-> | Hna]; split; auto; [by apply a_waiting | by apply i_waiting]. }
    destruct Hp as [Hp E]. rewrite E in Hp. apply Hp.
Qed.

(** ** The parts *)

Lemma take_turn_inv a c p o : inv_but nobody a c p o -> front c a -> a ∉ o -> (forall j, m_priorRequestFailed c = Some j -> a <= j) -> inv_but nobody a c p (a :: o).
Proof.
  intros [] [Ha Hfr] Hno HF. assert (Hgt : forall k, k ∈ o -> k < a).
  { intros k Hk. pose proof (i_order_le k a Hk Ha). assert (k <> a) by congruence. lia. }
  constructor; auto.
  - intros k m [-> | Hk]%elem_of_cons Hm; auto.
  - intros k [-> | Hk]%elem_of_cons; auto.
  - constructor; [done |]. rewrite Forall_forall. intros k Hk. apply Hgt in Hk. lia.
  - intros n Hn Hp. right. auto.
  - intros n Hn [-> | Hk]%elem_of_cons; [done | auto].
  - cbn [tail]. intros k Hk Ho. pose proof (i_place k Hk) as Hp. pose proof (Hgt k Ho).
    assert (Hnf : ~ front c k) by (intros Hf; by apply Hk, (front_unique c)).
    destruct (i_order_past k Hk Ho) as [[E|[E|[E|E]]] | E]; rewrite E in Hp; cbn in Hp; try tauto.
    destruct Hp as (_ & _ & _ & [|(j & Ej & ?)]); [done |]. apply HF in Ej. lia.
Qed.

Lemma hand_over_inv E a c p o n : inv_but E a c p o -> (forall m, E m -> m = n) -> n <> a -> p n = Waiting -> front c n -> below c n ->
  inv_but nobody a (hand_over n c) (<[n := Woken]> p) o.
Proof.
  intros [] HE Hna Hp Hfr Hb. pose proof (i_place n Hna) as Hok. rewrite Hp in Hok. destruct Hok as (_ & Hq & Hr).
  assert (Hno : n ∉ o) by (intros Ho; destruct (i_order_past n Hna Ho) as [[|[|[|]]] |]; congruence).
  constructor; auto.
  - intros m Hm Hlt. cbn. destruct (decide (m = n)) as [-> |]; [rewrite fn_lookup_insert; cbn; auto | rewrite fn_lookup_insert_ne by done; auto].
  - intros m Hm. destruct (decide (m = n)) as [-> |]; [rewrite fn_lookup_insert; rewrite <- i_absent, Hp by done; done | rewrite fn_lookup_insert_ne by done; auto].
  - intros m Hm. cbn. rewrite elem_of_erase. destruct (decide (m = n)) as [-> |]; [rewrite fn_lookup_insert; split; [tauto | done] |].
    rewrite fn_lookup_insert_ne, <- i_waiting by done. tauto.
  - intros m Hm. destruct (decide (m = n)) as [-> |].
    + rewrite fn_lookup_insert. cbn. rewrite fn_lookup_insert. cbn. split; [done |]. left. done.
    + rewrite fn_lookup_insert_ne by done. apply (place_mono c); auto using no_later_refl. cbn. by rewrite fn_lookup_insert_ne.
  - intros m Hm. destruct (decide (m = n)) as [-> |]; [by rewrite fn_lookup_insert |]. rewrite fn_lookup_insert_ne by done. intros Hpm. right.
    destruct (i_turn m Hm Hpm) as [He%HE |]; [congruence | done].
  - intros m Hm. unfold kept. cbn. destruct (decide (m = n)) as [-> |].
    + rewrite !fn_lookup_insert. cbn. intros. destruct (i_kept n Hna) as [? _]; auto. split; [done |]. right. right. by left.
    + rewrite !fn_lookup_insert_ne by done. apply i_kept. done.
  - intros m Hm E'. pose proof (i_failed m Hm E'). rewrite fn_lookup_insert_ne; [done |]. intros ->. destruct H; congruence.
  - intros m Hm E'. pose proof (i_closed m Hm E') as H. rewrite fn_lookup_insert_ne; [done |]. intros ->. destruct H as [[|[|[|]]] |]; congruence.
  - intros m Hm. destruct (decide (m = n)) as [-> |]; [rewrite fn_lookup_insert; by intros [|[|[|]]] |]. rewrite fn_lookup_insert_ne by done. auto.
  - intros m Hm Ho. rewrite fn_lookup_insert_ne by congruence. auto.
  - intros m Hm Ho. cbn. rewrite fn_lookup_insert_ne; [auto |]. intros ->. by apply elem_of_tail in Ho.
Qed.

(** What [scheduleNextRequest] leaves alone, and that it reads on where it should. *)
Record nexted (a : nat) (c c' : ServerConnection) : Prop := {
  nx_requests : forall n, n <= m_requestCount c -> m_requests c' n = m_requests c n;
  nx_count : m_requestCount c <= m_requestCount c';
  nx_waiting : m_waitingResponses c' = m_waitingResponses c;
  nx_failed : m_priorRequestFailed c' = m_priorRequestFailed c;
  nx_requestClosed : m_priorRequestClosed c' = m_priorRequestClosed c;
  nx_responseClosed : m_priorResponseClosed c' = m_priorResponseClosed c;
  nx_pending : forall n, n <= m_requestCount c -> n ∈ m_pendingRequests c' <-> n ∈ m_pendingRequests c;
  nx_front : forall n, n <= m_requestCount c -> front c n -> front c' n;
  nx_read : m_priorRequestFailed c = None -> m_priorRequestClosed c = None -> m_priorResponseClosed c = None -> m_requestCount c' = a -> req c a <> COMPLETE;
  nx_done : a < m_requestCount c' -> a < m_requestCount c \/ req c a = COMPLETE;
}.

Lemma server_next_ok E a c p o : inv_but E a c p o -> 1 <= a -> exists c' evs, scheduleNextRequest (Some a) c = Ok c' /\ m_events c' = m_events c ++ evs /\ nexted a c c' /\
  inv_but E a c' (delivered p evs) o /\ delivered p evs a = p a.
Proof.
  intros HI Ha. pose proof (i_actor _ _ _ _ _ HI) as HaN. unfold scheduleNextRequest. rewrite (bool_decide_true (is_Some (Some a))) by (by eexists). cbn [orb ASSERT mbind result_bind].
  rewrite (proj2 (Nat.eqb_neq _ _)) by lia. cbn [orb].
  destruct ((a =? m_requestCount c) && _ && _ && _ && _) eqn:Eg.
  - rewrite !andb_true_iff, !bool_decide_eq_true in Eg. destruct Eg as ((((EN%Nat.eqb_eq & Eq) & _) & _) & _).
    eexists _, [DoRequest _]. split; [reflexivity |]. split; [reflexivity |]. split; [| split; [by apply server_add_inv | cbn; rewrite fn_lookup_insert_ne by lia; done]].
    constructor; cbn; auto; try lia.
    + intros n Hn. by rewrite fn_lookup_insert_ne by lia.
    + intros n Hn. rewrite elem_of_app, list_elem_of_singleton. split; [intros [|]; [done | lia] | by left].
    + intros n Hn [H1 H2]. split; [apply elem_of_app; by left |]. intros m. cbn. rewrite elem_of_app, list_elem_of_singleton. intros [| ->]; [auto | lia].
  - exists c, []. rewrite app_nil_r. split_and!; auto. constructor; auto; try tauto.
    + intros EF EC ER EN Eq. rewrite EF, EC, ER, Eq, EN, Nat.eqb_refl in Eg. done.
Qed.

(** A failure at [a]: nobody who comes after waits any longer. *)
Lemma fail_inv E a c p o : inv_but E a c p o -> (forall n, E n -> a <= n) -> a ∉ m_waitingResponses c -> (forall n, n <> a -> p n = Woken -> front c n -> below c n -> n < a) ->
  exists k c' evs, scheduleAllWaitingResponses (set_failed (Some (min_number (m_priorRequestFailed c) a)) c) = Ok c' /\ m_events c' = m_events c ++ evs /\
    woken_all k (set_failed (Some (min_number (m_priorRequestFailed c) a)) c) c' /\ inv_but nobody a c' (delivered p evs) o /\ delivered p evs a = p a.
Proof.
  intros HI HE Ha Hw. set (F := min_number (m_priorRequestFailed c) a). set (c1 := set_failed (Some F) c).
  assert (HF : F <= a) by (unfold F, min_number; destruct (m_priorRequestFailed c); lia).
  assert (HF' : forall n, (forall k, m_priorRequestFailed c = Some k -> n < k) -> n < a -> n < F).
  { intros n Hk Hn. unfold F, min_number. destruct (m_priorRequestFailed c) as [k |]; [specialize (Hk k eq_refl) |]; lia. }
  assert (HI1 : inv_but (fun n => F <= n) a c1 p o).
  { apply (inv_mono E _ a c); auto; try done; try apply HI; try apply no_later_refl; try tauto.
    - apply no_later_some.
    - intros k Hk. cbn. intros [= Ek]. unfold F, min_number in Ek. destruct (m_priorRequestFailed c) as [j |]; [| done]. f_equal. lia.
    - intros n Hn Hp Hf Hb. split; [| apply Hb]. intros k [= <-]. apply HF'; [apply Hb | eauto].
    - intros n Hn Hp [He%HE | [Hf Hb]]; [left; lia |]. destruct (decide (F <= n)); [by left |]. right. split; [done |]. split; [| apply Hb]. intros k [= <-]. lia. }
  assert (Hk : exists k, first_failed c1 k /\ k <= F).
  { unfold first_failed. cbn. destruct (m_priorResponseClosed c); eexists; (split; [reflexivity | lia]). }
  destruct Hk as (k & Hk & HkF). destruct (schedule_all_ok k c1 Hk) as (c' & Ec & Hwa & Ee & Ep).
  exists k, c', (ResumeFiber <$> filter (fun n => k <= n /\ n ∈ m_waitingResponses c) (m_pendingRequests c)). split_and!; auto.
  - apply (woken_inv (fun n => F <= n) a c1 c' p o k); auto; [intros; lia | rewrite Ep; apply sorted_filter, HI1 |].
    intros n. rewrite list_elem_of_filter. tauto.
  - rewrite deliver_resumes, decide_False; [done |]. rewrite list_elem_of_filter. tauto.
Qed.

(** The response of [a], which has its turn, will be the last one. *)
Lemma close_all_inv a c p o : inv_but nobody a c p o -> a ∉ m_waitingResponses c -> front c a -> (forall k, m_priorResponseClosed c = Some k -> a <= k) ->
  exists k c' evs, announce_close a c = Ok c' /\ m_events c' = m_events c ++ evs /\
    (if m_willClose (m_requests c a) then woken_all k (set_responseClosed (Some a) c) c' else c' = c) /\ inv_but nobody a c' (delivered p evs) o /\ delivered p evs a = p a.
Proof.
  intros HI Ha Hfr HR. unfold announce_close. destruct (m_willClose (m_requests c a)) eqn:Ew; [| exists 0, c, []; rewrite app_nil_r; done].
  set (c1 := set_responseClosed (Some a) c).
  assert (HI1 : inv_but (fun n => a <= n) a c1 p o).
  { apply (inv_mono nobody _ a c); auto; try done; try apply HI; try apply no_later_refl; try tauto.
    - intros k Ek. exists a. split; [done |]. auto.
    - intros k Hk. cbn. intros [= E]. by destruct Hk.
    - intros n Hn Hp Hf Hb. destruct Hn. by apply (front_unique c).
    - intros n Hn Hf. destruct Hn. by apply (front_unique c).
    - intros n Hn Hp [[] | [Hf Hb]]. destruct (decide (a <= n)); [by left |]. right. split; [done |]. split; [apply Hb |]. intros k [= <-]. lia. }
  assert (Hk : exists k, first_failed c1 k /\ k <= a).
  { unfold first_failed. cbn. destruct (m_priorRequestFailed c); eexists; (split; [reflexivity | lia]). }
  destruct Hk as (k & Hk & Hka). destruct (schedule_all_ok k c1 Hk) as (c' & Ec & Hwa & Ee & Ep).
  exists k, c', (ResumeFiber <$> filter (fun n => k <= n /\ n ∈ m_waitingResponses c) (m_pendingRequests c)). split_and!; auto.
  - apply (woken_inv (fun n => a <= n) a c1 c' p o k); auto; [intros; lia | rewrite Ep; apply sorted_filter, HI1 |].
    intros n. rewrite list_elem_of_filter. tauto.
  - rewrite deliver_resumes, decide_False; [done |]. rewrite list_elem_of_filter. tauto.
Qed.

(** ** requestComplete *)

Record request_done (a : nat) (c c' : ServerConnection) : Prop := {
  rd_self : m_requests c' a = set_requestState COMPLETE (m_requests c a);
  rd_count : m_requestCount c <= m_requestCount c';
  rd_waiting : m_waitingResponses c' = m_waitingResponses c;
  rd_failed : m_priorRequestFailed c' = m_priorRequestFailed c;
  rd_responseClosed : m_priorResponseClosed c' = m_priorResponseClosed c;
  rd_pending : a ∈ m_pendingRequests c' <-> completed (resp c a) = false;
  rd_front : front c a -> completed (resp c a) = false -> front c' a;
  rd_read : m_priorRequestFailed c' = None -> m_priorRequestClosed c' = None -> m_priorResponseClosed c' = None -> m_requestCount c' = a ->
    m_pipeline (m_requests c a) = false /\ completed (resp c a) = false;
}.

(** A change of [a] alone. *)
Lemma set_request_inv E a f c p o : inv_but E a c p o -> inv_but E a (set_request a f c) p o.
Proof.
  intros HI. apply (inv_mono E E a c); auto; try done; try apply HI; try apply no_later_refl; try tauto.
  intros n Hn. cbn. by rewrite fn_lookup_insert_ne.
Qed.

Lemma set_requestClosed_inv E a n c p o : inv_but E a c p o -> inv_but E a (set_requestClosed (Some n) c) p o.
Proof. intros HI. apply (inv_mono E E a c); auto; try done; try apply HI; try apply no_later_refl; try tauto. Qed.

Lemma raise_inv E a l c p o : inv_but E a c p o -> inv_but E a (raise l c) p o.
Proof. intros HI. apply (inv_mono E E a c); auto; try done; try apply HI; try apply no_later_refl; try tauto. Qed.

(** [a] is the only one that is pending, and leaves. *)
Lemma pop_only_inv a c p o : inv_but nobody a c p o -> front c a -> (forall n, n ∈ m_pendingRequests c -> n <= a) ->
  m_pendingRequests c = [a] /\ inv_but nobody a (pop_front c) p o.
Proof.
  intros HI [Ha Hmin] Hmax. assert (EP : m_pendingRequests c = [a]).
  { pose proof (i_sorted _ _ _ _ _ HI) as Hs. destruct (m_pendingRequests c) as [| x [| y l]]; [by apply elem_of_nil in Ha | by apply list_elem_of_singleton in Ha as -> |].
    apply StronglySorted_inv in Hs as [_ Hall]. rewrite Forall_forall in Hall. specialize (Hall y ltac:(by left)).
    pose proof (Hmax y ltac:(right; by left)). pose proof (Hmin x ltac:(by left)). lia. }
  split; [done |]. apply (inv_mono nobody nobody a c); auto; try done; try apply no_later_refl; try tauto; cbn; rewrite ?EP; cbn.
  - constructor.
  - by intros n ?%elem_of_nil.
  - intros n Hn ->%list_elem_of_singleton. done.
  - intros n Hn Hp _. pose proof (i_place _ _ _ _ _ HI n Hn) as Hok. rewrite Hp in Hok. destruct Hok as (Hin & _). rewrite EP in Hin. by apply list_elem_of_singleton in Hin.
Qed.

Lemma requestComplete_ok h a c p o : inv_but nobody a c p o -> invariant c = Ok tt -> a ∈ m_pendingRequests c -> a = m_requestCount c ->
  req c a = HEADERS \/ req c a = BODY -> (completed (resp c a) = true -> front c a) ->
  exists c' evs, requestComplete h a c = Ok c' /\ m_events c' = m_events c ++ evs /\ request_done a c c' /\
    inv_but nobody a c' (delivered p evs) o /\ delivered p evs a = p a.
Proof.
  intros HI Hinv Ha EN Hq Hfr. unfold requestComplete. rewrite Hinv. cbn [mbind result_bind].
  assert (Hmax : forall n, n ∈ m_pendingRequests c -> n <= a) by (intros n Hn%(i_range _ _ _ _ _ HI); lia).
  pose proof (i_range _ _ _ _ _ HI a Ha) as Hra.
  rewrite (bool_decide_true (last _ = _)) by (apply last_max; auto; apply HI). cbn [ASSERT mbind result_bind].
  replace (_ || _) with true by (symmetry; apply orb_true_iff; rewrite !bool_decide_eq_true; done). cbn [ASSERT mbind result_bind].
  set (c1 := set_request a (set_requestState COMPLETE) c). assert (HI1 : inv_but nobody a c1 p o) by (by apply set_request_inv).
  assert (E1 : m_requests c1 a = set_requestState COMPLETE (m_requests c a)) by (unfold c1; cbn; by rewrite fn_lookup_insert). rewrite E1. cbn [m_willClose m_responseState set_requestState].
  destruct (completed (resp c a)) eqn:Er.
  - rewrite (proj2 (front_is_iff c1 a (i_sorted _ _ _ _ _ HI1)) (Hfr eq_refl)). cbn [ASSERT mbind result_bind].
    destruct (pop_only_inv a c1 p o HI1 (Hfr eq_refl) Hmax) as [EP HI2]. destruct (m_willClose (m_requests c a)) eqn:Ew; cbn [negb mbind result_bind].
    + exists (raise (if h then [CloseRead] else []) (set_requestClosed (Some a) (pop_front c1))), (if h then [CloseRead] else []).
      split; [done |]. split; [done |]. split; [| destruct h; (split; [by apply raise_inv, set_requestClosed_inv | done])].
      constructor; cbn; auto; [| by rewrite Er | done]. change (m_pendingRequests c) with (m_pendingRequests c1). rewrite EP, Er. cbn. split; [by intros ?%elem_of_nil | done].
    + destruct (server_next_ok nobody a (pop_front c1) p o HI2 ltac:(lia)) as (c3 & ev3 & E3 & Ee3 & Hn3 & HI3 & Hp3). rewrite E3. cbn [mbind result_bind].
      assert (Ec3 : m_requests c3 a = set_requestState COMPLETE (m_requests c a)) by (rewrite (nx_requests _ _ _ Hn3) by (cbn; lia); exact E1).
      rewrite Ec3. cbn [m_pipeline set_requestState].
      assert (Hd3 : request_done a c c3).
      { destruct Hn3. constructor; auto; [| by rewrite Er |].
        - rewrite nx_pending0 by (cbn; lia). cbn. change (m_pendingRequests c) with (m_pendingRequests c1). rewrite EP, Er. cbn. split; [by intros ?%elem_of_nil | done].
        - rewrite nx_failed0, nx_requestClosed0, nx_responseClosed0. intros ? ? ? EN'. destruct nx_read0; auto. change (m_requestState (m_requests c1 a) = COMPLETE). by rewrite E1. }
      destruct (m_pipeline (m_requests c a)); [| exists c3, ev3; done].
      destruct (server_next_ok nobody a c3 _ o HI3 ltac:(lia)) as (c4 & ev4 & E4 & Ee4 & Hn4 & HI4 & Hp4). exists c4, (ev3 ++ ev4). rewrite foldl_app.
      split; [done |]. split; [by rewrite Ee4, Ee3, app_assoc |]. split; [| split; [done | by rewrite Hp4]].
      assert (HaN : a <= m_requestCount c3) by (pose proof (nx_count _ _ _ Hn3); cbn in *; lia).
      destruct Hd3, Hn4. constructor; rewrite ?nx_failed0, ?nx_responseClosed0, ?nx_waiting0; auto.
      * by rewrite nx_requests0.
      * lia.
      * by rewrite nx_pending0.
      * rewrite nx_requestClosed0. intros ? ? ? EN'. destruct nx_read0; auto. by rewrite Ec3.
  - cbn [mbind result_bind]. destruct (m_willClose (m_requests c a)) eqn:Ew; cbn [negb].
    + exists (raise (if h then [CloseRead] else []) (set_requestClosed (Some a) c1)), (if h then [CloseRead] else []).
      split; [done |]. split; [done |]. split; [| destruct h; (split; [by apply raise_inv, set_requestClosed_inv | done])].
      constructor; cbn; auto; [by rewrite Er | done].
    + assert (Hbase : m_pipeline (m_requests c a) = false -> request_done a c c1) by (intros Hp; constructor; auto; by rewrite Er).
      rewrite E1. cbn [m_pipeline set_requestState]. destruct (m_pipeline (m_requests c a)) eqn:Ep; [| exists c1, []; rewrite app_nil_r; auto].
      destruct (server_next_ok nobody a c1 p o HI1 ltac:(lia)) as (c3 & ev3 & E3 & Ee3 & Hn3 & HI3 & Hp3). exists c3, ev3. split_and!; auto.
      destruct Hn3. constructor; auto.
      * by rewrite nx_requests0 by (cbn; lia).
      * rewrite nx_pending0 by (cbn; lia). by rewrite Er.
      * intros Hf _. apply nx_front0; [cbn; lia | done].
      * rewrite nx_failed0, nx_requestClosed0, nx_responseClosed0. intros ? ? ? EN'. destruct nx_read0; auto. by rewrite E1.
Qed.

(** ** commit *)

Lemma invariant_about c p o a q : inv_but nobody a c p o -> about c q o a -> invariant c = Ok tt.
Proof. intros HI HA. apply (server_invariant_ok c (<[a := q]> p) o a); [by apply move_inv | by rewrite fn_lookup_insert]. Qed.

(** [a] leaves the queue because an earlier request failed or closed the connection: nobody behind it waits. *)
Lemma server_leave_inv a c p o : inv_but nobody a c p o -> a ∈ m_pendingRequests c ->
  number_before (m_priorRequestFailed c) a || number_before (m_priorResponseClosed c) a = true -> inv_but nobody a (set_pending (erase a (m_pendingRequests c)) c) p o.
Proof.
  intros HI Ha Hb. apply (inv_mono nobody nobody a c); auto; try done; try apply no_later_refl; try tauto; cbn.
  - apply sorted_filter, HI.
  - intros n. rewrite elem_of_erase. tauto.
  - intros n Hn. rewrite elem_of_erase. tauto.
  - intros n Hn Hp [[] | [Hf [H1 H2]]]. right. split; [| done]. assert (Hlt : n < a).
    { apply orb_true_iff in Hb. unfold number_before in Hb. destruct (m_priorRequestFailed c) as [x |], (m_priorResponseClosed c) as [y |];
        destruct Hb as [Hb | Hb]; try done; apply Nat.ltb_lt in Hb; [specialize (H1 x eq_refl) | specialize (H2 y eq_refl) | specialize (H1 x eq_refl) | specialize (H2 y eq_refl)]; lia. }
    intros [H3 H4]. cbn in H3, H4. apply Hf. split; [apply elem_of_erase in H3; apply H3 |]. intros m Hm. destruct (decide (m = a)) as [-> |]; [lia |]. apply H4. by apply elem_of_erase.
Qed.

Definition place_of (o : commit_outcome) : place :=
  match o with Responds => Responding | Waits => Waiting | PriorRequestFailed => Thrown false | ConnectionVoluntarilyClosed => Thrown true end.
Definition order_of (out : commit_outcome) (a : nat) (o : list nat) : list nat := match out with Responds => a :: o | _ => o end.

(** The end of [commit] for a request that has its turn. *)
Lemma respond_ok a c p o c1 : inv_but nobody a c p o -> front c a -> a ∉ m_waitingResponses c -> a ∉ o -> read_on (req c a) -> (a < m_requestCount c -> completed (req c a) = true) ->
  (forall k, m_priorRequestFailed c = Some k -> a < k) -> (forall k, m_priorResponseClosed c = Some k -> a < k) -> kept c a Responding -> sending (resp c a) ->
  announce_close a c = Ok c1 -> exists evs, m_events c1 = m_events c ++ evs /\ delivered p evs a = p a /\ m_requests c1 = m_requests c /\
    inv_but nobody a c1 (delivered p evs) (a :: o) /\ about c1 Responding (a :: o) a.
Proof.
  intros HI Hfr Hw Ho Hq Hd HF HR Hk Hs E. destruct (close_all_inv a c p o HI Hw Hfr) as (k & c' & evs & E' & Ee & Hc & HI' & Hp); [intros k Ek; apply HR in Ek; lia |].
  rewrite E in E'. injection E' as <-. exists evs. pose proof (i_range _ _ _ _ _ HI a (proj1 Hfr)).
  assert (Hall : m_requests c1 = m_requests c /\ m_requestCount c1 = m_requestCount c /\ m_priorRequestFailed c1 = m_priorRequestFailed c /\ m_priorRequestClosed c1 = m_priorRequestClosed c /\
    front c1 a /\ a ∉ m_waitingResponses c1 /\ (m_priorResponseClosed c1 = m_priorResponseClosed c \/ m_priorResponseClosed c1 = Some a) /\ (m_willClose (m_requests c a) = true -> m_priorResponseClosed c1 = Some a)).
  { destruct (m_willClose (m_requests c a)); [| subst c1; split_and!; auto; done]. destruct Hc. cbn in *. split_and!; auto.
    - split; [apply wa_pending; split; [apply Hfr | tauto] |]. intros m Hm%wa_pending. apply Hfr, Hm.
    - rewrite wa_waiting. tauto. }
  destruct Hall as (Er & EN & EF & EC & Hfr1 & Hw1 & ER & Ecl). split_and!; auto.
  - apply take_turn_inv; auto. rewrite EF. intros j Ej. apply HF in Ej. lia.
  - constructor; rewrite ?Er, ?EN; auto.
    + done.
    + cbn. rewrite Er. split_and!; auto.
    + done.
    + unfold kept in *. rewrite Er, EN, EF, EC. intros H1 H2 H3. destruct ER as [ER | ER]; [rewrite ER in H3; auto | congruence].
    + rewrite EF. intros Ej%HF. lia.
    + intros _. left. by left.
    + intros _. by left.
    + intros _. left. by left.
    + cbn [tail]. done.
Qed.

Lemma commit_enter_ok a c p o : inv_but nobody a c p o -> about c Handling o a ->
  exists out c' evs, commit_enter a c = Ok (out, c') /\ m_events c' = m_events c ++ evs /\ delivered p evs a = p a /\
    inv_but nobody a c' (delivered p evs) (order_of out a o) /\ about c' (place_of out) (order_of out a o) a.
Proof.
  intros HI HA. unfold commit_enter. rewrite (invariant_about c p o a Handling HI HA). cbn [mbind result_bind]. destruct HA. cbn in a_place. destruct a_place as (Hin & Hq & Hr).
  assert (Hno : a ∉ o) by (intros Ha; destruct (a_order_past Ha) as [[|[|[|]]] |]; done). assert (Hw : a ∉ m_waitingResponses c) by (rewrite a_waiting; done).
  assert (HF : m_priorRequestFailed c <> Some a) by (intros E; by destruct (a_failed E)). assert (HR : m_priorResponseClosed c <> Some a) by (intros E; destruct (a_closed E) as [[|[|[|]]] |]; done).
  destruct (number_before (m_priorRequestFailed c) a || number_before (m_priorResponseClosed c) a) eqn:Hb.
  - unfold mem. rewrite bool_decide_true by done. cbn [ASSERT mbind result_bind]. eexists _, _, []. split; [reflexivity |]. rewrite app_nil_r. split; [done |]. split; [done |].
    set (out := if number_before _ _ then _ else _). assert (order_of out a o = o) as -> by (unfold out; by destruct (number_before _ _)). split; [by apply server_leave_inv |].
    assert (Hup : place_ok (set_pending (erase a (m_pendingRequests c)) c) a (place_of out)).
    { unfold out. destruct (number_before (m_priorRequestFailed c) a) eqn:Ef; cbn; rewrite elem_of_erase; split_and!; try tauto; unfold failed_upto, closed_upto; cbn.
      - unfold number_before in Ef. destruct (m_priorRequestFailed c) as [k |]; [| done]. apply Nat.ltb_lt in Ef. exists k. split; [done | lia].
      - cbn in Hb. unfold number_before in Hb. destruct (m_priorResponseClosed c) as [k |]; [| done]. apply Nat.ltb_lt in Hb. exists k. split; [done | lia]. }
    assert (Hpl : place_of out = Thrown false \/ place_of out = Thrown true) by (unfold out; destruct (number_before _ _); auto).
    constructor; auto; try done.
    + destruct Hpl as [-> | ->]; done.
    + cbn. destruct Hpl as [-> | ->]; split; done.
    + destruct Hpl as [-> | ->]; done.
    + unfold kept. cbn. intros EF _ ER. rewrite EF, ER in Hb. done.
    + destruct Hpl as [-> | ->]; by intros [|[|[|]]].
  - apply orb_false_iff in Hb as [HbF HbR].
    assert (Hlt : forall x k, number_before x a = false -> x <> Some a -> x = Some k -> a < k).
    { intros x k Hx Hne ->. cbn in Hx. apply Nat.ltb_ge in Hx. assert (k <> a) by congruence. lia. }
    rewrite (bool_decide_false (m_pendingRequests c = [])) by (intros E; rewrite E in Hin; by apply elem_of_nil in Hin). cbn [negb ASSERT mbind result_bind].
    destruct (front_is a c) eqn:Ef; cbn [negb].
    + apply front_is_iff in Ef; [| apply HI]. set (c1 := set_request a (set_responseState HEADERS) c).
      assert (HI1 : inv_but nobody a c1 p o) by (by apply set_request_inv).
      assert (E1 : m_requests c1 a = set_responseState HEADERS (m_requests c a)) by (unfold c1; cbn; by rewrite fn_lookup_insert).
      destruct (close_all_inv a c1 p o HI1 Hw Ef) as (_ & c' & _ & E & _); [intros k Ek; eapply Nat.lt_le_incl, Hlt; eauto |].
      destruct (respond_ok a c1 p o c' HI1 Ef Hw Hno) as (evs & Ee & Hp & _ & HI' & HA'); rewrite ?E1; eauto.
      * unfold kept. rewrite E1. intros. destruct a_kept; auto. split; [done |]. right. right. by right.
      * by left.
      * rewrite E. cbn [mbind result_bind]. exists Responds, c', evs. done.
    + unfold mem. rewrite (bool_decide_false (a ∈ _)) by done. cbn [negb ASSERT mbind result_bind].
      eexists Waits, _, []. split; [reflexivity |]. rewrite app_nil_r. split; [done |]. split; [done |]. split.
      * apply (inv_mono nobody nobody a c); auto; try done; try apply HI; try apply no_later_refl; try tauto; cbn.
        -- intros n Hn. by rewrite fn_lookup_insert_ne.
        -- intros n Hn. rewrite elem_of_app, list_elem_of_singleton. tauto.
      * assert (Hnf : ~ front c a) by (rewrite <- front_is_iff by apply HI; congruence).
        constructor; cbn; rewrite ?fn_lookup_insert; auto; try done.
        -- rewrite elem_of_app, list_elem_of_singleton. tauto.
        -- intros _. split; [done |]. split; cbn; intros k Ek; [exact (Hlt _ _ HbF HF Ek) | exact (Hlt _ _ HbR HR Ek)].
        -- unfold kept. cbn. rewrite fn_lookup_insert. cbn. intros. destruct a_kept; auto. split; [done |]. right. by left.
        -- by intros [|[|[|]]].
        -- intros Ht%elem_of_tail. done.
Qed.

Lemma about_ext c c' q o a : about c q o a -> m_requests c' a = m_requests c a -> m_pendingRequests c' = m_pendingRequests c -> m_waitingResponses c' = m_waitingResponses c ->
  m_requestCount c' = m_requestCount c -> m_priorRequestFailed c' = m_priorRequestFailed c -> m_priorRequestClosed c' = m_priorRequestClosed c ->
  m_priorResponseClosed c' = m_priorResponseClosed c -> about c' q o a.
Proof.
  intros [] Er EP EW EN EF EC ER. constructor; rewrite ?Er, ?EW, ?EN, ?EF, ?ER; auto.
  - apply (place_mono c); auto; rewrite ?EP, ?EF, ?ER; auto using no_later_refl.
    + unfold front. by rewrite EP.
    + unfold below. by rewrite EF, ER.
  - intros Hp. destruct (a_turn Hp). unfold turn_ok, front, below. by rewrite EP, EF, ER.
  - unfold kept. by rewrite Er, EN, EF, EC, ER.
Qed.

Lemma upto_spec x n : number_upto x n = true <-> exists k, x = Some k /\ k <= n.
Proof.
  unfold number_upto. destruct x as [k |]; [rewrite Nat.leb_le | split; [done | by intros (? & ? & _)]]. split; [by exists k | by intros (? & [= <-] & ?)].
Qed.

Lemma commit_resumed_ok a c p o : inv_but nobody a c p o -> about c Woken o a ->
  exists out c' evs, commit_resumed a c = Ok (out, c') /\ m_events c' = m_events c ++ evs /\ delivered p evs a = p a /\
    inv_but nobody a c' (delivered p evs) (order_of out a o) /\ about c' (place_of out) (order_of out a o) a.
Proof.
  intros HI HA. unfold commit_resumed. rewrite (invariant_about c p o a Woken HI HA). cbn [mbind result_bind]. destruct HA. cbn in a_place. destruct a_place as (Hq & Hcase).
  assert (Hno : a ∉ o) by (intros Ha; destruct (a_order_past Ha) as [[|[|[|]]] |]; done). assert (Hw : a ∉ m_waitingResponses c) by (rewrite a_waiting; done).
  destruct Hcase as [(Hfr & Hr & HbF & HbR) | (Hin & Hr & Hup)].
  - assert (Hu : forall x, (forall k, x = Some k -> a < k) -> number_upto x a = false).
    { intros x Hx. destruct (number_upto x a) eqn:E; [| done]. apply upto_spec in E as (k & Ek & ?). apply Hx in Ek. lia. }
    rewrite (Hu _ HbF), (Hu _ HbR). rewrite (proj2 (front_is_iff c a (i_sorted _ _ _ _ _ HI)) Hfr). cbn [ASSERT mbind result_bind].
    destruct (close_all_inv a c p o HI Hw Hfr) as (_ & c' & _ & E & _); [intros k Ek; apply HbR in Ek; lia |].
    destruct (respond_ok a c p o c' HI Hfr Hw Hno) as (evs & Ee & Hp & Er & HI' & HA'); auto; [| by left |].
    { unfold kept. intros. destruct a_kept; auto. split; [done |]. right. right. by right. }
    rewrite E. cbn [mbind result_bind]. exists Responds, (set_request a (set_responseState HEADERS) c'), evs. split_and!; auto; [by apply set_request_inv |].
    apply (about_ext c'); auto. cbn. rewrite fn_lookup_insert, Er. unfold set_responseState. rewrite <- Hr. by destruct (m_requests c a).
  - assert (Hab : forall closed : bool, (if closed then closed_upto c a else failed_upto c a) -> about c (Thrown closed) o a).
    { intros closed Hc. constructor; auto; try done.
      - cbn. split_and!; auto.
      - unfold kept. intros EF _ ER. unfold failed_upto, closed_upto in Hup. rewrite EF, ER in Hup. destruct Hup as [(? & ? & _) | (? & ? & _)]; done.
      - intros E. by destruct (a_failed E).
      - intros E. destruct (a_closed E) as [[|[|[|]]] |]; done.
      - by intros [|[|[|]]]. }
    destruct (number_upto (m_priorRequestFailed c) a) eqn:EF.
    + exists PriorRequestFailed, c, []. rewrite app_nil_r. split_and!; auto. apply Hab. by apply upto_spec in EF.
    + destruct (number_upto (m_priorResponseClosed c) a) eqn:ER.
      * exists ConnectionVoluntarilyClosed, c, []. rewrite app_nil_r. split_and!; auto. apply Hab. by apply upto_spec in ER.
      * destruct Hup as [Hup%upto_spec | Hup%upto_spec]; congruence.
Qed.

(** ** responseComplete *)

Lemma pop_inv a c p o : inv_but nobody a c p o -> front c a ->
  (forall n, n ∈ m_pendingRequests (pop_front c) <-> n <> a /\ n ∈ m_pendingRequests c) /\
  inv_but (fun n => front (pop_front c) n /\ below (pop_front c) n) a (pop_front c) p o.
Proof.
  intros HI Hfr. pose proof (i_sorted _ _ _ _ _ HI) as Hs. pose proof (proj2 (front_iff c a Hs) Hfr) as Hh.
  assert (EP : m_pendingRequests (pop_front c) = erase a (m_pendingRequests c)).
  { cbn. destruct (m_pendingRequests c) as [| x l]; [done |]. injection Hh as ->. by apply sorted_tail. }
  assert (Hin : forall n, n ∈ m_pendingRequests (pop_front c) <-> n <> a /\ n ∈ m_pendingRequests c) by (intros n; by rewrite EP, elem_of_erase).
  split; [done |]. apply (inv_mono nobody _ a c); auto; try done; try apply no_later_refl; try tauto.
  - rewrite EP. by apply sorted_filter.
  - intros n Hn. apply Hin in Hn. apply Hn.
  - intros n Hn Hnp. by apply Hin.
  - intros n Hn Hp [[] | [_ Hb]]. destruct (decide (head (m_pendingRequests (pop_front c)) = Some n)) as [Hd | Hd].
    + left. split; [| done]. apply front_iff; [| done]. rewrite EP. by apply sorted_filter.
    + right. split; [| done]. intros Hf. apply Hd, front_iff; [| done]. rewrite EP. by apply sorted_filter.
Qed.

(** The new first request gets its turn if it waits for it. *)
Lemma pass_turn a c p o : inv_but (fun n => front c n /\ below c n) a c p o -> a ∉ m_pendingRequests c -> exists c' evs,
  match head (m_pendingRequests c) with Some next => Ok (if mem next (m_waitingResponses c) then hand_over next c else c) | None => Ok c end = Ok c' /\
  m_events c' = m_events c ++ evs /\ delivered p evs a = p a /\ inv_but nobody a c' (delivered p evs) o /\
  m_requests c' a = m_requests c a /\ m_pendingRequests c' = m_pendingRequests c /\ (a ∉ m_waitingResponses c -> a ∉ m_waitingResponses c') /\ m_requestCount c' = m_requestCount c /\
  m_priorRequestFailed c' = m_priorRequestFailed c /\ m_priorRequestClosed c' = m_priorRequestClosed c /\ m_priorResponseClosed c' = m_priorResponseClosed c.
Proof.
  intros HI Ha. pose proof (i_sorted _ _ _ _ _ HI) as Hs.
  assert (Hsame : (forall n, n <> a -> p n = Waiting -> ~ front c n) -> inv_but nobody a c p o).
  { intros Hn. destruct HI. constructor; auto. intros n Hna Hp. destruct (i_turn n Hna Hp) as [[Hf _] |]; [by destruct (Hn n Hna Hp) | by right]. }
  destruct (head (m_pendingRequests c)) as [next |] eqn:Eh.
  - apply front_iff in Eh; [| done]. assert (Hna : next <> a) by (intros ->; apply Ha, Eh). unfold mem. case_bool_decide as Hw.
    + exists (hand_over next c), [ResumeFiber next]. apply (i_waiting _ _ _ _ _ HI) in Hw; [| done]. assert (Hb : below c next) by (destruct (i_turn _ _ _ _ _ HI next Hna Hw) as [[_ ?] | [_ ?]]; done).
      split_and!; auto; cbn.
      * by rewrite fn_lookup_insert_ne.
      * apply (hand_over_inv (fun n => front c n /\ below c n)); auto. intros m [Hm _]. by apply (front_unique c).
      * by rewrite fn_lookup_insert_ne.
      * rewrite elem_of_erase. tauto.
    + exists c, []. rewrite app_nil_r. split_and!; auto. apply Hsame. intros n Hn Hp Hf. apply Hw. rewrite (front_unique c next n Eh Hf). by apply (i_waiting _ _ _ _ _ HI).
  - exists c, []. rewrite app_nil_r. split_and!; auto. apply Hsame. intros n Hn Hp [Hf _]. destruct (m_pendingRequests c); [by apply elem_of_nil in Hf | done].
Qed.

Lemma responded_about c c' a o : about c Flushed o a -> m_requests c' a = set_responseState COMPLETE (m_requests c a) -> m_requestCount c <= m_requestCount c' -> a ∉ m_waitingResponses c' ->
  (a < m_requestCount c' -> completed (req c a) = true) ->
  m_priorRequestFailed c' = m_priorRequestFailed c -> m_priorResponseClosed c' = m_priorResponseClosed c -> kept c' a Responded ->
  (if completed (req c a) then a ∉ m_pendingRequests c' else front c' a) -> about c' Responded o a.
Proof.
  intros [] Er EN EW Hd EF ER Hk Hp. cbn in a_place. destruct a_place as (_ & Hq & _). constructor; rewrite ?Er, ?EF, ?ER; auto; try done.
  - lia.
  - cbn. rewrite Er. cbn. split; [done |]. destruct (completed (req c a)) eqn:Eq; [by left |]. right. destruct Hq; [done | congruence].
  - intros E. by destruct (a_failed E).
  - intros _. left. right. right. by left.
  - intros _. apply a_past. right. by left.
  - intros _. left. right. right. by left.
Qed.

Lemma responseComplete2_ok a c p o : inv_but nobody a c p o -> about c Flushed o a ->
  exists c' evs, responseComplete2 a c = Ok c' /\ m_events c' = m_events c ++ evs /\ delivered p evs a = p a /\ inv_but nobody a c' (delivered p evs) o /\ about c' Responded o a.
Proof.
  intros HI HA. unfold responseComplete2. rewrite (invariant_about c p o a Flushed HI HA). cbn [mbind result_bind]. pose proof (a_place _ _ _ _ HA) as (Hfr & Hq & _).
  rewrite (proj2 (front_is_iff c a (i_sorted _ _ _ _ _ HI)) Hfr). cbn [ASSERT mbind result_bind].
  set (c1 := set_request a (set_responseState COMPLETE) c). assert (HI1 : inv_but nobody a c1 p o) by (by apply set_request_inv).
  assert (E1 : m_requests c1 a = set_responseState COMPLETE (m_requests c a)) by (unfold c1; cbn; by rewrite fn_lookup_insert). rewrite E1. cbn [m_requestState set_responseState].
  assert (Hw : a ∉ m_waitingResponses c) by (rewrite (a_waiting _ _ _ _ HA); done).
  assert (Hkept : forall c', m_requests c' a = m_requests c1 a -> m_requestCount c' = m_requestCount c -> m_priorRequestFailed c' = m_priorRequestFailed c ->
    m_priorRequestClosed c' = m_priorRequestClosed c -> m_priorResponseClosed c' = m_priorResponseClosed c -> kept c' a Responded).
  { intros c' Er EN EF EC ER. unfold kept. rewrite Er, E1, EN, EF, EC, ER. cbn. intros. destruct (a_kept _ _ _ _ HA) as [_ [|[|[|]]]]; done. }
  destruct (completed (req c a)) eqn:Eq.
  - destruct (pop_inv a c1 p o HI1 Hfr) as [Hin HI2]. destruct (pass_turn a (pop_front c1) p o HI2) as (c' & evs & E & Ee & Hp & HI' & Er & EP & EW & EN & EF & EC & ER); [rewrite Hin; tauto |].
    exists c', evs. split_and!; auto. apply (responded_about c); auto; [by rewrite Er | by rewrite EN | rewrite Eq, EP, Hin; tauto].
  - assert (Eh : head (m_pendingRequests c1) = Some a) by (by apply front_iff; [apply HI |]). rewrite Eh. unfold mem. rewrite (bool_decide_false (a ∈ m_waitingResponses c1)) by done.
    exists c1, []. rewrite app_nil_r. split_and!; auto. apply (responded_about c); auto; [apply (a_done _ _ _ _ HA) | by rewrite Eq].
Qed.

Lemma flushed_about c c' a o : about c Responding o a -> m_requests c' a = m_requests c a -> m_requestCount c <= m_requestCount c' -> a ∉ m_waitingResponses c' ->
  (a < m_requestCount c' -> completed (req c a) = true) ->
  m_priorRequestFailed c' = m_priorRequestFailed c -> m_priorResponseClosed c' = m_priorResponseClosed c -> kept c' a Flushed -> front c' a -> about c' Flushed o a.
Proof.
  intros [] Er EN EW Hd EF ER Hk Hp. cbn in a_place. destruct a_place as (_ & Hq & Hs & Hc). constructor; rewrite ?Er, ?EF, ?ER; auto; try done.
  - lia.
  - cbn. rewrite Er, ER. done.
  - intros E. by destruct (a_failed E).
  - intros _. left. right. by left.
  - intros _. apply a_past. by left.
  - intros _. left. right. by left.
Qed.

(** [m_priorResponseClosed] was set when the response began. *)
Lemma close_again c q o a : about c q o a -> q = Responding -> (if m_willClose (m_requests c a) then set_responseClosed (Some a) c else c) = c.
Proof.
  intros HA ->. pose proof (a_place _ _ _ _ HA) as (_ & _ & _ & Hc). destruct (m_willClose (m_requests c a)); [| done]. unfold set_responseClosed. rewrite <- (Hc eq_refl). by destruct c.
Qed.

Lemma responseComplete1_ok a c p o : inv_but nobody a c p o -> about c Responding o a ->
  exists r c' evs, responseComplete1 a c = Ok (r, c') /\ m_events c' = m_events c ++ evs /\ delivered p evs a = p a /\ inv_but nobody a c' (delivered p evs) o /\
    about c' (if r then Responded else Flushed) o a.
Proof.
  intros HI HA. unfold responseComplete1. rewrite (invariant_about c p o a Responding HI HA). cbn [mbind result_bind]. pose proof (a_place _ _ _ _ HA) as (Hfr & Hq & Hs & Hcl).
  pose proof (i_sorted _ _ _ _ _ HI) as Hsort. rewrite (proj2 (front_is_iff c a Hsort) Hfr). cbn [ASSERT mbind result_bind].
  pose proof (proj2 (front_iff c a Hsort) Hfr) as Hh. assert (Hw : a ∉ m_waitingResponses c) by (rewrite (a_waiting _ _ _ _ HA); done).
  destruct (m_pendingRequests c) as [| x rest] eqn:EP; [done |]. injection Hh as ->. destruct rest as [| next rest]; cbn [nth_error].
  - destruct (completed (req c a)) eqn:Eq; cycle 1.
    { cbn [mbind result_bind]. rewrite (close_again c Responding o a HA eq_refl). exists false, c, []. rewrite app_nil_r. split_and!; auto.
      apply (flushed_about c); auto; [apply (a_done _ _ _ _ HA) |]. unfold kept. intros _ _ _ _ E. by rewrite E in Eq. }
    destruct (server_next_ok nobody a c p o HI ltac:(apply (a_range _ _ _ _ HA))) as (c' & evs & E & Ee & Hn & HI' & Hp). rewrite E. cbn [mbind result_bind].
    pose proof (nx_requests _ _ _ Hn a ltac:(apply (a_range _ _ _ _ HA))) as Er.
    assert (HA' : about c' Flushed o a).
    { apply (flushed_about c); auto; try apply Hn; [by rewrite (nx_waiting _ _ _ Hn) | | apply (a_range _ _ _ _ HA) | done].
      unfold kept. rewrite Er, (nx_failed _ _ _ Hn), (nx_requestClosed _ _ _ Hn), (nx_responseClosed _ _ _ Hn). intros ? ? ? EN Ec. by destruct (nx_read _ _ _ Hn). }
    assert (Ecl : (if m_willClose (m_requests c' a) then set_responseClosed (Some a) c' else c') = c').
    { rewrite Er. destruct (m_willClose (m_requests c a)); [| done]. unfold set_responseClosed. rewrite <- (Hcl eq_refl), <- (nx_responseClosed _ _ _ Hn). by destruct c'. }
    rewrite Ecl. exists false, c', evs. done.
  - assert (Hnext : next ∈ m_pendingRequests c) by (rewrite EP; right; by left). assert (Hlt : a < next).
    { apply StronglySorted_inv in Hsort as [_ Hall]. rewrite Forall_forall in Hall. apply Hall. by left. }
    pose proof (i_range _ _ _ _ _ HI next Hnext) as Hr. unfold mem. case_bool_decide as Hwn; cycle 1.
    { rewrite (close_again c Responding o a HA eq_refl). exists false, c, []. rewrite app_nil_r. split_and!; auto. apply (flushed_about c); auto; [apply (a_done _ _ _ _ HA) |].
      unfold kept. intros _ _ _ EN. lia. }
    set (c1 := set_request a (set_responseState COMPLETE) c). assert (HI1 : inv_but nobody a c1 p o) by (by apply set_request_inv).
    assert (E1 : m_requests c1 a = set_responseState COMPLETE (m_requests c a)) by (unfold c1; cbn; by rewrite fn_lookup_insert). rewrite E1. cbn [m_requestState set_responseState].
    rewrite (a_done _ _ _ _ HA) by lia. unfold scheduleNextRequest. rewrite (bool_decide_true (is_Some (Some a))) by (by eexists). cbn [orb ASSERT mbind result_bind].
    change (m_requestCount (pop_front c1)) with (m_requestCount c). rewrite (proj2 (Nat.eqb_neq (m_requestCount c) 0)), (proj2 (Nat.eqb_neq a (m_requestCount c))) by lia. cbn [orb andb mbind result_bind].
    destruct (pop_inv a c1 p o HI1 Hfr) as [Hin HI2]. assert (Hna : next <> a) by lia. pose proof (proj1 (i_waiting _ _ _ _ _ HI next Hna) Hwn) as Hpn.
    assert (Hf2 : front (pop_front c1) next).
    { apply front_iff; [apply HI2 |]. cbn. by rewrite EP. }
    exists true, (hand_over next (pop_front c1)), [ResumeFiber next]. split; [done |]. split; [done |]. split; [cbn; by rewrite fn_lookup_insert_ne |]. split.
    + apply (hand_over_inv (fun n => front (pop_front c1) n /\ below (pop_front c1) n)); auto; [intros m [Hm _]; by apply (front_unique (pop_front c1)) |].
      destruct (i_turn _ _ _ _ _ HI2 next Hna Hpn) as [[_ ?] | [_ ?]]; done.
    + assert (Ha2 : a ∉ m_pendingRequests (pop_front c1)) by (rewrite Hin; tauto).
      destruct HA. constructor; cbn; rewrite ?(fn_lookup_insert_ne _ next) by done; rewrite ?fn_lookup_insert; cbn; auto; try done.
      * rewrite list_elem_of_filter. split; [tauto | done].
      * split; [done |]. left. split; [apply a_done; lia | done].
      * unfold kept. cbn. lia.
      * intros E. by destruct (a_failed E).
      * intros _. left. right. right. by left.
      * intros _. apply a_past. by left.
      * intros _. left. right. right. by left.
Qed.

(** ** Failures *)

Lemma failed_after c a k c' : a ∉ m_waitingResponses c -> woken_all k (set_failed (Some (min_number (m_priorRequestFailed c) a)) c) c' ->
  failed_upto c' a /\ a ∉ m_waitingResponses c' /\ (a ∈ m_pendingRequests c' <-> a ∈ m_pendingRequests c) /\ (front c a -> front c' a) /\
  m_requests c' = m_requests c /\ m_requestCount c' = m_requestCount c /\ m_priorResponseClosed c' = m_priorResponseClosed c.
Proof.
  intros Hw []. cbn in *. split_and!; auto.
  - eexists. split; [exact wa_failed |]. unfold min_number. destruct (m_priorRequestFailed c); lia.
  - rewrite wa_waiting. tauto.
  - rewrite wa_pending. tauto.
  - intros [H1 H2]. split; [apply wa_pending; tauto |]. intros m Hm%wa_pending. apply H2, Hm.
Qed.

Lemma commit_failed_ok a c p o q : inv_but nobody a c p o -> about c q o a -> q = Responding \/ (q = Stopped /\ failed_upto c a) ->
  exists c' evs, commit_failed a c = Ok c' /\ m_events c' = m_events c ++ evs /\ delivered p evs a = p a /\ inv_but nobody a c' (delivered p evs) o /\
    about c' (if decide (q = Responding) then Failed else Stopped) o a.
Proof.
  intros HI HA Hq. unfold commit_failed. rewrite (invariant_about c p o a q HI HA). cbn [mbind result_bind].
  assert (Hw : a ∉ m_waitingResponses c) by (rewrite (a_waiting _ _ _ _ HA); by destruct Hq as [-> | [-> _]]).
  destruct (fail_inv nobody a c p o HI) as (k & c' & evs & E & Ee & Hwa & HI' & Hp); [done | done | |].
  { intros n Hn Hpn Hf [Hb _]. destruct Hq as [-> | [-> (j & Ej & ?)]]; [| apply Hb in Ej; lia]. destruct Hn. apply (front_unique c); [done |]. apply (a_place _ _ _ _ HA). }
  exists c', evs. split_and!; auto. destruct (failed_after c a k c' Hw Hwa) as (Hfu & Hw' & Hin & Hfr & Er & EN & ER).
  assert (Hk : forall x, kept c' a x) by (intros x H1; destruct Hfu as (j & Ej & _); congruence).
  destruct HA. destruct Hq as [-> | [-> _]].
  - rewrite decide_True by done. cbn in a_place. destruct a_place as (Hf & Hr & Hs & _). constructor; rewrite ?Er, ?EN; auto; try done.
    + cbn. rewrite Er. split_and!; auto.
    + intros _. left. do 3 right. done.
    + intros _. apply a_past. by left.
    + intros _. left. do 3 right. done.
  - rewrite decide_False by done. cbn in a_place. destruct a_place as (Hf & Hr & Hs & _). constructor; rewrite ?Er, ?EN; auto; try done.
    cbn. rewrite Er, Hin. split_and!; auto.
Qed.

(** The states that [cancel] leaves. *)
Definition cancelled (a : nat) (c : ServerConnection) : ServerConnection :=
  let c' := if negb (completed (req c a)) then set_request a (set_requestState ERROR) c else c in
  if negb (completed (resp c a)) then set_request a (set_responseState ERROR) c' else c'.

Lemma cancelled_spec a c : completed (req (cancelled a c) a) = true /\ completed (resp (cancelled a c) a) = true /\ (resp c a = COMPLETE -> resp (cancelled a c) a = COMPLETE) /\
  (forall n, n <> a -> m_requests (cancelled a c) n = m_requests c n) /\ m_pendingRequests (cancelled a c) = m_pendingRequests c /\
  m_waitingResponses (cancelled a c) = m_waitingResponses c /\ m_requestCount (cancelled a c) = m_requestCount c /\ m_priorRequestFailed (cancelled a c) = m_priorRequestFailed c /\
  m_priorRequestClosed (cancelled a c) = m_priorRequestClosed c /\ m_priorResponseClosed (cancelled a c) = m_priorResponseClosed c /\ m_events (cancelled a c) = m_events c.
Proof.
  unfold cancelled. destruct (completed (req c a)) eqn:E1, (completed (resp c a)) eqn:E2; cbn [negb set_request m_requests m_pendingRequests m_waitingResponses m_requestCount];
    rewrite ?fn_lookup_insert; cbn; split_and!; auto; try (intros n Hn; by rewrite ?fn_lookup_insert_ne by done); intros E; by rewrite E in E2.
Qed.

Lemma cancel_early a c q o : about c q o a -> q <> Waiting -> q <> Woken -> q <> Flushed -> completed (req c a) = true -> completed (resp c a) = true ->
  about c Stopped o a /\ q <> Responding.
Proof.
  intros [] Hq1 Hq2 Hq3 Ed1 Ed2. assert (Hq : q = Responded \/ q = Stopped).
  { destruct q; cbn in a_place; try done; auto; destruct_and!; unfold sending in *; try (match goal with H : resp c a = _ \/ resp c a = _ |- _ => destruct H as [H | H] end);
      match goal with H : resp c a = _ |- _ => rewrite H in Ed2; done | H : req c a = _ |- _ => rewrite H in Ed1; done end. }
  split; [| by destruct Hq as [-> | ->]]. constructor; auto; try done.
  - split; [intros Hw%a_waiting; done | done].
  - destruct Hq as [-> | ->]; [| done]. cbn in a_place |- *. destruct a_place as (Hr & [[? ?] | [Hb _]]); [split_and!; auto | by rewrite Hb in Ed1].
  - unfold kept. intros. destruct a_kept as [_ He]; auto. destruct Hq as [-> | ->], He as [|[|[|]]]; done.
  - by intros [|[|[|]]].
Qed.

(** [cancel], where the request can be in the queue or not. *)
Lemma server_cancel_ok a c p o q : inv_but nobody a c p o -> about c q o a -> q <> Waiting -> q <> Woken -> q <> Flushed ->
  exists c' evs, cancel a c = Ok c' /\ m_events c' = m_events c ++ evs /\ delivered p evs a = p a /\ inv_but nobody a c' (delivered p evs) o /\ about c' Stopped o a /\
    (q = Responding -> failed_upto c' a).
Proof.
  intros HI HA Hq1 Hq2 Hq3. unfold cancel.
  assert (Hw : a ∉ m_waitingResponses c) by (rewrite (a_waiting _ _ _ _ HA); done).
  destruct (completed (req c a) && completed (resp c a)) eqn:Ed.
  { apply andb_true_iff in Ed as [Ed1 Ed2]. destruct (cancel_early a c q o HA Hq1 Hq2 Hq3 Ed1 Ed2). exists c, []. rewrite app_nil_r. done. }
  rewrite (invariant_about c p o a q HI HA). cbn [mbind result_bind]. change (if negb (completed (resp c a)) then _ else _) with (cancelled a c).
  destruct (cancelled_spec a c) as (D1 & D2 & D3 & Er & EP & EW & EN & EF & EC & ER & Eev).
  set (c2 := set_pending (erase a (m_pendingRequests (cancelled a c))) (raise [CancelStream] (cancelled a c))).
  assert (Hin2 : forall n, n ∈ m_pendingRequests c2 <-> n <> a /\ n ∈ m_pendingRequests c) by (intros n; cbn; rewrite EP; by rewrite elem_of_erase).
  assert (HI2 : inv_but (fun n => a < n) a c2 p o).
  { apply (inv_mono nobody _ a c); auto; cbn; rewrite ?EF, ?ER, ?EC, ?EW; try done; try apply no_later_refl; try tauto.
    - rewrite EP. apply sorted_filter, HI.
    - intros n Hn. apply Hin2 in Hn. apply Hn.
    - intros n Hn Hnp. by apply Hin2.
    - intros n Hn Hp Hf Hb. unfold below. cbn. by rewrite EF, ER.
    - intros n Hn Hp [[] | [Hf Hb]]. destruct (decide (a < n)); [by left |]. right. split; [| unfold below; cbn; by rewrite EF, ER].
      intros [H1 H2]. apply Hf. split; [apply Hin2 in H1; apply H1 |]. intros m Hm. destruct (decide (m = a)) as [-> |]; [lia |]. apply H2, Hin2. done. }
  assert (Hw2 : a ∉ m_waitingResponses c2) by (cbn; by rewrite EW).
  destruct (fail_inv _ a c2 p o HI2) as (k & c' & evs & E & Ee & Hwa & HI' & Hp); [intros; lia | done | |].
  { intros n Hn Hpn [Hf _] Hb. apply Hin2 in Hf as [_ Hf]. pose proof (i_place _ _ _ _ _ HI n Hn) as Hok. rewrite Hpn in Hok. destruct Hok as (_ & [([_ Hmin] & _) | (? & _)]); [| done].
    destruct (decide (a ∈ m_pendingRequests c)) as [Ha | Ha]; [specialize (Hmin a Ha); lia |]. destruct Hb as [Hb1 Hb2]. cbn in Hb1, Hb2. rewrite EF in Hb1. rewrite ER in Hb2.
    pose proof (a_place _ _ _ _ HA) as Hpl. destruct q; cbn in Hpl; try tauto; try (by destruct Ha; apply Hpl); [exfalso; by apply (a_present _ _ _ _ HA) | | |].
    - destruct Hpl as (Hr & [[Hc _] | [_ [? _]]]); [by rewrite Hc, Hr in Ed | done].
    - destruct Hpl as (_ & _ & _ & Hu). destruct closed, Hu as (j & Ej & ?); [apply Hb2 in Ej | apply Hb1 in Ej]; lia.
    - destruct Hpl as (_ & Hc1 & Hc2 & _). by rewrite Hc1, Hc2 in Ed. }
  assert (Ecomm : set_pending (erase a (m_pendingRequests (set_failed (Some (min_number (m_priorRequestFailed (raise [CancelStream] (cancelled a c))) a)) (raise [CancelStream] (cancelled a c)))))
    (set_failed (Some (min_number (m_priorRequestFailed (raise [CancelStream] (cancelled a c))) a)) (raise [CancelStream] (cancelled a c))) =
    set_failed (Some (min_number (m_priorRequestFailed c2) a)) c2) by reflexivity.
  rewrite Ecomm, E. exists c', (CancelStream :: evs). destruct (failed_after c2 a k c' Hw2 Hwa) as (Hfu & Hw' & Hin & _ & Er' & EN' & ER').
  split; [done |]. split; [rewrite Ee; cbn; by rewrite Eev, <- app_assoc |]. split; [done |]. split; [done |]. split; [| done].
  assert (Hreq : m_requests c' a = m_requests (cancelled a c) a) by (by rewrite Er').
  destruct HA. constructor; rewrite ?Hreq, ?EN'; cbn; rewrite ?EN; auto; try done.
  - cbn. rewrite Hreq, Hin. split_and!; auto. rewrite Hin2. tauto.
  - unfold kept. intros EF'. destruct Hfu as (j & Ej & _). congruence.
  - by intros [|[|[|]]].
Qed.
