(* ===== verification/ServerProps.v ===== *)
(** Every step of the requests in progress keeps the invariant, and the theorems about the order of responses. *)

From Stdlib Require Import String.
From stdpp Require Import functions numbers list_numbers list sorting.
From S2P Require Import Prelude Http Connection ConnectionProps ServerResponse Server ServerWorld ServerInv ServerSteps.

#[local] Open Scope nat_scope.

Lemma clear_inv E a c p o : inv_but E a c p o -> inv_but E a (clear_events c) p o.
Proof. intros []. by constructor. Qed.

Lemma clear_about c q o a : about c q o a -> about (clear_events c) q o a.
Proof. intros HA. by apply (about_ext c). Qed.

(** The end of a step: the request it was about is settled at its new place. *)
Lemma moves_ok w a q c evs o : m_events c = evs -> inv_but nobody a c (delivered (<[a := q]> (w_place w)) evs) o -> delivered (<[a := q]> (w_place w)) evs a = q ->
  about c q o a -> Inv (mkWorld (clear_events c) (delivered (<[a := q]> (w_place w)) (m_events c)) o).
Proof. intros -> HI Hq HA. apply (server_close_inv _ _ _ a); [by apply clear_inv | rewrite Hq; by apply clear_about | done]. Qed.

Lemma stays_ok w a c evs o : m_events c = evs -> inv_but nobody a c (delivered (w_place w) evs) o -> delivered (w_place w) evs a = w_place w a ->
  about c (w_place w a) o a -> Inv (mkWorld (clear_events c) (delivered (w_place w) (m_events c)) o).
Proof. intros -> HI Hq HA. apply (server_close_inv _ _ _ a); [by apply clear_inv | rewrite Hq; by apply clear_about | done]. Qed.

(** The request of a step, left open, with where it was. *)
Lemma opened w a : Inv w -> w_place w a <> Absent -> m_events (w_conn w) = [] /\ about (w_conn w) (w_place w a) (w_order w) a /\
  inv_but nobody a (w_conn w) (w_place w) (w_order w) /\ forall q, inv_but nobody a (w_conn w) (<[a := q]> (w_place w)) (w_order w).
Proof.
  intros HI Ha. destruct (open_inv w a HI Ha) as [HB HA]. split_and!; auto; [apply HI |]. intros q. by apply move_inv.
Qed.

(** Only the flags of [a] change. *)
Lemma about_flags c a q o f : about c q o a -> (forall r, m_requestState (f r) = m_requestState r /\ m_responseState (f r) = m_responseState r /\ m_pipeline (f r) = m_pipeline r) ->
  q <> Responding -> q <> Flushed -> about (set_request a f c) q o a.
Proof.
  intros [] Hf Hq1 Hq2. destruct (Hf (m_requests c a)) as (E1 & E2 & E3).
  assert (Er : m_requests (set_request a f c) a = f (m_requests c a)) by (cbn; by rewrite fn_lookup_insert).
  constructor; rewrite ?Er, ?E1, ?E2; auto; [| unfold kept; by rewrite Er, E1, E3].
  destruct q; cbn in a_place |- *; unfold front, below, failed_upto, closed_upto in *; cbn in *; rewrite ?fn_lookup_insert, ?E1, ?E2; auto; done.
Qed.

Lemma step_commit h w n request response : Inv w -> w_place w n = Handling -> headers_pass (Commit n request response) w = true ->
  exists w', perform (Commit n request response) h w = Ok w' /\ Inv w'.
Proof.
  intros HI Hp Hh. destruct (opened w n HI) as (Ee & HA & _ & HB); [by rewrite Hp |]. rewrite Hp in HA. cbn [perform headers_pass] in *.
  destruct (prepare_response _ _ _) as [[response' willClose] |]; [| done]. cbn [mbind result_bind].
  set (c := set_request n _ _). assert (HA1 : about c Handling (w_order w) n) by (by apply about_flags).
  destruct (commit_enter_ok n c (<[n := Handling]> (w_place w)) (w_order w)) as (out & c' & evs & E & _); [by apply set_request_inv | done |].
  destruct (commit_enter_ok n c (<[n := place_of out]> (w_place w)) (w_order w)) as (out' & c'' & evs' & E' & Eev & Hq & HI' & HA'); [by apply set_request_inv | done |].
  rewrite E in E'. injection E' as <- <-. rewrite E. cbn [mbind result_bind]. rewrite fn_lookup_insert in Hq. change (m_events c) with (m_events (w_conn w)) in Eev. rewrite Ee in Eev.
  eexists. split; [reflexivity |]. destruct out; exact (moves_ok w n _ c' evs' _ Eev HI' Hq HA').
Qed.

Lemma step_resume h w n : Inv w -> w_place w n = Woken -> exists w', perform (Resume n) h w = Ok w' /\ Inv w'.
Proof.
  intros HI Hp. destruct (opened w n HI) as (Ee & HA & _ & HB); [by rewrite Hp |]. rewrite Hp in HA. cbn [perform].
  destruct (commit_resumed_ok n (w_conn w) _ (w_order w) (HB Woken) HA) as (out & c' & evs & E & _).
  destruct (commit_resumed_ok n (w_conn w) _ (w_order w) (HB (place_of out)) HA) as (out' & c'' & evs' & E' & Eev & Hq & HI' & HA').
  rewrite E in E'. injection E' as <- <-. rewrite E. cbn [mbind result_bind]. rewrite fn_lookup_insert in Hq. rewrite Ee in Eev.
  eexists. split; [reflexivity |]. destruct out; exact (moves_ok w n _ c' evs' _ Eev HI' Hq HA').
Qed.

Lemma step_complete h w n : Inv w -> w_place w n = Responding -> exists w', perform (Complete n) h w = Ok w' /\ Inv w'.
Proof.
  intros HI Hp. destruct (opened w n HI) as (Ee & HA & _ & HB); [by rewrite Hp |]. rewrite Hp in HA. cbn [perform].
  destruct (responseComplete1_ok n (w_conn w) _ (w_order w) (HB Responding) HA) as (r & c' & evs & E & _).
  destruct (responseComplete1_ok n (w_conn w) _ (w_order w) (HB (if r then Responded else Flushed)) HA) as (r' & c'' & evs' & E' & Eev & Hq & HI' & HA').
  rewrite E in E'. injection E' as <- <-. rewrite E. cbn [mbind result_bind]. rewrite fn_lookup_insert in Hq. rewrite Ee in Eev.
  eexists. split; [reflexivity |]. exact (moves_ok w n _ c' evs' _ Eev HI' Hq HA').
Qed.

Lemma step_complete_rest h w n : Inv w -> w_place w n = Flushed -> exists w', perform (CompleteRest n) h w = Ok w' /\ Inv w'.
Proof.
  intros HI Hp. destruct (opened w n HI) as (Ee & HA & _ & HB); [by rewrite Hp |]. rewrite Hp in HA. cbn [perform].
  destruct (responseComplete2_ok n (w_conn w) _ (w_order w) (HB Responded) HA) as (c' & evs & E & Eev & Hq & HI' & HA').
  rewrite E. cbn [mbind result_bind]. rewrite fn_lookup_insert in Hq. rewrite Ee in Eev. eexists. split; [reflexivity |]. exact (moves_ok w n _ c' evs _ Eev HI' Hq HA').
Qed.

Lemma step_cancel h w n : Inv w -> w_place w n <> Absent -> busy (w_place w n) = false ->
  exists w', perform (Cancel n) h w = Ok w' /\ perform (ReadEnds n) h w = Ok w' /\ Inv w'.
Proof.
  intros HI Hp Hb. destruct (opened w n HI Hp) as (Ee & HA & _ & HB). cbn [perform]. rewrite Hb.
  assert (Hp1 : w_place w n <> Waiting) by (by intros E; rewrite E in Hb). assert (Hp2 : w_place w n <> Woken) by (by intros E; rewrite E in Hb). assert (Hp3 : w_place w n <> Flushed) by (by intros E; rewrite E in Hb).
  destruct (server_cancel_ok n (w_conn w) _ (w_order w) _ (HB Stopped) HA Hp1 Hp2 Hp3) as (c' & evs & E & Eev & Hq & HI' & HA' & _).
  rewrite E. cbn [mbind result_bind]. rewrite fn_lookup_insert in Hq. rewrite Ee in Eev. eexists. split; [reflexivity |]. split; [reflexivity |]. exact (moves_ok w n _ c' evs _ Eev HI' Hq HA').
Qed.

Lemma step_write_fails h w n : Inv w -> w_place w n = Responding -> exists w', perform (WriteFails n) h w = Ok w' /\ Inv w'.
Proof.
  intros HI Hp. destruct (opened w n HI) as (Ee & HA & _ & HB); [by rewrite Hp |]. rewrite Hp in HA. cbn [perform].
  destruct (commit_failed_ok n (w_conn w) _ (w_order w) _ (HB Failed) HA) as (c' & evs & E & Eev & Hq & HI' & HA'); [by left |].
  rewrite E. cbn [mbind result_bind]. rewrite fn_lookup_insert in Hq. rewrite Ee in Eev. eexists. split; [reflexivity |]. exact (moves_ok w n _ c' evs _ Eev HI' Hq HA').
Qed.

Lemma step_close_fails h w n : Inv w -> w_place w n = Responding -> exists w', perform (CloseFails n) h w = Ok w' /\ Inv w'.
Proof.
  intros HI Hp. destruct (opened w n HI) as (Ee & HA & _ & HB); [by rewrite Hp |]. rewrite Hp in HA. cbn [perform].
  destruct (server_cancel_ok n (w_conn w) _ (w_order w) _ (HB Stopped) HA) as (c1 & ev1 & E1 & Eev1 & Hq1 & HI1 & HA1 & Hf); [done.. |].
  rewrite E1. cbn [mbind result_bind]. destruct (commit_failed_ok n c1 _ (w_order w) _ HI1 HA1) as (c2 & ev2 & E2 & Eev2 & Hq2 & HI2 & HA2); [right; auto |].
  rewrite E2. cbn [mbind result_bind]. rewrite Hq1, fn_lookup_insert in Hq2. rewrite Eev1, Ee in Eev2. rewrite <- foldl_app in Hq2, HI2.
  eexists. split; [reflexivity |]. exact (moves_ok w n _ c2 (ev1 ++ ev2) _ Eev2 HI2 Hq2 HA2).
Qed.

(** Steps of a request that change nothing but its own states. *)
Lemma step_own w n q c : Inv w -> w_place w n <> Absent -> inv_but nobody n c (<[n := q]> (w_place w)) (w_order w) -> m_events c = [] -> about c q (w_order w) n -> Inv (moves n q c w).
Proof. intros HI Hp HB He HA. apply (moves_ok w n q c []); auto. cbn. by rewrite fn_lookup_insert. Qed.

Lemma handling_about c c' o n : about c Reading o n -> resp c' n = PENDING -> read_on (req c' n) -> n ∈ m_pendingRequests c' -> m_waitingResponses c' = m_waitingResponses c ->
  m_priorRequestFailed c' = m_priorRequestFailed c -> m_priorResponseClosed c' = m_priorResponseClosed c -> m_requestCount c <= m_requestCount c' ->
  (n < m_requestCount c' -> completed (req c' n) = true) -> kept c' n Handling -> about c' Handling o n.
Proof.
  intros [] Hr Hq Hin EW EF ER EN Hd Hk. assert (Hno : n ∉ o) by (intros Ho; destruct (a_order_past Ho) as [[|[|[|]]] |]; done).
  constructor; rewrite ?EW, ?EF, ?ER; auto; try done.
  - lia.
  - rewrite a_waiting. done.
  - intros E. by destruct (a_failed E).
  - intros E. destruct (a_closed E) as [[|[|[|]]] |]; done.
  - by intros [|[|[|]]].
  - intros Ht. destruct Hno. by apply elem_of_tail.
Qed.

Lemma step_refused h w n : Inv w -> w_place w n = Reading -> (exists w', perform (Unparsable n) h w = Ok w' /\ Inv w') /\ (exists w', perform (Rejected n) h w = Ok w' /\ Inv w').
Proof.
  intros HI Hp. destruct (opened w n HI) as (Ee & HA & _ & HB); [by rewrite Hp |]. rewrite Hp in HA. cbn [perform]. pose proof (a_place _ _ _ _ HA) as (Hin & _ & Hr).
  pose proof (a_range _ _ _ _ HA).
  assert (Hab : forall c, m_requests c n = set_requestState ERROR (m_requests (w_conn w) n) -> m_pendingRequests c = m_pendingRequests (w_conn w) ->
    m_waitingResponses c = m_waitingResponses (w_conn w) -> m_priorRequestFailed c = m_priorRequestFailed (w_conn w) -> m_priorResponseClosed c = m_priorResponseClosed (w_conn w) ->
    m_requestCount c = m_requestCount (w_conn w) -> about c Handling (w_order w) n).
  { intros c Er EP EW EF ER EN. apply (handling_about (w_conn w)); rewrite ?Er, ?EP, ?EN; auto; [by right |]. unfold kept. by rewrite Er. }
  split; eexists; (split; [reflexivity |]); apply step_own; auto; try congruence.
  - by apply set_requestClosed_inv, set_request_inv.
  - apply Hab; auto. cbn. by rewrite fn_lookup_insert.
  - by apply set_request_inv.
  - apply Hab; auto. cbn. by rewrite fn_lookup_insert.
Qed.

Lemma invariant_flags c n f : (forall r, m_requestState (f r) = m_requestState r /\ m_responseState (f r) = m_responseState r) -> invariant (set_request n f c) = invariant c.
Proof.
  intros Hf. assert (Hs : forall m, req (set_request n f c) m = req c m /\ resp (set_request n f c) m = resp c m).
  { intros m. cbn. destruct (decide (m = n)) as [-> |]; [rewrite fn_lookup_insert; apply Hf | by rewrite fn_lookup_insert_ne]. }
  unfold invariant. change (m_pendingRequests (set_request n f c)) with (m_pendingRequests c). change (m_waitingResponses (set_request n f c)) with (m_waitingResponses c).
  assert (Hl : forall l seen, invariant_loop seen (m_requests (set_request n f c)) l = invariant_loop seen (m_requests c) l).
  { induction l as [| m l IH]; intros seen; [done |]. cbn [invariant_loop]. destruct (Hs m) as [-> ->]. by rewrite IH. }
  rewrite Hl. replace (forallb _ (m_waitingResponses c)) with (forallb (fun m => bool_decide (resp c m = WAITING)) (m_waitingResponses c)); [done |].
  induction (m_waitingResponses c) as [| m l IH]; [done |]. cbn [forallb]. by rewrite (proj2 (Hs m)), IH.
Qed.

Lemma step_accepted h w n willClose hasBody : Inv w -> w_place w n = Reading -> exists w', perform (Accepted n willClose hasBody) h w = Ok w' /\ Inv w'.
Proof.
  intros HI Hp. destruct (opened w n HI) as (Ee & HA & _ & HB); [by rewrite Hp |]. rewrite Hp in HA. cbn [perform]. pose proof (a_place _ _ _ _ HA) as (Hin & Hq & Hr). pose proof (a_range _ _ _ _ HA).
  set (c := set_request n (set_willClose willClose) (w_conn w)). assert (Er : m_requests c n = set_willClose willClose (m_requests (w_conn w) n)) by (unfold c; cbn; by rewrite fn_lookup_insert).
  assert (HIc : inv_but nobody n c (<[n := Handling]> (w_place w)) (w_order w)) by (by apply set_request_inv).
  assert (EN : n = m_requestCount (w_conn w)).
  { destruct (decide (n < m_requestCount (w_conn w))) as [Hlt |]; [| lia]. pose proof (a_done _ _ _ _ HA Hlt) as Hd. by rewrite Hq in Hd. }
  destruct hasBody; cbn [mbind result_bind].
  - assert (Er' : m_requests (set_request n (set_requestState BODY) c) n = set_requestState BODY (m_requests c n)) by (cbn; by rewrite fn_lookup_insert).
    eexists. split; [reflexivity |]. apply step_own; auto; [congruence | by apply set_request_inv |].
    apply (handling_about (w_conn w)); rewrite ?Er', ?Er; auto; [by left | cbn; lia | unfold kept; by rewrite Er'].
  - destruct (requestComplete_ok h n c (<[n := Handling]> (w_place w)) (w_order w) HIc) as (c' & evs & E & Eev & Hd & HI' & Hpn).
    + unfold c. rewrite invariant_flags by done. by apply (invariant_about _ (<[n := Handling]> (w_place w)) (w_order w) n Reading).
    + done.
    + done.
    + rewrite Er. by left.
    + rewrite Er. cbn. by rewrite Hr.
    + rewrite E. cbn [mbind result_bind]. rewrite fn_lookup_insert in Hpn. change (m_events c) with (m_events (w_conn w)) in Eev. rewrite Ee in Eev. eexists. split; [reflexivity |].
      refine (moves_ok w n _ c' evs _ Eev HI' Hpn _). assert (Hpend : resp c n = PENDING) by (by rewrite Er).
      destruct Hd. rewrite Hpend in *. apply (handling_about (w_conn w)); rewrite ?rd_self; auto; [by right | by apply rd_pending |].
      unfold kept. rewrite rd_self. cbn. intros ? ? ? EN'. destruct rd_read; auto. intros _. split; [done | by left].
Qed.

Lemma step_body_read h w n : Inv w -> handled (w_place w n) = true -> req (w_conn w) n = BODY -> exists w', perform (BodyRead n) h w = Ok w' /\ Inv w'.
Proof.
  intros HI Hh Hq. destruct (opened w n HI) as (Ee & HA & HB & _); [by destruct (w_place w n) |]. cbn [perform].
  assert (EN : n = m_requestCount (w_conn w)).
  { pose proof (a_range _ _ _ _ HA). destruct (decide (n < m_requestCount (w_conn w))) as [Hlt |]; [| lia]. pose proof (a_done _ _ _ _ HA Hlt) as Hd. by rewrite Hq in Hd. }
  assert (Hpl : n ∈ m_pendingRequests (w_conn w) /\ (completed (resp (w_conn w) n) = true -> front (w_conn w) n)).
  { pose proof (a_place _ _ _ _ HA) as Hp. destruct (w_place w n); try done; cbn in Hp; unfold sending, front in *.
    - destruct Hp as (? & _ & Hr). split; [done |]. by rewrite Hr.
    - destruct Hp as ([? ?] & _). done.
    - destruct Hp as (_ & [[Hc _] | [_ [? ?]]]); [by rewrite Hq in Hc | done].
    - destruct Hp as ([? ?] & _). done. }
  destruct (requestComplete_ok h n (w_conn w) (w_place w) (w_order w) HB) as (c' & evs & E & Eev & Hd & HI' & Hpn);
    [by apply (invariant_about _ _ _ _ _ HB HA) | exact (proj1 Hpl) | done | by right | exact (proj2 Hpl) |].
  rewrite E. cbn [mbind result_bind]. rewrite Ee in Eev. eexists. split; [reflexivity |]. refine (stays_ok w n c' evs _ Eev HI' Hpn _).
  destruct HA, Hd. constructor; rewrite ?rd_self, ?rd_waiting, ?rd_failed, ?rd_responseClosed; auto; [lia | ..].
  - destruct (w_place w n); try done; cbn in a_place |- *; unfold failed_upto in *; rewrite ?rd_self, ?rd_failed, ?rd_responseClosed; cbn.
    + destruct a_place as (? & ? & Hr). split_and!; [apply rd_pending; by rewrite Hr | by right | done].
    + destruct a_place as (? & ? & Hs & ?). split_and!; auto; [| by right]. apply rd_front; [done |]. by destruct Hs as [-> | ->].
    + destruct a_place as (Hr & _). split; [done |]. left. split; [done |]. rewrite rd_pending, Hr. done.
    + destruct a_place as (? & ? & Hs & ?). split_and!; auto; [| by right]. apply rd_front; [done |]. by destruct Hs as [-> | ->].
  - intros Hw. destruct (w_place w n); done.
  - unfold kept. rewrite rd_self. cbn. intros EF EC ER EN'. destruct rd_read as [Hpi Hc]; auto. intros _. split; [done |].
    rewrite rd_failed in EF. destruct (w_place w n); try done; [by left | right; right; by right | |]; cbn in a_place.
    + destruct a_place as (Hr & _). by rewrite Hr in Hc.
    + destruct a_place as (_ & _ & _ & (k & Ek & _)). congruence.
Qed.

Lemma step_next h w n : Inv w -> handled (w_place w n) = true -> exists w', perform (NextRequest n) h w = Ok w' /\ Inv w'.
Proof.
  intros HI Hh. destruct (opened w n HI) as (Ee & HA & HB & _); [by destruct (w_place w n) |]. cbn [perform]. unfold processNextRequest.
  set (c := set_request n (set_pipeline true) (w_conn w)). assert (Er : m_requests c n = set_pipeline true (m_requests (w_conn w) n)) by (unfold c; cbn; by rewrite fn_lookup_insert).
  assert (Hinv : invariant c = Ok tt) by (unfold c; rewrite invariant_flags by done; by apply (invariant_about _ _ _ _ _ HB HA)).
  rewrite Hinv. cbn [mbind result_bind]. pose proof (a_range _ _ _ _ HA) as Hr.
  destruct (server_next_ok nobody n c (w_place w) (w_order w)) as (c' & evs & E & Eev & Hn & HI' & Hp); [by apply set_request_inv | lia |].
  rewrite E. cbn [mbind result_bind]. change (m_events c) with (m_events (w_conn w)) in Eev. rewrite Ee in Eev. eexists. split; [reflexivity |]. refine (stays_ok w n c' evs _ Eev HI' Hp _).
  assert (Er' : m_requests c' n = set_pipeline true (m_requests (w_conn w) n)) by (rewrite (nx_requests _ _ _ Hn) by (cbn; lia); done).
  assert (Hin : n ∈ m_pendingRequests c' <-> n ∈ m_pendingRequests (w_conn w)) by (apply (nx_pending _ _ _ Hn); cbn; lia).
  assert (Hfr : front (w_conn w) n -> front c' n) by (intros ?; apply (nx_front _ _ _ Hn); [cbn; lia | done]).
  destruct Hn. cbn in *. destruct HA. constructor; rewrite ?Er', ?nx_waiting, ?nx_failed, ?nx_responseClosed; auto; try lia.
  - intros Hlt. destruct (nx_done Hlt) as [|Hc]; [by apply a_done |]. rewrite fn_lookup_insert in Hc. cbn in *. by rewrite Hc.
  - destruct (w_place w n); try done; cbn in a_place |- *; unfold failed_upto in *; rewrite ?Er', ?nx_failed, ?nx_responseClosed, ?Hin; cbn; try tauto.
  - intros Hw. destruct (w_place w n); done.
  - unfold kept. rewrite Er', nx_failed, nx_requestClosed, nx_responseClosed. intros ? ? ? EN Eq. destruct nx_read; auto. by rewrite fn_lookup_insert.
Qed.

Lemma step_headers_sent h w n : Inv w -> w_place w n = Responding -> exists w', perform (HeadersSent n) h w = Ok w' /\ Inv w'.
Proof.
  intros HI Hp. destruct (opened w n HI) as (Ee & HA & HB & _); [by rewrite Hp |]. cbn [perform]. eexists. split; [reflexivity |].
  refine (stays_ok w n (set_request n (set_responseState BODY) (w_conn w)) [] _ Ee _ eq_refl _); [by apply set_request_inv |]. rewrite Hp in *. set (c := set_request _ _ _).
  assert (Er : m_requests c n = set_responseState BODY (m_requests (w_conn w) n)) by (unfold c; cbn; by rewrite fn_lookup_insert).
  assert (Hno : n ∉ tail (w_order w)).
  { intros Ht. pose proof (a_order_done _ _ _ _ HA Ht) as Hc. pose proof (a_place _ _ _ _ HA) as (_ & _ & [Hs | Hs] & _); congruence. }
  destruct HA. cbn in a_place. destruct a_place as (? & ? & ? & ?). constructor; rewrite ?Er; auto; [| unfold kept; by rewrite Er | done].
  cbn. rewrite fn_lookup_insert. split_and!; auto. by right.
Qed.

Lemma step_start h w : Inv w -> m_requestCount (w_conn w) = 0 -> exists w', perform Start h w = Ok w' /\ Inv w'.
Proof.
  intros (HI & H0 & Hw0 & [HF HR] & Ee) EN. cbn [perform]. unfold processRequests.
  assert (Hinv : invariant (w_conn w) = Ok tt).
  { assert (EP : m_pendingRequests (w_conn w) = []) by (destruct (m_pendingRequests (w_conn w)) as [| x l] eqn:E; [done |]; pose proof (i_range _ _ _ _ _ HI x ltac:(rewrite E; by left)); lia).
    apply invariant_intro; rewrite ?EP; try (intros n ?%elem_of_nil; done); [constructor |].
    intros n Hn. destruct (decide (n = 0)) as [-> | Hn0]; [done |]. apply (i_waiting _ _ _ _ _ HI) in Hn; [| done].
    pose proof (i_place _ _ _ _ _ HI n Hn0) as Hpl. rewrite Hn in Hpl. apply Hpl. }
  rewrite Hinv. cbn [mbind result_bind]. unfold scheduleNextRequest. rewrite EN, Nat.eqb_refl, orb_true_r. cbn [ASSERT mbind result_bind orb].
  eexists. split; [reflexivity |]. pose proof (server_add_inv nobody 0 _ _ _ HI EN) as HI'. rewrite EN in HI'.
  split_and!; cbn [w_conn w_place w_order stays]; auto.
  - unfold clear_events. cbn [m_events add_request]. rewrite Ee, EN. cbn [app foldl deliver]. by apply clear_inv in HI'.
  - cbn [m_events add_request]. rewrite Ee, EN. cbn. by rewrite fn_lookup_insert_ne.
Qed.

(** After [commit] threw, the handler cannot respond either: it does nothing, or fails an assertion. *)
Lemma recover_fails h w n : Inv w -> w_place w n = Thrown true -> perform (Recover n) h w = Ok w \/ perform (Recover n) h w = Err Assertion.
Proof.
  intros HI Hp. destruct (opened w n HI) as (Ee & HA & HB & _); [by rewrite Hp |]. cbn [perform]. rewrite Hp in HA. pose proof (a_place _ _ _ _ HA) as (Hin & Hq & Hr & (k & Ek & Hk)).
  case_bool_decide; [by left |]. case_bool_decide as Hpe; [| case_bool_decide as Hb; [| by left]].
  - right. unfold commit_enter. rewrite (invariant_about _ _ _ _ _ HB HA). cbn [mbind result_bind]. rewrite Ek. assert (k <> n).
    { intros ->. destruct (a_closed _ _ _ _ HA Ek) as [[|[|[|]]] |]; done. }
    cbn [number_before]. rewrite (proj2 (Nat.ltb_lt k n)) by lia. rewrite orb_true_r. unfold mem. by rewrite bool_decide_false.
  - destruct (m_willClose _); [by left |]. right. cbn [andb negb]. unfold requestComplete. rewrite (invariant_about _ _ _ _ _ HB HA). cbn [mbind result_bind].
    rewrite (bool_decide_false (last _ = _)); [done |]. intros Hl. by apply last_Some_elem_of in Hl.
Qed.

Definition recovers (a : action) : bool := match a with Recover _ => true | _ => false end.

Lemma server_step_ok a h w : Inv w -> enabled a w = true -> recovers a = false -> headers_pass a w = true -> exists w', perform a h w = Ok w' /\ Inv w'.
Proof.
  intros HI [He Ho]%andb_true_iff Hr Hh. destruct a; cbn [possible own_fiber] in He, Ho; try done; rewrite ?bool_decide_eq_true in He.
  - apply step_start; [done |]. by apply Nat.eqb_eq.
  - destruct (step_cancel h w n HI) as (w' & _ & E & HI'); [by rewrite He | by rewrite He | eauto].
  - by apply step_refused.
  - by apply step_refused.
  - by apply step_accepted.
  - apply negb_true_iff in Ho. rewrite Ho, orb_false_r in He. by apply step_next.
  - apply negb_true_iff in Ho. rewrite Ho, orb_false_r in He. apply andb_true_iff in He as [? ?%bool_decide_eq_true]. by apply step_body_read.
  - by apply step_commit.
  - by apply step_resume.
  - by apply step_headers_sent.
  - by apply step_complete.
  - by apply step_complete_rest.
  - by apply step_write_fails.
  - by apply step_close_fails.
  - apply negb_true_iff in Ho. destruct (step_cancel h w n HI) as (w' & E & _ & HI'); [| done | eauto]. intros E. rewrite E in He. done.
Qed.

Lemma server_new_inv : Inv world_new.
Proof.
  split_and!; try done; [| apply not_elem_of_nil]. constructor; cbn; try done; try (by constructor); try lia.
  - by intros n ?%elem_of_nil.
  - intros n Hn. split; [intros _; lia | done].
  - intros n Hn. split; [by intros ?%elem_of_nil | done].
  - by intros k m ?%elem_of_nil.
  - by intros n ?%elem_of_nil.
  - intros n Hn [|[|[|]]]; done.
  - by intros n _ ?%elem_of_nil.
  - by intros n _ ?%elem_of_nil.
Qed.

Lemma server_reachable_inv w : reachable w -> Inv w.
Proof.
  induction 1 as [| w w' a h Hw HI He E]; [apply server_new_inv |]. destruct (recovers a) eqn:Hr.
  - destruct a as [| | | | | | | | | | | | | | n |]; try done. apply andb_true_iff in He as [He _]. cbn [possible] in He. apply bool_decide_eq_true in He. destruct (recover_fails h w n HI He) as [E' | E']; congruence.
  - destruct (headers_pass a w) eqn:Hh; [destruct (server_step_ok a h w HI He Hr Hh) as (w'' & E' & HI'); congruence |].
    destruct a; try done. cbn [perform headers_pass] in *. by destruct (prepare_response _ _ _).
Qed.

(** ** The theorems *)


(** C12 -- As long as every request is used by its own fiber only, responses are sent in the order of the requests, one at a time: the requests that have begun to respond are in increasing order, each but the last has sent its
    whole response, and a request that is responding is the last that began and the first in the queue. *)
Theorem server_responds_in_order w : reachable w ->
  StronglySorted gt (w_order w) /\ (forall k, k ∈ tail (w_order w) -> m_responseState (m_requests (w_conn w) k) = COMPLETE) /\
  (forall n, w_place w n = Responding \/ w_place w n = Flushed -> head (w_order w) = Some n /\ head (m_pendingRequests (w_conn w)) = Some n).
Proof.
  intros (HI & H0 & _)%server_reachable_inv. split_and!; [apply HI | |].
  - intros k Hk. apply (i_order_done _ _ _ _ _ HI); [| done]. apply elem_of_tail, (i_order_range _ _ _ _ _ HI) in Hk. lia.
  - intros n Hn. assert (Hn0 : n <> 0) by (intros ->; rewrite H0 in Hn; naive_solver).
    assert (Hf : front (w_conn w) n) by (pose proof (i_place _ _ _ _ _ HI n Hn0) as Hp; destruct Hn as [E | E]; rewrite E in Hp; apply Hp).
    assert (Ho : n ∈ w_order w) by (apply (i_past _ _ _ _ _ HI n Hn0); destruct Hn; [by left | right; by left]). split; [| by apply front_iff; [apply HI |]].
    pose proof (i_order_sorted _ _ _ _ _ HI) as Hs. pose proof (i_order_le _ _ _ _ _ HI) as Hle. destruct (w_order w) as [| x l]; [by apply elem_of_nil in Ho |]. cbn. f_equal.
    apply elem_of_cons in Ho as [-> | Ho]; [done |]. apply StronglySorted_inv in Hs as [_ Hall]. rewrite Forall_forall in Hall. apply Hall in Ho. specialize (Hle x n ltac:(by left) (proj1 Hf)). lia.
Qed.

(** C14 -- As long as every request is used by its own fiber only, no request waits for its turn in vain: a request that waits to respond is behind an earlier one that has its turn and that is still
    being handled, was scheduled, or is responding, so that what that one does next passes the turn on.  A request that another fiber cancels while it waits is never woken, see [cancel_waiting]. *)
Theorem server_no_lost_turn w n : reachable w -> w_place w n = Waiting ->
  exists k, head (m_pendingRequests (w_conn w)) = Some k /\ k < n /\ (w_place w k = Handling \/ w_place w k = Woken \/ w_place w k = Responding \/ w_place w k = Flushed).
Proof.
  intros (HI & H0 & _)%server_reachable_inv Hp. assert (Hn0 : n <> 0) by congruence.
  pose proof (i_place _ _ _ _ _ HI n Hn0) as Hpl. rewrite Hp in Hpl. destruct Hpl as (Hin & _). destruct (i_turn _ _ _ _ _ HI n Hn0 Hp) as [[] | [Hnf [HbF HbR]]].
  pose proof (i_range _ _ _ _ _ HI n Hin) as Hr. pose proof (i_sorted _ _ _ _ _ HI) as Hs. destruct (head (m_pendingRequests (w_conn w))) as [k |] eqn:Eh; cycle 1.
  { destruct (m_pendingRequests (w_conn w)); [by apply elem_of_nil in Hin | done]. }
  apply front_iff in Eh as Hf; [| done]. pose proof (proj2 Hf n Hin) as Hle. assert (Hlt : k < n) by (assert (k <> n) by congruence; lia).
  exists k. split_and!; auto. pose proof (i_range _ _ _ _ _ HI k (proj1 Hf)). assert (Hk0 : k <> 0) by lia. pose proof (i_place _ _ _ _ _ HI k Hk0) as Hk.
  pose proof (i_done _ _ _ _ _ HI k Hk0 ltac:(lia)) as Hd. pose proof (i_absent _ _ _ _ _ HI k Hk0) as Ha. pose proof (i_turn _ _ _ _ _ HI k Hk0) as Ht.
  destruct (w_place w k); auto; cbn in Hk; exfalso.
  - apply proj1 in Ha. specialize (Ha eq_refl). lia.
  - destruct Hk as (_ & Hq & _). by rewrite Hq in Hd.
  - destruct (Ht eq_refl) as [[] | [Hc _]]; done.
  - destruct Hk as (_ & [[_ Hc] | [Hq _]]); [apply Hc, Hf | by rewrite Hq in Hd].
  - destruct Hk as (_ & _ & _ & (j & Ej & ?)). apply HbF in Ej. lia.
  - apply Hk, Hf.
  - apply Hk, Hf.
Qed.

(** C15 -- A connection that is kept alive goes on, when every request is used by its own fiber only: as long as no request failed or closed the connection, a last request that was read to its end is one
    whose response is not complete and that did not ask for pipelining; once its response is complete, or it asks for the next request, that one is being read.  When another fiber reads the body of the request while the response
    is being completed, the connection can stall, see [concurrent_body_stalls]. *)
Theorem server_keeps_reading w : reachable w -> let c := w_conn w in let n := m_requestCount c in
  m_priorRequestFailed c = None -> m_priorRequestClosed c = None -> m_priorResponseClosed c = None -> 0 < n -> m_requestState (m_requests c n) = COMPLETE ->
  m_pipeline (m_requests c n) = false /\ (w_place w n = Handling \/ w_place w n = Waiting \/ w_place w n = Woken \/ w_place w n = Responding).
Proof. intros (HI & _)%server_reachable_inv c n ? ? ? ? ?. apply (i_kept _ _ _ _ _ HI); auto. lia. Qed.

(** ** Runs *)

Fixpoint play (l : list action) (w : world) : result world :=
  match l with
  | [] => Ok w
  | a :: l => if enabled a w then w' ← perform a false w; play l w' else Err Undefined
  end.

Definition played (l : list action) : world := match play l world_new with Ok w => w | Err _ => world_new end.

Lemma played_reachable l : reachable (played l).
Proof.
  unfold played. assert (Hp : forall w, reachable w -> forall w', play l w = Ok w' -> reachable w').
  { induction l as [| a l IH]; cbn [play]; [by intros w Hw w' [= <-] |]. intros w Hw w' E. destruct (enabled a w) eqn:He; [| done].
    destruct (perform a false w) as [w1 |] eqn:Ew; [| done]. cbn [mbind result_bind] in E. by eapply (IH w1); [eapply reachable_step |]. }
  destruct (play l world_new) eqn:E; [by eapply Hp; [apply reachable_new |] | apply reachable_new].
Qed.

(** A request of HTTP/1.1 and a response without a body, which may close the connection. *)
Definition a_request : Request := mkRequest (mkRequestLine GET no_uri (mkVersion 1 1)) no_general (no_request (str "example")) (no_entity npos).
Definition a_response (close : bool) : Response :=
  mkResponse (mkStatusLine 200 [] Version_unknown) (if close then add_connection (str "close") no_general else no_general) (mkResponseHeaders [] (mkETag false true []) no_uri [] (inl None) [] []) (no_entity 0).
Notation commits n close := (Commit n a_request (a_response close)).

(** Two requests are pipelined; the second is ready first and waits for its turn. *)
Definition pipelined : world := played [Start; Accepted 1 false false; NextRequest 1; Accepted 2 false false; commits 2 false].


Definition answered : world := played [Start; Accepted 1 false false; NextRequest 1; Accepted 2 false false; commits 2 false; commits 1 false; Complete 1; Resume 2].

Lemma server_in_order_witness : w_order answered = [2; 1] /\ head (m_pendingRequests (w_conn answered)) = Some 2.
Proof.
  destruct (server_responds_in_order answered (played_reachable _)) as (_ & _ & H). split; [vm_compute; reflexivity |].
  apply H. left. vm_compute. reflexivity.
Defined.

Lemma server_no_lost_turn_witness : exists k, head (m_pendingRequests (w_conn pipelined)) = Some k /\ k < 2.
Proof.
  destruct (server_no_lost_turn pipelined 2 (played_reachable _)) as (k & E & Hk & _); [vm_compute; reflexivity |]. by exists k.
Defined.

Definition one_request : world := played [Start; Accepted 1 false false].

Lemma server_keeps_reading_witness : m_pipeline (m_requests (w_conn one_request) 1) = false.
Proof.
  refine (proj1 (server_keeps_reading one_request (played_reachable _) _ _ _ _ _)); vm_compute; first [reflexivity | lia].
Defined.

(** ** Where the code goes wrong *)

(** A request that is behind one that closes the connection: [commit] throws, and the handler of [doRequest] calls it again, where the assertion that the request is
    in the queue fails. *)
Lemma recover_asserts : exists w, reachable w /\ enabled (Recover 2) w = true /\ perform (Recover 2) false w = Err Assertion.
Proof.
  exists (played [Start; Accepted 1 false false; NextRequest 1; Accepted 2 false false; commits 1 true; commits 2 false]).
  split; [apply played_reachable |]. split; vm_compute; reflexivity.
Qed.

(** A request that is refused without closing the connection: the response is sent and promises to keep the connection, but the next request is never read. *)
Lemma rejected_stalls : exists w, reachable w /\ w_place w 1 = Responded /\ m_willClose (m_requests (w_conn w) 1) = false /\
  m_pendingRequests (w_conn w) = [] /\ m_requestCount (w_conn w) = 1 /\ m_priorRequestFailed (w_conn w) = None /\
  m_priorRequestClosed (w_conn w) = None /\ m_priorResponseClosed (w_conn w) = None.
Proof.
  exists (played [Start; Rejected 1; commits 1 false; Complete 1; CompleteRest 1]). split; [apply played_reachable |]. repeat split; vm_compute; reflexivity.
Qed.

(** When the body of the request is read by another fiber, and its end falls between the two critical sections of [responseComplete], the next request is never read: the first section
    saw a request that was not complete, [requestComplete] a response that was not complete, and the second section does not look. *)
Lemma concurrent_body_stalls : exists w w1 w2, reachable w /\ possible (BodyRead 1) w = true /\ perform (BodyRead 1) false w = Ok w1 /\ perform (CompleteRest 1) false w1 = Ok w2 /\
  w_place w2 1 = Responded /\ m_requestState (m_requests (w_conn w2) 1) = COMPLETE /\ m_pendingRequests (w_conn w2) = [] /\ m_requestCount (w_conn w2) = 1 /\ w_place w2 2 = Absent /\
  m_priorRequestFailed (w_conn w2) = None /\ m_priorRequestClosed (w_conn w2) = None /\ m_priorResponseClosed (w_conn w2) = None.
Proof.
  exists (played [Start; Accepted 1 false true; commits 1 false; Complete 1]). eexists _, _. split; [apply played_reachable |]. split; [vm_compute; reflexivity |]. split; [reflexivity |]. split; [vm_compute; reflexivity |].
  repeat split; vm_compute; reflexivity.
Qed.

(** When another fiber cancels a request that waits for its turn, the request is taken out of the queue but stays among those that wait: its fiber is never scheduled, and the invariant does not hold any more, so that the
    request that has its turn fails an assertion. *)
Lemma cancel_waiting : exists w w1, reachable w /\ possible (Cancel 2) w = true /\ perform (Cancel 2) false w = Ok w1 /\ w_place w1 2 = Waiting /\ 2 ∈ m_waitingResponses (w_conn w1) /\
  2 ∉ m_pendingRequests (w_conn w1) /\ perform (commits 1 false) false w1 = Err Assertion.
Proof.
  exists pipelined. eexists. split; [apply played_reachable |]. split; [vm_compute; reflexivity |]. split; [vm_compute; reflexivity |]. split_and!; [vm_compute; reflexivity | | | vm_compute; reflexivity].
  - apply (bool_decide_unpack _). vm_compute. exact I.
  - apply (bool_decide_unpack _). vm_compute. exact I.
Qed.
