(* ===== verification/Client.v ===== *)
(** [http/client.h] and [http/client.cpp]: the requests that are in progress on a connection, of which several may have been sent before the first response is read.  Each
    function is a critical section under [m_mutex]; a method that yields or flushes is several.  A request is its number, an iterator of the list of requests is the request that it points to,
    or [None] for [end()], [~0ull] is [None], and the counter of requests is taken not to wrap around.  Scheduling a fiber and calls of the stream are events. *)

From Stdlib Require Import String.
From stdpp Require Import functions numbers list_numbers list.
From S2P Require Import Prelude.

#[local] Open Scope nat_scope.

(** [ClientRequest::State], in this order. *)
Inductive ClientState := PENDING | WAITING | HEADERS | BODY | COMPLETE | ERROR | CANCELED.

#[global] Instance ClientState_eq_dec : EqDecision ClientState.
Proof. solve_decision. Defined.

(** [state >= COMPLETE], [state > COMPLETE] and [state > WAITING] *)
Definition completed (s : ClientState) : bool := match s with COMPLETE | ERROR | CANCELED => true | _ => false end.
Definition ended_early (s : ClientState) : bool := match s with ERROR | CANCELED => true | _ => false end.
Definition begun (s : ClientState) : bool := match s with PENDING | WAITING => false | _ => true end.

(** [m_fiber]: whether [m_scheduler] and [m_fiber] are set. *)
Record ClientRequest := mkClientRequest {
  m_requestState : ClientState;
  m_responseState : ClientState;
  m_fiber : bool;
  m_priorResponseException : bool;
}.

Definition ClientRequest_new : ClientRequest := mkClientRequest WAITING PENDING false false.

(** [i_timeout] is whether [m_idleTimeout] is not [~0ull], [i_dg] and [i_timer] whether [m_idleDg] and [m_idleTimer] are set. *)
Record IdleTimer := mkIdle { i_timeout : bool; i_dg : bool; i_timer : bool }.

(** The fiber of a request is scheduled; [finish] is called for a request; calls of the stream and of the timeouts. *)
Inductive event := Schedule (n : nat) | Finish (n : nat) | CancelRead | CancelWrite | CloseRead | CloseWrite | ReadTimeout (on : bool).

Record ClientConnection := mkClient {
  m_requests : nat -> ClientRequest;
  m_pendingRequests : list nat;
  m_currentRequest : option nat;
  m_waitingResponses : list nat;
  m_allowNewRequests : bool;
  m_priorRequestFailed : bool;
  m_requestCount : nat;
  m_priorResponseFailed : option nat;
  m_priorResponseClosed : option nat;
  m_timerManager : bool;
  m_idle : IdleTimer;
  m_events : list event;
}.

Definition ClientConnection_new (timerManager : bool) : ClientConnection :=
  mkClient (fun _ => ClientRequest_new) [] None [] true false 0 None None timerManager (mkIdle false false false) [].

Definition set_request (n : nat) (f : ClientRequest -> ClientRequest) (c : ClientConnection) : ClientConnection :=
  mkClient (<[n := f (m_requests c n)]> (m_requests c)) (m_pendingRequests c) (m_currentRequest c) (m_waitingResponses c) (m_allowNewRequests c)
    (m_priorRequestFailed c) (m_requestCount c) (m_priorResponseFailed c) (m_priorResponseClosed c) (m_timerManager c) (m_idle c) (m_events c).
Definition set_pending (l : list nat) (c : ClientConnection) : ClientConnection :=
  mkClient (m_requests c) l (m_currentRequest c) (m_waitingResponses c) (m_allowNewRequests c)
    (m_priorRequestFailed c) (m_requestCount c) (m_priorResponseFailed c) (m_priorResponseClosed c) (m_timerManager c) (m_idle c) (m_events c).
Definition set_current (o : option nat) (c : ClientConnection) : ClientConnection :=
  mkClient (m_requests c) (m_pendingRequests c) o (m_waitingResponses c) (m_allowNewRequests c)
    (m_priorRequestFailed c) (m_requestCount c) (m_priorResponseFailed c) (m_priorResponseClosed c) (m_timerManager c) (m_idle c) (m_events c).
Definition set_waiting (l : list nat) (c : ClientConnection) : ClientConnection :=
  mkClient (m_requests c) (m_pendingRequests c) (m_currentRequest c) l (m_allowNewRequests c)
    (m_priorRequestFailed c) (m_requestCount c) (m_priorResponseFailed c) (m_priorResponseClosed c) (m_timerManager c) (m_idle c) (m_events c).
Definition set_allow (b : bool) (c : ClientConnection) : ClientConnection :=
  mkClient (m_requests c) (m_pendingRequests c) (m_currentRequest c) (m_waitingResponses c) b
    (m_priorRequestFailed c) (m_requestCount c) (m_priorResponseFailed c) (m_priorResponseClosed c) (m_timerManager c) (m_idle c) (m_events c).
Definition set_requestFailed (b : bool) (c : ClientConnection) : ClientConnection :=
  mkClient (m_requests c) (m_pendingRequests c) (m_currentRequest c) (m_waitingResponses c) (m_allowNewRequests c)
    b (m_requestCount c) (m_priorResponseFailed c) (m_priorResponseClosed c) (m_timerManager c) (m_idle c) (m_events c).
Definition set_count (k : nat) (c : ClientConnection) : ClientConnection :=
  mkClient (m_requests c) (m_pendingRequests c) (m_currentRequest c) (m_waitingResponses c) (m_allowNewRequests c)
    (m_priorRequestFailed c) k (m_priorResponseFailed c) (m_priorResponseClosed c) (m_timerManager c) (m_idle c) (m_events c).
Definition set_responseFailed (o : option nat) (c : ClientConnection) : ClientConnection :=
  mkClient (m_requests c) (m_pendingRequests c) (m_currentRequest c) (m_waitingResponses c) (m_allowNewRequests c)
    (m_priorRequestFailed c) (m_requestCount c) o (m_priorResponseClosed c) (m_timerManager c) (m_idle c) (m_events c).
Definition set_responseClosed (o : option nat) (c : ClientConnection) : ClientConnection :=
  mkClient (m_requests c) (m_pendingRequests c) (m_currentRequest c) (m_waitingResponses c) (m_allowNewRequests c)
    (m_priorRequestFailed c) (m_requestCount c) (m_priorResponseFailed c) o (m_timerManager c) (m_idle c) (m_events c).
Definition set_idle (i : IdleTimer) (c : ClientConnection) : ClientConnection :=
  mkClient (m_requests c) (m_pendingRequests c) (m_currentRequest c) (m_waitingResponses c) (m_allowNewRequests c)
    (m_priorRequestFailed c) (m_requestCount c) (m_priorResponseFailed c) (m_priorResponseClosed c) (m_timerManager c) i (m_events c).
Definition raise (l : list event) (c : ClientConnection) : ClientConnection :=
  mkClient (m_requests c) (m_pendingRequests c) (m_currentRequest c) (m_waitingResponses c) (m_allowNewRequests c)
    (m_priorRequestFailed c) (m_requestCount c) (m_priorResponseFailed c) (m_priorResponseClosed c) (m_timerManager c) (m_idle c) (m_events c ++ l).

Definition set_requestState (s : ClientState) (r : ClientRequest) : ClientRequest := mkClientRequest s (m_responseState r) (m_fiber r) (m_priorResponseException r).
Definition set_responseState (s : ClientState) (r : ClientRequest) : ClientRequest := mkClientRequest (m_requestState r) s (m_fiber r) (m_priorResponseException r).
Definition set_fiber (b : bool) (r : ClientRequest) : ClientRequest := mkClientRequest (m_requestState r) (m_responseState r) b (m_priorResponseException r).
Definition set_exception (r : ClientRequest) : ClientRequest := mkClientRequest (m_requestState r) (m_responseState r) (m_fiber r) true.
Definition set_states (s : ClientState) (r : ClientRequest) : ClientRequest := mkClientRequest s s (m_fiber r) (m_priorResponseException r).

(** ** Iterators, sets and numbers *)

Definition mem (n : nat) (l : list nat) : bool := bool_decide (n ∈ l).
Definition erase (n : nat) (l : list nat) : list nat := filter (fun x => x <> n) l.
Definition is_state (a b : ClientState) : bool := bool_decide (a = b).
Definition front_is (n : nat) (c : ClientConnection) : bool := bool_decide (head (m_pendingRequests c) = Some n).

(** The part of a list from an element on, and up to it. *)
Fixpoint from (n : nat) (l : list nat) : list nat :=
  match l with [] => [] | x :: l' => if x =? n then l else from n l' end.
Fixpoint through (n : nat) (l : list nat) : list nat :=
  match l with [] => [] | x :: l' => if x =? n then [x] else x :: through n l' end.

(** [++it] is undefined at [end()] and for an element that is not in the list any more. *)
Definition next (it : option nat) (l : list nat) : result (option nat) :=
  match it with
  | Some n => if mem n l then Ok (head (tail (from n l))) else Err Undefined
  | None => Err Undefined
  end.

(** [m_pendingRequests.erase(it)], with the element after the one that was erased. *)
Definition erase_at (n : nat) (c : ClientConnection) : result (option nat * ClientConnection) :=
  it ← next (Some n) (m_pendingRequests c);
  Ok (it, set_pending (erase n (m_pendingRequests c)) c).

(** [a <= n] and [a < n], where [~0ull] is [None] *)
Definition number_upto (a : option nat) (n : nat) : bool := match a with Some k => k <=? n | None => false end.
Definition number_before (a : option nat) (n : nat) : bool := match a with Some k => k <? n | None => false end.
Definition min_number (a : option nat) (n : nat) : nat := match a with Some k => Nat.min k n | None => n end.
Definition given (a : option nat) : bool := bool_decide (is_Some a).

(** The fiber of a request is scheduled, and forgotten. *)
Definition schedule (n : nat) (c : ClientConnection) : ClientConnection := raise [Schedule n] (set_request n (set_fiber false) c).

(** The part of the list up to [m_currentRequest], that one included. *)
Definition upto_current (c : ClientConnection) : result (list nat) :=
  match m_currentRequest c with
  | None => Ok (m_pendingRequests c)
  | Some n => if mem n (m_pendingRequests c) then Ok (through n (m_pendingRequests c)) else Err Undefined
  end.

(** ** ClientConnection *)

Definition newRequestsAllowed (c : ClientConnection) : bool :=
  m_allowNewRequests c && negb (given (m_priorResponseClosed c)) && negb (m_priorRequestFailed c) && negb (given (m_priorResponseFailed c)).

(** The loop over the list, with [lastRequestNumber], whether this is the first element, and [seenFirstUnrequested]. *)
Fixpoint invariant_loop (c : ClientConnection) (last : nat) (begin seen : bool) (l : list nat) : result bool :=
  match l with
  | [] => Ok seen
  | n :: l =>
      let request := m_requests c n in
      assert: negb (n =? 0) ;;
      assert: (last =? 0) || (S last =? n) || number_upto (m_priorResponseFailed c) n || number_upto (m_priorResponseClosed c) n ;;
      assert: negb (completed (m_requestState request)) || negb (completed (m_responseState request)) || is_state (m_responseState request) CANCELED ;;
      assert: negb (begun (m_responseState request)) || begun (m_requestState request) ;;
      assert: (if seen then is_state (m_requestState request) WAITING
               else completed (m_requestState request) || (begun (m_requestState request) && bool_decide (m_currentRequest c = Some n))) ;;
      assert: begin || negb (begun (m_responseState request)) || ended_early (m_responseState request) ;;
      invariant_loop c n false (seen || negb (completed (m_requestState request))) l
  end.

Definition invariant (c : ClientConnection) : result unit :=
  seen ← invariant_loop c 0 true false (m_pendingRequests c);
  assert: seen || bool_decide (m_currentRequest c = None) ;;
  l ← upto_current c;
  assert: forallb (fun n => is_state (m_responseState (m_requests c n)) WAITING && mem n l) (m_waitingResponses c) ;;
  Ok tt.

Definition outstandingRequests (c : ClientConnection) : result nat :=
  invariant c ≫= fun _ => Ok (length (m_pendingRequests c)).

(** [us] is whether a timeout is given. *)
Definition idleTimeout (us dg : bool) (c : ClientConnection) : result ClientConnection :=
  assert: negb us || m_timerManager c ;;
  Ok (set_idle (mkIdle us dg (us && bool_decide (m_pendingRequests c = []))) c).

(** The request [n] is given its turn to be sent. *)
Definition give_turn (n : nat) (c : ClientConnection) : result ClientConnection :=
  let c := set_request n (set_requestState HEADERS) c in
  assert: m_fiber (m_requests c n) ;;
  Ok (schedule n c).

(** [scheduleNextRequest] until the first yield, with whether it goes on. *)
Definition scheduleNextRequest1 (n : nat) (c : ClientConnection) : result (bool * ClientConnection) :=
  invariant c ≫= fun _ =>
  assert: bool_decide (m_currentRequest c = Some n) ;;
  assert: is_state (m_requestState (m_requests c n)) BODY || is_state (m_requestState (m_requests c n)) HEADERS ;;
  it ← next (m_currentRequest c) (m_pendingRequests c);
  match it with
  | None => Ok (true, c)
  | Some k =>
      let c := set_request n (set_requestState COMPLETE) c in
      c ← (if completed (m_responseState (m_requests c n)) then
             assert: front_is n c ;; Ok (set_pending (tail (m_pendingRequests c)) c)
           else Ok c);
      c ← give_turn k (set_current (Some k) c);
      Ok (false, c)
  end.

(** What follows when nothing had to be flushed, or after that was done.  When this was the last request, because its response or an earlier one ends the connection, the mutex is unlocked here
    and again when the function returns. *)
Definition request_sent (n : nat) (c : ClientConnection) : result ClientConnection :=
  let c := set_request n (set_requestState COMPLETE) c in
  it ← next (m_currentRequest c) (m_pendingRequests c);
  let c := set_current it c in
  c ← (if completed (m_responseState (m_requests c n)) then
         assert: front_is n c ;;
         let c := set_pending (tail (m_pendingRequests c)) c in
         if number_upto (m_priorResponseClosed c) n || number_upto (m_priorResponseFailed c) n then
           assert: bool_decide (m_pendingRequests c = []) ;; Err Undefined
         else Ok c
       else Ok c);
  match m_currentRequest c with
  | Some k => give_turn k c
  | None => Ok (raise [ReadTimeout true] c)
  end.

(** After the yield, with whether the stream is flushed next; the stream is closed for writing after that when no more requests are allowed. *)
Definition scheduleNextRequest2 (n : nat) (c : ClientConnection) : result (bool * ClientConnection) :=
  invariant c ≫= fun _ =>
  it ← next (m_currentRequest c) (m_pendingRequests c);
  match it with
  | None => Ok (true, c)
  | Some _ => c ← request_sent n c; Ok (false, c)
  end.

(** After the flush.  [closes] is what [m_allowNewRequests] said before it, and [halfClose] is [m_stream->supportsHalfClose()]. *)
Definition scheduleNextRequest3 (closes halfClose : bool) (n : nat) (c : ClientConnection) : result ClientConnection :=
  invariant c ≫= fun _ =>
  c ← request_sent n c;
  Ok (raise (if closes && halfClose then [CloseWrite] else []) c).

Definition scheduleNextResponse (halfClose : bool) (n : nat) (c : ClientConnection) : result ClientConnection :=
  invariant c ≫= fun _ =>
  assert: front_is n c ;;
  assert: is_state (m_responseState (m_requests c n)) BODY || is_state (m_responseState (m_requests c n)) HEADERS ;;
  let c := set_request n (set_responseState COMPLETE) c in
  let it := head (tail (m_pendingRequests c)) in
  let popped := completed (m_requestState (m_requests c n)) in
  let close := popped && (number_upto (m_priorResponseClosed c) n || number_upto (m_priorResponseFailed c) n) in
  let c := if popped then set_pending (tail (m_pendingRequests c)) c else c in
  c ← match it with
      | Some k =>
          let state := m_responseState (m_requests c k) in
          assert: negb (begun state) || ended_early state ;;
          match state with
          | WAITING =>
              assert: mem k (m_waitingResponses c) ;;
              let c := set_request k (set_responseState HEADERS) (set_waiting (erase k (m_waitingResponses c)) c) in
              assert: m_fiber (m_requests c k) ;;
              Ok (schedule k c)
          | CANCELED => Ok (raise [Finish k] c)
          | _ => Ok c
          end
      | None =>
          if i_timeout (m_idle c) then
            assert: negb (i_timer (m_idle c)) ;; assert: m_timerManager c ;; assert: i_dg (m_idle c) ;;
            Ok (set_idle (mkIdle true (i_dg (m_idle c)) true) c)
          else Ok c
      end;
  Ok (raise (if close && halfClose then [CloseRead] else []) c).

(** The loop from [m_currentRequest] on. *)
Fixpoint wake_requests (l : list nat) (c : ClientConnection) : result ClientConnection :=
  match l with
  | [] => Ok c
  | n :: l =>
      assert: negb (is_state (m_requestState (m_requests c n)) COMPLETE) ;;
      if is_state (m_requestState (m_requests c n)) WAITING then
        assert: m_fiber (m_requests c n) ;;
        let c := schedule n c in
        let c := set_pending (erase n (m_pendingRequests c)) c in
        wake_requests l (if bool_decide (m_currentRequest c = Some n) then set_current (head l) c else c)
      else wake_requests l c
  end.

Definition scheduleAllWaitingRequests (c : ClientConnection) : result ClientConnection :=
  assert: m_priorRequestFailed c || given (m_priorResponseFailed c) || given (m_priorResponseClosed c) ;;
  wake_requests (match m_currentRequest c with Some n => from n (m_pendingRequests c) | None => [] end) c.

(** The loop from the beginning.  A response that waits and whose request is not complete is not erased; the loop sees it once more, as [ERROR], and goes on. *)
Fixpoint wake_responses (first : nat) (l : list nat) (c : ClientConnection) : result ClientConnection :=
  match l with
  | [] => Ok c
  | n :: l =>
      if first <? n then
        match m_responseState (m_requests c n) with
        | PENDING | ERROR => wake_responses first l c
        | WAITING =>
            assert: mem n (m_waitingResponses c) ;;
            assert: m_fiber (m_requests c n) ;;
            let c := schedule n (set_request n (set_responseState ERROR) c) in
            let c := if completed (m_requestState (m_requests c n)) then set_pending (erase n (m_pendingRequests c)) c else c in
            wake_responses first l (set_waiting (erase n (m_waitingResponses c)) c)
        | _ => Err Assertion
        end
      else wake_responses first l c
  end.

Definition scheduleAllWaitingResponses (c : ClientConnection) : result ClientConnection :=
  l ← upto_current c;
  match m_priorResponseFailed c, m_priorResponseClosed c with
  | Some a, Some b => wake_responses (Nat.min a b) l c
  | Some a, None | None, Some a => wake_responses a l c
  | None, None => Err Assertion
  end.

(** ** ClientRequest *)

Inductive client_exn := ConnectionVoluntarilyClosed | PriorRequestFailed | OperationAborted.

(** What [waitForRequest] comes to at first. *)
Inductive request_outcome := Requests (n : nat) | Queues (n : nat) | Refused (e : client_exn).

Definition waitForRequest1 (c : ClientConnection) : result (request_outcome * ClientConnection) :=
  invariant c ≫= fun _ =>
  if negb (m_allowNewRequests c) || given (m_priorResponseClosed c) then Ok (Refused ConnectionVoluntarilyClosed, c)
  else if m_priorRequestFailed c || given (m_priorResponseFailed c) then Ok (Refused PriorRequestFailed, c)
  else
    let c := set_idle (mkIdle (i_timeout (m_idle c)) (i_dg (m_idle c)) false) c in
    let firstRequest := bool_decide (m_currentRequest c = None) in
    let n := S (m_requestCount c) in
    let c := set_pending (m_pendingRequests c ++ [n]) (set_count n (set_request n (fun _ => ClientRequest_new) c)) in
    if firstRequest then Ok (Requests n, raise [ReadTimeout false] (set_request n (set_requestState HEADERS) (set_current (Some n) c)))
    else Ok (Queues n, set_request n (set_fiber true) c).

(** After the yield, with the exception if one is thrown. *)
Definition waitForRequest2 (n : nat) (c : ClientConnection) : result (option client_exn * ClientConnection) :=
  invariant c ≫= fun _ =>
  if given (m_priorResponseClosed c) || m_priorRequestFailed c || given (m_priorResponseFailed c) then
    c ← (if is_state (m_requestState (m_requests c n)) HEADERS then
           assert: bool_decide (m_currentRequest c = Some n) ;;
           '(it, c) ← erase_at n c;
           assert: bool_decide (it = None) ;;
           Ok (set_current it c)
         else Ok c);
    Ok (Some (if given (m_priorResponseClosed c) then ConnectionVoluntarilyClosed else PriorRequestFailed), set_request n (set_states ERROR) c)
  else
    assert: is_state (m_requestState (m_requests c n)) HEADERS ;;
    Ok (None, c).

(** In [doRequest], when the headers of the request say that it is the last one. *)
Definition doRequest_close (c : ClientConnection) : result ClientConnection :=
  invariant c ≫= fun _ => Ok (set_allow false c).

(** What [requestFailed] does to the queue and to the response, by their states. *)
Definition requestFailed_switch (n : nat) (c : ClientConnection) : result ClientConnection :=
  let request := m_requests c n in
  let pop c :=
    assert: front_is n c ;;
    it ← next (Some n) (m_pendingRequests c);
    Ok (set_pending (tail (m_pendingRequests c)) (set_current it c)) in
  let advance c := it ← next (Some n) (m_pendingRequests c); Ok (set_current it c) in
  if is_state (m_requestState request) HEADERS then
    match m_responseState request with
    | PENDING =>
        '(it, c) ← erase_at n (set_request n (set_responseState CANCELED) c);
        Ok (set_current it c)
    | WAITING =>
        assert: mem n (m_waitingResponses c) ;;
        '(it, c) ← erase_at n (set_waiting (erase n (m_waitingResponses c)) c);
        Ok (set_request n (set_responseState CANCELED) (schedule n (set_current it c)))
    | HEADERS => advance (raise [CancelRead] c)
    | BODY => advance c
    | _ => pop c
    end
  else if completed (m_responseState request) then pop c
  else advance c.

(** [requestFailed], with the exception if one is thrown. *)
Definition requestFailed (n : nat) (c : ClientConnection) : result (option client_exn * ClientConnection) :=
  let request := m_requests c n in
  if is_state (m_requestState request) ERROR then Ok (None, c)
  else
    assert: is_state (m_requestState request) BODY || is_state (m_requestState request) HEADERS ;;
    invariant c ≫= fun _ =>
    assert: negb (bool_decide (m_pendingRequests c = [])) ;;
    match m_currentRequest c with
    | None => Err Undefined
    | Some k =>
        assert: k =? n ;;
        c ← requestFailed_switch n (set_requestFailed true c);
        c ← scheduleAllWaitingRequests (set_request n (set_requestState ERROR) c);
        Ok (if number_upto (m_priorResponseClosed c) n then Some ConnectionVoluntarilyClosed
            else if number_before (m_priorResponseFailed c) n then Some PriorRequestFailed else None, c)
    end.

(** When the flush fails, the mutex that [requestFailed] has locked and unlocked is unlocked once more as the exception leaves [scheduleNextRequest]. *)
Definition scheduleNextRequest_fails (n : nat) (c : ClientConnection) : result ClientConnection :=
  requestFailed n c ≫= fun _ => Err Undefined.

Definition cancel (n : nat) (abort error : bool) (c : ClientConnection) : result ClientConnection :=
  let request := m_requests c n in
  if completed (m_requestState request) && completed (m_responseState request) then Ok c
  else if negb abort && is_state (m_requestState request) WAITING && negb (begun (m_responseState request)) then
    let c := set_request n (set_states CANCELED) c in
    invariant c ≫= fun _ =>
    assert: mem n (m_pendingRequests c) ;;
    Ok (set_pending (erase n (m_pendingRequests c)) c)
  else
    let failure := if error then ERROR else CANCELED in
    let waiting := is_state (m_responseState request) WAITING in
    let abort := abort || negb (is_state (m_responseState request) HEADERS) in
    invariant c ≫= fun _ =>
    let c := set_responseFailed (Some n) c in
    let c := if negb (completed (m_requestState request)) then set_request n (set_requestState failure) c else c in
    let c := if negb (completed (m_responseState request)) && abort then set_request n (set_responseState failure) c else c in
    assert: mem n (m_pendingRequests c) ;;
    let close := front_is n c in
    let current := bool_decide (m_currentRequest c = Some n) in
    c ← (if abort then
           '(it, c) ← erase_at n c;
           Ok (if current then set_current it c else c)
         else if current then it ← next (Some n) (m_pendingRequests c); Ok (set_current it c)
         else Ok c);
    c ← (if waiting then
           assert: mem n (m_waitingResponses c) ;;
           Ok (schedule n (set_waiting (erase n (m_waitingResponses c)) c))
         else Ok c);
    c ← scheduleAllWaitingRequests c;
    c ← scheduleAllWaitingResponses c;
    Ok (raise ((if close then [CancelRead] else []) ++ [CancelWrite]) c).

(** The destructor, with the assertions that nothing refers to the request any more. *)
Definition ClientRequest_destroy (n : nat) (c : ClientConnection) : result ClientConnection :=
  c ← cancel n true false c;
  assert: negb (mem n (m_pendingRequests c)) ;;
  assert: negb (mem n (m_waitingResponses c)) ;;
  Ok c.

(** What [ensureResponse] comes to: nothing is left to do, the response is read, or the fiber waits for its turn. *)
Inductive response_outcome := Ready | Reads | Waits | Throws (e : client_exn).

Definition failure_of (n : nat) (c : ClientConnection) : client_exn :=
  if number_upto (m_priorResponseClosed c) n then ConnectionVoluntarilyClosed else PriorRequestFailed.

Definition ensureResponse1 (n : nat) (c : ClientConnection) : result (response_outcome * ClientConnection) :=
  let request := m_requests c n in
  if m_priorResponseException request then Ok (Throws OperationAborted, c)
  else if is_state (m_responseState request) BODY || completed (m_responseState request) then Ok (Ready, c)
  else
    assert: is_state (m_responseState request) PENDING ;;
    invariant c ≫= fun _ =>
    if number_upto (m_priorResponseFailed c) n || number_upto (m_priorResponseClosed c) n then
      c ← (if completed (m_requestState request) then
             assert: mem n (m_pendingRequests c) ;;
             Ok (set_pending (erase n (m_pendingRequests c)) c)
           else Ok c);
      Ok (Throws (failure_of n c), set_request n set_exception (set_request n (set_responseState ERROR) c))
    else
      match m_pendingRequests c with
      | [] => Err Assertion
      | front :: _ =>
          if front =? n then Ok (Reads, set_request n (set_responseState HEADERS) c)
          else
            let c := set_request n (set_fiber true) c in
            assert: negb (mem n (m_waitingResponses c)) ;;
            Ok (Waits, set_request n (set_responseState WAITING) (set_waiting (n :: m_waitingResponses c) c))
      end.

(** After the yield.  A fiber that runs because the scheduler has nothing else to do, which the code expects, is not modelled. *)
Definition ensureResponse2 (n : nat) (c : ClientConnection) : result (response_outcome * ClientConnection) :=
  invariant c ≫= fun _ =>
  let throws e := Ok (Throws e, set_request n set_exception c) in
  match m_responseState (m_requests c n) with
  | CANCELED => throws OperationAborted
  | ERROR => throws (failure_of n c)
  | _ =>
      assert: front_is n c ;;
      assert: is_state (m_responseState (m_requests c n)) HEADERS ;;
      Ok (Reads, c)
  end.

(** The handler of exceptions while the headers are read. *)
Definition ensureResponse_fails (n : nat) (c : ClientConnection) : result ClientConnection :=
  invariant c ≫= fun _ =>
  let c := set_responseFailed (Some (min_number (m_priorResponseFailed c) n)) c in
  let c := set_request n (set_responseState ERROR) c in
  c ← (if front_is n c then
         let c := if completed (m_requestState (m_requests c n)) then set_pending (tail (m_pendingRequests c)) c else c in
         c ← scheduleAllWaitingRequests c;
         scheduleAllWaitingResponses c
       else Ok c);
  Ok (set_request n set_exception c).

(** The response ends the connection. *)
Definition ensureResponse_closes (hasBody : bool) (n : nat) (c : ClientConnection) : result ClientConnection :=
  invariant c ≫= fun _ =>
  let c := set_responseClosed (Some n) c in
  assert: front_is n c ;;
  let c := if negb hasBody && completed (m_requestState (m_requests c n)) then set_pending (tail (m_pendingRequests c)) c else c in
  let c := set_request n (set_responseState (if hasBody then BODY else COMPLETE)) c in
  c ← scheduleAllWaitingRequests c;
  scheduleAllWaitingResponses c.

(** Once the headers have been read and accepted. *)
Definition ensureResponse_read (close hasBody connect halfClose : bool) (n : nat) (c : ClientConnection) : result ClientConnection :=
  let state := m_responseState (m_requests c n) in
  assert: is_state state HEADERS || ended_early state ;;
  if ended_early state then ensureResponse_fails n c
  else
    c ← (if close then ensureResponse_closes hasBody n c
         else Ok (set_request n (set_responseState (if connect then COMPLETE else BODY)) c));
    if negb hasBody && negb connect then
      if close then Ok (raise (if halfClose then [CloseRead] else []) c)
      else scheduleNextResponse halfClose n c
    else Ok c.

(** The end of the body of a response, whose trailer has been read. *)
Definition responseDone (halfClose : bool) (n : nat) (c : ClientConnection) : result ClientConnection :=
  assert: is_state (m_responseState (m_requests c n)) BODY ;;
  scheduleNextResponse halfClose n c.
