(* ===== verification/ClientHeaders.v ===== *)
(** The parts of [http/client.cpp] that look at headers: what [doRequest] does to a request before it is sent, and the checks that [ensureResponse] makes of a response.  [ClientHeadersProps.v] puts
    them together with what the server does. *)

From Stdlib Require Import String.
From stdpp Require Import numbers list_numbers list.
From S2P Require Import Prelude Stream StreamFilters Chunked Notify Http Connection ServerResponse.

Definition HTTP10 : Version := mkVersion 1 0.
Definition HTTP11 : Version := mkVersion 1 1.

(** ** Requests *)

(** The assertions about transfer codings: the last one is [chunked], and the others are known. *)
Definition chunked_last (l : list ValueWithParameters) : bool :=
  match last l with None => true | Some v => same_text (vp_value v) (str "chunked") && forallb known_coding (removelast l) end.

(** What is added to the names of [Connection], and whether the connection ends after this request; [old] is whether the version is 1.0. *)
Definition request_connection (old : bool) (g : GeneralHeaders) : GeneralHeaders * bool :=
  let g := if negb (has_name (str "close") (gh_connection g)) && old then add_connection (str "Keep-Alive") g else g in
  let close := if old then negb (has_name (str "Keep-Alive") (gh_connection g)) else has_name (str "close") (gh_connection g) in
  (if old && close then add_connection (str "close") g else g, close).

(** [doRequest] up to where the request is written: the request with its headers completed, and whether the connection ends after it. *)
Definition prepare_request (r : Request) : result (Request * bool) :=
  let line := req_line r in
  let g := req_general r in
  let host := rq_host (req_request r) in
  assert: Version_eq (rl_ver line) Version_unknown || Version_eq (rl_ver line) HTTP10 || Version_eq (rl_ver line) HTTP11 ;;
  assert: uri_defined (rl_uri line) ;;
  assert: negb (bool_decide (host = [])) || negb (Version_eq (rl_ver line) HTTP11) ;;
  assert: chunked_last (gh_transferEncoding g) ;;
  let ver := if Version_eq (rl_ver line) Version_unknown then if bool_decide (host = []) then HTTP10 else HTTP11 else rl_ver line in
  let '(g, close) := request_connection (Version_eq ver HTTP10) g in
  let g := if present (rq_te (req_request r)) then add_connection (str "TE") g else g in
  Ok (mkRequest (mkRequestLine (rl_method line) (rl_uri line) ver) g (req_request r) (req_entity r), close).

Definition hasRequestBody (r : Request) : bool := hasMessageBody (req_general r) (req_entity r) (rl_method (req_line r)) INVALID false.

(** ** Responses *)

Inductive response_exn := BadMessageHeader | InvalidTransferEncoding.

(** The response is taken, with its headers, whether the connection ends after it, whether it has a body and whether it opens a tunnel; or an exception is thrown. *)
Inductive response_verdict := Understood (general : GeneralHeaders) (close hasBody connect : bool) | Malformed (e : response_exn).

(** All codings but the last. *)
Fixpoint response_codings (l : list ValueWithParameters) : bool :=
  match l with
  | [] | [_] => true
  | v :: l => negb (same_text (vp_value v) (str "chunked")) && supported_coding v && response_codings l
  end.

Definition known_response_codings (l : list ValueWithParameters) : bool :=
  match last l with None => true | Some v => same_text (vp_value v) (str "chunked") && response_codings l end.

(** The part of [ensureResponse] from the version to where the connection may be closed; [method] is the one of the request. *)
Definition check_response (method : text) (r : Response) : result response_verdict :=
  let g := res_general r in
  let ver := sl_ver (res_status r) in
  let status := sl_status (res_status r) in
  if negb (Version_eq ver HTTP10 || Version_eq ver HTTP11) then Ok (Malformed BadMessageHeader)
  else
    let close := if Version_eq ver HTTP10 then negb (has_name (str "Keep-Alive") (gh_connection g)) && negb (has_name (str "Keep-Alive") (gh_proxyConnection g))
                 else has_name (str "close") (gh_connection g) in
    let close := close || has_name (str "close") (gh_proxyConnection g) in
    te ← remove_identity true (gh_transferEncoding g);
    if negb (known_response_codings te) then Ok (Malformed InvalidTransferEncoding)
    else
      let g := set_transferEncoding te g in
      let e := res_entity r in
      let hasBody := hasMessageBody g e method status false in
      let close := close || (hasBody && bool_decide (te = []) && (en_contentLength e =? npos) && negb (bool_decide (mt_type (en_contentType e) = str "multipart"))) in
      let connect := bool_decide (method = CONNECT) && (status =? STATUS_OK) in
      Ok (Understood g (close || connect) hasBody connect).

(** [hasResponseBody] before the stream of the body is made, for a response that was read. *)
Definition hasResponseBody (method : text) (r : Response) : bool :=
  hasMessageBody (res_general r) (res_entity r) method (sl_status (res_status r)) true.

(** The codings of a response that was taken are those of its headers without identity; and a tunnel is the end of the connection. *)
Lemma check_response_codings method a g close hasBody connect : check_response method a = Ok (Understood g close hasBody connect) ->
  remove_identity true (gh_transferEncoding (res_general a)) = Ok (gh_transferEncoding g) /\ (connect = true -> close = true).
Proof.
  unfold check_response. destruct (negb _); [done |]. destruct (remove_identity _ _) as [te |]; [| done]. cbn [mbind result_bind]. destruct (negb _); [done |]. intros [= <- <- _ <-]. split; [done |].
  intros ->. apply orb_true_r.
Qed.
