(* ===== verification/ClientWorld.v ===== *)
(** The requests of a client's connection in progress at once: for each of them a fiber that sends the request and one that reads the response, and the critical sections of [Client.v] in any order
    that these fibers can take.  [possible] says what the fibers may do at all, [orderly] describes the two ways to use a connection that the theorems of [ClientProps.v] are about. *)

From Stdlib Require Import String.
From stdpp Require Import functions numbers list_numbers list.
From S2P Require Import Prelude Http ClientHeaders Client.

#[local] Open Scope nat_scope.

(** How far the sending of a request is.
    - [Unborn]: there is no such request yet.
    - [Queued]: in [waitForRequest], until it is scheduled; [Scheduled]: scheduled and not yet running.
    - [Writing]: the request has its turn.
    - [Yielding], [Flushing]: in [scheduleNextRequest], which lets others run and then flushes the stream.
    - [Sent]: the request was sent, or sending it failed.
    - [Dropped]: [waitForRequest] threw, or the request was cancelled before it was sent. *)
Inductive sending := Unborn | Queued | Scheduled | Writing | Yielding | Flushing | Sent | Dropped.

(** How far the reading of a response is: [Idle] between calls, [Waiting] in [ensureResponse] until it is scheduled, [Woken] then, [Reading] while the headers are read. *)
Inductive reading := Idle | Waiting | Woken | Reading.

#[global] Instance sending_eq_dec : EqDecision sending.
Proof. solve_decision. Defined.
#[global] Instance reading_eq_dec : EqDecision reading.
Proof. solve_decision. Defined.

(** [w_sent]: the requests that have begun to be sent, [w_read]: those whose response has begun to be read, both in this order. *)
Record world := mkWorld {
  w_conn : ClientConnection;
  w_sending : nat -> sending;
  w_reading : nat -> reading;
  w_sent : list nat;
  w_read : list nat;
}.

Definition world_new (timerManager : bool) : world := mkWorld (ClientConnection_new timerManager) (fun _ => Unborn) (fun _ => Idle) [] [].

(** What the fibers can do.
    - [Request]: [ClientConnection::request], until it returns, throws or waits; [ResumeRequest n]: the fiber that waited runs.
    - [DoRequest n request]: [doRequest] completes the headers of the request, and finds whether the connection ends after it.
    - [RequestBody n]: the headers were written and a body follows; [RequestEnds n]: the request was written to its end; [WriteFails n]: writing failed.
    - [Yielded n], [Flushed n]: [scheduleNextRequest] goes on; [FlushFails n]: the flush threw.
    - [EnsureResponse n], [ResumeResponse n]: [ensureResponse] until the headers are read.
    - [ResponseHeaders n method response]: the headers were read, for a request with this method; [ResponseFails n]: they could not be read.
    - [ResponseEnds n]: the end of the body.
    - [Cancel n], [Destroy n]: [cancel], and the destructor.
    - [SetIdleTimeout]: [idleTimeout]. *)
Inductive action :=
| Request | ResumeRequest (n : nat) | DoRequest (n : nat) (request : Http.Request) | RequestBody (n : nat) | RequestEnds (n : nat) | WriteFails (n : nat)
| Yielded (n : nat) | Flushed (n : nat) (closes : bool) | FlushFails (n : nat)
| EnsureResponse (n : nat) | ResumeResponse (n : nat) | ResponseHeaders (n : nat) (method : text) (response : Response) | ResponseFails (n : nat) | ResponseEnds (n : nat)
| Cancel (n : nat) (abort error : bool) | Destroy (n : nat) | SetIdleTimeout (us dg : bool).

(** The fiber that is scheduled is the one that waits. *)
Definition deliver (w : world) (e : event) : world :=
  match e with
  | Schedule n =>
      if bool_decide (w_sending w n = Queued) then mkWorld (w_conn w) (<[n := Scheduled]> (w_sending w)) (w_reading w) (w_sent w) (w_read w)
      else if bool_decide (w_reading w n = Waiting) then mkWorld (w_conn w) (w_sending w) (<[n := Woken]> (w_reading w)) (w_sent w) (w_read w)
      else w
  | _ => w
  end.

Definition clear_events (c : ClientConnection) : ClientConnection :=
  mkClient (m_requests c) (m_pendingRequests c) (m_currentRequest c) (m_waitingResponses c) (m_allowNewRequests c)
    (m_priorRequestFailed c) (m_requestCount c) (m_priorResponseFailed c) (m_priorResponseClosed c) (m_timerManager c) (m_idle c) [].

(** The connection after a section, with the fibers that were scheduled. *)
Definition settle (c : ClientConnection) (w : world) : world :=
  foldl deliver (mkWorld (clear_events c) (w_sending w) (w_reading w) (w_sent w) (w_read w)) (m_events c).

Definition sends (n : nat) (p : sending) (w : world) : world := mkWorld (w_conn w) (<[n := p]> (w_sending w)) (w_reading w) (w_sent w) (w_read w).
Definition reads (n : nat) (p : reading) (w : world) : world := mkWorld (w_conn w) (w_sending w) (<[n := p]> (w_reading w)) (w_sent w) (w_read w).
Definition begins_sending (n : nat) (w : world) : world := mkWorld (w_conn w) (<[n := Writing]> (w_sending w)) (w_reading w) (w_sent w ++ [n]) (w_read w).
Definition begins_reading (n : nat) (w : world) : world := mkWorld (w_conn w) (w_sending w) (<[n := Reading]> (w_reading w)) (w_sent w) (w_read w ++ [n]).

Definition after_request (o : request_outcome) (w : world) : world :=
  match o with Requests n => begins_sending n w | Queues n => sends n Queued w | Refused _ => w end.
Definition after_ensure (n : nat) (o : response_outcome) (w : world) : world :=
  match o with Ready => w | Reads => begins_reading n w | Waits => reads n Waiting w | Throws _ => reads n Idle w end.

(** A request that was cancelled while it had its turn is not sent any more: it is the fiber that sends it that cancelled it. *)
Definition abandon (n : nat) (w : world) : world := if bool_decide (w_sending w n = Writing) then sends n Dropped w else w.

(** [doRequest] before the request is written. *)
Definition doRequest_headers (request : Http.Request) (c : ClientConnection) : result ClientConnection :=
  '(_, close) ← prepare_request request;
  if (close : bool) then doRequest_close c else Ok c.

(** [ensureResponse] from where the parser has read the headers, with the handler of the exceptions. *)
Definition ensureResponse_headers (method : text) (response : Response) (halfClose : bool) (n : nat) (c : ClientConnection) : result ClientConnection :=
  let state := m_responseState (m_requests c n) in
  assert: is_state state HEADERS || ended_early state ;;
  if ended_early state then ensureResponse_fails n c
  else
    v ← check_response method response;
    match v with
    | Understood _ close hasBody connect => ensureResponse_read close hasBody connect halfClose n c
    | Malformed _ => ensureResponse_fails n c
    end.

Definition perform (a : action) (halfClose : bool) (w : world) : result world :=
  let c := w_conn w in
  match a with
  | Request => '(o, c) ← waitForRequest1 c; Ok (after_request o (settle c w))
  | ResumeRequest n => '(o, c) ← waitForRequest2 n c; Ok (match o with None => begins_sending n | Some _ => sends n Dropped end (settle c w))
  | DoRequest n request => c ← doRequest_headers request c; Ok (settle c w)
  | RequestBody n => Ok (settle (set_request n (set_requestState BODY) c) w)
  | RequestEnds n => '(waits, c) ← scheduleNextRequest1 n c; Ok (sends n (if (waits : bool) then Yielding else Sent) (settle c w))
  | WriteFails n => '(_, c) ← requestFailed n c; Ok (sends n Sent (settle c w))
  | Yielded n => '(flushes, c) ← scheduleNextRequest2 n c; Ok (sends n (if (flushes : bool) then Flushing else Sent) (settle c w))
  | Flushed n closes => c ← scheduleNextRequest3 closes halfClose n c; Ok (sends n Sent (settle c w))
  | FlushFails n => c ← scheduleNextRequest_fails n c; Ok (sends n Sent (settle c w))
  | EnsureResponse n => '(o, c) ← ensureResponse1 n c; Ok (after_ensure n o (settle c w))
  | ResumeResponse n => '(o, c) ← ensureResponse2 n c; Ok (after_ensure n o (settle c w))
  | ResponseHeaders n method response => c ← ensureResponse_headers method response halfClose n c; Ok (reads n Idle (settle c w))
  | ResponseFails n => c ← ensureResponse_fails n c; Ok (reads n Idle (settle c w))
  | ResponseEnds n => c ← responseDone halfClose n c; Ok (settle c w)
  | Cancel n abort error => c ← cancel n abort error c; Ok (abandon n (settle c w))
  | Destroy n => c ← ClientRequest_destroy n c; Ok (abandon n (settle c w))
  | SetIdleTimeout us dg => c ← idleTimeout us dg c; Ok (settle c w)
  end.

(** The requests before [n] in the queue can all still be responded to. *)
Definition in_turn (n : nat) (c : ClientConnection) : bool :=
  forallb (fun x => (n <=? x) || negb (number_before (m_priorResponseFailed c) x) || number_before (m_priorResponseClosed c) x) (m_pendingRequests c).

(** [cancel] has nothing to do, or no request before this one has failed because of another. *)
Definition may_cancel (duplex : bool) (n : nat) (c : ClientConnection) : bool :=
  completed (m_requestState (m_requests c n)) && completed (m_responseState (m_requests c n)) || negb duplex && in_turn n c.

(** When an action can be taken at all.  A response may be asked for as soon as [request] has returned, and a request may be cancelled at any time from then on. *)
Definition possible (a : action) (w : world) : bool :=
  let sending_is n p := bool_decide (w_sending w n = p) in
  let reading_is n p := bool_decide (w_reading w n = p) in
  let request n := m_requests (w_conn w) n in
  let returned n := sending_is n Sent || sending_is n Writing || sending_is n Yielding || sending_is n Flushing in
  match a with
  | Request => true
  | ResumeRequest n => sending_is n Scheduled
  | DoRequest n _ | RequestBody n => sending_is n Writing && is_state (m_requestState (request n)) HEADERS
  | RequestEnds n | WriteFails n => sending_is n Writing
  | Yielded n => sending_is n Yielding
  | Flushed n _ | FlushFails n => sending_is n Flushing
  | EnsureResponse n => reading_is n Idle && returned n
  | ResumeResponse n => reading_is n Woken
  | ResponseHeaders n _ _ | ResponseFails n => reading_is n Reading
  | ResponseEnds n => reading_is n Idle && is_state (m_responseState (request n)) BODY
  | Cancel n _ _ => returned n
  | Destroy n => returned n && reading_is n Idle
  | SetIdleTimeout us dg => (m_timerManager (w_conn w) && dg) || negb us
  end.

(** The connection goes on after the response. *)
Definition keeps_open (method : text) (response : Response) : bool :=
  match check_response method response with Ok (Understood _ close _ _) => negb close | _ => false end.

(** There are two orderly ways to use a connection.  Either responses may be asked for before their requests are sent ([duplex]), and then no response ends the connection, fails or is cancelled; or
    responses are asked for when their requests have been sent, and then requests may be cancelled from the front on.  Nobody cancels a request while [scheduleNextRequest] sends the rest of it. *)
Definition orderly (duplex : bool) (a : action) (w : world) : bool :=
  let sending_is n p := bool_decide (w_sending w n = p) in
  match a with
  | EnsureResponse n => sending_is n Sent || duplex
  | ResponseHeaders n method response => negb duplex || keeps_open method response
  | ResponseFails n => negb duplex
  | Cancel n _ _ | Destroy n => (sending_is n Writing || sending_is n Sent) && may_cancel duplex n (w_conn w)
  | _ => true
  end.

Definition enabled (duplex : bool) (a : action) (w : world) : bool := possible a w && orderly duplex a w.

(** The headers of a request pass the assertions of [doRequest] about them, and those of a response, unless it was cancelled, can be looked at. *)
Definition headers_pass (a : action) (w : world) : bool :=
  match a with
  | DoRequest n request => match prepare_request request with Ok _ => true | Err _ => false end
  | ResponseHeaders n method response =>
      ended_early (m_responseState (m_requests (w_conn w) n)) || match check_response method response with Ok _ => true | Err _ => false end
  | _ => true
  end.

Definition flush_fails (a : action) : bool := match a with FlushFails _ => true | _ => false end.

Inductive reachable (duplex timerManager : bool) : world -> Prop :=
| reachable_new : reachable duplex timerManager (world_new timerManager)
| reachable_step w w' a halfClose : reachable duplex timerManager w -> enabled duplex a w = true -> perform a halfClose w = Ok w' -> reachable duplex timerManager w'.
