(* ===== verification/ClientInv.v ===== *)
(** The invariant of the requests of a client's connection: what holds of one request, and of the queue. *)

From Stdlib Require Import String Sorted.
From stdpp Require Import functions numbers list_numbers list.
From S2P Require Import Prelude Client ClientWorld.

#[local] Open Scope nat_scope.

(** ** What is known about one request *)

Definition failed (c : ClientConnection) : bool := m_priorRequestFailed c || given (m_priorResponseFailed c) || given (m_priorResponseClosed c).
Definition inq (c : ClientConnection) (n : nat) : bool := mem n (m_pendingRequests c).
Definition inw (c : ClientConnection) (n : nat) : bool := mem n (m_waitingResponses c).
Definition born (c : ClientConnection) (n : nat) : bool := (1 <=? n) && (n <=? m_requestCount c).

(** Whether a request is one that can be responded to: not after one that failed or closed the connection. *)
Definition eligible (c : ClientConnection) (n : nat) : bool := negb (number_before (m_priorResponseFailed c) n) && negb (number_before (m_priorResponseClosed c) n).

(** Before [m_currentRequest], there, or after it. *)
Definition place (c : ClientConnection) (n : nat) : comparison := match m_currentRequest c with Some k => Nat.compare n k | None => Lt end.
Definition at_place (a b : comparison) : bool := match a, b with Lt, Lt | Eq, Eq | Gt, Gt => true | _, _ => false end.

Definition sending_in (l : list sending) (s : sending) : bool := bool_decide (s ∈ l).
Definition reading_is (a b : reading) : bool := bool_decide (a = b).

(** The response of a request that has got its turn; [sent]: the sending of the request is over; [q], [w]: it is in the queue, and among those that wait; [e]: it is eligible; [lm]: the
    response has begun to be read. *)
Definition response_ok (D sent : bool) (r : ClientRequest) (d : reading) (q w e lm : bool) : bool :=
  match m_responseState r with
  | PENDING => reading_is d Idle && q && negb w && negb lm
  | WAITING => reading_is d Waiting && m_fiber r && q && w && e && (D || sent) && negb lm
  | HEADERS => (reading_is d Woken && negb lm || reading_is d Reading && lm) && q && negb w && e && (D || sent)
  | BODY => reading_is d Idle && q && negb w && e && lm && (D || sent)
  | COMPLETE => reading_is d Idle && Bool.eqb q (negb sent) && negb w && lm && (D || sent)
  | ERROR | CANCELED => negb (reading_is d Waiting) && negb (D && reading_is d Reading) && negb q && negb w && sent
  end.

(** [f]: a request has failed or the connection is closed; [p]: the place in the queue; [b]: there is such a request; [lj]: it has begun to be sent. *)
Definition request_ok (D f : bool) (r : ClientRequest) (s : sending) (d : reading) (q w : bool) (p : comparison) (e b lj lm : bool) : bool :=
  match s with
  | Unborn => negb b && negb q && negb w && is_state (m_responseState r) PENDING && reading_is d Idle
  | Queued => b && q && negb w && is_state (m_requestState r) WAITING && is_state (m_responseState r) PENDING && reading_is d Idle && m_fiber r && at_place p Gt && negb f && negb lj
  | Scheduled => b && negb w && is_state (m_responseState r) PENDING && reading_is d Idle && negb lj &&
      (q && at_place p Eq && is_state (m_requestState r) HEADERS || negb q && is_state (m_requestState r) WAITING && f)
  | Writing | Yielding | Flushing =>
      b && q && at_place p Eq && (is_state (m_requestState r) HEADERS || is_state (m_requestState r) BODY) && lj && response_ok D false r d q w e lm
  | Sent => b && completed (m_requestState r) && lj && (negb q || at_place p Lt) && response_ok D true r d q w e lm
  | Dropped => b && completed (m_requestState r) && completed (m_responseState r) && negb q && negb w && reading_is d Idle
  end.

Definition ok_at (D : bool) (c : ClientConnection) (sd : nat -> sending) (rd : nat -> reading) (j m n : nat) : bool :=
  request_ok D (failed c) (m_requests c n) (sd n) (rd n) (inq c n) (inw c n) (place c n) (eligible c n) (born c n) (n <=? j) (n <=? m).

(** ** The invariant

    [j] requests have begun to be sent and [m] responses have begun to be read. *)

Record inv (D : bool) (c : ClientConnection) (sd : nat -> sending) (rd : nat -> reading) (j m : nat) : Prop := mkInv {
  inv_ok : forall n, ok_at D c sd rd j m n = true;
  inv_sorted : StronglySorted lt (m_pendingRequests c);
  inv_current : forall k, m_currentRequest c = Some k -> k ∈ m_pendingRequests c /\ j <= k <= S j;
  inv_front : forall n x, n ∈ m_pendingRequests c -> begun (m_responseState (m_requests c n)) = true -> x ∈ m_pendingRequests c -> n <= x;
  inv_read : forall n, n ∈ m_pendingRequests c -> n <= m -> n = m;
  inv_duplex : D = true -> m_priorResponseFailed c = None /\ m_priorResponseClosed c = None;
  inv_counts : m <= j <= m_requestCount c;
  inv_all : failed c = false -> forall x, m < x <= m_requestCount c -> x ∈ m_pendingRequests c;
  inv_gap : forall n x, n ∈ m_pendingRequests c -> eligible c n = true -> m < x <= n -> x ∈ m_pendingRequests c;
  inv_timer : i_timer (m_idle c) = true -> forall n, n ∈ m_pendingRequests c -> m_responseState (m_requests c n) = COMPLETE;
  inv_ended : forall n, rd n = Reading -> ended_early (m_responseState (m_requests c n)) = true ->
    failed c = true /\ forall y, y ∈ m_pendingRequests c -> eligible c y = true -> y <= n;
  inv_waits : forall n, n ∈ m_pendingRequests c -> m_responseState (m_requests c n) = WAITING -> exists k, k ∈ m_pendingRequests c /\ k < n;
  inv_timeout : i_timeout (m_idle c) = true -> i_dg (m_idle c) = true /\ m_timerManager c = true;
}.

Definition world_ok (D : bool) (w : world) : Prop :=
  inv D (w_conn w) (w_sending w) (w_reading w) (length (w_sent w)) (length (w_read w)) /\
  w_sent w = seq 1 (length (w_sent w)) /\ w_read w = seq 1 (length (w_read w)).

(** ** Cases of one request

    Splitting a conjunction of booleans, and turning tests into propositions. *)

Ltac bools :=
  repeat match goal with
    | H : (_ && _)%bool = true |- _ => apply andb_true_iff in H as [? ?]
    | H : (_ || _)%bool = true |- _ => apply orb_true_iff in H
    | H : negb _ = true |- _ => apply negb_true_iff in H
    | H : is_state _ _ = true |- _ => unfold is_state in H; apply bool_decide_eq_true in H
    | H : reading_is _ _ = true |- _ => unfold reading_is in H; apply bool_decide_eq_true in H
    | H : mem _ _ = true |- _ => unfold mem in H; apply bool_decide_eq_true in H
    | H : mem _ _ = false |- _ => unfold mem in H; apply bool_decide_eq_false in H
  end.

Lemma mem_true n l : mem n l = true <-> n ∈ l.
Proof. apply bool_decide_eq_true. Qed.
Lemma mem_false n l : mem n l = false <-> n ∉ l.
Proof. apply bool_decide_eq_false. Qed.

Lemma mem_erase x n l : mem x (erase n l) = mem x l && negb (x =? n).
Proof.
  apply eq_true_iff_eq. rewrite andb_true_iff, negb_true_iff, Nat.eqb_neq, !mem_true. unfold erase. rewrite list_elem_of_filter. tauto.
Qed.

Lemma elem_erase x n l : x ∈ erase n l <-> x ∈ l /\ x <> n.
Proof. unfold erase. rewrite list_elem_of_filter. tauto. Qed.

Lemma is_state_true a b : is_state a b = true <-> a = b.
Proof. apply bool_decide_eq_true. Qed.
Lemma is_state_refl a : is_state a a = true.
Proof. by apply is_state_true. Qed.

Definition needs_turn (s : ClientState) : bool := match s with WAITING | HEADERS | BODY => true | _ => false end.

Lemma response_ok_frame D sent r d q w e e' lm :
  response_ok D sent r d q w e lm = true -> (needs_turn (m_responseState r) = true -> e = true -> e' = true) -> response_ok D sent r d q w e' lm = true.
Proof.
  unfold response_ok. destruct (m_responseState r); intros H He; try exact H; (destruct e; [rewrite He by done; exact H |]); by rewrite ?andb_false_r in H.
Qed.

(** A request that is not what changed: what the flags may change to. *)
Lemma request_ok_frame D f f' r s d q w p p' e e' b lj lm :
  request_ok D f r s d q w p e b lj lm = true ->
  (s = Queued -> f' = f) -> (f = true -> f' = true) ->
  (q = true -> p' = p \/ (p' = Lt /\ s = Sent)) ->
  (needs_turn (m_responseState r) = true -> e = true -> e' = true) ->
  request_ok D f' r s d q w p' e' b lj lm = true.
Proof.
  intros H Hf Hf' Hp He.
  assert (Hp' : q = true -> s <> Sent -> p' = p) by naive_solver.
  destruct s; cbn [request_ok] in *; try exact H; bools.
  - rewrite Hf, Hp' by congruence. rewrite ?andb_true_iff, ?negb_true_iff, ?is_state_true. unfold reading_is. rewrite bool_decide_eq_true. tauto.
  - match goal with H : _ \/ _ |- _ => destruct H as [H | H] end; bools; rewrite ?andb_true_iff, ?orb_true_iff, ?andb_true_iff, ?negb_true_iff, ?is_state_true; unfold reading_is;
      rewrite bool_decide_eq_true; [rewrite Hp' by done; tauto | rewrite Hf' by done; tauto].
  - rewrite Hp' by done. rewrite ?andb_true_iff, ?orb_true_iff. pose proof (response_ok_frame D false r d q w e e' lm). tauto.
  - rewrite Hp' by done. rewrite ?andb_true_iff, ?orb_true_iff. pose proof (response_ok_frame D false r d q w e e' lm). tauto.
  - rewrite Hp' by done. rewrite ?andb_true_iff, ?orb_true_iff. pose proof (response_ok_frame D false r d q w e e' lm). tauto.
  - assert (Hl : negb q || at_place p' Lt = true).
    { destruct q; [| done]. destruct (Hp eq_refl) as [-> | [-> _]]; [| done]. naive_solver. }
    rewrite Hl, ?andb_true_iff. pose proof (response_ok_frame D true r d q w e e' lm). tauto.
Qed.

(** ** Lists in increasing order *)

Section Sorted.
Context (q : list nat) (Hq : StronglySorted lt q).

Lemma sorted_cons_inv x l : q = x :: l -> StronglySorted lt l /\ forall y, y ∈ l -> x < y.
Proof using Hq. intros ->. apply StronglySorted_inv in Hq as [? H]. rewrite Forall_forall in H. split; [done |]. exact H. Qed.

Lemma queue_sorted_filter (P : nat -> Prop) `{!forall x, Decision (P x)} : StronglySorted lt (filter P q).
Proof using Hq.
  induction Hq as [| x l Hl IH Hx]; [constructor |]. rewrite filter_cons. destruct (decide (P x)); [| by apply IH].
  constructor; [by apply IH |]. rewrite Forall_forall in *. intros y Hy. apply list_elem_of_filter in Hy as [_ Hy]. by apply Hx.
Qed.

Lemma sorted_nodup : NoDup q.
Proof using Hq.
  induction Hq as [| x l Hl IH Hx]; constructor; [| by apply IH]. intros Hin. rewrite Forall_forall in Hx. specialize (Hx x Hin). lia.
Qed.

Lemma sorted_snoc n : (forall x, x ∈ q -> x < n) -> StronglySorted lt (q ++ [n]).
Proof using Hq.
  induction Hq as [| x l Hl IH Hx]; intros Hn; cbn; [repeat constructor |]. constructor.
  - apply IH; [done |]. intros y Hy. apply Hn. by right.
  - rewrite Forall_forall in *. intros y [Hy | ->%list_elem_of_singleton]%elem_of_app; [by apply Hx | apply Hn; by left].
Qed.
End Sorted.

Lemma sorted_head q n : StronglySorted lt q -> head q = Some n <-> n ∈ q /\ forall x, x ∈ q -> n <= x.
Proof.
  intros Hq. destruct q as [| y l]; cbn.
  - split; [done | intros [H _]; by apply not_elem_of_nil in H].
  - destruct (sorted_cons_inv _ Hq y l eq_refl) as [_ Hl]. split.
    + intros [= ->]. split; [by left |]. intros x [-> | H]%elem_of_cons; [done |]. specialize (Hl x H). lia.
    + intros [[-> | H]%elem_of_cons Hn]; [done |]. specialize (Hl n H). specialize (Hn y ltac:(by left)). lia.
Qed.

Lemma list_erase_absent n l : n ∉ l -> erase n l = l.
Proof.
  unfold erase. induction l as [| x l IH]; intros H; [done |]. rewrite not_elem_of_cons in H. rewrite filter_cons, decide_True, IH by naive_solver. done.
Qed.

Lemma queue_sorted_tail q n : StronglySorted lt q -> head q = Some n -> tail q = erase n q.
Proof.
  intros Hq H. destruct q as [| y l]; [done |]. injection H as ->. destruct (sorted_cons_inv _ Hq n l eq_refl) as [_ Hl].
  unfold erase. rewrite filter_cons, decide_False by congruence. symmetry. apply list_erase_absent. intros Hx. specialize (Hl n Hx). lia.
Qed.

Lemma sorted_from q n : StronglySorted lt q -> n ∈ q -> exists l, from n q = n :: l /\ StronglySorted lt (n :: l) /\ forall x, x ∈ l <-> x ∈ q /\ n < x.
Proof.
  induction q as [| y q IH]; intros Hq Hn; [by apply not_elem_of_nil in Hn |]. destruct (sorted_cons_inv _ Hq y q eq_refl) as [Hl Hy]. cbn.
  destruct (Nat.eqb_spec y n) as [-> | Hne].
  - exists q. split; [done |]. split; [done |]. intros x. rewrite elem_of_cons. split; [intros H; split; [by right | by apply Hy] | intros [[-> | ?] ?]; [lia | done]].
  - apply elem_of_cons in Hn as [-> | Hn]; [done |]. destruct (IH Hl Hn) as (l & -> & Hs & Hx). exists l. split; [done |]. split; [done |]. intros x. rewrite Hx, elem_of_cons.
    specialize (Hy n Hn). split; [tauto |]. intros [[-> | ?] ?]; [lia | done].
Qed.

Lemma sorted_through q n x : StronglySorted lt q -> n ∈ q -> x ∈ through n q <-> x ∈ q /\ x <= n.
Proof.
  induction q as [| y q IH]; intros Hq Hn; [by apply not_elem_of_nil in Hn |]. destruct (sorted_cons_inv _ Hq y q eq_refl) as [Hl Hy]. cbn.
  destruct (Nat.eqb_spec y n) as [-> | Hne].
  - rewrite list_elem_of_singleton, elem_of_cons. split; [intros ->; split; [by left | done] | intros [[-> | H] ?]; [done |]]. specialize (Hy x H). lia.
  - apply elem_of_cons in Hn as [-> | Hn]; [done |]. rewrite !elem_of_cons, IH by done. specialize (Hy n Hn). split; [| tauto]. intros [-> | ?]; [| tauto]. split; [by left | lia].
Qed.

Lemma through_sorted q n : StronglySorted lt q -> StronglySorted lt (through n q).
Proof.
  induction q as [| y q IH]; intros Hq; cbn; [done |]. destruct (sorted_cons_inv _ Hq y q eq_refl) as [Hl Hy]. destruct (Nat.eqb_spec y n); [repeat constructor |].
  constructor; [by apply IH |]. apply Forall_forall. intros x Hx. apply Hy. clear -Hx. induction q as [| z q IH]; cbn in *; [done |].
  destruct (z =? n); [apply list_elem_of_singleton in Hx as ->; by left |]. apply elem_of_cons in Hx as [-> | Hx]; [by left | right; by apply IH].
Qed.

(** The element after [n]. *)
Definition follows (q : list nat) (n : nat) (o : option nat) : Prop :=
  match o with Some k => k ∈ q /\ n < k /\ forall x, x ∈ q -> n < x -> k <= x | None => forall x, x ∈ q -> x <= n end.

Lemma next_follows q n : StronglySorted lt q -> n ∈ q -> exists o, next (Some n) q = Ok o /\ follows q n o.
Proof.
  intros Hq Hn. destruct (sorted_from q n Hq Hn) as (l & Hf & Hs & Hl). exists (head l). cbn. rewrite (proj2 (mem_true n q) Hn), Hf. cbn. split; [done |].
  destruct (sorted_cons_inv _ Hs n l eq_refl) as [Hl' Hgt].
  destruct (head l) as [k |] eqn:Hk; cbn.
  - apply (sorted_head l k Hl') in Hk as [Hk Hmin]. apply Hl in Hk as Hk'. split; [apply Hk' |]. split; [apply Hk' |]. intros x Hx Hlt. apply Hmin, Hl. done.
  - destruct l as [| y l]; [| done]. intros x Hx. destruct (decide (n < x)); [| lia]. exfalso. eapply not_elem_of_nil. apply Hl. done.
Qed.

(** ** Cases of a request in the queue *)

Definition queue_case (c : ClientConnection) (sd : nat -> sending) (j n : nat) : Prop :=
  match place c n with
  | Gt => sd n = Queued /\ m_requestState (m_requests c n) = WAITING /\ m_responseState (m_requests c n) = PENDING /\ failed c = false /\ m_fiber (m_requests c n) = true /\ (n <=? j) = false
  | Eq => (m_requestState (m_requests c n) = HEADERS \/ m_requestState (m_requests c n) = BODY) /\
      (sd n = Scheduled \/ sd n = Writing \/ sd n = Yielding \/ sd n = Flushing)
  | Lt => sd n = Sent /\ completed (m_requestState (m_requests c n)) = true
  end.

Lemma ok_queue D c sd rd j m n :
  ok_at D c sd rd j m n = true -> n ∈ m_pendingRequests c ->
  born c n = true /\
  queue_case c sd j n.
Proof.
  unfold ok_at, queue_case. intros H Hn. apply mem_true in Hn. change (mem n (m_pendingRequests c)) with (inq c n) in Hn. rewrite Hn in H.
  destruct (sd n) eqn:Hs; cbn [request_ok] in H; bools; try discriminate; try done; destruct (place c n); try discriminate; try (by naive_solver);
    repeat match goal with H : _ \/ _ |- _ => destruct H; bools end; try done; split; try done; split; auto; bools; naive_solver.
Qed.

Lemma request_ok_turn D f r s d q w p e b lj lm :
  request_ok D f r s d q w p e b lj lm = true -> needs_turn (m_responseState r) = true -> q = true.
Proof.
  destruct s; cbn [request_ok]; intros H Ht; bools; try (match goal with H : m_responseState r = PENDING |- _ => by rewrite H in Ht end); try done.
  - match goal with H : response_ok _ _ _ _ _ _ _ _ = true |- _ => unfold response_ok in H; destruct (m_responseState r); try done; bools; done end.
  - by destruct (m_responseState r).
Qed.

Lemma response_ok_cases D sent r d w e lm :
  response_ok D sent r d true w e lm = true ->
  match m_responseState r with
  | PENDING => d = Idle /\ w = false /\ lm = false
  | WAITING => d = Waiting /\ m_fiber r = true /\ w = true /\ e = true /\ lm = false
  | HEADERS => e = true /\ w = false /\ (d = Woken /\ lm = false \/ d = Reading /\ lm = true)
  | BODY => e = true /\ w = false /\ d = Idle /\ lm = true
  | COMPLETE => D = true /\ sent = false /\ w = false /\ d = Idle /\ lm = true
  | _ => False
  end.
Proof.
  unfold response_ok. destruct (m_responseState r); intros H; bools; try discriminate; try tauto.
  - split; [done |]. split; [done |]. repeat match goal with H : _ \/ _ |- _ => destruct H; bools end; auto.
  - destruct sent; [done |]. split_and!; try done. naive_solver.
Qed.

Definition response_case (D : bool) (c : ClientConnection) (rd : nat -> reading) (m n : nat) : Prop :=
  match m_responseState (m_requests c n) with
  | PENDING => rd n = Idle /\ inw c n = false /\ (n <=? m) = false
  | WAITING => rd n = Waiting /\ m_fiber (m_requests c n) = true /\ inw c n = true /\ eligible c n = true /\ (n <=? m) = false
  | HEADERS => eligible c n = true /\ inw c n = false /\ (rd n = Woken /\ (n <=? m) = false \/ rd n = Reading /\ (n <=? m) = true)
  | BODY => eligible c n = true /\ inw c n = false /\ rd n = Idle /\ (n <=? m) = true
  | COMPLETE => D = true /\ completed (m_requestState (m_requests c n)) = false /\ inw c n = false /\ rd n = Idle /\ (n <=? m) = true
  | _ => False
  end.

Lemma ok_response D c sd rd j m n :
  m <= j -> ok_at D c sd rd j m n = true -> n ∈ m_pendingRequests c ->
  response_case D c rd m n.
Proof.
  unfold ok_at, response_case. intros Hm H Hn. apply mem_true in Hn. change (mem n (m_pendingRequests c)) with (inq c n) in Hn. rewrite Hn in H. clear Hn.
  assert (Hj : (n <=? j) = false -> (n <=? m) = false) by (rewrite !Nat.leb_gt; lia).
  destruct (sd n) eqn:Hs; cbn [request_ok] in H; bools; try discriminate.
  1, 2: match goal with H : m_responseState _ = _ |- _ => rewrite H end; auto.
  all: match goal with H : response_ok _ _ _ _ _ _ _ _ = true |- _ => apply response_ok_cases in H; destruct (m_responseState (m_requests c n)); try exact H; try tauto end.
  all: match goal with H : _ /\ _ = false /\ _ |- _ => destruct H as (? & ? & ? & ? & ?); try discriminate end; split_and!; try done.
  all: match goal with H : _ \/ _ |- _ => destruct H; bools end; match goal with H : m_requestState _ = _ |- _ => by rewrite H end.
Qed.

(** ** The assertions of the code follow from the invariant *)

Lemma place_spec c n :
  match place c n with
  | Lt => forall k, m_currentRequest c = Some k -> n < k
  | Eq => m_currentRequest c = Some n
  | Gt => exists k, m_currentRequest c = Some k /\ k < n
  end.
Proof.
  unfold place. destruct (m_currentRequest c) as [k |]; [| done].
  destruct (Nat.compare_spec n k) as [-> | H | H]; [done | by intros ? [= <-] | by exists k].
Qed.

Lemma upto_current_ok c :
  StronglySorted lt (m_pendingRequests c) -> (forall k, m_currentRequest c = Some k -> k ∈ m_pendingRequests c) ->
  exists l, upto_current c = Ok l /\ StronglySorted lt l /\ forall x, x ∈ l <-> x ∈ m_pendingRequests c /\ place c x <> Gt.
Proof.
  intros Hs Hc. unfold upto_current, place. destruct (m_currentRequest c) as [k |] eqn:Hk.
  - specialize (Hc k eq_refl). rewrite (proj2 (mem_true k _) Hc). eexists. split; [done |]. split; [by apply through_sorted |]. intros x.
    rewrite (sorted_through _ k x Hs Hc), Nat.compare_ngt_iff. split; intros [? ?]; (split; [done | lia]).
  - eexists. split; [done |]. split; [done |]. intros x. split; [done | tauto].
Qed.

Section Invariant.
Context {D : bool} {c : ClientConnection} {sd : nat -> sending} {rd : nat -> reading} {j m : nat} (I : inv D c sd rd j m).

Lemma queued_response n : n ∈ m_pendingRequests c -> response_case D c rd m n.
Proof using I. intros Hn. exact (ok_response D c sd rd j m n (proj1 (inv_counts _ _ _ _ _ _ I)) (inv_ok _ _ _ _ _ _ I n) Hn). Qed.

Lemma queued_request n : n ∈ m_pendingRequests c -> born c n = true /\ queue_case c sd j n.
Proof using I. intros Hn. exact (ok_queue D c sd rd j m n (inv_ok _ _ _ _ _ _ I n) Hn). Qed.

Lemma eligible_below n : number_upto (m_priorResponseFailed c) n = false -> number_upto (m_priorResponseClosed c) n = false -> eligible c n = true.
Proof using.
  intros H1 H2. apply andb_true_iff; split; apply negb_true_iff; [destruct (m_priorResponseFailed c) | destruct (m_priorResponseClosed c)]; cbn in *; try done;
    apply Nat.ltb_ge; [apply Nat.leb_gt in H1 | apply Nat.leb_gt in H2]; lia.
Qed.

(** Two neighbours in the queue have numbers that follow each other, unless something failed or closed the connection before. *)
Lemma neighbours a n :
  a ∈ m_pendingRequests c -> n ∈ m_pendingRequests c -> a < n -> (forall x, x ∈ m_pendingRequests c -> a < x -> n <= x) ->
  (S a =? n) || number_upto (m_priorResponseFailed c) n || number_upto (m_priorResponseClosed c) n = true.
Proof using I.
  intros Ha Hn Hlt Hmin. destruct (number_upto (m_priorResponseFailed c) n) eqn:H1; [by rewrite orb_true_r |].
  destruct (number_upto (m_priorResponseClosed c) n) eqn:H2; [by rewrite orb_true_r |].
  rewrite !orb_false_r. apply Nat.eqb_eq. pose proof (eligible_below n H1 H2) as He. pose proof (inv_gap _ _ _ _ _ _ I n) as Hg. pose proof (inv_read _ _ _ _ _ _ I) as Hr.
  destruct (decide (m < S a)) as [Hm | Hm].
  - specialize (Hmin (S a) (Hg (S a) Hn He ltac:(lia))). lia.
  - pose proof (Hr a Ha ltac:(lia)). lia.
Qed.

Lemma invariant_loop_ok l : forall (last : nat) (begin seen : bool),
  StronglySorted lt l -> (forall x, x ∈ l -> x ∈ m_pendingRequests c) ->
  (last = 0 /\ begin = true /\ (forall x, x ∈ m_pendingRequests c -> x ∈ l) \/ last ∈ m_pendingRequests c /\ forall x, x ∈ m_pendingRequests c -> last < x <-> x ∈ l) ->
  (if seen then exists k, m_currentRequest c = Some k /\ forall x, x ∈ l -> k < x else forall k, m_currentRequest c = Some k -> k ∈ l) ->
  invariant_loop c last begin seen l = Ok (seen || given (m_currentRequest c)).
Proof using I.
  induction l as [| n l IH]; intros last begin seen Hs Hin Hlast Hseen; cbn [invariant_loop].
  { destruct seen; [done |]. unfold given. destruct (m_currentRequest c) as [k |]; [| done]. by destruct (not_elem_of_nil k); apply Hseen. }
  destruct (sorted_cons_inv _ Hs n l eq_refl) as [Hs' Hgt]. assert (Hn : n ∈ m_pendingRequests c) by (apply Hin; by left).
  destruct (queued_request n Hn) as [Hb Hq]. pose proof (queued_response n Hn) as Hr. pose proof (place_spec c n) as Hp. unfold queue_case in Hq. unfold response_case in Hr.
  unfold born in Hb. apply andb_true_iff in Hb as [Hb _]. apply Nat.leb_le in Hb.
  rewrite ASSERT_true by (apply negb_true_iff, Nat.eqb_neq; lia).
  rewrite ASSERT_true.
  2: { destruct Hlast as [(-> & _ & _) | [Hl Hx]]; [done |]. rewrite <- !orb_assoc. apply orb_true_iff; right. rewrite orb_assoc. apply neighbours; [done | done | apply Hx; [done | by left] |].
       intros x Hxq Hlt. apply (Hx x Hxq) in Hlt. apply elem_of_cons in Hlt as [-> | Hxl]; [done |]. specialize (Hgt x Hxl). lia. }
  rewrite ASSERT_true by (destruct (m_responseState (m_requests c n)); try (by rewrite ?orb_true_r); destruct Hr as (_ & -> & _); done).
  rewrite ASSERT_true.
  2: { destruct (place c n); [destruct Hq as [[-> | ->] _] | destruct Hq as [_ Hq]; destruct (m_requestState (m_requests c n)) | destruct Hq as (_ & _ & -> & _)]; by rewrite ?orb_true_r. }
  assert (Hcase : place c n = Gt <-> seen = true).
  { destruct seen; [destruct Hseen as (k & Hk & Hx) | split; [intros H; rewrite H in Hp; destruct Hp as (k & Hk & Hlt) | done]].
    - split; [done | intros _]. specialize (Hx n ltac:(by left)). unfold place. rewrite Hk. by apply Nat.compare_gt_iff.
    - specialize (Hseen k Hk). apply elem_of_cons in Hseen as [-> | Hl]; [lia |]. specialize (Hgt k Hl). lia. }
  rewrite ASSERT_true.
  2: { destruct seen; [rewrite (proj2 Hcase eq_refl) in Hq; destruct Hq as (_ & -> & _); done |].
       destruct (place c n); [rewrite bool_decide_true by done; destruct Hq as [[-> | ->] _]; done | by destruct Hq as [_ ->] | by discriminate (proj1 Hcase eq_refl)]. }
  rewrite ASSERT_true.
  2: { destruct Hlast as [(_ & -> & _) | [Hl Hx]]; [done |]. destruct (begun (m_responseState (m_requests c n))) eqn:Hbg; [| by rewrite orb_true_r].
       pose proof (inv_front _ _ _ _ _ _ I n last Hn Hbg Hl). assert (last < n) by (apply Hx; [done | by left]). lia. }
  rewrite IH; [| done | intros x Hx; apply Hin; by right | |].
  - destruct (place c n) eqn:Hpl.
    + unfold given. rewrite Hp. destruct seen; [by discriminate (proj2 Hcase eq_refl) |]. by destruct Hq as [[-> | ->] _].
    + destruct Hq as [_ ->]. by rewrite orb_false_r.
    + by rewrite (proj1 Hcase eq_refl).
  - right. split; [done |]. intros x Hx. split; [| by apply Hgt]. intros Hlt.
    assert (Hxl : x ∈ n :: l) by (destruct Hlast as [(_ & _ & Hl) | [Hl Hxl]]; [by apply Hl | apply Hxl; [done |]; assert (last < n) by (apply Hxl; [done | by left]); lia]).
    apply elem_of_cons in Hxl as [-> | ?]; [lia | done].
  - destruct (place c n) eqn:Hpl.
    + destruct seen; [by discriminate (proj2 Hcase eq_refl) |]. destruct Hq as [[-> | ->] _]; cbn; exists n; done.
    + destruct Hq as [_ ->]. rewrite orb_false_r. destruct seen; [by discriminate (proj2 Hcase eq_refl) |]. intros k Hk. specialize (Hseen k Hk). specialize (Hp k Hk).
      apply elem_of_cons in Hseen as [-> | ?]; [lia | done].
    + rewrite (proj1 Hcase eq_refl) in *. cbn. destruct Hseen as (k & Hk & Hx). exists k. split; [done |]. intros x Hxl. apply Hx. by right.
Qed.

Lemma waiting_in_queue n : n ∈ m_waitingResponses c -> n ∈ m_pendingRequests c /\ m_responseState (m_requests c n) = WAITING.
Proof using I.
  intros Hn. apply mem_true in Hn. pose proof (inv_ok _ _ _ _ _ _ I n) as H. unfold ok_at in H. change (mem n (m_waitingResponses c)) with (inw c n) in Hn. rewrite Hn in H.
  destruct (sd n); cbn [request_ok] in H; unfold response_ok in H; bools; try discriminate; destruct (m_responseState (m_requests c n)) eqn:Hr; bools; try discriminate;
    unfold inq in *; bools; done.
Qed.

Lemma client_invariant_ok : invariant c = Ok tt.
Proof using I.
  unfold invariant. rewrite (invariant_loop_ok (m_pendingRequests c) 0 true false); [| apply I | done | left; done | intros k Hk; by apply (inv_current _ _ _ _ _ _ I k)].
  step. rewrite ASSERT_true by (unfold given; destruct (m_currentRequest c); done).
  destruct (upto_current_ok c) as (l & -> & _ & Hl); [apply I | intros k Hk; by apply (inv_current _ _ _ _ _ _ I k) |]. step. rewrite ASSERT_true; [done |]. apply forallb_forall. intros n Hn%list_elem_of_In.
  destruct (waiting_in_queue n Hn) as [Hq ->]. rewrite is_state_refl. cbn. apply mem_true, Hl. split; [done |]. intros Hp.
  pose proof (queued_request n Hq) as [_ H]. unfold queue_case in H. rewrite Hp in H. destruct H as (_ & _ & H & _). pose proof (queued_response n Hq) as Hr. unfold response_case in Hr.
  rewrite H in Hr. destruct Hr as (_ & Hr & _). unfold inw in Hr. by rewrite (proj2 (mem_true _ _) Hn) in Hr.
Qed.
End Invariant.
