(* ===== verification/ClientSteps.v ===== *)
(** What the loops of [Client.v] and the delivery of events do to the invariant of [ClientInv.v]. *)

From Stdlib Require Import String Sorted.
From stdpp Require Import functions numbers list_numbers list.
From S2P Require Import Prelude Client ClientWorld ClientInv.

#[local] Open Scope nat_scope.

(** ** Events *)

Definition scheduled (l : list event) (n : nat) : bool := existsb (fun e => match e with Schedule k => k =? n | _ => false end) l.

Definition sd_after (l : list event) (sd : nat -> sending) (n : nat) : sending :=
  if scheduled l n && bool_decide (sd n = Queued) then Scheduled else sd n.
Definition rd_after (l : list event) (rd : nat -> reading) (n : nat) : reading :=
  if scheduled l n && bool_decide (rd n = Waiting) then Woken else rd n.

Lemma scheduled_app l k n : scheduled (l ++ k) n = scheduled l n || scheduled k n.
Proof. apply existsb_app. Qed.

Lemma scheduled_silent l k n : scheduled k n = false -> scheduled (l ++ k) n = scheduled l n.
Proof. intros H. by rewrite scheduled_app, H, orb_false_r. Qed.

Lemma scheduled_map l n : scheduled (Schedule <$> l) n = mem n l.
Proof.
  induction l as [| x l IH]; [done |]. cbn. unfold scheduled in IH. rewrite IH. apply eq_true_iff_eq. rewrite orb_true_iff, !mem_true, elem_of_cons, Nat.eqb_eq. naive_solver.
Qed.

Lemma deliver_fold l : forall w, (forall n, w_sending w n = Queued -> w_reading w n <> Waiting) ->
  let w' := foldl deliver w l in
  w_conn w' = w_conn w /\ w_sent w' = w_sent w /\ w_read w' = w_read w /\
  forall n, w_sending w' n = sd_after l (w_sending w) n /\ w_reading w' n = rd_after l (w_reading w) n.
Proof.
  induction l as [| e l IH]; intros w Hw; [done |]. cbn [foldl].
  destruct e as [k | k | | | | | b]; try (cbn [deliver]; destruct (IH w Hw) as (? & ? & ? & H); split_and!; try done; intros n; exact (H n)).
  cbn [deliver]. destruct (decide (w_sending w k = Queued)) as [Hk | Hk]; [| destruct (decide (w_reading w k = Waiting)) as [Hr | Hr]].
  - rewrite bool_decide_true by done.
    destruct (IH (mkWorld (w_conn w) (<[k := Scheduled]> (w_sending w)) (w_reading w) (w_sent w) (w_read w))) as (? & ? & ? & H); cbn in *.
    { intros n. destruct (decide (n = k)) as [-> | Hne]; [by rewrite fn_lookup_insert | rewrite fn_lookup_insert_ne by done; apply Hw]. }
    split_and!; try done. intros n. destruct (H n) as [-> ->]. unfold sd_after, rd_after. cbn. destruct (Nat.eqb_spec k n) as [<- | Hne].
    + rewrite fn_lookup_insert, Hk, (bool_decide_false (Scheduled = Queued)) by done. rewrite andb_false_r. cbn. split; [done |]. rewrite bool_decide_false by (by apply Hw). by rewrite andb_false_r.
    + by rewrite fn_lookup_insert_ne by done.
  - rewrite bool_decide_false, bool_decide_true by done.
    destruct (IH (mkWorld (w_conn w) (w_sending w) (<[k := Woken]> (w_reading w)) (w_sent w) (w_read w))) as (? & ? & ? & H); cbn in *.
    { intros n. destruct (decide (n = k)) as [-> | Hne]; [by rewrite fn_lookup_insert | rewrite fn_lookup_insert_ne by done; apply Hw]. }
    split_and!; try done. intros n. destruct (H n) as [-> ->]. unfold sd_after, rd_after. cbn. destruct (Nat.eqb_spec k n) as [<- | Hne].
    + rewrite fn_lookup_insert, Hr, (bool_decide_false (w_sending w k = Queued)) by done. rewrite !andb_false_r. cbn. done.
    + by rewrite fn_lookup_insert_ne by done.
  - rewrite !bool_decide_false by done. destruct (IH w Hw) as (? & ? & ? & H). split_and!; try done. intros n. destruct (H n) as [-> ->]. unfold sd_after, rd_after. cbn.
    destruct (Nat.eqb_spec k n) as [<- | Hne]; [| done]. rewrite (bool_decide_false (w_sending w k = Queued)), (bool_decide_false (w_reading w k = Waiting)) by done. by rewrite !andb_false_r.
Qed.

(** ** Changing what does not matter *)

Lemma ok_at_frame D c c' sd sd' rd rd' j j' m m' n :
  ok_at D c sd rd j m n = true ->
  m_requests c' n = m_requests c n -> sd' n = sd n -> rd' n = rd n -> inq c' n = inq c n -> inw c' n = inw c n -> born c' n = born c n ->
  (n <=? j') = (n <=? j) -> (n <=? m') = (n <=? m) ->
  (sd n = Queued -> failed c' = failed c) -> (failed c = true -> failed c' = true) ->
  (n ∈ m_pendingRequests c -> place c' n = place c n \/ place c' n = Lt /\ sd n = Sent) ->
  (needs_turn (m_responseState (m_requests c n)) = true -> eligible c n = true -> eligible c' n = true) ->
  ok_at D c' sd' rd' j' m' n = true.
Proof.
  unfold ok_at. intros H -> -> -> -> -> -> -> -> Hf Hf' Hp He. eapply request_ok_frame; [exact H | done | done | | done].
  intros Hq. apply Hp. by apply mem_true.
Qed.

(** Connections that agree on everything the invariant is about: requests are compared one by one, and what was raised and whether new requests are allowed does not matter. *)
Record same_connection (c c' : ClientConnection) : Prop := mkSame {
  same_requests : forall n, m_requests c n = m_requests c' n;
  same_pending : m_pendingRequests c = m_pendingRequests c';
  same_current : m_currentRequest c = m_currentRequest c';
  same_waiting : m_waitingResponses c = m_waitingResponses c';
  same_failed : m_priorRequestFailed c = m_priorRequestFailed c' /\ m_priorResponseFailed c = m_priorResponseFailed c' /\ m_priorResponseClosed c = m_priorResponseClosed c';
  same_rest : m_requestCount c = m_requestCount c' /\ m_timerManager c = m_timerManager c' /\ m_idle c = m_idle c';
}.

#[global] Instance connection_equiv : Equiv ClientConnection := same_connection.
#[global] Instance connection_equivalence : Equivalence (≡@{ClientConnection}).
Proof.
  split.
  - intros c. by split.
  - intros c c' []. split; try done; intuition.
  - intros c c' c'' [] []. split; try (by etrans); [intros n; etrans; eauto | intuition congruence | intuition congruence].
Qed.

Lemma inv_equiv D c c' sd sd' rd rd' j m :
  inv D c sd rd j m -> c ≡ c' -> (forall n, sd' n = sd n) -> (forall n, rd' n = rd n) -> inv D c' sd' rd' j m.
Proof.
  intros I [Hr Hq Hc Hw (Hf & Hpf & Hpc) (Hn & Ht & Hi)] Hs Hd.
  assert (Hfailed : failed c' = failed c) by (unfold failed; by rewrite Hf, Hpf, Hpc).
  assert (Hel : forall n, eligible c' n = eligible c n) by (intros n; unfold eligible; by rewrite Hpf, Hpc).
  destruct I. split; rewrite <- ?Hq, <- ?Hc, <- ?Hpf, <- ?Hpc, <- ?Hn, <- ?Ht, <- ?Hi, ?Hfailed; try done.
  - intros n. specialize (inv_ok n). unfold ok_at, inq, inw, place, born in *. rewrite Hs, Hd, Hfailed, Hel, <- Hr, <- Hq, <- Hw, <- Hc, <- Hn. exact inv_ok.
  - intros n x. rewrite <- Hr. apply inv_front.
  - intros n x. rewrite Hel. apply inv_gap.
  - intros H n. rewrite <- Hr. by apply inv_timer.
  - intros n. rewrite Hd, <- Hr. intros H1 H2. destruct (inv_ended n H1 H2) as [? H]. split; [done |]. intros y. rewrite Hel. apply H.
  - intros n. rewrite <- Hr. apply inv_waits.
Qed.

#[global] Instance inv_proper D : Proper ((≡) ==> eq ==> eq ==> eq ==> eq ==> iff) (inv D).
Proof. intros c c' Hc ? sd -> ? rd -> ? j -> ? m ->. split; intros I; eapply inv_equiv; try done. Qed.

Lemma sd_after_nil sd n : sd_after [] sd n = sd n.
Proof. done. Qed.

(** What holds after a section, its events delivered, holds of the world. *)
Lemma settle_ok D c w :
  (forall n, w_sending w n = Queued -> w_reading w n <> Waiting) ->
  let w' := settle c w in
  w_sent w' = w_sent w /\ w_read w' = w_read w /\ w_conn w' = clear_events c /\
  (forall n, w_sending w' n = sd_after (m_events c) (w_sending w) n) /\ (forall n, w_reading w' n = rd_after (m_events c) (w_reading w) n) /\
  forall j m, inv D c (sd_after (m_events c) (w_sending w)) (rd_after (m_events c) (w_reading w)) j m -> inv D (w_conn w') (w_sending w') (w_reading w') j m.
Proof.
  intros Hw w'. destruct (deliver_fold (m_events c) (mkWorld (clear_events c) (w_sending w) (w_reading w) (w_sent w) (w_read w)) Hw) as (Hc & Hs & Hr & Hn).
  split; [exact Hs |]. split; [exact Hr |]. split; [exact Hc |]. split; [intros n; apply Hn |]. split; [intros n; apply Hn |].
  intros j m I. eapply inv_equiv; [exact I | | intros n; apply Hn | intros n; apply Hn]. unfold w', settle. rewrite Hc. by split.
Qed.

(** ** Lists of requests that are woken *)

Fixpoint erase_all (l q : list nat) : list nat := match l with [] => q | n :: l => erase_all l (erase n q) end.
Fixpoint update_all (h : nat -> (nat -> ClientRequest) -> nat -> ClientRequest) (l : list nat) (f : nat -> ClientRequest) : nat -> ClientRequest :=
  match l with [] => f | n :: l => update_all h l (h n f) end.

Lemma elem_erase_all x l : forall q, x ∈ erase_all l q <-> x ∈ q /\ x ∉ l.
Proof.
  induction l as [| n l IH]; intros q; cbn; [split; [intros; split; [done | apply not_elem_of_nil] | by intros [? _]] |]. rewrite IH, elem_erase, not_elem_of_cons. tauto.
Qed.

Lemma erase_all_sorted l : forall q, StronglySorted lt q -> StronglySorted lt (erase_all l q).
Proof. induction l as [| n l IH]; intros q Hq; cbn; [done |]. apply IH. by apply queue_sorted_filter. Qed.

Section Update.
Context (h : nat -> (nat -> ClientRequest) -> nat -> ClientRequest) (g : ClientRequest -> ClientRequest).
Context (Hsame : forall n f, h n f n = g (f n)) (Hother : forall n f x, x <> n -> h n f x = f x).

Lemma update_all_other l n : forall f, n ∉ l -> update_all h l f n = f n.
Proof using Hother. induction l as [| x l IH]; intros f Hn; cbn; [done |]. apply not_elem_of_cons in Hn as [Hx Hn]. rewrite IH by done. by apply Hother. Qed.

Lemma update_all_in l n : forall f, NoDup l -> n ∈ l -> update_all h l f n = g (f n).
Proof using Hsame Hother.
  induction l as [| x l IH]; intros f Hl Hn; [by apply not_elem_of_nil in Hn |]. apply NoDup_cons in Hl as [Hx Hl]. cbn. apply elem_of_cons in Hn as [-> | Hn].
  - by rewrite update_all_other by done.
  - rewrite IH by done. rewrite Hother by congruence. done.
Qed.
End Update.

Definition clear_fiber (n : nat) (f : nat -> ClientRequest) : nat -> ClientRequest := <[n := set_fiber false (f n)]> f.
Definition fail_response (n : nat) (f : nat -> ClientRequest) : nat -> ClientRequest := clear_fiber n (<[n := set_responseState ERROR (f n)]> f).
Definition response_failed (r : ClientRequest) : ClientRequest := set_fiber false (set_responseState ERROR r).

Lemma clear_fiber_same n f : clear_fiber n f n = set_fiber false (f n).
Proof. apply fn_lookup_insert. Qed.
Lemma clear_fiber_other n f x : x <> n -> clear_fiber n f x = f x.
Proof. intros H. by apply fn_lookup_insert_ne. Qed.
Lemma fail_response_same n f : fail_response n f n = response_failed (f n).
Proof. unfold fail_response. by rewrite clear_fiber_same, fn_lookup_insert. Qed.
Lemma fail_response_other n f x : x <> n -> fail_response n f x = f x.
Proof. intros H. unfold fail_response. rewrite clear_fiber_other by done. by apply fn_lookup_insert_ne. Qed.

Definition woken_requests (l : list nat) (cur : option nat) (c : ClientConnection) : ClientConnection :=
  mkClient (update_all clear_fiber l (m_requests c)) (erase_all l (m_pendingRequests c)) cur (m_waitingResponses c) (m_allowNewRequests c)
    (m_priorRequestFailed c) (m_requestCount c) (m_priorResponseFailed c) (m_priorResponseClosed c) (m_timerManager c) (m_idle c) (m_events c ++ (Schedule <$> l)).

Definition woken_responses (l : list nat) (c : ClientConnection) : ClientConnection :=
  mkClient (update_all fail_response l (m_requests c)) (erase_all l (m_pendingRequests c)) (m_currentRequest c) (erase_all l (m_waitingResponses c)) (m_allowNewRequests c)
    (m_priorRequestFailed c) (m_requestCount c) (m_priorResponseFailed c) (m_priorResponseClosed c) (m_timerManager c) (m_idle c) (m_events c ++ (Schedule <$> l)).

Lemma wake_requests_spec l : forall c,
  NoDup l -> (forall n, n ∈ l -> m_requestState (m_requests c n) = WAITING /\ m_fiber (m_requests c n) = true) ->
  (m_currentRequest c = head l \/ forall n, n ∈ l -> m_currentRequest c <> Some n) ->
  exists cur, wake_requests l c = Ok (woken_requests l cur c) /\
    ((forall n, n ∈ l -> m_currentRequest c <> Some n) -> cur = m_currentRequest c) /\ (m_currentRequest c = head l -> cur = None).
Proof.
  induction l as [| n l IH]; intros c Hl Hw Hcur; cbn [wake_requests].
  { exists (m_currentRequest c). destruct c; cbn in *. unfold woken_requests. cbn. rewrite app_nil_r. split_and!; done. }
  apply NoDup_cons in Hl as [Hn Hl]. destruct (Hw n) as [H1 H2]; [by left |]. rewrite H1, H2. cbn [is_state]. rewrite ASSERT_true by done. rewrite is_state_refl. rewrite ASSERT_true by done.
  assert (Hreq : forall x, x ∈ l -> <[n := set_fiber false (m_requests c n)]> (m_requests c) x = m_requests c x).
  { intros x Hx. rewrite fn_lookup_insert_ne; [done |]. congruence. }
  set (c1 := set_pending (erase n (m_pendingRequests (schedule n c))) (schedule n c)). change (m_currentRequest c1) with (m_currentRequest c).
  destruct (decide (m_currentRequest c = Some n)) as [Hc | Hc].
  - rewrite bool_decide_true by done.
    destruct (IH (set_current (head l) c1)) as (cur & -> & _ & H3).
    + done.
    + intros x Hx. cbn. rewrite Hreq by done. apply Hw. by right.
    + by left.
    + exists cur. split; [unfold woken_requests; cbn; rewrite <- app_assoc; done |]. rewrite H3 by done. split; [| done]. intros H. destruct (H n); [by left | done].
  - rewrite bool_decide_false by done.
    destruct Hcur as [Hcur | Hcur]; [by cbn in Hcur |].
    destruct (IH c1) as (cur & -> & H3 & _).
    + done.
    + intros x Hx. cbn. rewrite Hreq by done. apply Hw. by right.
    + right. intros x Hx. cbn. apply Hcur. by right.
    + exists cur. split; [unfold woken_requests; cbn; rewrite <- app_assoc; done |]. split; [| cbn; congruence]. intros _. apply H3. intros x Hx. cbn. apply Hcur. by right.
Qed.

Definition to_fail (first : nat) (reqs : nat -> ClientRequest) (l : list nat) : list nat :=
  filter (fun n => first < n /\ m_responseState (reqs n) = WAITING) l.

Lemma to_fail_ext first f g l : (forall n, n ∈ l -> f n = g n) -> to_fail first f l = to_fail first g l.
Proof.
  unfold to_fail. induction l as [| n l IH]; intros H; [done |]. rewrite !filter_cons, IH by (intros x Hx; apply H; by right). rewrite (H n) by (by left). done.
Qed.

Lemma wake_responses_spec first l : forall c,
  NoDup l ->
  (forall n, n ∈ l -> first < n ->
     match m_responseState (m_requests c n) with
     | PENDING | ERROR => True
     | WAITING => n ∈ m_waitingResponses c /\ m_fiber (m_requests c n) = true /\ completed (m_requestState (m_requests c n)) = true
     | _ => False
     end) ->
  wake_responses first l c = Ok (woken_responses (to_fail first (m_requests c) l) c).
Proof.
  induction l as [| n l IH]; intros c Hl H; cbn [wake_responses].
  { unfold woken_responses. cbn. rewrite app_nil_r. by destruct c. }
  apply NoDup_cons in Hl as [Hn Hl]. unfold to_fail. rewrite filter_cons.
  assert (Hrest : forall x, x ∈ l -> first < x -> _) by (intros x Hx; apply (H x); by right).
  destruct (Nat.ltb_spec first n) as [Hlt | Hge]; [| rewrite decide_False by lia; by apply IH].
  specialize (H n ltac:(by left) Hlt). destruct (m_responseState (m_requests c n)) eqn:Hr; try done.
  - rewrite decide_False by naive_solver. by apply IH.
  - destruct H as (H1 & H2 & H3). rewrite decide_True by done. rewrite ASSERT_true by (by apply mem_true). rewrite ASSERT_true by done.
    set (c1 := schedule n (set_request n (set_responseState ERROR) c)).
    assert (Hc1 : m_requests c1 = fail_response n (m_requests c)) by done.
    rewrite Hc1, fail_response_same. change (m_requestState (response_failed (m_requests c n))) with (m_requestState (m_requests c n)). rewrite H3.
    assert (Hs : forall x, x ∈ l -> fail_response n (m_requests c) x = m_requests c x) by (intros x Hx; apply fail_response_other; congruence).
    match goal with |- wake_responses first l ?c = _ => set (c2 := c) end. assert (Hc2 : m_requests c2 = fail_response n (m_requests c)) by done.
    rewrite IH; [| done |].
    + rewrite Hc2, (to_fail_ext first (fail_response n (m_requests c)) (m_requests c)) by done. unfold woken_responses. cbn. by rewrite <- app_assoc.
    + rewrite Hc2. intros x Hx Hx'. specialize (Hrest x Hx Hx'). rewrite Hs by done. change (m_waitingResponses c2) with (erase n (m_waitingResponses c)).
      destruct (m_responseState (m_requests c x)); try done. rewrite elem_erase. split; [| apply Hrest]. split; [apply Hrest | congruence].
  - rewrite decide_False by naive_solver. by apply IH.
Qed.

Lemma sd_after_app l k sd n : sd_after (l ++ k) sd n = sd_after k (sd_after l sd) n.
Proof. unfold sd_after. rewrite scheduled_app. destruct (scheduled l n), (scheduled k n), (sd n); done. Qed.
Lemma rd_after_app l k rd n : rd_after (l ++ k) rd n = rd_after k (rd_after l rd) n.
Proof. unfold rd_after. rewrite scheduled_app. destruct (scheduled l n), (scheduled k n), (rd n); done. Qed.

Lemma inq_true c n : inq c n = true <-> n ∈ m_pendingRequests c.
Proof. apply mem_true. Qed.
Lemma inq_false c n : inq c n = false <-> n ∉ m_pendingRequests c.
Proof. apply mem_false. Qed.

(** ** [scheduleAllWaitingRequests]

    [P] is the place that a request had when the section began. *)

Section WakeRequests.
Context (D f : bool) (P : nat -> comparison) (E : nat -> bool) (c : ClientConnection) (sd : nat -> sending) (rd : nat -> reading) (j m : nat).
Context (Hok : forall n, request_ok D f (m_requests c n) (sd n) (rd n) (inq c n) (inw c n) (P n) (E n) (born c n) (n <=? j) (n <=? m) = true).
Context (Hsorted : StronglySorted lt (m_pendingRequests c)) (Hfailed : failed c = true).
Context (Hcur : match m_currentRequest c with
                | Some k => k ∈ m_pendingRequests c /\ forall n, n ∈ m_pendingRequests c -> sd n = Queued -> k <= n
                | None => forall n, n ∈ m_pendingRequests c -> sd n <> Queued
                end).
Context (Hplace : forall n, n ∈ m_pendingRequests c -> sd n <> Queued -> P n = place c n /\ P n <> Gt).

Lemma queued_state n : sd n = Queued -> n ∈ m_pendingRequests c /\ m_requestState (m_requests c n) = WAITING /\ m_fiber (m_requests c n) = true.
Proof using Hok.
  intros H. specialize (Hok n). rewrite H in Hok. cbn [request_ok] in Hok. bools. unfold inq in *. bools. done.
Qed.

Lemma after_current k n : m_currentRequest c = Some k -> n ∈ m_pendingRequests c -> k < n -> sd n = Queued.
Proof using Hplace.
  intros Hk Hn Hlt. destruct (decide (sd n = Queued)) as [? | Hq]; [done |]. destruct (Hplace n Hn Hq) as [H1 H2]. rewrite H1 in H2. unfold place in H2. rewrite Hk in H2.
  by apply Nat.compare_gt_iff in Hlt.
Qed.

Lemma wake_requests_all : exists ws cur,
  scheduleAllWaitingRequests c = Ok (woken_requests ws cur c) /\ NoDup ws /\ (forall n, n ∈ ws <-> sd n = Queued) /\
  (forall k, cur = Some k -> m_currentRequest c = Some k /\ sd k <> Queued) /\
  (forall n, n ∈ m_pendingRequests c -> sd n <> Queued -> place (woken_requests ws cur c) n = P n).
Proof using Hok Hsorted Hfailed Hcur Hplace.
  unfold scheduleAllWaitingRequests. rewrite ASSERT_true by exact Hfailed.
  destruct (m_currentRequest c) as [k |] eqn:Hk.
  2: { exists [], None. cbn. split; [unfold woken_requests; cbn; rewrite app_nil_r, <- Hk; by destruct c |]. split; [constructor |].
       split; [intros n; split; [by intros ?%not_elem_of_nil |] |].
       - intros Hq. destruct (Hcur n); [by apply queued_state | done].
       - split; [done |]. intros n Hn Hq. destruct (Hplace n Hn Hq) as [-> _]. unfold place. cbn. by rewrite Hk. }
  destruct Hcur as [Hin Hge]. destruct (sorted_from _ k Hsorted Hin) as (l & Hf & Hs & Hl). rewrite Hf.
  pose proof (sorted_nodup _ Hs) as Hnd. apply NoDup_cons in Hnd as [Hkl Hnd].
  assert (Hlq : forall n, n ∈ l -> sd n = Queued) by (intros n Hn; apply Hl in Hn as [??]; by apply (after_current k)).
  destruct (decide (sd k = Queued)) as [Hkq | Hkq].
  - destruct (wake_requests_spec (k :: l) c) as (cur & -> & _ & Hc); [by constructor | | by left |].
    { intros n [-> | Hn]%elem_of_cons; [by apply queued_state | apply queued_state; by apply Hlq]. }
    exists (k :: l), cur. split; [done |]. split; [by constructor |]. rewrite Hc by done. split_and!.
    + intros n. split; [intros [-> | ?]%elem_of_cons; [done | by apply Hlq] |]. intros Hq. apply queued_state in Hq as Hq'. destruct Hq' as [Hnq _]. specialize (Hge n Hnq Hq).
      apply elem_of_cons. destruct (decide (n = k)); [by left |]. right. apply Hl. split; [done | lia].
    + done.
    + intros n Hn Hq. destruct (Hplace n Hn Hq) as [H1 H2]. unfold place at 1. cbn. destruct (P n) eqn:HP; [| done | done]. symmetry in H1. pose proof (place_spec c n) as H3. rewrite H1 in H3. congruence.
  - cbn [wake_requests]. assert (Hw : m_requestState (m_requests c k) = HEADERS \/ m_requestState (m_requests c k) = BODY).
    { destruct (Hplace k Hin Hkq) as [H1 _]. unfold place in H1. rewrite Hk, Nat.compare_refl in H1. specialize (Hok k). rewrite H1, (proj2 (inq_true c k) Hin) in Hok.
      destruct (sd k); cbn [request_ok] in Hok; bools; try discriminate; try done; repeat match goal with H : _ \/ _ |- _ => destruct H; bools end; try discriminate; auto. }
    rewrite ASSERT_true by (by destruct Hw as [-> | ->]). replace (is_state (m_requestState (m_requests c k)) WAITING) with false by (by destruct Hw as [-> | ->]).
    destruct (wake_requests_spec l c) as (cur & -> & Hc & _); [done | | |].
    { intros n Hn. apply queued_state. by apply Hlq. }
    { right. rewrite Hk. intros n Hn [= ->]. done. }
    exists l, cur. split; [done |]. split; [done |]. rewrite Hc by (rewrite Hk; intros n Hn [= ->]; done). rewrite Hk. split_and!.
    + intros n. split; [apply Hlq |]. intros Hq. apply queued_state in Hq as Hq'. destruct Hq' as [Hnq _]. specialize (Hge n Hnq Hq). apply Hl. split; [done |]. destruct (decide (n = k)); [congruence | lia].
    + by intros ? [= <-].
    + intros n Hn Hq. destruct (Hplace n Hn Hq) as [-> _]. unfold place. cbn. by rewrite Hk.
Qed.

(** Every request that waited for its turn is scheduled and out of the queue. *)
Lemma wake_requests_ok : exists ws cur,
  let c1 := woken_requests ws cur c in
  scheduleAllWaitingRequests c = Ok c1 /\
  (forall n, n ∈ m_pendingRequests c1 <-> n ∈ m_pendingRequests c /\ sd n <> Queued) /\
  (forall k, cur = Some k -> k ∈ m_pendingRequests c1 /\ m_currentRequest c = Some k) /\
  (forall n, sd n <> Queued -> m_requests c1 n = m_requests c n) /\
  forall n, request_ok D true (m_requests c1 n) (sd_after (Schedule <$> ws) sd n) (rd_after (Schedule <$> ws) rd n) (inq c1 n) (inw c1 n) (place c1 n) (E n) (born c1 n) (n <=? j) (n <=? m) = true.
Proof using Hok Hsorted Hfailed Hcur Hplace.
  destruct wake_requests_all as (ws & cur & H & Hnd & Hws & Hc & Hp). exists ws, cur. split; [exact H |].
  assert (Hin : forall n, n ∈ m_pendingRequests (woken_requests ws cur c) <-> n ∈ m_pendingRequests c /\ sd n <> Queued).
  { intros n. cbn. rewrite elem_erase_all, Hws. done. }
  assert (Hreq : forall n, sd n <> Queued -> m_requests (woken_requests ws cur c) n = m_requests c n).
  { intros n Hq. cbn. apply (update_all_other clear_fiber clear_fiber_other). by rewrite Hws. }
  split; [exact Hin |]. split; [intros k Hk; destruct (Hc k Hk) as [H1 H2]; split; [apply Hin; split; [| done]; rewrite H1 in Hcur; apply Hcur | done] |]. split; [exact Hreq |].
  intros n. unfold sd_after, rd_after. rewrite !scheduled_map. destruct (decide (sd n = Queued)) as [Hq | Hq].
  - apply Hws in Hq as Hn. rewrite (proj2 (mem_true n ws) Hn), bool_decide_true by done.
    assert (Hnq : inq (woken_requests ws cur c) n = false) by (apply inq_false; rewrite Hin; naive_solver). rewrite Hnq.
    specialize (Hok n). rewrite Hq in Hok. cbn [request_ok] in Hok |- *. bools.
    cbn [m_requests woken_requests]. rewrite (update_all_in clear_fiber (set_fiber false) clear_fiber_same clear_fiber_other) by done. cbn [m_requestState m_responseState set_fiber].
    repeat match goal with H : m_requestState _ = _ |- _ => rewrite H | H : m_responseState _ = _ |- _ => rewrite H | H : rd n = _ |- _ => rewrite H end.
    change (born (woken_requests ws cur c) n) with (born c n). change (inw (woken_requests ws cur c) n) with (inw c n).
    repeat match goal with H : _ = true |- _ => rewrite H | H : _ = false |- _ => rewrite H end.
    cbn [andb]. rewrite (bool_decide_false (Idle = Waiting)) by done. unfold request_ok, set_fiber. cbn [andb m_requestState m_responseState].
    repeat match goal with H : m_requestState _ = _ |- _ => rewrite H | H : m_responseState _ = _ |- _ => rewrite H end. done.
  - assert (Hn : mem n ws = false) by (apply mem_false; by rewrite Hws). rewrite Hn. cbn [andb]. rewrite Hreq by done.
    assert (Hnq : inq (woken_requests ws cur c) n = inq c n).
    { apply eq_true_iff_eq. rewrite !inq_true, Hin. tauto. }
    rewrite Hnq. eapply request_ok_frame; [exact (Hok n) | done | done | | done]. intros Hnq'%inq_true. left. by apply Hp.
Qed.
End WakeRequests.

(** ** [scheduleAllWaitingResponses]

    [E] says which requests could be responded to when the section began. *)

Section WakeResponses.
Context (E : nat -> bool) (c : ClientConnection) (sd : nat -> sending) (rd : nat -> reading) (j m : nat).
Context (Hok : forall n, request_ok false true (m_requests c n) (sd n) (rd n) (inq c n) (inw c n) (place c n) (E n) (born c n) (n <=? j) (n <=? m) = true).
Context (Hsorted : StronglySorted lt (m_pendingRequests c)) (Hfailed : given (m_priorResponseFailed c) || given (m_priorResponseClosed c) = true).
Context (Hcur : forall k, m_currentRequest c = Some k -> k ∈ m_pendingRequests c).
Context (Hbegun : forall n, n ∈ m_pendingRequests c -> begun (m_responseState (m_requests c n)) = true -> eligible c n = true).

Lemma sequential_case n : n ∈ m_pendingRequests c ->
  match m_responseState (m_requests c n) with
  | WAITING => sd n = Sent /\ rd n = Waiting /\ m_fiber (m_requests c n) = true /\ inw c n = true /\ completed (m_requestState (m_requests c n)) = true /\ place c n = Lt
  | COMPLETE | ERROR | CANCELED => False
  | _ => True
  end.
Proof using Hok.
  clear -Hok. intros Hn. specialize (Hok n). rewrite (proj2 (inq_true c n) Hn) in Hok.
  destruct (sd n) eqn:Hs; cbn [request_ok] in Hok; bools; try discriminate;
    try (match goal with H : m_responseState _ = PENDING |- _ => by rewrite H end);
    match goal with H : response_ok _ _ _ _ _ _ _ _ = true |- _ => unfold response_ok in H; destruct (m_responseState (m_requests c n)); bools; try discriminate; try done end.
  all: repeat match goal with H : _ \/ _ |- _ => destruct H; bools end; try discriminate; try done. split_and!; try done. by destruct (place c n).
Qed.

Lemma wake_responses_ok : exists rs,
  let c1 := woken_responses rs c in
  scheduleAllWaitingResponses c = Ok c1 /\
  (forall n, n ∈ rs <-> n ∈ m_pendingRequests c /\ m_responseState (m_requests c n) = WAITING /\ eligible c n = false) /\
  (forall n, n ∈ m_pendingRequests c1 <-> n ∈ m_pendingRequests c /\ n ∉ rs) /\
  (forall n, n ∉ rs -> m_requests c1 n = m_requests c n) /\
  forall n, request_ok false true (m_requests c1 n) (sd_after (Schedule <$> rs) sd n) (rd_after (Schedule <$> rs) rd n) (inq c1 n) (inw c1 n) (place c1 n) (eligible c1 n) (born c1 n) (n <=? j) (n <=? m) = true.
Proof using Hok Hsorted Hfailed Hcur Hbegun.
  unfold scheduleAllWaitingResponses.
  destruct (upto_current_ok c Hsorted Hcur) as (l & -> & Hl & Hlx). step.
  assert (Hfirst : exists first, (forall n, eligible c n = negb (first <? n)) /\
    match m_priorResponseFailed c, m_priorResponseClosed c with
    | Some a, Some b => wake_responses (Nat.min a b) l c
    | Some a, None | None, Some a => wake_responses a l c
    | None, None => Err Assertion
    end = wake_responses first l c).
  { unfold eligible. destruct (m_priorResponseFailed c) as [a |], (m_priorResponseClosed c) as [b |]; [exists (Nat.min a b) | exists a | exists b | done]; (split; [| done]); intros n; cbn [number_before negb andb].
    - apply eq_true_iff_eq. rewrite andb_true_iff, !negb_true_iff, !Nat.ltb_ge. lia.
    - by rewrite andb_true_r.
    - done. }
  destruct Hfirst as (first & He & ->).
  rewrite wake_responses_spec; [| by apply sorted_nodup |].
  2: { intros n [Hn _]%Hlx Hlt. pose proof (sequential_case n Hn) as H. pose proof (Hbegun n Hn) as Hb. rewrite He, (proj2 (Nat.ltb_lt first n) Hlt) in Hb.
       destruct (m_responseState (m_requests c n)); try done; try (by discriminate (Hb eq_refl)). unfold inw in H. rewrite mem_true in H. tauto. }
  exists (to_fail first (m_requests c) l).
  assert (Hrs : forall n, n ∈ to_fail first (m_requests c) l <-> n ∈ m_pendingRequests c /\ m_responseState (m_requests c n) = WAITING /\ eligible c n = false).
  { intros n. unfold to_fail. rewrite list_elem_of_filter, Hlx, He, negb_false_iff, Nat.ltb_lt. split; [tauto |]. intros (Hn & Hw & Hlt). pose proof (sequential_case n Hn) as H. rewrite Hw in H.
    destruct H as (_ & _ & _ & _ & _ & ->). done. }
  assert (Hnd : NoDup (to_fail first (m_requests c) l)) by (apply NoDup_filter; by apply sorted_nodup).
  set (rs := to_fail first (m_requests c) l) in *. clearbody rs.
  split; [done |]. split; [done |].
  assert (Hin : forall n, n ∈ m_pendingRequests (woken_responses rs c) <-> n ∈ m_pendingRequests c /\ n ∉ rs) by (intros n; cbn; apply elem_erase_all).
  assert (Hreq : forall n, n ∉ rs -> m_requests (woken_responses rs c) n = m_requests c n) by (intros n Hn; cbn; by apply (update_all_other fail_response fail_response_other)).
  split; [done |]. split; [done |].
  intros n. unfold sd_after, rd_after. rewrite !scheduled_map.
  change (born (woken_responses rs c) n) with (born c n). change (place (woken_responses rs c) n) with (place c n). change (eligible (woken_responses rs c) n) with (eligible c n).
  assert (Hw : inw (woken_responses rs c) n = inw c n && negb (mem n rs)).
  { apply eq_true_iff_eq. unfold inw. rewrite andb_true_iff, negb_true_iff, !mem_true, mem_false. apply elem_erase_all. }
  assert (Hq : inq (woken_responses rs c) n = inq c n && negb (mem n rs)).
  { apply eq_true_iff_eq. rewrite andb_true_iff, negb_true_iff, !inq_true, mem_false. apply Hin. }
  rewrite Hw, Hq. destruct (mem n rs) eqn:Hm.
  - apply mem_true in Hm. apply Hrs in Hm as H. destruct H as (Hnq & Hst & _). pose proof (sequential_case n Hnq) as H. rewrite Hst in H. destruct H as (Hs & Hr & _ & _ & Hcp & _).
    rewrite Hs, Hr, (bool_decide_true (Waiting = Waiting)), (bool_decide_false (Sent = Queued)), !andb_false_r by done. cbn [andb m_requests woken_responses].
    rewrite (update_all_in fail_response response_failed fail_response_same fail_response_other) by done.
    specialize (Hok n). rewrite Hs in Hok. cbn [request_ok] in Hok |- *. bools. unfold response_ok. cbn [m_requestState m_responseState set_fiber set_responseState response_failed].
    repeat match goal with H : _ = true |- _ => rewrite H end. done.
  - rewrite !andb_true_r. cbn [andb]. apply mem_false in Hm. rewrite Hreq by done. eapply request_ok_frame; [exact (Hok n) | done | done | by left |].
    intros Ht _. specialize (Hok n). destruct (eligible c n) eqn:Hel; [done |]. destruct (decide (n ∈ m_pendingRequests c)) as [Hnq | Hnq].
    + destruct (m_responseState (m_requests c n)) eqn:Hst; try done; [| by rewrite Hbegun in Hel by (rewrite ?Hst; done) | by rewrite Hbegun in Hel by (rewrite ?Hst; done)].
      destruct Hm. by apply Hrs.
    + destruct Hnq. apply inq_true. by apply request_ok_turn in Hok.
Qed.
End WakeResponses.
