(* ===== verification/ClientSending.v ===== *)
(** The sections of [Client.v] that send requests keep the invariant of [ClientInv.v] and trip no assertion. *)

From Stdlib Require Import String Sorted.
From stdpp Require Import functions numbers list_numbers list.
From S2P Require Import Prelude Client ClientWorld ClientInv ClientSteps.

#[local] Open Scope nat_scope.

Lemma leb_same n j j' : n <> j' -> (j' = S j \/ j' = j) -> (n <=? j') = (n <=? j).
Proof. intros Hn Hj. apply eq_true_iff_eq. rewrite !Nat.leb_le. lia. Qed.

Lemma born_true c n : born c n = true <-> 1 <= n <= m_requestCount c.
Proof. unfold born. rewrite andb_true_iff, !Nat.leb_le. done. Qed.

Lemma given_false a : given a = false <-> a = None.
Proof. unfold given. by rewrite bool_decide_eq_false, eq_None_not_Some. Qed.

Section Facts.
Context {D : bool} {c : ClientConnection} {sd : nat -> sending} {rd : nat -> reading} {j m : nat} (I : inv D c sd rd j m).

Lemma queue_born n : n ∈ m_pendingRequests c -> 1 <= n <= m_requestCount c.
Proof using I. intros Hn. apply born_true. by apply (queued_request I). Qed.

Lemma unborn_idle n : m_requestCount c < n -> sd n = Unborn /\ rd n = Idle /\ n ∉ m_pendingRequests c /\ n ∉ m_waitingResponses c.
Proof using I.
  intros Hn. pose proof (inv_ok _ _ _ _ _ _ I n) as H. unfold ok_at in H. assert (Hb : born c n = false) by (apply not_true_is_false; rewrite born_true; lia). rewrite Hb in H.
  destruct (sd n); cbn [request_ok] in H; bools; try discriminate. unfold inq, inw in *. bools. done.
Qed.

(** The request that has its turn. *)
Lemma sending_current n : sd n = Writing \/ sd n = Yielding \/ sd n = Flushing ->
  m_currentRequest c = Some n /\ n ∈ m_pendingRequests c /\ (m_requestState (m_requests c n) = HEADERS \/ m_requestState (m_requests c n) = BODY) /\ n = j /\
  response_ok D false (m_requests c n) (rd n) true (inw c n) (eligible c n) (n <=? m) = true.
Proof using I.
  intros H. pose proof (inv_ok _ _ _ _ _ _ I n) as Hn. unfold ok_at in Hn.
  assert (Hc : born c n && inq c n && at_place (place c n) Eq && (is_state (m_requestState (m_requests c n)) HEADERS || is_state (m_requestState (m_requests c n)) BODY) && (n <=? j) &&
    response_ok D false (m_requests c n) (rd n) (inq c n) (inw c n) (eligible c n) (n <=? m) = true) by (destruct H as [H | [H | H]]; rewrite H in Hn; exact Hn).
  clear Hn. bools. pose proof (place_spec c n) as Hp. destruct (place c n); try done. destruct (inv_current _ _ _ _ _ _ I n Hp) as [Hin Hj]. apply Nat.leb_le in H2.
  rewrite H5 in H1. split_and!; try done; [destruct H3; bools; auto | lia].
Qed.

Lemma queued_next n k : m_currentRequest c = Some n -> k ∈ m_pendingRequests c -> n < k -> sd k = Queued /\ failed c = false /\ j < k.
Proof using I.
  intros Hn Hk Hlt. destruct (queued_request I k Hk) as [_ H]. unfold queue_case, place in H. rewrite Hn, (proj2 (Nat.compare_gt_iff k n) Hlt) in H.
  destruct H as (H1 & _ & _ & H2 & _ & H3). apply Nat.leb_gt in H3. done.
Qed.

Lemma queued_idle n : sd n = Queued -> rd n = Idle.
Proof using I. intros H. pose proof (inv_ok _ _ _ _ _ _ I n) as Hn. unfold ok_at in Hn. rewrite H in Hn. cbn [request_ok] in Hn. bools. done. Qed.

Lemma queued_not_waiting n : sd n = Queued -> rd n <> Waiting.
Proof using I. intros H. by rewrite (queued_idle n H). Qed.

Lemma queue_not_ended n : n ∈ m_pendingRequests c -> ended_early (m_responseState (m_requests c n)) = false.
Proof using I. intros H. pose proof (queued_response I n H) as Hr. unfold response_case in Hr. by destruct (m_responseState (m_requests c n)). Qed.

Lemma queue_count : m_currentRequest c = None -> failed c = false -> j = m_requestCount c.
Proof using I.
  intros Hc Hf. destruct (inv_counts _ _ _ _ _ _ I) as [Hm Hj]. destruct (decide (j = m_requestCount c)); [done |]. exfalso.
  assert (Hin : S j ∈ m_pendingRequests c) by (apply (inv_all _ _ _ _ _ _ I Hf); lia).
  destruct (queued_request I _ Hin) as [_ H]. unfold queue_case, place in H. rewrite Hc in H. destruct H as [Hs _].
  pose proof (inv_ok _ _ _ _ _ _ I (S j)) as Hn. unfold ok_at in Hn. rewrite Hs in Hn. cbn [request_ok] in Hn. bools. match goal with H : (_ <=? _) = true |- _ => apply Nat.leb_le in H; lia end.
Qed.

(** Only what is known about one request changes. *)
Lemma inv_change n r s d :
  request_ok D (failed c) r s d (inq c n) (inw c n) (place c n) (eligible c n) (born c n) (n <=? j) (n <=? m) = true ->
  (n ∈ m_pendingRequests c -> begun (m_responseState r) = true -> forall x, x ∈ m_pendingRequests c -> n <= x) ->
  (n ∈ m_pendingRequests c -> m_responseState (m_requests c n) = COMPLETE -> m_responseState r = COMPLETE) ->
  (d = Reading -> ended_early (m_responseState r) = true -> rd n = Reading /\ m_responseState (m_requests c n) = m_responseState r) ->
  (m_responseState r = WAITING -> m_responseState (m_requests c n) = WAITING) ->
  inv D (set_request n (fun _ => r) c) (<[n := s]> sd) (<[n := d]> rd) j m.
Proof using I.
  intros Hok Hfront Hdone Hend Hwait. destruct I. split; try done.
  - intros x. destruct (decide (x = n)) as [-> | Hx].
    + unfold ok_at. cbn [m_requests set_request]. rewrite !fn_lookup_insert. exact Hok.
    + eapply ok_at_frame; [apply inv_ok | ..]; try done; cbn [m_requests set_request]; rewrite ?fn_lookup_insert_ne by done; try done. by left.
  - cbn. intros x y Hx Hb Hy. destruct (decide (x = n)) as [-> | Hne]; [rewrite fn_lookup_insert in Hb; by apply Hfront | rewrite fn_lookup_insert_ne in Hb by done; by apply (inv_front x y)].
  - cbn. intros Ht x Hx. destruct (decide (x = n)) as [-> | Hne]; [rewrite fn_lookup_insert; apply Hdone; [done |]; by apply inv_timer | rewrite fn_lookup_insert_ne by done; by apply inv_timer].
  - cbn. intros x. destruct (decide (x = n)) as [-> | Hne]; [| rewrite !fn_lookup_insert_ne by done; apply inv_ended].
    rewrite !fn_lookup_insert. intros H1 H2. destruct (Hend H1 H2) as [H3 H4]. apply inv_ended; [done |]. by rewrite H4.
  - cbn. intros x Hx. destruct (decide (x = n)) as [-> | Hne]; [rewrite fn_lookup_insert; auto | rewrite fn_lookup_insert_ne by done; by apply inv_waits].
Qed.
End Facts.

(** A new request at the end of the queue. *)
Definition added (r : ClientRequest) (cur : option nat) (c : ClientConnection) : ClientConnection :=
  let n := S (m_requestCount c) in
  mkClient (<[n := r]> (m_requests c)) (m_pendingRequests c ++ [n]) cur (m_waitingResponses c) (m_allowNewRequests c) (m_priorRequestFailed c) n
    (m_priorResponseFailed c) (m_priorResponseClosed c) (m_timerManager c) (mkIdle (i_timeout (m_idle c)) (i_dg (m_idle c)) false) (m_events c).

Lemma added_ok D c sd rd j m r s cur j' : inv D c sd rd j m -> failed c = false ->
  let n := S (m_requestCount c) in
  m_responseState r = PENDING ->
  ok_at D (added r cur c) (<[n := s]> sd) rd j' m n = true ->
  (cur = m_currentRequest c /\ j' = j /\ is_Some cur \/ cur = Some n /\ j' = n /\ m_currentRequest c = None) ->
  inv D (added r cur c) (<[n := s]> sd) rd j' m.
Proof.
  intros I Hf n Hr Hok Hcur. destruct (unborn_idle I n ltac:(lia)) as (_ & _ & Hq & _). pose proof (inv_counts _ _ _ _ _ _ I) as [Hm Hj].
  assert (Hlt : forall x, x ∈ m_pendingRequests c -> x < n) by (intros x Hx; apply (queue_born I) in Hx; lia).
  assert (Hjn : cur = Some n -> m_currentRequest c = None -> j = m_requestCount c) by (intros _ H; by apply (queue_count I)).
  assert (Hin : forall x, x ∈ m_pendingRequests (added r cur c) <-> x ∈ m_pendingRequests c \/ x = n) by (intros x; cbn; by rewrite elem_of_app, list_elem_of_singleton).
  assert (Hreq : forall x, x <> n -> m_requests (added r cur c) x = m_requests c x) by (intros x Hx; cbn; by rewrite fn_lookup_insert_ne).
  assert (Hreqn : m_requests (added r cur c) n = r) by (cbn; by rewrite fn_lookup_insert).
  split.
  - intros x. destruct (decide (x = n)) as [-> | Hx]; [exact Hok |]. eapply ok_at_frame; [apply I | ..]; try done.
    + by apply Hreq.
    + by rewrite fn_lookup_insert_ne.
    + apply eq_true_iff_eq. rewrite !inq_true, Hin. tauto.
    + apply eq_true_iff_eq. rewrite !born_true. cbn. lia.
    + destruct Hcur as [(_ & -> & _) | (Hc & -> & Hc')]; [done |]. apply leb_same; [done |]. left. by rewrite (Hjn Hc Hc').
    + intros Hxq. left. unfold place. cbn. destruct Hcur as [(-> & _) | (-> & _ & ->)]; [done |]. by apply Nat.compare_lt_iff, Hlt.
  - cbn. apply sorted_snoc; [apply I | done].
  - intros k Hk. destruct Hcur as [(-> & -> & _) | (-> & -> & _)].
    + destruct (inv_current _ _ _ _ _ _ I k Hk) as [Hkq Hkj]. split; [apply Hin; by left | done].
    + cbn in Hk. injection Hk as <-. split; [apply Hin; by right | lia].
  - intros x y Hx Hb Hy. apply Hin in Hx as [Hx | ->]; [| by rewrite Hreqn, Hr in Hb]. specialize (Hlt x Hx). rewrite Hreq in Hb by lia.
    apply Hin in Hy as [Hy | ->]; [by apply (inv_front _ _ _ _ _ _ I x y) | lia].
  - intros x Hx Hxm. apply Hin in Hx as [Hx | ->]; [by apply (inv_read _ _ _ _ _ _ I) | lia].
  - apply I.
  - cbn. destruct Hcur as [(_ & -> & _) | (_ & -> & _)]; lia.
  - intros _ x Hx. apply Hin. cbn in Hx. destruct (decide (x = n)); [by right | left; apply (inv_all _ _ _ _ _ _ I Hf); lia].
  - intros x y Hx He Hy. apply Hin. apply Hin in Hx as Hx'. destruct (decide (y = n)); [by right | left; apply (inv_all _ _ _ _ _ _ I Hf)].
    destruct Hx' as [Hx' | ->]; [apply Hlt in Hx'; lia | lia].
  - done.
  - intros x Hx He. exfalso. destruct (decide (x = n)) as [-> | Hxn]; [by rewrite Hreqn, Hr in He |]. rewrite Hreq in He by done. destruct (inv_ended _ _ _ _ _ _ I x Hx He). congruence.
  - intros x Hx Hwx. apply Hin in Hx as [Hx | ->]; [| by rewrite Hreqn, Hr in Hwx]. rewrite Hreq in Hwx by (specialize (Hlt x Hx); lia).
    destruct (inv_waits _ _ _ _ _ _ I x Hx Hwx) as (k & Hk & ?). exists k. split; [apply Hin; by left | done].
  - apply I.
Qed.

(** ** [waitForRequest] *)

Lemma waitForRequest1_ok D c sd rd j m : inv D c sd rd j m -> exists o c', waitForRequest1 c = Ok (o, c') /\
  (forall n, scheduled (m_events c') n = scheduled (m_events c) n) /\
  match o with
  | Refused _ => c' = c
  | Requests n => n = S j /\ inv D c' (<[n := Writing]> sd) rd n m
  | Queues n => inv D c' (<[n := Queued]> sd) rd j m
  end.
Proof.
  intros I. unfold waitForRequest1. rewrite (client_invariant_ok I). step.
  destruct (negb (m_allowNewRequests c) || given (m_priorResponseClosed c)) eqn:H1; [by eexists _, _ |].
  destruct (m_priorRequestFailed c || given (m_priorResponseFailed c)) eqn:H2; [by eexists _, _ |].
  apply orb_false_iff in H1 as [_ H1]. apply orb_false_iff in H2 as [H2 H3].
  assert (Hf : failed c = false) by (unfold failed; by rewrite H1, H2, H3).
  set (n := S (m_requestCount c)). destruct (unborn_idle I n ltac:(lia)) as (Hs & Hr & Hq & Hw). pose proof (inv_counts _ _ _ _ _ _ I) as [Hm Hj].
  assert (Hnew : forall r cur, inq (added r cur c) n = true /\ inw (added r cur c) n = false /\ born (added r cur c) n = true /\ m_requests (added r cur c) n = r /\ (n <=? m) = false).
  { intros r cur. split_and!; [apply inq_true; cbn; apply elem_of_app; right; by apply list_elem_of_singleton | by apply mem_false | apply born_true; cbn; lia | cbn; by rewrite fn_lookup_insert |].
    apply Nat.leb_gt. lia. }
  case_bool_decide as Hc; cbn [m_currentRequest set_idle] in Hc.
  - eexists _, _. split; [reflexivity |]. split; [intros x; by apply scheduled_silent |]. rewrite (queue_count I Hc Hf). split; [done |].
    eapply inv_equiv; [eapply (added_ok _ _ _ _ _ _ (mkClientRequest HEADERS PENDING false false) Writing (Some n) n I Hf) | | done | done].
    + done.
    + destruct (Hnew (mkClientRequest HEADERS PENDING false false) (Some n)) as (H4 & H5 & H6 & H7 & H8). unfold ok_at. fold n. rewrite H4, H5, H6, H7, H8, Hr, fn_lookup_insert.
      unfold place. cbn [m_currentRequest added]. rewrite Nat.compare_refl, Nat.leb_refl. done.
    + by right.
    + split; try done. cbn. intros x. destruct (decide (x = n)) as [-> | Hx]; [by rewrite !fn_lookup_insert | by rewrite !fn_lookup_insert_ne].
  - destruct (m_currentRequest c) as [k |] eqn:Hk; [| done].
    eexists _, _. split; [reflexivity |]. split; [done |].
    eapply inv_equiv; [eapply (added_ok _ _ _ _ _ _ (mkClientRequest WAITING PENDING true false) Queued (m_currentRequest c) j I Hf) | | done | done].
    + done.
    + destruct (Hnew (mkClientRequest WAITING PENDING true false) (m_currentRequest c)) as (H4 & H5 & H6 & H7 & H8). unfold ok_at. fold n. rewrite H4, H5, H6, H7, H8, Hr, fn_lookup_insert.
      change (failed (added _ _ c)) with (failed c). rewrite Hf. unfold place. cbn [m_currentRequest added]. rewrite Hk. destruct (inv_current _ _ _ _ _ _ I k Hk) as [Hkq _]. apply (queue_born I) in Hkq.
      rewrite (proj2 (Nat.compare_gt_iff n k)), (proj2 (Nat.leb_gt n j)) by lia. done.
    + left. by split_and!.
    + split; try done; cbn; try done. intros x. destruct (decide (x = n)) as [-> | Hx]; [by rewrite !fn_lookup_insert | by rewrite !fn_lookup_insert_ne].
Qed.

(** After something failed, requests only leave the queue. *)
Lemma inv_shrink D c c' sd sd' rd rd' j m :
  inv D c sd rd j m ->
  (forall n, ok_at D c' sd' rd' j m n = true) ->
  StronglySorted lt (m_pendingRequests c') ->
  (forall x, x ∈ m_pendingRequests c' -> x ∈ m_pendingRequests c) ->
  (forall k, m_currentRequest c' = Some k -> k ∈ m_pendingRequests c' /\ m_currentRequest c = Some k) ->
  (forall x, x ∈ m_pendingRequests c' -> m_responseState (m_requests c' x) = m_responseState (m_requests c x) \/
     m_responseState (m_requests c x) <> COMPLETE /\ forall y, y ∈ m_pendingRequests c' -> x <= y) ->
  failed c' = true -> (D = true -> m_priorResponseFailed c' = None /\ m_priorResponseClosed c' = None) ->
  (forall x y, y ∈ m_pendingRequests c' -> eligible c' y = true -> eligible c y = true /\ (x ∈ m_pendingRequests c -> m < x <= y -> x ∈ m_pendingRequests c')) ->
  m_requestCount c' = m_requestCount c -> m_timerManager c' = m_timerManager c -> m_idle c' = m_idle c ->
  (forall n, rd' n = Reading -> ended_early (m_responseState (m_requests c' n)) = true ->
     rd n = Reading /\ ended_early (m_responseState (m_requests c n)) = true \/ forall y, y ∈ m_pendingRequests c' -> eligible c' y = true -> y <= n) ->
  (forall n, n ∈ m_pendingRequests c' -> m_responseState (m_requests c' n) = WAITING -> exists k, k ∈ m_pendingRequests c' /\ k < n) ->
  inv D c' sd' rd' j m.
Proof.
  intros I Hok Hs Hq Hc Hr Hf HD Hg Hn Ht Hi Hend Hwaits. split; rewrite ?Hn, ?Ht, ?Hi; try done.
  - intros k Hk. destruct (Hc k Hk) as [Hk1 Hk2]. split; [done |]. by apply (inv_current _ _ _ _ _ _ I).
  - intros x y Hx Hb Hy. destruct (Hr x Hx) as [He | [_ He]]; [rewrite He in Hb; apply (inv_front _ _ _ _ _ _ I); auto | by apply He].
  - intros x Hx. apply (inv_read _ _ _ _ _ _ I). auto.
  - apply I.
  - congruence.
  - intros y x Hy He Hx. destruct (Hg x y Hy He) as [He' H]. apply H; [| done]. by apply (inv_gap _ _ _ _ _ _ I y); auto.
  - intros Hti x Hx. pose proof (inv_timer _ _ _ _ _ _ I Hti x (Hq x Hx)) as H. destruct (Hr x Hx) as [-> | [Hne _]]; done.
  - intros x Hx He. split; [done |]. intros y Hy Hel. destruct (Hend x Hx He) as [[H1 H2] | H]; [| by apply H].
    destruct (inv_ended _ _ _ _ _ _ I x H1 H2) as [_ H]. apply H; [auto |]. by apply (Hg 0 y).
  - apply I.
Qed.

Lemma scheduled_case D c sd rd j m n : inv D c sd rd j m -> sd n = Scheduled ->
  born c n = true /\ inw c n = false /\ m_responseState (m_requests c n) = PENDING /\ rd n = Idle /\ j < n /\
  (n ∈ m_pendingRequests c /\ m_currentRequest c = Some n /\ m_requestState (m_requests c n) = HEADERS /\ n = S j \/
   n ∉ m_pendingRequests c /\ m_requestState (m_requests c n) = WAITING /\ failed c = true).
Proof.
  intros I Hs. pose proof (inv_ok _ _ _ _ _ _ I n) as H. unfold ok_at in H. rewrite Hs in H. cbn [request_ok] in H. bools. apply Nat.leb_gt in H1. split_and!; try done.
  destruct H0 as [H0 | H0]; bools; [left | right].
  - apply inq_true in H0. pose proof (place_spec c n) as Hp. destruct (place c n); try done. destruct (inv_current _ _ _ _ _ _ I n Hp). split_and!; try done. lia.
  - by apply inq_false in H0.
Qed.

Lemma inq_erased c c' n x : m_pendingRequests c' = erase n (m_pendingRequests c) -> inq c' x = inq c x && negb (x =? n).
Proof. intros H. unfold inq. rewrite H. apply mem_erase. Qed.
Lemma inw_erased c c' n x : m_waitingResponses c' = erase n (m_waitingResponses c) -> inw c' x = inw c x && negb (x =? n).
Proof. intros H. unfold inw. rewrite H. apply mem_erase. Qed.
Lemma other_true (x n : nat) (b : bool) : x <> n -> b && negb (x =? n) = b.
Proof. intros H. by rewrite (proj2 (Nat.eqb_neq x n) H), andb_true_r. Qed.
Lemma same_false (n : nat) (b : bool) : b && negb (n =? n) = false.
Proof. by rewrite Nat.eqb_refl, andb_false_r. Qed.

(** Nothing is in the queue after the current request once something has failed. *)
Lemma failed_last D c sd rd j m n x : inv D c sd rd j m -> failed c = true -> m_currentRequest c = Some n -> x ∈ m_pendingRequests c -> x <= n.
Proof.
  intros I Hf Hn Hx. destruct (decide (x <= n)); [done |]. destruct (queued_next I n x Hn Hx) as (_ & ? & _); [lia | congruence].
Qed.

Lemma waitForRequest2_ok D c sd rd j m n : inv D c sd rd j m -> sd n = Scheduled -> exists o c', waitForRequest2 n c = Ok (o, c') /\ m_events c' = m_events c /\
  match o with
  | None => n = S j /\ inv D c' (<[n := Writing]> sd) rd n m
  | Some _ => inv D c' (<[n := Dropped]> sd) rd j m
  end.
Proof.
  intros I Hs. unfold waitForRequest2. rewrite (client_invariant_ok I). step. destruct (scheduled_case _ _ _ _ _ _ _ I Hs) as (Hb & Hw & Hr & Hd & Hj & Hcase).
  assert (Hfail : given (m_priorResponseClosed c) || m_priorRequestFailed c || given (m_priorResponseFailed c) = failed c).
  { unfold failed. destruct (m_priorRequestFailed c), (given (m_priorResponseClosed c)), (given (m_priorResponseFailed c)); done. }
  rewrite Hfail. destruct (failed c) eqn:Hf.
  - destruct Hcase as [(Hq & Hc & Hst & _) | (Hq & Hst & _)]; rewrite Hst; cbn [is_state].
    + rewrite is_state_refl, ASSERT_true by (by apply bool_decide_true). unfold erase_at. destruct (next_follows _ n (inv_sorted _ _ _ _ _ _ I) Hq) as (o & -> & Ho). step.
      assert (o = None) as ->.
      { destruct o as [k |]; [| done]. destruct Ho as (Hk & Hlt & _). pose proof (failed_last _ _ _ _ _ _ _ _ I Hf Hc Hk). lia. }
      rewrite ASSERT_true by done. step. eexists _, _. split; [reflexivity |]. split; [done |].
      match goal with |- inv _ ?c' _ _ _ _ => assert (Hiq : forall x, inq c' x = inq c x && negb (x =? n)) by (intros x; by apply inq_erased) end.
      eapply inv_shrink; [exact I | ..]; try done.
      * intros x. destruct (decide (x = n)) as [-> | Hx].
        -- unfold ok_at. cbn [m_requests set_request]. rewrite !fn_lookup_insert, Hiq, same_false. cbn [request_ok]. rewrite Hd.
           change (inw _ n) with (inw c n). change (born _ n) with (born c n). by rewrite Hw, Hb.
        -- eapply ok_at_frame; [apply (inv_ok _ _ _ _ _ _ I) | ..]; try done; cbn [m_requests set_request]; rewrite ?fn_lookup_insert_ne by done; try done.
           ++ by rewrite Hiq, other_true.
           ++ intros Hxq. left. unfold place. cbn. rewrite Hc. symmetry. apply Nat.compare_lt_iff. pose proof (failed_last _ _ _ _ _ _ _ _ I Hf Hc Hxq). lia.
      * cbn. apply queue_sorted_filter. apply I.
      * cbn. intros x Hx. apply elem_erase in Hx. apply Hx.
      * cbn. intros x Hx. apply elem_erase in Hx as [_ Hx]. left. by rewrite fn_lookup_insert_ne.
      * cbn. apply I.
      * cbn. intros x y Hy He. apply elem_erase in Hy as [Hy Hyn]. split; [done |]. intros Hx Hxy. apply elem_erase. split; [done |]. intros ->.
        pose proof (failed_last _ _ _ _ _ _ _ _ I Hf Hc Hy). lia.
      * intros x Hx. cbn. destruct (decide (x = n)) as [-> | Hxn]; [congruence | rewrite fn_lookup_insert_ne by done; auto].
      * cbn. intros x [Hx Hxn]%elem_erase. rewrite fn_lookup_insert_ne by done. intros Hwx. destruct (inv_waits _ _ _ _ _ _ I x Hx Hwx) as (k & Hk & Hlt). exists k. split; [| done].
        apply elem_erase. split; [done |]. pose proof (failed_last _ _ _ _ _ _ _ _ I Hf Hc Hx). lia.
    + cbn. eexists _, _. split; [reflexivity |]. split; [done |].
      eapply inv_equiv; [eapply (inv_change I n (set_states ERROR (m_requests c n)) Dropped (rd n)) | by split | done |].
      * rewrite Hd, (proj2 (inq_false c n) Hq), Hw, Hb. done.
      * done.
      * done.
      * rewrite Hd. done.
      * done.
      * intros x. destruct (decide (x = n)) as [-> | Hx]; [by rewrite fn_lookup_insert | by rewrite fn_lookup_insert_ne].
  - destruct Hcase as [(Hq & Hc & Hst & ->) | (_ & _ & [=])]. rewrite Hst, ASSERT_true by done. eexists _, _. split; [done |]. split; [done |]. split; [done |].
    pose proof (inv_counts _ _ _ _ _ _ I) as [Hm Hjc]. destruct I. split; try done.
    + intros x. destruct (decide (x = S j)) as [-> | Hx].
      * unfold ok_at. rewrite fn_lookup_insert, Hd, Hw, Hb, (proj2 (inq_true c _) Hq). unfold place. rewrite Hc, Nat.compare_refl, Nat.leb_refl. cbn [request_ok]. rewrite Hst. unfold response_ok. rewrite Hr.
        rewrite (proj2 (Nat.leb_gt (S j) m)) by lia. done.
      * eapply ok_at_frame; [apply inv_ok | ..]; try done; [by rewrite fn_lookup_insert_ne | apply leb_same; auto | by left].
    + intros k Hk. rewrite Hc in Hk. injection Hk as <-. split; [done | lia].
    + apply born_true in Hb. lia.
Qed.

(** ** [doRequest] and [scheduleNextRequest] *)

Lemma doRequest_close_ok D c sd rd j m : inv D c sd rd j m -> doRequest_close c = Ok (set_allow false c) /\ inv D (set_allow false c) sd rd j m.
Proof. intros I. unfold doRequest_close. rewrite (client_invariant_ok I). split; [done |]. eapply inv_equiv; [exact I | by split | done | done]. Qed.

Lemma sending_ok D f r s d w p e b lj lm s' r' :
  s = Writing \/ s = Yielding \/ s = Flushing -> s' = Writing \/ s' = Yielding \/ s' = Flushing ->
  (m_requestState r' = HEADERS \/ m_requestState r' = BODY) -> m_responseState r' = m_responseState r -> m_fiber r' = m_fiber r ->
  request_ok D f r s d true w p e b lj lm = true -> request_ok D f r' s' d true w p e b lj lm = true.
Proof.
  intros Hs Hs' Hr Hrs Hfb H.
  assert (H' : b && true && at_place p Eq && (is_state (m_requestState r) HEADERS || is_state (m_requestState r) BODY) && lj && response_ok D false r d true w e lm = true)
    by (destruct Hs as [-> | [-> | ->]]; exact H).
  assert (Hr' : response_ok D false r' d true w e lm = response_ok D false r d true w e lm) by (unfold response_ok; by rewrite Hrs, Hfb).
  clear H. bools. assert (Hst : is_state (m_requestState r') HEADERS || is_state (m_requestState r') BODY = true) by (destruct Hr as [-> | ->]; done).
  destruct Hs' as [-> | [-> | ->]]; cbn [request_ok]; rewrite Hr', Hst; repeat match goal with H : _ = true |- _ => rewrite H end; done.
Qed.

(** The request goes on with its body, or lets others run. *)
Lemma writing_ok D c sd rd j m n s' r' : inv D c sd rd j m ->
  sd n = Writing \/ sd n = Yielding \/ sd n = Flushing -> s' = Writing \/ s' = Yielding \/ s' = Flushing ->
  (m_requestState r' = HEADERS \/ m_requestState r' = BODY) -> m_responseState r' = m_responseState (m_requests c n) -> m_fiber r' = m_fiber (m_requests c n) ->
  inv D (set_request n (fun _ => r') c) (<[n := s']> sd) rd j m.
Proof.
  intros I Hs Hs' Hr Hrs Hf. destruct (sending_current I n Hs) as (_ & Hq & _).
  eapply inv_equiv; [eapply (inv_change I n r' s' (rd n)) | reflexivity | done |].
  - pose proof (inv_ok _ _ _ _ _ _ I n) as H. unfold ok_at in H. rewrite (proj2 (inq_true c n) Hq) in *. eapply sending_ok; [exact Hs | done | done | done | done | exact H].
  - rewrite Hrs. intros _ Hb x Hx. by apply (inv_front _ _ _ _ _ _ I).
  - congruence.
  - by rewrite Hrs.
  - by rewrite Hrs.
  - intros x. destruct (decide (x = n)) as [-> | Hx]; [by rewrite fn_lookup_insert | by rewrite fn_lookup_insert_ne].
Qed.

Lemma response_ok_sent D r r' d w e lm :
  m_responseState r' = m_responseState r -> m_fiber r' = m_fiber r ->
  response_ok D false r d true w e lm = true -> response_ok D true r' d (negb (completed (m_responseState r))) w e lm = true.
Proof.
  unfold response_ok. intros -> -> H. destruct (m_responseState r); cbn [completed negb] in *; rewrite ?orb_true_r, ?andb_true_r in *; bools; try done;
    repeat match goal with H : _ \/ _ |- _ => destruct H; bools end; try done; subst; repeat match goal with H : _ = true |- _ => rewrite H end; done.
Qed.

(** The current request has been sent, and the next one, if there is one, gets its turn. *)
Lemma sent_ok D c c' sd rd j m n o : inv D c sd rd j m ->
  sd n = Writing \/ sd n = Yielding \/ sd n = Flushing -> follows (m_pendingRequests c) n o ->
  m_requests c' n = set_requestState COMPLETE (m_requests c n) ->
  (forall k, o = Some k -> m_requests c' k = set_fiber false (set_requestState HEADERS (m_requests c k))) ->
  (forall x, x <> n -> o <> Some x -> m_requests c' x = m_requests c x) ->
  m_pendingRequests c' = (if completed (m_responseState (m_requests c n)) then erase n (m_pendingRequests c) else m_pendingRequests c) ->
  m_currentRequest c' = o -> m_waitingResponses c' = m_waitingResponses c ->
  m_priorRequestFailed c' = m_priorRequestFailed c -> m_priorResponseFailed c' = m_priorResponseFailed c -> m_priorResponseClosed c' = m_priorResponseClosed c ->
  m_requestCount c' = m_requestCount c -> m_timerManager c' = m_timerManager c -> m_idle c' = m_idle c ->
  inv D c' (<[n := Sent]> (match o with Some k => <[k := Scheduled]> sd | None => sd end)) rd j m.
Proof.
  intros I Hs Ho Hn Hk Hx Hq Hc Hw Hrf Hpf Hpc Hct Htm Hid. destruct (sending_current I n Hs) as (Hcn & Hnq & Hst & -> & Hresp).
  pose proof (inv_counts _ _ _ _ _ _ I) as [Hm Hj].
  assert (Hf : failed c' = failed c) by (unfold failed; by rewrite Hrf, Hpf, Hpc).
  assert (He : forall x, eligible c' x = eligible c x) by (intros x; unfold eligible; by rewrite Hpf, Hpc).
  assert (Hb : forall x, born c' x = born c x) by (intros x; unfold born; by rewrite Hct).
  assert (Hiw : forall x, inw c' x = inw c x) by (intros x; unfold inw; by rewrite Hw).
  assert (Hread : completed (m_responseState (m_requests c j)) = true -> j <= m).
  { intros H. pose proof (queued_response I j Hnq) as Hr. unfold response_case in Hr. destruct (m_responseState (m_requests c j)); try done. destruct Hr as (_ & _ & _ & _ & Hr). by apply Nat.leb_le. }
  assert (Hin : forall x, x ∈ m_pendingRequests c' <-> x ∈ m_pendingRequests c /\ (x = j -> completed (m_responseState (m_requests c j)) = false)).
  { intros x. rewrite Hq. destruct (completed (m_responseState (m_requests c j))); [rewrite elem_erase |]; intuition congruence. }
  assert (Hkk : forall k, o = Some k -> k = S j /\ sd k = Queued /\ failed c = false /\ k ∈ m_pendingRequests c).
  { intros k ->. destruct Ho as (Hkq & Hlt & Hmin). destruct (queued_next I j k Hcn Hkq Hlt) as (Hsk & Hfk & Hjk). split_and!; try done.
    assert (S j <= m_requestCount c) by (apply (queue_born I) in Hkq; lia). specialize (Hmin (S j) ltac:(apply (inv_all _ _ _ _ _ _ I Hfk); lia)). lia. }
  assert (Hrs : forall x, m_responseState (m_requests c' x) = m_responseState (m_requests c x)).
  { intros x. destruct (decide (x = j)) as [-> | Hxj]; [by rewrite Hn |]. destruct (decide (o = Some x)) as [Hox | Hox]; [by rewrite (Hk x Hox) | by rewrite Hx]. }
  split.
  - intros x. destruct (decide (x = j)) as [-> | Hxj].
    + unfold ok_at. rewrite fn_lookup_insert, Hn, Hiw, Hb, He. cbn [request_ok].
      assert (Hqj : inq c' j = negb (completed (m_responseState (m_requests c j)))).
      { apply eq_true_iff_eq. rewrite inq_true, Hin, negb_true_iff. naive_solver. }
      rewrite Hqj, (response_ok_sent D (m_requests c j) _ (rd j) (inw c j) (eligible c j) (j <=? m)) by done.
      rewrite (proj2 (born_true c j)) by (by apply (queue_born I)). rewrite Nat.leb_refl. cbn. rewrite andb_true_r. apply orb_true_iff. right.
      unfold place. rewrite Hc. destruct o as [k |]; [| done]. destruct (Hkk k eq_refl) as [-> _]. by rewrite (proj2 (Nat.compare_lt_iff j (S j))) by lia.
    + destruct (decide (o = Some x)) as [Hox | Hox].
      * destruct (Hkk x Hox) as (-> & Hsx & Hfx & Hxq). rewrite Hox. pose proof (inv_ok _ _ _ _ _ _ I (S j)) as H. unfold ok_at in *. rewrite fn_lookup_insert_ne, fn_lookup_insert by done.
        rewrite Hsx in H. cbn [request_ok] in H |- *. bools. rewrite (Hk _ Hox). cbn [m_requestState m_responseState set_fiber set_requestState]. rewrite Hiw, Hb.
        assert (Hqx : inq c' (S j) = true) by (apply inq_true, Hin; done). rewrite Hqx. unfold place. rewrite Hc, Hox, Nat.compare_refl.
        repeat match goal with H : _ = true |- _ => rewrite H | H : _ = false |- _ => rewrite H | H : m_responseState _ = _ |- _ => rewrite H | H : rd _ = _ |- _ => rewrite H end. done.
      * eapply ok_at_frame; [apply (inv_ok _ _ _ _ _ _ I x) | ..]; auto.
        -- rewrite fn_lookup_insert_ne by done. destruct o as [k |]; [| done]. rewrite fn_lookup_insert_ne by congruence. done.
        -- apply eq_true_iff_eq. rewrite !inq_true, Hin. tauto.
        -- congruence.
        -- intros Hxq. left. unfold place. rewrite Hc, Hcn. destruct o as [k |].
           ++ destruct Ho as (_ & Hlt & Hmin). destruct (decide (x < j)).
              ** rewrite !(proj2 (Nat.compare_lt_iff _ _)) by lia. done.
              ** specialize (Hmin x Hxq ltac:(lia)). rewrite !(proj2 (Nat.compare_gt_iff _ _)); [done | lia |]. assert (x <> k) by congruence. lia.
           ++ specialize (Ho x Hxq). symmetry. apply Nat.compare_lt_iff. lia.
        -- by rewrite He.
  - rewrite Hq. destruct (completed _); [apply queue_sorted_filter |]; apply I.
  - rewrite Hc. intros k ->. destruct (Hkk k eq_refl) as (-> & _ & _ & Hkq). split; [apply Hin; split; [done | lia] | lia].
  - intros x y Hxq. rewrite Hrs. intros Hbg Hyq. apply Hin in Hxq as [Hxq _], Hyq as [Hyq _]. by apply (inv_front _ _ _ _ _ _ I).
  - intros x Hxq. apply Hin in Hxq as [Hxq _]. by apply (inv_read _ _ _ _ _ _ I).
  - rewrite Hpf, Hpc. apply I.
  - rewrite Hct. done.
  - rewrite Hf, Hct. intros Hff x Hxx. apply Hin. split; [by apply (inv_all _ _ _ _ _ _ I Hff) |]. intros ->. destruct (completed _) eqn:Hcm; [| done]. specialize (Hread eq_refl). lia.
  - intros y x Hy. rewrite He. intros Hel Hxx. apply Hin in Hy as [Hy _]. apply Hin. split; [by apply (inv_gap _ _ _ _ _ _ I y) |]. intros ->. destruct (completed _) eqn:Hcm; [| done].
    specialize (Hread eq_refl). lia.
  - rewrite Hid. intros Ht x Hxq. rewrite Hrs. apply (inv_timer _ _ _ _ _ _ I Ht). apply Hin in Hxq. apply Hxq.
  - intros x. rewrite Hrs, Hf. intros Hrd Hen. destruct (inv_ended _ _ _ _ _ _ I x Hrd Hen) as [? H]. split; [done |]. intros y Hy. rewrite He. apply H. by apply Hin in Hy as [? _].
  - intros x Hxq Hwx. rewrite Hrs in Hwx. apply Hin in Hxq as [Hxq _]. destruct (inv_waits _ _ _ _ _ _ I x Hxq Hwx) as (k & Hkq & Hlt). exists k. split; [| done]. apply Hin. split; [done |]. intros ->.
    destruct (completed _) eqn:Hcm; [| done]. exfalso. destruct (queued_request I x Hxq) as [_ H]. unfold queue_case, place in H. rewrite Hcn, (proj2 (Nat.compare_gt_iff x j) Hlt) in H. destruct H as (_ & _ & H & _). congruence.
  - rewrite Hid, Htm. apply I.
Qed.

Lemma sd_after_one l k sd x : (forall y, scheduled l y = (k =? y)) -> sd k = Queued -> sd_after l sd x = <[k := Scheduled]> sd x.
Proof.
  intros Hl Hk. unfold sd_after. rewrite Hl. destruct (Nat.eqb_spec k x) as [<- | Hne]; [rewrite fn_lookup_insert, bool_decide_true by done; done | by rewrite fn_lookup_insert_ne].
Qed.
Lemma rd_after_one l k rd x : (forall y, scheduled l y = (k =? y)) -> rd k <> Waiting -> rd_after l rd x = rd x.
Proof. intros Hl Hk. unfold rd_after. rewrite Hl. destruct (Nat.eqb_spec k x) as [<- | Hne]; [| done]. by rewrite bool_decide_false. Qed.
Lemma sd_after_none l sd x : (forall y, scheduled l y = false) -> sd_after l sd x = sd x.
Proof. intros Hl. unfold sd_after. by rewrite Hl. Qed.
Lemma rd_after_none l rd x : (forall y, scheduled l y = false) -> rd_after l rd x = rd x.
Proof. intros Hl. unfold rd_after. by rewrite Hl. Qed.
Lemma insert_pointwise {A} (f g : nat -> A) n a x : (forall y, f y = g y) -> <[n := a]> f x = <[n := a]> g x.
Proof. intros H. destruct (decide (x = n)) as [-> | Hx]; [by rewrite !fn_lookup_insert | by rewrite !fn_lookup_insert_ne]. Qed.

(** The invariant after a section whose events are still to be delivered; [n] goes to [s]. *)
Definition after_sending (D : bool) (n : nat) (s : sending) (c : ClientConnection) (sd : nat -> sending) (rd : nat -> reading) (j m : nat) : Prop :=
  inv D c (<[n := s]> (sd_after (m_events c) sd)) (rd_after (m_events c) rd) j m.

Lemma after_sent D c c' sd rd j m n o : inv D c sd rd j m ->
  inv D c' (<[n := Sent]> (match o with Some k => <[k := Scheduled]> sd | None => sd end)) rd j m ->
  m_currentRequest c = Some n -> follows (m_pendingRequests c) n o ->
  (forall x, scheduled (m_events c') x = match o with Some k => k =? x | None => false end) ->
  after_sending D n Sent c' sd rd j m.
Proof.
  intros I I' Hn Ho He. unfold after_sending. eapply inv_equiv; [exact I' | done | |]; intros x; destruct o as [k |].
  - apply insert_pointwise. intros y. apply sd_after_one; [done |]. destruct Ho as (Hk & Hlt & _). by apply (queued_next I n k).
  - apply insert_pointwise. intros y. by apply sd_after_none.
  - apply (rd_after_one _ k); [done |]. destruct Ho as (Hk & Hlt & _). apply (queued_not_waiting I). by apply (queued_next I n k).
  - by apply rd_after_none.
Qed.

Lemma front_completed D c sd rd j m n : inv D c sd rd j m -> n ∈ m_pendingRequests c -> completed (m_responseState (m_requests c n)) = true ->
  front_is n c = true /\ D = true.
Proof.
  intros I Hn Hc. split.
  - apply bool_decide_eq_true, sorted_head; [apply I |]. split; [done |]. intros x Hx. apply (inv_front _ _ _ _ _ _ I); try done. by destruct (m_responseState (m_requests c n)).
  - pose proof (queued_response I n Hn) as H. unfold response_case in H. destruct (m_responseState (m_requests c n)); try done. apply H.
Qed.

Lemma give_turn_ok k c : m_fiber (m_requests c k) = true ->
  give_turn k c = Ok (schedule k (set_request k (set_requestState HEADERS) c)).
Proof. intros H. unfold give_turn. rewrite ASSERT_true; [done |]. cbn. by rewrite fn_lookup_insert. Qed.

Lemma next_waits D c sd rd j m n k : inv D c sd rd j m -> m_currentRequest c = Some n -> k ∈ m_pendingRequests c -> n < k -> m_fiber (m_requests c k) = true /\ k <> n.
Proof.
  intros I Hn Hk Hlt. split; [| lia]. destruct (queued_request I k Hk) as [_ H]. unfold queue_case, place in H. rewrite Hn, (proj2 (Nat.compare_gt_iff k n) Hlt) in H. tauto.
Qed.

Lemma scheduleNextRequest1_ok D c sd rd j m n : inv D c sd rd j m -> sd n = Writing -> m_events c = [] -> exists (b : bool) c',
  scheduleNextRequest1 n c = Ok (b, c') /\ after_sending D n (if b then Yielding else Sent) c' sd rd j m.
Proof.
  intros I Hs He. assert (Hs' : sd n = Writing \/ sd n = Yielding \/ sd n = Flushing) by auto. destruct (sending_current I n Hs') as (Hc & Hq & Hst & _).
  unfold scheduleNextRequest1. rewrite (client_invariant_ok I). step. rewrite ASSERT_true by (by apply bool_decide_eq_true).
  rewrite ASSERT_true by (by destruct Hst as [-> | ->]). rewrite Hc. destruct (next_follows _ n (inv_sorted _ _ _ _ _ _ I) Hq) as (o & -> & Ho). step. destruct o as [k |].
  - destruct Ho as (Hk & Hlt & Hmin) eqn:HO. destruct (next_waits _ _ _ _ _ _ _ _ I Hc Hk Hlt) as [Hfk Hkn].
    set (c1 := set_request n (set_requestState COMPLETE) c).
    assert (Hr1 : forall x, m_responseState (m_requests c1 x) = m_responseState (m_requests c x)).
    { intros x. cbn. destruct (decide (x = n)) as [-> | Hx]; [by rewrite fn_lookup_insert | by rewrite fn_lookup_insert_ne]. }
    set (c2 := if completed (m_responseState (m_requests c n)) then set_pending (erase n (m_pendingRequests c)) c1 else c1).
    assert (Hpop : (if completed (m_responseState (m_requests c1 n)) then assert: front_is n c1 ;; Ok (set_pending (tail (m_pendingRequests c1)) c1) else Ok c1) = Ok c2).
    { rewrite Hr1. unfold c2. destruct (completed (m_responseState (m_requests c n))) eqn:Hcm; [| done]. destruct (front_completed _ _ _ _ _ _ _ I Hq Hcm) as [Hfr _].
      rewrite ASSERT_true by exact Hfr. change (m_pendingRequests c1) with (m_pendingRequests c). rewrite (queue_sorted_tail _ n); [done | apply I | by apply bool_decide_eq_true in Hfr]. }
    rewrite Hpop. step. assert (Hreq2 : m_requests c2 = m_requests c1) by (unfold c2; by destruct (completed _)).
    rewrite give_turn_ok by (cbn; rewrite Hreq2; cbn; by rewrite fn_lookup_insert_ne). step. eexists _, _. split; [reflexivity |].
    assert (Hev : m_events c2 = []) by (unfold c2; by destruct (completed _)).
    eapply (after_sent _ _ _ _ _ _ _ _ (Some k) I); [| done | done |].
    + eapply (sent_ok D c _ sd rd j m n (Some k)); [exact I | exact Hs' | exact Ho | ..]; try done; try (unfold c2; by destruct (completed _)).
      * cbn. rewrite Hreq2. cbn. by rewrite !fn_lookup_insert_ne, fn_lookup_insert by done.
      * intros k' [= <-]. cbn. rewrite !fn_lookup_insert, Hreq2. cbn. by rewrite fn_lookup_insert_ne by done.
      * intros x Hx Hxk. cbn. rewrite Hreq2. cbn. rewrite !fn_lookup_insert_ne by congruence. done.
    + intros x. cbn. rewrite Hev. cbn. by rewrite orb_false_r.
  - eexists _, _. split; [reflexivity |]. unfold after_sending. rewrite He.
    eapply inv_equiv; [eapply (writing_ok _ _ _ _ _ _ n Yielding (m_requests c n) I); auto | | done | done].
    split; try done. cbn. intros x. destruct (decide (x = n)) as [-> | Hx]; [by rewrite fn_lookup_insert | by rewrite fn_lookup_insert_ne].
Qed.

Lemma request_sent_ok D c sd rd j m n : inv D c sd rd j m -> sd n = Yielding \/ sd n = Flushing -> m_events c = [] ->
  exists c', request_sent n c = Ok c' /\ after_sending D n Sent c' sd rd j m.
Proof.
  intros I Hs He. assert (Hs' : sd n = Writing \/ sd n = Yielding \/ sd n = Flushing) by tauto. destruct (sending_current I n Hs') as (Hc & Hq & Hst & _).
  unfold request_sent. change (m_currentRequest (set_request _ _ c)) with (m_currentRequest c). change (m_pendingRequests (set_request _ _ c)) with (m_pendingRequests c). rewrite Hc.
  destruct (next_follows _ n (inv_sorted _ _ _ _ _ _ I) Hq) as (o & -> & Ho). step.
  set (c1 := set_current o (set_request n (set_requestState COMPLETE) c)).
  assert (Hr1 : forall x, m_responseState (m_requests c1 x) = m_responseState (m_requests c x)).
  { intros x. cbn. destruct (decide (x = n)) as [-> | Hx]; [by rewrite fn_lookup_insert | by rewrite fn_lookup_insert_ne]. }
  set (c2 := if completed (m_responseState (m_requests c n)) then set_pending (erase n (m_pendingRequests c)) c1 else c1).
  match goal with |- exists c', (mbind _ ?pop = _) /\ _ => assert (Hpop : pop = Ok c2) end.
  { rewrite Hr1. unfold c2. destruct (completed (m_responseState (m_requests c n))) eqn:Hcm; [| done]. destruct (front_completed _ _ _ _ _ _ _ I Hq Hcm) as [Hfr HD].
    rewrite ASSERT_true by exact Hfr. destruct (inv_duplex _ _ _ _ _ _ I HD) as [Hpf Hpc]. cbn. rewrite Hpf, Hpc. cbn.
    rewrite (queue_sorted_tail _ n); [done | apply I | by apply bool_decide_eq_true in Hfr]. }
  rewrite Hpop. step. assert (Hreq2 : m_requests c2 = m_requests c1) by (unfold c2; by destruct (completed _)).
  assert (Hcur2 : m_currentRequest c2 = o) by (unfold c2; by destruct (completed _)). assert (Hev : m_events c2 = []) by (unfold c2; by destruct (completed _)). rewrite Hcur2. destruct o as [k |].
  - destruct Ho as (Hk & Hlt & Hmin) eqn:HO. destruct (next_waits _ _ _ _ _ _ _ _ I Hc Hk Hlt) as [Hfk Hkn].
    rewrite give_turn_ok by (rewrite Hreq2; cbn; by rewrite fn_lookup_insert_ne). eexists. split; [reflexivity |].
    eapply (after_sent _ _ _ _ _ _ _ _ (Some k) I); [| done | done |].
    + eapply (sent_ok D c _ sd rd j m n (Some k)); [exact I | exact Hs' | exact Ho | ..]; try done; try (unfold c2; by destruct (completed _)).
      * cbn. rewrite Hreq2. cbn. by rewrite !fn_lookup_insert_ne, fn_lookup_insert by done.
      * intros k' [= <-]. cbn. rewrite !fn_lookup_insert, Hreq2. cbn. by rewrite fn_lookup_insert_ne by done.
      * intros x Hx Hxk. cbn. rewrite Hreq2. cbn. rewrite !fn_lookup_insert_ne by congruence. done.
    + intros x. cbn. rewrite Hev. cbn. by rewrite orb_false_r.
  - eexists. split; [reflexivity |].
    eapply (after_sent _ _ _ _ _ _ _ _ None I); [| done | done |].
    + eapply (sent_ok D c _ sd rd j m n None); [exact I | exact Hs' | exact Ho | ..]; try done; try (unfold c2; by destruct (completed _)).
      * cbn. rewrite Hreq2. cbn. by rewrite fn_lookup_insert by done.
      * intros x Hx _. cbn. rewrite Hreq2. cbn. rewrite !fn_lookup_insert_ne by congruence. done.
    + intros x. cbn. by rewrite Hev.
Qed.

Lemma scheduleNextRequest2_ok D c sd rd j m n : inv D c sd rd j m -> sd n = Yielding -> m_events c = [] -> exists (b : bool) c',
  scheduleNextRequest2 n c = Ok (b, c') /\ after_sending D n (if b then Flushing else Sent) c' sd rd j m.
Proof.
  intros I Hs He. destruct (sending_current I n ltac:(auto)) as (Hc & Hq & Hst & _). unfold scheduleNextRequest2. rewrite (client_invariant_ok I), Hc. step.
  destruct (next_follows _ n (inv_sorted _ _ _ _ _ _ I) Hq) as (o & -> & Ho). step. destruct o as [k |].
  - destruct (request_sent_ok _ _ _ _ _ _ _ I ltac:(by left) He) as (c' & -> & H). eexists false, _. by split.
  - eexists true, _. split; [done |]. unfold after_sending. rewrite He.
    eapply inv_equiv; [eapply (writing_ok _ _ _ _ _ _ n Flushing (m_requests c n) I); auto | | done | done].
    split; try done. cbn. intros x. destruct (decide (x = n)) as [-> | Hx]; [by rewrite fn_lookup_insert | by rewrite fn_lookup_insert_ne].
Qed.

Lemma after_sending_raise D n s c sd rd j m l : (forall x, scheduled l x = false) -> after_sending D n s c sd rd j m -> after_sending D n s (raise l c) sd rd j m.
Proof.
  intros Hl I. unfold after_sending in *. assert (He : forall x, scheduled (m_events (raise l c)) x = scheduled (m_events c) x) by (intros x; by apply scheduled_silent).
  eapply inv_equiv; [exact I | by split | |]; intros x; [apply insert_pointwise; intros y |]; unfold sd_after, rd_after; by rewrite He.
Qed.

Lemma scheduleNextRequest3_ok D c sd rd j m n closes half : inv D c sd rd j m -> sd n = Flushing -> m_events c = [] ->
  exists c', scheduleNextRequest3 closes half n c = Ok c' /\ after_sending D n Sent c' sd rd j m.
Proof.
  intros I Hs He. unfold scheduleNextRequest3. rewrite (client_invariant_ok I). step. destruct (request_sent_ok _ _ _ _ _ _ _ I ltac:(by right) He) as (c' & -> & H). step.
  eexists. split; [reflexivity |]. apply after_sending_raise; [| done]. intros x. by destruct (closes && half).
Qed.

(** ** [requestFailed] *)

Lemma queue_position D c sd rd j m n x : inv D c sd rd j m -> m_currentRequest c = Some n -> x ∈ m_pendingRequests c -> (sd x = Queued <-> n < x).
Proof.
  intros I Hn Hx. destruct (queued_request I x Hx) as [_ H]. unfold queue_case, place in H. rewrite Hn in H. destruct (Nat.compare_spec x n) as [-> | Hlt | Hlt].
  - split; [| lia]. intros Hq. destruct H as [_ H]. rewrite Hq in H. naive_solver.
  - split; [| lia]. intros Hq. destruct H as [H _]. congruence.
  - tauto.
Qed.

Lemma failing_request D c c1 sd rd j m n o r (removed : bool) : inv D c sd rd j m ->
  sd n = Writing \/ sd n = Yielding \/ sd n = Flushing -> follows (m_pendingRequests c) n o ->
  m_requests c1 n = r -> (forall x, x <> n -> m_requests c1 x = m_requests c x) ->
  m_pendingRequests c1 = (if removed then erase n (m_pendingRequests c) else m_pendingRequests c) ->
  m_currentRequest c1 = o -> (forall x, x <> n -> inw c1 x = inw c x) -> (forall x, x <> n -> scheduled (m_events c1) x = false) ->
  m_priorRequestFailed c1 = true -> m_priorResponseFailed c1 = m_priorResponseFailed c -> m_priorResponseClosed c1 = m_priorResponseClosed c ->
  m_requestCount c1 = m_requestCount c -> m_timerManager c1 = m_timerManager c -> m_idle c1 = m_idle c ->
  request_ok D (failed c) r Sent (rd_after (m_events c1) rd n) (negb removed) (inw c1 n) Lt (eligible c n) true true (n <=? m) = true ->
  (removed = false -> m_responseState r = m_responseState (m_requests c n)) -> (rd n = Reading -> ended_early (m_responseState r) = false) ->
  exists c', scheduleAllWaitingRequests c1 = Ok c' /\ after_sending D n Sent c' sd rd j m.
Proof.
  intros I Hs Ho Hn Hx Hq Hc Hw He Hrf Hpf Hpc Hct Htm Hid Hok Hrs Hend. destruct (sending_current I n Hs) as (Hcn & Hnq & _ & Hj & _).
  set (sd1 := <[n := Sent]> sd). set (rd1 := rd_after (m_events c1) rd).
  assert (Hsd : forall x, x <> n -> sd1 x = sd x) by (intros x Hxn; unfold sd1; by rewrite fn_lookup_insert_ne).
  assert (Hsn : sd1 n = Sent) by (unfold sd1; by rewrite fn_lookup_insert).
  assert (Hin : forall x, x ∈ m_pendingRequests c1 <-> x ∈ m_pendingRequests c /\ (x = n -> removed = false)).
  { intros x. rewrite Hq. destruct removed; [rewrite elem_erase |]; intuition congruence. }
  assert (Hpos : forall x, x ∈ m_pendingRequests c1 -> sd1 x = Queued <-> n < x).
  { intros x Hxq. apply Hin in Hxq as [Hxq _]. destruct (decide (x = n)) as [-> | Hxn]; [rewrite Hsn; split; [done | lia] |]. rewrite Hsd by done. by apply (queue_position D c sd rd j m). }
  set (P x := if x =? n then Lt else place c x).
  assert (HP : forall x, x ∈ m_pendingRequests c -> x <= n -> P x = Lt).
  { intros x Hxq Hle. unfold P. destruct (Nat.eqb_spec x n); [done |]. unfold place. rewrite Hcn. apply Nat.compare_lt_iff. lia. }
  destruct (wake_requests_ok D (failed c) P (eligible c) c1 sd1 rd1 j m) as (ws & cur & Hwake & Hin' & Hcur' & Hreq' & Hok').
  - intros x. destruct (decide (x = n)) as [-> | Hxn].
    + rewrite Hn, Hsn. unfold P. rewrite Nat.eqb_refl. assert (Hqn : inq c1 n = negb removed) by (apply eq_true_iff_eq; rewrite inq_true, Hin, negb_true_iff; intuition).
      assert (Hbn : born c1 n = true) by (apply born_true; rewrite Hct; by apply (queue_born I)). rewrite Hqn, Hbn, (proj2 (Nat.leb_le n j)) by lia. exact Hok.
    + rewrite Hx, Hsd by done. assert (Hd1 : rd1 x = rd x) by (unfold rd1, rd_after; by rewrite He). rewrite Hd1, Hw by done. unfold P. rewrite (proj2 (Nat.eqb_neq x n) Hxn).
      assert (Hqx : inq c1 x = inq c x) by (apply eq_true_iff_eq; rewrite !inq_true, Hin; tauto). assert (Hbx : born c1 x = born c x) by (unfold born; by rewrite Hct). rewrite Hqx, Hbx.
      apply (inv_ok _ _ _ _ _ _ I).
  - rewrite Hq. destruct removed; [apply queue_sorted_filter |]; apply I.
  - unfold failed. by rewrite Hrf.
  - rewrite Hc. destruct o as [k |].
    + destruct Ho as (Hk & Hlt & Hmin). split; [apply Hin; split; [done | lia] |]. intros x Hxq Hxs. apply Hpos in Hxs; [| done]. apply Hin in Hxq as [Hxq _]. by apply Hmin.
    + intros x Hxq Hxs. apply Hpos in Hxs; [| done]. apply Hin in Hxq as [Hxq _]. specialize (Ho x Hxq). lia.
  - intros x Hxq Hxs. assert (Hle : x <= n) by (destruct (decide (x <= n)); [done |]; destruct Hxs; apply Hpos; [done | lia]).
    apply Hin in Hxq as [Hxq _]. rewrite HP by done. split; [| done]. unfold place. rewrite Hc. destruct o as [k |]; [| done]. destruct Ho as (_ & Hlt & _). symmetry. apply Nat.compare_lt_iff. lia.
  - eexists. split; [exact Hwake |].
    assert (Hcur0 : cur = None).
    { destruct cur as [k |]; [| done]. destruct (Hcur' k eq_refl) as [Hk1 Hk2]. rewrite Hc in Hk2. rewrite Hk2 in Ho. destruct Ho as (_ & Hlt & _). apply Hin' in Hk1 as [Hk1 Hk3]. destruct Hk3. by apply Hpos. }
    subst cur. unfold after_sending. cbn [m_events woken_requests].
    eapply (inv_equiv D (woken_requests ws None c1) _ (sd_after (Schedule <$> ws) sd1) _ (rd_after (Schedule <$> ws) rd1)).
    + eapply inv_shrink; [exact I | ..]; try done.
      * intros x. unfold ok_at. assert (Hf : failed (woken_requests ws None c1) = true) by (unfold failed; cbn; by rewrite Hrf). rewrite Hf.
        assert (Hel : eligible (woken_requests ws None c1) x = eligible c x) by (unfold eligible; cbn; by rewrite Hpf, Hpc). rewrite Hel. apply Hok'.
      * cbn. apply erase_all_sorted. rewrite Hq. destruct removed; [apply queue_sorted_filter |]; apply I.
      * intros x Hxq. apply Hin' in Hxq as [Hxq _]. apply Hin in Hxq. apply Hxq.
      * intros x Hxq. apply Hin' in Hxq as [Hxq Hxs]. left. rewrite Hreq' by done. apply Hin in Hxq as [_ Hxr]. destruct (decide (x = n)) as [-> | Hxn]; [rewrite Hn; auto | by rewrite Hx].
      * unfold failed. cbn. by rewrite Hrf.
      * cbn. rewrite Hpf, Hpc. apply I.
      * intros x y Hy Hel. split; [unfold eligible in *; cbn in Hel; by rewrite Hpf, Hpc in Hel |]. intros Hxq Hxy. apply Hin' in Hy as [Hy Hys]. apply Hin'.
        assert (Hle : y <= n) by (destruct (decide (y <= n)); [done |]; destruct Hys; apply Hpos; [done | lia]).
        assert (Hx1 : x ∈ m_pendingRequests c1) by (apply Hin; split; [done |]; intros ->; apply Hin in Hy as [_ Hy]; apply Hy; lia). split; [done |]. rewrite Hpos by done. lia.
      * intros x Hxd Hxe. left. assert (Hxd' : rd x = Reading) by (revert Hxd; unfold rd1, rd_after; repeat case_match; done).
        assert (Hsx : sd1 x <> Queued) by (intros Hsx; destruct (decide (x = n)) as [-> | Hxn]; [congruence |]; rewrite Hsd in Hsx by done; by rewrite (queued_idle I x Hsx) in Hxd'). rewrite Hreq' in Hxe by done. split; [done |].
        destruct (decide (x = n)) as [-> | Hxn]; [| by rewrite Hx in Hxe]. rewrite Hn, (Hend Hxd') in Hxe. done.
      * intros x Hxq Hwx. apply Hin' in Hxq as [Hxq Hxs]. rewrite Hreq' in Hwx by done.
        assert (Hle : x <= n) by (destruct (decide (x <= n)); [done |]; destruct Hxs; apply Hpos; [done | lia]). apply Hin in Hxq as [Hxq Hxr].
        assert (Hwx' : m_responseState (m_requests c x) = WAITING) by (destruct (decide (x = n)) as [-> | Hxn]; [rewrite Hn, Hrs in Hwx; auto | by rewrite Hx in Hwx]).
        destruct (inv_waits _ _ _ _ _ _ I x Hxq Hwx') as (k & Hkq & Hlt). exists k. split; [| done]. assert (Hk1 : k ∈ m_pendingRequests c1) by (apply Hin; split; [done | lia]). apply Hin'. split; [done |].
        rewrite Hpos by done. lia.
    + done.
    + intros x. destruct (decide (x = n)) as [-> | Hxn].
      * rewrite fn_lookup_insert. unfold sd_after. rewrite Hsn. by rewrite bool_decide_false, andb_false_r by done.
      * rewrite fn_lookup_insert_ne by done. unfold sd_after. by rewrite scheduled_app, He, Hsd by done.
    + intros x. apply rd_after_app.
Qed.

Lemma raise_nil c : raise [] c = c.
Proof. destruct c. unfold raise. cbn. by rewrite app_nil_r. Qed.

Section RequestFailed.
Context {D : bool} {c : ClientConnection} {sd : nat -> sending} {rd : nat -> reading} {j m : nat} {n : nat} {o : option nat}.
Context (I : inv D c sd rd j m) (Hs : sd n = Writing \/ sd n = Yielding \/ sd n = Flushing) (He : m_events c = []) (Ho : follows (m_pendingRequests c) n o).

(** The rest of [requestFailed] goes well from a connection. *)
Definition fails_well (c0 : ClientConnection) : Prop :=
  exists c', scheduleAllWaitingRequests (set_request n (set_requestState ERROR) c0) = Ok c' /\ after_sending D n Sent c' sd rd j m.

(** The request stays until its response has been read, or leaves when it has been. *)
Lemma failing_keeps l : (forall x, scheduled l x = false) ->
  fails_well (set_current o (raise l (set_requestFailed true (if completed (m_responseState (m_requests c n)) then set_pending (erase n (m_pendingRequests c)) c else c)))).
Proof using I Hs He Ho.
  intros Hl. destruct (sending_current I n Hs) as (_ & Hq & _ & _ & Hresp). set (b := completed (m_responseState (m_requests c n))).
  set (c0 := set_current o _). assert (Hev : m_events c0 = l) by (unfold c0; destruct b; cbn; by rewrite He).
  eapply (failing_request D c _ sd rd j m n o (set_requestState ERROR (m_requests c n)) b I Hs Ho); try done; try (unfold c0; destruct b; done).
  - cbn. rewrite fn_lookup_insert. unfold c0. by destruct b.
  - intros x Hx. cbn. rewrite fn_lookup_insert_ne by done. unfold c0. by destruct b.
  - intros x Hx. change (m_events (set_request _ _ c0)) with (m_events c0). rewrite Hev. apply Hl.
  - change (m_events (set_request _ _ c0)) with (m_events c0). rewrite Hev, rd_after_none by done.
    assert (Hw : inw (set_request n (set_requestState ERROR) c0) n = inw c n) by (unfold inw, c0; by destruct b). rewrite Hw. cbn [request_ok]. rewrite orb_true_r. cbn [andb m_requestState set_requestState completed].
    by apply response_ok_sent.
  - intros _. by apply (queue_not_ended I).
Qed.

(** The request leaves, and its response is cancelled. *)
Lemma failing_leaves c0 :
  m_requests c0 n = set_responseState CANCELED (m_requests c0 n) -> (forall x, x <> n -> m_requests c0 x = m_requests c x) ->
  m_pendingRequests c0 = erase n (m_pendingRequests c) -> m_currentRequest c0 = o ->
  m_waitingResponses c0 = erase n (m_waitingResponses c) \/ m_waitingResponses c0 = m_waitingResponses c /\ inw c n = false ->
  (forall x, x <> n -> scheduled (m_events c0) x = false) -> (rd n = Waiting -> scheduled (m_events c0) n = true) -> rd n <> Reading ->
  m_priorRequestFailed c0 = true -> m_priorResponseFailed c0 = m_priorResponseFailed c -> m_priorResponseClosed c0 = m_priorResponseClosed c ->
  m_requestCount c0 = m_requestCount c -> m_timerManager c0 = m_timerManager c -> m_idle c0 = m_idle c ->
  fails_well c0.
Proof using I Hs Ho.
  intros Hn0 Hx0 Hq0 Hc0 Hw0 Hev0 Hrd0 Hrd1 Hrf0 Hpf0 Hpc0 Hct0 Htm0 Hid0.
  eapply (failing_request D c _ sd rd j m n o (set_requestState ERROR (m_requests c0 n)) true I Hs Ho); try done.
  - cbn. by rewrite fn_lookup_insert.
  - intros x Hx. cbn. rewrite fn_lookup_insert_ne by done. by apply Hx0.
  - intros x Hx. unfold inw. cbn. destruct Hw0 as [-> | [-> _]]; [| done]. rewrite mem_erase. by apply other_true.
  - rewrite Hn0. cbn [request_ok]. unfold response_ok. cbn [m_requestState m_responseState set_requestState set_responseState].
    assert (Hw1 : inw (set_request n (set_requestState ERROR) c0) n = false).
    { unfold inw. cbn. destruct Hw0 as [-> | [-> H]]; [| exact H]. rewrite mem_erase. apply same_false. }
    rewrite Hw1. cbn [completed negb andb orb]. rewrite !andb_true_r. unfold rd_after. change (m_events (set_request _ _ c0)) with (m_events c0).
    destruct (decide (rd n = Waiting)) as [Hd | Hd]; [rewrite Hrd0, bool_decide_true by done; by destruct D |]. rewrite (bool_decide_false (rd n = Waiting)), andb_false_r by done.
    by destruct (rd n), D.
Qed.

Lemma requestFailed_switch_ok : exists c0, requestFailed_switch n (set_requestFailed true c) = Ok c0 /\ fails_well c0.
Proof using I Hs He Ho.
  destruct (sending_current I n Hs) as (Hc & Hq & Hst & _ & _). destruct (next_follows _ n (inv_sorted _ _ _ _ _ _ I) Hq) as (o' & Hnext & Ho').
  assert (o' = o) as ->.
  { destruct o as [k |], o' as [k' |]; cbn in *; try done; [f_equal; destruct Ho as (? & ? & H1), Ho' as (? & ? & H2); apply Nat.le_antisymm; [by apply H2 | by apply H1] | |];
      [destruct Ho as (Hk & ? & _); specialize (Ho' k Hk); lia | destruct Ho' as (Hk & ? & _); specialize (Ho k' Hk); lia]. }
  assert (Hnext' : forall c0, m_pendingRequests c0 = m_pendingRequests c -> next (Some n) (m_pendingRequests c0) = Ok o) by (intros c0 ->; exact Hnext).
  pose proof (queued_response I n Hq) as Hresp. unfold response_case in Hresp. pose proof (failing_keeps [] (fun _ => eq_refl)) as Hk. rewrite raise_nil in Hk.
  assert (Hpop : completed (m_responseState (m_requests c n)) = true -> front_is n c = true /\ tail (m_pendingRequests c) = erase n (m_pendingRequests c)).
  { intros H. destruct (front_completed _ _ _ _ _ _ _ I Hq H) as [Hf _]. split; [exact Hf |]. apply queue_sorted_tail; [apply I |]. by apply bool_decide_eq_true in Hf. }
  unfold requestFailed_switch. change (m_requests (set_requestFailed true c)) with (m_requests c).
  destruct (is_state (m_requestState (m_requests c n)) HEADERS).
  - destruct (m_responseState (m_requests c n)) eqn:Hr; cbn [completed] in *; try done.
    + unfold erase_at. rewrite Hnext' by done. step. eexists. split; [reflexivity |]. apply failing_leaves; try done.
      * cbn. by rewrite fn_lookup_insert.
      * intros x Hx. cbn. by rewrite fn_lookup_insert_ne.
      * right. split; [done | apply Hresp].
      * intros x Hx. cbn. by rewrite He.
      * destruct Hresp as [-> _]. done.
      * destruct Hresp as [-> _]. done.
    + destruct Hresp as (Hrd & Hfb & Hw & _). rewrite ASSERT_true by exact Hw. unfold erase_at. rewrite Hnext' by done. step. eexists. split; [reflexivity |]. apply failing_leaves; try done.
      * cbn. by rewrite !fn_lookup_insert.
      * intros x Hx. cbn. by rewrite !fn_lookup_insert_ne.
      * by left.
      * intros x Hx. cbn. rewrite He. cbn. rewrite orb_false_r. apply Nat.eqb_neq. congruence.
      * intros _. cbn. rewrite He. cbn. by rewrite Nat.eqb_refl.
      * by rewrite Hrd.
    + rewrite Hnext' by done. step. eexists. split; [reflexivity |]. pose proof (failing_keeps [CancelRead] (fun _ => eq_refl)) as H. rewrite Hr in H. exact H.
    + rewrite Hnext' by done. step. eexists. split; [reflexivity |]. exact Hk.
    + destruct (Hpop eq_refl) as [Hf Ht]. rewrite ASSERT_true by exact Hf. rewrite Hnext' by done. step. eexists. split; [reflexivity |].
      change (m_pendingRequests (set_requestFailed true c)) with (m_pendingRequests c). rewrite Ht. exact Hk.
  - destruct (completed (m_responseState (m_requests c n))) eqn:Hcm.
    + destruct (Hpop eq_refl) as [Hf Ht]. rewrite ASSERT_true by exact Hf. rewrite Hnext' by done. step. eexists. split; [reflexivity |].
      change (m_pendingRequests (set_requestFailed true c)) with (m_pendingRequests c). rewrite Ht. exact Hk.
    + rewrite Hnext' by done. step. eexists. split; [reflexivity |]. exact Hk.
Qed.
End RequestFailed.

Lemma requestFailed_ok D c sd rd j m n : inv D c sd rd j m -> sd n = Writing -> m_events c = [] ->
  exists o c', requestFailed n c = Ok (o, c') /\ after_sending D n Sent c' sd rd j m.
Proof.
  intros I Hs He. destruct (sending_current I n ltac:(auto)) as (Hc & Hq & Hst & _).
  destruct (next_follows _ n (inv_sorted _ _ _ _ _ _ I) Hq) as (o & _ & Ho).
  unfold requestFailed. replace (is_state (m_requestState (m_requests c n)) ERROR) with false by (destruct Hst as [-> | ->]; done).
  rewrite ASSERT_true by (destruct Hst as [-> | ->]; done). rewrite (client_invariant_ok I). step.
  rewrite ASSERT_true by (apply negb_true_iff, bool_decide_eq_false; intros Hnil; rewrite Hnil in Hq; by apply not_elem_of_nil in Hq). rewrite Hc, ASSERT_true by apply Nat.eqb_refl.
  destruct (requestFailed_switch_ok I (or_introl Hs) He Ho) as (c0 & -> & c' & H & H'). step. rewrite H. step. eauto.
Qed.
