(* ===== verification/ClientReading.v ===== *)
(** The sections of [Client.v] that read responses keep the invariant of [ClientInv.v] and trip no assertion. *)

From Stdlib Require Import String Sorted.
From stdpp Require Import functions numbers list_numbers list.
From S2P Require Import Prelude Client ClientWorld ClientInv ClientSteps ClientSending.

#[local] Open Scope nat_scope.

Definition had_turn (s : sending) : bool := match s with Writing | Yielding | Flushing | Sent => true | _ => false end.
Definition is_sent (s : sending) : bool := match s with Sent => true | _ => false end.

Lemma request_ok_response D f r s d q w p e b lj lm :
  had_turn s = true -> request_ok D f r s d q w p e b lj lm = true -> lj = true /\ response_ok D (is_sent s) r d q w e lm = true.
Proof. destruct s; cbn [had_turn is_sent request_ok]; intros Hs H; try done; bools; done. Qed.

(** A request whose response changed. *)
Lemma request_ok_change D f r s d q w p e b lj lm r' d' q' w' lm' :
  had_turn s = true -> request_ok D f r s d q w p e b lj lm = true ->
  m_requestState r' = m_requestState r -> response_ok D (is_sent s) r' d' q' w' e lm' = true ->
  (q' = true -> q = true) -> (is_sent s = false -> q' = true) ->
  request_ok D f r' s d' q' w' p e b lj lm' = true.
Proof.
  destruct s; cbn [had_turn is_sent request_ok]; intros Hs H Hr Hresp Hq Hq'; try done; bools; rewrite Hr, Hresp;
    try (rewrite Hq' by done); repeat match goal with H : ?b = true |- context [?b] => rewrite H end; cbn; try done.
  - rewrite !andb_true_r. by apply orb_true_iff.
  - rewrite !andb_true_r. by apply orb_true_iff.
  - rewrite !andb_true_r. by apply orb_true_iff.
  - rewrite andb_true_r. destruct q'; [| done]. rewrite Hq in * by done. match goal with H : negb true = true \/ _ |- _ => by destruct H end.
Qed.

Section Turn.
Context {D : bool} {c : ClientConnection} {sd : nat -> sending} {rd : nat -> reading} {j m : nat} (I : inv D c sd rd j m).

Lemma turn_response n : had_turn (sd n) = true -> n <= j /\ response_ok D (is_sent (sd n)) (m_requests c n) (rd n) (inq c n) (inw c n) (eligible c n) (n <=? m) = true.
Proof using I.
  intros H. pose proof (inv_ok _ _ _ _ _ _ I n) as Hn. unfold ok_at in Hn. apply request_ok_response in Hn as [H1 H2]; [| done]. apply Nat.leb_le in H1. done.
Qed.

(** A fiber that is in [ensureResponse] has a request that got its turn. *)
Lemma reading_turn n : rd n <> Idle -> had_turn (sd n) = true.
Proof using I.
  intros H. pose proof (inv_ok _ _ _ _ _ _ I n) as Hn. unfold ok_at in Hn. destruct (sd n); cbn [request_ok had_turn] in *; bools; try done.
Qed.

Lemma needs_had_turn n : needs_turn (m_responseState (m_requests c n)) = true -> had_turn (sd n) = true.
Proof using I.
  intros H. pose proof (inv_ok _ _ _ _ _ _ I n) as Hn. unfold ok_at in Hn.
  destruct (sd n); cbn [request_ok had_turn] in *; bools; try done; destruct (m_responseState (m_requests c n)); done.
Qed.

(** The next response to be read is the one after the last that was. *)
Lemma next_to_read n : n ∈ m_pendingRequests c -> eligible c n = true -> (n <=? m) = false -> (forall x, x ∈ m_pendingRequests c -> n <= x) -> n = S m.
Proof using I.
  intros Hn He Hm Hmin. apply Nat.leb_gt in Hm. specialize (Hmin (S m) ltac:(apply (inv_gap _ _ _ _ _ _ I n); [done | done | lia])). lia.
Qed.

(** The front of the queue begins to be read. *)

Lemma begin_reading n r : n ∈ m_pendingRequests c -> (forall x, x ∈ m_pendingRequests c -> n <= x) -> eligible c n = true -> (n <=? m) = false -> had_turn (sd n) = true ->
  inw c n = false -> D = true \/ sd n = Sent ->
  m_responseState (m_requests c n) <> COMPLETE -> m_requestState r = m_requestState (m_requests c n) -> m_responseState r = HEADERS ->
  n = S m /\ inv D (set_request n (fun _ => r) c) sd (<[n := Reading]> rd) j n.
Proof using I.
  intros Hq Hmin He Hm Ht Hw HD Hnc Hr1 Hr2. pose proof (next_to_read n Hq He Hm Hmin) as Hn. split; [done |]. destruct (turn_response n Ht) as [Hj _].
  assert (Hreq : m_requests (set_request n (fun _ => r) c) n = r) by (cbn; by rewrite fn_lookup_insert).
  assert (Hoth : forall x, x <> n -> m_requests (set_request n (fun _ => r) c) x = m_requests c x) by (intros x Hx; cbn; by rewrite fn_lookup_insert_ne).
  destruct I. split; try done.
  - intros x. destruct (decide (x = n)) as [-> | Hx].
    + specialize (inv_ok n). unfold ok_at in *. rewrite Hreq, fn_lookup_insert. eapply request_ok_change; [exact Ht | exact inv_ok | done | | done | intros _; by apply inq_true].
      unfold response_ok. rewrite Hr2. change (inq _ n) with (inq c n). change (inw _ n) with (inw c n). change (eligible _ n) with (eligible c n).
      rewrite (proj2 (inq_true c n) Hq), Hw, He, Nat.leb_refl. destruct HD as [-> | ->]; [done |]. by destruct D.
    + eapply ok_at_frame; [apply inv_ok | ..]; try done; [by apply Hoth | by rewrite fn_lookup_insert_ne | apply leb_same; [done | left; lia] | by left].
  - intros x y Hx Hb Hy. destruct (decide (x = n)) as [-> | Hxn]; [by apply Hmin | rewrite Hoth in Hb by done; by apply (inv_front x y)].
  - intros x Hx Hxn. specialize (Hmin x Hx). lia.
  - cbn. lia.
  - intros Hf x Hx. cbn in Hx. apply (inv_all Hf). lia.
  - intros y x Hy Hel Hx. apply (inv_gap y); [done | done | lia].
  - intros Ht' x Hx. by destruct Hnc; apply inv_timer.
  - intros x. destruct (decide (x = n)) as [-> | Hxn]; [by rewrite Hreq, Hr2 | rewrite Hoth, fn_lookup_insert_ne by done; apply inv_ended].
  - intros x Hx. destruct (decide (x = n)) as [-> | Hxn]; [by rewrite Hreq, Hr2 | rewrite Hoth by done; by apply inv_waits].
Qed.
End Turn.

(** The invariant after a section whose events are still to be delivered; the fiber that reads the response of [n] goes to [d]. *)
Definition after_reading (D : bool) (n : nat) (d : reading) (c : ClientConnection) (sd : nat -> sending) (rd : nat -> reading) (j m : nat) : Prop :=
  inv D c (sd_after (m_events c) sd) (<[n := d]> (rd_after (m_events c) rd)) j m.

Lemma after_reading_none D c n d sd rd j m : m_events c = [] -> inv D c sd (<[n := d]> rd) j m -> after_reading D n d c sd rd j m.
Proof. intros He I. unfold after_reading. rewrite He. eapply inv_equiv; [exact I | done | done |]. intros x. by apply insert_pointwise. Qed.

Lemma set_request_equiv n f r c : f (m_requests c n) = r -> set_request n f c ≡ set_request n (fun _ => r) c.
Proof. intros <-. by split. Qed.

Lemma set_request_twice n f g c : set_request n f (set_request n g c) ≡ set_request n (fun r => f (g r)) c.
Proof. split; try done. cbn. intros x. destruct (decide (x = n)) as [-> | Hx]; [by rewrite !fn_lookup_insert | by rewrite !fn_lookup_insert_ne]. Qed.

(** ** [ensureResponse] until the headers are read *)

(** What becomes of a call of [ensureResponse]. *)
Definition after_ensured (D : bool) (n : nat) (o : response_outcome) (c c' : ClientConnection) (sd : nat -> sending) (rd : nat -> reading) (j m : nat) : Prop :=
  match o with
  | Ready => c' = c
  | Reads => n = S m /\ inv D c' sd (<[n := Reading]> rd) j n
  | Waits => inv D c' sd (<[n := Waiting]> rd) j m
  | Throws _ => inv D c' sd (<[n := Idle]> rd) j m
  end.

Section Ensure.
Context {D : bool} {c : ClientConnection} {sd : nat -> sending} {rd : nat -> reading} {j m : nat} {n : nat}.
Context (I : inv D c sd rd j m) (Ht : sd n = Sent \/ D = true /\ had_turn (sd n) = true).

Lemma ensure_turn : had_turn (sd n) = true.
Proof using Ht. destruct Ht as [-> | [_ ?]]; done. Qed.

Lemma not_eligible_after y x : number_upto (m_priorResponseFailed c) y || number_upto (m_priorResponseClosed c) y = true -> y < x -> eligible c x = false.
Proof using.
  intros Hu Hlt. apply not_true_is_false. unfold eligible. rewrite andb_true_iff, !negb_true_iff. intros [H1 H2]. apply orb_true_iff in Hu as [Hu | Hu];
    [destruct (m_priorResponseFailed c) | destruct (m_priorResponseClosed c)]; try done; cbn [number_upto number_before] in *; apply Nat.leb_le in Hu; [apply Nat.ltb_ge in H1 | apply Nat.ltb_ge in H2]; lia.
Qed.

(** The response of a request behind one that failed or closed the connection is given up. *)
Lemma ensure_fails r : rd n = Idle -> m_responseState (m_requests c n) = PENDING -> n ∈ m_pendingRequests c -> inw c n = false ->
  number_upto (m_priorResponseFailed c) n || number_upto (m_priorResponseClosed c) n = true ->
  m_requestState r = m_requestState (m_requests c n) -> m_responseState r = ERROR ->
  completed (m_requestState (m_requests c n)) = true /\
  inv D (set_request n (fun _ => r) (set_pending (erase n (m_pendingRequests c)) c)) sd (<[n := Idle]> rd) j m.
Proof using I Ht.
  intros Hd Hp Hq Hw Hu Hr1 Hr2.
  assert (Hs : sd n = Sent).
  { destruct Ht as [? | [HD _]]; [done |]. destruct (inv_duplex _ _ _ _ _ _ I HD) as [H1 H2]. by rewrite H1, H2 in Hu. }
  assert (Hcm : completed (m_requestState (m_requests c n)) = true).
  { pose proof (inv_ok _ _ _ _ _ _ I n) as H. unfold ok_at in H. rewrite Hs in H. cbn [request_ok] in H. bools. done. }
  split; [done |]. set (c' := set_request n _ _). assert (Hiq : forall x, inq c' x = inq c x && negb (x =? n)) by (intros x; by apply inq_erased).
  assert (Hf : failed c = true) by (unfold failed; destruct (m_priorResponseFailed c), (m_priorResponseClosed c); cbn in *; rewrite ?orb_true_r; done).
  eapply inv_shrink; [exact I | ..]; try done.
  - intros x. destruct (decide (x = n)) as [-> | Hx].
    + pose proof (inv_ok _ _ _ _ _ _ I n) as H. unfold ok_at in *. rewrite Hiq, same_false, fn_lookup_insert. cbn [m_requests c' set_request]. rewrite fn_lookup_insert.
      eapply request_ok_change; [by apply ensure_turn | exact H | done | | done | by rewrite Hs]. unfold response_ok. rewrite Hr2, Hs. change (inw c' n) with (inw c n). rewrite Hw. by destruct D.
    + eapply ok_at_frame; [apply (inv_ok _ _ _ _ _ _ I) | ..]; try done; cbn [m_requests c' set_request]; rewrite ?fn_lookup_insert_ne by done; try done; [by rewrite Hiq, other_true | by left].
  - cbn. apply queue_sorted_filter. apply I.
  - cbn. intros x Hx. apply elem_erase in Hx. apply Hx.
  - cbn. intros k Hk. destruct (inv_current _ _ _ _ _ _ I k Hk) as [Hkq _]. split; [| done]. apply elem_erase. split; [done |]. intros ->.
    destruct (queued_request I n Hq) as [_ H]. unfold queue_case, place in H. rewrite Hk, Nat.compare_refl in H. rewrite Hs in H. naive_solver.
  - cbn. intros x Hx. apply elem_erase in Hx as [_ Hx]. left. by rewrite fn_lookup_insert_ne.
  - cbn. apply I.
  - cbn. intros x y Hy He. apply elem_erase in Hy as [Hy Hyn]. split; [done |]. intros Hx Hxy. apply elem_erase. split; [done |]. intros ->.
    change (eligible c' y) with (eligible c y) in He. rewrite (not_eligible_after n y Hu) in He by lia. done.
  - intros x. cbn. destruct (decide (x = n)) as [-> | Hx]; [by rewrite fn_lookup_insert | rewrite !fn_lookup_insert_ne by done; auto].
  - cbn. intros x [Hx Hxn]%elem_erase. rewrite fn_lookup_insert_ne by done. intros Hwx. destruct (inv_waits _ _ _ _ _ _ I x Hx Hwx) as (k & Hk & Hlt). exists k. split; [| done].
    apply elem_erase. split; [done |]. intros ->. pose proof (queued_response I x Hx) as Hrx. unfold response_case in Hrx. rewrite Hwx in Hrx. destruct Hrx as (_ & _ & _ & Hex & _).
    pose proof (not_eligible_after n x Hu Hlt). congruence.
Qed.

(** The fiber waits until the responses before this one have been read. *)
Lemma ensure_waits r : rd n = Idle -> m_responseState (m_requests c n) = PENDING -> n ∈ m_pendingRequests c -> eligible c n = true ->
  m_requestState r = m_requestState (m_requests c n) -> m_responseState r = WAITING -> m_fiber r = true -> (exists k, k ∈ m_pendingRequests c /\ k < n) ->
  inv D (set_request n (fun _ => r) (set_waiting (n :: m_waitingResponses c) c)) sd (<[n := Waiting]> rd) j m.
Proof using I Ht.
  intros Hd Hp Hq He Hr1 Hr2 Hr3 Hbehind. set (c' := set_request n _ _).
  assert (Hiw : forall x, x <> n -> inw c' x = inw c x) by (intros x Hx; apply eq_true_iff_eq; unfold inw; rewrite !mem_true; cbn; rewrite elem_of_cons; tauto).
  assert (Hin : inw c' n = true) by (apply mem_true; by left).
  pose proof (queued_response I n Hq) as Hresp. unfold response_case in Hresp. rewrite Hp in Hresp. destruct Hresp as (_ & _ & Hm).
  assert (Hreq : m_requests c' n = r) by (cbn; by rewrite fn_lookup_insert).
  assert (Hoth : forall x, x <> n -> m_requests c' x = m_requests c x) by (intros x Hx; cbn; by rewrite fn_lookup_insert_ne).
  pose proof ensure_turn as Ht'. destruct I. split; try done.
  - intros x. destruct (decide (x = n)) as [-> | Hx].
    + specialize (inv_ok n). unfold ok_at in *. rewrite Hreq, fn_lookup_insert. eapply request_ok_change; [exact Ht' | exact inv_ok | done | | done | intros _; by apply inq_true].
      unfold response_ok. rewrite Hr2, Hr3, Hin. change (inq c' n) with (inq c n). change (eligible c' n) with (eligible c n).
      rewrite (proj2 (inq_true c n) Hq), He, Hm. destruct Ht as [-> | [-> _]]; [by destruct D | done].
    + eapply ok_at_frame; [apply inv_ok | ..]; try done; [by apply Hoth | by rewrite fn_lookup_insert_ne | by apply Hiw | by left].
  - intros x y Hx Hb Hy. destruct (decide (x = n)) as [-> | Hxn]; [by rewrite Hreq, Hr2 in Hb | rewrite Hoth in Hb by done; by apply (inv_front x y)].
  - intros Hti x Hx. specialize (inv_timer Hti n Hq). congruence.
  - intros x. destruct (decide (x = n)) as [-> | Hxn]; [by rewrite Hreq, Hr2 | rewrite Hoth, fn_lookup_insert_ne by done; apply inv_ended].
  - intros x Hx. destruct (decide (x = n)) as [-> | Hxn]; [done | rewrite Hoth by done; by apply inv_waits].
Qed.

Lemma ensureResponse1_ok : rd n = Idle -> exists o c', ensureResponse1 n c = Ok (o, c') /\ m_events c' = m_events c /\ after_ensured D n o c c' sd rd j m.
Proof using I Ht.
  intros Hd. unfold ensureResponse1.
  destruct (m_priorResponseException (m_requests c n)).
  { eexists _, _. split; [done |]. split; [done |]. cbn. eapply inv_equiv; [exact I | done | done |]. intros x. destruct (decide (x = n)) as [-> | Hx]; [by rewrite fn_lookup_insert | by rewrite fn_lookup_insert_ne]. }
  destruct (is_state (m_responseState (m_requests c n)) BODY || completed (m_responseState (m_requests c n))) eqn:Hb; [by eexists _, _ |].
  apply orb_false_iff in Hb as [Hb1 Hb2]. destruct (turn_response I n ensure_turn) as [Hj Hresp].
  assert (Hp : m_responseState (m_requests c n) = PENDING /\ n ∈ m_pendingRequests c /\ inw c n = false /\ (n <=? m) = false).
  { unfold response_ok in Hresp. rewrite Hd in Hresp. destruct (m_responseState (m_requests c n)); try done; bools; unfold inq in *; bools; try done. }
  destruct Hp as (Hp & Hq & Hw & Hm). rewrite Hp. rewrite ASSERT_true by done. rewrite (client_invariant_ok I). step.
  destruct (number_upto (m_priorResponseFailed c) n || number_upto (m_priorResponseClosed c) n) eqn:Hu.
  - destruct (ensure_fails (set_exception (set_responseState ERROR (m_requests c n))) Hd Hp Hq Hw Hu) as [Hcm I']; [done | done |].
    rewrite Hcm, ASSERT_true by (by apply mem_true). step. eexists _, _. split; [reflexivity |]. split; [done |]. cbn [after_ensured]. rewrite set_request_twice. exact I'.
  - apply orb_false_iff in Hu as [Hu1 Hu2]. pose proof (eligible_below n Hu1 Hu2) as He.
    destruct (m_pendingRequests c) as [| front l] eqn:Hpend; [by apply not_elem_of_nil in Hq |]. destruct (Nat.eqb_spec front n) as [-> | Hne].
    + eexists _, _. split; [reflexivity |]. split; [done |]. cbn [after_ensured]. rewrite (set_request_equiv n _ _ c eq_refl). rewrite <- Hpend in Hq.
      apply (begin_reading I); try done; [| by apply ensure_turn | destruct Ht as [? | [? _]]; auto | congruence].
      apply (sorted_head _ n (inv_sorted _ _ _ _ _ _ I)). by rewrite Hpend.
    + rewrite ASSERT_true by (cbn; change (inw c n) with (mem n (m_waitingResponses c)) in Hw; by rewrite Hw). eexists _, _. split; [reflexivity |]. split; [done |]. cbn [after_ensured].
      assert (Hbehind : exists k, k ∈ m_pendingRequests c /\ k < n).
      { pose proof (inv_sorted _ _ _ _ _ _ I) as Hso. rewrite Hpend in Hso |- *. destruct (sorted_cons_inv _ Hso front l eq_refl) as [_ Hgt]. exists front. split; [by left |].
        apply elem_of_cons in Hq as [-> | Hq]; [done | by apply Hgt]. }
      rewrite <- Hpend in Hq. eapply (inv_equiv D); [apply (ensure_waits (set_responseState WAITING (set_fiber true (m_requests c n)))); done | | done | done].
      split; try done. cbn. intros x. destruct (decide (x = n)) as [-> | Hx]; [by rewrite !fn_lookup_insert | by rewrite !fn_lookup_insert_ne].
Qed.
End Ensure.

Lemma ensureResponse2_ok D c sd rd j m n : inv D c sd rd j m -> rd n = Woken ->
  exists o c', ensureResponse2 n c = Ok (o, c') /\ m_events c' = m_events c /\ after_ensured D n o c c' sd rd j m.
Proof.
  intros I Hd. unfold ensureResponse2. rewrite (client_invariant_ok I). step. pose proof (reading_turn I n ltac:(by rewrite Hd)) as Ht. destruct (turn_response I n Ht) as [Hj Hresp].
  unfold response_ok in Hresp. rewrite Hd in Hresp.
  assert (Hthrow : ended_early (m_responseState (m_requests c n)) = true -> inv D (set_request n set_exception c) sd (<[n := Idle]> rd) j m).
  { intros He. rewrite (set_request_equiv n _ _ c eq_refl). eapply inv_equiv; [eapply (inv_change I n (set_exception (m_requests c n)) (sd n) Idle) | done | |]; try done.
    - pose proof (inv_ok _ _ _ _ _ _ I n) as H. unfold ok_at in H. eapply request_ok_change; [exact Ht | exact H | done | | done |].
      + unfold response_ok. cbn [m_responseState set_exception]. destruct (m_responseState (m_requests c n)); try done; bools; repeat match goal with H : ?b = true |- context [?b] => rewrite H | H : ?b = false |- context [?b] => rewrite H end; by destruct D.
      + destruct (m_responseState (m_requests c n)); try done; bools; congruence.
    - intros Hq. destruct (m_responseState (m_requests c n)) eqn:Hr; try done; bools; apply inq_true in Hq; congruence.
    - intros x. destruct (decide (x = n)) as [-> | Hx]; [by rewrite fn_lookup_insert | by rewrite fn_lookup_insert_ne]. }
  destruct (m_responseState (m_requests c n)) eqn:Hr; bools; try done.
  - (* HEADERS *)
    destruct H as [H | H]; bools; [| done]. apply inq_true in H3. assert (Hmin : forall x, x ∈ m_pendingRequests c -> n <= x) by (intros x Hx; apply (inv_front _ _ _ _ _ _ I); [done | by rewrite Hr | done]).
    rewrite ASSERT_true by (apply bool_decide_eq_true, sorted_head; [apply I | done]). rewrite ASSERT_true by done. eexists _, _. split; [done |]. split; [done |]. cbn [after_ensured].
    destruct (begin_reading I n (m_requests c n)) as [Hn I']; try done; [destruct H0; [by left | right; by destruct (sd n)] | congruence |]. split; [done |].
    eapply inv_equiv; [exact I' | | done | done]. split; try done. cbn. intros x. destruct (decide (x = n)) as [-> | Hx]; [by rewrite fn_lookup_insert | by rewrite fn_lookup_insert_ne].
  - eexists _, _. split; [reflexivity |]. split; [done |]. by apply Hthrow.
  - eexists _, _. split; [reflexivity |]. split; [done |]. by apply Hthrow.
Qed.

(** ** [scheduleNextResponse] *)

Lemma sent_completed D c sd rd j m n : inv D c sd rd j m -> n ∈ m_pendingRequests c -> had_turn (sd n) = true -> completed (m_requestState (m_requests c n)) = is_sent (sd n).
Proof.
  intros I Hq Ht. destruct (queued_request I n Hq) as [_ H]. unfold queue_case in H.
  destruct (place c n); [destruct H as [[-> | ->] [H | [H | [H | H]]]]; by rewrite H in * | by destruct H as [-> ->] | destruct H as [H _]; by rewrite H in Ht].
Qed.

(** The response of [n], which is the front, has been read to its end, and that of [k] can be read next if its fiber waits. *)
Lemma response_done D c c' sd rd j m n (hand : option nat) : inv D c sd rd j m ->
  n ∈ m_pendingRequests c -> m_responseState (m_requests c n) = BODY ->
  (forall k, hand = Some k -> follows (m_pendingRequests c) n (Some k) /\ m_responseState (m_requests c k) = WAITING) ->
  (forall k, follows (m_pendingRequests c) n (Some k) -> m_responseState (m_requests c k) = WAITING -> hand = Some k) ->
  m_requests c' n = set_responseState COMPLETE (m_requests c n) ->
  (forall k, hand = Some k -> m_requests c' k = set_fiber false (set_responseState HEADERS (m_requests c k))) ->
  (forall x, x <> n -> hand <> Some x -> m_requests c' x = m_requests c x) ->
  m_pendingRequests c' = (if completed (m_requestState (m_requests c n)) then erase n (m_pendingRequests c) else m_pendingRequests c) ->
  m_waitingResponses c' = match hand with Some k => erase k (m_waitingResponses c) | None => m_waitingResponses c end ->
  m_currentRequest c' = m_currentRequest c ->
  m_priorRequestFailed c' = m_priorRequestFailed c -> m_priorResponseFailed c' = m_priorResponseFailed c -> m_priorResponseClosed c' = m_priorResponseClosed c ->
  m_requestCount c' = m_requestCount c -> m_timerManager c' = m_timerManager c ->
  i_timeout (m_idle c') = i_timeout (m_idle c) -> i_dg (m_idle c') = i_dg (m_idle c) -> (i_timer (m_idle c') = true -> forall x, x ∈ m_pendingRequests c -> x <= n) ->
  inv D c' sd (match hand with Some k => <[k := Woken]> rd | None => rd end) j m.
Proof.
  intros I Hq Hb Hk Hnone Hn' Hk' Hx' Hq' Hw' Hc' Hrf Hpf Hpc Hct Htm Hto Hdg Hti.
  pose proof (queued_response I n Hq) as Hresp. unfold response_case in Hresp. rewrite Hb in Hresp. destruct Hresp as (He & Hw & Hd & Hm).
  assert (Hmin : forall x, x ∈ m_pendingRequests c -> n <= x) by (intros x Hx; apply (inv_front _ _ _ _ _ _ I); [done | by rewrite Hb | done]).
  pose proof (needs_had_turn I n ltac:(by rewrite Hb)) as Ht.
  pose proof (sent_completed _ _ _ _ _ _ _ I Hq Ht) as Hsent. rewrite Hsent in Hq'.
  assert (Hf : failed c' = failed c) by (unfold failed; by rewrite Hrf, Hpf, Hpc).
  assert (Hel : forall x, eligible c' x = eligible c x) by (intros x; unfold eligible; by rewrite Hpf, Hpc).
  assert (Hbn : forall x, born c' x = born c x) by (intros x; unfold born; by rewrite Hct).
  assert (Hpl : forall x, place c' x = place c x) by (intros x; unfold place; by rewrite Hc').
  assert (Hin : forall x, x ∈ m_pendingRequests c' <-> x ∈ m_pendingRequests c /\ (x = n -> is_sent (sd n) = false)).
  { intros x. rewrite Hq'. destruct (is_sent (sd n)); [rewrite elem_erase |]; intuition congruence. }
  assert (Hnm : n = m) by (apply (inv_read _ _ _ _ _ _ I); [done | by apply Nat.leb_le]).
  assert (Hkk : forall k, hand = Some k -> k ∈ m_pendingRequests c /\ n < k /\ is_sent (sd n) = true /\ had_turn (sd k) = true /\ (forall x, x ∈ m_pendingRequests c -> n < x -> k <= x)).
  { intros k Hh. destruct (Hk k Hh) as [(Hkq & Hlt & Hmk) Hkw]. split_and!; try done.
    - pose proof (queued_request I n Hq) as [_ Hqn]. unfold queue_case in Hqn. pose proof (place_spec c n) as Hp. destruct (place c n).
      + exfalso. destruct (queued_request I k Hkq) as [_ Hqk]. unfold queue_case, place in Hqk. rewrite Hp, (proj2 (Nat.compare_gt_iff k n) Hlt) in Hqk. destruct Hqk as (_ & _ & Hqk & _). congruence.
      + destruct Hqn as [-> _]. done.
      + destruct Hqn as [Hqn _]. by rewrite Hqn in Ht.
    - apply (needs_had_turn I). by rewrite Hkw. }
  assert (Hiw : forall x, hand <> Some x -> inw c' x = inw c x).
  { intros x Hx. unfold inw. rewrite Hw'. destruct hand as [k |]; [| done]. rewrite mem_erase. apply other_true. congruence. }
  assert (Hrs : forall x, x <> n -> hand <> Some x -> m_responseState (m_requests c' x) = m_responseState (m_requests c x)) by (intros x H1 H2; by rewrite Hx').
  assert (Hnh : hand <> Some n) by (intros Hh; destruct (Hkk n Hh) as (_ & ? & _); lia).
  split.
  - intros x. destruct (decide (x = n)) as [-> | Hxn]; [| destruct (decide (hand = Some x)) as [Hh | Hh]].
    + pose proof (inv_ok _ _ _ _ _ _ I n) as H. pose proof (turn_response I n Ht) as [_ Hr]. unfold ok_at in *. rewrite Hf, Hn', Hel, Hbn, Hpl, (Hiw n Hnh), Hw.
      assert (Hrd : match hand with Some k => <[k := Woken]> rd | None => rd end n = Idle) by (destruct hand as [k |]; [rewrite fn_lookup_insert_ne by congruence |]; done). rewrite Hrd.
      assert (Hiq : inq c' n = negb (is_sent (sd n))) by (apply eq_true_iff_eq; rewrite inq_true, Hin, negb_true_iff; intuition). rewrite Hiq.
      eapply request_ok_change; [exact Ht | exact H | done | | intros _; by apply inq_true | by intros ->].
      unfold response_ok in *. rewrite Hb in Hr. cbn [m_responseState set_responseState]. bools. rewrite Hm. destruct (is_sent (sd n)); cbn in *; [by rewrite orb_true_r |]. by destruct D; [| naive_solver].
    + destruct (Hkk x Hh) as (Hxq & Hlt & Hsn & Htx & _). destruct (Hk x Hh) as [_ Hxw]. pose proof (inv_ok _ _ _ _ _ _ I x) as H. pose proof (turn_response I x Htx) as [_ Hr].
      unfold ok_at in *. rewrite Hf, (Hk' x Hh), Hel, Hbn, Hpl, Hh, fn_lookup_insert.
      assert (Hiq : inq c' x = true) by (apply inq_true, Hin; split; [done | lia]). rewrite Hiq.
      assert (Hiw' : inw c' x = false) by (unfold inw; rewrite Hw', Hh, mem_erase; apply same_false). rewrite Hiw'.
      eapply request_ok_change; [exact Htx | exact H | done | | intros _; by apply inq_true | done].
      unfold response_ok in *. rewrite Hxw in Hr. cbn [m_responseState set_responseState set_fiber]. bools. repeat match goal with H : ?b = true |- context [?b] => rewrite H | H : ?b = false |- context [?b] => rewrite H end.
      cbn. by apply orb_true_iff.
    + eapply ok_at_frame; [apply (inv_ok _ _ _ _ _ _ I x) | ..]; auto.
      * destruct hand as [k |]; [| done]. by rewrite fn_lookup_insert_ne by congruence.
      * apply eq_true_iff_eq. rewrite !inq_true, Hin. tauto.
      * congruence.
      * by rewrite Hel.
  - rewrite Hq'. destruct (is_sent (sd n)); [apply queue_sorted_filter |]; apply I.
  - rewrite Hc'. intros k Hck. destruct (inv_current _ _ _ _ _ _ I k Hck) as [Hkq Hkj]. split; [| done]. apply Hin. split; [done |]. intros ->.
    destruct (queued_request I n Hq) as [_ H]. unfold queue_case, place in H. rewrite Hck, Nat.compare_refl in H. destruct H as [_ [H | [H | [H | H]]]]; by rewrite H.
  - intros x y Hx Hbg Hy. apply Hin in Hx as [Hx Hx1], Hy as [Hy Hy1]. destruct (decide (x = n)) as [-> | Hxn]; [by apply Hmin |].
    destruct (decide (hand = Some x)) as [Hh | Hh]; [| rewrite Hrs in Hbg by done; by apply (inv_front _ _ _ _ _ _ I)].
    destruct (Hkk x Hh) as (_ & Hlt & Hsn & _ & Hmk). apply Hmk; [done |]. specialize (Hmin y Hy). destruct (decide (y = n)) as [-> | ?]; [rewrite Hy1 in Hsn; done | lia].
  - intros x Hx. apply Hin in Hx as [Hx _]. by apply (inv_read _ _ _ _ _ _ I).
  - rewrite Hpf, Hpc. apply I.
  - rewrite Hct. apply I.
  - rewrite Hf, Hct. intros Hff x Hxx. apply Hin. split; [by apply (inv_all _ _ _ _ _ _ I Hff) | lia].
  - intros y x Hy. rewrite Hel. intros Hel' Hxx. apply Hin in Hy as [Hy _]. apply Hin. split; [by apply (inv_gap _ _ _ _ _ _ I y) | lia].
  - intros Hti' x Hx. apply Hin in Hx as [Hx _]. specialize (Hti Hti' x Hx). specialize (Hmin x Hx). assert (x = n) as -> by lia. by rewrite Hn'.
  - intros x Hxd Hxe. assert (Hx : rd x = Reading /\ ended_early (m_responseState (m_requests c x)) = true).
    { destruct (decide (x = n)) as [-> | Hxn]; [by rewrite Hn' in Hxe |]. destruct (decide (hand = Some x)) as [Hh | Hh]; [by rewrite (Hk' x Hh) in Hxe |]. rewrite Hrs in Hxe by done.
      destruct hand as [k |]; [rewrite fn_lookup_insert_ne in Hxd by congruence |]; done. }
    destruct (inv_ended _ _ _ _ _ _ I x) as [Hfx Hyx]; [apply Hx | apply Hx |]. rewrite Hf. split; [done |]. intros y Hy. rewrite Hel. apply Hin in Hy as [Hy _]. by apply Hyx.
  - intros x Hx Hwx. apply Hin in Hx as [Hx Hx1]. destruct (decide (x = n)) as [-> | Hxn]; [by rewrite Hn' in Hwx |]. destruct (decide (hand = Some x)) as [Hh | Hh]; [by rewrite (Hk' x Hh) in Hwx |].
    rewrite Hrs in Hwx by done. specialize (Hmin x Hx). destruct (next_follows _ n (inv_sorted _ _ _ _ _ _ I) Hq) as (o & _ & Ho). destruct o as [k |]; [| specialize (Ho x Hx); lia].
    pose proof Ho as (Hkq & Hlt & Hmk). specialize (Hmk x Hx ltac:(lia)). exists k. split; [apply Hin; split; [done | lia] |]. destruct (decide (k = x)) as [-> | ?]; [| lia]. destruct Hh. by apply Hnone.
  - rewrite Hto, Hdg, Htm. apply I.
Qed.

(** The invariant after a section whose events are still to be delivered. *)
Definition after_section (D : bool) (c : ClientConnection) (sd : nat -> sending) (rd : nat -> reading) (j m : nat) : Prop :=
  inv D c (sd_after (m_events c) sd) (rd_after (m_events c) rd) j m.

Lemma after_section_raise D c sd rd j m l : (forall x, scheduled l x = false) -> after_section D c sd rd j m -> after_section D (raise l c) sd rd j m.
Proof.
  intros Hl I. unfold after_section in *. assert (He : forall x, scheduled (m_events (raise l c)) x = scheduled (m_events c) x) by (intros x; by apply scheduled_silent).
  eapply inv_equiv; [exact I | by split | |]; intros x; unfold sd_after, rd_after; by rewrite He.
Qed.

Lemma after_section_hand D c sd rd j m (hand : option nat) :
  inv D c sd (match hand with Some k => <[k := Woken]> rd | None => rd end) j m ->
  (forall x, scheduled (m_events c) x = match hand with Some k => k =? x | None => false end) ->
  (forall k, hand = Some k -> rd k = Waiting /\ sd k <> Queued) -> after_section D c sd rd j m.
Proof.
  intros I He Hk. unfold after_section. eapply inv_equiv; [exact I | done | |]; intros x; unfold sd_after, rd_after; rewrite He; destruct hand as [k |]; try done;
    destruct (Nat.eqb_spec k x) as [<- | Hne]; destruct (Hk k eq_refl) as [H1 H2]; try done.
  - by rewrite bool_decide_false.
  - by rewrite bool_decide_true, fn_lookup_insert by done.
  - by rewrite fn_lookup_insert_ne.
Qed.

Lemma scheduleNextResponse_ok D c sd rd j m n half : inv D c sd rd j m -> n ∈ m_pendingRequests c -> m_responseState (m_requests c n) = BODY -> m_events c = [] ->
  exists c', scheduleNextResponse half n c = Ok c' /\ after_section D c' sd rd j m.
Proof.
  intros I Hq Hb He. assert (Hmin : forall x, x ∈ m_pendingRequests c -> n <= x) by (intros x Hx; apply (inv_front _ _ _ _ _ _ I); [done | by rewrite Hb | done]).
  assert (Hhead : head (m_pendingRequests c) = Some n) by (apply sorted_head; [apply I | done]).
  unfold scheduleNextResponse. rewrite (client_invariant_ok I). step. rewrite ASSERT_true by (by apply bool_decide_eq_true). rewrite Hb, ASSERT_true by done.
  set (c1 := set_request n (set_responseState COMPLETE) c). change (m_pendingRequests c1) with (m_pendingRequests c).
  assert (Ho : follows (m_pendingRequests c) n (head (tail (m_pendingRequests c)))).
  { rewrite (queue_sorted_tail _ n (inv_sorted _ _ _ _ _ _ I) Hhead). pose proof (queue_sorted_filter _ (inv_sorted _ _ _ _ _ _ I) (fun x => x <> n)) as Hs.
    destruct (head (erase n (m_pendingRequests c))) as [k |] eqn:Hk; cbn.
    - apply (sorted_head _ k Hs) in Hk as [Hk1 Hk2]. apply elem_erase in Hk1 as [Hk1 Hkn]. specialize (Hmin k Hk1). split_and!; [done | lia |]. intros x Hx Hlt. apply Hk2, elem_erase. split; [done | lia].
    - intros x Hx. destruct (decide (x = n)); [lia |]. assert (Hxe : x ∈ erase n (m_pendingRequests c)) by (by apply elem_erase). destruct (erase n (m_pendingRequests c)); [by apply not_elem_of_nil in Hxe | done]. }
  assert (Hst : m_requestState (m_requests c1 n) = m_requestState (m_requests c n)) by (cbn; by rewrite fn_lookup_insert). rewrite Hst.
  set (popped := completed (m_requestState (m_requests c n))). set (close := popped && _).
  set (c2 := if popped then set_pending (tail (m_pendingRequests c)) c1 else c1).
  assert (Hr2 : m_requests c2 = m_requests c1) by (unfold c2; by destruct popped). assert (He2 : m_events c2 = []) by (unfold c2; by destruct popped).
  assert (Hq2 : m_pendingRequests c2 = if popped then erase n (m_pendingRequests c) else m_pendingRequests c).
  { unfold c2. destruct popped; [| done]. cbn. apply queue_sorted_tail; [apply I | done]. }
  assert (Hw2 : m_waitingResponses c2 = m_waitingResponses c) by (unfold c2; by destruct popped).
  assert (Hi2 : m_idle c2 = m_idle c) by (unfold c2; by destruct popped). assert (Ht2 : m_timerManager c2 = m_timerManager c) by (unfold c2; by destruct popped).
  assert (Hti : i_timer (m_idle c) = false) by (destruct (i_timer (m_idle c)) eqn:Hti; [pose proof (inv_timer _ _ _ _ _ _ I Hti n Hq); congruence | done]).
  assert (Hdone : forall c3 hand, (forall k, hand = Some k <-> head (tail (m_pendingRequests c)) = Some k /\ m_responseState (m_requests c k) = WAITING) ->
    (forall x, m_requests c3 x = (match hand with Some k => <[k := set_fiber false (set_responseState HEADERS (m_requests c k))]> (m_requests c1) | None => m_requests c1 end) x) ->
    m_pendingRequests c3 = m_pendingRequests c2 -> m_currentRequest c3 = m_currentRequest c2 ->
    m_waitingResponses c3 = match hand with Some k => erase k (m_waitingResponses c) | None => m_waitingResponses c end ->
    m_priorRequestFailed c3 = m_priorRequestFailed c2 -> m_priorResponseFailed c3 = m_priorResponseFailed c2 -> m_priorResponseClosed c3 = m_priorResponseClosed c2 ->
    m_requestCount c3 = m_requestCount c2 -> m_timerManager c3 = m_timerManager c -> i_timeout (m_idle c3) = i_timeout (m_idle c) -> i_dg (m_idle c3) = i_dg (m_idle c) ->
    (i_timer (m_idle c3) = true -> head (tail (m_pendingRequests c)) = None) -> (forall x, scheduled (m_events c3) x = match hand with Some k => k =? x | None => false end) ->
    after_section D c3 sd rd j m).
  { intros c3 hand Hh Hreq H1 H2 H3 H4 H5 H6 H7 H8 H9 H10 H11 H12.
    assert (Hk : forall k, hand = Some k -> follows (m_pendingRequests c) n (Some k) /\ m_responseState (m_requests c k) = WAITING) by (intros k Hk; destruct (proj1 (Hh k) Hk) as [Hk1 Hk2]; by rewrite Hk1 in Ho).
    assert (Hnone : forall k, follows (m_pendingRequests c) n (Some k) -> m_responseState (m_requests c k) = WAITING -> hand = Some k).
    { intros k (Hkq & Hlt & Hmk) Hkw. apply Hh. split; [| done]. destruct (head (tail (m_pendingRequests c))) as [k' |]; cbn in Ho; [| specialize (Ho k Hkq); lia].
      destruct Ho as (Hkq' & Hlt' & Hmk'). f_equal. specialize (Hmk k' Hkq' Hlt'). specialize (Hmk' k Hkq Hlt). lia. }
    assert (Hkn : forall k, hand = Some k -> k <> n) by (intros k Hk'; destruct (Hk k Hk') as [(_ & ? & _) _]; lia).
    apply (after_section_hand _ _ _ _ _ _ hand); [| done |].
    - eapply (response_done D c c3 sd rd j m n hand I Hq Hb Hk Hnone); try done; try (rewrite ?H1, ?H2, ?H4, ?H5, ?H6, ?H7; unfold c2; by destruct popped).
      + rewrite Hreq. destruct hand as [k |]; [rewrite fn_lookup_insert_ne by (specialize (Hkn k eq_refl); congruence) |]; cbn; by rewrite fn_lookup_insert.
      + intros k ->. by rewrite Hreq, fn_lookup_insert.
      + intros x Hx Hxh. rewrite Hreq. destruct hand as [k |]; [rewrite fn_lookup_insert_ne by congruence |]; cbn; by rewrite fn_lookup_insert_ne.
      + by rewrite H1.
      + intros Ht x Hx. rewrite (H11 Ht) in Ho. by apply Ho.
    - intros k Hk'. destruct (Hk k Hk') as [(Hkq & _) Hkw]. pose proof (queued_response I k Hkq) as H. unfold response_case in H. rewrite Hkw in H. destruct H as [H _]. split; [done |].
      intros Hsq. pose proof (queued_not_waiting I k Hsq). done. }
  match goal with |- exists c', (mbind ?k ?first = _) /\ _ => enough (Hmain : exists c3, first = Ok c3 /\ after_section D c3 sd rd j m) end.
  { destruct Hmain as (c3 & -> & H3). step. eexists. split; [reflexivity |]. apply after_section_raise; [| done]. intros x. by destruct (close && half). }
  destruct (head (tail (m_pendingRequests c))) as [k |] eqn:Hk.
  - destruct Ho as (Hkq & Hlt & _). assert (Hkn : k <> n) by lia.
    assert (Hrk : m_requests c2 k = m_requests c k) by (rewrite Hr2; cbn; by rewrite fn_lookup_insert_ne). rewrite Hrk.
    pose proof (queued_response I k Hkq) as Hresp. unfold response_case in Hresp.
    assert (Hnb : begun (m_responseState (m_requests c k)) = false).
    { destruct (begun (m_responseState (m_requests c k))) eqn:Hbk; [| done]. pose proof (inv_front _ _ _ _ _ _ I k n Hkq Hbk Hq). lia. }
    rewrite Hnb, ASSERT_true by done. destruct (m_responseState (m_requests c k)) eqn:Hrs; try done.
    + eexists. split; [reflexivity |]. apply (Hdone c2 None); try done; [intros k'; split; [done | intros [[= <-] ?]; congruence] | intros x; by rewrite Hr2 | by rewrite Hi2 | by rewrite Hi2 | rewrite Hi2, Hti; done | intros x; by rewrite He2].
    + destruct Hresp as (_ & Hfb & Hw & _). rewrite Hw2, ASSERT_true by exact Hw. rewrite ASSERT_true by (cbn; rewrite fn_lookup_insert; cbn; by rewrite Hrk). eexists. split; [reflexivity |].
      apply (Hdone _ (Some k)); try done.
      * intros k'. split; [by intros [= <-] | by intros [[= <-] _]].
      * intros x. cbn. destruct (decide (x = k)) as [-> | Hx]; [rewrite !fn_lookup_insert, Hrk; done | rewrite !fn_lookup_insert_ne by done; by rewrite Hr2].
      * cbn. by rewrite Hi2.
      * cbn. by rewrite Hi2.
      * cbn. rewrite Hi2, Hti. done.
      * intros x. cbn. rewrite He2. cbn. by rewrite orb_false_r.
  - rewrite Hi2. destruct (i_timeout (m_idle c)) eqn:Hto.
    + destruct (inv_timeout _ _ _ _ _ _ I Hto) as [Hdg Htm]. rewrite Hti, Hdg, Ht2, Htm, !ASSERT_true by done. eexists. split; [reflexivity |].
      apply (Hdone _ None); try done; [by intros k'; split; [| intros [? _]] | intros x; cbn; by rewrite Hr2 | intros x; cbn; by rewrite He2].
    + eexists. split; [reflexivity |]. apply (Hdone c2 None); try done; [by intros k'; split; [| intros [? _]] | intros x; by rewrite Hr2 | by rewrite Hi2 | by rewrite Hi2 | intros x; by rewrite He2].
Qed.
