(* ===== verification/ClientFailing.v ===== *)
(** The sections of [Client.v] after which no request is sent and no later response is read: a response that fails or ends the connection, and [cancel]. *)

From Stdlib Require Import String Sorted.
From stdpp Require Import functions numbers list_numbers list.
From S2P Require Import Prelude Client ClientWorld ClientInv ClientSteps ClientSending ClientReading.

#[local] Open Scope nat_scope.

(** ** Waking all that wait

    [c] is the connection when the section began, and [c1] the one whose waiting requests and responses are woken. *)

Lemma eligible_down c x y : x <= y -> eligible c y = true -> eligible c x = true.
Proof.
  intros Hxy. unfold eligible, number_before. destruct (m_priorResponseFailed c) as [a |], (m_priorResponseClosed c) as [b |];
    rewrite ?andb_true_iff, ?negb_true_iff, ?Nat.ltb_ge; lia.
Qed.

Section WakeAll.
Context (c c1 : ClientConnection) (sd sd1 : nat -> sending) (rd rd1 : nat -> reading) (j m : nat) (P : nat -> comparison) (I : inv false c sd rd j m).
Context (Hok : forall x, request_ok false (failed c) (m_requests c1 x) (sd1 x) (rd1 x) (inq c1 x) (inw c1 x) (P x) (eligible c x) (born c1 x) (x <=? j) (x <=? m) = true).
Context (Hsorted : StronglySorted lt (m_pendingRequests c1)) (Hgiven : given (m_priorResponseFailed c1) || given (m_priorResponseClosed c1) = true).
Context (Hcur : match m_currentRequest c1 with
                | Some k => k ∈ m_pendingRequests c1 /\ forall n, n ∈ m_pendingRequests c1 -> sd1 n = Queued -> k <= n
                | None => forall n, n ∈ m_pendingRequests c1 -> sd1 n <> Queued
                end).
Context (Hplace : forall x, x ∈ m_pendingRequests c1 -> sd1 x <> Queued -> P x = place c1 x /\ P x <> Gt).
Context (Hbegun : forall x, x ∈ m_pendingRequests c1 -> begun (m_responseState (m_requests c1 x)) = true -> eligible c1 x = true).
Context (Hsub : forall x, x ∈ m_pendingRequests c1 -> x ∈ m_pendingRequests c).
Context (Hcur1 : forall k, m_currentRequest c1 = Some k -> sd1 k <> Queued -> m_currentRequest c = Some k).
Context (Hrs : forall x, x ∈ m_pendingRequests c1 -> m_responseState (m_requests c1 x) = m_responseState (m_requests c x) \/
  m_responseState (m_requests c x) <> COMPLETE /\ forall y, y ∈ m_pendingRequests c1 -> x <= y).
Context (Helig : forall x y, y ∈ m_pendingRequests c1 -> eligible c1 y = true -> eligible c y = true /\ (x ∈ m_pendingRequests c -> m < x <= y -> x ∈ m_pendingRequests c1)).
Context (Hct : m_requestCount c1 = m_requestCount c) (Htm : m_timerManager c1 = m_timerManager c) (Hid : m_idle c1 = m_idle c).
Context (Hend : forall x, rd1 x = Reading -> ended_early (m_responseState (m_requests c1 x)) = true ->
  rd x = Reading /\ ended_early (m_responseState (m_requests c x)) = true \/ forall y, y ∈ m_pendingRequests c1 -> eligible c1 y = true -> y <= x).
Context (Hwaits : forall x, x ∈ m_pendingRequests c1 -> m_responseState (m_requests c1 x) = WAITING -> eligible c1 x = true -> exists k, k ∈ m_pendingRequests c1 /\ k < x).

Lemma queued_pending x : sd1 x = Queued -> m_responseState (m_requests c1 x) = PENDING /\ rd1 x = Idle.
Proof using Hok. clear -Hok. intros Hx. specialize (Hok x). rewrite Hx in Hok. cbn [request_ok] in Hok. bools. done. Qed.

Lemma not_queued_before x y : x ∈ m_pendingRequests c1 -> y ∈ m_pendingRequests c1 -> x <= y -> sd1 y <> Queued -> sd1 x <> Queued.
Proof using Hcur Hplace.
  clear -Hcur Hplace. intros Hx Hy Hxy Hys Hxs. destruct (Hplace y Hy Hys) as [Hp1 Hp2]. destruct (m_currentRequest c1) as [k |] eqn:Hk; [| by apply (Hcur x)]. destruct Hcur as [_ Hge]. specialize (Hge x Hx Hxs).
  rewrite Hp1 in Hp2. unfold place in Hp2. rewrite Hk in Hp2. apply Nat.compare_ngt_iff in Hp2. assert (x = y) as -> by lia. done.
Qed.

Lemma wake_all : exists c2 c3 l,
  scheduleAllWaitingRequests c1 = Ok c2 /\ scheduleAllWaitingResponses c2 = Ok c3 /\ m_events c3 = m_events c1 ++ l /\
  inv false c3 (sd_after l sd1) (rd_after l rd1) j m /\
  (forall x, begun (m_responseState (m_requests c1 x)) = true -> m_requests c3 x = m_requests c1 x).
Proof using I Hok Hsorted Hgiven Hcur Hplace Hbegun Hsub Hcur1 Hrs Helig Hct Htm Hid Hend Hwaits.
  assert (Hf1 : failed c1 = true) by (unfold failed; apply orb_true_iff in Hgiven as [-> | ->]; by rewrite ?orb_true_r).
  destruct (wake_requests_ok false (failed c) P (eligible c) c1 sd1 rd1 j m Hok Hsorted Hf1 Hcur Hplace) as (ws & cur & Hw & Hin2 & Hcur2 & Hreq2 & Hok2).
  set (c2 := woken_requests ws cur c1) in *. set (sd2 := sd_after (Schedule <$> ws) sd1) in *. set (rd2 := rd_after (Schedule <$> ws) rd1) in *.
  destruct (wake_responses_ok (eligible c) c2 sd2 rd2 j m Hok2) as (rs & Hr & Hrs3 & Hin3 & Hreq3 & Hok3).
  { cbn. by apply erase_all_sorted. }
  { exact Hgiven. }
  { intros k Hk. by apply Hcur2. }
  { intros x Hx. apply Hin2 in Hx as [Hx Hxs]. rewrite Hreq2 by done. by apply Hbegun. }
  set (c3 := woken_responses rs c2) in *.
  assert (Hq : forall x, sd1 x = Queued -> x ∈ m_pendingRequests c2 -> False) by (intros x Hx Hxq; apply Hin2 in Hxq; naive_solver).
  exists c2, c3, ((Schedule <$> ws) ++ (Schedule <$> rs)). split; [exact Hw |]. split; [exact Hr |]. split; [cbn; by rewrite app_assoc |].
  assert (Hstate : forall x, x ∈ m_pendingRequests c3 -> x ∈ m_pendingRequests c1 /\ m_requests c3 x = m_requests c1 x).
  { intros x Hx. apply Hin3 in Hx as [Hx Hxr]. rewrite Hreq3 by done. apply Hin2 in Hx as [Hx Hxs]. by rewrite Hreq2. }
  assert (Hkeep : forall x y, x ∈ m_pendingRequests c1 -> x <= y -> y ∈ m_pendingRequests c3 -> eligible c1 y = true -> x ∈ m_pendingRequests c3).
  { intros x y Hx Hxy Hy Hey. apply Hstate in Hy as Hy'. destruct Hy' as [Hy1 _]. apply Hin3 in Hy as [Hy _]. apply Hin2 in Hy as [_ Hys].
    assert (Hxs : sd1 x <> Queued) by (by apply (not_queued_before x y)).
    apply Hin3. split; [by apply Hin2 |]. rewrite Hrs3. intros (_ & _ & Hxe). change (eligible c2 x) with (eligible c1 x) in Hxe. by rewrite (eligible_down c1 x y) in Hxe. }
  split.
  - eapply (inv_equiv false c3 _ (sd_after (Schedule <$> rs) sd2) _ (rd_after (Schedule <$> rs) rd2)); [| done | intros x; apply sd_after_app | intros x; apply rd_after_app].
    eapply inv_shrink; [exact I | ..]; try done.
    + intros x. unfold ok_at. assert (Hf3 : failed c3 = true) by exact Hf1. rewrite Hf3. apply Hok3.
    + cbn. apply erase_all_sorted. by apply erase_all_sorted.
    + intros x Hx. apply Hstate in Hx as [Hx _]. by apply Hsub.
    + intros k Hk. destruct (Hcur2 k Hk) as [Hk2 Hk1]. apply Hin2 in Hk2 as Hk2'. destruct Hk2' as [Hk1q Hks]. split; [| by apply Hcur1].
      apply Hin3. split; [done |]. rewrite Hrs3. intros (_ & Hwk & _). pose proof (sequential_case (eligible c) c2 sd2 rd2 j m Hok2 k Hk2) as H. rewrite Hwk in H. destruct H as (_ & _ & _ & _ & _ & H).
      unfold place in H. assert (Hk' : m_currentRequest c2 = Some k) by exact Hk. rewrite Hk', Nat.compare_refl in H. done.
    + intros x Hx. apply Hstate in Hx as Hx'. destruct Hx' as [Hx1 ->]. destruct (Hrs x Hx1) as [? | [? Hy]]; [by left | right; split; [done |]]. intros y Hy3. apply Hstate in Hy3 as [Hy3 _]. by apply Hy.
    + intros x y Hy Hey. apply Hstate in Hy as Hy'. destruct Hy' as [Hy1 _]. destruct (Helig x y Hy1 Hey) as [He Hx]. split; [done |]. intros Hxq Hxy. apply (Hkeep x y); [auto | lia | done | done].
    + intros x Hxd Hxe. assert (Hxd1 : rd1 x = Reading) by (revert Hxd; unfold rd2, rd_after; repeat case_match; done).
      assert (Hxs : sd1 x <> Queued) by (intros Hxs; destruct (queued_pending x Hxs) as [_ ?]; congruence).
      assert (Hxr : x ∉ rs).
      { rewrite Hrs3. intros (Hxq & Hxw & _). pose proof (sequential_case (eligible c) c2 sd2 rd2 j m Hok2 x Hxq) as H. rewrite Hxw in H. destruct H as (_ & H & _). revert H. unfold rd2, rd_after.
        rewrite Hxd1. repeat case_match; done. }
      rewrite Hreq3, Hreq2 in Hxe by done. destruct (Hend x Hxd1 Hxe) as [? | Hy]; [by left | right]. intros y Hy3 Hey. apply Hstate in Hy3 as [Hy3 _]. by apply Hy.
    + intros x Hx Hxw. apply Hstate in Hx as Hx'. destruct Hx' as [Hx1 Hxr]. rewrite Hxr in Hxw. apply Hin3 in Hx as Hx'. destruct Hx' as [Hx2 Hxn].
      assert (Hxe : eligible c1 x = true).
      { destruct (eligible c1 x) eqn:Hxe; [done |]. destruct Hxn. rewrite Hrs3. split; [done |]. split; [| exact Hxe]. apply Hin2 in Hx2 as [_ Hx2]. by rewrite Hreq2. }
      destruct (Hwaits x Hx1 Hxw Hxe) as (k & Hk & Hlt). exists k. split; [| done]. apply (Hkeep k x); [done | lia | done | done].
  - intros x Hb. assert (Hxs : sd1 x <> Queued) by (intros Hxs; destruct (queued_pending x Hxs) as [Hp _]; by rewrite Hp in Hb).
    rewrite Hreq3, Hreq2; [done | done |]. rewrite Hrs3, Hreq2 by done. intros (_ & Hxw & _). by rewrite Hxw in Hb.
Qed.
End WakeAll.

(** What [Hcur] and [Hplace] above ask for holds as long as the current request is the same. *)
Lemma wake_places D c c1 sd rd j m : inv D c sd rd j m -> m_currentRequest c1 = m_currentRequest c ->
  (forall x, x ∈ m_pendingRequests c1 -> x ∈ m_pendingRequests c) -> (forall k, m_currentRequest c = Some k -> k ∈ m_pendingRequests c1) ->
  match m_currentRequest c1 with
  | Some k => k ∈ m_pendingRequests c1 /\ forall n, n ∈ m_pendingRequests c1 -> sd n = Queued -> k <= n
  | None => forall n, n ∈ m_pendingRequests c1 -> sd n <> Queued
  end /\ forall x, x ∈ m_pendingRequests c1 -> sd x <> Queued -> place c x = place c1 x /\ place c x <> Gt.
Proof.
  intros I Hc Hsub Hk. rewrite Hc. split.
  - assert (Hgt : forall x, x ∈ m_pendingRequests c1 -> sd x = Queued -> exists k, m_currentRequest c = Some k /\ k < x).
    { intros x Hx Hs. destruct (queued_request I x (Hsub x Hx)) as [_ H]. unfold queue_case in H. pose proof (place_spec c x) as Hp. destruct (place c x); [| | done].
      - destruct H as [_ H]. rewrite Hs in H. naive_solver.
      - destruct H as [H _]. congruence. }
    destruct (m_currentRequest c) as [k |]; [split; [by apply Hk |] |]; intros x Hx Hs; destruct (Hgt x Hx Hs) as (k' & [= <-] & ?); lia.
  - intros x Hx Hs. split; [unfold place; by rewrite Hc |]. intros Hp. destruct (queued_request I x (Hsub x Hx)) as [_ H]. unfold queue_case in H. rewrite Hp in H. tauto.
Qed.

Lemma reading_front c sd rd j m n : inv false c sd rd j m -> rd n = Reading -> ended_early (m_responseState (m_requests c n)) = false ->
  m_responseState (m_requests c n) = HEADERS /\ n ∈ m_pendingRequests c /\ inw c n = false /\ eligible c n = true /\ sd n = Sent /\ n = m /\
  (forall x, x ∈ m_pendingRequests c -> n <= x) /\ completed (m_requestState (m_requests c n)) = true /\ (n <=? m) = true.
Proof.
  intros I Hd He. pose proof (reading_turn I n ltac:(by rewrite Hd)) as Ht. destruct (turn_response I n Ht) as [_ Hr]. unfold response_ok in Hr. rewrite Hd in Hr.
  assert (Hh : m_responseState (m_requests c n) = HEADERS) by (destruct (m_responseState (m_requests c n)); try done; bools; done). rewrite Hh in Hr. bools. destruct H as [H | H]; bools; [done |].
  apply inq_true in H3. assert (Hs : sd n = Sent) by (destruct H0; [done |]; by destruct (sd n)).
  split_and!; try done.
  - apply (inv_read _ _ _ _ _ _ I); [done | by apply Nat.leb_le].
  - intros x Hx. apply (inv_front _ _ _ _ _ _ I); [done | by rewrite Hh | done].
  - rewrite (sent_completed _ _ _ _ _ _ _ I H3 Ht), Hs. done.
Qed.

Lemma sent_not_current D c sd rd j m n : inv D c sd rd j m -> sd n = Sent -> m_currentRequest c <> Some n.
Proof.
  intros I Hs Hc. destruct (inv_current _ _ _ _ _ _ I n Hc) as [Hq _]. destruct (queued_request I n Hq) as [_ H]. unfold queue_case, place in H. rewrite Hc, Nat.compare_refl, Hs in H. naive_solver.
Qed.

Lemma after_reading_events D n c l sd rd j m : m_events c = l -> inv D c (sd_after l sd) (rd_after l (<[n := Idle]> rd)) j m -> after_reading D n Idle c sd rd j m.
Proof.
  intros <- I. unfold after_reading. eapply inv_equiv; [exact I | done | done |]. intros x. destruct (decide (x = n)) as [-> | Hx].
  - unfold rd_after. rewrite !fn_lookup_insert. by rewrite bool_decide_false, andb_false_r.
  - unfold rd_after. by rewrite !fn_lookup_insert_ne.
Qed.

(** The response that is being read is the last one: it fails, or ends the connection. *)
Lemma ending_response c c1 sd rd j m n r (removed : bool) : inv false c sd rd j m -> rd n = Reading -> m_responseState (m_requests c n) = HEADERS ->
  m_requests c1 n = r -> (forall x, x <> n -> m_requests c1 x = m_requests c x) -> m_requestState r = m_requestState (m_requests c n) ->
  (if removed then m_responseState r = ERROR \/ m_responseState r = COMPLETE else m_responseState r = BODY) ->
  m_pendingRequests c1 = (if removed then erase n (m_pendingRequests c) else m_pendingRequests c) -> m_currentRequest c1 = m_currentRequest c -> m_waitingResponses c1 = m_waitingResponses c ->
  given (m_priorResponseFailed c1) || given (m_priorResponseClosed c1) = true -> (forall y, eligible c1 y = true -> eligible c y = true /\ y <= n) -> eligible c1 n = true ->
  m_requestCount c1 = m_requestCount c -> m_timerManager c1 = m_timerManager c -> m_idle c1 = m_idle c -> m_events c1 = [] ->
  exists c2 c3, scheduleAllWaitingRequests c1 = Ok c2 /\ scheduleAllWaitingResponses c2 = Ok c3 /\ after_reading false n Idle c3 sd rd j m.
Proof.
  intros I Hd Hh Hn Hx Hrq Hr Hq Hc Hw Hg Hel Heln Hct Htm Hid Hev. destruct (reading_front _ _ _ _ _ _ I Hd) as (_ & Hnq & Hnw & Hne & Hs & Hnm & Hmin & Hcm & Hm); [by rewrite Hh |].
  assert (Hin : forall x, x ∈ m_pendingRequests c1 <-> x ∈ m_pendingRequests c /\ (x = n -> removed = false)) by (intros x; rewrite Hq; destruct removed; [rewrite elem_erase |]; intuition congruence).
  assert (Hbx : forall x, born c1 x = born c x) by (intros x; unfold born; by rewrite Hct). assert (Hwx : forall x, inw c1 x = inw c x) by (intros x; unfold inw; by rewrite Hw).
  destruct (wake_places _ _ c1 _ _ _ _ I Hc) as [Hcur Hplace].
  { intros x Hxq. apply Hin in Hxq. apply Hxq. }
  { intros k Hk. apply Hin. split; [by apply (inv_current _ _ _ _ _ _ I) |]. intros ->. by destruct (sent_not_current _ _ _ _ _ _ _ I Hs). }
  destruct (wake_all c c1 sd sd rd (<[n := Idle]> rd) j m (place c) I) as (c2 & c3 & l & H1 & H2 & H3 & H4 & _); try done.
  - intros x. rewrite Hbx, Hwx. destruct (decide (x = n)) as [-> | Hxn].
    + pose proof (inv_ok _ _ _ _ _ _ I n) as H. unfold ok_at in H. rewrite fn_lookup_insert, Hn.
      assert (Hqn : inq c1 n = negb removed) by (apply eq_true_iff_eq; rewrite inq_true, Hin, negb_true_iff; intuition). rewrite Hqn.
      eapply request_ok_change; [by rewrite Hs | exact H | done | | intros _; by apply inq_true | by rewrite Hs]. unfold response_ok. rewrite Hs, Hnw, Hne, Hm.
      destruct removed; [destruct Hr as [-> | ->] | rewrite Hr]; done.
    + rewrite Hx, fn_lookup_insert_ne by done. assert (Hqx : inq c1 x = inq c x) by (apply eq_true_iff_eq; rewrite !inq_true, Hin; tauto). rewrite Hqx. apply (inv_ok _ _ _ _ _ _ I).
  - rewrite Hq. destruct removed; [apply queue_sorted_filter |]; apply I.
  - intros x Hxq Hb. apply Hin in Hxq as [Hxq _]. destruct (decide (x = n)) as [-> | Hxn]; [done |]. rewrite Hx in Hb by done. pose proof (inv_front _ _ _ _ _ _ I x n Hxq Hb Hnq). specialize (Hmin x Hxq). lia.
  - intros x Hxq. apply Hin in Hxq. apply Hxq.
  - intros k Hk _. congruence.
  - intros x Hxq. destruct (decide (x = n)) as [-> | Hxn]; [right; rewrite Hh; split; [done |] | left; by rewrite Hx]. intros y Hy. apply Hin in Hy as [Hy _]. by apply Hmin.
  - intros x y Hy Hey. split; [by apply Hel |]. intros Hxq Hxy. apply Hin. split; [done | lia].
  - intros x Hxd Hxe. left. destruct (decide (x = n)) as [-> | Hxn]; [by rewrite fn_lookup_insert in Hxd | by rewrite fn_lookup_insert_ne in Hxd by done; rewrite Hx in Hxe].
  - intros x Hxq Hxw Hxe. destruct (decide (x = n)) as [-> | Hxn]; [exfalso; rewrite Hn in Hxw; destruct removed; [destruct Hr |]; congruence |].
    apply Hin in Hxq as [Hxq _]. specialize (Hmin x Hxq). destruct (Hel x Hxe). lia.
  - exists c2, c3. split; [done |]. split; [done |]. rewrite Hev in H3. by apply (after_reading_events _ _ _ l).
Qed.

(** ** The headers of a response *)

Lemma inv_exception D c sd rd j m n : inv D c sd rd j m -> inv D (set_request n set_exception c) sd rd j m.
Proof.
  intros I. rewrite (set_request_equiv n _ _ c eq_refl). eapply inv_equiv; [eapply (inv_change I n (set_exception (m_requests c n)) (sd n) (rd n)) | done | |]; try done.
  - pose proof (inv_ok _ _ _ _ _ _ I n) as H. unfold ok_at in H. exact H.
  - intros Hq Hb x Hx. by apply (inv_front _ _ _ _ _ _ I).
  - intros x. destruct (decide (x = n)) as [-> | Hx]; [by rewrite fn_lookup_insert | by rewrite fn_lookup_insert_ne].
  - intros x. destruct (decide (x = n)) as [-> | Hx]; [by rewrite fn_lookup_insert | by rewrite fn_lookup_insert_ne].
Qed.

Lemma after_reading_exception D n c sd rd j m : after_reading D n Idle c sd rd j m -> after_reading D n Idle (set_request n set_exception c) sd rd j m.
Proof. apply inv_exception. Qed.

Lemma ended_case c sd rd j m n : inv false c sd rd j m -> rd n = Reading -> ended_early (m_responseState (m_requests c n)) = true ->
  n ∉ m_pendingRequests c /\ inw c n = false /\ sd n = Sent.
Proof.
  intros I Hd He. pose proof (reading_turn I n ltac:(by rewrite Hd)) as Ht. destruct (turn_response I n Ht) as [_ Hr]. unfold response_ok in Hr.
  destruct (m_responseState (m_requests c n)); try done; bools; apply inq_false in H2; split_and!; try done; by destruct (sd n).
Qed.

(** The request was cancelled while its response was being read. *)
Lemma fails_after_cancel c sd rd j m n : inv false c sd rd j m -> rd n = Reading -> ended_early (m_responseState (m_requests c n)) = true ->
  inv false (set_request n (set_responseState ERROR) (set_responseFailed (Some (min_number (m_priorResponseFailed c) n)) c)) sd (<[n := Idle]> rd) j m.
Proof.
  intros I Hd He. destruct (ended_case _ _ _ _ _ _ I Hd He) as (Hq & Hw & Hs). destruct (inv_ended _ _ _ _ _ _ I n Hd He) as [Hf Hy].
  set (c' := set_request n _ _). assert (Hf' : failed c' = true) by (unfold failed, given; cbn; by rewrite orb_true_r).
  assert (Hel : forall y, eligible c' y = eligible c y && (y <=? n)).
  { intros y. apply eq_true_iff_eq. unfold eligible. cbn [m_priorResponseFailed m_priorResponseClosed c' set_request set_responseFailed number_before].
    rewrite !andb_true_iff, !negb_true_iff, Nat.leb_le, Nat.ltb_ge. unfold min_number, number_before. destruct (m_priorResponseFailed c); rewrite ?Nat.ltb_ge; intuition lia. }
  eapply inv_shrink; [exact I | ..]; try done.
  - intros x. destruct (decide (x = n)) as [-> | Hx].
    + pose proof (inv_ok _ _ _ _ _ _ I n) as H. unfold ok_at in *. rewrite Hs in *. cbn [request_ok m_requests c' set_request] in *. rewrite !fn_lookup_insert.
      change (inq c' n) with (inq c n). change (inw c' n) with (inw c n). change (born c' n) with (born c n). unfold response_ok. cbn [m_responseState m_requestState set_responseState].
      rewrite (proj2 (inq_false c n) Hq), Hw in *. bools. change (m_requests (set_responseFailed _ c)) with (m_requests c). repeat match goal with H : ?b = true |- context [?b] => rewrite H end. done.
    + eapply ok_at_frame; [apply (inv_ok _ _ _ _ _ _ I x) | ..]; try done; cbn [m_requests c' set_request]; rewrite ?fn_lookup_insert_ne by done; try done; [congruence | by left |].
      intros Hn He'. rewrite Hel, He'. apply Nat.leb_le, Hy; [| done]. apply inq_true. pose proof (inv_ok _ _ _ _ _ _ I x) as H. by apply request_ok_turn in H.
  - apply I.
  - intros k Hk. split; [by apply (inv_current _ _ _ _ _ _ I) | done].
  - intros x Hx. left. cbn. rewrite fn_lookup_insert_ne; [done |]. intros ->. done.
  - intros x y Hy' Hey. split; [| done]. rewrite Hel in Hey. bools. done.
  - intros x Hxd Hxe. left. cbn [m_requests c' set_request] in Hxe. destruct (decide (x = n)) as [-> | Hxn]; [by rewrite fn_lookup_insert in Hxd | rewrite fn_lookup_insert_ne in Hxd by done; by rewrite fn_lookup_insert_ne in Hxe by done].
  - intros x Hx Hxw. cbn [m_requests c' set_request] in Hxw. rewrite fn_lookup_insert_ne in Hxw by (intros <-; done). by apply (inv_waits _ _ _ _ _ _ I x).
Qed.

Lemma ensureResponse_fails_ok c sd rd j m n : inv false c sd rd j m -> rd n = Reading -> m_events c = [] ->
  exists c', ensureResponse_fails n c = Ok c' /\ after_reading false n Idle c' sd rd j m.
Proof.
  intros I Hd He. unfold ensureResponse_fails. rewrite (client_invariant_ok I). step. set (pf := min_number (m_priorResponseFailed c) n).
  set (c0 := set_request n (set_responseState ERROR) (set_responseFailed (Some pf) c)). change (front_is n c0) with (front_is n c).
  destruct (ended_early (m_responseState (m_requests c n))) eqn:Hend.
  - destruct (ended_case _ _ _ _ _ _ I Hd Hend) as (Hq & _). assert (Hnf : front_is n c = false).
    { apply bool_decide_eq_false. rewrite (sorted_head _ n (inv_sorted _ _ _ _ _ _ I)). tauto. }
    rewrite Hnf. step. eexists. split; [reflexivity |]. apply after_reading_exception, after_reading_none; [done |]. by apply fails_after_cancel.
  - destruct (reading_front _ _ _ _ _ _ I Hd Hend) as (Hh & Hq & _ & Hel & _ & _ & Hmin & Hcm & _).
    assert (Hfr : head (m_pendingRequests c) = Some n) by (apply sorted_head; [apply I | done]). assert (Hf : front_is n c = true) by (by apply bool_decide_eq_true). rewrite Hf.
    assert (Hrq : m_requestState (m_requests c0 n) = m_requestState (m_requests c n)) by (cbn; by rewrite fn_lookup_insert). rewrite Hrq, Hcm.
    assert (Hpf : forall y, eligible c0 y = eligible c y && (y <=? n)).
    { intros y. apply eq_true_iff_eq. unfold eligible. cbn [m_priorResponseFailed m_priorResponseClosed c0 set_request set_responseFailed number_before].
      rewrite !andb_true_iff, !negb_true_iff, Nat.leb_le, Nat.ltb_ge. unfold pf, min_number, number_before. destruct (m_priorResponseFailed c); rewrite ?Nat.ltb_ge; intuition lia. }
    destruct (ending_response c (set_pending (tail (m_pendingRequests c0)) c0) sd rd j m n (set_responseState ERROR (m_requests c n)) true I Hd Hh) as (c2 & c3 & H1 & H2 & H3); try done.
    + cbn. by rewrite fn_lookup_insert.
    + intros x Hx. cbn. by rewrite fn_lookup_insert_ne.
    + by left.
    + cbn. apply queue_sorted_tail; [apply I | done].
    + intros y Hy. change (eligible c0 y = true) in Hy. rewrite Hpf in Hy. bools. split; [done | by apply Nat.leb_le].
    + change (eligible c0 n = true). by rewrite Hpf, Hel, Nat.leb_refl.
    + rewrite H1. step. rewrite H2. step. eexists. split; [reflexivity |]. by apply after_reading_exception.
Qed.

Lemma ensureResponse_closes_ok c sd rd j m n hasBody : inv false c sd rd j m -> rd n = Reading -> m_responseState (m_requests c n) = HEADERS -> m_events c = [] ->
  exists c', ensureResponse_closes hasBody n c = Ok c' /\ after_reading false n Idle c' sd rd j m.
Proof.
  intros I Hd Hh He. destruct (reading_front _ _ _ _ _ _ I Hd) as (_ & Hq & _ & Hel & _ & _ & Hmin & Hcm & _); [by rewrite Hh |].
  assert (Hfr : head (m_pendingRequests c) = Some n) by (apply sorted_head; [apply I | done]).
  unfold ensureResponse_closes. rewrite (client_invariant_ok I). step. rewrite ASSERT_true by (by apply bool_decide_eq_true).
  change (m_requests (set_responseClosed (Some n) c)) with (m_requests c). rewrite Hcm, andb_true_r.
  set (c0 := if negb hasBody then _ else _). set (c1 := set_request n _ c0).
  assert (Hr0 : m_requests c0 = m_requests c) by (unfold c0; by destruct hasBody).
  assert (Hpc : forall y, eligible c1 y = eligible c y && (y <=? n)).
  { intros y. apply eq_true_iff_eq. unfold eligible. assert (Hpf : m_priorResponseFailed c1 = m_priorResponseFailed c) by (unfold c1, c0; by destruct hasBody).
    assert (Hpc1 : m_priorResponseClosed c1 = Some n) by (unfold c1, c0; by destruct hasBody). rewrite Hpf, Hpc1. unfold eligible in Hel. bools. cbn [number_before].
    rewrite !andb_true_iff, !negb_true_iff, Nat.leb_le, Nat.ltb_ge. unfold number_before in *. destruct (m_priorResponseClosed c); rewrite ?Nat.ltb_ge in *; intuition lia. }
  destruct (ending_response c c1 sd rd j m n (set_responseState (if hasBody then BODY else COMPLETE) (m_requests c n)) (negb hasBody) I Hd Hh) as (c2 & c3 & H1 & H2 & H3);
    try done; try (unfold c1, c0; by destruct hasBody).
  - cbn. rewrite fn_lookup_insert. by rewrite Hr0.
  - intros x Hx. cbn. rewrite fn_lookup_insert_ne by done. by rewrite Hr0.
  - destruct hasBody; [done | by right].
  - unfold c1, c0. destruct hasBody; [done |]. cbn. apply queue_sorted_tail; [apply I | done].
  - unfold given. apply orb_true_iff. right. unfold c1, c0. destruct hasBody; done.
  - intros y Hy. rewrite Hpc in Hy. bools. split; [done | by apply Nat.leb_le].
  - by rewrite Hpc, Hel, Nat.leb_refl.
  - rewrite H1. step. rewrite H2. eexists. by split.
Qed.

Lemma after_reading_raise D n d c sd rd j m l : (forall x, scheduled l x = false) -> after_reading D n d c sd rd j m -> after_reading D n d (raise l c) sd rd j m.
Proof.
  intros Hl I. unfold after_reading in *. assert (He : forall x, scheduled (m_events (raise l c)) x = scheduled (m_events c) x) by (intros x; by apply scheduled_silent).
  eapply inv_equiv; [exact I | by split | |]; intros x; [| apply insert_pointwise; intros y]; unfold sd_after, rd_after; by rewrite He.
Qed.

(** The headers are read and the response does not end the connection. *)
Lemma body_follows D c sd rd j m n : inv D c sd rd j m -> rd n = Reading -> m_responseState (m_requests c n) = HEADERS ->
  inv D (set_request n (set_responseState BODY) c) sd (<[n := Idle]> rd) j m /\ n ∈ m_pendingRequests c.
Proof.
  intros I Hd Hh. pose proof (reading_turn I n ltac:(by rewrite Hd)) as Ht. destruct (turn_response I n Ht) as [_ Hr]. unfold response_ok in Hr. rewrite Hh, Hd in Hr. bools.
  destruct H as [H | H]; bools; [done |]. apply inq_true in H3 as Hq. split; [| done].
  rewrite (set_request_equiv n _ _ c eq_refl). eapply inv_equiv; [eapply (inv_change I n (set_responseState BODY (m_requests c n)) (sd n) Idle) | done | | done]; try done.
  - pose proof (inv_ok _ _ _ _ _ _ I n) as Hok. unfold ok_at in Hok. eapply request_ok_change; [exact Ht | exact Hok | done | | done | by intros _].
    unfold response_ok. cbn [m_responseState set_responseState]. rewrite H3, H2, H1, H4. cbn. by apply orb_true_iff.
  - intros _ _ x Hx. apply (inv_front _ _ _ _ _ _ I); [done | by rewrite Hh | done].
  - congruence.
  - intros x. destruct (decide (x = n)) as [-> | Hx]; [by rewrite fn_lookup_insert | by rewrite fn_lookup_insert_ne].
Qed.

Lemma reading_state D c sd rd j m n : inv D c sd rd j m -> rd n = Reading ->
  m_responseState (m_requests c n) = HEADERS \/ ended_early (m_responseState (m_requests c n)) = true /\ D = false.
Proof.
  intros I Hd. pose proof (reading_turn I n ltac:(by rewrite Hd)) as Ht. destruct (turn_response I n Ht) as [_ Hr]. unfold response_ok in Hr. rewrite Hd in Hr.
  destruct (m_responseState (m_requests c n)); bools; try done; try (by left); right; (split; [done | by destruct D]).
Qed.

Lemma ensureResponse_read_ok D c sd rd j m n close hasBody connect half : inv D c sd rd j m -> rd n = Reading -> m_events c = [] ->
  (D = true -> close = false) -> (connect = true -> close = true) ->
  exists c', ensureResponse_read close hasBody connect half n c = Ok c' /\ after_reading D n Idle c' sd rd j m.
Proof.
  intros I Hd He HD Hcc. unfold ensureResponse_read. destruct (reading_state _ _ _ _ _ _ _ I Hd) as [Hh | [Hend ->]].
  - rewrite Hh, ASSERT_true by done. cbn [ended_early]. destruct close.
    + destruct D; [by discriminate HD |]. destruct (ensureResponse_closes_ok _ _ _ _ _ _ hasBody I Hd Hh He) as (c' & -> & H). step.
      destruct (negb hasBody && negb connect); eexists; (split; [reflexivity |]); [| done]. apply after_reading_raise; [by destruct half | done].
    + destruct connect; [by discriminate Hcc |]. step. destruct (body_follows _ _ _ _ _ _ _ I Hd Hh) as [I' Hq]. rewrite andb_true_r. destruct (negb hasBody).
      * destruct (scheduleNextResponse_ok D (set_request n (set_responseState BODY) c) sd (<[n := Idle]> rd) j m n half I' Hq) as (c' & -> & H); [cbn; by rewrite fn_lookup_insert | done |].
        eexists. split; [reflexivity |]. by apply (after_reading_events _ _ _ (m_events c')).
      * eexists. split; [reflexivity |]. by apply after_reading_none.
  - rewrite Hend. rewrite ASSERT_true by apply orb_true_r. by apply ensureResponse_fails_ok.
Qed.

Lemma responseDone_ok D c sd rd j m n half : inv D c sd rd j m -> m_responseState (m_requests c n) = BODY -> m_events c = [] ->
  exists c', responseDone half n c = Ok c' /\ after_section D c' sd rd j m.
Proof.
  intros I Hb He. unfold responseDone. rewrite Hb, ASSERT_true by done. apply scheduleNextResponse_ok; try done. apply inq_true. pose proof (inv_ok _ _ _ _ _ _ I n) as H.
  apply request_ok_turn in H; [done | by rewrite Hb].
Qed.

Lemma idleTimeout_ok D c sd rd j m us dg : inv D c sd rd j m -> (m_timerManager c && dg) || negb us = true ->
  exists c', idleTimeout us dg c = Ok c' /\ m_events c' = m_events c /\ inv D c' sd rd j m.
Proof.
  intros I Hu. unfold idleTimeout. rewrite ASSERT_true by (destruct us, (m_timerManager c); done). eexists. split; [reflexivity |]. split; [done |].
  destruct I. split; try done.
  - cbn. intros Ht n Hn. bools. apply bool_decide_eq_true in H0. rewrite H0 in Hn. by apply not_elem_of_nil in Hn.
  - cbn. intros ->. cbn in Hu. rewrite orb_false_r in Hu. bools. done.
Qed.

(** ** [cancel] *)

(** A request that is being sent is given up. *)
Definition dropped (n : nat) (sd : nat -> sending) : nat -> sending := if bool_decide (sd n = Writing) then <[n := Dropped]> sd else sd.

Lemma completed_gone D c sd rd j m n : inv D c sd rd j m -> completed (m_requestState (m_requests c n)) = true -> completed (m_responseState (m_requests c n)) = true ->
  n ∉ m_pendingRequests c /\ n ∉ m_waitingResponses c /\ sd n <> Writing.
Proof.
  intros I H1 H2. pose proof (inv_ok _ _ _ _ _ _ I n) as H. unfold ok_at in H. rewrite <- inq_false, <- mem_false. fold (inw c n).
  destruct (sd n); cbn [request_ok] in H; bools; try done;
    try (match goal with H : m_responseState _ = _ |- _ => by rewrite H in H2 end);
    try (match goal with H : _ \/ _ |- _ => destruct H; bools end; match goal with H : m_requestState _ = _ |- _ => by rewrite H in H1 end).
  match goal with H : response_ok _ _ _ _ _ _ _ _ = true |- _ => unfold response_ok in H; destruct (m_responseState (m_requests c n)); try done; bools end; try done.
  match goal with H : Bool.eqb _ _ = true |- _ => apply Bool.eqb_prop in H end. done.
Qed.

Lemma eligible_cancel c c1 n y : m_priorResponseFailed c1 = Some n -> m_priorResponseClosed c1 = m_priorResponseClosed c ->
  eligible c1 y = (y <=? n) && negb (number_before (m_priorResponseClosed c) y).
Proof. intros H1 H2. unfold eligible. rewrite H1, H2. cbn [number_before]. f_equal. apply eq_true_iff_eq. rewrite negb_true_iff, Nat.ltb_ge, Nat.leb_le. done. Qed.

(** The current request leaves and the one after it becomes the current one. *)
Lemma wake_places_next D c c1 sd rd j m n o : inv D c sd rd j m -> m_currentRequest c = Some n -> follows (m_pendingRequests c) n o -> m_currentRequest c1 = o ->
  m_pendingRequests c1 = erase n (m_pendingRequests c) ->
  match m_currentRequest c1 with
  | Some k => k ∈ m_pendingRequests c1 /\ forall x, x ∈ m_pendingRequests c1 -> sd x = Queued -> k <= x
  | None => forall x, x ∈ m_pendingRequests c1 -> sd x <> Queued
  end /\ (forall x, x ∈ m_pendingRequests c1 -> sd x <> Queued -> place c x = place c1 x /\ place c x <> Gt) /\
  (forall k, o = Some k -> sd k = Queued).
Proof.
  intros I Hn Ho Hc Hq. rewrite Hc, Hq. assert (Hpos : forall x, x ∈ m_pendingRequests c -> sd x = Queued <-> n < x) by (intros x; by apply (queue_position D c sd rd j m)). split_and!.
  - destruct o as [k |].
    + destruct Ho as (Hk & Hlt & Hmin). split; [apply elem_erase; split; [done | lia] |]. intros x [Hx _]%elem_erase Hs. apply Hmin; [done | by apply Hpos].
    + intros x [Hx _]%elem_erase Hs%Hpos; [| done]. specialize (Ho x Hx). lia.
  - intros x [Hx Hxn]%elem_erase Hs. rewrite Hpos in Hs by done. assert (Hlt : x < n) by lia. unfold place. rewrite Hn, Hc, (proj2 (Nat.compare_lt_iff x n) Hlt). split; [| done].
    destruct o as [k |]; [| done]. destruct Ho as (_ & ? & _). symmetry. apply Nat.compare_lt_iff. lia.
  - intros k ->. destruct Ho as (Hk & Hlt & _). by apply Hpos.
Qed.

(** The invariant after a section that gave a request up, its events still to be delivered. *)
Definition after_cancel (D : bool) (n : nat) (c : ClientConnection) (sd : nat -> sending) (rd : nat -> reading) (j m : nat) : Prop :=
  inv D c (dropped n (sd_after (m_events c) sd)) (rd_after (m_events c) rd) j m.

Lemma dropped_other n sd x : x <> n -> dropped n sd x = sd x.
Proof. intros Hx. unfold dropped. case_bool_decide; [by rewrite fn_lookup_insert_ne | done]. Qed.

Lemma dropped_after n l sd x : dropped n (sd_after l sd) x = sd_after l (dropped n sd) x.
Proof.
  destruct (decide (x = n)) as [-> | Hx].
  - unfold dropped. case_bool_decide as H; case_bool_decide as H'; rewrite ?fn_lookup_insert; unfold sd_after in *; rewrite ?fn_lookup_insert; try done.
    + by rewrite bool_decide_false, andb_false_r.
    + revert H. repeat case_match; done.
    + rewrite H', bool_decide_false, andb_false_r in H by done. done.
  - rewrite dropped_other by done. unfold sd_after. by rewrite dropped_other.
Qed.

Lemma cancelling c c1 sd rd j m n r (removed : bool) : inv false c sd rd j m -> n ∈ m_pendingRequests c -> in_turn n c = true ->
  (sd n = Sent /\ m_currentRequest c1 = m_currentRequest c \/ sd n = Writing /\ removed = true /\ follows (m_pendingRequests c) n (m_currentRequest c1)) ->
  m_requests c1 n = r -> (forall x, x <> n -> m_requests c1 x = m_requests c x) ->
  m_pendingRequests c1 = (if removed then erase n (m_pendingRequests c) else m_pendingRequests c) ->
  m_priorResponseFailed c1 = Some n -> m_priorResponseClosed c1 = m_priorResponseClosed c ->
  (forall x, x <> n -> inw c1 x = inw c x) -> (forall x, x <> n -> scheduled (m_events c1) x = false) ->
  m_requestCount c1 = m_requestCount c -> m_timerManager c1 = m_timerManager c -> m_idle c1 = m_idle c ->
  request_ok false (failed c) r (dropped n sd n) (rd_after (m_events c1) rd n) (negb removed) (inw c1 n) (place c n) (eligible c n) true (n <=? j) (n <=? m) = true ->
  (removed = false -> m_responseState r = m_responseState (m_requests c n) /\ eligible c n = true) ->
  exists c2 c3, scheduleAllWaitingRequests c1 = Ok c2 /\ scheduleAllWaitingResponses c2 = Ok c3 /\ after_cancel false n c3 sd rd j m /\
    (begun (m_responseState r) = true -> m_requests c3 n = r).
Proof.
  intros I Hnq Hturn Hcase Hn Hx Hq Hpf Hpc Hw Hev Hct Htm Hid Hok Hkept.
  set (sd1 := dropped n sd). set (rd1 := rd_after (m_events c1) rd).
  assert (Hsd : forall x, x <> n -> sd1 x = sd x) by (intros x Hxn; by apply dropped_other).
  assert (Hnq1 : sd1 n <> Queued) by (unfold sd1, dropped; destruct Hcase as [[Hs _] | [Hs _]]; rewrite Hs; [rewrite bool_decide_false by done; congruence | rewrite bool_decide_true, fn_lookup_insert by done; done]).
  assert (Hin : forall x, x ∈ m_pendingRequests c1 <-> x ∈ m_pendingRequests c /\ (x = n -> removed = false)) by (intros x; rewrite Hq; destruct removed; [rewrite elem_erase |]; intuition congruence).
  assert (Hel : forall y, eligible c1 y = (y <=? n) && negb (number_before (m_priorResponseClosed c) y)) by (intros y; by apply eligible_cancel).
  assert (Hdown : forall y, y ∈ m_pendingRequests c1 -> eligible c1 y = true -> eligible c y = true).
  { intros y Hy He. rewrite Hel in He. bools. apply Nat.leb_le in H. apply Hin in Hy as [Hy Hyn]. destruct (decide (y = n)) as [-> | Hne]; [by apply Hkept, Hyn |].
    unfold in_turn in Hturn. rewrite forallb_forall in Hturn. specialize (Hturn y (proj1 (list_elem_of_In _ _) Hy)). unfold eligible. rewrite H0.
    rewrite (proj2 (Nat.leb_gt n y)) in Hturn by lia. cbn in Hturn. rewrite H0, orb_false_r in Hturn. by rewrite Hturn. }
  assert (Hplaces : match m_currentRequest c1 with
      | Some k => k ∈ m_pendingRequests c1 /\ forall x, x ∈ m_pendingRequests c1 -> sd1 x = Queued -> k <= x
      | None => forall x, x ∈ m_pendingRequests c1 -> sd1 x <> Queued end /\
    (forall x, x ∈ m_pendingRequests c1 -> sd1 x <> Queued -> place c x = place c1 x /\ place c x <> Gt) /\
    (forall k, m_currentRequest c1 = Some k -> sd1 k <> Queued -> m_currentRequest c = Some k)).
  { assert (Hqd : forall x, sd1 x = Queued <-> sd x = Queued).
    { intros x. destruct (decide (x = n)) as [-> | Hxn]; [| by rewrite Hsd]. split; [done |]. destruct Hcase as [[Hs _] | [Hs _]]; by rewrite Hs. }
    destruct Hcase as [[Hs Hc] | (Hs & Hrm & Ho)].
    - destruct (wake_places _ _ c1 _ _ _ _ I Hc) as [H1 H2].
      + intros x Hxq. apply Hin in Hxq. apply Hxq.
      + intros k Hk. apply Hin. split; [by apply (inv_current _ _ _ _ _ _ I) |]. intros ->. by destruct (sent_not_current _ _ _ _ _ _ _ I Hs).
      + split_and!; [| intros x Hxq; rewrite Hqd; by apply H2 | intros k Hk _; congruence]. destruct (m_currentRequest c1); [split; [apply H1 |] |]; intros x Hxq; rewrite Hqd; by apply H1.
    - destruct (sending_current I n ltac:(auto)) as (Hcn & _). rewrite Hrm in Hq. destruct (wake_places_next _ _ c1 _ _ _ _ _ _ I Hcn Ho eq_refl Hq) as (H1 & H2 & H3).
      split_and!; [| intros x Hxq; rewrite Hqd; by apply H2 | intros k Hk Hks; destruct Hks; apply Hqd; by apply H3].
      destruct (m_currentRequest c1); [split; [apply H1 |] |]; intros x Hxq; rewrite Hqd; by apply H1. }
  destruct Hplaces as (Hcur & Hplace & Hcur1).
  destruct (wake_all c c1 sd sd1 rd rd1 j m (place c) I) as (c2 & c3 & l & H1 & H2 & H3 & H4 & H5); try done.
  - intros x. assert (Hbx : born c1 x = born c x) by (unfold born; by rewrite Hct). rewrite Hbx. destruct (decide (x = n)) as [-> | Hxn].
    + rewrite Hn. assert (Hqn : inq c1 n = negb removed) by (apply eq_true_iff_eq; rewrite inq_true, Hin, negb_true_iff; intuition). rewrite Hqn.
      rewrite (proj2 (born_true c n)) by (by apply (queue_born I)). exact Hok.
    + rewrite Hx, Hsd, Hw by done. assert (Hrd : rd1 x = rd x) by (unfold rd1, rd_after; by rewrite Hev). rewrite Hrd.
      assert (Hqx : inq c1 x = inq c x) by (apply eq_true_iff_eq; rewrite !inq_true, Hin; tauto). rewrite Hqx. apply (inv_ok _ _ _ _ _ _ I).
  - rewrite Hq. destruct removed; [apply queue_sorted_filter |]; apply I.
  - by rewrite Hpf.
  - intros x Hxq Hb. rewrite Hel. apply Hin in Hxq as [Hxq Hxr].
    assert (Hbx : begun (m_responseState (m_requests c x)) = true) by (destruct (decide (x = n)) as [-> | Hxn]; [destruct (Hkept (Hxr eq_refl)) as [<- _]; by rewrite Hn in Hb | by rewrite Hx in Hb]).
    pose proof (inv_front _ _ _ _ _ _ I x n Hxq Hbx Hnq) as Hle. rewrite (proj2 (Nat.leb_le x n) Hle). cbn.
    pose proof (queued_response I x Hxq) as Hr. unfold response_case in Hr.
    assert (Hex : eligible c x = true) by (destruct (m_responseState (m_requests c x)); try done; first [tauto | by destruct Hr as [[=] _]]). unfold eligible in Hex. bools. by rewrite H0.
  - intros x Hxq. apply Hin in Hxq. apply Hxq.
  - intros x Hxq. left. apply Hin in Hxq as [_ Hxr]. destruct (decide (x = n)) as [-> | Hxn]; [rewrite Hn; by apply Hkept, Hxr | by rewrite Hx].
  - intros x y Hy Hey. split; [by apply Hdown |]. intros Hxq Hxy. apply Hin. split; [done |]. intros ->. rewrite Hel in Hey. bools. apply Nat.leb_le in H. assert (y = n) as -> by lia. apply Hin in Hy. by apply Hy.
  - intros x Hxd Hxe. destruct (decide (x = n)) as [-> | Hxn]; [right | left].
    + intros y _ Hy. rewrite Hel in Hy. bools. by apply Nat.leb_le.
    + rewrite Hx in Hxe by done. unfold rd1, rd_after in Hxd. by rewrite Hev in Hxd.
  - intros x Hxq Hxw Hxe. rewrite Hel in Hxe. bools. apply Nat.leb_le in H. apply Hin in Hxq as [Hxq Hxr].
    assert (Hxw' : m_responseState (m_requests c x) = WAITING) by (destruct (decide (x = n)) as [-> | Hxn]; [destruct (Hkept (Hxr eq_refl)) as [<- _]; by rewrite Hn in Hxw | by rewrite Hx in Hxw]).
    destruct (inv_waits _ _ _ _ _ _ I x Hxq Hxw') as (k & Hk & Hlt). exists k. split; [apply Hin; split; [done | lia] | done].
  - exists c2, c3. split; [done |]. split; [done |]. split.
    + unfold after_cancel. eapply inv_equiv; [exact H4 | done | |]; intros x.
      * rewrite dropped_after, H3, sd_after_app. unfold sd_after. fold sd1. destruct (decide (x = n)) as [-> | Hxn].
        -- rewrite (bool_decide_false (sd1 n = Queued)), !andb_false_r by done. rewrite (bool_decide_false (sd1 n = Queued)), andb_false_r by done. done.
        -- by rewrite (Hev x Hxn).
      * rewrite H3. apply rd_after_app.
    + intros Hb. rewrite <- Hn. apply H5. by rewrite Hn.
Qed.

Section Cancel.
Context {c : ClientConnection} {sd : nat -> sending} {rd : nat -> reading} {j m : nat} {n : nat} (I : inv false c sd rd j m) (He : m_events c = []) (Hturn : in_turn n c = true).

(** What the rest of [cancel] comes to, from a connection whose queue has been dealt with. *)
Definition cancels_well (c1 : ClientConnection) (r : ClientRequest) : Prop :=
  exists c2 c3, scheduleAllWaitingRequests c1 = Ok c2 /\ scheduleAllWaitingResponses c2 = Ok c3 /\ after_cancel false n c3 sd rd j m /\ (begun (m_responseState r) = true -> m_requests c3 n = r).

Lemma cancel_writing failure o : sd n = Writing -> follows (m_pendingRequests c) n o -> failure = ERROR \/ failure = CANCELED ->
  let c1 := set_current o (set_pending (erase n (m_pendingRequests c)) (set_request n (set_responseState failure) (set_request n (set_requestState failure) (set_responseFailed (Some n) c)))) in
  m_responseState (m_requests c n) = PENDING /\ cancels_well c1 (set_responseState failure (set_requestState failure (m_requests c n))).
Proof using I He Hturn.
  intros Hs Ho Hf c1. destruct (sending_current I n ltac:(auto)) as (Hc & Hq & Hst & Hj & Hr).
  assert (Hp : m_responseState (m_requests c n) = PENDING /\ rd n = Idle /\ inw c n = false).
  { unfold response_ok in Hr. destruct (m_responseState (m_requests c n)); bools; try done; naive_solver. }
  destruct Hp as (Hp & Hd & Hw). split; [done |].
  eapply (cancelling c c1 sd rd j m n _ true I Hq Hturn); try done.
  - right. done.
  - cbn. by rewrite !fn_lookup_insert.
  - intros x Hx. cbn. by rewrite !fn_lookup_insert_ne.
  - intros x Hx. cbn. by rewrite He.
  - unfold dropped. rewrite bool_decide_true, fn_lookup_insert by done. cbn [m_events c1 set_current set_pending set_request set_responseFailed]. rewrite He. unfold rd_after. cbn [scheduled existsb andb].
    rewrite Hd. change (inw c1 n) with (inw c n). rewrite Hw. cbn [request_ok m_requestState m_responseState set_responseState set_requestState]. destruct Hf as [-> | ->]; done.
Qed.

Lemma cancel_sent failure : sd n = Sent -> n ∈ m_pendingRequests c -> failure = ERROR \/ failure = CANCELED ->
  let c0 := set_pending (erase n (m_pendingRequests c)) (set_request n (set_responseState failure) (set_responseFailed (Some n) c)) in
  let waiting := is_state (m_responseState (m_requests c n)) WAITING in
  let c1 := if waiting then schedule n (set_waiting (erase n (m_waitingResponses c0)) c0) else c0 in
  let r := if waiting then set_fiber false (set_responseState failure (m_requests c n)) else set_responseState failure (m_requests c n) in
  cancels_well c1 r.
Proof using I He Hturn.
  intros Hs Hq Hf c0 waiting c1 r. destruct (turn_response I n ltac:(by rewrite Hs)) as [Hj Hr]. rewrite Hs in Hr.
  assert (Hcm : completed (m_requestState (m_requests c n)) = true) by (rewrite (sent_completed _ _ _ _ _ _ _ I Hq); by rewrite Hs).
  eapply (cancelling c c1 sd rd j m n r true I Hq Hturn); try (unfold c1; by destruct waiting).
  - left. split; [done |]. unfold c1. by destruct waiting.
  - unfold c1, r. destruct waiting; cbn; by rewrite !fn_lookup_insert.
  - intros x Hx. unfold c1. destruct waiting; cbn; by rewrite !fn_lookup_insert_ne.
  - intros x Hx. unfold c1. destruct waiting; [| done]. rewrite (inw_erased c _ n x) by done. by apply other_true.
  - intros x Hx. unfold c1. destruct waiting; cbn; rewrite He; [| done]. cbn. rewrite orb_false_r. apply Nat.eqb_neq. congruence.
  - unfold dropped. rewrite bool_decide_false by congruence. rewrite Hs. pose proof (inv_ok _ _ _ _ _ _ I n) as H. unfold ok_at in H. rewrite Hs in H.
    assert (Hrq : m_requestState r = m_requestState (m_requests c n)) by (unfold r; by destruct waiting).
    assert (Hrr : m_responseState r = failure) by (unfold r; by destruct waiting).
    assert (Hb : born c n = true) by (apply born_true; by apply (queue_born I)). rewrite Hb in H.
    eapply request_ok_change; [| exact H | exact Hrq | | done | done]; [done |].
    assert (Hwn : inw c1 n = false).
    { unfold c1. destruct waiting eqn:Hwt; [rewrite (inw_erased c _ n n) by done; apply same_false |]. change (inw c n = false). unfold waiting, is_state in Hwt. apply bool_decide_eq_false in Hwt.
      unfold response_ok in Hr. destruct (m_responseState (m_requests c n)); bools; done. }
    assert (Hrd : rd_after (m_events c1) rd n <> Waiting).
    { unfold c1. destruct waiting eqn:Hwt; cbn; rewrite He; unfold rd_after; cbn.
      - rewrite Nat.eqb_refl. cbn. case_bool_decide; done.
      - unfold waiting, is_state in Hwt. apply bool_decide_eq_false in Hwt. intros Hrd. rewrite Hrd in Hr. unfold response_ok in Hr. destruct (m_responseState (m_requests c n)); bools; try done. naive_solver. }
    unfold response_ok. rewrite Hrr, Hwn. destruct Hf as [-> | ->]; cbn; rewrite !andb_true_r; apply negb_true_iff; by apply bool_decide_eq_false.
Qed.

Lemma cancel_keeps : sd n = Sent -> m_responseState (m_requests c n) = HEADERS -> n ∈ m_pendingRequests c -> cancels_well (set_responseFailed (Some n) c) (m_requests c n).
Proof using I He Hturn.
  intros Hs Hh Hq. pose proof (queued_response I n Hq) as Hr. unfold response_case in Hr. rewrite Hh in Hr. destruct Hr as [Hel _].
  eapply (cancelling c _ sd rd j m n _ false I Hq Hturn); try done.
  - by left.
  - intros x Hx. cbn. by rewrite He.
  - unfold dropped. rewrite bool_decide_false by congruence. cbn [m_events set_responseFailed]. rewrite He. pose proof (inv_ok _ _ _ _ _ _ I n) as H. unfold ok_at in H.
    rewrite (proj2 (inq_true c n) Hq) in H. rewrite (proj2 (born_true c n)) in H by (by apply (queue_born I)). exact H.
Qed.
End Cancel.

Lemma after_cancel_raise D n c sd rd j m l : (forall x, scheduled l x = false) -> after_cancel D n c sd rd j m -> after_cancel D n (raise l c) sd rd j m.
Proof.
  intros Hl I. unfold after_cancel in *. assert (He : forall x, scheduled (m_events (raise l c)) x = scheduled (m_events c) x) by (intros x; by apply scheduled_silent).
  eapply inv_equiv; [exact I | by split | |]; intros x; [rewrite !dropped_after |]; unfold sd_after, rd_after; by rewrite He.
Qed.

Lemma client_cancel_ok D c sd rd j m n abort error : inv D c sd rd j m -> sd n = Writing \/ sd n = Sent -> may_cancel D n c = true -> m_events c = [] ->
  exists c', cancel n abort error c = Ok c' /\ after_cancel D n c' sd rd j m /\
    (abort = true -> completed (m_requestState (m_requests c' n)) = true /\ completed (m_responseState (m_requests c' n)) = true).
Proof.
  intros I Hs Hmay He. unfold cancel. destruct (completed (m_requestState (m_requests c n)) && completed (m_responseState (m_requests c n))) eqn:Hdone.
  { eexists. split; [done |]. bools. split; [| done]. unfold after_cancel. rewrite He. destruct (completed_gone _ _ _ _ _ _ _ I H H0) as (_ & _ & Hnw).
    eapply inv_equiv; [exact I | done | | done]. intros x. unfold dropped. rewrite sd_after_nil, bool_decide_false by done. done. }
  unfold may_cancel in Hmay. rewrite Hdone in Hmay. cbn in Hmay. bools. subst D. rename H0 into Hturn.
  set (failure := if error then ERROR else CANCELED). assert (Hf : failure = ERROR \/ failure = CANCELED) by (unfold failure; destruct error; auto).
  assert (Hfin : forall c1 r l, (forall x, scheduled l x = false) -> cancels_well (sd := sd) (rd := rd) (j := j) (m := m) (n := n) c1 r ->
    (abort = true -> begun (m_responseState r) = true /\ completed (m_requestState r) = true /\ completed (m_responseState r) = true) ->
    exists c', (c ← scheduleAllWaitingRequests c1; c ← scheduleAllWaitingResponses c; Ok (raise l c)) = Ok c' /\ after_cancel false n c' sd rd j m /\
      (abort = true -> completed (m_requestState (m_requests c' n)) = true /\ completed (m_responseState (m_requests c' n)) = true)).
  { intros c1 r l Hl (c2 & c3 & H1 & H2 & H3 & H4) Hab. rewrite H1. step. rewrite H2. step. eexists. split; [reflexivity |]. split; [by apply after_cancel_raise |].
    intros Ha. destruct (Hab Ha) as (Hb & Hc1 & Hc2). cbn. by rewrite (H4 Hb). }
  assert (Hlast : forall b x, scheduled ((if b : bool then [CancelRead] else []) ++ [CancelWrite]) x = false) by (by intros []).
  destruct Hs as [Hs | Hs].
  - destruct (sending_current I n ltac:(auto)) as (Hc & Hq & Hst & _). destruct (next_follows _ n (inv_sorted _ _ _ _ _ _ I) Hq) as (o & Hnext & Ho).
    destruct (cancel_writing I He Hturn failure o Hs Ho Hf) as [Hp Hw]. rewrite Hp.
    replace (is_state (m_requestState (m_requests c n)) WAITING) with false by (destruct Hst as [-> | ->]; done). rewrite andb_false_r. cbn [andb].
    rewrite (client_invariant_ok I). step. replace (completed (m_requestState (m_requests c n))) with false by (destruct Hst as [-> | ->]; done).
    replace (abort || negb (is_state PENDING HEADERS)) with true by (by rewrite orb_true_r). cbn [negb andb completed].
    rewrite ASSERT_true by (by apply mem_true). unfold erase_at. cbn [m_pendingRequests set_request set_responseFailed]. rewrite Hnext. step.
    rewrite bool_decide_true by exact Hc. cbn [is_state bool_decide]. change (is_state PENDING WAITING) with false. cbn [mbind result_bind].
    eapply Hfin; [apply Hlast | exact Hw |]. intros _. destruct Hf as [-> | ->]; done.
  - assert (Hcm : completed (m_requestState (m_requests c n)) = true).
    { pose proof (inv_ok _ _ _ _ _ _ I n) as Hok. unfold ok_at in Hok. rewrite Hs in Hok. cbn [request_ok] in Hok. bools. done. }
    rewrite Hcm in Hdone |- *. cbn [andb] in Hdone.
    assert (Hq : n ∈ m_pendingRequests c).
    { destruct (turn_response I n ltac:(by rewrite Hs)) as [_ Hr]. unfold response_ok in Hr. apply inq_true. destruct (m_responseState (m_requests c n)); try done; bools; done. }
    replace (is_state (m_requestState (m_requests c n)) WAITING) with false by (by destruct (m_requestState (m_requests c n))). rewrite andb_false_r. cbn [andb].
    rewrite (client_invariant_ok I). step. rewrite Hdone. cbn [negb andb]. destruct (next_follows _ n (inv_sorted _ _ _ _ _ _ I) Hq) as (o & Hnext & Ho).
    pose proof (sent_not_current _ _ _ _ _ _ _ I Hs) as Hcur. destruct (abort || negb (is_state (m_responseState (m_requests c n)) HEADERS)) eqn:Hab.
    + pose proof (cancel_sent I He Hturn failure Hs Hq Hf) as Hw. cbv zeta in Hw.
      rewrite ASSERT_true by (by apply mem_true). unfold erase_at. cbn [m_pendingRequests set_request set_responseFailed]. rewrite Hnext. step.
      rewrite bool_decide_false by exact Hcur. destruct (is_state (m_responseState (m_requests c n)) WAITING) eqn:Hwt.
      * apply is_state_true in Hwt. pose proof (queued_response I n Hq) as Hr. unfold response_case in Hr. rewrite Hwt in Hr. destruct Hr as (_ & _ & Hin & _).
        rewrite ASSERT_true by exact Hin. step. eapply Hfin; [apply Hlast | exact Hw |]. intros _. cbn. rewrite Hcm. destruct Hf as [-> | ->]; done.
      * step. eapply Hfin; [apply Hlast | exact Hw |]. intros _. cbn. rewrite Hcm. destruct Hf as [-> | ->]; done.
    + apply orb_false_iff in Hab as [-> Hh]. apply negb_false_iff, is_state_true in Hh. rewrite ASSERT_true by (by apply mem_true). rewrite bool_decide_false by exact Hcur. rewrite Hh. step.
      eapply Hfin; [apply Hlast | by apply cancel_keeps | done].
Qed.

Lemma ClientRequest_destroy_ok D c sd rd j m n : inv D c sd rd j m -> sd n = Writing \/ sd n = Sent -> may_cancel D n c = true -> m_events c = [] ->
  exists c', ClientRequest_destroy n c = Ok c' /\ after_cancel D n c' sd rd j m.
Proof.
  intros I Hs Hm He. unfold ClientRequest_destroy. destruct (client_cancel_ok _ _ _ _ _ _ _ true false I Hs Hm He) as (c' & -> & I' & Hd). step. destruct (Hd eq_refl) as [H1 H2].
  destruct (completed_gone _ _ _ _ _ _ _ I' H1 H2) as (Hq & Hw & _). rewrite !ASSERT_true by (by apply negb_true_iff, mem_false). by exists c'.
Qed.
