(* ===== verification/ClientProps.v ===== *)
(** The theorems about the requests of a client's connection. *)

From Stdlib Require Import String Sorted.
From stdpp Require Import functions numbers list_numbers list.
From S2P Require Import Prelude Http Connection ConnectionProps ServerResponse ClientHeaders Client ClientWorld ClientInv ClientSteps ClientSending ClientReading ClientFailing.

#[local] Open Scope nat_scope.

(** ** Every step keeps the invariant *)

Definition whole (D : bool) (w : world) : Prop := world_ok D w /\ m_events (w_conn w) = [].

Section Settle.
Context {D : bool} {w : world} (W : whole D w).

Lemma whole_inv : inv D (w_conn w) (w_sending w) (w_reading w) (length (w_sent w)) (length (w_read w)).
Proof using W. apply W. Qed.

Lemma whole_settle c : let w' := settle c w in
  w_sent w' = w_sent w /\ w_read w' = w_read w /\ w_conn w' = clear_events c /\
  (forall n, w_sending w' n = sd_after (m_events c) (w_sending w) n) /\ (forall n, w_reading w' n = rd_after (m_events c) (w_reading w) n).
Proof using W.
  intros w'. destruct (settle_ok D c w (queued_not_waiting whole_inv)) as (H1 & H2 & H3 & H4 & H5 & _). done.
Qed.

(** A world in which nothing has begun to be sent or read, from what is known of the connection and the fibers. *)
Lemma whole_same c w' sd rd :
  w_conn w' = clear_events c -> w_sent w' = w_sent w -> w_read w' = w_read w -> (forall n, w_sending w' n = sd n) -> (forall n, w_reading w' n = rd n) ->
  inv D c sd rd (length (w_sent w)) (length (w_read w)) -> whole D w'.
Proof using W.
  intros Hc H1 H2 H3 H4 I. split; [| by rewrite Hc]. split; [| rewrite H1, H2; apply W]. rewrite H1, H2. eapply inv_equiv; [exact I | rewrite Hc; by split | done | done].
Qed.

Lemma settle_section c : after_section D c (w_sending w) (w_reading w) (length (w_sent w)) (length (w_read w)) -> whole D (settle c w).
Proof using W. intros I. destruct (whole_settle c) as (H1 & H2 & H3 & H4 & H5). by eapply whole_same. Qed.

Lemma settle_sends c n s : after_sending D n s c (w_sending w) (w_reading w) (length (w_sent w)) (length (w_read w)) -> whole D (sends n s (settle c w)).
Proof using W. intros I. destruct (whole_settle c) as (H1 & H2 & H3 & H4 & H5). eapply whole_same; [exact H3 | done | done | | exact H5 | exact I]. intros x. cbn. by apply insert_pointwise. Qed.

Lemma settle_reads c n d : after_reading D n d c (w_sending w) (w_reading w) (length (w_sent w)) (length (w_read w)) -> whole D (reads n d (settle c w)).
Proof using W. intros I. destruct (whole_settle c) as (H1 & H2 & H3 & H4 & H5). eapply whole_same; [exact H3 | done | done | exact H4 | | exact I]. intros x. cbn. by apply insert_pointwise. Qed.

Lemma settle_cancel c n : after_cancel D n c (w_sending w) (w_reading w) (length (w_sent w)) (length (w_read w)) -> whole D (abandon n (settle c w)).
Proof using W.
  intros I. destruct (whole_settle c) as (H1 & H2 & H3 & H4 & H5). unfold abandon. eapply whole_same; [| | | | | exact I]; try (case_bool_decide; done).
  intros x. unfold dropped. rewrite <- H4. case_bool_decide; [| apply H4]. cbn. by apply insert_pointwise.
Qed.

(** The connection raised nothing. *)
Lemma settle_quiet c n s : (forall x, scheduled (m_events c) x = scheduled (m_events (w_conn w)) x) ->
  w_conn (settle c w) = clear_events c /\ w_sent (settle c w) = w_sent w /\ w_read (settle c w) = w_read w /\
  (forall x, <[n := s]> (w_sending (settle c w)) x = <[n := s]> (w_sending w) x) /\
  (forall x, w_sending (settle c w) x = w_sending w x) /\ (forall x, w_reading (settle c w) x = w_reading w x).
Proof using W.
  intros He. destruct (whole_settle c) as (H1 & H2 & H3 & H4 & H5). destruct W as [_ Hev]. rewrite Hev in He.
  assert (H4' : forall x, w_sending (settle c w) x = w_sending w x) by (intros x; rewrite H4; by apply sd_after_none).
  split_and!; try done; [intros x; by apply insert_pointwise |]. intros x. rewrite H5. by apply rd_after_none.
Qed.

Lemma settle_begins_sending c n : (forall x, scheduled (m_events c) x = scheduled (m_events (w_conn w)) x) -> n = S (length (w_sent w)) ->
  inv D c (<[n := Writing]> (w_sending w)) (w_reading w) n (length (w_read w)) -> whole D (begins_sending n (settle c w)).
Proof using W.
  intros He Hn I. destruct (settle_quiet c n Writing He) as (H1 & H2 & H3 & H4 & _ & H5). split; [| cbn; by rewrite H1]. unfold world_ok. cbn. rewrite H1, H2, H3, length_app. cbn.
  rewrite Nat.add_1_r, <- Hn. destruct W as [(_ & Hs & Hr) _]. split_and!; [eapply inv_equiv; [exact I | by split | exact H4 | exact H5] | | done]. rewrite Hn, seq_S. f_equal. exact Hs.
Qed.

Lemma settle_begins_reading c n : m_events c = m_events (w_conn w) -> n = S (length (w_read w)) ->
  inv D c (w_sending w) (<[n := Reading]> (w_reading w)) (length (w_sent w)) n -> whole D (begins_reading n (settle c w)).
Proof using W.
  intros He Hn I. destruct (settle_quiet c n Writing) as (H1 & H2 & H3 & _ & H4 & H5); [intros x; by rewrite He |]. split; [| cbn; by rewrite H1]. unfold world_ok. cbn. rewrite H1, H2, H3, length_app. cbn.
  rewrite Nat.add_1_r, <- Hn. destruct W as [(_ & Hs & Hr) _]. split_and!; [eapply inv_equiv; [exact I | by split | exact H4 | intros x; by apply insert_pointwise] | done |].
  rewrite Hn, seq_S. f_equal. exact Hr.
Qed.

Lemma settle_ensured c n o : w_reading w n = Idle \/ o <> Ready -> m_events c = m_events (w_conn w) ->
  after_ensured D n o (w_conn w) c (w_sending w) (w_reading w) (length (w_sent w)) (length (w_read w)) -> whole D (after_ensure n o (settle c w)).
Proof using W.
  intros Hd He I. destruct (settle_quiet c n Writing) as (H1 & H2 & H3 & _ & H4 & H5); [intros x; by rewrite He |].
  destruct o; cbn [after_ensured after_ensure] in *.
  - subst c. eapply whole_same; [exact H1 | done | done | exact H4 | exact H5 | apply whole_inv].
  - destruct I as [Hn I]. by apply settle_begins_reading.
  - eapply whole_same; [exact H1 | done | done | exact H4 | intros x; cbn; by apply insert_pointwise | exact I].
  - eapply whole_same; [exact H1 | done | done | exact H4 | intros x; cbn; by apply insert_pointwise | exact I].
Qed.
End Settle.

Ltac enabled_case := repeat match goal with
  | H : bool_decide _ = true |- _ => apply bool_decide_eq_true in H
  | H : (_ || _)%bool = true |- _ => apply orb_true_iff in H
  | H : (_ && _)%bool = true |- _ => apply andb_true_iff in H as [? ?]
  | H : is_state _ _ = true |- _ => apply is_state_true in H
  end.

(** When flushing a request fails, the mutex is always unlocked twice, or an assertion has failed before that. *)
Lemma failing_flush_unlocks_twice n c c' : scheduleNextRequest_fails n c <> Ok c'.
Proof. unfold scheduleNextRequest_fails. by destruct (requestFailed n c). Qed.

(** A response that was looked at: a tunnel ends the connection. *)
Lemma ensureResponse_headers_ok D c sd rd j m n method response half : inv D c sd rd j m -> rd n = Reading -> m_events c = [] ->
  negb D || keeps_open method response = true -> ended_early (m_responseState (m_requests c n)) || (match check_response method response with Ok _ => true | Err _ => false end) = true ->
  exists c', ensureResponse_headers method response half n c = Ok c' /\ after_reading D n Idle c' sd rd j m.
Proof.
  intros I Hd He Ho Hh. unfold ensureResponse_headers. unfold keeps_open in Ho.
  destruct (reading_state _ _ _ _ _ _ _ I Hd) as [Hs | [Hend ->]].
  - rewrite Hs in *. rewrite ASSERT_true by done. cbn [ended_early orb] in *. destruct (check_response method response) as [[g close hasBody connect | e] |] eqn:E; [| | done]; step.
    + apply ensureResponse_read_ok; try done; [by intros ->; destruct close | by apply check_response_codings in E as [_ E]].
    + destruct D; [done |]. by apply ensureResponse_fails_ok.
  - rewrite Hend, ASSERT_true by apply orb_true_r. by apply ensureResponse_fails_ok.
Qed.

Ltac enabled_cases := repeat match goal with H : _ \/ _ |- _ => destruct H; enabled_case end.

Lemma perform_ok D a half w : whole D w -> enabled D a w = true -> headers_pass a w = true -> flush_fails a = false -> exists w', perform a half w = Ok w' /\ whole D w'.
Proof.
  intros W E Hh Hf. pose proof (whole_inv W) as I. assert (He : m_events (w_conn w) = []) by apply W.
  destruct a as [| n | n | n | n | n | n | n closes | n | n | n | n method response | n | n | n abort error | n | us dg]; apply andb_true_iff in E as [E Hor]; cbn [possible orderly perform] in *; enabled_case.
  - destruct (waitForRequest1_ok _ _ _ _ _ _ I) as (o & c' & -> & Hs & Ho). step. eexists. split; [reflexivity |]. destruct o as [n | n | e]; cbn [after_request].
    + destruct Ho as [Hn Ho]. by apply (settle_begins_sending W).
    + destruct (settle_quiet W c' n Queued Hs) as (H1 & H2 & H3 & H4 & _ & H5). by eapply (whole_same W).
    + subst c'. destruct (settle_quiet W (w_conn w) 0 Queued Hs) as (H1 & H2 & H3 & _ & H4 & H5). by eapply (whole_same W).
  - destruct (waitForRequest2_ok _ _ _ _ _ _ _ I E) as (o & c' & -> & Hev & Ho). step. eexists. split; [reflexivity |].
    assert (Hs : forall x, scheduled (m_events c') x = scheduled (m_events (w_conn w)) x) by (intros x; by rewrite Hev). destruct o as [e |].
    + destruct (settle_quiet W c' n Dropped Hs) as (H1 & H2 & H3 & H4 & _ & H5). by eapply (whole_same W).
    + destruct Ho as [Hn Ho]. by apply (settle_begins_sending W).
  - cbn [headers_pass] in Hh. unfold doRequest_headers. destruct (prepare_request request) as [[r close] |]; [| done]. step.
    assert (Hc : exists c', (if close then doRequest_close (w_conn w) else Ok (w_conn w)) = Ok c' /\ m_events c' = m_events (w_conn w) /\
      inv D c' (w_sending w) (w_reading w) (length (w_sent w)) (length (w_read w))) by (destruct close; [rewrite (proj1 (doRequest_close_ok _ _ _ _ _ _ I)) |]; eexists; split_and!; try done; by apply doRequest_close_ok).
    destruct Hc as (c' & -> & Hev & I'). step. eexists. split; [reflexivity |].
    destruct (settle_quiet W c' n Queued) as (H1 & H2 & H3 & _ & H4 & H5); [intros x; by rewrite Hev |]. by eapply (whole_same W).
  - eexists. split; [reflexivity |]. destruct (settle_quiet W (set_request n (set_requestState BODY) (w_conn w)) n Queued) as (H1 & H2 & H3 & _ & H4 & H5); [done |].
    eapply (whole_same W); [exact H1 | done | done | | exact H5 | eapply (writing_ok _ _ _ _ _ _ n Writing (set_requestState BODY (m_requests (w_conn w) n)) I); auto].
    intros x. rewrite H4. destruct (decide (x = n)) as [-> | Hx]; [by rewrite fn_lookup_insert | by rewrite fn_lookup_insert_ne].
  - destruct (scheduleNextRequest1_ok _ _ _ _ _ _ _ I E He) as (b & c' & -> & H). step. eexists. split; [reflexivity |]. by apply (settle_sends W).
  - destruct (requestFailed_ok _ _ _ _ _ _ _ I E He) as (o & c' & -> & H). step. eexists. split; [reflexivity |]. by apply (settle_sends W).
  - destruct (scheduleNextRequest2_ok _ _ _ _ _ _ _ I E He) as (b & c' & -> & H). step. eexists. split; [reflexivity |]. by apply (settle_sends W).
  - destruct (scheduleNextRequest3_ok _ _ _ _ _ _ _ closes half I E He) as (c' & -> & H). step. eexists. split; [reflexivity |]. by apply (settle_sends W).
  - done.
  - assert (Ht : w_sending w n = Sent \/ D = true /\ had_turn (w_sending w n) = true).
    { destruct Hor as [Hs | ->]; enabled_case; [by left | right]. split; [done |]. enabled_cases; by match goal with H : w_sending w n = _ |- _ => rewrite H end. }
    destruct (ensureResponse1_ok I Ht H) as (o & c' & -> & Hev & Ho). step. eexists. split; [reflexivity |]. apply (settle_ensured W); auto.
  - destruct (ensureResponse2_ok _ _ _ _ _ _ _ I E) as (o & c' & Hr & Hev & Ho). rewrite Hr. step. eexists. split; [reflexivity |]. apply (settle_ensured W); [| done | done].
    right. intros ->. unfold ensureResponse2 in Hr. rewrite (client_invariant_ok I) in Hr. cbn in Hr. destruct (m_responseState _) in Hr; try discriminate;
      repeat (destruct (front_is n (w_conn w)); cbn in Hr; try discriminate).
  - destruct (ensureResponse_headers_ok D _ _ _ _ _ n method response half I) as (c' & -> & H'); try done; [by apply orb_true_iff |]. step. eexists. split; [reflexivity |]. by apply (settle_reads W).
  - destruct D; [done |]. destruct (ensureResponse_fails_ok _ _ _ _ _ _ I E He) as (c' & -> & H'). step. eexists. split; [reflexivity |]. by apply (settle_reads W).
  - destruct (responseDone_ok _ _ _ _ _ _ _ half I H0 He) as (c' & -> & H'). step. eexists. split; [reflexivity |]. by apply (settle_section W).
  - assert (Hs : w_sending w n = Writing \/ w_sending w n = Sent) by (enabled_cases; auto). destruct (client_cancel_ok _ _ _ _ _ _ _ abort error I Hs H0 He) as (c' & -> & H' & _). step. eexists. split; [reflexivity |]. by apply (settle_cancel W).
  - assert (Hs : w_sending w n = Writing \/ w_sending w n = Sent) by (enabled_cases; auto). destruct (ClientRequest_destroy_ok _ _ _ _ _ _ n I Hs H0 He) as (c' & -> & H'). step. eexists. split; [reflexivity |]. by apply (settle_cancel W).
  - assert (Hu : m_timerManager (w_conn w) && dg || negb us = true) by (destruct E as [E | E]; enabled_case; apply orb_true_iff; [left; apply andb_true_iff; done | by right]).
    destruct (idleTimeout_ok _ _ _ _ _ _ _ _ I Hu) as (c' & -> & Hev & I'). step. eexists. split; [reflexivity |].
    destruct (settle_quiet W c' 0 Queued) as (H1 & H2 & H3 & _ & H4 & H5); [intros x; by rewrite Hev |]. by eapply (whole_same W).
Qed.

(** What does not pass ends in a failing assertion. *)
Lemma perform_whole D a half w w' : whole D w -> enabled D a w = true -> perform a half w = Ok w' -> whole D w'.
Proof.
  intros W He Hp. destruct (flush_fails a) eqn:Hf.
  { destruct a; try done. cbn [perform] in Hp. destruct (scheduleNextRequest_fails n (w_conn w)) eqn:E; [by apply failing_flush_unlocks_twice in E | done]. }
  destruct (headers_pass a w) eqn:Hh; [destruct (perform_ok D a half w W He Hh Hf) as (w'' & E & H); congruence |].
  destruct a as [| | n request | | | | | | | | | n method response | | | | |]; try done; cbn [perform headers_pass] in *.
  - unfold doRequest_headers in Hp. by destruct (prepare_request request).
  - unfold ensureResponse_headers in Hp. apply orb_false_iff in Hh as [Hn Hc]. rewrite Hn in Hp. destruct (check_response method response); [done |]. by destruct (is_state _ _ || false).
Qed.

Lemma whole_new D tm : whole D (world_new tm).
Proof.
  split; [| done]. split; [| done]. split; try done; cbn; try lia; try constructor.
  - intros n. unfold ok_at, inq, inw, born. cbn. rewrite (proj2 (mem_false n [])) by apply not_elem_of_nil. by destruct n.
  - by intros n x ?%not_elem_of_nil.
Qed.

Lemma client_reachable_whole D tm w : reachable D tm w -> whole D w.
Proof. induction 1 as [| w w' a half Hw IH He Hp]; [apply whole_new |]. by eapply perform_whole. Qed.

Lemma waiting_case D c sd rd j m n : inv D c sd rd j m -> rd n = Waiting ->
  m_responseState (m_requests c n) = WAITING /\ n ∈ m_pendingRequests c /\ eligible c n = true.
Proof.
  intros I Hd. destruct (turn_response I n (reading_turn I n ltac:(by rewrite Hd))) as [_ Hr]. unfold response_ok in Hr. rewrite Hd in Hr.
  destruct (m_responseState (m_requests c n)); bools; try done; [| naive_solver]. split_and!; try done. by apply inq_true.
Qed.

(** ** The theorems *)

(** C17 -- A client's connection that is used in an orderly way fails none of the assertions of its invariant and of its critical sections, uses no iterator whose element is gone and unlocks no mutex twice,
    whatever its fibers do and in whichever order (requests pipelined, responses awaited, read, failing or ending the connection, requests whose writing fails, that are cancelled or destroyed): every action that a fiber can take
    succeeds, and leads to a state from which the same holds.  Two exceptions are hypotheses: a flush that fails, which always unlocks the mutex twice ([failing_flush_unlocks_twice]); and headers that do
    not pass, those of a request the assertions of [doRequest], those of a response the loop that removes [identity] from the transfer codings.  Orderly ([orderly]) means one of two ways.  Either responses may be asked for before their requests are
    sent, and then no response ends the connection, fails or is cancelled; or every response is asked for when its request has been sent, and a request is cancelled or destroyed before it is complete only when
    no request before it has failed because of another one.  In both a request is not cancelled by another fiber while it is being sent, and a fiber that waits runs only when it is scheduled.  Otherwise assertions fail, see
    [cancel_out_of_turn_asserts], [closing_before_sent_asserts], [closing_while_flushing_unlocks_twice] and [cancel_while_writing_asserts]. *)
Theorem client_no_assertion D tm w a half : reachable D tm w -> enabled D a w = true -> headers_pass a w = true -> flush_fails a = false ->
  exists w', perform a half w = Ok w' /\ reachable D tm w'.
Proof.
  intros Hw He Hh Hf. destruct (perform_ok D a half w (client_reachable_whole _ _ _ Hw) He Hh Hf) as (w' & Hp & _). exists w'. split; [done |]. by eapply reachable_step.
Qed.


(** C18 -- On a connection that is used in an orderly way nobody waits in vain: a fiber that waits to send its request is behind a current request that is being sent or has been scheduled, and nothing has failed; a fiber that waits for its response is
    behind the front of the queue, whose response has not been read to its end or whose request is still being sent, and neither a failure nor the end of the connection came before its own request.
    This is for the orderly runs that C17 describes ([enabled], either way): responses are asked for before their requests are sent only if no response ends the connection, fails or is cancelled; requests are cancelled only while none before
    them has failed because of another, and not by another fiber while they are being sent.  Otherwise a request behind a failed one may be made to wait, see [cancel_out_of_turn_waits].  A flush that fails ends a run, in undefined behaviour. *)
Theorem client_no_lost_turn D tm w n : reachable D tm w -> let c := w_conn w in
  (w_sending w n = Queued -> failed c = false /\ exists k, m_currentRequest c = Some k /\ k < n /\
     (w_sending w k = Scheduled \/ w_sending w k = Writing \/ w_sending w k = Yielding \/ w_sending w k = Flushing)) /\
  (w_reading w n = Waiting -> eligible c n = true /\ exists k, head (m_pendingRequests c) = Some k /\ k < n /\
     (completed (m_responseState (m_requests c k)) = false \/ completed (m_requestState (m_requests c k)) = false) /\ w_reading w k <> Waiting).
Proof.
  intros Hw c. apply client_reachable_whole in Hw. pose proof (whole_inv Hw) as I. fold c in I. pose proof (inv_ok _ _ _ _ _ _ I n) as Hn. unfold ok_at in Hn. split.
  - intros Hq. rewrite Hq in Hn. cbn [request_ok] in Hn. bools. split; [done |]. pose proof (place_spec c n) as Hp. destruct (place c n); try done. destruct Hp as (k & Hk & Hlt). exists k. split_and!; try done.
    destruct (inv_current _ _ _ _ _ _ I k Hk) as [Hkq _]. destruct (queued_request I k Hkq) as [_ H']. unfold queue_case, place in H'. rewrite Hk, Nat.compare_refl in H'. apply H'.
  - intros Hd. destruct (waiting_case _ _ _ _ _ _ _ I Hd) as (Hst & Hq & Hel). split; [done |]. destruct (inv_waits _ _ _ _ _ _ I n Hq Hst) as (x & Hx & Hxn).
    destruct (head (m_pendingRequests c)) as [k |] eqn:Hk; [| by destruct (m_pendingRequests c); [apply not_elem_of_nil in Hq |]].
    exists k. apply (sorted_head _ k (inv_sorted _ _ _ _ _ _ I)) in Hk as [Hkq Hmin]. specialize (Hmin x Hx) as Hkx. split_and!; [done | lia | |].
    + pose proof (queued_response I k Hkq) as Hrk. unfold response_case in Hrk. destruct (m_responseState (m_requests c k)); try done; try (by left). right. apply Hrk.
    + intros Hdk. destruct (waiting_case _ _ _ _ _ _ _ I Hdk) as (Hsk & _). destruct (inv_waits _ _ _ _ _ _ I k Hkq Hsk) as (y & Hy & Hyk). specialize (Hmin y Hy). lia.
Qed.

(** ** Runs *)

Fixpoint play (D : bool) (l : list action) (w : world) : result world :=
  match l with
  | [] => Ok w
  | a :: l => if enabled D a w then w' ← perform a false w; play D l w' else Err Undefined
  end.

Definition played (D tm : bool) (l : list action) : world := match play D l (world_new tm) with Ok w => w | Err _ => world_new tm end.

Lemma client_played_reachable D tm l : reachable D tm (played D tm l).
Proof.
  unfold played. assert (Hp : forall w, reachable D tm w -> forall w', play D l w = Ok w' -> reachable D tm w').
  { induction l as [| a l IH]; cbn [play]; [by intros w Hw w' [= <-] |]. intros w Hw w' E. destruct (enabled D a w) eqn:He; [| done].
    destruct (perform a false w) as [w1 |] eqn:Ew; [| done]. cbn [mbind result_bind] in E. by eapply (IH w1); [eapply reachable_step |]. }
  destruct (play D l (world_new tm)) eqn:E; [by eapply Hp; [apply reachable_new |] | apply reachable_new].
Qed.

(** Two requests, of which the first has been sent and whose response is being read; the second has its turn to be sent, and the third waits for its own. *)
Definition two_sent : list action := [Request; Request; RequestEnds 1; ResumeRequest 2; EnsureResponse 1; RequestEnds 2; Yielded 2; Flushed 2 false].

Lemma client_no_assertion_witness : exists w', perform (Cancel 1 true true) false (played false true two_sent) = Ok w' /\ reachable false true w'.
Proof. apply (client_no_assertion false true (played false true two_sent) (Cancel 1 true true) false); [apply client_played_reachable | vm_compute; reflexivity | reflexivity | reflexivity]. Defined.


Lemma client_no_lost_turn_witness : exists k, head (m_pendingRequests (w_conn (played false true (two_sent ++ [EnsureResponse 2])))) = Some k /\ k < 2.
Proof.
  destruct (client_no_lost_turn false true (played false true (two_sent ++ [EnsureResponse 2])) 2 (client_played_reachable _ _ _)) as [_ H].
  destruct H as (_ & k & Hk & Hlt & _); [vm_compute; reflexivity | by exists k].
Defined.

(** ** Where the code goes wrong

    Runs that do not keep to [enabled]. *)

Fixpoint run (l : list action) (w : world) : result world :=
  match l with [] => Ok w | a :: l => w' ← perform a false w; run l w' end.

(** A response after which the connection ends. *)
Definition ending (contentLength : Z) : Response :=
  mkResponse (mkStatusLine 200 [] HTTP11) (add_connection (str "close") no_general) (mkResponseHeaders [] (mkETag false true []) no_uri [] (inl None) [] []) (no_entity contentLength).

Definition three_sent : list action := [Request; Request; Request; RequestEnds 1; ResumeRequest 2; RequestEnds 2; ResumeRequest 3].

(** [cancel] sets [m_priorResponseFailed] to its own request even when an earlier one had failed: after the first request and then the third are cancelled, the second one is read a response, the
    first that comes, which is the one of the first request. *)
Lemma cancel_out_of_turn_misreads : exists w, run (three_sent ++ [Cancel 1 true false; Cancel 3 true false; EnsureResponse 2]) (world_new false) = Ok w /\ w_sent w = [1; 2; 3] /\ w_read w = [2].
Proof. eexists. split; [vm_compute; reflexivity |]. split; vm_compute; reflexivity. Qed.

(** And a request behind one that failed is made to wait: the third, for the second to be read, although the first was cancelled before. *)
Lemma cancel_out_of_turn_waits : exists w,
  run (three_sent ++ [RequestEnds 3; Yielded 3; Flushed 3 false; Request; Cancel 1 true false; Cancel 4 true false; EnsureResponse 2; EnsureResponse 3]) (world_new false) = Ok w /\ w_read w = [2] /\ w_reading w 3 = Waiting.
Proof. eexists. split; [vm_compute; reflexivity |]. split; vm_compute; reflexivity. Qed.

(** For the same reason the invariant of the sources itself, that the numbers in the list follow each other up to the first that failed, is lost. *)
Lemma cancel_out_of_turn_asserts : exists w,
  run [Request; Request; Request; Request; RequestEnds 1; ResumeRequest 2; RequestEnds 2; ResumeRequest 3; RequestEnds 3; ResumeRequest 4; Cancel 2 true false; Cancel 4 true false] (world_new false) = Ok w /\
  m_pendingRequests (w_conn w) = [1; 3] /\ invariant (w_conn w) = Err Assertion.
Proof. eexists. split; [vm_compute; reflexivity |]. split; vm_compute; reflexivity. Qed.

(** A response that ends the connection while the next request is still being sent and its response is asked for already: when writing that request fails, an assertion does. *)
Lemma closing_before_sent_asserts :
  run [Request; Request; RequestEnds 1; EnsureResponse 1; ResumeRequest 2; ResponseHeaders 1 GET (ending npos); EnsureResponse 2; WriteFails 2] (world_new false) = Err Assertion.
Proof. vm_compute. reflexivity. Qed.

(** A response that ends the connection while its request is flushed: the mutex is unlocked twice. *)
Lemma closing_while_flushing_unlocks_twice :
  run [Request; RequestEnds 1; Yielded 1; EnsureResponse 1; ResponseHeaders 1 GET (ending 0); Flushed 1 false] (world_new false) = Err Undefined.
Proof. vm_compute. reflexivity. Qed.

(** A request is cancelled while its fiber writes it: the write fails, and then an assertion about the state of the request does. *)
Lemma cancel_while_writing_asserts : run [Request; Cancel 1 true false; WriteFails 1] (world_new false) = Err Assertion.
Proof. vm_compute. reflexivity. Qed.
