(* ===== verification/HttpNames.v ===== *)
(** Names in headers: [stricmp] is a total order on texts up to case, and a [StringSet] is a list that is sorted by it and has no two names that differ in case only. *)

From Stdlib Require Import String Sorted Relations RelationClasses.
From stdpp Require Import numbers list_numbers list.
From S2P Require Import Prelude Http Connection.

Lemma tolower_zero c : tolower c = 0 <-> c = 0.
Proof. unfold tolower. destruct (Z.leb_spec 65 c), (Z.leb_spec c 90); cbn; lia. Qed.

(** The first character in lower case, or the zero after the end. *)
Definition initial (a : text) : Z := match a with c :: _ => tolower c | [] => 0 end.

(** One step of [stricmp]; a text ends where its initial is zero. *)
Lemma stricmp_step a b : stricmp a b = if initial a =? initial b then if initial a =? 0 then 0 else stricmp (tail a) (tail b) else initial a - initial b.
Proof.
  destruct a as [| c a], b as [| d b]; cbn [stricmp initial tail]; try (destruct (_ =? _) eqn:E; cbn [negb]; [| done]); try done.
  destruct (Z.eqb_spec c 0) as [-> | Hc]; [done |]. pose proof (tolower_zero c) as H. destruct (Z.eqb_spec (tolower c) 0) as [H0 | H0]; [| done]. destruct Hc. by apply H.
Qed.

(** The induction that follows [stricmp]: on the length of the first text. *)
Lemma stricmp_ind (P : text -> text -> Prop) :
  (forall a b, (initial a = initial b -> initial a <> 0 -> P (tail a) (tail b)) -> P a b) -> forall a b, P a b.
Proof.
  intros H a. induction a as [| c a IH]; intros b; apply H; cbn [initial tail]; [done |]. intros _ _. apply IH.
Qed.

Ltac compare_cases := repeat match goal with |- context [?x =? ?y] => destruct (Z.eqb_spec x y) end.

Lemma stricmp_sym a b : Z.sgn (stricmp b a) = - Z.sgn (stricmp a b).
Proof.
  revert a b. apply stricmp_ind. intros a b IH. rewrite (stricmp_step a b), (stricmp_step b a). compare_cases; try lia; try congruence.
Qed.

(** Comparing with [b] is comparing with anything that is equal to it, and less is transitive. *)
Lemma stricmp_trans a b c : stricmp a b <= 0 -> stricmp b c <= 0 -> stricmp a c <= 0 /\ (stricmp a b < 0 \/ stricmp b c < 0 -> stricmp a c < 0).
Proof.
  revert a b c. assert (H : forall a b c, stricmp a b <= 0 -> stricmp b c <= 0 -> stricmp a c <= 0 /\ (stricmp a b < 0 \/ stricmp b c < 0 -> stricmp a c < 0)); [| exact H].
  intros a b. revert a b. apply (stricmp_ind (fun a b => forall c, stricmp a b <= 0 -> stricmp b c <= 0 -> stricmp a c <= 0 /\ (stricmp a b < 0 \/ stricmp b c < 0 -> stricmp a c < 0))).
  intros a b IH c. rewrite (stricmp_step a b), (stricmp_step b c), (stricmp_step a c). compare_cases; try lia; try congruence. apply IH; congruence.
Qed.

Lemma same_text_refl a : same_text a a = true.
Proof. unfold same_text. pose proof (stricmp_sym a a). apply Z.eqb_eq. lia. Qed.

Lemma same_text_sym a b : same_text a b = same_text b a.
Proof. unfold same_text. pose proof (stricmp_sym a b). apply eq_true_iff_eq. rewrite !Z.eqb_eq. lia. Qed.

Lemma same_text_trans a b c : same_text a b = true -> same_text a c = same_text b c.
Proof.
  unfold same_text. rewrite Z.eqb_eq. intros H. apply eq_true_iff_eq. rewrite !Z.eqb_eq. pose proof (stricmp_sym a b). pose proof (stricmp_sym a c). pose proof (stricmp_sym b c).
  pose proof (stricmp_trans a b c). pose proof (stricmp_trans b a c). pose proof (stricmp_trans c a b). pose proof (stricmp_trans c b a). lia.
Qed.

#[export] Instance caseinsensitiveless_trans : Transitive (fun a b => caseinsensitiveless a b = true).
Proof. intros a b c. unfold caseinsensitiveless. rewrite !Z.ltb_lt. intros H1 H2. apply (stricmp_trans a b c); lia. Qed.

(** ** Sets of names *)

(** What a [StringSet] is. *)
Definition name_set (l : list text) : Prop := StronglySorted (fun a b => caseinsensitiveless a b = true) l.

Lemma insert_name_elem x name l : x ∈ insert_name name l -> x = name \/ x ∈ l.
Proof.
  induction l as [| y l IH]; cbn [insert_name]; [rewrite list_elem_of_singleton; auto |]. destruct (caseinsensitiveless y name); [| destruct (same_text y name)]; rewrite ?elem_of_cons; [| tauto | tauto].
  intros [-> | H]; [tauto |]. destruct (IH H); tauto.
Qed.

Lemma not_less_nor_same a b : caseinsensitiveless a b = false -> same_text a b = false -> caseinsensitiveless b a = true.
Proof. unfold caseinsensitiveless, same_text. rewrite Z.ltb_ge, Z.eqb_neq, Z.ltb_lt. pose proof (stricmp_sym a b). lia. Qed.

Lemma insert_name_set name l : name_set l -> name_set (insert_name name l).
Proof.
  unfold name_set. induction 1 as [| x l Hl IH Hx]; cbn [insert_name]; [repeat constructor |]. destruct (caseinsensitiveless x name) eqn:E1; [| destruct (same_text x name) eqn:E2; [by constructor |]].
  - constructor; [done |]. rewrite Forall_forall in *. intros y [-> | Hy]%insert_name_elem; [done | by apply Hx].
  - constructor; [by constructor |]. pose proof (not_less_nor_same _ _ E1 E2) as E. constructor; [done |]. rewrite Forall_forall in *. intros y Hy. apply (caseinsensitiveless_trans name x y); [done | by apply Hx].
Qed.

Lemma has_name_inserted z name l : has_name z (insert_name name l) = same_text name z || has_name z l.
Proof.
  unfold has_name. induction l as [| x l IH]; cbn [insert_name existsb]; [done |]. destruct (caseinsensitiveless x name); [cbn [existsb]; rewrite IH; by destruct (same_text x z), (same_text name z) |].
  destruct (same_text x name) eqn:E; [| done]. cbn [existsb]. rewrite (same_text_trans _ _ z E). by destruct (same_text name z).
Qed.
