(* ===== verification/ClientHeadersProps.v ===== *)
(** The headers of a client and of a server together: the server takes what the client prepares, the client takes what the server prepares, both know whether the connection ends, and bodies
    arrive. *)

From Stdlib Require Import String.
From stdpp Require Import numbers list_numbers list.
From S2P Require Import Prelude Stream StreamFilters StreamMemory StreamBuffered Chunked ChunkedProps Notify Http Connection ConnectionProps ServerResponse ServerResponseProps ClientHeaders HttpNames.

(** ** Codings *)

Lemma known_coding_cases v : known_coding v = true -> same_text (vp_value v) (str "identity") = false /\ same_text (vp_value v) (str "chunked") = false /\ supported_coding v = true.
Proof.
  unfold known_coding, supported_coding. rewrite !andb_true_iff, !orb_true_iff, !bool_decide_eq_true. intros [_ [[-> | ->] | ->]]; vm_compute; tauto.
Qed.

Lemma remove_identity_none first l : Forall (fun v => same_text (vp_value v) (str "identity") = false) l -> remove_identity first l = Ok l.
Proof. intros H. revert first. induction H as [| v l Hv _ IH]; intros first; cbn [remove_identity]; [done |]. rewrite Hv, IH. done. Qed.

Lemma response_codings_known l v : forallb known_coding l = true -> response_codings (l ++ [v]) = true.
Proof.
  induction l as [| x l IH]; cbn [forallb app response_codings]; [done |]. intros [Hx Hl]%andb_true_iff. destruct (known_coding_cases x Hx) as (_ & -> & ->).
  rewrite (IH Hl). by destruct (l ++ [v]) eqn:E; [destruct l |].
Qed.

Lemma check_codings_known l v : forallb known_coding l = true -> check_codings (l ++ [v]) = None.
Proof.
  induction l as [| x l IH]; cbn [forallb app check_codings]; [done |]. intros [Hx Hl]%andb_true_iff. destruct (known_coding_cases x Hx) as (_ & -> & ->).
  rewrite (IH Hl). by destruct (l ++ [v]) eqn:E; [destruct l |].
Qed.

Lemma chunked_last_cases l : chunked_last l = true -> l = [] \/ exists pre v, l = pre ++ [v] /\ same_text (vp_value v) (str "chunked") = true /\ forallb known_coding pre = true.
Proof.
  unfold chunked_last. destruct l as [| v pre _] using rev_ind; [by left |]. rewrite last_snoc, removelast_last. intros [Hv Hp]%andb_true_iff. right. by exists pre, v.
Qed.

(** What the assertions about codings are good for. *)
Lemma chunked_last_spec l : chunked_last l = true ->
  remove_identity true l = Ok l /\ known_response_codings l = true /\ ((forall v, last l = Some v -> vp_parameters v = []) -> check_transferEncoding l = None).
Proof.
  intros H. destruct (chunked_last_cases l H) as [-> | (pre & v & -> & Hv & Hp)]; [done |].
  assert (Hi : Forall (fun v => same_text (vp_value v) (str "identity") = false) (pre ++ [v])).
  { apply Forall_app. split; [| constructor; [| constructor]].
    - apply Forall_forall. intros x Hx%list_elem_of_In. rewrite forallb_forall in Hp. by apply known_coding_cases, Hp.
    - rewrite (same_text_trans _ _ _ Hv). done. }
  split_and!; [by apply remove_identity_none | unfold known_response_codings; by rewrite last_snoc, Hv, response_codings_known |].
  intros Hn. unfold check_transferEncoding. rewrite last_snoc, Hv. cbn [negb]. rewrite (Hn v) by apply last_snoc. cbn. by apply check_codings_known.
Qed.

Lemma set_same_codings g : set_transferEncoding (gh_transferEncoding g) g = g.
Proof. by destruct g. Qed.

Lemma version_known v : Version_eq v HTTP10 || Version_eq v HTTP11 = true -> v = HTTP10 \/ v = HTTP11.
Proof. destruct v as [a b]. unfold Version_eq. cbn. rewrite orb_true_iff, !andb_true_iff, !Z.eqb_eq. intros [[-> ->] | [-> ->]]; auto. Qed.

Lemma version_cases v : Version_eq v HTTP10 = true /\ v = HTTP10 \/ Version_eq v HTTP10 = false /\ v <> HTTP10.
Proof.
  destruct v as [a b]. unfold Version_eq. cbn. destruct (Z.eqb_spec a 1) as [-> |], (Z.eqb_spec b 0) as [-> |]; cbn; [by left | right | right | right]; split; try done; unfold HTTP10; congruence.
Qed.

(** ** Requests *)

Ltac asserts E := repeat (match type of E with (ASSERT ?b ≫= _) = _ => destruct b eqn:?; [| done]; cbn [ASSERT mbind result_bind] in E end).

Lemma has_name_added z name g : has_name z (gh_connection (add_connection name g)) = same_text name z || has_name z (gh_connection g).
Proof. apply has_name_inserted. Qed.

Lemma request_connection_spec old g : let names := gh_connection g in let '(g', close) := request_connection old g in
  gh_transferEncoding g' = gh_transferEncoding g /\
  close = (if old then negb (has_name (str "Keep-Alive") names) && has_name (str "close") names else has_name (str "close") names) /\
  has_name (str "Keep-Alive") (gh_connection g') = has_name (str "Keep-Alive") names || (old && negb (has_name (str "close") names)) /\
  has_name (str "close") (gh_connection g') = has_name (str "close") names.
Proof.
  unfold request_connection. assert (Hk : same_text (str "Keep-Alive") (str "Keep-Alive") = true) by apply same_text_refl.
  destruct old, (has_name (str "close") (gh_connection g)) eqn:Ec, (has_name (str "Keep-Alive") (gh_connection g)) eqn:Ek; cbn [negb andb orb];
    rewrite ?has_name_added, ?Hk, ?Ek, ?Ec; cbn [negb andb orb]; rewrite ?has_name_added, ?Hk, ?Ek, ?Ec; done.
Qed.

(** The headers that [doRequest] writes: the version, what is in [Connection] and whether the client says that it ends the connection. *)
Lemma prepare_request_inv r r' close : prepare_request r = Ok (r', close) ->
  let ver := rl_ver (req_line r') in let names := gh_connection (req_general r) in
  (ver = HTTP10 \/ ver = HTTP11 /\ rq_host (req_request r) <> []) /\ chunked_last (gh_transferEncoding (req_general r)) = true /\
  gh_transferEncoding (req_general r') = gh_transferEncoding (req_general r) /\ req_request r' = req_request r /\ req_entity r' = req_entity r /\
  rl_method (req_line r') = rl_method (req_line r) /\
  close = (if Version_eq ver HTTP10 then negb (has_name (str "Keep-Alive") names) && has_name (str "close") names else has_name (str "close") names) /\
  has_name (str "Keep-Alive") (gh_connection (req_general r')) = has_name (str "Keep-Alive") names || (Version_eq ver HTTP10 && negb (has_name (str "close") names)) /\
  has_name (str "close") (gh_connection (req_general r')) = has_name (str "close") names.
Proof.
  unfold prepare_request. intros E. asserts E. set (ver := if Version_eq (rl_ver (req_line r)) Version_unknown then _ else _) in E.
  pose proof (request_connection_spec (Version_eq ver HTTP10) (req_general r)) as Hc. destruct (request_connection _ _) as [g c]. injection E as <- <-. destruct Hc as (H1 & H2 & H3 & H4).
  cbn [req_line req_general req_request req_entity rl_ver rl_method]. split.
  { rewrite !orb_true_iff in Heqb. unfold ver. destruct (Version_eq (rl_ver (req_line r)) Version_unknown) eqn:Eu; [case_bool_decide; auto |].
    destruct (version_cases (rl_ver (req_line r))) as [[_ ->] | [Ev _]]; [by left |]. rewrite Ev in Heqb. right.
    destruct Heqb as [[|] | E]; try done. assert (Hv : rl_ver (req_line r) = HTTP11).
    { destruct (rl_ver (req_line r)) as [a b]. unfold Version_eq in E. cbn in E. apply andb_true_iff in E as [->%Z.eqb_eq ->%Z.eqb_eq]. done. }
    rewrite Hv in Heqb1 |- *. split; [done |]. by case_bool_decide. }
  split_and!; try done; destruct (present (rq_te (req_request r))); rewrite ?has_name_added; done.
Qed.

(** What a client prepares, a server takes: a request whose headers [doRequest] has completed passes all the checks of the server, when its expectations are fulfilled and [chunked] has no parameters;
    the transfer codings that the server sees are those of the request; and when the client takes the connection to end after the request, so does the server, and the other way round unless the
    request is one of HTTP/1.0 that asks for both. *)
Theorem request_understood r r' close : prepare_request r = Ok (r', close) ->
  (forall v, last (gh_transferEncoding (req_general r)) = Some v -> vp_parameters v = []) -> check_expect (hasRequestBody r) (rq_expect (req_request r)) = None ->
  exists g willClose, check_request r' = Ok (Accepted g willClose) /\ gh_transferEncoding g = gh_transferEncoding (req_general r) /\ (close = true -> willClose = true) /\
    (rl_ver (req_line r') = HTTP11 \/ has_name (str "close") (gh_connection (req_general r)) && has_name (str "Keep-Alive") (gh_connection (req_general r)) = false -> willClose = close).
Proof.
  intros E Hn He. apply prepare_request_inv in E as (Hv & Hl & Ht & Hq & Hent & Hm & Hc & Hk & Hcl). destruct (chunked_last_spec _ Hl) as (Hi & _ & Hok). specialize (Hok Hn).
  unfold check_request. rewrite Ht, Hi, Hq, Hent, Hm, Hk, Hcl. cbn [mbind result_bind]. rewrite Hok. set (names := gh_connection (req_general r)) in *.
  assert (Hb : forall g, gh_transferEncoding g = gh_transferEncoding (req_general r) -> hasMessageBody g (req_entity r) (rl_method (req_line r)) INVALID false = hasRequestBody r)
    by (intros g Hg; unfold hasRequestBody, hasMessageBody; by rewrite Hg).
  rewrite Hb, He by done. assert (Hver : negb (major (rl_ver (req_line r')) =? 1) = false) by (destruct Hv as [-> | [-> _]]; done). rewrite Hver.
  assert (Hh : Version_ge (rl_ver (req_line r')) (mkVersion 1 1) && bool_decide (rq_host (req_request r) = []) = false) by (destruct Hv as [-> | [-> Hh]]; [done | by rewrite bool_decide_false, andb_false_r]).
  rewrite Hh. eexists _, _. split; [reflexivity |]. split; [by destruct (present _) |]. rewrite Hc. change (mkVersion 1 0) with HTTP10.
  destruct Hv as [-> | [-> _]]; cbn [HTTP10 HTTP11 Version_eq major minor Z.eqb andb]; destruct (has_name (str "close") names), (has_name (str "Keep-Alive") names); cbn; naive_solver.
Qed.

(** ** Responses *)

(** Whether nothing in the headers of a response tells where its body ends. *)
Definition undelimited (r : Response) : bool :=
  (en_contentLength (res_entity r) =? npos) && bool_decide (gh_transferEncoding (res_general r) = []) && negb (bool_decide (mt_type (en_contentType (res_entity r)) = str "multipart")).

(** The headers that [commit] writes. *)
Lemma prepare_response_inv request response willClose response' willClose' : prepare_response request response willClose = Ok (response', willClose') ->
  let ver := sl_ver (res_status response') in let g := res_general response in let g' := res_general response' in
  let chunk := Version_eq ver HTTP11 && acceptable_chunked request in
  (ver = HTTP10 \/ ver = HTTP11) /\ sl_status (res_status response') = sl_status (res_status response) /\ res_entity response' = res_entity response /\
  gh_proxyConnection g' = gh_proxyConnection g /\
  willClose' = willClose || has_name (str "close") (gh_connection g) || (undelimited response && negb chunk) /\
  gh_transferEncoding g' = gh_transferEncoding g ++ (if undelimited response && chunk then [mkValue (str "chunked") []] else []) /\
  gh_connection g' = (if willClose' then insert_name (str "close") (gh_connection g) else if Version_eq ver HTTP10 then insert_name (str "Keep-Alive") (gh_connection g) else gh_connection g).
Proof.
  unfold prepare_response, HTTP10, HTTP11. fold (undelimited response).
  set (wc := willClose || _). set (ver0 := if Version_eq (sl_ver _) Version_unknown then _ else _). set (ver := if Version_eq ver0 Version_unknown then _ else ver0).
  set (un := undelimited response). set (ch := _ && acceptable_chunked request). intros E. asserts E. injection E as <- <-.
  cbn [res_status res_general res_entity set_status set_general sl_ver sl_status]. split; [by apply version_known |]. fold un ch.
  split_and!; try done; destruct un, ch, wc; cbn [andb orb negb]; try (destruct (Version_eq ver (mkVersion 1 0))); rewrite ?app_nil_r; done.
Qed.

Lemma chunked_last_added l (b : bool) : chunked_last l = true -> (b = true -> l = []) -> chunked_last (l ++ if b then [mkValue (str "chunked") []] else []) = true.
Proof. intros Hl Hb. destruct b; [by rewrite (Hb eq_refl) | by rewrite app_nil_r]. Qed.

Lemma undelimited_plain r : undelimited r = true -> gh_transferEncoding (res_general r) = [].
Proof. unfold undelimited. rewrite !andb_true_iff, bool_decide_eq_true. tauto. Qed.

(** What a server prepares, a client takes: a response whose headers [commit] has completed passes all the checks of [ensureResponse], with its headers as they were sent, when its transfer codings are ones the
    server can write; the client takes the connection to end after it exactly when the server does; a body that has neither a length nor a coding ends with the connection.  A tunnel, the header
    [Proxy-Connection] and a response of HTTP/1.0 that asks for both are left out. *)
Theorem response_understood request response willClose response' willClose' method : prepare_response request response willClose = Ok (response', willClose') ->
  chunked_last (gh_transferEncoding (res_general response)) = true -> gh_proxyConnection (res_general response) = [] ->
  (method = CONNECT -> sl_status (res_status response) <> STATUS_OK) ->
  (sl_ver (res_status response') = HTTP10 -> willClose' = true -> has_name (str "Keep-Alive") (gh_connection (res_general response)) = false) ->
  check_response method response' =
    Ok (Understood (res_general response') willClose' (hasMessageBody (res_general response') (res_entity response') method (sl_status (res_status response')) false) false).
Proof.
  intros E Hl Hp Hm Hk. apply prepare_response_inv in E. cbv zeta in E. destruct E as (Hv & Hst & Hen & Hpc & Hwc & Hte & Hcn). set (chunk := _ && acceptable_chunked request) in *.
  assert (Hl' : chunked_last (gh_transferEncoding (res_general response')) = true).
  { rewrite Hte. apply chunked_last_added; [done |]. intros [? _]%andb_true_iff. by apply undelimited_plain. }
  destruct (chunked_last_spec _ Hl') as (Hi & Hknown & _). unfold check_response. rewrite Hi. cbn [mbind result_bind]. rewrite Hknown. cbn [negb]. rewrite set_same_codings.
  assert (Hver : negb (Version_eq (sl_ver (res_status response')) HTTP10 || Version_eq (sl_ver (res_status response')) HTTP11) = false) by (destruct Hv as [-> | ->]; done). rewrite Hver.
  assert (Hco : bool_decide (method = CONNECT) && (sl_status (res_status response') =? STATUS_OK) = false).
  { apply andb_false_iff. case_bool_decide as Hc; [right | by left]. rewrite Hst. by apply Z.eqb_neq, Hm. }
  rewrite Hco, orb_false_r, Hpc, Hp. cbn [has_name existsb negb]. rewrite andb_true_r, orb_false_r. do 2 f_equal.
  set (body := hasMessageBody _ _ _ _ _).
  assert (Hun : willClose' = false -> body && bool_decide (gh_transferEncoding (res_general response') = []) && (en_contentLength (res_entity response') =? npos) &&
    negb (bool_decide (mt_type (en_contentType (res_entity response')) = str "multipart")) = false).
  { rewrite Hwc. intros [_ Hn]%orb_false_iff. rewrite Hte, Hen. destruct (undelimited response) eqn:Eu; cbn [andb] in Hn |- *.
    - apply negb_false_iff in Hn. rewrite Hn. rewrite bool_decide_false by (by destruct (gh_transferEncoding (res_general response))). by rewrite andb_false_r.
    - rewrite app_nil_r. unfold undelimited in Eu. destruct body; [| done]. cbn [andb]. rewrite (andb_comm (bool_decide _)). exact Eu. }
  rewrite Hcn. destruct Hv as [Hv | Hv]; rewrite Hv in *.
  - replace (Version_eq HTTP10 HTTP10) with true by done. destruct willClose'.
    + rewrite has_name_inserted, (Hk eq_refl eq_refl). done.
    + rewrite has_name_inserted, same_text_refl. cbn [orb negb]. by apply Hun.
  - replace (Version_eq HTTP11 HTTP10) with false by done. destruct willClose'; [by rewrite has_name_inserted, same_text_refl |].
    symmetry in Hwc. apply orb_false_iff in Hwc as [[_ ->]%orb_false_iff _]. by apply Hun.
Qed.

(** ** Bodies *)

(** Of the general headers, the streams of a body depend on the transfer codings only. *)
Lemma hasMessageBody_codings g g' e method status empty : gh_transferEncoding g = gh_transferEncoding g' -> hasMessageBody g e method status empty = hasMessageBody g' e method status empty.
Proof. intros H. unfold hasMessageBody. by rewrite H. Qed.

Lemma getStream_codings {P} `{!Stream P} (s : P) g g' e method status eof exception forRead : gh_transferEncoding g = gh_transferEncoding g' ->
  getStream s g e method status eof exception forRead = getStream s g' e method status eof exception forRead.
Proof. intros H. unfold getStream. by rewrite (hasMessageBody_codings g g'), H. Qed.

Lemma hasMessageBody_nonempty g e method status : hasMessageBody g e method status false = true -> hasMessageBody g e method status true = true.
Proof. unfold hasMessageBody. by repeat case_match. Qed.

Lemma check_request_codings q g willClose : check_request q = Ok (Accepted g willClose) -> remove_identity true (gh_transferEncoding (req_general q)) = Ok (gh_transferEncoding g).
Proof.
  unfold check_request. destruct (negb _); [done |]. destruct (_ && _); [done |]. destruct (remove_identity _ _) as [te |]; [| done]. cbn [mbind result_bind].
  destruct (check_transferEncoding te) as [[] |]; [done |]. destruct (check_expect _ _) as [[] |]; [done |]. intros [= <- _]. by destruct (present _).
Qed.

Section Arrives.
Context {W R : Type} `{WholeSink W} `{LineSource R}.
Context (w : W) (r : R) (pieces : list text) (rest : text) (len : Z) (fuel : nat).

(** What the bytes to send and the streams at both ends have to be. *)
Definition ends_ok : Prop :=
  Forall (fun c => 0 < zlen c < 2 ^ 62) pieces /\ ws_ok w /\ zlen (ws w) + zlen (enc pieces) < 2 ^ 62 /\
  ls_ok r /\ supportsRead r = true /\ supportsFind r = true /\ 0 < len < 2 ^ 62 /\ (length (concat pieces) < fuel)%nat.

(** The body that is written according to the headers of the sender is read according to those of the receiver: the same bytes, and none after them. *)
Definition arrives (sender receiver : GeneralHeaders) (e : EntityHeaders) (method : text) (status : Z) : Prop :=
  exists b b' sent, getStream w sender e method status true true false = Ok b /\ write_body pieces b = (Ok tt, b') /\ ws (connection b') = ws w ++ sent /\
    (ls_src r = sent ++ rest ->
     exists c c', getStream r receiver e method status true true true = Ok c /\ read_body fuel len c = (Ok (concat pieces), c') /\ ls_src (connection c') = rest /\ notified c' = [OnEof]).

Lemma framed_arrives sender receiver e method status : ends_ok -> gh_transferEncoding receiver = gh_transferEncoding sender ->
  hasMessageBody sender e method status true = true -> framed sender e pieces (ls_limit r) -> arrives sender receiver e method status.
Proof.
  intros (Hp & Hw & Hl & Hr & Hsr & Hsf & Hlen & Hfuel) Hg Hb Hf. pose proof (zlen_nonneg (ws w)).
  destruct (send_body sender e method status pieces Hb Hp (ls_limit r) w Hf Hw Hl) as (b & b' & E1 & E2 & E3). exists b, b', (on_wire sender pieces). split_and!; auto. intros Hs.
  rewrite (getStream_codings r receiver sender e method status true true true Hg). apply (receive_body sender e method status pieces Hb Hp r rest len fuel); auto. lia.
Qed.

(** C8 -- Bodies arrive from a client at a server and back, by the headers that each of them has completed and checked: the body of a request that the client prepared and the server accepted is read there as it was
    written, piece by piece, when it is chunked or has the length that it says; and so is the body of a response, which may be of any length when the client speaks HTTP/1.1 and does not refuse chunks,
    without the server having set a coding, and after which the stream of the connection is where the next message begins. *)
Theorem bodies_arrive : ends_ok ->
  (forall q q' g close willClose, prepare_request q = Ok (q', close) -> check_request q' = Ok (Accepted g willClose) -> hasRequestBody q = true ->
    gh_transferEncoding (req_general q) = [mkValue (str "chunked") []] /\ 18 <= ls_limit r \/ gh_transferEncoding (req_general q) = [] /\ en_contentLength (req_entity q) = zlen (concat pieces) ->
    arrives (req_general q') g (req_entity q') (rl_method (req_line q')) INVALID) /\
  (forall q a a' g method willClose willClose' close hasBody connect, prepare_response q a willClose = Ok (a', willClose') -> check_response method a' = Ok (Understood g close hasBody connect) ->
    gh_transferEncoding (res_general a) = [] -> hasResponseBody method a' = true ->
    undelimited a = true /\ sl_ver (res_status a') = HTTP11 /\ acceptable_chunked q = true /\ 18 <= ls_limit r \/ en_contentLength (res_entity a) = zlen (concat pieces) ->
    arrives (res_general a') g (res_entity a') method (sl_status (res_status a'))).
Proof using Type.
  intros Hok. assert (Hl : 0 <= zlen (concat pieces) < npos).
  { destruct Hok as (_ & _ & Hl & _). pose proof (enc_length pieces). pose proof (zlen_nonneg (concat pieces)). pose proof (zlen_nonneg (ws w)). unfold npos. lia. }
  split.
  - intros q q' g close willClose Hq Hg Hb Hf. apply prepare_request_inv in Hq as (_ & _ & Hte & _ & Hen & Hm & _). apply check_request_codings in Hg. rewrite Hte in Hg.
    assert (Hg' : gh_transferEncoding g = gh_transferEncoding (req_general q')).
    { rewrite Hte. destruct Hf as [[-> _] | [-> _]] in Hg |- *; vm_compute in Hg |- *; congruence. }
    apply framed_arrives; [done | done | |].
    + rewrite (hasMessageBody_codings _ (req_general q)), Hen, Hm by done. by apply hasMessageBody_nonempty.
    + destruct Hf as [[Hc Hlim] | [Hc Hlen]]; [left; rewrite Hte, Hc; split; [vm_compute; done | done] | right; by rewrite Hte, Hen].
  - intros q a a' g method willClose willClose' close hasBody connect Ha Hg Hno Hb Hf. apply prepare_response_inv in Ha. cbv zeta in Ha. destruct Ha as (_ & _ & Hen & _ & _ & Hte & _).
    rewrite Hno in Hte. apply check_response_codings in Hg as [Hg _].
    assert (Hg' : gh_transferEncoding g = gh_transferEncoding (res_general a')).
    { rewrite Hte in Hg |- *. destruct (_ && _) in Hg |- *; vm_compute in Hg |- *; congruence. }
    apply framed_arrives; [done | done | done |]. destruct Hf as [(Hu & Hv & Hacc & Hlim) | Hlen].
    + left. rewrite Hte, Hu, Hv, Hacc. split; [vm_compute; done | done].
    + right. rewrite Hen. split; [| done]. rewrite Hte. unfold undelimited. rewrite Hlen, (proj2 (Z.eqb_neq _ _)) by lia. done.
Qed.
End Arrives.

(** ** Sets of names stay sets *)

Lemma added_name_set name g : name_set (gh_connection g) -> name_set (gh_connection (add_connection name g)).
Proof. apply insert_name_set. Qed.
#[local] Hint Resolve added_name_set : core.

(** The set of names in [Connection] is kept a [StringSet], sorted without regard to case and with no name twice, by everything that client and server do to the headers of a message: completing a request, checking
    it, completing a response and making it an error response. *)
Theorem connection_names_set q a : name_set (gh_connection (req_general q)) -> name_set (gh_connection (res_general a)) ->
  (forall q' close, prepare_request q = Ok (q', close) -> name_set (gh_connection (req_general q'))) /\
  (forall g willClose, check_request q = Ok (Accepted g willClose) -> name_set (gh_connection g)) /\
  (forall willClose a' willClose', prepare_response q a willClose = Ok (a', willClose') -> name_set (gh_connection (res_general a'))) /\
  (forall status message closeConnection clearETag, name_set (gh_connection (res_general (error_response status message closeConnection clearETag a)))).
Proof.
  intros Hq Ha. split_and!.
  - unfold prepare_request. intros q' close E. asserts E. destruct (request_connection _ _) as [g c] eqn:Eg. injection E as <- <-. cbn [req_general].
    assert (Hg : name_set (gh_connection g)) by (unfold request_connection in Eg; injection Eg as <- _; repeat case_match; auto). destruct (present _); auto.
  - unfold check_request. intros g willClose. destruct (negb _); [done |]. destruct (_ && _); [done |]. destruct (remove_identity _ _) as [te |]; [| done]. cbn [mbind result_bind].
    destruct (check_transferEncoding te) as [[] |]; [done |]. destruct (check_expect _ _) as [[] |]; [done |]. intros [= <- _]. destruct (present _); [apply added_name_set |]; exact Hq.
  - intros willClose a' willClose' E. apply prepare_response_inv in E. cbv zeta in E. destruct E as (_ & _ & _ & _ & _ & _ & ->). repeat case_match; auto using insert_name_set.
  - intros status message [] clearETag; cbn; [by apply insert_name_set | done].
Qed.

(** ** Examples *)

Definition path_uri : URI := mkURI (str "/x") [] false false false false [[]; str "x"].

(** A request with a chunked body, of which the client has said nothing about the version or the connection. *)
Definition upload : Request :=
  mkRequest (mkRequestLine (str "PUT") path_uri Version_unknown) with_chunked (no_request (str "example")) (no_entity npos).

Definition sent_upload : Request := match prepare_request upload with Ok (r, _) => r | Err _ => upload end.
Definition sent_response : Response := match prepare_response sent_upload no_response false with Ok (a, _) => a | Err _ => no_response end.

Lemma request_understood_witness : exists g willClose, check_request sent_upload = Ok (Accepted g willClose) /\ willClose = false.
Proof.
  destruct (request_understood upload sent_upload false) as (g & willClose & H1 & _ & _ & H2);
    [vm_compute; reflexivity | intros v Hv; vm_compute in Hv; by injection Hv as <- | vm_compute; reflexivity |].
  exists g, willClose. split; [exact H1 |]. apply H2. left. vm_compute. reflexivity.
Defined.

(** The response to it, of unknown length: it is chunked, and the connection is kept. *)
Lemma response_understood_witness : exists hasBody, check_response (str "PUT") sent_response = Ok (Understood (res_general sent_response) false hasBody false) /\
  gh_transferEncoding (res_general sent_response) = [mkValue (str "chunked") []].
Proof.
  eexists. split; [| vm_compute; reflexivity].
  apply (response_understood sent_upload no_response false sent_response false (str "PUT")); [vm_compute; reflexivity | vm_compute; reflexivity | reflexivity | discriminate | discriminate].
Defined.

Lemma bodies_arrive_witness :
  arrives (MemoryStream_of []) (BufferedStream_new 18 (MemoryStream_of (enc [[104]; [105; 106]] ++ [33])) true) [[104]; [105; 106]] [33] 2 4
    (res_general sent_response) (res_general sent_response) (res_entity sent_response) (str "PUT") 200.
Proof.
  destruct (bodies_arrive (MemoryStream_of []) (BufferedStream_new 18 (MemoryStream_of (enc [[104]; [105; 106]] ++ [33])) true) [[104]; [105; 106]] [33] 2 4) as [_ H].
  - refine (conj _ (conj _ (conj _ (conj _ (conj _ (conj _ (conj _ _))))))); [repeat (apply Forall_cons; split); try apply Forall_nil; vm_compute; done | repeat split; done | reflexivity | repeat split; done | done | done | lia | cbn; lia].
  - apply (H sent_upload no_response sent_response (res_general sent_response) (str "PUT") false false false true false);
      [vm_compute; reflexivity | vm_compute; reflexivity | reflexivity | vm_compute; reflexivity |].
    left. split_and!; [vm_compute; reflexivity | vm_compute; reflexivity | vm_compute; reflexivity | vm_compute; discriminate].
Defined.

Lemma connection_names_set_witness : name_set (gh_connection (req_general sent_upload)).
Proof.
  refine (proj1 (connection_names_set upload no_response _ _) sent_upload false _); [constructor | constructor | vm_compute; reflexivity].
Defined.

(** ** Where client and server disagree

    In HTTP/1.0 with both [close] and [Keep-Alive], the client goes on to send requests on a connection that the server closes. *)
Lemma keep_and_close_disagree : exists r r' g, gh_connection (req_general r) = [str "close"; str "Keep-Alive"] /\ prepare_request r = Ok (r', false) /\ check_request r' = Ok (Accepted g true).
Proof.
  exists (mkRequest (mkRequestLine GET path_uri HTTP10) (mkGeneral [str "close"; str "Keep-Alive"] None [] [] [] []) (no_request []) (no_entity npos)).
  eexists _, _. split; [reflexivity |]. split; vm_compute; reflexivity.
Qed.
