(* ===== verification/Broker.v ===== *)
(** [ConnectionCache] of [http/broker.h] and [http/broker.cpp]: connections by host, which are shared by the fibers that ask for one.  Each function is a critical section under [m_mutex]; waiting on a
    condition and establishing a connection end one.  A host (scheme and authority of a URI) and a connection are numbers; a [ConnectionInfo] is shared between the table and the fibers that establish a
    connection, so that infos are kept in a heap.  What [newRequestsAllowed] and [outstandingRequests] of the connections say, and the clock, are arguments.  The fibers that use a cache, in any order, are a step relation. *)

From Stdlib Require Import String.
From stdpp Require Import functions numbers list_numbers list gmap.
From S2P Require Import Prelude.

#[local] Open Scope nat_scope.

(** A proxy, by its scheme; [NoProxy] is [URI()]. *)
Inductive proxy := NoProxy | HttpProxy (host : nat) | HttpsProxy (host : nat) | SocksProxy (host : nat) | OtherProxy (host : nat).

(** [connections] with [None] for a connection that is being established, the fibers that wait on [condition], and [lastFailedConnectionTimestamp], which is [~0ull] at first. *)
Record ConnectionInfo := mkInfo { i_connections : list (option nat); i_waiters : list nat; i_lastFailed : option Z }.
Definition ConnectionInfo_new : ConnectionInfo := mkInfo [] [] None.

Record ConnectionCache := mkCache {
  m_infos : nat -> ConnectionInfo;
  m_conns : gmap nat nat;
  m_closed : bool;
  m_connectionsPerHost : nat;
  next_info : nat;
  next_connection : nat;
}.
Definition ConnectionCache_new (connectionsPerHost : nat) : ConnectionCache := mkCache (fun _ => ConnectionInfo_new) ∅ false connectionsPerHost 0 0.

Definition set_info (i : nat) (f : ConnectionInfo -> ConnectionInfo) (s : ConnectionCache) : ConnectionCache :=
  mkCache (<[i := f (m_infos s i)]> (m_infos s)) (m_conns s) (m_closed s) (m_connectionsPerHost s) (next_info s) (next_connection s).
Definition set_conns (m : gmap nat nat) (s : ConnectionCache) : ConnectionCache :=
  mkCache (m_infos s) m (m_closed s) (m_connectionsPerHost s) (next_info s) (next_connection s).
Definition set_closed (s : ConnectionCache) : ConnectionCache :=
  mkCache (m_infos s) (m_conns s) true (m_connectionsPerHost s) (next_info s) (next_connection s).
Definition count_info (s : ConnectionCache) : ConnectionCache :=
  mkCache (m_infos s) (m_conns s) (m_closed s) (m_connectionsPerHost s) (S (next_info s)) (next_connection s).
Definition count_connection (s : ConnectionCache) : ConnectionCache :=
  mkCache (m_infos s) (m_conns s) (m_closed s) (m_connectionsPerHost s) (next_info s) (S (next_connection s)).
Definition set_connections (l : list (option nat)) (x : ConnectionInfo) : ConnectionInfo := mkInfo l (i_waiters x) (i_lastFailed x).
Definition set_waiters (l : list nat) (x : ConnectionInfo) : ConnectionInfo := mkInfo (i_connections x) l (i_lastFailed x).
Definition set_lastFailed (t : Z) (x : ConnectionInfo) : ConnectionInfo := mkInfo (i_connections x) (i_waiters x) (Some t).

(** ** Lists of connections *)

Definition blank (c : option nat) : bool := bool_decide (c = None).

(** The first blank connection is replaced, or erased; [None] when there is none. *)
Fixpoint fill_first (k : nat) (l : list (option nat)) : option (list (option nat)) :=
  match l with
  | [] => None
  | None :: l => Some (Some k :: l)
  | Some c :: l => cons (Some c) <$> fill_first k l
  end.
Fixpoint erase_first (l : list (option nat)) : list (option nat) :=
  match l with
  | [] => []
  | None :: l => l
  | Some c :: l => Some c :: erase_first l
  end.

Definition least (load : nat -> nat) (lhs rhs : option nat) : bool :=
  match lhs, rhs with
  | Some a, Some b => load a <? load b
  | None, _ => false
  | Some _, None => true
  end.

(** [std::min_element] *)
Fixpoint min_element (load : nat -> nat) (best : option nat) (l : list (option nat)) : option nat :=
  match l with
  | [] => best
  | c :: l => min_element load (if least load c best then c else best) l
  end.

(** ** The table *)

(** An entry whose info is changed is erased from the table when no connection is left. *)
Definition edit_entry (f : ConnectionInfo -> ConnectionInfo) (s : ConnectionCache) (entry : nat * nat) : ConnectionCache :=
  let s := set_info entry.2 f s in
  if bool_decide (i_connections (m_infos s entry.2) = []) then set_conns (delete entry.1 (m_conns s)) s else s.

(** The connections that pass a test are kept. *)
Definition keep (test : option nat -> bool) (x : ConnectionInfo) : ConnectionInfo := set_connections (List.filter test (i_connections x)) x.

Definition cleanOutDeadConns (allowed : nat -> bool) (s : ConnectionCache) : ConnectionCache :=
  foldl (edit_entry (keep (fun c => match c with Some k => allowed k | None => true end))) s (map_to_list (m_conns s)).

(** [condition.broadcast()], with the fibers that are woken. *)
Definition broadcast (i : nat) (s : ConnectionCache) : list nat * ConnectionCache := (i_waiters (m_infos s i), set_info i (set_waiters []) s).

(** The fibers that wait, and the connections that have been established, of some entries. *)
Definition waiters_of (s : ConnectionCache) (l : list (nat * nat)) : list nat := concat ((fun e => i_waiters (m_infos s e.2)) <$> l).
Definition connections_of (s : ConnectionCache) (l : list (nat * nat)) : list nat := concat ((fun e => omap id (i_connections (m_infos s e.2))) <$> l).

(** What the loop does to each entry: its condition is broadcast, the streams of its connections are cancelled, and only blank connections are kept.  With the fibers that are woken and the
    connections that are cancelled. *)
Definition closeIdleConnections (s : ConnectionCache) : list nat * list nat * ConnectionCache :=
  let l := map_to_list (m_conns s) in
  (waiters_of s l, connections_of s l, foldl (edit_entry (fun x => keep blank (set_waiters [] x))) s l).

Definition abortConnections (s : ConnectionCache) : list nat * list nat * ConnectionCache :=
  let l := map_to_list (m_conns s) in
  (waiters_of s l, connections_of s l, set_conns ∅ (foldl (fun s e => set_info e.2 (set_waiters []) s) (set_closed s) l)).

(** [std::find_if] and [erase] *)
Fixpoint erase_connection (k : nat) (l : list (option nat)) : list (option nat) :=
  match l with
  | [] => []
  | c :: l => if bool_decide (c = Some k) then l else c :: erase_connection k l
  end.

Definition dropConnection (host connection : nat) (s : ConnectionCache) : ConnectionCache :=
  match m_conns s !! host with
  | None => s
  | Some i =>
      if bool_decide (Some connection ∈ i_connections (m_infos s i))
      then edit_entry (fun x => set_connections (erase_connection connection (i_connections x)) x) s (host, i)
      else s
  end.

Definition getActiveConnections (load : nat -> nat) (s : ConnectionCache) : nat :=
  foldr (fun '(_, i) n => length (List.filter (fun c => match c with Some k => 0 <? load k | None => false end) (i_connections (m_infos s i))) + n) 0 (map_to_list (m_conns s)).

(** ** Getting a connection *)

Inductive broker_exn := OperationAborted | PriorConnectionFailed | SocketError | HttpError | UnexpectedEof | OtherError.

(** Where a fiber is in [getConnection]: the host, the candidates that have not been looked up yet (the one it waits for included) and all of them, the one it is at, and for a fiber that waits or establishes a
    connection the host it is for, the info and the time when that began. *)
Record attempt := mkAttempt { a_fiber : nat; a_uri : nat; a_rest : list proxy; a_all : list proxy; a_via : proxy; a_host : nat; a_info : nat; a_start : Z }.

Inductive outcome := Got (connection : nat) (proxied : bool) | Threw (e : broker_exn) | Waits (a : attempt) | Connects (a : attempt).

Definition proxied (p : proxy) : bool := match p with HttpProxy _ => true | _ => false end.
Definition endpoint (uri : nat) (p : proxy) : nat := match p with HttpProxy host => host | _ => uri end.

(** The candidates: no proxy when there are none.  The loop that removes the types that are not supported erases an empty range. *)
Definition candidates (proxies : list proxy) : list proxy := match proxies with [] => [NoProxy] | _ => proxies end.

(** One pass of the loop in [getConnectionViaProxyFromCache]. *)
Inductive cached := Found (connection : nat) | InProgress (i : nat) | Absent.
Definition getConnectionViaProxyFromCache (load : nat -> nat) (host : nat) (s : ConnectionCache) : cached :=
  match m_conns s !! host with
  | None => Absent
  | Some i =>
      match i_connections (m_infos s i) with
      | [] => Absent
      | c :: l =>
          if m_connectionsPerHost s <=? length (c :: l) then
            match min_element load c l with Some k => Found k | None => InProgress i end
          else Absent
      end
  end.

(** [getConnectionViaProxy] until the lock is released. *)
Definition getConnectionViaProxy (fiber uri : nat) (rest all : list proxy) (p : proxy) (now : Z) (s : ConnectionCache) : outcome * ConnectionCache :=
  let host := endpoint uri p in
  let '(i, s) := match m_conns s !! host with
                 | Some i => (i, s)
                 | None => let i := next_info s in (i, set_conns (<[host := i]> (m_conns s)) (set_info i (fun _ => ConnectionInfo_new) (count_info s)))
                 end in
  let s := set_info i (fun x => set_connections (i_connections x ++ [None]) x) s in
  (Connects (mkAttempt fiber uri rest all p host i now), s).

(** The candidates from the first of [rest] on are looked up, and if none has a connection, one is established through the first of all. *)
Fixpoint look_up (load : nat -> nat) (fiber uri : nat) (rest all : list proxy) (now : Z) (s : ConnectionCache) : result (outcome * ConnectionCache) :=
  match rest with
  | p :: rest' =>
      match getConnectionViaProxyFromCache load (endpoint uri p) s with
      | Found k => Ok (Got k (proxied p), s)
      | InProgress i =>
          Ok (Waits (mkAttempt fiber uri rest all p (endpoint uri p) i now), set_info i (fun x => set_waiters (i_waiters x ++ [fiber]) x) s)
      | Absent => look_up load fiber uri rest' all now s
      end
  | [] => match all with p :: rest => Ok (getConnectionViaProxy fiber uri rest all p now s) | [] => Err Undefined end
  end.

Definition getConnection (load : nat -> nat) (allowed : nat -> bool) (fiber uri : nat) (proxies : list proxy) (force : bool) (now : Z) (s : ConnectionCache) : result (outcome * ConnectionCache) :=
  if m_closed s then Ok (Threw OperationAborted, s)
  else look_up load fiber uri (if force then [] else candidates proxies) (candidates proxies) now (cleanOutDeadConns allowed s).

(** After the wait. *)
Definition wait_resumed (load : nat -> nat) (a : attempt) (now : Z) (s : ConnectionCache) : result (outcome * ConnectionCache) :=
  if match i_lastFailed (m_infos s (a_info a)) with Some t => (t <=? a_start a)%Z | None => false end then Ok (Threw PriorConnectionFailed, s)
  else if m_closed s then Ok (Threw OperationAborted, s)
  else look_up load (a_fiber a) (a_uri a) (a_rest a) (a_all a) now s.

(** The rest of [getConnectionViaProxy] when the connection was established, with the fibers that are woken. *)
Definition established (a : attempt) (s : ConnectionCache) : result (outcome * list nat * ConnectionCache) :=
  if m_closed s then Ok (Threw OperationAborted, [], s)
  else
    let k := next_connection s in
    let s := count_connection s in
    match fill_first k (i_connections (m_infos s (a_info a))) with
    | None => Err Assertion
    | Some l =>
        let '(woken, s) := broadcast (a_info a) (set_info (a_info a) (set_connections l) s) in
        Ok (Got k (proxied (a_via a)), woken, s)
    end.

(** Whether [getConnection] goes on with the next candidate; [PriorConnectionFailedException], which a tunnel through a proxy may throw, is an [HTTP::Exception]. *)
Definition retriable (e : broker_exn) : bool := match e with SocketError | HttpError | PriorConnectionFailed | UnexpectedEof => true | OperationAborted | OtherError => false end.

(** The next candidate after one failed. *)
Definition try_next (a : attempt) (e : broker_exn) (now : Z) (s : ConnectionCache) : outcome * ConnectionCache :=
  match a_rest a with
  | p :: rest => if retriable e then getConnectionViaProxy (a_fiber a) (a_uri a) rest (a_all a) p now s else (Threw e, s)
  | [] => (Threw e, s)
  end.

(** When establishing it failed.  Erasing the entry of the table is undefined when the iterator does not point to one any more. *)
Definition failed (a : attempt) (e : broker_exn) (now : Z) (s : ConnectionCache) : result (outcome * list nat * ConnectionCache) :=
  if m_closed s then let '(o, s) := try_next a e now s in Ok (o, [], s)
  else
    let s := set_info (a_info a) (fun x => set_lastFailed (a_start a) (set_connections (erase_first (i_connections x)) x)) s in
    let '(woken, s) := broadcast (a_info a) s in
    s ← (if bool_decide (i_connections (m_infos s (a_info a)) = []) then
           if bool_decide (m_conns s !! a_host a = Some (a_info a)) then Ok (set_conns (delete (a_host a) (m_conns s)) s) else Err Undefined
         else Ok s);
    let '(o, s) := try_next a e now s in
    Ok (o, woken, s).

(** The fibers that get connections from a [ConnectionCache], in any order: some wait until one is established, some establish one, and connections are dropped at any time. *)

(** [w_waiting]: fibers that wait on a condition; [w_ready]: those that were woken; [w_connecting]: those that establish a connection.  [w_host]: what host a connection was established to; [w_got]: for
    each call that returned a connection the host and the candidates it was called with, and the connection. *)
Record world := mkWorld {
  w_cache : ConnectionCache;
  w_waiting : list attempt;
  w_ready : list attempt;
  w_connecting : list attempt;
  w_host : nat -> nat;
  w_got : list (nat * list proxy * nat);
}.
Definition world_new (connectionsPerHost : nat) : world := mkWorld (ConnectionCache_new connectionsPerHost) [] [] [] (fun _ => 0) [].

(** The calls of [ClientConnection] and the clock may say anything. *)
Inductive action :=
| Get (fiber uri : nat) (proxies : list proxy) (force : bool) (load : nat -> nat) (allowed : nat -> bool) (now : Z)
| Resume (a : attempt) (load : nat -> nat) (now : Z)
| Establish (a : attempt)
| Fail (a : attempt) (e : broker_exn) (now : Z)
| CloseIdle | Abort | Drop (host connection : nat).

(** The fibers that are woken are ready to run. *)
Definition wakes (woken : list nat) (a : attempt) : Prop := a_fiber a ∈ woken.
#[global] Instance wakes_dec woken a : Decision (wakes woken a) := decide (a_fiber a ∈ woken).

Definition wake (woken : list nat) (w : world) : world :=
  mkWorld (w_cache w) (filter (fun a => ~ wakes woken a) (w_waiting w)) (w_ready w ++ filter (wakes woken) (w_waiting w)) (w_connecting w) (w_host w) (w_got w).

(** What a fiber does after its section, for a call with these arguments. *)
Definition proceed (uri : nat) (all : list proxy) (o : outcome) (s : ConnectionCache) (w : world) : world :=
  match o with
  | Got k _ => mkWorld s (w_waiting w) (w_ready w) (w_connecting w) (w_host w) (w_got w ++ [(uri, all, k)])
  | Threw _ => mkWorld s (w_waiting w) (w_ready w) (w_connecting w) (w_host w) (w_got w)
  | Waits a => mkWorld s (w_waiting w ++ [a]) (w_ready w) (w_connecting w) (w_host w) (w_got w)
  | Connects a => mkWorld s (w_waiting w) (w_ready w) (w_connecting w ++ [a]) (w_host w) (w_got w)
  end.

Definition same_attempt (a b : attempt) : Prop := a_fiber a = a_fiber b.
#[global] Instance same_attempt_dec a b : Decision (same_attempt a b) := decide (a_fiber a = a_fiber b).
Definition leave (a : attempt) (l : list attempt) : list attempt := filter (fun b => ~ same_attempt a b) l.

Definition leave_ready (a : attempt) (w : world) : world := mkWorld (w_cache w) (w_waiting w) (leave a (w_ready w)) (w_connecting w) (w_host w) (w_got w).
Definition leave_connecting (a : attempt) (w : world) : world := mkWorld (w_cache w) (w_waiting w) (w_ready w) (leave a (w_connecting w)) (w_host w) (w_got w).
Definition made (k host : nat) (w : world) : world := mkWorld (w_cache w) (w_waiting w) (w_ready w) (w_connecting w) (<[k := host]> (w_host w)) (w_got w).
Definition set_cache (s : ConnectionCache) (w : world) : world := mkWorld s (w_waiting w) (w_ready w) (w_connecting w) (w_host w) (w_got w).

Definition perform (act : action) (w : world) : result world :=
  let s := w_cache w in
  match act with
  | Get fiber uri proxies force load allowed now =>
      '(o, s) ← getConnection load allowed fiber uri proxies force now s;
      Ok (proceed uri (candidates proxies) o s w)
  | Resume a load now =>
      '(o, s) ← wait_resumed load a now s;
      Ok (proceed (a_uri a) (a_all a) o s (leave_ready a w))
  | Establish a =>
      '(o, woken, s') ← established a s;
      Ok (proceed (a_uri a) (a_all a) o s' (wake woken (made (next_connection s) (a_host a) (leave_connecting a w))))
  | Fail a e now =>
      '(o, woken, s') ← failed a e now s;
      Ok (proceed (a_uri a) (a_all a) o s' (wake woken (leave_connecting a w)))
  | CloseIdle => let '(woken, _, s) := closeIdleConnections s in Ok (wake woken (set_cache s w))
  | Abort => let '(woken, _, s) := abortConnections s in Ok (wake woken (set_cache s w))
  | Drop host connection => Ok (set_cache (dropConnection host connection s) w)
  end.

(** A fiber is in one call at a time.  [single]: no call forces a new connection or has more than one candidate. *)
Definition busy (w : world) : list nat := a_fiber <$> (w_waiting w ++ w_ready w ++ w_connecting w).
Definition enabled (single : bool) (act : action) (w : world) : Prop :=
  match act with
  | Get fiber _ proxies force _ _ _ => fiber ∉ busy w /\ (single = true -> force = false /\ length (candidates proxies) = 1)
  | Resume a _ _ => a ∈ w_ready w
  | Establish a | Fail a _ _ => a ∈ w_connecting w
  | CloseIdle | Abort | Drop _ _ => True
  end.

Inductive reachable (single : bool) (connectionsPerHost : nat) : world -> Prop :=
| reachable_new : reachable single connectionsPerHost (world_new connectionsPerHost)
| reachable_step w w' act : reachable single connectionsPerHost w -> enabled single act w -> perform act w = Ok w' -> reachable single connectionsPerHost w'.
