(* ===== verification/BrokerInv.v ===== *)
(** The invariant of a [ConnectionCache] and the fibers that use it, and what each section does to the table. *)

From Stdlib Require Import String.
From stdpp Require Import functions numbers list_numbers list gmap.
From S2P Require Import Prelude Broker.

#[local] Open Scope nat_scope.

(** ** Blank connections *)

Definition blanks (l : list (option nat)) : nat := length (List.filter blank l).

Lemma blanks_app l l' : blanks (l ++ l') = blanks l + blanks l'.
Proof. unfold blanks. by rewrite List.filter_app, length_app. Qed.

Lemma fill_first_spec k l : match fill_first k l with
  | Some l' => blanks l = S (blanks l') /\ length l' = length l /\ forall c, c ∈ l' -> c ∈ l \/ c = Some k
  | None => blanks l = 0
  end.
Proof.
  induction l as [| [c |] l IH]; cbn [fill_first]; [done | |].
  - destruct (fill_first k l) as [l' |]; cbn; [| exact IH]. destruct IH as (H1 & H2 & H3). split_and!; [exact H1 | cbn; lia |]. intros x [-> | Hx]%elem_of_cons; [left; by left |].
    destruct (H3 x Hx); [left; by right | by right].
  - split_and!; [done | done |]. intros x [-> | Hx]%elem_of_cons; [by right | left; by right].
Qed.

Lemma erase_first_spec l : 0 < blanks l -> blanks l = S (blanks (erase_first l)) /\ length (erase_first l) <= length l /\ forall c, c ∈ erase_first l -> c ∈ l.
Proof.
  induction l as [| [c |] l IH]; intros Hb; cbn [erase_first]; [cbn in Hb; lia | |].
  - destruct (IH Hb) as (H1 & H2 & H3). split_and!; [exact H1 | cbn; lia |]. intros x [-> | Hx]%elem_of_cons; [by left | right; by apply H3].
  - split_and!; [done | cbn; lia |]. intros x Hx. by right.
Qed.

Lemma erase_connection_spec k l : blanks (erase_connection k l) = blanks l /\ length (erase_connection k l) <= length l /\ forall c, c ∈ erase_connection k l -> c ∈ l.
Proof.
  induction l as [| c l (H1 & H2 & H3)]; cbn [erase_connection]; [done |]. case_bool_decide as Hc.
  - subst c. split_and!; [done | cbn; lia |]. intros x Hx. by right.
  - split_and!; [| cbn; lia |].
    + unfold blanks in *. cbn. destruct (blank c); cbn; by rewrite H1.
    + intros x [-> | Hx]%elem_of_cons; [by left | right; by apply H3].
Qed.

Lemma filter_blanks test l : test None = true -> blanks (List.filter test l) = blanks l /\ length (List.filter test l) <= length l /\ forall c, c ∈ List.filter test l -> c ∈ l.
Proof.
  intros Ht. induction l as [| c l (H1 & H2 & H3)]; cbn [List.filter]; [done |]. destruct (test c) eqn:E.
  - split_and!; [| cbn; lia |].
    + unfold blanks in *. cbn. destruct (blank c); cbn; by rewrite H1.
    + intros x [-> | Hx]%elem_of_cons; [by left | right; by apply H3].
  - split_and!; [| cbn; lia | intros x Hx; right; by apply H3]. rewrite H1. destruct c; [done | congruence].
Qed.

(** [min_element] gives a blank connection only when there is no other. *)
Lemma min_element_spec load best l : match min_element load best l with
  | Some k => Some k = best \/ Some k ∈ l
  | None => best = None /\ forall c, c ∈ l -> c = None
  end.
Proof.
  revert best. induction l as [| c l IH]; intros best; cbn [min_element]; [destruct best; [by left | split; [done | intros c Hc; by apply not_elem_of_nil in Hc]] |].
  specialize (IH (if least load c best then c else best)). destruct (min_element load _ l) as [k |].
  - destruct IH as [IH | IH]; [destruct (least load c best); [right; rewrite IH; by left | by left] | right; by right].
  - destruct IH as [H1 H2]. destruct c as [a |], best as [b |]; cbn [least] in H1; try done; [by destruct (load a <? load b) |]. split; [done |]. intros x [-> | Hx]%elem_of_cons; [done | by apply H2].
Qed.

(** ** The table *)

(** How many fibers establish a connection for an info. *)
Definition connecting_on (cn : list attempt) (i : nat) : nat := length (filter (fun a => a_info a = i) cn).

Lemma connecting_on_app cn cn' i : connecting_on (cn ++ cn') i = connecting_on cn i + connecting_on cn' i.
Proof. unfold connecting_on. by rewrite filter_app, length_app. Qed.

Lemma connecting_on_one a i : connecting_on [a] i = if decide (a_info a = i) then 1 else 0.
Proof. unfold connecting_on. cbn. by destruct (decide (a_info a = i)). Qed.

Lemma connecting_pos cn a : a ∈ cn -> 0 < connecting_on cn (a_info a).
Proof.
  intros Ha. unfold connecting_on. destruct (filter _ cn) eqn:E; [| cbn; lia]. exfalso. eapply not_elem_of_nil. rewrite <- E. by apply list_elem_of_filter.
Qed.

(** What holds of the table as long as the cache is not closed: [wt] are the fibers that wait and [cn] those that establish a connection. *)
Record table (single : bool) (s : ConnectionCache) (wt cn : list attempt) (host : nat -> nat) : Prop := mkTable {
  t_entry : forall h i, m_conns s !! h = Some i ->
    i < next_info s /\ i_connections (m_infos s i) <> [] /\ blanks (i_connections (m_infos s i)) = connecting_on cn i;
  t_inj : forall h h' i, m_conns s !! h = Some i -> m_conns s !! h' = Some i -> h = h';
  t_connecting : forall a, a ∈ cn -> m_conns s !! a_host a = Some (a_info a);
  t_waiting : forall a, a ∈ wt -> m_conns s !! a_host a = Some (a_info a) /\ a_fiber a ∈ i_waiters (m_infos s (a_info a)) /\ 0 < blanks (i_connections (m_infos s (a_info a)));
  t_waiters : forall h i f, m_conns s !! h = Some i -> f ∈ i_waiters (m_infos s i) -> exists a, a ∈ wt /\ a_fiber a = f /\ a_info a = i;
  t_hosts : forall h i k, m_conns s !! h = Some i -> Some k ∈ i_connections (m_infos s i) -> host k = h /\ k < next_connection s;
  t_limit : single = true -> forall h i, m_conns s !! h = Some i -> length (i_connections (m_infos s i)) <= Nat.max 1 (m_connectionsPerHost s);
}.

(** ** Changing all entries *)

Lemma edit_entry_spec f s e : m_conns s !! e.1 = Some e.2 -> let s' := edit_entry f s e in
  (forall i, m_infos s' i = if bool_decide (i = e.2) then f (m_infos s i) else m_infos s i) /\
  (forall h, m_conns s' !! h = if bool_decide (h = e.1) && bool_decide (i_connections (f (m_infos s e.2)) = []) then None else m_conns s !! h) /\
  m_closed s' = m_closed s /\ m_connectionsPerHost s' = m_connectionsPerHost s /\ next_info s' = next_info s /\ next_connection s' = next_connection s.
Proof.
  intros He. unfold edit_entry. cbn [m_infos set_info]. rewrite fn_lookup_insert. cbv zeta.
  assert (Hi : forall i, <[e.2 := f (m_infos s e.2)]> (m_infos s) i = if bool_decide (i = e.2) then f (m_infos s i) else m_infos s i)
    by (intros i; case_bool_decide as H; [subst i; by rewrite fn_lookup_insert | by rewrite fn_lookup_insert_ne]).
  case_bool_decide as Hn; cbn [set_conns set_info m_infos m_conns m_closed m_connectionsPerHost next_info next_connection]; split_and!; try done; intros h.
  - rewrite andb_true_r. case_bool_decide as Hh; [subst h; by rewrite lookup_delete_eq | by rewrite lookup_delete_ne].
  - by rewrite andb_false_r.
Qed.

Lemma edit_all_spec f l : forall s, NoDup l.*1 -> NoDup l.*2 -> (forall e, e ∈ l -> m_conns s !! e.1 = Some e.2) -> let s' := foldl (edit_entry f) s l in
  (forall i, m_infos s' i = if bool_decide (i ∈ l.*2) then f (m_infos s i) else m_infos s i) /\
  (forall h, m_conns s' !! h = i ← m_conns s !! h; if bool_decide (h ∈ l.*1) && bool_decide (i_connections (f (m_infos s i)) = []) then None else Some i) /\
  m_closed s' = m_closed s /\ m_connectionsPerHost s' = m_connectionsPerHost s /\ next_info s' = next_info s /\ next_connection s' = next_connection s.
Proof.
  induction l as [| e l IH]; intros s H1 H2 Hl; cbn [foldl].
  { split_and!; try done. intros h. rewrite bool_decide_false by apply not_elem_of_nil. cbn. by destruct (m_conns s !! h). }
  cbn [fmap list_fmap] in H1, H2. apply NoDup_cons in H1 as [H1 H1']. apply NoDup_cons in H2 as [H2 H2']. assert (He : m_conns s !! e.1 = Some e.2) by (apply Hl; by left).
  destruct (edit_entry_spec f s e He) as (E1 & E2 & E3 & E4 & E5 & E6). specialize (IH (edit_entry f s e) H1' H2').
  assert (Hne : forall x, x ∈ l -> x.1 <> e.1 /\ x.2 <> e.2) by (intros x Hx; split; intros E; [apply H1 | apply H2]; rewrite <- E; by apply list_elem_of_fmap_2).
  destruct IH as (I1 & I2 & I3 & I4 & I5 & I6).
  { intros x Hx. rewrite E2, bool_decide_false by apply Hne, Hx. cbn. apply Hl. by right. }
  split_and!; [| | congruence | congruence | congruence | congruence].
  - intros i. rewrite I1, E1. cbn [fmap list_fmap]. rewrite !(bool_decide_ext (i ∈ _ :: _) _ (elem_of_cons _ _ _)), bool_decide_or.
    destruct (decide (i = e.2)) as [-> | Hi]; [by rewrite (bool_decide_false (e.2 ∈ l.*2)), !(bool_decide_true (e.2 = e.2)) by done | by rewrite !(bool_decide_false (i = e.2)) by done].
  - intros h. rewrite I2, E2. cbn [fmap list_fmap]. rewrite !(bool_decide_ext (h ∈ _ :: _) _ (elem_of_cons _ _ _)), bool_decide_or.
    destruct (decide (h = e.1)) as [-> | Hh].
    + rewrite He, (bool_decide_false (e.1 ∈ l.*1)), !(bool_decide_true (e.1 = e.1)) by done. cbn. case_bool_decide; cbn; done.
    + rewrite !(bool_decide_false (h = e.1)) by done. cbn [andb orb]. destruct (m_conns s !! h) as [i |] eqn:Hc; cbn; [| done]. destruct (decide (h ∈ l.*1)) as [Hl' | Hl']; [| by rewrite !(bool_decide_false (h ∈ l.*1)) by done].
      rewrite E1, (bool_decide_false (i = e.2)); [done |]. apply list_elem_of_fmap in Hl' as (x & -> & Hx). destruct (Hne x Hx) as [_ Hx2]. rewrite (Hl x) in Hc by (by right). congruence.
Qed.

(** All entries of the table. *)
Lemma edit_table_spec f s : (forall h h' i, m_conns s !! h = Some i -> m_conns s !! h' = Some i -> h = h') -> let s' := foldl (edit_entry f) s (map_to_list (m_conns s)) in
  (forall h i, m_conns s !! h = Some i -> m_infos s' i = f (m_infos s i)) /\
  (forall h i, m_conns s' !! h = Some i <-> m_conns s !! h = Some i /\ i_connections (f (m_infos s i)) <> []) /\
  m_closed s' = m_closed s /\ m_connectionsPerHost s' = m_connectionsPerHost s /\ next_info s' = next_info s /\ next_connection s' = next_connection s.
Proof.
  intros Hinj. set (l := map_to_list (m_conns s)). assert (Hl : forall e, e ∈ l -> m_conns s !! e.1 = Some e.2) by (intros [h i] He; by apply elem_of_map_to_list in He).
  assert (H2 : NoDup l.*2).
  { apply NoDup_fmap_2_strong; [| apply NoDup_map_to_list]. intros [h i] [h' i'] H1 H2 E. cbn in E. subst i'. apply elem_of_map_to_list in H1, H2. by rewrite (Hinj h h' i). }
  destruct (edit_all_spec f l s (NoDup_fst_map_to_list _) H2 Hl) as (E1 & E2 & E3 & E4 & E5 & E6).
  assert (Hin : forall h i, m_conns s !! h = Some i -> (h, i) ∈ l) by (intros h i Hh; by apply elem_of_map_to_list).
  split_and!; [| | done | done | done | done].
  - intros h i Hh. rewrite E1, bool_decide_true; [done |]. apply list_elem_of_fmap. exists (h, i). auto.
  - intros h i. rewrite E2. destruct (m_conns s !! h) as [j |] eqn:Hh; cbn; [| naive_solver]. rewrite (bool_decide_true (h ∈ l.*1)); [cbn; case_bool_decide; naive_solver |].
    apply list_elem_of_fmap. exists (h, j). auto.
Qed.

(** An edit that leaves the blanks and adds no connection: the fibers that wait stay, or are all woken. *)
Lemma edit_table f single s wt wt' cn host : table single s wt cn host ->
  (forall x, blanks (i_connections (f x)) = blanks (i_connections x) /\ length (i_connections (f x)) <= length (i_connections x) /\ forall c, c ∈ i_connections (f x) -> c ∈ i_connections x) ->
  (wt' = wt /\ (forall x, i_waiters (f x) = i_waiters x) \/ wt' = [] /\ forall x, i_waiters (f x) = []) ->
  table single (foldl (edit_entry f) s (map_to_list (m_conns s))) wt' cn host.
Proof.
  intros T Hf Hw. destruct (edit_table_spec f s (t_inj _ _ _ _ _ T)) as (E1 & E2 & E3 & E4 & E5 & E6). set (s' := foldl _ s _) in *.
  assert (Hkeep : forall h i, m_conns s !! h = Some i -> 0 < blanks (i_connections (m_infos s i)) -> m_conns s' !! h = Some i).
  { intros h i Hh Hb. apply E2. split; [done |]. destruct (Hf (m_infos s i)) as (H & _). intros Hn. rewrite Hn in H. cbn in H. lia. }
  split.
  - intros h i Hh. apply E2 in Hh as [Hh Hn]. rewrite (E1 h i Hh), E5. destruct (t_entry _ _ _ _ _ T h i Hh) as (H1 & H2 & H3). destruct (Hf (m_infos s i)) as (-> & _). done.
  - intros h h' i Hh Hh'. apply E2 in Hh as [Hh _], Hh' as [Hh' _]. by eapply (t_inj _ _ _ _ _ T).
  - intros a Ha. pose proof (t_connecting _ _ _ _ _ T a Ha) as Hc. apply Hkeep; [done |]. destruct (t_entry _ _ _ _ _ T _ _ Hc) as (_ & _ & ->). by apply connecting_pos.
  - intros a Ha. destruct Hw as [[-> Hw] | [-> _]]; [| by apply not_elem_of_nil in Ha]. destruct (t_waiting _ _ _ _ _ T a Ha) as (H1 & H2 & H3). rewrite (E1 _ _ H1), Hw. split_and!; [by apply Hkeep | done |].
    by destruct (Hf (m_infos s (a_info a))) as (-> & _).
  - intros h i g Hh Hg. apply E2 in Hh as [Hh _]. rewrite (E1 h i Hh) in Hg. destruct Hw as [[-> Hw] | [-> Hw]]; rewrite Hw in Hg; [by apply (t_waiters _ _ _ _ _ T h) | by apply not_elem_of_nil in Hg].
  - intros h i k Hh Hk. apply E2 in Hh as [Hh _]. rewrite (E1 h i Hh) in Hk. rewrite E6. apply (t_hosts _ _ _ _ _ T h i); [done |]. by apply Hf.
  - intros Hs h i Hh. apply E2 in Hh as [Hh _]. rewrite (E1 h i Hh), E4. pose proof (t_limit _ _ _ _ _ T Hs h i Hh). destruct (Hf (m_infos s i)) as (_ & ? & _). lia.
Qed.

(** ** Changing one entry *)

Section OneEntry.
Context {single : bool} {s s' : ConnectionCache} {wt wt' cn cn' : list attempt} {host host' : nat -> nat} (h i : nat) (T : table single s wt cn host).
Context (Hinfos : forall j, j <> i -> m_infos s' j = m_infos s j) (Hper : m_connectionsPerHost s' = m_connectionsPerHost s) (Hnext : next_info s <= next_info s') (Hnextc : next_connection s <= next_connection s').
Context (Hcn : forall j, j <> i -> connecting_on cn' j = connecting_on cn j) (Hwt : forall a, a ∈ wt -> a_info a <> i -> a ∈ wt') (Hhost : forall k, k < next_connection s -> host' k = host k).

(** The entry is there afterwards; it may be new. *)
Lemma table_put : m_conns s !! h = Some i \/ m_conns s !! h = None /\ i = next_info s -> m_conns s' = <[h := i]> (m_conns s) -> i < next_info s' ->
  i_connections (m_infos s' i) <> [] -> blanks (i_connections (m_infos s' i)) = connecting_on cn' i ->
  (forall a, a ∈ cn' -> a ∈ cn \/ a_host a = h /\ a_info a = i) ->
  (forall a, a ∈ wt' -> a ∈ wt /\ a_info a <> i \/ a_info a = i /\ a_host a = h /\ a_fiber a ∈ i_waiters (m_infos s' i) /\ 0 < blanks (i_connections (m_infos s' i))) ->
  (forall f, f ∈ i_waiters (m_infos s' i) -> exists a, a ∈ wt' /\ a_fiber a = f /\ a_info a = i) ->
  (forall k, Some k ∈ i_connections (m_infos s' i) -> host' k = h /\ k < next_connection s') ->
  (single = true -> length (i_connections (m_infos s' i)) <= Nat.max 1 (m_connectionsPerHost s)) -> table single s' wt' cn' host'.
Proof using T Hinfos Hper Hnext Hnextc Hcn Hwt Hhost.
  intros Hold Hconns Hi Hne Hb Hcn' Hwt' Hws Hks Hlim.
  assert (Hother : forall g j, g <> h -> m_conns s' !! g = Some j -> m_conns s !! g = Some j /\ j <> i /\ m_infos s' j = m_infos s j).
  { intros g j Hg Hj. rewrite Hconns, lookup_insert_ne in Hj by done. assert (Hji : j <> i); [| auto]. intros ->. destruct Hold as [Ho | [_ ->]]; [by apply Hg, (t_inj _ _ _ _ _ T g h i) |].
    destruct (t_entry _ _ _ _ _ T _ _ Hj). lia. }
  assert (Hh : forall j, m_conns s' !! h = Some j -> j = i) by (intros j; rewrite Hconns, lookup_insert_eq; congruence).
  assert (Hgo : forall g j, m_conns s !! g = Some j -> m_conns s' !! g = Some j).
  { intros g j Hg. rewrite Hconns. destruct (decide (g = h)) as [-> | ?]; [rewrite lookup_insert_eq; destruct Hold as [Ho | [Ho _]]; congruence | by rewrite lookup_insert_ne]. }
  split.
  - intros g j Hj. destruct (decide (g = h)) as [-> | Hg]; [apply Hh in Hj as ->; done |]. destruct (Hother g j Hg Hj) as (Hj' & Hji & ->). destruct (t_entry _ _ _ _ _ T g j Hj') as (? & ? & ?). rewrite Hcn by done. split_and!; auto. lia.
  - intros g g' j Hg Hg'. destruct (decide (g = h)) as [-> | H1], (decide (g' = h)) as [-> | H2]; [done | | |].
    + apply Hh in Hg as ->. by destruct (Hother g' i H2 Hg') as (_ & ? & _).
    + apply Hh in Hg' as ->. by destruct (Hother g i H1 Hg) as (_ & ? & _).
    + destruct (Hother g j H1 Hg) as (? & _), (Hother g' j H2 Hg') as (? & _). by eapply (t_inj _ _ _ _ _ T).
  - intros a Ha. destruct (Hcn' a Ha) as [Ha' | [-> ->]]; [apply Hgo; by apply (t_connecting _ _ _ _ _ T) | by rewrite Hconns, lookup_insert_eq].
  - intros a Ha. destruct (Hwt' a Ha) as [[Ha' Hn] | (-> & -> & ?)]; [| split; [by rewrite Hconns, lookup_insert_eq | done]].
    destruct (t_waiting _ _ _ _ _ T a Ha') as (? & ? & ?). rewrite Hinfos by done. auto.
  - intros g j f Hj Hf. destruct (decide (g = h)) as [-> | Hg]; [apply Hh in Hj as ->; by apply Hws |]. destruct (Hother g j Hg Hj) as (Hj' & Hji & E). rewrite E in Hf.
    destruct (t_waiters _ _ _ _ _ T g j f Hj' Hf) as (a & Ha & <- & <-). exists a. auto.
  - intros g j k Hj Hk. destruct (decide (g = h)) as [-> | Hg]; [apply Hh in Hj as ->; by apply Hks |]. destruct (Hother g j Hg Hj) as (Hj' & Hji & E). rewrite E in Hk.
    destruct (t_hosts _ _ _ _ _ T g j k Hj' Hk) as [? ?]. rewrite Hhost by done. split; [done | lia].
  - intros Hs g j Hj. rewrite Hper. destruct (decide (g = h)) as [-> | Hg]; [apply Hh in Hj as ->; by apply Hlim |]. destruct (Hother g j Hg Hj) as (Hj' & Hji & ->). by apply (t_limit _ _ _ _ _ T Hs g).
Qed.

(** The entry is erased. *)
Lemma table_delete : m_conns s !! h = Some i -> m_conns s' = delete h (m_conns s) ->
  (forall a, a ∈ cn' -> a ∈ cn /\ a_info a <> i) -> (forall a, a ∈ wt' -> a ∈ wt /\ a_info a <> i) -> table single s' wt' cn' host'.
Proof using T Hinfos Hper Hnext Hnextc Hcn Hwt Hhost.
  intros Hold Hconns Hcn' Hwt'.
  assert (Hother : forall g j, m_conns s' !! g = Some j -> m_conns s !! g = Some j /\ j <> i /\ m_infos s' j = m_infos s j).
  { intros g j Hj. rewrite Hconns in Hj. apply lookup_delete_Some in Hj as [Hg Hj]. assert (Hji : j <> i) by (intros ->; apply Hg; by eapply (t_inj _ _ _ _ _ T)). auto. }
  assert (Hgo : forall g j, m_conns s !! g = Some j -> j <> i -> m_conns s' !! g = Some j).
  { intros g j Hg Hj. rewrite Hconns. apply lookup_delete_Some. split; [| done]. congruence. }
  split.
  - intros g j Hj. destruct (Hother g j Hj) as (Hj' & Hji & ->). destruct (t_entry _ _ _ _ _ T g j Hj') as (? & ? & ?). rewrite Hcn by done. split_and!; auto. lia.
  - intros g g' j Hg Hg'. apply Hother in Hg, Hg'. by eapply (t_inj _ _ _ _ _ T); [apply Hg | apply Hg'].
  - intros a Ha. destruct (Hcn' a Ha) as [Ha' Hn]. apply Hgo; [by apply (t_connecting _ _ _ _ _ T) | done].
  - intros a Ha. destruct (Hwt' a Ha) as [Ha' Hn]. destruct (t_waiting _ _ _ _ _ T a Ha') as (? & ? & ?). rewrite Hinfos by done. auto.
  - intros g j f Hj Hf. destruct (Hother g j Hj) as (Hj' & Hji & E). rewrite E in Hf. destruct (t_waiters _ _ _ _ _ T g j f Hj' Hf) as (a & Ha & <- & <-). exists a. auto.
  - intros g j k Hj Hk. destruct (Hother g j Hj) as (Hj' & Hji & E). rewrite E in Hk. destruct (t_hosts _ _ _ _ _ T g j k Hj' Hk) as [? ?]. rewrite Hhost by done. split; [done | lia].
  - intros Hs g j Hj. rewrite Hper. destruct (Hother g j Hj) as (Hj' & Hji & ->). by apply (t_limit _ _ _ _ _ T Hs g).
Qed.
End OneEntry.

(** Every section of a [ConnectionCache] keeps the invariant. *)

(** ** The invariant *)

Definition attempt_ok (a : attempt) : Prop := a_host a = endpoint (a_uri a) (a_via a) /\ a_via a ∈ a_all a /\ forall p, p ∈ a_rest a -> p ∈ a_all a.

(** A fiber that waits looks up its candidate again; with a single one there is no other. *)
Definition waits_ok (single : bool) (a : attempt) : Prop := attempt_ok a /\ (single = true -> exists p, a_all a = [p] /\ a_rest a = [p]).
Definition connects_ok (single : bool) (a : attempt) : Prop := attempt_ok a /\ (single = true -> a_rest a = []).

(** A connection that was handed out was established to the host or to a proxy of the call. *)
Definition got_ok (s : ConnectionCache) (host : nat -> nat) (uri : nat) (all : list proxy) (k : nat) : Prop := k < next_connection s /\ exists p, p ∈ all /\ host k = endpoint uri p.

(** All but the table; [s] is the cache as it is going to be. *)
Record rest_ok (single : bool) (s : ConnectionCache) (w : world) : Prop := mkRestOk {
  ok_closed : m_closed s = true -> w_waiting w = [];
  ok_fibers : NoDup (busy w);
  ok_waits : forall a, a ∈ w_waiting w ++ w_ready w -> waits_ok single a;
  ok_connects : forall a, a ∈ w_connecting w -> connects_ok single a;
  ok_got : forall uri all k, (uri, all, k) ∈ w_got w -> got_ok s (w_host w) uri all k;
}.

Record world_ok (single : bool) (w : world) : Prop := mkWorldOk {
  ok_table : m_closed (w_cache w) = false -> table single (w_cache w) (w_waiting w) (w_connecting w) (w_host w);
  ok_rest : rest_ok single (w_cache w) w;
}.

(** ** Getting a connection *)

(** What comes out of a section of a call, of which [fiber], [uri] and [all] are the arguments. *)
Definition outcome_ok (single : bool) (fiber uri : nat) (all : list proxy) (o : outcome) (s : ConnectionCache) (wt cn : list attempt) (host : nat -> nat) : Prop :=
  match o with
  | Got k _ => got_ok s host uri all k /\ (m_closed s = false -> table single s wt cn host)
  | Threw _ => m_closed s = false -> table single s wt cn host
  | Waits a => a_fiber a = fiber /\ waits_ok single a /\ m_closed s = false /\ table single s (wt ++ [a]) cn host
  | Connects a => a_fiber a = fiber /\ connects_ok single a /\ (m_closed s = false -> table single s wt (cn ++ [a]) host)
  end.

Section Look.
Context (single : bool) (wt cn : list attempt) (host : nat -> nat) (fiber uri : nat) (all : list proxy) (now : Z).

Lemma via_proxy_ok s p rest : (m_closed s = false -> table single s wt cn host) -> p ∈ all -> (forall p, p ∈ rest -> p ∈ all) ->
  (single = true -> rest = [] /\ (m_closed s = false -> forall i, m_conns s !! endpoint uri p = Some i -> S (length (i_connections (m_infos s i))) <= Nat.max 1 (m_connectionsPerHost s))) ->
  let '(o, s') := getConnectionViaProxy fiber uri rest all p now s in
  outcome_ok single fiber uri all o s' wt cn host /\ m_closed s' = m_closed s /\ next_connection s' = next_connection s.
Proof.
  intros T Hp Hrest Hs. unfold getConnectionViaProxy. set (h := endpoint uri p) in *.
  assert (Hlim : forall i, single = true -> m_closed s = false -> m_conns s !! h = Some i -> S (length (i_connections (m_infos s i))) <= Nat.max 1 (m_connectionsPerHost s)) by (intros i H1 H2 H3; by destruct (Hs H1) as [_ H]; apply H).
  assert (Hco : forall i, connects_ok single (mkAttempt fiber uri rest all p h i now)) by (intros i; split; [done | by intros H; apply Hs in H as [-> _]]).
  destruct (m_conns s !! h) as [i |] eqn:Hh; cbn [outcome_ok]; split_and!; try done; intros Hc; specialize (T Hc).
  - destruct (t_entry _ _ _ _ _ T h i Hh) as (Hi & Hne & Hb).
    eapply (table_put h i T); cbn [m_infos m_conns m_connectionsPerHost next_info next_connection set_info]; rewrite ?fn_lookup_insert; cbn [i_connections i_waiters set_connections]; try done.
    + intros j Hj. by rewrite fn_lookup_insert_ne.
    + intros j Hj. rewrite connecting_on_app, connecting_on_one, decide_False by (cbn; congruence). lia.
    + by left.
    + by rewrite insert_id.
    + by destruct (i_connections (m_infos s i)).
    + rewrite blanks_app, connecting_on_app, Hb, connecting_on_one, decide_True by done. done.
    + intros a [Ha | ->%list_elem_of_singleton]%elem_of_app; [by left | by right].
    + intros a Ha. destruct (t_waiting _ _ _ _ _ T a Ha) as (H1 & H2 & H3). destruct (decide (a_info a = i)) as [E | E]; [right | by left]. rewrite E in H1, H2, H3. split_and!; [done | by apply (t_inj _ _ _ _ _ T _ _ i) | done |].
      rewrite blanks_app. lia.
    + intros f Hf. by apply (t_waiters _ _ _ _ _ T h).
    + intros k [Hk | [=]%list_elem_of_singleton]%elem_of_app. by apply (t_hosts _ _ _ _ _ T h i).
    + intros H. rewrite length_app. cbn. specialize (Hlim i H Hc eq_refl). lia.
  - assert (Hnew : connecting_on cn (next_info s) = 0).
    { unfold connecting_on. destruct (filter _ cn) as [| a l] eqn:E; [done |]. assert (Ha : a ∈ filter (fun a => a_info a = next_info s) cn) by (rewrite E; by left). apply list_elem_of_filter in Ha as [Ea Ha].
      pose proof (t_connecting _ _ _ _ _ T a Ha) as H. destruct (t_entry _ _ _ _ _ T _ _ H). lia. }
    eapply (table_put h (next_info s) T); cbn [m_infos m_conns m_connectionsPerHost next_info next_connection set_info set_conns count_info]; rewrite ?fn_lookup_insert; cbn [i_connections i_waiters set_connections ConnectionInfo_new app]; try done.
    + intros j Hj. by rewrite !fn_lookup_insert_ne.
    + lia.
    + intros j Hj. rewrite connecting_on_app, connecting_on_one, decide_False by (cbn; congruence). lia.
    + by right.
    + lia.
    + rewrite connecting_on_app, Hnew, connecting_on_one, decide_True by done. done.
    + intros a [Ha | ->%list_elem_of_singleton]%elem_of_app; [by left | by right].
    + intros a Ha. left. split; [done |]. destruct (t_waiting _ _ _ _ _ T a Ha) as (H1 & _). destruct (t_entry _ _ _ _ _ T _ _ H1). lia.
    + intros f Hf. by apply not_elem_of_nil in Hf.
    + by intros k [=]%list_elem_of_singleton.
    + intros _. cbn. lia.
Qed.

(** What the look-up finds. *)
Lemma from_cache_ok load s h : table single s wt cn host ->
  match getConnectionViaProxyFromCache load h s with
  | Found k => host k = h /\ k < next_connection s
  | InProgress i => m_conns s !! h = Some i /\ 0 < blanks (i_connections (m_infos s i))
  | Absent => forall i, m_conns s !! h = Some i -> S (length (i_connections (m_infos s i))) <= Nat.max 1 (m_connectionsPerHost s)
  end.
Proof.
  intros T. unfold getConnectionViaProxyFromCache. destruct (m_conns s !! h) as [i |] eqn:Hh; [| done]. destruct (t_entry _ _ _ _ _ T h i Hh) as (_ & Hne & _).
  destruct (i_connections (m_infos s i)) as [| c l] eqn:El; [done |]. destruct (m_connectionsPerHost s <=? length (c :: l)) eqn:Hper.
  - pose proof (min_element_spec load c l) as Hm. destruct (min_element load c l) as [k |].
    + apply (t_hosts _ _ _ _ _ T h i); [done |]. rewrite El. destruct Hm as [-> | Hm]; [by left | by right].
    + destruct Hm as [-> _]. split; [done |]. rewrite El. unfold blanks. cbn. lia.
  - intros j [= <-]. apply Nat.leb_gt in Hper. rewrite El. lia.
Qed.

Lemma look_up_ok load rest s : table single s wt cn host -> m_closed s = false -> all <> [] -> (forall p, p ∈ rest -> p ∈ all) ->
  (single = true -> exists p, all = [p] /\ (rest = [p] \/ getConnectionViaProxyFromCache load (endpoint uri p) s = Absent)) ->
  exists o s', look_up load fiber uri rest all now s = Ok (o, s') /\ outcome_ok single fiber uri all o s' wt cn host /\ m_closed s' = m_closed s /\ next_connection s' = next_connection s.
Proof.
  intros T Hc Hall. induction rest as [| p rest IH]; intros Hrest Hs; cbn [look_up].
  - destruct all as [| p rest] eqn:Ea; [done |]. rewrite <- Ea in *. pose proof (via_proxy_ok s p rest (fun _ => T)) as H. destruct (getConnectionViaProxy fiber uri rest all p now s) as [o s'].
    exists o, s'. split; [done |]. apply H.
    + rewrite Ea. by left.
    + intros q Hq. rewrite Ea. by right.
    + intros Hsi. destruct (Hs Hsi) as (q & Hq & [[=] | Ha]). rewrite Ea in Hq. injection Hq as -> ->. split; [done |]. intros _. pose proof (from_cache_ok load s (endpoint uri q) T) as Hf. by rewrite Ha in Hf.
  - pose proof (from_cache_ok load s (endpoint uri p) T) as Hf. destruct (getConnectionViaProxyFromCache load (endpoint uri p) s) as [k | i |] eqn:Ef.
    + eexists _, _. split; [reflexivity |]. split_and!; [| done | done]. split; [| done]. split; [apply Hf |]. exists p. split; [apply Hrest; by left | apply Hf].
    + destruct Hf as [Hh Hb]. eexists _, _. split; [reflexivity |]. split_and!; [| done | done]. split_and!; [done | | done |].
      * split; [split_and!; [done | apply Hrest; by left | done] |]. intros Hsi. destruct (Hs Hsi) as (q & Hq & [Hr | Ha]); [by exists q |].
        assert (p = q) as -> by (apply list_elem_of_singleton; rewrite <- Hq; apply Hrest; by left). congruence.
      * destruct (t_entry _ _ _ _ _ T _ i Hh) as (Hi & Hne & Hbl).
        eapply (table_put (endpoint uri p) i T); cbn [m_infos m_conns m_connectionsPerHost next_info next_connection set_info]; rewrite ?fn_lookup_insert; cbn [i_connections i_waiters set_waiters]; try done.
        -- intros j Hj. by rewrite fn_lookup_insert_ne.
        -- intros a Ha _. apply elem_of_app. by left.
        -- by left.
        -- by rewrite insert_id.
        -- by left.
        -- intros a [Ha | ->%list_elem_of_singleton]%elem_of_app; [| right; split_and!; [done | done | apply elem_of_app; right; by left | done]].
           destruct (t_waiting _ _ _ _ _ T a Ha) as (H1 & H2 & H3). destruct (decide (a_info a = i)) as [E | E]; [right | by left]. rewrite E in H1, H2. split_and!; [done | by apply (t_inj _ _ _ _ _ T _ _ i) | | done]. apply elem_of_app. by left.
        -- intros f [Hf | ->%list_elem_of_singleton]%elem_of_app; [| eexists; split; [apply elem_of_app; right; by left | done]]. destruct (t_waiters _ _ _ _ _ T _ i f Hh Hf) as (a & Ha & ?). exists a. split; [apply elem_of_app; by left | done].
        -- intros k Hk. by apply (t_hosts _ _ _ _ _ T _ i).
        -- intros Hsi. by apply (t_limit _ _ _ _ _ T Hsi _ i Hh).
    + apply IH; [intros q Hq; apply Hrest; by right |]. intros Hsi. destruct (Hs Hsi) as (q & Hq & _). exists q. split; [done |]. right.
      assert (p = q) as -> by (apply list_elem_of_singleton; rewrite <- Hq; apply Hrest; by left). done.
Qed.
End Look.

Lemma clean_ok single s wt cn host allowed : table single s wt cn host -> table single (cleanOutDeadConns allowed s) wt cn host /\ m_closed (cleanOutDeadConns allowed s) = m_closed s /\
  next_connection (cleanOutDeadConns allowed s) = next_connection s.
Proof.
  intros T. split; [apply edit_table with wt; [done | intros x; by apply filter_blanks | by left] |]. unfold cleanOutDeadConns. by destruct (edit_table_spec (keep (fun c => match c with Some k => allowed k | None => true end)) s (t_inj _ _ _ _ _ T)) as (_ & _ & ? & _ & _ & ?).
Qed.

(** ** Waking *)

Section Wake.
Context {single : bool} {w : world} (Hw : world_ok single w) (Hc : m_closed (w_cache w) = false).

Lemma fibers_unique a b : a ∈ w_waiting w -> b ∈ w_waiting w -> a_fiber a = a_fiber b -> a = b.
Proof using Hw.
  intros Ha Hb E. pose proof (ok_fibers _ _ _ (ok_rest _ _ Hw)) as Hn. unfold busy in Hn. rewrite fmap_app in Hn. apply NoDup_app in Hn as (Hn & _). clear -Hn Ha Hb E.
  induction (w_waiting w) as [| c l IH]; [by apply not_elem_of_nil in Ha |]. cbn in Hn. apply NoDup_cons in Hn as [Hn1 Hn2].
  apply elem_of_cons in Ha as [-> | Ha], Hb as [-> | Hb]; [done | | | by apply IH]; destruct Hn1; [rewrite E | rewrite <- E]; by apply list_elem_of_fmap_2.
Qed.

(** Those that wait on an info are the fibers in its condition. *)
Lemma waiters_waiting i h a : m_conns (w_cache w) !! h = Some i -> a ∈ w_waiting w -> wakes (i_waiters (m_infos (w_cache w) i)) a <-> a_info a = i.
Proof using Hw Hc.
  intros Hh Ha. pose proof (ok_table _ _ Hw Hc) as T. unfold wakes. split.
  - intros Hf. destruct (t_waiters _ _ _ _ _ T h i _ Hh Hf) as (b & Hb & E & Hi). by rewrite (fibers_unique a b Ha Hb (eq_sym E)).
  - intros <-. by apply (t_waiting _ _ _ _ _ T).
Qed.
End Wake.

Lemma partition_perm (P : attempt -> Prop) `{!forall a, Decision (P a)} l : filter (fun a => ~ P a) l ++ filter P l ≡ₚ l.
Proof.
  induction l as [| a l IH]; [done |]. rewrite !filter_cons. destruct (decide (P a)).
  - rewrite decide_False by tauto. rewrite <- Permutation_middle. by rewrite IH.
  - rewrite decide_True by done. cbn. by rewrite IH.
Qed.

Lemma wake_busy woken w : busy (wake woken w) ≡ₚ busy w.
Proof.
  unfold busy. cbn. apply fmap_Permutation. rewrite <- (partition_perm (wakes woken) (w_waiting w)) at 3. rewrite <- !app_assoc. apply Permutation_app_head.
  rewrite !app_assoc. apply Permutation_app_tail. apply Permutation_app_comm.
Qed.

Lemma wake_rest single s w woken : rest_ok single s w -> rest_ok single s (wake woken w).
Proof.
  intros R. split.
  - intros Hc. cbn. by rewrite (ok_closed _ _ _ R Hc).
  - rewrite wake_busy. apply R.
  - intros a Ha. apply (ok_waits _ _ _ R). cbn in Ha. rewrite !elem_of_app, !list_elem_of_filter in *. tauto.
  - apply R.
  - apply R.
Qed.

(** A fiber goes on: it is in no other call. *)
Lemma leave_fibers (l l' : list attempt) a : NoDup (a_fiber <$> (l ++ l')) -> a ∈ l -> NoDup (a_fiber <$> (leave a l ++ l')) /\ a_fiber a ∉ a_fiber <$> (leave a l ++ l').
Proof.
  intros Hn Ha. split.
  - eapply sublist_NoDup; [exact Hn |]. apply fmap_sublist. apply sublist_app; [apply sublist_filter | done].
  - rewrite list_elem_of_fmap. intros (b & E & Hb). apply elem_of_app in Hb as [Hb | Hb]; [apply list_elem_of_filter in Hb as [Hb _]; by apply Hb |].
    rewrite fmap_app in Hn. apply NoDup_app in Hn as (_ & Hn & _). apply (Hn (a_fiber a)); [by apply list_elem_of_fmap_2 |]. rewrite E. by apply list_elem_of_fmap_2.
Qed.

Lemma leave_ready_ok single s w a : rest_ok single s w -> a ∈ w_ready w -> rest_ok single s (leave_ready a w) /\ a_fiber a ∉ busy (leave_ready a w).
Proof.
  intros R Ha. pose proof (ok_fibers _ _ _ R) as Hn. unfold busy in *.
  assert (Hp : w_waiting w ++ w_ready w ++ w_connecting w ≡ₚ w_ready w ++ w_waiting w ++ w_connecting w) by (rewrite !app_assoc; apply Permutation_app_tail, Permutation_app_comm).
  rewrite Hp in Hn. destruct (leave_fibers _ _ a Hn Ha) as [H1 H2].
  assert (Hp' : w_waiting w ++ leave a (w_ready w) ++ w_connecting w ≡ₚ leave a (w_ready w) ++ w_waiting w ++ w_connecting w) by (rewrite !app_assoc; apply Permutation_app_tail, Permutation_app_comm).
  split; [| cbn; by rewrite Hp']. split; try apply R.
  - unfold busy. cbn. by rewrite Hp'.
  - intros b Hb. apply (ok_waits _ _ _ R). cbn in Hb. unfold leave in Hb. rewrite !elem_of_app, ?list_elem_of_filter in *. tauto.
Qed.

Lemma leave_connecting_ok single s w a : rest_ok single s w -> a ∈ w_connecting w -> rest_ok single s (leave_connecting a w) /\ a_fiber a ∉ busy (leave_connecting a w).
Proof.
  intros R Ha. pose proof (ok_fibers _ _ _ R) as Hn. unfold busy in *.
  assert (Hp : forall l, w_waiting w ++ w_ready w ++ l ≡ₚ l ++ w_waiting w ++ w_ready w) by (intros l; rewrite app_assoc; apply Permutation_app_comm).
  rewrite Hp in Hn. destruct (leave_fibers _ _ a Hn Ha) as [H1 H2].
  split; [| cbn; by rewrite Hp]. split; try apply R.
  - unfold busy. cbn. by rewrite Hp.
  - intros b Hb. apply (ok_connects _ _ _ R). cbn in Hb. by apply list_elem_of_filter in Hb as [_ ?].
Qed.

Lemma proceed_ok single fiber uri all o s w : rest_ok single s w -> fiber ∉ busy w -> outcome_ok single fiber uri all o s (w_waiting w) (w_connecting w) (w_host w) -> world_ok single (proceed uri all o s w).
Proof.
  intros R Hf Ho. destruct o as [k b | e | a | a]; cbn [proceed outcome_ok] in *.
  - destruct Ho as [Hg Ht]. split; [exact Ht |]. split; try apply R. cbn. intros u l j [Hj | [= -> -> ->]%list_elem_of_singleton]%elem_of_app; [by apply R | done].
  - split; [exact Ho |]. by destruct R.
  - destruct Ho as (<- & Ha & Hc & Ht). split; [done |]. assert (Hp : (w_waiting w ++ [a]) ++ w_ready w ++ w_connecting w ≡ₚ a :: w_waiting w ++ w_ready w ++ w_connecting w) by (rewrite <- app_assoc; cbn; by rewrite <- Permutation_middle).
    split; cbn; try apply R.
    + congruence.
    + unfold busy in *. cbn. rewrite Hp. cbn. apply NoDup_cons. split; [done | apply R].
    + intros b Hb. rewrite !elem_of_app, list_elem_of_singleton in Hb. destruct Hb as [[Hb | ->] | Hb]; [| done |]; apply (ok_waits _ _ _ R); rewrite elem_of_app; tauto.
  - destruct Ho as (<- & Ha & Ht). split; [done |]. assert (Hp : w_waiting w ++ w_ready w ++ w_connecting w ++ [a] ≡ₚ a :: w_waiting w ++ w_ready w ++ w_connecting w) by (rewrite !app_assoc; symmetry; apply Permutation_cons_append).
    split; cbn; try apply R.
    + unfold busy in *. cbn. rewrite Hp. cbn. apply NoDup_cons. split; [done | apply R].
    + intros b [Hb | ->%list_elem_of_singleton]%elem_of_app; [by apply R | done].
Qed.
