(* ===== verification/BrokerProps.v ===== *)
(** The theorems about the cache of connections. *)

From Stdlib Require Import String.
From stdpp Require Import functions numbers list_numbers list gmap.
From S2P Require Import Prelude Broker BrokerInv.

#[local] Open Scope nat_scope.

(** ** Every action *)

Lemma rest_same single s s' w : rest_ok single s w -> m_closed s' = m_closed s -> next_connection s' = next_connection s -> rest_ok single s' w.
Proof. intros R Hc Hn. destruct R. split; try done; [by rewrite Hc |]. intros uri all k Hk. unfold got_ok. rewrite Hn. by apply ok_got. Qed.

Lemma rest_cache single s s' w : rest_ok single s w -> rest_ok single s (set_cache s' w).
Proof. intros R. destruct R. by split. Qed.

Lemma candidates_nonempty l : candidates l <> [].
Proof. by destruct l. Qed.

Lemma get_ok single w fiber uri proxies force load allowed now : world_ok single w -> fiber ∉ busy w -> (single = true -> force = false /\ length (candidates proxies) = 1) ->
  exists w', perform (Get fiber uri proxies force load allowed now) w = Ok w' /\ world_ok single w'.
Proof.
  intros [T R] Hf Hs. cbn [perform]. unfold getConnection. destruct (m_closed (w_cache w)) eqn:Hc.
  { eexists. split; [reflexivity |]. apply (proceed_ok single fiber); [done | done |]. cbn. congruence. }
  destruct (clean_ok single _ _ _ _ allowed (T eq_refl)) as (T1 & Hc1 & Hn1). set (s1 := cleanOutDeadConns allowed (w_cache w)) in *.
  destruct (look_up_ok single _ _ _ fiber uri (candidates proxies) now load (if force then [] else candidates proxies) s1 T1) as (o & s' & E & Ho & Hc' & Hn').
  - congruence.
  - apply candidates_nonempty.
  - intros p Hp. destruct force; [by apply not_elem_of_nil in Hp | done].
  - intros Hsi. destruct (Hs Hsi) as [-> Hl]. destruct (candidates proxies) as [| p [|]]; try done. exists p. auto.
  - rewrite E. cbn. eexists. split; [reflexivity |]. apply (proceed_ok single fiber); [| done | done]. eapply rest_same; [exact R | congruence | congruence].
Qed.

Lemma resume_ok single w a load now : world_ok single w -> a ∈ w_ready w -> exists w', perform (Resume a load now) w = Ok w' /\ world_ok single w'.
Proof.
  intros [T R] Ha. cbn [perform]. destruct (leave_ready_ok _ _ _ a R Ha) as [R' Hf]. destruct (ok_waits _ _ _ R a) as [(Hh & Hv & Hr) Hs]; [apply elem_of_app; by right |].
  unfold wait_resumed. destruct (match i_lastFailed _ with Some t => _ | None => _ end).
  { eexists. split; [reflexivity |]. by apply (proceed_ok single (a_fiber a)). }
  destruct (m_closed (w_cache w)) eqn:Hc.
  { eexists. split; [reflexivity |]. apply (proceed_ok single (a_fiber a)); [done | done |]. cbn. congruence. }
  destruct (look_up_ok single _ _ _ (a_fiber a) (a_uri a) (a_all a) now load (a_rest a) (w_cache w) (T eq_refl) Hc) as (o & s' & E & Ho & Hc' & Hn').
  - intros E. rewrite E in Hv. by apply not_elem_of_nil in Hv.
  - done.
  - intros Hsi. destruct (Hs Hsi) as (p & H1 & H2). exists p. auto.
  - rewrite E. cbn. eexists. split; [reflexivity |]. apply (proceed_ok single (a_fiber a)); [| done | done]. eapply rest_same; [exact R' | congruence | congruence].
Qed.

(** One fiber less establishes a connection. *)
Lemma leave_count cn a j : NoDup (a_fiber <$> cn) -> a ∈ cn -> connecting_on cn j = connecting_on (leave a cn) j + if decide (a_info a = j) then 1 else 0.
Proof.
  induction cn as [| b cn IH]; intros Hn Ha; [by apply not_elem_of_nil in Ha |]. cbn in Hn. apply NoDup_cons in Hn as [Hb Hn].
  change (b :: cn) with ([b] ++ cn). unfold leave. rewrite filter_app, !connecting_on_app. fold (leave a cn). rewrite connecting_on_one. destruct (decide (a_fiber a = a_fiber b)) as [E | E].
  - assert (Hab : a = b).
    { apply elem_of_cons in Ha as [-> | Ha]; [done |]. destruct Hb. rewrite <- E. by apply list_elem_of_fmap_2. }
    subst b. assert (Hl : leave a cn = cn).
    { clear -Hb. unfold leave. induction cn as [| b cn IH]; [done |]. cbn in Hb. apply not_elem_of_cons in Hb as [H1 H2]. rewrite filter_cons, decide_True by done. by rewrite IH. }
    rewrite Hl. replace (filter _ [a]) with (@nil attempt) by (cbn; by rewrite decide_False by (unfold same_attempt; tauto)). cbn. lia.
  - apply elem_of_cons in Ha as [-> | Ha]; [done |]. rewrite (IH Hn Ha). replace (filter _ [b]) with [b] by (cbn; by rewrite decide_True by done). rewrite connecting_on_one. lia.
Qed.

Lemma leave_other cn a b : b ∈ leave a cn -> b ∈ cn.
Proof. by intros [_ ?]%list_elem_of_filter. Qed.

Section Finishes.
Context {single : bool} {w : world} (W : world_ok single w) {a : attempt} (Ha : a ∈ w_connecting w).

Lemma connecting_nodup : NoDup (a_fiber <$> w_connecting w).
Proof using W.
  pose proof (ok_fibers _ _ _ (ok_rest _ _ W)) as Hn. unfold busy in Hn. rewrite !fmap_app in Hn. apply NoDup_app in Hn as (_ & _ & Hn). by apply NoDup_app in Hn as (_ & _ & Hn).
Qed.

(** After the condition of its info is broadcast. *)
Lemma still_waiting b : m_closed (w_cache w) = false ->
  (b ∈ filter (fun b => ~ wakes (i_waiters (m_infos (w_cache w) (a_info a))) b) (w_waiting w) <-> b ∈ w_waiting w /\ a_info b <> a_info a) /\
  (b ∈ filter (wakes (i_waiters (m_infos (w_cache w) (a_info a)))) (w_waiting w) <-> b ∈ w_waiting w /\ a_info b = a_info a).
Proof using W Ha.
  intros Hc. pose proof (t_connecting _ _ _ _ _ (ok_table _ _ W Hc) a Ha) as Hh. rewrite !list_elem_of_filter. pose proof (waiters_waiting W Hc _ _ b Hh). tauto.
Qed.

Lemma own_blank : m_closed (w_cache w) = false -> 0 < blanks (i_connections (m_infos (w_cache w) (a_info a))) /\ m_conns (w_cache w) !! a_host a = Some (a_info a).
Proof using W Ha.
  intros Hc. pose proof (ok_table _ _ W Hc) as T. pose proof (t_connecting _ _ _ _ _ T a Ha) as Hh. destruct (t_entry _ _ _ _ _ T _ _ Hh) as (_ & _ & ->). split; [by apply connecting_pos | done].
Qed.

Lemma establish_ok : exists w', perform (Establish a) w = Ok w' /\ world_ok single w' /\ (forall b, b ∈ w_waiting w -> a_info b = a_info a -> b ∈ w_ready w').
Proof using W Ha.
  destruct (leave_connecting_ok _ _ _ a (ok_rest _ _ W) Ha) as [R Hf]. destruct (ok_connects _ _ _ (ok_rest _ _ W) a Ha) as [(Hh & Hv & Hr) Hs].
  assert (Rm : forall woken s', m_closed s' = m_closed (w_cache w) -> next_connection (w_cache w) <= next_connection s' ->
    rest_ok single s' (wake woken (made (next_connection (w_cache w)) (a_host a) (leave_connecting a w)))).
  { intros woken s' Hc Hn. apply wake_rest. destruct R as [R1 R2 R3 R4 R5]. split; try done; [cbn; rewrite Hc; exact R1 |]. intros uri all k Hk. destruct (R5 uri all k Hk) as [H1 (p & Hp & E)]. cbn in H1.
    split; [lia |]. exists p. split; [done |]. cbn. by rewrite fn_lookup_insert_ne by lia. }
  assert (Hb : forall woken, a_fiber a ∉ busy (wake woken (made (next_connection (w_cache w)) (a_host a) (leave_connecting a w)))) by (intros woken; by rewrite wake_busy).
  cbn [perform]. unfold established. destruct (m_closed (w_cache w)) eqn:Hc.
  { eexists. split; [reflexivity |]. split; [| intros b Hw; rewrite (ok_closed _ _ _ (ok_rest _ _ W) Hc) in Hw; by apply not_elem_of_nil in Hw]. apply (proceed_ok single (a_fiber a)); [by apply Rm | done |]. cbn. congruence. }
  destruct (own_blank Hc) as [Hbl Hco]. pose proof (ok_table _ _ W Hc) as T. cbn [m_infos count_connection]. pose proof (fill_first_spec (next_connection (w_cache w)) (i_connections (m_infos (w_cache w) (a_info a)))) as Hfill.
  destruct (fill_first _ _) as [l |]; [| lia]. destruct Hfill as (F1 & F2 & F3). cbn [broadcast mbind result_bind]. eexists. split; [reflexivity |].
  cbn [m_infos set_info count_connection]. rewrite fn_lookup_insert. cbn [i_waiters set_connections]. set (woken := i_waiters _). destruct (t_entry _ _ _ _ _ T _ _ Hco) as (Hi & Hne & Hcnt). split.
  - apply (proceed_ok single (a_fiber a)); [apply Rm; [done | cbn; lia] | apply Hb |]. cbn [outcome_ok]. split.
    { split; [cbn; lia |]. exists (a_via a). split; [done |]. cbn. by rewrite fn_lookup_insert. }
    intros _. eapply (table_put (a_host a) (a_info a) T); cbn [m_infos m_conns m_connectionsPerHost next_info next_connection set_info count_connection wake made leave_connecting w_waiting w_connecting w_host];
      rewrite ?fn_lookup_insert; cbn [i_connections i_waiters set_connections set_waiters]; try done.
    + intros j Hj. by rewrite !fn_lookup_insert_ne.
    + lia.
    + intros j Hj. rewrite (leave_count _ a j connecting_nodup Ha), decide_False by done. lia.
    + intros b Hb' Hn. by apply still_waiting.
    + intros k Hk. by rewrite fn_lookup_insert_ne by lia.
    + by left.
    + by rewrite insert_id.
    + intros ->. destruct (i_connections (m_infos (w_cache w) (a_info a))); [done | cbn in F2; lia].
    + rewrite (leave_count _ a (a_info a) connecting_nodup Ha), decide_True in Hcnt by done. lia.
    + intros b Hb'. left. by eapply leave_other.
    + intros b Hb'. left. by apply still_waiting.
    + intros f Hf'. by apply not_elem_of_nil in Hf'.
    + intros k Hk. apply F3 in Hk as [Hk | [= ->]]; [| rewrite fn_lookup_insert; split; [done | lia]]. destruct (t_hosts _ _ _ _ _ T _ _ _ Hco Hk) as [<- Hlt]. rewrite fn_lookup_insert_ne by lia. split; [done | lia].
    + intros Hsi. rewrite F2. by apply (t_limit _ _ _ _ _ T Hsi _ _ Hco).
  - intros b Hb' E. cbn. apply elem_of_app. right. by apply still_waiting.
Qed.

(** The next candidate, when the table is in order again. *)
Lemma try_next_ok e now s w' : (m_closed s = false -> table single s (w_waiting w') (w_connecting w') (w_host w')) -> rest_ok single s w' -> a_fiber a ∉ busy w' -> connects_ok single a ->
  world_ok single (let '(o, s) := try_next a e now s in proceed (a_uri a) (a_all a) o s w').
Proof using Type.
  intros T R Hf [(Hh & Hv & Hr) Hs]. unfold try_next. destruct (a_rest a) as [| p rest] eqn:Er; [by apply (proceed_ok single (a_fiber a)) |]. destruct (retriable e); [| by apply (proceed_ok single (a_fiber a))].
  pose proof (via_proxy_ok single _ _ _ (a_fiber a) (a_uri a) (a_all a) now s p rest T) as H. destruct (getConnectionViaProxy _ _ _ _ _ _ _) as [o s'].
  destruct H as (Ho & Hc & Hn); [apply Hr; by left | intros q Hq; apply Hr; by right | intros Hsi; by specialize (Hs Hsi) |]. apply (proceed_ok single (a_fiber a)); [| done | done]. by eapply rest_same.
Qed.

Lemma fail_ok e now : exists w', perform (Fail a e now) w = Ok w' /\ world_ok single w' /\ (forall b, b ∈ w_waiting w -> a_info b = a_info a -> b ∈ w_ready w').
Proof using W Ha.
  destruct (leave_connecting_ok _ _ _ a (ok_rest _ _ W) Ha) as [R Hf]. pose proof (ok_connects _ _ _ (ok_rest _ _ W) a Ha) as Hco.
  assert (Hb : forall woken, a_fiber a ∉ busy (wake woken (leave_connecting a w))) by (intros woken; by rewrite wake_busy).
  cbn [perform]. unfold failed. destruct (m_closed (w_cache w)) eqn:Hc.
  { pose proof (try_next_ok e now (w_cache w) (wake [] (leave_connecting a w))) as H. destruct (try_next a e now (w_cache w)) as [o s']. cbn. eexists. split; [reflexivity |].
    split; [apply H; [congruence | by apply wake_rest | done | done] | intros b Hw; rewrite (ok_closed _ _ _ (ok_rest _ _ W) Hc) in Hw; by apply not_elem_of_nil in Hw]. }
  destruct (own_blank Hc) as [Hbl Hh]. pose proof (ok_table _ _ W Hc) as T. destruct (erase_first_spec _ Hbl) as (F1 & F2 & F3). destruct (t_entry _ _ _ _ _ T _ _ Hh) as (Hi & Hne & Hcnt).
  assert (Hleave : forall j, j <> a_info a -> connecting_on (leave a (w_connecting w)) j = connecting_on (w_connecting w) j) by (intros j Hj; rewrite (leave_count _ a j connecting_nodup Ha), decide_False by done; lia).
  assert (Hown : blanks (erase_first (i_connections (m_infos (w_cache w) (a_info a)))) = connecting_on (leave a (w_connecting w)) (a_info a)) by (rewrite (leave_count _ a (a_info a) connecting_nodup Ha), decide_True in Hcnt by done; lia).
  cbn [broadcast m_infos set_info]. rewrite !fn_lookup_insert. cbn [i_waiters i_connections set_connections set_lastFailed set_waiters]. set (woken := i_waiters _).
  set (s2 := set_info (a_info a) (set_waiters []) _). assert (H2 : forall j, j <> a_info a -> m_infos s2 j = m_infos (w_cache w) j) by (intros j Hj; cbn; by rewrite !fn_lookup_insert_ne).
  assert (Hsub : forall b, b ∈ leave a (w_connecting w) -> b ∈ w_connecting w) by (intros b; apply leave_other).
  assert (Hex : exists s3, (if bool_decide (erase_first (i_connections (m_infos (w_cache w) (a_info a))) = []) then
      if bool_decide (m_conns s2 !! a_host a = Some (a_info a)) then Ok (set_conns (delete (a_host a) (m_conns s2)) s2) else Err Undefined else Ok s2) = Ok s3 /\
      table single s3 (w_waiting (wake woken (leave_connecting a w))) (leave a (w_connecting w)) (w_host w) /\ m_closed s3 = m_closed (w_cache w) /\ next_connection s3 = next_connection (w_cache w)).
  { case_bool_decide as He.
    - rewrite bool_decide_true by exact Hh. eexists. split; [reflexivity |]. split_and!; [| done | done]. rewrite He in Hown. cbn in Hown.
      eapply (table_delete (a_host a) (a_info a) T); try done.
      + intros b Hw Hn. cbn. by apply still_waiting.
      + intros b Hb'. split; [by apply Hsub |]. intros E. pose proof (connecting_pos _ b Hb'). rewrite E in *. lia.
      + intros b Hb'. by apply still_waiting.
    - eexists. split; [reflexivity |]. split_and!; [| done | done].
      eapply (table_put (a_host a) (a_info a) T); cbn [s2 m_infos m_conns m_connectionsPerHost next_info next_connection set_info]; rewrite ?fn_lookup_insert; cbn [i_connections i_waiters set_connections set_lastFailed set_waiters]; try done.
      + intros j Hj; by rewrite !fn_lookup_insert_ne.
      + intros b Hw Hn. cbn. by apply still_waiting.
      + by left.
      + by rewrite insert_id.
      + intros b Hb'. left. by apply Hsub.
      + intros b Hb'. left. by apply still_waiting.
      + intros f Hf'. by apply not_elem_of_nil in Hf'.
      + intros k Hk. apply (t_hosts _ _ _ _ _ T _ (a_info a)); [done | by apply F3].
      + intros Hsi. pose proof (t_limit _ _ _ _ _ T Hsi _ _ Hh). lia. }
  destruct Hex as (s3 & -> & T3 & Hc3 & Hn3). cbn [mbind result_bind].
  pose proof (try_next_ok e now s3 (wake woken (leave_connecting a w)) (fun _ => T3)) as H. destruct (try_next a e now s3) as [o s'] eqn:Et. cbn. eexists. split; [reflexivity |]. split.
  - apply H; [apply wake_rest; by eapply rest_same | done | done].
  - intros b Hb' E. assert (Hr : b ∈ w_ready (wake woken (leave_connecting a w))) by (cbn; apply elem_of_app; right; by apply still_waiting). destruct o; exact Hr.
Qed.
End Finishes.

(** Dropping a connection: nobody waits for it. *)
Lemma drop_ok single w host connection : world_ok single w -> exists w', perform (Drop host connection) w = Ok w' /\ world_ok single w'.
Proof.
  intros [T R]. eexists. split; [reflexivity |]. unfold dropConnection. destruct (m_conns (w_cache w) !! host) as [i |] eqn:Hh; [| by split; [| apply rest_cache]]. case_bool_decide as Hk; [| by split; [| apply rest_cache]].
  set (f := fun x => set_connections (erase_connection connection (i_connections x)) x).
  destruct (edit_entry_spec f (w_cache w) (host, i) Hh) as (E1 & E2 & E3 & E4 & E5 & E6). set (s' := edit_entry f (w_cache w) (host, i)) in *. cbn [fst snd] in *.
  split; [| eapply rest_same; [by apply rest_cache | done | done]]. cbn [w_cache w_waiting w_connecting w_host set_cache]. rewrite E3. intros Hc. specialize (T Hc).
  destruct (erase_connection_spec connection (i_connections (m_infos (w_cache w) i))) as (F1 & F2 & F3). destruct (t_entry _ _ _ _ _ T host i Hh) as (Hi & Hne & Hcnt).
  assert (Hinfo : m_infos s' i = f (m_infos (w_cache w) i)) by (rewrite E1; by rewrite bool_decide_true).
  destruct (decide (i_connections (f (m_infos (w_cache w) i)) = [])) as [He | He].
  - change (erase_connection connection (i_connections (m_infos (w_cache w) i)) = []) in He. rewrite He in F1. cbn in F1. eapply (table_delete host i T); try done; try lia.
    + intros j Hj. rewrite E1. by rewrite bool_decide_false.
    + apply map_eq. intros h. rewrite E2. destruct (decide (h = host)) as [-> | ?]; [by rewrite !bool_decide_true, lookup_delete_eq by done | by rewrite (bool_decide_false (h = host)), lookup_delete_ne by done].
    + intros a Ha. split; [done |]. intros E. pose proof (connecting_pos _ a Ha). rewrite E in *. lia.
    + intros a Ha. split; [done |]. intros E. destruct (t_waiting _ _ _ _ _ T a Ha) as (_ & _ & H). rewrite E in H. lia.
  - eapply (table_put host i T); rewrite ?Hinfo; try done; try lia.
    + intros j Hj. rewrite E1. by rewrite bool_decide_false.
    + by left.
    + apply map_eq. intros h. rewrite E2, (bool_decide_false (_ = [])), andb_false_r by done. destruct (decide (h = host)) as [-> | ?]; [by rewrite lookup_insert_eq | by rewrite lookup_insert_ne].
    + by rewrite <- Hcnt.
    + by left.
    + intros a Ha. destruct (t_waiting _ _ _ _ _ T a Ha) as (H1 & H2 & H3). destruct (decide (a_info a = i)) as [E | E]; [right | by left]. rewrite E in H1, H2, H3. cbn [f i_waiters i_connections set_connections]. rewrite F1. split_and!; [done | by apply (t_inj _ _ _ _ _ T _ _ i) | done | done].
    + intros g Hg. by apply (t_waiters _ _ _ _ _ T host).
    + intros k Hk'. rewrite E6. apply (t_hosts _ _ _ _ _ T host i); [done | by apply F3].
    + intros Hsi. pose proof (t_limit _ _ _ _ _ T Hsi _ _ Hh). etransitivity; [exact F2 | done].
Qed.

(** All that wait are woken. *)
Lemma waiters_of_all single w : world_ok single w -> m_closed (w_cache w) = false -> filter (fun a => ~ wakes (waiters_of (w_cache w) (map_to_list (m_conns (w_cache w)))) a) (w_waiting w) = [].
Proof.
  intros [T R] Hc. specialize (T Hc). apply elem_of_nil_inv. intros a [Hn Ha]%list_elem_of_filter. apply Hn. unfold wakes, waiters_of. destruct (t_waiting _ _ _ _ _ T a Ha) as (H1 & H2 & _).
  apply list_elem_of_In, in_concat. exists (i_waiters (m_infos (w_cache w) (a_info a))). split; [| by apply list_elem_of_In]. apply list_elem_of_In, list_elem_of_fmap. exists (a_host a, a_info a). split; [done |].
  by apply elem_of_map_to_list.
Qed.

Lemma edit_counters f l : forall s, m_closed (foldl (edit_entry f) s l) = m_closed s /\ next_connection (foldl (edit_entry f) s l) = next_connection s.
Proof. induction l as [| e l IH]; intros s; cbn [foldl]; [done |]. destruct (IH (edit_entry f s e)) as [-> ->]. unfold edit_entry. by case_bool_decide. Qed.

Lemma close_idle_ok single w : world_ok single w -> exists w', perform CloseIdle w = Ok w' /\ world_ok single w'.
Proof.
  intros W. pose proof W as [T R]. eexists. split; [reflexivity |]. cbn [closeIdleConnections]. set (f := fun x => keep blank (set_waiters [] x)).
  destruct (edit_counters f (map_to_list (m_conns (w_cache w))) (w_cache w)) as [Hc' Hn']. split; [| apply wake_rest; eapply rest_same; [by apply rest_cache | done | done]].
  cbn [w_cache w_waiting w_connecting w_host wake set_cache]. rewrite Hc'. intros Hc. rewrite (waiters_of_all single w W Hc). apply edit_table with (w_waiting w); [by apply T | intros x; by apply filter_blanks | by right].
Qed.

Lemma abort_ok single w : world_ok single w -> exists w', perform Abort w = Ok w' /\ world_ok single w'.
Proof.
  intros W. pose proof W as [T R]. eexists. split; [reflexivity |]. cbn [abortConnections].
  assert (Hs : forall l s, m_closed (foldl (fun s e => set_info e.2 (set_waiters []) s) s l) = m_closed s /\ next_connection (foldl (fun s (e : nat * nat) => set_info e.2 (set_waiters []) s) s l) = next_connection s).
  { induction l as [| e l IH]; intros s; cbn [foldl]; [done |]. destruct (IH (set_info e.2 (set_waiters []) s)) as [-> ->]. done. }
  set (l := map_to_list (m_conns (w_cache w))). destruct (Hs l (set_closed (w_cache w))) as [Hc Hn]. split; [cbn [w_cache wake set_cache m_closed set_conns]; intros H; by rewrite Hc in H |].
  assert (Hw : filter (fun a => ~ wakes (waiters_of (w_cache w) l) a) (w_waiting w) = []).
  { destruct (m_closed (w_cache w)) eqn:E; [by rewrite (ok_closed _ _ _ R E) | by apply (waiters_of_all single)]. }
  pose proof (wake_rest single (w_cache w) w (waiters_of (w_cache w) l) R) as [R1 R2 R3 R4 R5]. split; try done. intros uri all k Hk. destruct (R5 uri all k Hk) as [H1 H2]. split; [cbn; rewrite Hn; exact H1 | exact H2].
Qed.

Lemma perform_broker_ok single act w : world_ok single w -> enabled single act w -> exists w', perform act w = Ok w' /\ world_ok single w'.
Proof.
  intros W E. destruct act as [fiber uri proxies force load allowed now | a load now | a | a e now | | | host connection]; cbn [enabled] in E.
  - destruct E. by apply get_ok.
  - by apply resume_ok.
  - destruct (establish_ok W E) as (w' & ? & ? & _). by exists w'.
  - destruct (fail_ok W E e now) as (w' & ? & ? & _). by exists w'.
  - by apply close_idle_ok.
  - by apply abort_ok.
  - by apply drop_ok.
Qed.

Lemma broker_reachable_ok single n w : reachable single n w -> world_ok single w.
Proof.
  induction 1 as [| w w' act Hw IH E Hp].
  - split; [| split; cbn; try done; try (intros; by (exfalso; eapply not_elem_of_nil)); constructor]. intros _. split; cbn; try done; intros *; try (rewrite lookup_empty; done); intros H; by apply not_elem_of_nil in H.
  - destruct (perform_broker_ok single act w IH E) as (w'' & Hw'' & W). rewrite Hp in Hw''. by injection Hw'' as ->.
Qed.

(** ** The theorems *)

(** C20 -- Whatever fibers get connections from a cache, with or without proxies, while connections are established, fail, are dropped, closed or aborted, in any order, no assertion fails and no iterator is used
    that is not valid any more: a connection that has been established always finds its blank place, and an entry that is erased after a failure is still in the table. *)
Theorem cache_no_assertion single n w act : reachable single n w -> enabled single act w -> exists w', perform act w = Ok w' /\ reachable single n w'.
Proof.
  intros Hw E. destruct (perform_broker_ok single act w (broker_reachable_ok _ _ _ Hw) E) as (w' & Hp & _). exists w'. split; [done |]. by eapply reachable_step.
Qed.

(** C21 -- A call gets a connection to the host that it asked for, or to one of its proxies: every connection that was handed out was established to the end point of one of the candidates of the call, and every connection in
    the table is under the host it was established to; and when calls have one candidate and do not force a new connection, no host ever has more connections than the cache allows (one if it allows none). *)
Theorem cache_right_host single n w : reachable single n w ->
  (forall uri all k, (uri, all, k) ∈ w_got w -> exists p, p ∈ all /\ w_host w k = endpoint uri p) /\
  (m_closed (w_cache w) = false -> forall h i, m_conns (w_cache w) !! h = Some i ->
    (forall k, Some k ∈ i_connections (m_infos (w_cache w) i) -> w_host w k = h) /\
    (single = true -> length (i_connections (m_infos (w_cache w) i)) <= Nat.max 1 (m_connectionsPerHost (w_cache w)))).
Proof.
  intros Hw. apply broker_reachable_ok in Hw as [T R]. split; [intros uri all k Hk; by apply (ok_got _ _ _ R) |]. intros Hc h i Hh. specialize (T Hc). split.
  - intros k Hk. by apply (t_hosts _ _ _ _ _ T h i).
  - intros Hs. by apply (t_limit _ _ _ _ _ T Hs h).
Qed.

(** C19 -- Nobody waits in vain for a connection: the cache of a fiber that waits has not been aborted, and another fiber is establishing a connection to the same host; whether that is established or fails, for
    whatever reason, the one that waits is woken. *)
Theorem cache_no_lost_wakeup single n w a : reachable single n w -> a ∈ w_waiting w ->
  m_closed (w_cache w) = false /\ exists b, b ∈ w_connecting w /\ a_host b = a_host a /\
    (exists w', perform (Establish b) w = Ok w' /\ a ∈ w_ready w') /\ (forall e now, exists w', perform (Fail b e now) w = Ok w' /\ a ∈ w_ready w').
Proof.
  intros Hw Ha. pose proof (broker_reachable_ok _ _ _ Hw) as W. pose proof W as [T R].
  assert (Hc : m_closed (w_cache w) = false) by (destruct (m_closed (w_cache w)) eqn:E; [rewrite (ok_closed _ _ _ R E) in Ha; by apply not_elem_of_nil in Ha | done]).
  split; [done |]. specialize (T Hc). destruct (t_waiting _ _ _ _ _ T a Ha) as (H1 & H2 & H3). destruct (t_entry _ _ _ _ _ T _ _ H1) as (_ & _ & E). rewrite E in H3.
  assert (Hb : exists b, b ∈ w_connecting w /\ a_info b = a_info a).
  { unfold connecting_on in H3. destruct (filter _ (w_connecting w)) as [| b l] eqn:El; [cbn in H3; lia |]. assert (Hb : b ∈ filter (fun x => a_info x = a_info a) (w_connecting w)) by (rewrite El; by left). apply list_elem_of_filter in Hb as [? ?]. by exists b. }
  destruct Hb as (b & Hb & Ei). exists b. split; [done |]. pose proof (t_connecting _ _ _ _ _ T b Hb) as H4. rewrite Ei in H4. split_and!.
  - by apply (t_inj _ _ _ _ _ T _ _ (a_info a)).
  - destruct (establish_ok W Hb) as (w' & Hp & _ & Hr). exists w'. split; [done |]. by apply Hr.
  - intros e now. destruct (fail_ok W Hb e now) as (w' & Hp & _ & Hr). exists w'. split; [done |]. by apply Hr.
Qed.

(** ** Runs *)

Fixpoint run (l : list action) (w : world) : result world :=
  match l with [] => Ok w | act :: l => w' ← perform act w; run l w' end.

Definition idle (_ : nat) : nat := 0.
Definition always (_ : nat) : bool := true.
Definition get (fiber uri : nat) (proxies : list proxy) (now : Z) : action := Get fiber uri proxies false idle always now.

(** The attempts of a fiber at a host without a proxy. *)
Definition connecting (fiber uri : nat) (info : nat) (start : Z) : attempt := mkAttempt fiber uri [] [NoProxy] NoProxy uri info start.
Definition waiting (fiber uri : nat) (info : nat) (start : Z) : attempt := mkAttempt fiber uri [NoProxy] [NoProxy] NoProxy uri info start.

(** One fiber establishes a connection and another waits for it. *)
Definition one_waits : world := match run [get 1 7 [] 0; get 2 7 [] 10] (world_new 1) with Ok w => w | Err _ => world_new 1 end.

Lemma one_waits_reachable : reachable true 1 one_waits.
Proof.
  destruct (perform (get 1 7 [] 0) (world_new 1)) as [w1 |] eqn:E1; [| vm_compute in E1; done].
  assert (Hw1 : reachable true 1 w1) by (eapply reachable_step; [apply reachable_new | | exact E1]; split; [apply not_elem_of_nil | done]).
  eapply reachable_step; [exact Hw1 | | ]; [| instantiate (1 := get 2 7 [] 10); vm_compute in E1; injection E1 as <-; vm_compute; reflexivity].
  split; [| done]. vm_compute in E1. injection E1 as <-. vm_compute. intros [H | H]%list_elem_of_In; [done | done].
Qed.

Lemma cache_no_assertion_witness : exists w', perform (Establish (connecting 1 7 0 0)) one_waits = Ok w' /\ reachable true 1 w'.
Proof. apply (cache_no_assertion true 1 one_waits); [apply one_waits_reachable | vm_compute; apply list_elem_of_In; by left]. Defined.

Lemma cache_right_host_witness : length (i_connections (m_infos (w_cache one_waits) 0)) <= 1.
Proof.
  destruct (cache_right_host true 1 one_waits one_waits_reachable) as [_ H]. destruct (H eq_refl 7 0) as [_ Hl]; [vm_compute; reflexivity | exact (Hl eq_refl)].
Defined.

Lemma cache_no_lost_wakeup_witness : m_closed (w_cache one_waits) = false.
Proof. apply (cache_no_lost_wakeup true 1 one_waits (waiting 2 7 0 10) one_waits_reachable). vm_compute. apply list_elem_of_In. by left. Defined.

(** ** Where the code goes wrong *)

(** The time of a failure is never forgotten: a fiber that waits for a connection that is then established is told that it failed, because one had failed before. *)
Lemma stale_failure : exists w,
  run [get 1 7 [] 0; get 2 7 [] 0; Fail (connecting 1 7 0 0) SocketError 5; get 3 7 [] 6; get 4 7 [] 10; Establish (connecting 2 7 0 0)] (world_new 2) = Ok w /\
  w_ready w = [waiting 4 7 0 10] /\ i_connections (m_infos (w_cache w) 0) = [Some 0; None] /\
  (fst <$> wait_resumed idle (waiting 4 7 0 10) 20 (w_cache w)) = Ok (Threw PriorConnectionFailed).
Proof. eexists. split; [vm_compute; reflexivity |]. split_and!; vm_compute; reflexivity. Qed.

(** With two proxies, a fiber that has waited for the second one makes a new connection to the first one without looking whether there is one by now. *)
Lemma limit_exceeded : let two := [HttpProxy 1; HttpProxy 2] in exists w,
  run [get 1 7 [HttpProxy 2] 0; get 2 7 two 10; get 3 7 [HttpProxy 1] 11; Establish (mkAttempt 1 7 [] [HttpProxy 2] (HttpProxy 2) 2 0 0); Drop 2 0;
       Resume (mkAttempt 2 7 [HttpProxy 2] two (HttpProxy 2) 2 0 10) idle 20] (world_new 1) = Ok w /\
  m_conns (w_cache w) !! 1 = Some 1 /\ i_connections (m_infos (w_cache w) 1) = [None; None].
Proof. eexists. split; [vm_compute; reflexivity |]. split; vm_compute; reflexivity. Qed.

(** A proxy of a type that is not supported is meant to be left out of the candidates; the connection is made without a proxy. *)
Lemma unsupported_proxy_direct : exists w, run [get 1 7 [OtherProxy 9] 0] (world_new 1) = Ok w /\ a_host <$> w_connecting w = [7].
Proof. eexists. split; vm_compute; reflexivity. Qed.
