(* ===== verification/Uri.v ===== *)
(** [uri.h] and the code of [uri.rl] around its grammars: percent-encoding, authorities, paths, normalization, comparison, printing and the resolution of references ([URI::transform]).  Text is a list
    of bytes; a path is the list of its segments.  The grammars themselves are translated by a parser generator and are not modelled, except that of query strings. *)

From Stdlib Require Import String Ascii.
From stdpp Require Import numbers list_numbers list.
From S2P Require Import Prelude Http.

(** ** Percent-encoding *)

Definition alphanumeric : text := str "abcdefghijklmnopqrstuvwxyzABCDEFGHIJKLMNOPQRSTUVWXYZ0123456789".
Definition unreserved : text := alphanumeric ++ str "-._~".
Definition sub_delims : text := str "!$&'()*+,;=".
Definition scheme_chars : text := alphanumeric ++ str "+-.".
Definition userinfo_chars : text := unreserved ++ sub_delims ++ str ":".
Definition host_chars : text := unreserved ++ sub_delims ++ str ":".
Definition pchar : text := unreserved ++ sub_delims ++ str ":@".
Definition segment_nc : text := unreserved ++ sub_delims ++ str "@".
Definition query_chars : text := unreserved ++ sub_delims ++ str ":@/?".
Definition queryString_chars : text := unreserved ++ str "!$'()*,:@/?".

Definition hexdigits : text := str "0123456789ABCDEF".
Definition hexdigit (n : Z) : Z := default 0 (hexdigits !! Z.to_nat n).
Definition SPACE : Z := 32.
Definition PERCENT : Z := 37.
Definition PLUS : Z := 43.

(** [result] is [str] until the first character that is escaped, at index [i]; then what is behind it is erased. *)
Fixpoint escape_loop (allowedChars : text) (spaceAsPlus : bool) (i : Z) (c result : text) (differed : bool) : text * bool :=
  match c with
  | [] => (result, differed)
  | x :: c =>
      if bool_decide (x ∈ allowedChars) then escape_loop allowedChars spaceAsPlus (i + 1) c (if differed then result ++ [x] else result) differed
      else
        let result := if differed then result else ztake i result in
        let result := result ++ (if (x =? SPACE) && spaceAsPlus then [PLUS] else [PERCENT; hexdigit (Z.shiftr x 4); hexdigit (Z.land x 15)]) in
        escape_loop allowedChars spaceAsPlus (i + 1) c result true
  end.

Definition escape (s allowedChars : text) (spaceAsPlus : bool) : result text :=
  let '(result, differed) := escape_loop allowedChars spaceAsPlus 0 s s false in
  assert: (if differed then zlen s <=? zlen result else bool_decide (result = s)) ;;
  Ok result.

Definition hex_value (c : Z) : option Z :=
  if (97 <=? c) && (c <=? 102) then Some (c - 97 + 10)
  else if (65 <=? c) && (c <=? 70) then Some (c - 65 + 10)
  else if (c <? 48) || (57 <? c) then None
  else Some (c - 48).

Fixpoint unescape_loop (spaceAsPlus : bool) (i : Z) (c result : text) (differed : bool) : Prelude.result text :=
  match c with
  | [] => Ok result
  | x :: c =>
      if x =? PERCENT then
        match c with
        | h :: l :: c =>
            let result := if differed then result else ztake i result in
            match hex_value h with
            | None => throw invalid_argument
            | Some high =>
                match hex_value l with
                | None => throw invalid_argument
                | Some low => unescape_loop spaceAsPlus (i + 3) c (result ++ [Z.lor (Z.shiftl high 4) low]) true
                end
            end
        | _ => throw invalid_argument
        end
      else if (x =? PLUS) && spaceAsPlus then unescape_loop spaceAsPlus (i + 1) c ((if differed then result else ztake i result) ++ [SPACE]) true
      else unescape_loop spaceAsPlus (i + 1) c (if differed then result ++ [x] else result) differed
  end.

Definition unescape (s : text) (spaceAsPlus : bool) : result text := unescape_loop spaceAsPlus 0 s s false.

Inductive CharacterClass := UNRESERVED | QUERYSTRING.

Definition encode (s : text) (charClass : CharacterClass) : result text :=
  match charClass with UNRESERVED => escape s unreserved false | QUERYSTRING => escape s queryString_chars true end.
Definition decode (s : text) (charClass : CharacterClass) : result text :=
  match charClass with UNRESERVED => unescape s false | QUERYSTRING => unescape s true end.

(** ** Authorities *)

Record Authority := mkAuthority { m_userinfo : text; m_host : text; m_port : Z; m_userinfoDefined : bool; m_hostDefined : bool; m_portDefined : bool }.
Definition Authority_new : Authority := mkAuthority [] [] (-1) false false false.

Definition set_userinfo (ui : text) (a : Authority) : Authority := mkAuthority ui (m_host a) (m_port a) true true (m_portDefined a).
Definition set_userinfoDefined (d : bool) (a : Authority) : Authority :=
  mkAuthority (if d then m_userinfo a else []) (m_host a) (m_port a) d (if d then true else m_hostDefined a) (m_portDefined a).
Definition set_host (h : text) (a : Authority) : Authority := mkAuthority (m_userinfo a) h (m_port a) (m_userinfoDefined a) true (m_portDefined a).
Definition set_port (p : Z) (a : Authority) : Authority := mkAuthority (m_userinfo a) (m_host a) p (m_userinfoDefined a) true true.
Definition set_portDefined (d : bool) (a : Authority) : Authority :=
  mkAuthority (m_userinfo a) (m_host a) (if d then m_port a else -1) (m_userinfoDefined a) (if d then true else m_hostDefined a) d.
Definition set_hostDefined (d : bool) (a : Authority) : Authority :=
  if d then mkAuthority (m_userinfo a) (m_host a) (m_port a) (m_userinfoDefined a) true (m_portDefined a)
  else let a := set_portDefined false (set_userinfoDefined false (mkAuthority (m_userinfo a) [] (m_port a) (m_userinfoDefined a) (m_hostDefined a) (m_portDefined a))) in
       mkAuthority (m_userinfo a) (m_host a) (m_port a) (m_userinfoDefined a) false (m_portDefined a).

Definition Authority_normalize (defaultHost : text) (emptyHostValid : bool) (defaultPort : Z) (emptyPortValid : bool) (a : Authority) : Authority :=
  let host := tolower <$> m_host a in
  let port := if m_port a =? defaultPort then -1 else m_port a in
  let portDefined := if (port =? -1) && negb emptyPortValid then false else m_portDefined a in
  let host := if bool_decide (host = defaultHost) then [] else host in
  let hostDefined := if bool_decide (host = []) && negb emptyHostValid && negb (m_userinfoDefined a) && negb portDefined then false else m_hostDefined a in
  mkAuthority (m_userinfo a) host port (m_userinfoDefined a) hostDefined portDefined.

Definition boolcmp (lhs rhs : bool) : Z := if negb lhs && rhs then -1 else if lhs && negb rhs then 1 else 0.

(** [strcmp(a.c_str(), b.c_str())]: a zero byte ends the text. *)
Fixpoint strcmp (a b : text) : Z :=
  let ca := match a with c :: _ => c | [] => 0 end in
  let cb := match b with c :: _ => c | [] => 0 end in
  if negb (ca =? cb) then ca - cb
  else match a, b with
       | c :: a, _ :: b => if c =? 0 then 0 else strcmp a b
       | _, _ => 0
       end.

(** [if (x != 0) return x;] *)
Definition orelse (x y : Z) : Z := if negb (x =? 0) then x else y.

(** The difference of the ports, which are of type [int], wraps around where it overflows, as compilers usually have it. *)
Definition Authority_cmp (lhs rhs : Authority) : Z :=
  orelse (boolcmp (m_hostDefined lhs) (m_hostDefined rhs))
  (orelse (strcmp (m_host lhs) (m_host rhs))
  (orelse (boolcmp (m_portDefined lhs) (m_portDefined rhs))
  (orelse (s32 (m_port lhs - m_port rhs))
  (orelse (boolcmp (m_userinfoDefined lhs) (m_userinfoDefined rhs))
  (strcmp (m_userinfo lhs) (m_userinfo rhs)))))).

Definition print_Authority (a : Authority) : result text :=
  assert: m_hostDefined a ;;
  ui ← (if m_userinfoDefined a then (fun e => e ++ str "@") <$> escape (m_userinfo a) userinfo_chars false else Ok []);
  host ← escape (m_host a) host_chars false;
  Ok (ui ++ host ++ (if m_portDefined a then str ":" ++ (if 0 <? m_port a then to_dec (m_port a) else []) else [])).

(** ** Paths *)

Definition DOT : text := str ".".
Definition DOTDOT : text := str "..".

Definition makeAbsolute (segments : list text) : list text :=
  match segments with [] => [[]; []] | s :: _ => if bool_decide (s = []) then segments else [] :: segments end.

Definition makeRelative (segments : list text) : list text :=
  match segments with
  | [] :: rest => match rest with [[]] => [] | _ => rest end
  | _ => segments
  end.

(** [ownerHost]: the path belongs to a URI that has an authority. *)
Definition append (ownerHost : bool) (segment : text) (segments : list text) : list text :=
  if ownerHost && bool_decide (segments = []) then [[]; segment]
  else if bool_decide (segments = []) || negb (bool_decide (last segments = Some [])) || bool_decide (segments = [[]]) then segments ++ [segment]
  else removelast segments ++ [segment].

(** Erasing the segments from [i] to [j], and clearing segment [i]. *)
Definition erase_range (i j : Z) (segments : list text) : list text := ztake i segments ++ zdrop j segments.
Definition clear_at (i : Z) (segments : list text) : list text := <[Z.to_nat i := []]> segments.

(** The body of the loop, with the index before it is incremented. *)
Definition dot_step (i : Z) (segments : list text) : Z * list text :=
  let s := default [] (segments !! Z.to_nat i) in
  let front := default [] (head segments) in
  if (i =? 0) && bool_decide (s = []) then (i, segments)
  else if bool_decide (s = DOT) then
    if i + 1 =? zlen segments then (i, clear_at i segments) else (u64 (i - 1), erase_range i (i + 1) segments)
  else if bool_decide (s = DOTDOT) then
    if i =? 0 then (u64 (i - 1), erase_range 0 1 segments)
    else if (i =? 1) && bool_decide (front = []) then (u64 (i - 1), erase_range i (i + 1) segments)
    else if i + 1 =? zlen segments then (u64 (i - 1), clear_at (i - 1) (ztake (zlen segments - 1) segments))
    else (u64 (i - 2), erase_range (i - 1) (i + 1) segments)
  else (i, segments).

Fixpoint dot_loop (fuel : nat) (i : Z) (segments : list text) : result (list text) :=
  match fuel with
  | O => Err Diverges
  | S fuel => if i <? zlen segments then let '(i, segments) := dot_step i segments in dot_loop fuel (u64 (i + 1)) segments else Ok segments
  end.

(** Each round takes a step forward or makes the path shorter. *)
Definition removeDotComponents (segments : list text) : result (list text) := dot_loop (2 * length segments + 1) 0 segments.

Definition merge (rhs segments : list text) : result (list text) :=
  assert: negb (path_isAbsolute rhs) ;;
  Ok (match segments with [] => rhs | _ => removelast segments ++ rhs end).

(** A path without a scheme must not have a colon in its first segment. *)
Fixpoint print_segments (l : list text) : result text :=
  match l with
  | [] => Ok []
  | s :: l => s ← escape s pchar false; rest ← print_segments l; Ok (str "/" ++ s ++ rest)
  end.
Definition print_Path (schemeless : bool) (segments : list text) : result text :=
  match segments with
  | [] => Ok []
  | s :: l => s ← escape s (if schemeless then segment_nc else pchar) false; rest ← print_segments l; Ok (s ++ rest)
  end.

Fixpoint Path_cmp (lhs rhs : list text) : Z :=
  match lhs, rhs with
  | [], _ :: _ => -1
  | _ :: _, [] => 1
  | [], [] => 0
  | l :: lhs, r :: rhs => orelse (strcmp l r) (Path_cmp lhs rhs)
  end.

(** ** URIs *)

Record URI := mkURI {
  authority : Authority;
  path : list text;
  m_scheme : text;
  m_query : text;
  m_fragment : text;
  m_schemeDefined : bool;
  m_queryDefined : bool;
  m_fragmentDefined : bool;
}.
Definition URI_new : URI := mkURI Authority_new [] [] [] [] false false false.

Definition set_scheme (s : text) (u : URI) : URI := mkURI (authority u) (path u) s (m_query u) (m_fragment u) true (m_queryDefined u) (m_fragmentDefined u).
Definition set_schemeDefined (d : bool) (u : URI) : URI :=
  mkURI (authority u) (path u) (if d then m_scheme u else []) (m_query u) (m_fragment u) d (m_queryDefined u) (m_fragmentDefined u).
Definition set_authority (a : Authority) (u : URI) : URI := mkURI a (path u) (m_scheme u) (m_query u) (m_fragment u) (m_schemeDefined u) (m_queryDefined u) (m_fragmentDefined u).
Definition set_path (p : list text) (u : URI) : URI := mkURI (authority u) p (m_scheme u) (m_query u) (m_fragment u) (m_schemeDefined u) (m_queryDefined u) (m_fragmentDefined u).
Definition set_query (q : text) (d : bool) (u : URI) : URI := mkURI (authority u) (path u) (m_scheme u) q (m_fragment u) (m_schemeDefined u) d (m_fragmentDefined u).
Definition set_fragment (f : text) (d : bool) (u : URI) : URI := mkURI (authority u) (path u) (m_scheme u) (m_query u) f (m_schemeDefined u) (m_queryDefined u) d.
Definition set_queryDefined (d : bool) (u : URI) : URI := set_query (if d then m_query u else []) d u.
Definition set_fragmentDefined (d : bool) (u : URI) : URI := set_fragment (if d then m_fragment u else []) d u.

Definition reset (u : URI) : URI :=
  let u := set_schemeDefined false u in
  let u := set_authority (set_hostDefined false (authority u)) u in
  let u := set_path [] u in
  set_fragmentDefined false (set_queryDefined false u).

Definition isDefined (u : URI) : bool :=
  m_schemeDefined u || m_hostDefined (authority u) || negb (path_isEmpty (path u)) || m_queryDefined u || m_fragmentDefined u.

Definition normalize (u : URI) : result URI :=
  let scheme := tolower <$> m_scheme u in
  let a := authority u in
  let a := if bool_decide (scheme = str "http") || bool_decide (scheme = str "https") then Authority_normalize [] false (if zlen scheme =? 4 then 80 else 443) false a
           else if bool_decide (scheme = str "file") then Authority_normalize (str "localhost") true (-1) false a
           else if bool_decide (scheme = str "socks") then Authority_normalize [] false 1080 false a
           else Authority_normalize [] false (-1) false a in
  p ← removeDotComponents (path u);
  Ok (mkURI a p scheme (m_query u) (m_fragment u) (m_schemeDefined u) (m_queryDefined u) (m_fragmentDefined u)).

(** [query()], and [query(q)]. *)
Definition get_query (u : URI) : result text := assert: m_queryDefined u ;; unescape (m_query u) false.
Definition put_query (q : text) (u : URI) : result URI := e ← escape q query_chars false; Ok (set_query e true u).

Definition print_URI (u : URI) : result text :=
  let p := path u in
  let host := m_hostDefined (authority u) in
  assert: (negb host || path_isAbsolute p || path_isEmpty p) ;;
  scheme ← (if m_schemeDefined u then (fun e => e ++ str ":") <$> escape (m_scheme u) scheme_chars false else Ok []);
  a ← (if host then (fun e => str "//" ++ e) <$> print_Authority (authority u) else Ok []);
  let slashes := if m_schemeDefined u && negb host && path_isAbsolute p && (3 <=? zlen p) && bool_decide (p !! 1%nat = Some []) then str "//" else [] in
  segments ← print_Path (negb (m_schemeDefined u)) p;
  let query := if m_queryDefined u then str "?" ++ m_query u else [] in
  fragment ← (if m_fragmentDefined u then (fun e => str "#" ++ e) <$> escape (m_fragment u) query_chars false else Ok []);
  Ok (scheme ++ a ++ slashes ++ segments ++ query ++ fragment).

Definition transform (base relative : URI) : result URI :=
  assert: m_schemeDefined base ;;
  target ← (if m_schemeDefined relative then
              p ← removeDotComponents (path relative);
              Ok (set_query (m_query relative) (m_queryDefined relative) (set_path p (set_authority (authority relative) (set_scheme (m_scheme relative) URI_new))))
            else
              target ← (if m_hostDefined (authority relative) then
                          p ← removeDotComponents (path relative);
                          Ok (set_query (m_query relative) (m_queryDefined relative) (set_path p (set_authority (authority relative) URI_new)))
                        else
                          target ← (if path_isEmpty (path relative) then
                                      let target := set_path (path base) URI_new in
                                      if m_queryDefined relative then q ← get_query relative; put_query q target
                                      else Ok (set_query (m_query base) (m_queryDefined base) target)
                                    else
                                      p ← (if path_isAbsolute (path relative) then Ok (path relative)
                                           else merge (path relative) (if m_hostDefined (authority base) && path_isEmpty (path base) then [[]; []] else path base));
                                      p ← removeDotComponents p;
                                      Ok (set_query (m_query relative) (m_queryDefined relative) (set_path p URI_new)));
                          Ok (set_authority (authority base) target));
              Ok (set_scheme (m_scheme base) target));
  Ok (set_fragment (m_fragment relative) (m_fragmentDefined relative) target).

Definition URI_cmp (lhs rhs : URI) : Z :=
  orelse (boolcmp (m_schemeDefined lhs) (m_schemeDefined rhs))
  (orelse (strcmp (m_scheme lhs) (m_scheme rhs))
  (orelse (Authority_cmp (authority lhs) (authority rhs))
  (orelse (Path_cmp (path lhs) (path rhs))
  (orelse (boolcmp (m_queryDefined lhs) (m_queryDefined rhs))
  (orelse (strcmp (m_query lhs) (m_query rhs))
  (orelse (boolcmp (m_fragmentDefined lhs) (m_fragmentDefined rhs))
  (strcmp (m_fragment lhs) (m_fragment rhs)))))))).

Definition URI_less (lhs rhs : URI) : bool := URI_cmp lhs rhs <? 0.
Definition URI_equal (lhs rhs : URI) : bool := URI_cmp lhs rhs =? 0.

#[global] Instance Authority_eq_dec : EqDecision Authority.
Proof. solve_decision. Defined.
#[global] Instance URI_eq_dec : EqDecision URI.
Proof. solve_decision. Defined.
