(* ===== verification/UriProps.v ===== *)
(** The theorems about [uri.rl]: percent-encoding, dot segments and normalization, comparison, printing and resolution.

    First percent-encoding: what [escape] and [unescape] of [uri.rl] compute, and that decoding what was encoded gives it back. *)

From Stdlib Require Import String Ascii.
From stdpp Require Import numbers list_numbers list.
From S2P Require Import Prelude Http Uri.

(** What a character becomes, and a text. *)
Definition escaped_char (allowed : text) (plus : bool) (x : Z) : text :=
  if bool_decide (x ∈ allowed) then [x] else if (x =? SPACE) && plus then [PLUS] else [PERCENT; hexdigit (Z.shiftr x 4); hexdigit (Z.land x 15)].
Definition escaped (allowed : text) (plus : bool) (s : text) : text := s ≫= escaped_char allowed plus.

Definition byte (x : Z) : Prop := 0 <= x < 256.

Section Escape.
Context (allowed : text) (plus : bool).

Lemma escape_loop_differed i c result : escape_loop allowed plus i c result true = (result ++ escaped allowed plus c, true).
Proof.
  revert i result. induction c as [| x c IH]; intros i result; cbn [escape_loop escaped]; [by rewrite app_nil_r |]. unfold escaped. cbn. fold (escaped allowed plus c).
  unfold escaped_char at 1. case_bool_decide; rewrite IH, <-app_assoc; done.
Qed.

Lemma escape_loop_same pre c : exists d, escape_loop allowed plus (zlen pre) c (pre ++ c) false = (pre ++ escaped allowed plus c, d) /\ (d = false -> escaped allowed plus c = c).
Proof.
  revert pre. induction c as [| x c IH]; intros pre; cbn [escape_loop]; [exists false; split; done |].
  unfold escaped. cbn. fold (escaped allowed plus c). unfold escaped_char at 1 2. case_bool_decide.
  - destruct (IH (pre ++ [x])) as (d & Hd & He). rewrite zlen_app, <-!app_assoc in Hd. cbn in Hd. exists d. split; [exact Hd | intros Hf; cbn; by rewrite (He Hf)].
  - exists true. split; [| done]. rewrite escape_loop_differed, ztake_app_le, ztake_all by lia. by rewrite <-app_assoc.
Qed.

Lemma escaped_length s : zlen s <= zlen (escaped allowed plus s).
Proof.
  induction s as [| x s IH]; [done |]. unfold escaped in *. cbn. rewrite zlen_cons, zlen_app. unfold escaped_char at 1. case_bool_decide; [| destruct (_ && _)]; rewrite ?zlen_cons, ?zlen_nil; lia.
Qed.

(** The assertions at the end of [escape] hold. *)
Lemma escape_ok s : escape s allowed plus = Ok (escaped allowed plus s).
Proof.
  unfold escape. destruct (escape_loop_same [] s) as (d & Hd & He). rewrite zlen_nil in Hd. cbn [app] in Hd. rewrite Hd. destruct d.
  - rewrite (proj2 (Z.leb_le _ _)) by apply escaped_length. done.
  - rewrite (He eq_refl), bool_decide_true by done. done.
Qed.

Lemma escaped_app s t : escaped allowed plus (s ++ t) = escaped allowed plus s ++ escaped allowed plus t.
Proof. apply bind_app. Qed.

(** Every character of the result is one of those that are allowed, of an escape, or [+]. *)
Lemma escaped_chars x s : Forall byte s -> x ∈ escaped allowed plus s -> x ∈ allowed \/ x = PERCENT \/ x ∈ hexdigits \/ (plus = true /\ x = PLUS).
Proof.
  intros Hs (y & Hx & Hy)%list_elem_of_bind. rewrite Forall_forall in Hs. specialize (Hs y Hy). unfold byte in Hs. unfold escaped_char in Hx. case_bool_decide; [by apply list_elem_of_singleton in Hx as -> ; left |].
  destruct (y =? SPACE); destruct plus; cbn in Hx; try by apply list_elem_of_singleton in Hx as ->; tauto.
  all: rewrite !elem_of_cons in Hx; destruct Hx as [-> | [-> | [-> | Hx]]]; [tauto | | | by apply not_elem_of_nil in Hx]; right; right; left; unfold hexdigit.
  all: assert (Hr : 0 <= Z.shiftr y 4 < 16) by (rewrite Z.shiftr_div_pow2 by lia; split; [apply Z.div_pos; lia | apply Z.div_lt_upper_bound; lia]).
  all: assert (Hl : 0 <= Z.land y 15 < 16) by (change 15 with (Z.ones 4); rewrite Z.land_ones by lia; apply Z.mod_pos_bound; lia).
  all: match goal with |- default 0 (hexdigits !! ?n) ∈ _ => destruct (hexdigits !! n) as [d |] eqn:Ed; [by apply list_elem_of_lookup_2 in Ed | apply lookup_ge_None in Ed; cbn in Ed; lia] end.
Qed.
End Escape.

(** ** Decoding *)

Lemma hex_value_digit n : 0 <= n < 16 -> hex_value (hexdigit n) = Some n.
Proof.
  intros H. assert (Hall : Forall (fun n => hex_value (hexdigit n) = Some n) (seqZ 0 16)) by (apply (bool_decide_unpack _); vm_compute; exact I).
  rewrite Forall_forall in Hall. apply Hall, elem_of_seqZ. lia.
Qed.

Lemma nibbles x : byte x -> hex_value (hexdigit (Z.shiftr x 4)) = Some (Z.shiftr x 4) /\ hex_value (hexdigit (Z.land x 15)) = Some (Z.land x 15) /\ Z.lor (Z.shiftl (Z.shiftr x 4) 4) (Z.land x 15) = x.
Proof.
  unfold byte. intros H. split_and!.
  - apply hex_value_digit. rewrite Z.shiftr_div_pow2 by lia. split; [apply Z.div_pos; lia | apply Z.div_lt_upper_bound; lia].
  - apply hex_value_digit. change 15 with (Z.ones 4). rewrite Z.land_ones by lia. apply Z.mod_pos_bound. lia.
  - change 15 with (Z.ones 4). rewrite <-Z.ldiff_ones_r by lia. apply Z.bits_inj'. intros n Hn. rewrite Z.lor_spec, Z.ldiff_spec, Z.land_spec. by destruct (Z.testbit x n), (Z.testbit (Z.ones 4) n).
Qed.

(** The characters that decoding treats specially are always escaped. *)
Definition decodable (allowed : text) (plus : bool) : Prop := PERCENT ∉ allowed /\ (plus = true -> PLUS ∉ allowed).

Lemma unescape_loop_differed allowed plus i s result : decodable allowed plus -> Forall byte s -> unescape_loop plus i (escaped allowed plus s) result true = Ok (result ++ s).
Proof.
  intros Hd Hs. revert i result. induction Hs as [| x s Hx Hs IH]; intros i result; [cbn; by rewrite app_nil_r |].
  unfold escaped. cbn. fold (escaped allowed plus s). unfold escaped_char. pose proof Hd as [Hp Hq]. case_bool_decide as Hin.
  - cbn [app unescape_loop]. destruct (Z.eqb_spec x PERCENT) as [-> | _]; [done |]. destruct (Z.eqb_spec x PLUS) as [-> | _]; [destruct plus; [by destruct (Hq eq_refl) |] |]; cbn [andb]; rewrite IH, <-app_assoc; done.
  - destruct (Z.eqb_spec x SPACE) as [-> | _]; destruct plus; cbn [andb app unescape_loop].
    + replace (PLUS =? PERCENT) with false by done. replace (PLUS =? PLUS) with true by done. cbn [andb]. rewrite IH, <-app_assoc. done.
    + replace (PERCENT =? PERCENT) with true by done. destruct (nibbles SPACE) as (-> & -> & Hl); [done |]. rewrite Hl, IH, <-app_assoc. done.
    + replace (PERCENT =? PERCENT) with true by done. destruct (nibbles x) as (-> & -> & Hl); [done |]. rewrite Hl, IH, <-app_assoc. done.
    + replace (PERCENT =? PERCENT) with true by done. destruct (nibbles x) as (-> & -> & Hl); [done |]. rewrite Hl, IH, <-app_assoc. done.
Qed.

Lemma unescape_loop_same allowed plus pre s : decodable allowed plus -> Forall byte s -> unescape_loop plus (zlen pre) (escaped allowed plus s) (pre ++ escaped allowed plus s) false = Ok (pre ++ s).
Proof.
  intros Hd Hs. revert pre. induction Hs as [| x s Hx Hs IH]; intros pre; [done |].
  unfold escaped. cbn. fold (escaped allowed plus s). unfold escaped_char. pose proof Hd as [Hp Hq]. case_bool_decide as Hin.
  - cbn [app unescape_loop]. destruct (Z.eqb_spec x PERCENT) as [-> | _]; [done |].
    specialize (IH (pre ++ [x])). rewrite zlen_app, <-!app_assoc in IH. cbn in IH.
    destruct (Z.eqb_spec x PLUS) as [-> | _]; [destruct plus; [by destruct (Hq eq_refl) |] |]; cbn [andb]; exact IH.
  - destruct (Z.eqb_spec x SPACE) as [-> | _]; destruct plus; cbn [andb app unescape_loop]; rewrite ztake_app_le, ztake_all by lia.
    + replace (PLUS =? PERCENT) with false by done. replace (PLUS =? PLUS) with true by done. cbn [andb]. rewrite unescape_loop_differed, <-app_assoc by done. done.
    + replace (PERCENT =? PERCENT) with true by done. destruct (nibbles SPACE) as (-> & -> & Hl); [done |]. rewrite Hl, unescape_loop_differed, <-app_assoc by done. done.
    + replace (PERCENT =? PERCENT) with true by done. destruct (nibbles x) as (-> & -> & Hl); [done |]. rewrite Hl, unescape_loop_differed, <-app_assoc by done. done.
    + replace (PERCENT =? PERCENT) with true by done. destruct (nibbles x) as (-> & -> & Hl); [done |]. rewrite Hl, unescape_loop_differed, <-app_assoc by done. done.
Qed.

Lemma unescape_escaped allowed plus s : decodable allowed plus -> Forall byte s -> unescape (escaped allowed plus s) plus = Ok s.
Proof. intros Hd Hs. by apply (unescape_loop_same allowed plus []). Qed.

#[global] Instance decodable_dec allowed plus : Decision (decodable allowed plus).
Proof. unfold decodable. destruct plus; apply _. Defined.

(** The sets that the code uses. *)
Lemma sets_decodable : decodable unreserved false /\ decodable queryString_chars true /\ decodable query_chars false /\ decodable pchar false /\ decodable segment_nc false /\ decodable host_chars false /\
  decodable userinfo_chars false /\ decodable scheme_chars false.
Proof. split_and!; apply (bool_decide_unpack _); vm_compute; exact I. Qed.

(** C29 -- Percent-encoding is inverted by decoding: for both character classes and every text of bytes, [URI::encode] returns (its assertions hold) a text that is at least as long and has only characters
    that are allowed unescaped, percent signs, hexadecimal digits and, for query strings, plus signs, and [URI::decode] of it returns the original text. *)
Theorem encode_decode s c : Forall byte s ->
  exists e, encode s c = Ok e /\ zlen s <= zlen e /\ decode e c = Ok s /\
    forall x, x ∈ e -> x ∈ unreserved \/ x = PERCENT \/ (c = QUERYSTRING /\ (x ∈ queryString_chars \/ x = PLUS)).
Proof.
  intros Hs. destruct sets_decodable as (Hu & Hq & _). assert (Hh : forall x, x ∈ hexdigits -> x ∈ unreserved).
  { assert (H : Forall (fun x => x ∈ unreserved) hexdigits) by (apply (bool_decide_unpack _); vm_compute; exact I). by rewrite Forall_forall in H. }
  destruct c; cbn [encode decode]; rewrite escape_ok; eexists; (split_and!; [done | apply escaped_length | by apply unescape_escaped |]); intros x Hx; apply escaped_chars in Hx; try done.
  - destruct Hx as [? | [? | [? | [? _]]]]; [tauto | tauto | left; by apply Hh | done].
  - destruct Hx as [? | [? | [? | [_ ?]]]]; [tauto | tauto | left; by apply Hh | tauto].
Qed.

Lemma encode_decode_witness : exists e, encode (str "a b&c=%") QUERYSTRING = Ok e /\ decode e QUERYSTRING = Ok (str "a b&c=%").
Proof. destruct (encode_decode (str "a b&c=%") QUERYSTRING) as (e & H1 & _ & H2 & _); [apply (bool_decide_unpack _); vm_compute; exact I |]. by exists e. Defined.

(** Dot segments: the loop of [URI::Path::removeDotComponents], which erases from the vector it runs over, against the procedure of RFC 3986, section 5.2.4; and [URI::normalize]. *)

Definition nodot (s : text) : Prop := s <> DOT /\ s <> DOTDOT.
Definition fits (segments : list text) : Prop := zlen segments < 2 ^ 64 - 1.

(** ** The loop as a function of what is before the index and what is from it on *)

Fixpoint dots (pre rest : list text) : list text :=
  match rest with
  | [] => pre
  | s :: post =>
      if bool_decide (pre = [] /\ s = []) then dots (pre ++ [s]) post
      else if bool_decide (s = DOT) then match post with [] => pre ++ [[]] | _ => dots pre post end
      else if bool_decide (s = DOTDOT) then
        if bool_decide (pre = [] \/ pre = [[]]) then dots pre post
        else match post with [] => removelast pre ++ [[]] | _ => dots (removelast pre) post end
      else dots (pre ++ [s]) post
  end.

Lemma erase_one (pre post : list text) s : erase_range (zlen pre) (zlen pre + 1) (pre ++ s :: post) = pre ++ post.
Proof. unfold erase_range. by rewrite ztake_app_le, ztake_all, zdrop_snoc by lia. Qed.

Lemma erase_two (pre post : list text) a s : erase_range (zlen pre) (zlen pre + 2) (pre ++ a :: s :: post) = pre ++ post.
Proof. unfold erase_range. rewrite ztake_app_le, ztake_all by lia. f_equal. replace (pre ++ a :: s :: post) with ((pre ++ [a]) ++ s :: post) by by rewrite <-app_assoc. replace (zlen pre + 2) with (zlen (pre ++ [a]) + 1) by (rewrite zlen_app, zlen_cons, zlen_nil; lia). apply zdrop_snoc. Qed.

Lemma clear_mid (pre post : list text) s : clear_at (zlen pre) (pre ++ s :: post) = pre ++ [] :: post.
Proof. unfold clear_at, zlen. rewrite Nat2Z.id. rewrite insert_app_r_alt by lia. by rewrite Nat.sub_diag. Qed.

Lemma dot_lookup (pre post : list text) s : (pre ++ s :: post) !! Z.to_nat (zlen pre) = Some s.
Proof. unfold zlen. rewrite Nat2Z.id. by apply list_lookup_middle. Qed.

(** The list of segments before the last one. *)
Lemma snoc_of (pre : list text) : pre <> [] -> exists q a, pre = q ++ [a] /\ removelast pre = q.
Proof. intros H. destruct (exists_last H) as (q & a & ->). exists q, a. split; [done | apply removelast_last]. Qed.

Lemma zlen_snoc (q : list text) a : zlen (q ++ [a]) = zlen q + 1.
Proof. rewrite zlen_app. done. Qed.

(** The index is decremented below zero and incremented again. *)
Lemma u64_back k d : 0 <= k < 2 ^ 64 -> 0 <= d < 2 ^ 64 -> u64 (u64 (k - d) + d) = k.
Proof. intros Hk Hd. unfold u64. rewrite Zplus_mod_idemp_l. replace (k - d + d) with k by lia. by apply Z.mod_small. Qed.

(** What a step does, by its cases. *)
Lemma dot_step_spec pre s post : fits (pre ++ s :: post) ->
  exists i' segs', dot_step (zlen pre) (pre ++ s :: post) = (i', segs') /\
    exists pre' post', segs' = pre' ++ post' /\ u64 (i' + 1) = zlen pre' /\ (length post' <= length post)%nat /\ dots pre' post' = dots pre (s :: post) /\ zlen segs' <= zlen (pre ++ s :: post).
Proof.
  unfold fits. intros Hf. rewrite zlen_app, zlen_cons in Hf. pose proof (zlen_nonneg pre). pose proof (zlen_nonneg post). unfold dot_step. rewrite dot_lookup. cbn [default from_option id].
  assert (Hl : (zlen pre + 1 =? zlen (pre ++ s :: post)) = bool_decide (post = [])).
  { rewrite zlen_app, zlen_cons. case_bool_decide as Hp; [subst; rewrite zlen_nil; lia |]. destruct post; [done |]. rewrite zlen_cons. pose proof (zlen_nonneg post). lia. }
  assert (Hz0 : (zlen pre =? 0) = bool_decide (pre = [])) by (destruct pre as [| a pre]; [done |]; rewrite bool_decide_false, zlen_cons by done; pose proof (zlen_nonneg pre); lia).
  rewrite Hl, Hz0. clear Hl Hz0. cbn [dots]. destruct (decide (pre = [] /\ s = [])) as [[-> ->] | Hn].
  { rewrite !bool_decide_true by done. cbn [andb]. eexists _, _. split; [done |]. exists [[]], post. cbn [app]. split_and!; try done. }
  replace (bool_decide (pre = []) && bool_decide (s = [])) with false by (symmetry; repeat case_bool_decide; tauto). rewrite (bool_decide_false (pre = [] /\ s = [])) by done.
  case_bool_decide as Hdot.
  { destruct post as [| t post].
    - rewrite bool_decide_true by done. eexists _, _. split; [done |]. rewrite clear_mid. exists (pre ++ [[]]), []. rewrite app_nil_r. split_and!; [done | rewrite zlen_snoc; apply u64_small; lia | done | done | rewrite !zlen_app; done].
    - rewrite bool_decide_false by done. eexists _, _. split; [done |]. rewrite erase_one. exists pre, (t :: post). split_and!; [done | | done | done | rewrite !zlen_app, !zlen_cons; lia].
      apply u64_back; lia. }
  case_bool_decide as Hdd; [| eexists _, _; split; [done |]; exists (pre ++ [s]), post; split_and!; [by rewrite <-app_assoc | rewrite zlen_snoc; apply u64_small; lia | done | done | done]].
  case_bool_decide as Hp.
  { subst pre. eexists _, _. split; [done |]. rewrite (bool_decide_true ([] = [] \/ _)) by tauto. exists [], post. change (erase_range 0 1 ([] ++ s :: post)) with (erase_range (zlen (@nil text)) (zlen (@nil text) + 1) ([] ++ s :: post)). rewrite erase_one.
    split_and!; [done | done | done | done | rewrite !zlen_app, zlen_cons; lia]. }
  assert (Hpos : 0 < zlen pre) by (destruct pre; [done |]; rewrite zlen_cons; pose proof (zlen_nonneg pre); lia).
  assert (Hfront : (zlen pre =? 1) && bool_decide (default [] (head (pre ++ s :: post)) = []) = bool_decide (pre = [[]])).
  { destruct pre as [| a [| b pre]]; [done | | rewrite !zlen_cons; pose proof (zlen_nonneg pre); rewrite (proj2 (Z.eqb_neq _ _)) by lia; cbn [andb]; rewrite bool_decide_false by (intros [=]); done].
    cbn [head app default from_option id]. change (zlen [a] =? 1) with true. cbn [andb]. apply bool_decide_ext. split; [by intros Ha; unfold id in Ha; rewrite Ha | by intros [= ->]]. }
  rewrite Hfront. clear Hfront. destruct (decide (pre = [[]])) as [Hpp | Hpp].
  { rewrite (bool_decide_true (pre = [[]])) by done. subst pre. eexists _, _. split; [done |]. rewrite (bool_decide_true (_ \/ [[]] = [[]])) by tauto. rewrite (erase_one [[]]). exists [[]], post. split_and!; [done | done | done | done | cbn; rewrite !zlen_cons; lia]. }
  rewrite (bool_decide_false (pre = [[]])), (bool_decide_false (pre = [] \/ pre = [[]])) by tauto. destruct (snoc_of pre Hp) as (q & a & -> & Hq). rewrite Hq, zlen_snoc in *. pose proof (zlen_nonneg q). destruct post as [| t post].
  - rewrite bool_decide_true by done. eexists _, _. split; [done |]. rewrite zlen_app, zlen_snoc, zlen_cons, zlen_nil.
    replace (zlen q + 1 + (1 + 0) - 1) with (zlen (q ++ [a])) by (rewrite zlen_snoc; lia). rewrite ztake_app_le, ztake_all by lia. replace (zlen q + 1 - 1) with (zlen q) by lia. rewrite clear_mid.
    exists (q ++ [[]]), []. rewrite app_nil_r. split_and!; [done | rewrite zlen_snoc, (u64_small (zlen q)) by lia; apply u64_small; lia | done | done | rewrite zlen_snoc; lia].
  - rewrite bool_decide_false by done. eexists _, _. split; [done |]. replace (zlen q + 1 - 1) with (zlen q) by lia. replace (zlen q + 1 + 1) with (zlen q + 2) by lia.
    rewrite <-app_assoc. cbn [app]. rewrite erase_two. exists q, (t :: post). split_and!; [done | | done | done | rewrite !zlen_app, !zlen_cons; lia].
    replace (zlen q + 1 - 2) with (zlen q - 1) by lia. apply u64_back; lia.
Qed.

Lemma dot_loop_spec fuel : forall pre rest, fits (pre ++ rest) -> (length rest < fuel)%nat -> dot_loop fuel (zlen pre) (pre ++ rest) = Ok (dots pre rest).
Proof.
  induction fuel as [| fuel IH]; intros pre rest Hf Hl; [lia |]. cbn [dot_loop]. destruct rest as [| s post]; [rewrite app_nil_r, Z.ltb_irrefl; done |].
  rewrite (proj2 (Z.ltb_lt _ _)) by (rewrite zlen_app, zlen_cons; pose proof (zlen_nonneg post); lia).
  destruct (dot_step_spec pre s post Hf) as (i' & segs' & -> & pre' & post' & -> & Hi & Hlen & Hd & Hz). rewrite Hi, IH, Hd; [done | unfold fits in *; lia | cbn in Hl; lia].
Qed.

Lemma removeDotComponents_dots l : fits l -> removeDotComponents l = Ok (dots [] l).
Proof. intros Hf. apply (dot_loop_spec _ []); [done | lia]. Qed.

(** ** What is left *)

Lemma nodot_nil : nodot [].
Proof. done. Qed.

Lemma Forall_removelast (P : text -> Prop) l : Forall P l -> Forall P (removelast l).
Proof. destruct (decide (l = [])) as [-> | Hn]; [done |]. destruct (snoc_of l Hn) as (q & a & -> & ->). intros [H _]%Forall_app. done. Qed.

Lemma dots_nodot rest : forall pre, Forall nodot pre -> Forall nodot (dots pre rest).
Proof.
  induction rest as [| s post IH]; intros pre Hp; [done |]. cbn [dots]. case_bool_decide as H1; [apply IH, Forall_app; split; [done | by destruct H1 as [_ ->]; constructor] |].
  case_bool_decide as H2; [destruct post; [apply Forall_app; split; [done | by constructor] | by apply IH] |].
  case_bool_decide as H3; [| apply IH, Forall_app; split; [done | constructor; [by split | done]]].
  case_bool_decide; [by apply IH |]. destruct post; [apply Forall_app; split; [by apply Forall_removelast | by constructor] | by apply IH, Forall_removelast].
Qed.

Lemma dots_fixed rest : forall pre, Forall nodot rest -> dots pre rest = pre ++ rest.
Proof.
  induction rest as [| s post IH]; intros pre Hr; [by rewrite app_nil_r |]. apply Forall_cons in Hr as [[H1 H2] Hr]. cbn [dots]. rewrite (bool_decide_false (s = DOT)), (bool_decide_false (s = DOTDOT)) by done.
  case_bool_decide; rewrite IH, <-app_assoc by done; done.
Qed.

Lemma dots_length rest : forall pre, zlen (dots pre rest) <= zlen (pre ++ rest).
Proof.
  assert (Hrl : forall pre : list text, zlen (removelast pre) <= zlen pre).
  { intros pre. destruct (decide (pre = [])) as [-> | Hn]; [done |]. destruct (snoc_of pre Hn) as (q & a & -> & ->). rewrite zlen_snoc. lia. }
  induction rest as [| s post IH]; intros pre; [by rewrite app_nil_r |]. cbn [dots]. rewrite zlen_app, zlen_cons. repeat case_bool_decide.
  all: try destruct post as [| t post]; try match goal with |- zlen (dots ?p ?r) <= _ => specialize (IH p) end; rewrite ?zlen_app, ?zlen_cons, ?zlen_nil in *; try specialize (Hrl pre); lia.
Qed.

(** The path stays absolute, or becomes the empty path. *)
Lemma dots_absolute rest : forall p, exists r, dots ([] :: p) rest = [] :: r.
Proof.
  induction rest as [| s post IH]; intros p; [by exists p |]. cbn [dots]. rewrite bool_decide_false by (by intros [? _]).
  case_bool_decide; [destruct post; [by exists (p ++ [[]]) | apply IH] |]. case_bool_decide; [| apply (IH (p ++ [s]))].
  case_bool_decide as Hp; [apply IH |]. destruct p as [| a p]; [by destruct Hp; right |]. change (removelast ([] :: a :: p)) with ([] :: removelast (a :: p)). destruct post; [by eexists | apply IH].
Qed.

(** ** RFC 3986, section 5.2.4, for the segments after the first slash *)

Fixpoint remove_dot_segments (output input : list text) : list text :=
  match input with
  | [] => output
  | s :: rest =>
      if bool_decide (s = DOT) then match rest with [] => output ++ [[]] | _ => remove_dot_segments output rest end
      else if bool_decide (s = DOTDOT) then match rest with [] => removelast output ++ [[]] | _ => remove_dot_segments (removelast output) rest end
      else remove_dot_segments (output ++ [s]) rest
  end.

Lemma dots_rfc rest : forall p, dots ([] :: p) rest = [] :: remove_dot_segments p rest \/ (dots ([] :: p) rest = [[]] /\ remove_dot_segments p rest = [[]]).
Proof.
  induction rest as [| s post IH]; intros p; [by left |]. cbn [dots remove_dot_segments]. rewrite bool_decide_false by (by intros [? _]).
  case_bool_decide; [destruct post; [by left | apply IH] |]. case_bool_decide; [| apply (IH (p ++ [s]))].
  case_bool_decide as Hp.
  - destruct Hp as [? | [= ->]]; [done |]. destruct post; [by right | apply IH].
  - destruct p as [| a p]; [by destruct Hp; right |]. change (removelast ([] :: a :: p)) with ([] :: removelast (a :: p)). destruct post; [by left | apply IH].
Qed.

(** C23 -- [URI::Path::removeDotComponents] terminates for every path and leaves no dot segment; for a path that starts with a slash, what it computes in place by erasing from the vector it runs over is what the procedure
    of RFC 3986, section 5.2.4, computes with an output buffer, with one exception: where that ends with the root, the result may be the empty path. *)
Theorem removeDotComponents_rfc l : zlen l < 2 ^ 64 - 1 ->
  exists r, removeDotComponents l = Ok r /\ Forall nodot r /\ zlen r <= zlen l /\
    (Forall nodot l -> r = l) /\
    forall input, l = [] :: input -> r = [] :: remove_dot_segments [] input \/ (r = [[]] /\ remove_dot_segments [] input = [[]]).
Proof.
  intros Hf. exists (dots [] l). split_and!; [by apply removeDotComponents_dots | by apply dots_nodot | apply (dots_length l []) | by apply (dots_fixed l []) |]. intros input ->. cbn [dots]. rewrite bool_decide_true by done. apply dots_rfc.
Qed.

(** [/a/./b/../../g], and [/a/../..]. *)
Lemma removeDotComponents_rfc_witness : exists r, removeDotComponents [[]; str "a"; DOT; str "b"; DOTDOT; DOTDOT; str "g"] = Ok r /\ Forall nodot r /\ r = [[]; str "g"].
Proof.
  destruct (removeDotComponents_rfc [[]; str "a"; DOT; str "b"; DOTDOT; DOTDOT; str "g"]) as (r & H1 & H2 & _ & _ & H3); [vm_compute; done |]. exists r. split_and!; [done | done |].
  destruct (H3 _ eq_refl) as [-> | [_ H]]; [vm_compute; reflexivity | vm_compute in H; discriminate].
Defined.

(** The root is lost when the last segment goes above it. *)
Lemma root_lost : removeDotComponents [[]; DOTDOT] = Ok [[]] /\ remove_dot_segments [] [DOTDOT] = [[]] /\ print_Path false [[]] = Ok [] /\ print_Path false ([] :: [[]]) = Ok (str "/").
Proof. vm_compute. done. Qed.

(** ** Normalization *)

Lemma tolower_tolower c : tolower (tolower c) = tolower c.
Proof. unfold tolower. destruct ((65 <=? c) && (c <=? 90)) eqn:E; [| by rewrite E]. destruct ((65 <=? c + 32) && (c + 32 <=? 90)) eqn:E'; [lia | done]. Qed.

Lemma lower_lower (s : text) : tolower <$> (tolower <$> s) = tolower <$> s.
Proof. rewrite <-list_fmap_compose. apply list_fmap_ext. intros i x _. apply tolower_tolower. Qed.

Lemma Authority_normalize_idempotent h eh p ep a : tolower <$> h = h -> Authority_normalize h eh p ep (Authority_normalize h eh p ep a) = Authority_normalize h eh p ep a.
Proof.
  intros Hh. unfold Authority_normalize. cbn [m_host m_port m_userinfo m_userinfoDefined m_hostDefined m_portDefined]. set (host := tolower <$> m_host a).
  assert (Hl : tolower <$> host = host) by apply lower_lower.
  assert (Hhost : (if bool_decide ((tolower <$> (if bool_decide (host = h) then [] else host)) = h) then [] else tolower <$> (if bool_decide (host = h) then [] else host)) = if bool_decide (host = h) then [] else host).
  { destruct (decide (host = h)) as [E | E]; [rewrite (bool_decide_true (host = h)) by done; cbn; by case_bool_decide | by rewrite !(bool_decide_false (host = h)), Hl, bool_decide_false by (rewrite ?Hl; done)]. }
  rewrite Hhost. set (host' := if bool_decide (host = h) then [] else host).
  assert (Hport : (if (if m_port a =? p then -1 else m_port a) =? p then -1 else if m_port a =? p then -1 else m_port a) = if m_port a =? p then -1 else m_port a) by (destruct (m_port a =? p) eqn:E; [by destruct (-1 =? p) | by rewrite E]).
  rewrite Hport. set (port := if m_port a =? p then -1 else m_port a). destruct ((port =? -1) && negb ep);
    match goal with |- context [if ?b then false else m_hostDefined a] => by destruct b end.
Qed.

Lemma normalize_returns u : zlen (path u) < 2 ^ 64 - 1 -> exists v, normalize u = Ok v /\ Forall nodot (path v).
Proof. intros Hf. unfold normalize. rewrite removeDotComponents_dots by done. eexists. split; [reflexivity |]. by apply dots_nodot. Qed.

(** [URI::normalize] is idempotent: it returns for every URI, and normalizing the result again changes nothing, whatever the scheme, the authority and the path. *)
Theorem normalize_idempotent u : zlen (path u) < 2 ^ 64 - 1 -> exists v, normalize u = Ok v /\ normalize v = Ok v /\ Forall nodot (path v).
Proof.
  intros Hf. unfold normalize. rewrite (removeDotComponents_dots (path u)) by done. cbn [mbind result_bind]. eexists. split; [reflexivity |].
  cbn [path authority m_scheme m_query m_fragment m_schemeDefined m_queryDefined m_fragmentDefined]. assert (Hn : Forall nodot (dots [] (path u))) by by apply dots_nodot.
  rewrite removeDotComponents_dots by (unfold fits; pose proof (dots_length (path u) []); cbn in *; lia). rewrite (dots_fixed _ [] Hn). cbn [app mbind result_bind]. split; [| done].
  rewrite lower_lower. f_equal. f_equal. repeat case_match; by apply Authority_normalize_idempotent.
Qed.

Lemma normalize_idempotent_witness :
  exists v, normalize (mkURI (set_port 80 (set_host (str "Example.COM") Authority_new)) [[]; str "a"; DOTDOT; str "b"] (str "HTTP") [] [] true false false) = Ok v /\ normalize v = Ok v.
Proof.
  destruct (normalize_idempotent (mkURI (set_port 80 (set_host (str "Example.COM") Authority_new)) [[]; str "a"; DOTDOT; str "b"] (str "HTTP") [] [] true false false)) as (v & H1 & H2 & _); [vm_compute; done |].
  by exists v.
Defined.

(** Comparison of URIs: [URI::cmp] goes through the fields one by one, and is the order of the table of [ConnectionCache] and the equality of [RedirectRequestBroker]. *)

(** ** Comparison functions

    What a function must satisfy that returns a negative number, zero or a positive number: a total preorder. *)

Class Comparison {A} (cmp : A -> A -> Z) : Prop := {
  cmp_sym x y : Z.sgn (cmp y x) = - Z.sgn (cmp x y);
  cmp_trans x y z : cmp x y <= 0 -> cmp y z <= 0 -> cmp x z <= 0;
}.

Section Comparisons.
Context {A : Type}.

Lemma cmp_refl (cmp : A -> A -> Z) `{!Comparison cmp} x : cmp x x = 0.
Proof. pose proof (cmp_sym x x). lia. Qed.

Lemma cmp_trans_lt (cmp : A -> A -> Z) `{!Comparison cmp} x y z : cmp x y <= 0 -> cmp y z <= 0 -> cmp x y < 0 \/ cmp y z < 0 -> cmp x z < 0.
Proof.
  intros H1 H2 Hlt. pose proof (cmp_trans x y z H1 H2). destruct (decide (cmp x z = 0)) as [E | E]; [| lia].
  pose proof (cmp_sym x y). pose proof (cmp_sym y z). pose proof (cmp_sym x z).
  pose proof (cmp_trans y z x). pose proof (cmp_trans z x y). lia.
Qed.

Lemma comparison_pull {B} (f : A -> B) (cmp : B -> B -> Z) : Comparison cmp -> Comparison (fun x y => cmp (f x) (f y)).
Proof. intros H. split; intros; [apply cmp_sym | by apply (cmp_trans _ (f y))]. Qed.

Lemma comparison_orelse (c1 c2 : A -> A -> Z) : Comparison c1 -> Comparison c2 -> Comparison (fun x y => orelse (c1 x y) (c2 x y)).
Proof.
  intros H1 H2. unfold orelse. split.
  - intros x y. pose proof (@cmp_sym _ c1 H1 x y). pose proof (@cmp_sym _ c2 H2 x y). destruct (Z.eqb_spec (c1 y x) 0), (Z.eqb_spec (c1 x y) 0); cbn [negb]; lia.
  - intros x y z. pose proof (@cmp_trans_lt c1 H1 x y z). pose proof (@cmp_trans _ c1 H1 x y z). pose proof (@cmp_trans _ c2 H2 x y z).
    pose proof (@cmp_sym _ c1 H1 x y). pose proof (@cmp_sym _ c1 H1 y z). pose proof (@cmp_sym _ c1 H1 x z). pose proof (@cmp_trans _ c1 H1 z y x).
    destruct (Z.eqb_spec (c1 x y) 0), (Z.eqb_spec (c1 y z) 0), (Z.eqb_spec (c1 x z) 0); cbn [negb]; lia.
Qed.

(** A difference of [int]s that does not overflow. *)
Lemma comparison_sub (f : A -> Z) : (forall x, -1 <= f x < 2 ^ 31 - 1) -> Comparison (fun x y => s32 (f x - f y)).
Proof. intros Hf. split; intros; rewrite !s32_small in *; try pose proof (Hf x); try pose proof (Hf y); try pose proof (Hf z); lia. Qed.
End Comparisons.

#[global] Instance boolcmp_comparison : Comparison boolcmp.
Proof. split; [by intros [] [] | by intros [] [] []]. Qed.

#[global] Instance strcmp_comparison : Comparison strcmp.
Proof.
  split.
  - intros a. induction a as [| x a IH]; intros [| y b]; cbn [strcmp].
    all: repeat match goal with |- context [?p =? ?q] => destruct (Z.eqb_spec p q) end; subst; cbn [negb]; try lia. apply IH.
  - intros a. induction a as [| x a IH]; intros [| y b] [| z c]; cbn [strcmp].
    all: repeat match goal with |- context [?p =? ?q] => destruct (Z.eqb_spec p q) end; subst; cbn [negb]; try lia. apply IH.
Qed.

#[global] Instance Path_cmp_comparison : Comparison Path_cmp.
Proof.
  split.
  - intros a. induction a as [| s a IH]; intros [| t b]; try done. cbn [Path_cmp]. pose proof (cmp_sym s t). specialize (IH b). unfold orelse.
    destruct (Z.eqb_spec (strcmp t s) 0), (Z.eqb_spec (strcmp s t) 0); cbn [negb]; lia.
  - intros a. induction a as [| s a IH]; intros [| t b] [| r c]; cbn [Path_cmp]; try lia. specialize (IH b c).
    pose proof (cmp_trans_lt strcmp s t r). pose proof (cmp_trans s t r). pose proof (cmp_sym s t). pose proof (cmp_sym t r). pose proof (cmp_sym s r). pose proof (cmp_trans r t s). unfold orelse.
    destruct (Z.eqb_spec (strcmp s t) 0), (Z.eqb_spec (strcmp t r) 0), (Z.eqb_spec (strcmp s r) 0); cbn [negb]; lia.
Qed.

(** Ports whose differences are in the range of [int]; an empty port is -1. *)
Definition port_ok (u : URI) : Prop := -1 <= m_port (authority u) < 2 ^ 31 - 1.
#[global] Instance port_ok_dec u : Decision (port_ok u).
Proof. unfold port_ok. apply _. Defined.

(** [URI::cmp] of URIs with such ports. *)
Definition ported_cmp (u v : {u : URI | port_ok u}) : Z := URI_cmp (`u) (`v).

#[global] Instance ported_cmp_comparison : Comparison ported_cmp.
Proof.
  unfold ported_cmp, URI_cmp, Authority_cmp. assert (Hpull : forall B (f : URI -> B) (cmp : B -> B -> Z), Comparison cmp -> Comparison (fun u v : {u : URI | port_ok u} => cmp (f (`u)) (f (`v)))) by (intros; by apply (comparison_pull (fun u => f (`u)))).
  repeat apply comparison_orelse; try (first [apply (Hpull _ m_schemeDefined) | apply (Hpull _ m_scheme) | apply (Hpull _ path) | apply (Hpull _ m_queryDefined) | apply (Hpull _ m_query) | apply (Hpull _ m_fragmentDefined) | apply (Hpull _ m_fragment)
    | apply (Hpull _ (fun u => m_hostDefined (authority u))) | apply (Hpull _ (fun u => m_host (authority u))) | apply (Hpull _ (fun u => m_portDefined (authority u)))
    | apply (Hpull _ (fun u => m_userinfoDefined (authority u))) | apply (Hpull _ (fun u => m_userinfo (authority u)))]; apply _).
  apply (comparison_sub (fun u : {u : URI | port_ok u} => m_port (authority (`u)))). by intros [u Hu].
Qed.

(** ** When nothing is hidden behind a zero byte *)

Definition clean_text (a : text) : Prop := 0 ∉ a.
Definition clean (u : URI) : Prop :=
  clean_text (m_scheme u) /\ clean_text (m_query u) /\ clean_text (m_fragment u) /\ clean_text (m_host (authority u)) /\ clean_text (m_userinfo (authority u)) /\ Forall clean_text (path u).
#[global] Instance clean_dec u : Decision (clean u).
Proof. unfold clean, clean_text. apply _. Defined.

Lemma strcmp_equal a b : clean_text a -> clean_text b -> strcmp a b = 0 -> a = b.
Proof.
  unfold clean_text. revert b. induction a as [| x a IH]; intros [| y b]; rewrite ?not_elem_of_cons; intros Ha Hb; cbn [strcmp]; try done.
  - destruct (Z.eqb_spec 0 y); cbn [negb]; lia.
  - destruct (Z.eqb_spec x 0); cbn [negb]; lia.
  - destruct (Z.eqb_spec x y) as [-> |]; cbn [negb]; [| lia]. destruct (Z.eqb_spec y 0); [lia |]. intros H. f_equal. apply IH; tauto || done.
Qed.

Lemma Path_cmp_equal p q : Forall clean_text p -> Forall clean_text q -> Path_cmp p q = 0 -> p = q.
Proof.
  intros Hp. revert q. induction Hp as [| s p Hs Hp IH]; intros [| t q] Hq; cbn [Path_cmp]; try done. apply Forall_cons in Hq as [Ht Hq]. unfold orelse.
  destruct (Z.eqb_spec (strcmp s t) 0) as [E |]; cbn [negb]; [| done]. intros H. f_equal; [by apply strcmp_equal | by apply IH].
Qed.

Lemma boolcmp_equal a b : boolcmp a b = 0 -> a = b.
Proof. by destruct a, b. Qed.

Lemma orelse_zero x y : orelse x y = 0 -> x = 0 /\ y = 0.
Proof. unfold orelse. destruct (Z.eqb_spec x 0); cbn [negb]; lia. Qed.

Lemma URI_cmp_equal u v : port_ok u -> port_ok v -> clean u -> clean v -> URI_cmp u v = 0 -> u = v.
Proof.
  unfold port_ok. intros P1 P2 (H1 & H2 & H3 & H4 & H5 & H6) (K1 & K2 & K3 & K4 & K5 & K6). unfold URI_cmp, Authority_cmp. intros H. repeat match goal with H : orelse _ _ = 0 |- _ => apply orelse_zero in H as [? H] end.
  destruct u as [[] ], v as [[] ]. cbn in *. repeat match goal with H : boolcmp _ _ = 0 |- _ => apply boolcmp_equal in H | H : strcmp _ _ = 0 |- _ => apply strcmp_equal in H; try done | H : Path_cmp _ _ = 0 |- _ => apply Path_cmp_equal in H; try done end.
  match goal with H : s32 _ = 0 |- _ => rewrite s32_small in H by lia end. f_equal; [f_equal; lia || done | ..]; done.
Qed.

(** C30 -- [operator<] of URIs is a strict weak order, as the table of the connection cache needs it, on the URIs whose ports are below 2147483647, as those of TCP are: irreflexive, asymmetric, transitive, and
    being incomparable is transitive too; [operator==] holds of URIs that are incomparable and only of those; and for URIs without zero bytes it holds only of a URI and itself.  With the port 2147483647
    the difference of ports overflows, and the order is not asymmetric, see [port_overflow]. *)
Theorem uri_strict_weak_order u v w : port_ok u -> port_ok v -> port_ok w ->
  URI_less u u = false /\
  (URI_less u v = true -> URI_less v u = false) /\
  (URI_less u v = true -> URI_less v w = true -> URI_less u w = true) /\
  (URI_equal u v = true -> URI_equal v w = true -> URI_equal u w = true) /\
  (URI_less u v = true -> URI_equal v w = true -> URI_less u w = true) /\
  (URI_equal u v = negb (URI_less u v) && negb (URI_less v u)) /\
  (clean u -> clean v -> URI_equal u v = true <-> u = v).
Proof.
  intros Pu Pv Pw. set (u' := u ↾ Pu). set (v' := v ↾ Pv). set (w' := w ↾ Pw). unfold URI_less, URI_equal. rewrite !Z.ltb_lt, !Z.eqb_eq.
  pose proof (cmp_refl ported_cmp u') as Hu. pose proof (@cmp_sym _ ported_cmp _ u' v'). pose proof (@cmp_sym _ ported_cmp _ v' w'). pose proof (@cmp_sym _ ported_cmp _ u' w').
  pose proof (cmp_trans_lt ported_cmp u' v' w'). pose proof (@cmp_trans _ ported_cmp _ u' v' w'). pose proof (@cmp_trans _ ported_cmp _ w' v' u'). unfold ported_cmp in *. cbn [proj1_sig u' v' w'] in *. split_and!; try lia.
  intros Hcu Hcv. split; [by apply URI_cmp_equal | by intros <-].
Qed.

Definition on_port (p : Z) : URI := set_path [[]; []] (set_authority (set_port p (set_host (str "h") Authority_new)) (set_scheme (str "http") URI_new)).

Lemma uri_order_witness : URI_less (on_port 80) (on_port 443) = true /\ URI_less (on_port 443) (on_port 80) = false.
Proof. split; [vm_compute; reflexivity |]. apply (uri_strict_weak_order (on_port 80) (on_port 443) (on_port 8080)); try done; vm_compute; reflexivity. Defined.

(** [http://h:2147483647/] and [http://h:/], each of which is less than the other. *)
Lemma port_overflow : URI_less (on_port 2147483647) (on_port (-1)) = true /\ URI_less (on_port (-1)) (on_port 2147483647) = true.
Proof. split; vm_compute; reflexivity. Qed.

(** Two URIs whose paths differ behind a zero byte are the same to [operator==]. *)
Lemma zero_byte_equal : let a := set_path [[]; [97; 0; 98]] (set_scheme (str "http") URI_new) in let b := set_path [[]; [97; 0; 99]] (set_scheme (str "http") URI_new) in URI_equal a b = true /\ a <> b.
Proof. split; [vm_compute; reflexivity | done]. Qed.

(** Resolution of references: [URI::transform], and which URIs can be printed. *)

(** ** What can be printed *)

(** A path that may follow an authority. *)
Definition rooted (p : list text) : bool := path_isAbsolute p || path_isEmpty p.
Definition printable (u : URI) : Prop := m_hostDefined (authority u) = true -> rooted (path u) = true.

Lemma rooted_iff p : rooted p = true <-> p = [] \/ exists r, p = [] :: r.
Proof.
  unfold rooted. destruct p as [| s [| t p]]; cbn [path_isAbsolute path_isEmpty orb]; rewrite ?orb_false_r, ?bool_decide_eq_true; naive_solver.
Qed.

Lemma rooted_cons r : rooted ([] :: r) = true.
Proof. apply rooted_iff. eauto. Qed.

Lemma rooted_dots p : rooted p = true -> rooted (dots [] p) = true.
Proof. intros [-> | [r ->]]%rooted_iff; [done |]. cbn [dots]. rewrite bool_decide_true by done. destruct (dots_absolute r []) as [r' Hr']. cbn [app]. rewrite Hr'. apply rooted_cons. Qed.

Lemma print_segments_ok l : exists t, print_segments l = Ok t.
Proof. induction l as [| s l [t IH]]; [by eexists |]. cbn [print_segments]. rewrite escape_ok, IH. by eexists. Qed.

Lemma print_Path_ok schemeless p : exists t, print_Path schemeless p = Ok t.
Proof. destruct p as [| s l]; [by eexists |]. destruct (print_segments_ok l) as [t Ht]. cbn [print_Path]. rewrite escape_ok, Ht. by eexists. Qed.

Lemma print_Authority_ok a : m_hostDefined a = true -> exists t, print_Authority a = Ok t.
Proof. intros H. unfold print_Authority. rewrite H, !escape_ok. destruct (m_userinfoDefined a); by eexists. Qed.

(** Printing returns for the URIs that can be printed, and trips its assertion for the others. *)
Lemma print_URI_ok u : printable u <-> exists t, print_URI u = Ok t.
Proof.
  unfold printable, print_URI. rewrite <-orb_assoc. fold (rooted (path u)). destruct (m_hostDefined (authority u)) eqn:Hh.
  - split.
    + intros H. rewrite (H eq_refl). destruct (print_Authority_ok _ Hh) as [a Ha]. rewrite !escape_ok, Ha. destruct (print_Path_ok (negb (m_schemeDefined u)) (path u)) as [p Hp].
      destruct (m_schemeDefined u), (m_fragmentDefined u); cbn; cbn in Hp; rewrite Hp; by eexists.
    + intros [t Ht] _. by destruct (rooted (path u)).
  - split; [| done]. intros _. rewrite !escape_ok. destruct (print_Path_ok (negb (m_schemeDefined u)) (path u)) as [p Hp]. destruct (m_schemeDefined u), (m_fragmentDefined u); cbn; cbn in Hp; rewrite Hp; by eexists.
Qed.

(** ** Resolution *)

(** Whether the query of a URI can be decoded, as every query that was parsed can. *)
Definition query_ok (u : URI) : Prop := m_queryDefined u = true -> exists q, unescape (m_query u) false = Ok q.

(** The path of the target when the reference has one of its own, before dot segments are removed (RFC 3986, section 5.2.3): that of a reference with a scheme, an authority or a slash at its beginning; otherwise the
    path of the reference after a slash, if the base has an authority and no path, or in place of the last segment of the path of the base. *)
Definition merged (base relative : URI) : list text :=
  if m_schemeDefined relative || m_hostDefined (authority relative) || path_isAbsolute (path relative) then path relative
  else if m_hostDefined (authority base) && path_isEmpty (path base) then [] :: path relative
  else removelast (path base) ++ path relative.

Lemma merge_merged (base relative : URI) : path_isAbsolute (path relative) = false ->
  merge (path relative) (if m_hostDefined (authority base) && path_isEmpty (path base) then [[]; []] else path base) =
  Ok (if m_hostDefined (authority base) && path_isEmpty (path base) then [] :: path relative else removelast (path base) ++ path relative).
Proof. intros H. unfold merge. rewrite H. destruct (m_hostDefined (authority base) && path_isEmpty (path base)); [done |]. by destruct (path base). Qed.

Lemma rooted_merged base relative : printable base -> printable relative -> m_schemeDefined relative || m_hostDefined (authority relative) = false -> m_hostDefined (authority base) = true -> rooted (merged base relative) = true.
Proof.
  intros Hb Hr Hs Hh. unfold merged. rewrite Hs. cbn [orb]. destruct (path_isAbsolute (path relative)) eqn:Ha; [unfold rooted; by rewrite Ha |]. rewrite Hh. cbn [andb].
  destruct (path_isEmpty (path base)) eqn:He; [apply rooted_cons |]. specialize (Hb Hh). apply rooted_iff in Hb as [Hb | [r Hb]]; rewrite Hb in *; [done |]. destruct r as [| t r]; [done |].
  change (removelast ([] :: t :: r)) with (([] : text) :: removelast (t :: r)). cbn [app]. apply rooted_cons.
Qed.

Lemma zlen_merged base relative : zlen (merged base relative) <= zlen (path base) + zlen (path relative) + 1.
Proof.
  pose proof (zlen_nonneg (path base)). unfold merged. destruct (_ || _); [lia |]. destruct (_ && _); [rewrite zlen_cons; lia |]. rewrite zlen_app. destruct (decide (path base = [])) as [-> | Hn]; [cbn [removelast]; lia |].
  destruct (snoc_of _ Hn) as (q & a & Hp & ->). rewrite Hp, zlen_snoc. lia.
Qed.

(** What the target is made of: [own] when the reference has a scheme, an authority or a path of its own. *)
Definition own (relative : URI) : bool := m_schemeDefined relative || m_hostDefined (authority relative) || negb (path_isEmpty (path relative)).
Definition resolved (base relative : URI) (query : text) (defined : bool) : URI :=
  mkURI (if m_schemeDefined relative || m_hostDefined (authority relative) then authority relative else authority base)
        (if own relative then dots [] (merged base relative) else path base)
        (if m_schemeDefined relative then m_scheme relative else m_scheme base) query (m_fragment relative) true defined (m_fragmentDefined relative).

Lemma transform_resolved base relative : m_schemeDefined base = true -> zlen (path base) + zlen (path relative) < 2 ^ 64 - 2 -> query_ok relative ->
  exists q, transform base relative =
    Ok (if own relative then resolved base relative (m_query relative) (m_queryDefined relative)
        else if m_queryDefined relative then resolved base relative (escaped query_chars false q) true
        else resolved base relative (m_query base) (m_queryDefined base)) /\ (own relative = false -> m_queryDefined relative = true -> unescape (m_query relative) false = Ok q).
Proof.
  intros Hs Hf Hq. pose proof (zlen_nonneg (path base)). pose proof (zlen_merged base relative). unfold transform. rewrite Hs. cbn [ASSERT]. step. unfold resolved, own.
  assert (Hd : removeDotComponents (merged base relative) = Ok (dots [] (merged base relative))) by (apply removeDotComponents_dots; unfold fits; lia).
  unfold merged in Hd |- *. destruct (m_schemeDefined relative) eqn:Es; cbn [orb] in Hd |- *; [exists []; rewrite Hd; done |].
  destruct (m_hostDefined (authority relative)) eqn:Eh; cbn [orb] in Hd |- *; [exists []; rewrite Hd; done |].
  destruct (path_isEmpty (path relative)) eqn:Ee; cbn [negb].
  - destruct (m_queryDefined relative) eqn:Eq; [| exists []; by split]. destruct (Hq Eq) as [q Hq']. exists q. unfold get_query, put_query. rewrite Eq, Hq'. cbn [ASSERT]. step. rewrite escape_ok. by split.
  - exists []. split; [| done]. destruct (path_isAbsolute (path relative)) eqn:Ea; [cbn [mbind result_bind]; rewrite Hd; done |]. rewrite merge_merged by done. step. rewrite Hd. done.
Qed.

(** When the path of the target can be printed after an authority. *)
Lemma resolved_printable base relative query defined : printable base -> printable relative -> printable (resolved base relative query defined).
Proof.
  intros Hb Hr Hh. cbn in Hh |- *. unfold own. destruct (m_schemeDefined relative) eqn:Es; cbn [orb] in *; [apply rooted_dots; unfold merged; rewrite Es; by apply Hr |].
  destruct (m_hostDefined (authority relative)) eqn:Eh; cbn [orb] in *; [apply rooted_dots; unfold merged; rewrite Es, Eh; by apply Hr |].
  destruct (path_isEmpty (path relative)); cbn [negb]; [by apply Hb |]. apply rooted_dots, rooted_merged; try done. by rewrite Es, Eh.
Qed.

(** C22 -- Resolving a reference against a base URI ([URI::transform], RFC 3986, section 5.2) returns whenever the base has a scheme and the query of the reference is well formed, so that the assertion of [merge] holds.
    The target has a scheme; its scheme and authority are those of the reference where it has them and else those of the base, and the fragment and whether there is one are those of the reference.  A reference
    with a scheme, an authority or a path gives its query and its path, merged with that of the base if need be and without dot segments; another one gets the path of the base, and the query of the base unless it
    has one of its own, which is decoded and encoded again.  The target can be printed if the base and the reference can. *)
Theorem transform_resolves base relative : m_schemeDefined base = true -> query_ok relative -> zlen (path base) + zlen (path relative) < 2 ^ 64 - 2 ->
  exists t, transform base relative = Ok t /\ m_schemeDefined t = true /\
    m_scheme t = (if m_schemeDefined relative then m_scheme relative else m_scheme base) /\
    authority t = (if m_schemeDefined relative || m_hostDefined (authority relative) then authority relative else authority base) /\
    m_fragment t = m_fragment relative /\ m_fragmentDefined t = m_fragmentDefined relative /\
    (if own relative then
       m_query t = m_query relative /\ m_queryDefined t = m_queryDefined relative /\ Forall nodot (path t) /\ removeDotComponents (merged base relative) = Ok (path t) /\
       forall input, merged base relative = [] :: input -> path t = [] :: remove_dot_segments [] input \/ (path t = [[]] /\ remove_dot_segments [] input = [[]])
     else
       path t = path base /\
       if m_queryDefined relative then m_queryDefined t = true /\ exists q, unescape (m_query relative) false = Ok q /\ escape q query_chars false = Ok (m_query t)
       else m_query t = m_query base /\ m_queryDefined t = m_queryDefined base) /\
    (printable base -> printable relative -> exists s, print_URI t = Ok s).
Proof.
  intros Hs Hq Hf. destruct (transform_resolved base relative Hs Hf Hq) as (q & Ht & Hdec). rewrite Ht. clear Ht.
  assert (Hd : removeDotComponents (merged base relative) = Ok (dots [] (merged base relative))) by (apply removeDotComponents_dots; unfold fits; pose proof (zlen_merged base relative); lia).
  destruct (own relative) eqn:Eo; [| specialize (Hdec eq_refl); destruct (m_queryDefined relative)]; (eexists; split; [reflexivity |]; cbn; rewrite Eo; split_and!; auto).
  - by apply dots_nodot.
  - intros input E. rewrite E. cbn [dots]. rewrite bool_decide_true by done. apply dots_rfc.
  - intros Hb Hr. by apply print_URI_ok, resolved_printable.
  - exists q. split; [by apply Hdec | apply escape_ok].
  - intros Hb Hr. by apply print_URI_ok, resolved_printable.
  - intros Hb Hr. by apply print_URI_ok, resolved_printable.
Qed.

(** [../g?y=1#s] against [http://a/b/c/d;p?q]. *)
Definition example_base : URI := set_query (str "q") true (set_path [[]; str "b"; str "c"; str "d;p"] (set_authority (set_host (str "a") Authority_new) (set_scheme (str "http") URI_new))).

Lemma transform_resolves_witness : exists t s, transform example_base (set_fragment (str "s") true (set_query (str "y=1") true (set_path [DOTDOT; str "g"] URI_new))) = Ok t /\ print_URI t = Ok s /\ s = str "http://a/b/g?y=1#s".
Proof.
  destruct (transform_resolves example_base (set_fragment (str "s") true (set_query (str "y=1") true (set_path [DOTDOT; str "g"] URI_new)))) as (t & H1 & H2);
    [done | intros _; by eexists | vm_compute; done |].
  destruct H2 as (_ & _ & _ & _ & _ & _ & H2). destruct H2 as [s H2]; [done | done |]. exists t, s. split_and!; [done | done |]. vm_compute in H1. injection H1 as <-. vm_compute in H2. injection H2 as <-. vm_compute. reflexivity.
Defined.

(** A reference that is only a query is decoded and encoded again: [?a=b%26c] becomes [?a=b&c], which has two parameters. *)
Lemma query_reencoded : exists t, transform example_base (set_query (str "a=b%26c") true URI_new) = Ok t /\ m_query t = str "a=b&c" /\
  transform example_base (set_query (str "a=b%26c") true (set_path [str "g"] URI_new)) = Ok (set_query (str "a=b%26c") true (set_path [[]; str "b"; str "c"; str "g"] t)).
Proof. eexists. split; [vm_compute; reflexivity |]. vm_compute. done. Qed.

(** Without a scheme, a path that starts with an empty segment is printed as an authority is. *)
Lemma print_ambiguous : print_URI (set_path [[]; []; str "b"] URI_new) = Ok (str "//b") /\ print_URI (set_authority (set_host (str "b") Authority_new) URI_new) = Ok (str "//b").
Proof. vm_compute. done. Qed.
