(* ===== verification/UriQuery.v ===== *)
(** [URI::QueryString] of [uri.h] and [uri.rl]: a multimap whose keys are compared without case, its text and its parser.  A query string is the list of its pairs in the order of the multimap. *)

From Stdlib Require Import String Ascii Sorted.
From stdpp Require Import numbers list_numbers list sorting.
From S2P Require Import Prelude Http HttpNames Uri UriProps.

(** ** The multimap *)

Notation QueryString := (list (text * text)) (only parsing).

(** [insert] of a multimap: behind the pairs whose keys are equivalent. *)
Fixpoint qs_insert (key value : text) (qs : QueryString) : QueryString :=
  match qs with
  | [] => [(key, value)]
  | e :: rest => if caseinsensitiveless key e.1 then (key, value) :: qs else e :: qs_insert key value rest
  end.

(** [equal_range], with what is before and behind it. *)
Fixpoint before (key : text) (qs : QueryString) : QueryString * QueryString :=
  match qs with
  | [] => ([], [])
  | e :: rest => if caseinsensitiveless e.1 key then let '(pre, post) := before key rest in (e :: pre, post) else ([], qs)
  end.
Fixpoint upto (key : text) (qs : QueryString) : QueryString * QueryString :=
  match qs with
  | [] => ([], [])
  | e :: rest => if caseinsensitiveless key e.1 then ([], qs) else let '(pre, post) := upto key rest in (e :: pre, post)
  end.
Definition equal_range (key : text) (qs : QueryString) : QueryString * QueryString * QueryString :=
  let '(pre, rest) := before key qs in let '(range, post) := upto key rest in (pre, range, post).

(** [operator[]]: the query string afterwards and the index of the pair whose value it refers to; and an assignment to it. *)
Definition qs_index (key : text) (qs : QueryString) : QueryString * nat :=
  let '(pre, range, post) := equal_range key qs in
  match range with
  | [] => (qs_insert key [] qs, length pre)
  | e :: _ => (pre ++ e :: post, length pre)
  end.
Definition qs_assign (key value : text) (qs : QueryString) : QueryString :=
  let '(qs, i) := qs_index key qs in alter (fun e => (e.1, value)) i qs.

(** [operator[] const] *)
Definition qs_get (key : text) (qs : QueryString) : text :=
  match equal_range key qs with (_, e :: _, _) => e.2 | _ => [] end.

(** ** Text *)

Definition AMPERSAND : Z := 38.
Definition SEMICOLON : Z := 59.
Definition EQUALS_SIGN : Z := 61.

Definition print_pair (e : text * text) : result text :=
  k ← escape e.1 queryString_chars true;
  if bool_decide (e.2 = []) then Ok k else v ← escape e.2 queryString_chars true; Ok (k ++ [EQUALS_SIGN] ++ v).

Fixpoint qs_toString (qs : QueryString) : result text :=
  match qs with
  | [] => Ok []
  | [e] => print_pair e
  | e :: rest => s ← print_pair e; t ← qs_toString rest; Ok (s ++ [AMPERSAND] ++ t)
  end.

(** The characters of the grammar: those of keys and values, the separators, and escapes. *)
Definition querychar : text := unreserved ++ str "!$'()*+,:@/?".

Fixpoint qs_valid (s : text) : bool :=
  match s with
  | [] => true
  | x :: s =>
      if x =? PERCENT then match s with h :: l :: s => bool_decide (is_Some (hex_value h)) && bool_decide (is_Some (hex_value l)) && qs_valid s | _ => false end
      else bool_decide (x ∈ querychar \/ x = EQUALS_SIGN \/ x = AMPERSAND \/ x = SEMICOLON) && qs_valid s
  end.

(** What is between separators; and a key and its value, if there is one. *)
Fixpoint fields (field s : text) : list text :=
  match s with
  | [] => [field]
  | x :: s => if (x =? AMPERSAND) || (x =? SEMICOLON) then field :: fields [] s else fields (field ++ [x]) s
  end.
Fixpoint key_value (key field : text) : text * option text :=
  match field with
  | [] => (key, None)
  | x :: field => if x =? EQUALS_SIGN then (key, Some field) else key_value (key ++ [x]) field
  end.

(** The actions [saveKey], [saveValue] and [saveNoValue] for a field: a pair is inserted, and erased again when neither the key nor the value has any character. *)
Definition save_field (qs : result QueryString) (field : text) : result QueryString :=
  qs ← qs;
  let '(key, value) := key_value [] field in
  k ← unescape key true;
  match value with
  | None => Ok (if bool_decide (k = []) then qs else qs_insert k [] qs)
  | Some v => if bool_decide (v = []) && bool_decide (k = []) then Ok qs else v ← unescape v true; Ok (qs_insert k v qs)
  end.

Definition qs_parse (s : text) : result QueryString :=
  if qs_valid s then foldl save_field (Ok []) (fields [] s) else throw invalid_argument.

(** ** The order *)

#[global] Instance stricmp_comparison : Comparison stricmp.
Proof. split; [apply stricmp_sym | intros x y z H1 H2; by apply (stricmp_trans x y z)]. Qed.

Definition before_or_equal (a b : text * text) : Prop := stricmp a.1 b.1 <= 0.
Definition ordered (qs : QueryString) : Prop := StronglySorted before_or_equal qs.

#[global] Instance before_or_equal_transitive : Transitive before_or_equal.
Proof. intros a b c. unfold before_or_equal. apply cmp_trans. Qed.

(** A pair that is not before any other is inserted at the end. *)
Lemma qs_insert_last k v qs : Forall (fun e => stricmp e.1 k <= 0) qs -> qs_insert k v qs = qs ++ [(k, v)].
Proof.
  induction 1 as [| e qs He Hq IH]; [done |]. cbn [qs_insert]. unfold caseinsensitiveless. pose proof (stricmp_sym e.1 k). rewrite (proj2 (Z.ltb_ge _ _)) by lia. by rewrite IH.
Qed.

(** ** The round trip *)

(** A text without separators. *)
Definition plain (s : text) : Prop := AMPERSAND ∉ s /\ SEMICOLON ∉ s.

Lemma escaped_plain s : Forall byte s -> plain (escaped queryString_chars true s) /\ EQUALS_SIGN ∉ escaped queryString_chars true s.
Proof.
  intros Hs. assert (Hx : forall x, x ∈ [AMPERSAND; SEMICOLON; EQUALS_SIGN] -> x ∉ escaped queryString_chars true s).
  { intros x Hx He. apply escaped_chars in He; [| done]. rewrite !elem_of_cons, elem_of_nil in Hx.
    assert (Hn : Forall (fun x => x ∉ queryString_chars /\ x <> PERCENT /\ x ∉ hexdigits /\ x <> PLUS) [AMPERSAND; SEMICOLON; EQUALS_SIGN]) by (apply (bool_decide_unpack _); vm_compute; exact I).
    rewrite Forall_forall in Hn. specialize (Hn x). rewrite !elem_of_cons, elem_of_nil in Hn. specialize (Hn Hx). tauto. }
  repeat split; apply Hx; repeat (apply elem_of_cons; (by left) || right).
Qed.

Lemma qs_valid_escaped s t : Forall byte s -> qs_valid (escaped queryString_chars true s ++ t) = qs_valid t.
Proof.
  assert (Hsub : Forall (fun x => x <> PERCENT /\ x ∈ querychar) queryString_chars) by (apply (bool_decide_unpack _); vm_compute; exact I). rewrite Forall_forall in Hsub.
  induction 1 as [| x s Hx Hs IH]; [done |]. unfold escaped. cbn [mbind list_bind]. fold (escaped queryString_chars true s). rewrite <-app_assoc. unfold escaped_char. case_bool_decide as Hin.
  - destruct (Hsub x Hin) as [Hp Hq]. cbn [app qs_valid]. rewrite (proj2 (Z.eqb_neq _ _)) by done. rewrite bool_decide_true by tauto. exact IH.
  - destruct (Z.eqb_spec x SPACE) as [-> | _]; cbn [andb app qs_valid].
    + replace (PLUS =? PERCENT) with false by done. rewrite bool_decide_true; [exact IH |]. left. apply (bool_decide_unpack _). vm_compute. exact I.
    + replace (PERCENT =? PERCENT) with true by done. destruct (nibbles x Hx) as (-> & -> & _). rewrite !bool_decide_true by by eexists. exact IH.
Qed.

Lemma fields_plain w s f : plain w -> fields f (w ++ s) = fields (f ++ w) s.
Proof.
  unfold plain. revert f. induction w as [| x w IH]; intros f; [by rewrite app_nil_r |]. rewrite !not_elem_of_cons. intros [[H1 H2] [H3 H4]]. cbn [app fields].
  rewrite (proj2 (Z.eqb_neq x AMPERSAND)), (proj2 (Z.eqb_neq x SEMICOLON)) by done. cbn [orb]. rewrite IH, <-app_assoc by done. done.
Qed.

Lemma key_value_plain k rest pre : EQUALS_SIGN ∉ k -> key_value pre (k ++ rest) = key_value (pre ++ k) rest.
Proof.
  revert pre. induction k as [| x k IH]; intros pre; [by rewrite app_nil_r |]. rewrite not_elem_of_cons. intros [H1 H2]. cbn [app key_value]. rewrite (proj2 (Z.eqb_neq x EQUALS_SIGN)) by done. rewrite IH, <-app_assoc by done. done.
Qed.

(** The text of a pair. *)
Definition pair_text (e : text * text) : text :=
  escaped queryString_chars true e.1 ++ (if bool_decide (e.2 = []) then [] else EQUALS_SIGN :: escaped queryString_chars true e.2).
Definition pair_ok (e : text * text) : Prop := Forall byte e.1 /\ Forall byte e.2 /\ e <> ([], []).

Lemma print_pair_ok e : print_pair e = Ok (pair_text e).
Proof. unfold print_pair, pair_text. rewrite !escape_ok. cbn [mbind result_bind]. case_bool_decide; [by rewrite app_nil_r | done]. Qed.

Lemma pair_text_plain e : pair_ok e -> plain (pair_text e).
Proof.
  intros (H1 & H2 & _). unfold plain, pair_text. destruct (escaped_plain e.1 H1) as [[P1 P2] _], (escaped_plain e.2 H2) as [[Q1 Q2] _]. rewrite !elem_of_app.
  case_bool_decide; rewrite ?elem_of_cons, ?elem_of_nil; split; intros [? | H']; try done; destruct H'; done.
Qed.

Lemma qs_valid_pair e t : pair_ok e -> qs_valid (pair_text e ++ t) = qs_valid t.
Proof.
  intros (H1 & H2 & _). unfold pair_text. rewrite <-app_assoc, qs_valid_escaped by done. case_bool_decide; [done |]. cbn [app qs_valid]. replace (EQUALS_SIGN =? PERCENT) with false by done.
  rewrite bool_decide_true by tauto. cbn [andb]. by apply qs_valid_escaped.
Qed.

Lemma save_pair e qs : pair_ok e -> Forall (fun x => stricmp x.1 e.1 <= 0) qs -> save_field (Ok qs) (pair_text e) = Ok (qs ++ [e]).
Proof.
  destruct e as [k v]. intros (H1 & H2 & Hne) Hq. cbn [fst snd] in *. destruct (escaped_plain k H1) as [_ Heq]. destruct sets_decodable as (_ & Hd & _). unfold save_field, pair_text. cbn [mbind result_bind fst snd].
  rewrite key_value_plain by done. cbn [app]. case_bool_decide as Hv.
  - cbn [key_value]. rewrite unescape_escaped by done. step. rewrite bool_decide_false by (intros ->; congruence). by rewrite qs_insert_last, Hv by done.
  - cbn [key_value]. replace (EQUALS_SIGN =? EQUALS_SIGN) with true by done. rewrite unescape_escaped by done. step.
    assert (Hnil : escaped queryString_chars true v <> []) by (intros E; pose proof (escaped_length queryString_chars true v) as Hl; rewrite E in Hl; destruct v; [done |]; rewrite zlen_cons, zlen_nil in Hl; pose proof (zlen_nonneg v); lia).
    rewrite (bool_decide_false (escaped _ _ v = [])) by done. cbn [andb]. rewrite unescape_escaped by done. step. by rewrite qs_insert_last by done.
Qed.

(** The pairs of a text that was printed are saved one after the other. *)
Lemma parse_printed l : forall qs, Forall pair_ok l -> ordered (qs ++ l) ->
  exists s, qs_toString l = Ok s /\ qs_valid s = true /\ (l <> [] -> foldl save_field (Ok qs) (fields [] s) = Ok (qs ++ l)).
Proof.
  induction l as [| e l IH]; intros qs Hl Ho; [by exists [] |]. apply Forall_cons in Hl as [He Hl].
  assert (Hq : Forall (fun x => stricmp x.1 e.1 <= 0) qs) by (apply Forall_forall; intros x Hx; apply (StronglySorted_app_1_elem_of _ _ _ _ _ Ho Hx); by left).
  replace (qs ++ e :: l) with ((qs ++ [e]) ++ l) in Ho |- * by by rewrite <-app_assoc. destruct (IH (qs ++ [e]) Hl Ho) as (s & Hs & Hv & Hf). destruct l as [| e' l].
  - exists (pair_text e). cbn [qs_toString]. rewrite print_pair_ok. split_and!; [done | rewrite <-(app_nil_r (pair_text e)); by rewrite qs_valid_pair |].
    intros _. rewrite <-(app_nil_r (pair_text e)), fields_plain by by apply pair_text_plain. cbn [app fields foldl]. rewrite app_nil_r. by apply save_pair.
  - exists (pair_text e ++ [AMPERSAND] ++ s). change (qs_toString (e :: e' :: l)) with (s ← print_pair e; t ← qs_toString (e' :: l); Ok (s ++ [AMPERSAND] ++ t)). rewrite print_pair_ok. cbn [mbind result_bind]. rewrite Hs. split_and!; [done | rewrite qs_valid_pair by done; exact Hv |].
    intros _. rewrite fields_plain by by apply pair_text_plain. cbn [app fields]. replace (AMPERSAND =? AMPERSAND) with true by done. cbn [orb foldl]. rewrite save_pair by done. by apply Hf.
Qed.

(** C28 -- A query string that is printed and parsed again is the same multimap: for every ordered list of pairs of texts, none of which has both an empty key and an empty value, [toString] returns a text and
    the parser accepts it and returns these pairs in this order, whatever separators, escapes and spaces the keys and values contain. *)
Theorem query_string_roundtrip qs : ordered qs -> Forall (fun e => Forall byte e.1 /\ Forall byte e.2 /\ e <> ([], [])) qs -> exists s, qs_toString qs = Ok s /\ qs_parse s = Ok qs.
Proof.
  intros Ho Hq. destruct (parse_printed qs [] Hq Ho) as (s & Hs & Hv & Hf). exists s. split; [done |]. unfold qs_parse. rewrite Hv. destruct qs; [injection Hs as <-; done | by apply Hf].
Qed.

Lemma query_string_roundtrip_witness : exists s, qs_toString [([], str "b"); (str "a", str "1&2"); (str "A", []); (str "c d", str "=")] = Ok s /\ qs_parse s = Ok [([], str "b"); (str "a", str "1&2"); (str "A", []); (str "c d", str "=")].
Proof.
  apply (query_string_roundtrip [([], str "b"); (str "a", str "1&2"); (str "A", []); (str "c d", str "=")]).
  - unfold ordered. repeat constructor; vm_compute; discriminate.
  - repeat (constructor; [split_and!; [apply (bool_decide_unpack _); vm_compute; exact I | apply (bool_decide_unpack _); vm_compute; exact I | done] |]). constructor.
Defined.

(** ** Assignment *)

Section Assign.
Context (k : text).

Definition less_key (e : text * text) : Prop := stricmp e.1 k < 0.
Definition same_key (e : text * text) : Prop := stricmp e.1 k = 0.

Lemma before_spec qs : exists pre post, before k qs = (pre, post) /\ qs = pre ++ post /\ Forall less_key pre /\ (forall e rest, post = e :: rest -> 0 <= stricmp e.1 k).
Proof.
  induction qs as [| e qs (pre & post & Hb & -> & Hp & Hn)]; [exists [], []; by split_and! |]. cbn [before]. unfold caseinsensitiveless. destruct (Z.ltb_spec (stricmp e.1 k) 0).
  - rewrite Hb. exists (e :: pre), post. split_and!; [done | done | by constructor | done].
  - exists [], (e :: pre ++ post). split_and!; [done | done | done | intros e' rest [= <- <-]; lia].
Qed.

Lemma upto_key_spec qs : exists pre post, upto k qs = (pre, post) /\ qs = pre ++ post /\ Forall (fun e => 0 <= stricmp k e.1) pre /\ (forall e rest, post = e :: rest -> stricmp k e.1 < 0).
Proof.
  induction qs as [| e qs (pre & post & Hb & -> & Hp & Hn)]; [exists [], []; by split_and! |]. cbn [upto]. unfold caseinsensitiveless. destruct (Z.ltb_spec (stricmp k e.1) 0).
  - exists [], (e :: pre ++ post). split_and!; [done | done | done | intros e' rest [= <- <-]; lia].
  - rewrite Hb. exists (e :: pre), post. split_and!; [done | done | by constructor | done].
Qed.

(** An ordered list is what is less, equivalent and greater. *)
Lemma equal_range_spec qs : ordered qs -> exists pre range post, equal_range k qs = (pre, range, post) /\ qs = pre ++ range ++ post /\ Forall less_key pre /\ Forall same_key range /\ Forall (fun e => 0 < stricmp e.1 k) post.
Proof.
  intros Ho. unfold equal_range. destruct (before_spec qs) as (pre & rest & -> & -> & Hpre & Hrest). destruct (upto_key_spec rest) as (range & post & -> & -> & Hrange & Hpost).
  exists pre, range, post. apply StronglySorted_app in Ho as (_ & _ & Ho). apply StronglySorted_app in Ho as (Ho & Hr & Hp). split_and!; try done.
  - destruct range as [| e range]; [constructor |]. assert (Hge : 0 <= stricmp e.1 k) by (by apply (Hrest e (range ++ post))). apply Forall_forall. intros x Hx. rewrite Forall_forall in Hrange. specialize (Hrange x Hx).
    unfold same_key. pose proof (stricmp_sym k x.1). enough (stricmp k x.1 <= 0) by lia. pose proof (stricmp_sym k e.1). apply elem_of_cons in Hx as [-> | Hx]; [lia |].
    apply StronglySorted_inv in Hr as [_ Hr]. rewrite Forall_forall in Hr. specialize (Hr x Hx). apply (cmp_trans k e.1 x.1); [lia | exact Hr].
  - destruct post as [| e post]; [constructor |]. specialize (Hpost e post eq_refl). pose proof (stricmp_sym k e.1). constructor; [lia |]. apply StronglySorted_inv in Hp as [_ Hp]. rewrite Forall_forall in Hp |- *. intros x Hx.
    specialize (Hp x Hx). pose proof (stricmp_sym k x.1). pose proof (cmp_trans_lt stricmp k e.1 x.1). unfold before_or_equal in Hp. lia.
Qed.

Lemma qs_insert_at v pre post : Forall less_key pre -> Forall (fun e => 0 < stricmp e.1 k) post -> qs_insert k v (pre ++ post) = pre ++ (k, v) :: post.
Proof.
  intros Hpre Hpost. induction Hpre as [| e pre He Hpre IH]; cbn [app qs_insert]; unfold caseinsensitiveless.
  - destruct Hpost as [| e post He Hpost]; [done |]. cbn [qs_insert]. unfold caseinsensitiveless. pose proof (stricmp_sym k e.1). by rewrite (proj2 (Z.ltb_lt _ _)) by lia.
  - unfold less_key in He. pose proof (stricmp_sym k e.1). rewrite (proj2 (Z.ltb_ge _ _)) by lia. by rewrite IH.
Qed.

Lemma alter_at (f : text * text -> text * text) (pre post : QueryString) e : alter f (length pre) (pre ++ e :: post) = pre ++ f e :: post.
Proof. induction pre as [| x pre IH]; [done |]. cbn. f_equal. exact IH. Qed.

(** The pairs with an equivalent key are replaced by one. *)
Lemma qs_assign_spec v qs : ordered qs -> exists pre range post k', qs = pre ++ range ++ post /\ qs_assign k v qs = pre ++ (k', v) :: post /\ stricmp k' k = 0 /\ Forall less_key pre /\ Forall same_key range /\ Forall (fun e => 0 < stricmp e.1 k) post.
Proof.
  intros Ho. destruct (equal_range_spec qs Ho) as (pre & range & post & He & -> & Hpre & Hrange & Hpost). unfold qs_assign, qs_index. rewrite He. destruct range as [| e range].
  - exists pre, [], post, k. cbn [app]. rewrite qs_insert_at by done. cbv beta iota. rewrite alter_at. split_and!; try done. apply (cmp_refl stricmp).
  - exists pre, (e :: range), post, e.1. cbv beta iota. rewrite alter_at. apply Forall_cons in Hrange as [Hs Hrange]. split_and!; try done. by constructor.
Qed.

Lemma ordered_one pre x post : ordered pre -> ordered post -> Forall less_key pre -> same_key x -> Forall (fun e => 0 < stricmp e.1 k) post -> ordered (pre ++ x :: post).
Proof.
  intros H1 H2 Hpre Hx Hpost. unfold less_key, same_key in *. rewrite Forall_forall in Hpre, Hpost. apply StronglySorted_app_2; [| done | constructor; [done |]].
  - intros a b Ha Hb. specialize (Hpre a Ha). unfold before_or_equal. pose proof (stricmp_sym b.1 k). pose proof (cmp_trans a.1 k b.1).
    apply elem_of_cons in Hb as [Hb | Hb]; [subst b | specialize (Hpost b Hb)]; lia.
  - apply Forall_forall. intros b Hb. specialize (Hpost b Hb). unfold before_or_equal. pose proof (stricmp_sym b.1 k). pose proof (cmp_trans x.1 k b.1). lia.
Qed.
End Assign.

#[global] Instance same_key_dec k e : Decision (same_key k e) := decide (stricmp e.1 k = 0).

Lemma filter_none {A} (P : A -> Prop) `{!forall x, Decision (P x)} l : Forall (fun x => ~ P x) l -> filter P l = [].
Proof. induction 1; [done |]. by rewrite filter_cons_False. Qed.
Lemma filter_same {A} (P : A -> Prop) `{!forall x, Decision (P x)} l : Forall P l -> filter P l = l.
Proof. induction 1; [done |]. rewrite filter_cons_True by done. by f_equal. Qed.

(** The value is that of the first pair with an equivalent key. *)
Lemma qs_get_filter k qs : ordered qs -> qs_get k qs = default [] (snd <$> head (filter (same_key k) qs)).
Proof.
  intros Ho. unfold qs_get. destruct (equal_range_spec k qs Ho) as (pre & range & post & -> & -> & Hpre & Hrange & Hpost). rewrite !filter_app, (filter_same _ range) by done.
  rewrite (filter_none _ pre), (filter_none _ post), app_nil_r by (eapply Forall_impl; [eassumption |]; unfold less_key, same_key; cbn; lia). by destruct range as [| e range].
Qed.

(** Assigning through [operator[]] makes the query string a map at that key: afterwards it is still ordered, there is exactly one pair whose key is equivalent to the key (all but the first are removed, or one is made),
    its value is the one assigned, and what is found for every other key is what was found before. *)
Theorem query_string_assign k v qs : ordered qs ->
  ordered (qs_assign k v qs) /\ qs_get k (qs_assign k v qs) = v /\ length (filter (same_key k) (qs_assign k v qs)) = 1%nat /\ forall k', stricmp k' k <> 0 -> qs_get k' (qs_assign k v qs) = qs_get k' qs.
Proof.
  intros Ho. destruct (qs_assign_spec k v qs Ho) as (pre & range & post & k0 & Hq & Ha & Hk & Hpre & Hrange & Hpost). rewrite Hq in Ho. pose proof Ho as Ho'. apply StronglySorted_app in Ho' as (_ & H1 & H2). apply StronglySorted_app in H2 as (_ & _ & H2).
  assert (Hs : same_key k (k0, v)) by done. assert (Hord : ordered (qs_assign k v qs)) by (rewrite Ha; by apply (ordered_one k)).
  assert (Hf : filter (same_key k) (qs_assign k v qs) = [(k0, v)]).
  { rewrite Ha, filter_app, filter_cons_True by done. rewrite (filter_none _ pre), (filter_none _ post) by (eapply Forall_impl; [eassumption |]; unfold less_key, same_key; cbn; lia). done. }
  split_and!; [done | by rewrite qs_get_filter, Hf | by rewrite Hf |]. intros k' Hne. rewrite !qs_get_filter by (done || by rewrite Hq). rewrite Ha, Hq, !filter_app.
  assert (Hno : forall e, same_key k e -> ~ same_key k' e).
  { intros e. unfold same_key. intros He He'. apply Hne. pose proof (stricmp_sym k' e.1). pose proof (stricmp_sym k k'). pose proof (stricmp_sym k e.1). pose proof (cmp_trans k' e.1 k). pose proof (cmp_trans k e.1 k'). lia. }
  rewrite filter_cons_False by by apply Hno. rewrite (filter_none _ range) by (eapply Forall_impl; [eassumption | apply Hno]). done.
Qed.

Lemma query_string_assign_witness : qs_get (str "a") (qs_assign (str "a") (str "3") [(str "a", str "1"); (str "a", str "2"); (str "b", [])]) = str "3".
Proof. apply (query_string_assign (str "a") (str "3") [(str "a", str "1"); (str "a", str "2"); (str "b", [])]). unfold ordered. repeat constructor; vm_compute; discriminate. Defined.
