(* ===== verification/Servlet.v ===== *)
(** [ServletDispatcher] of [http/servlet.h] and [http/servlet.cpp]: servlets by authority and path.  A request goes to the servlet that is registered for the longest part of its path.  A [std::map] is the
    list of its pairs in the order of the keys, which is one for the ports of [uri_strict_weak_order]; a servlet is a number. *)

From Stdlib Require Import String.
From stdpp Require Import numbers list_numbers list.
From S2P Require Import Prelude Http Uri UriProps.

(** ** [std::map] *)

Section Map.
Context {K V : Type} (cmp : K -> K -> Z).

Fixpoint map_find (k : K) (l : list (K * V)) : option V :=
  match l with
  | [] => None
  | (k', v) :: l => if cmp k k' =? 0 then Some v else map_find k l
  end.

(** [map[k] = v] *)
Fixpoint map_insert (k : K) (v : V) (l : list (K * V)) : list (K * V) :=
  match l with
  | [] => [(k, v)]
  | (k', v') :: rest => if cmp k k' <? 0 then (k, v) :: l else if cmp k k' =? 0 then (k', v) :: rest else (k', v') :: map_insert k v rest
  end.
End Map.

(** ** The dispatcher *)

(** A servlet, which may be null, or a function that makes one. *)
Inductive ServletOrCreator := SharedServlet (servlet : option nat) | ServletCreator (servlet : nat).

Definition ServletPathMap : Type := list (list text * ServletOrCreator).

Record ServletDispatcher := mkDispatcher { m_servlets : list (Authority * (ServletPathMap * ServletPathMap)); m_enableWildcard : bool }.
Definition ServletDispatcher_new (enableWildcard : bool) : ServletDispatcher := mkDispatcher [] enableWildcard.

Definition bad_get : exn := other_exn 1.

(** [boost::get] of a reference throws when the variant holds the other type. *)
Definition getServletPtr (creator : ServletOrCreator) : result nat :=
  match creator with
  | SharedServlet (Some servlet) => Ok servlet
  | SharedServlet None => throw bad_get
  | ServletCreator _ => throw bad_get
  end.

Definition STAR : text := str "*".

Definition isWildcardPath (p : list text) : bool := existsb (fun s => bool_decide (s = STAR)) p.

Fixpoint match_segments (wildPath p : list text) : bool :=
  match wildPath, p with
  | w :: wildPath, s :: p => (bool_decide (w = STAR) || bool_decide (w = s)) && match_segments wildPath p
  | _, _ => true
  end.
Definition wildcardPathMatch (wildPath p : list text) : bool := bool_decide (length p = length wildPath) && match_segments wildPath p.

(** In the reverse order of the map. *)
Fixpoint find_wildcard (l : ServletPathMap) (p : list text) : result (option nat) :=
  match l with
  | [] => Ok None
  | (wildPath, creator) :: l => if wildcardPathMatch wildPath p then Some <$> getServletPtr creator else find_wildcard l p
  end.
Definition getServletWildcard (vhost : ServletPathMap) (p : list text) : result (option nat) := find_wildcard (rev vhost) p.

(** The last segment is cleared, or removed when it is empty. *)
Definition shorten (p : list text) : list text := if bool_decide (last p = Some []) then removelast p else removelast p ++ [[]].

Fixpoint servlet_loop (fuel : nat) (enableWildcard : bool) (vhosts : ServletPathMap * ServletPathMap) (copy : list text) : result (option nat) :=
  match fuel with
  | O => Err Diverges
  | S fuel =>
      if bool_decide (copy = []) then Ok None
      else
        match map_find Path_cmp copy (fst vhosts) with
        | Some creator => Some <$> getServletPtr creator
        | None =>
            w ← (if enableWildcard then getServletWildcard (snd vhosts) copy else Ok None);
            match w with Some s => Ok (Some s) | None => servlet_loop fuel enableWildcard vhosts (shorten copy) end
        end
  end.
Definition getServlet_path (enableWildcard : bool) (vhosts : ServletPathMap * ServletPathMap) (p : list text) : result (option nat) :=
  servlet_loop (2 * length p + 1) enableWildcard vhosts p.

Definition getServlet (d : ServletDispatcher) (uri : Uri.URI) : result (option nat) :=
  assert: negb (m_userinfoDefined (authority uri)) ;;
  if bool_decide (m_servlets d = []) then Ok None
  else
    copy ← normalize uri;
    own ← match map_find Authority_cmp (authority copy) (m_servlets d) with Some vhosts => getServlet_path (m_enableWildcard d) vhosts (path copy) | None => Ok None end;
    match own with
    | Some s => Ok (Some s)
    | None =>
        if m_hostDefined (authority copy) then
          match map_find Authority_cmp Authority_new (m_servlets d) with Some vhosts => getServlet_path (m_enableWildcard d) vhosts (path copy) | None => Ok None end
        else Ok None
    end.

Definition NOT_FOUND_STATUS : Z := 404.

(** What becomes of a request: a servlet gets it, or it is answered with an error.  Parsing the host that the request names is a parameter. *)
Inductive dispatched := Handled (servlet : nat) | RespondsError (status : Z).
Definition dispatch (parse_authority : text -> result Authority) (d : ServletDispatcher) (uri : Uri.URI) (host : text) : result dispatched :=
  uri ← (if bool_decide (host = []) then Ok uri else a ← parse_authority host; Ok (set_authority a uri));
  s ← getServlet d uri;
  Ok (match s with Some s => Handled s | None => RespondsError NOT_FOUND_STATUS end).

Definition registerServlet (uri : Uri.URI) (servlet : ServletOrCreator) (d : ServletDispatcher) : result ServletDispatcher :=
  assert: negb (m_userinfoDefined (authority uri)) ;;
  assert: negb (m_queryDefined uri) ;;
  assert: negb (m_fragmentDefined uri) ;;
  copy ← normalize uri;
  let vhosts := default ([], []) (map_find Authority_cmp (authority copy) (m_servlets d)) in
  let wildcard := m_enableWildcard d && isWildcardPath (path copy) in
  let vhost := if wildcard then snd vhosts else fst vhosts in
  assert: bool_decide (map_find Path_cmp (path copy) vhost = None) ;;
  let vhost := map_insert Path_cmp (path copy) servlet vhost in
  Ok (mkDispatcher (map_insert Authority_cmp (authority copy) (if wildcard then (fst vhosts, vhost) else (vhost, snd vhosts)) (m_servlets d)) (m_enableWildcard d)).

#[global] Instance ServletOrCreator_eq_dec : EqDecision ServletOrCreator.
Proof. solve_decision. Defined.

(** ** Maps *)

Lemma map_find_insert {K V} (cmp : K -> K -> Z) k (v : V) l : cmp k k = 0 -> map_find cmp k (map_insert cmp k v l) = Some v.
Proof.
  intros Hr. induction l as [| [k' v'] l IH]; cbn [map_insert map_find]; [by rewrite Hr |]. destruct (Z.ltb_spec (cmp k k') 0); cbn [map_find]; [by rewrite Hr |].
  destruct (Z.eqb_spec (cmp k k') 0) as [E | E]; cbn [map_find]; [by rewrite E | by rewrite (proj2 (Z.eqb_neq _ _))].
Qed.

Lemma Authority_cmp_refl a : Authority_cmp a a = 0.
Proof. unfold Authority_cmp. by rewrite !(cmp_refl boolcmp), !(cmp_refl strcmp), Z.sub_diag. Qed.

(** ** The part of the path that is matched *)

(** The parts of a path, given by its segments in reverse order, from the longest on: each beginning of it, and the directory of that. *)
Fixpoint parts_of (r : list text) : list (list text) :=
  match r with
  | [] => []
  | a :: r' => if bool_decide (a = []) then rev r :: parts_of r' else rev r :: rev ([] :: r') :: parts_of r'
  end.
Definition candidates (p : list text) : list (list text) := parts_of (rev p).

(** How far a path is from the empty one. *)
Definition left_of (p : list text) : nat := 2 * length p - (if bool_decide (last p = Some []) then 1 else 0).

Lemma shorten_left p : p <> [] -> (left_of (shorten p) < left_of p)%nat /\ (length (shorten p) <= length p)%nat /\ exists q a, p = q ++ [a] /\ (shorten p = q \/ shorten p = q ++ [[]]).
Proof.
  intros Hp. destruct (snoc_of p Hp) as (q & a & -> & Hq). unfold shorten. rewrite Hq, last_snoc. destruct (decide (a = [])) as [-> | Ha].
  - rewrite (bool_decide_true (Some [] = Some [])) by done. unfold left_of. rewrite last_snoc, (bool_decide_true (Some [] = Some [])), length_app by done. cbn [length]. split_and!; [case_bool_decide; lia | lia | eauto].
  - rewrite (bool_decide_false (Some a = Some [])) by congruence. unfold left_of. rewrite !last_snoc, (bool_decide_true (Some [] = Some [])), (bool_decide_false (Some a = Some [])), !length_app by congruence.
    cbn [length]. split_and!; [lia | lia | eauto].
Qed.

Lemma candidates_cons p : p <> [] -> candidates p = p :: candidates (shorten p).
Proof.
  intros Hp. destruct (snoc_of p Hp) as (q & a & -> & Hq). unfold candidates, shorten. rewrite Hq, last_snoc, rev_unit. cbn [parts_of]. destruct (decide (a = [])) as [-> | Ha].
  - rewrite !bool_decide_true by done. cbn [rev]. by rewrite rev_involutive.
  - rewrite !bool_decide_false by (done || congruence). rewrite rev_unit. cbn [parts_of]. rewrite bool_decide_true by done. cbn [rev]. by rewrite rev_involutive.
Qed.

Lemma prefix_snoc_inv (r q : list text) x : r `prefix_of` q ++ [x] -> r `prefix_of` q \/ r = q ++ [x].
Proof.
  intros [t Ht]. destruct (decide (t = [])) as [-> | Hn]; [right; by rewrite app_nil_r in Ht |]. left. destruct (exists_last Hn) as (t' & y & ->). rewrite app_assoc in Ht. apply app_inj_tail in Ht as [-> _]. by apply prefix_app_r.
Qed.

(** A part of a path: a beginning of it, or what is left of a beginning when its last segment is cleared, as [/a/] of [/a/b]. *)
Definition part_of (q p : list text) : Prop := q <> [] /\ (q `prefix_of` p \/ exists r, q = r ++ [[]] /\ r `prefix_of` p /\ (length r < length p)%nat).

Lemma part_of_snoc q p a : part_of q (p ++ [a]) <-> q = p ++ [a] \/ q = p ++ [[]] \/ part_of q p.
Proof.
  unfold part_of. rewrite length_app. cbn [length]. split.
  - intros [Hq [Hp | (r & -> & Hr & Hl)]].
    + apply prefix_snoc_inv in Hp as [Hp | ->]; auto.
    + apply prefix_snoc_inv in Hr as [Hr | ->]; [| rewrite length_app in Hl; cbn in Hl; lia]. destruct (decide (length r < length p)%nat) as [Hlt |]; [right; right; eauto 6 |].
      right. left. f_equal. apply (prefix_length_eq _ _ Hr). lia.
  - intros [-> | [-> | [Hq [Hp | (r & -> & Hr & Hl)]]]]; (split; [try done; by destruct p |]).
    + by left.
    + right. exists p. split_and!; [done | by apply prefix_app_r | lia].
    + left. by apply prefix_app_r.
    + right. exists r. split_and!; [done | by apply prefix_app_r | lia].
Qed.

(** What is tried are the parts of the path. *)
Lemma candidates_iff q p : q ∈ candidates p <-> part_of q p.
Proof.
  unfold candidates. induction p as [| a p IH] using rev_ind.
  - cbn. split; [by intros ?%not_elem_of_nil |]. intros [Hq [[t Ht] | (r & -> & _ & Hr)]]; [| cbn in Hr; lia]. symmetry in Ht. by apply app_eq_nil in Ht as [-> _].
  - rewrite rev_unit, part_of_snoc, <- IH. cbn [parts_of]. case_bool_decide as Ha; rewrite !elem_of_cons; cbn [rev]; rewrite rev_involutive; [subst a; tauto | tauto].
Qed.

(** The length of a path when it is written, with a slash for each segment. *)
Definition path_length (p : list text) : nat := foldr (fun s n => (S (length s) + n)%nat) O p.

Lemma path_length_app p q : path_length (p ++ q) = (path_length p + path_length q)%nat.
Proof. induction p as [| s p IH]; [done |]. change ((s :: p) ++ q) with (s :: (p ++ q)). cbn [path_length foldr] in *. fold (path_length (p ++ q)) (path_length p). lia. Qed.

Lemma shorten_length p : p <> [] -> (path_length (shorten p) < path_length p)%nat.
Proof.
  intros Hp. destruct (snoc_of p Hp) as (q & a & -> & Hq). unfold shorten. rewrite Hq, last_snoc. case_bool_decide as Ha; rewrite ?path_length_app; change (path_length [a]) with (S (length a) + 0)%nat; [lia |].
  change (path_length [[]]) with 1%nat. destruct a; [done |]. cbn. lia.
Qed.

Lemma candidates_length q p : q ∈ candidates p -> (path_length q <= path_length p)%nat.
Proof.
  remember (left_of p) as n eqn:En. revert p En. induction n as [n IH] using lt_wf_ind. intros p -> Hq. destruct (decide (p = [])) as [-> | Hp]; [by apply not_elem_of_nil in Hq |].
  destruct (shorten_left p Hp) as (Hl & _). pose proof (shorten_length p Hp). rewrite candidates_cons in Hq by done. apply elem_of_cons in Hq as [-> | Hq]; [done |]. specialize (IH _ Hl _ eq_refl Hq). lia.
Qed.

(** ** The loop *)

(** What is registered for a path itself: with that path, or with wildcards. *)
Definition lookup_entry (enableWildcard : bool) (vhosts : ServletPathMap * ServletPathMap) (p : list text) : option ServletOrCreator :=
  match map_find Path_cmp p (fst vhosts) with
  | Some c => Some c
  | None => if enableWildcard then snd <$> head (List.filter (fun e => wildcardPathMatch (fst e) p) (rev (snd vhosts))) else None
  end.

(** The first entry for one of these paths. *)
Fixpoint first_entry (enableWildcard : bool) (vhosts : ServletPathMap * ServletPathMap) (l : list (list text)) : option ServletOrCreator :=
  match l with
  | [] => None
  | q :: l => match lookup_entry enableWildcard vhosts q with Some c => Some c | None => first_entry enableWildcard vhosts l end
  end.

Definition outcome_of (c : option ServletOrCreator) : result (option nat) := match c with Some c => Some <$> getServletPtr c | None => Ok None end.

Lemma find_wildcard_filter l p : find_wildcard l p = outcome_of (snd <$> head (List.filter (fun e => wildcardPathMatch (fst e) p) l)).
Proof. induction l as [| [w c] l IH]; [done |]. cbn [find_wildcard List.filter fst]. by destruct (wildcardPathMatch w p). Qed.

Lemma servlet_loop_spec en vh fuel : forall p, (left_of p < fuel)%nat -> servlet_loop fuel en vh p = outcome_of (first_entry en vh (candidates p)).
Proof.
  induction fuel as [| fuel IH]; intros p Hf; [lia |]. cbn [servlet_loop]. destruct (decide (p = [])) as [-> | Hp]; [done |]. rewrite bool_decide_false, candidates_cons by done. destruct (shorten_left p Hp) as (Hl & _).
  cbn [first_entry]. unfold lookup_entry at 1. destruct (map_find Path_cmp p (fst vh)) as [c |]; [done |]. destruct en; [| cbn [mbind result_bind]; rewrite IH by lia; done].
  unfold getServletWildcard. rewrite find_wildcard_filter. destruct (head _) as [[w c] |]; cbn [fmap option_fmap option_map snd outcome_of mbind result_bind]; [| rewrite IH by lia; done]. by destruct (getServletPtr c).
Qed.

Lemma getServlet_path_spec en vh p : getServlet_path en vh p = outcome_of (first_entry en vh (candidates p)).
Proof. apply servlet_loop_spec. unfold left_of. lia. Qed.

Lemma first_entry_none en vh l : first_entry en vh l = None -> forall q, q ∈ l -> lookup_entry en vh q = None.
Proof. induction l as [| q l IH]; intros H q' Hq; [by apply not_elem_of_nil in Hq |]. cbn [first_entry] in H. destruct (lookup_entry en vh q) eqn:E; [done |]. apply elem_of_cons in Hq as [-> | Hq]; [done | by apply IH]. Qed.

(** The candidates get shorter, so that the first entry is for the longest. *)
Lemma first_entry_some en vh c p : first_entry en vh (candidates p) = Some c ->
  exists q, q ∈ candidates p /\ lookup_entry en vh q = Some c /\ forall q', q' ∈ candidates p -> lookup_entry en vh q' <> None -> q' = q \/ (path_length q' < path_length q)%nat.
Proof.
  remember (left_of p) as n eqn:En. revert p En. induction n as [n IH] using lt_wf_ind. intros p -> H. destruct (decide (p = [])) as [-> | Hp]; [done |].
  destruct (shorten_left p Hp) as (Hl & _). rewrite candidates_cons in H |- * by done. cbn [first_entry] in H. destruct (lookup_entry en vh p) as [c' |] eqn:E.
  - injection H as ->. exists p. split_and!; [by left | done |]. intros q' [-> | Hq]%elem_of_cons _; [by left | right]. apply candidates_length in Hq. pose proof (shorten_length p Hp). lia.
  - destruct (IH _ Hl _ eq_refl H) as (q & Hq & He & Hmax). exists q. split_and!; [by right | done |]. intros q' [-> | Hq']%elem_of_cons Hn; [done | by apply Hmax].
Qed.

(** ** The theorems *)

(** What a virtual host has for a path: the entry of the longest part of it that has one; or no part of it has an entry. *)
Definition answers (d : ServletDispatcher) (h : Authority) (p : list text) (c : ServletOrCreator) : Prop :=
  exists vh q, map_find Authority_cmp h (m_servlets d) = Some vh /\ part_of q p /\ lookup_entry (m_enableWildcard d) vh q = Some c /\
    forall q', part_of q' p -> lookup_entry (m_enableWildcard d) vh q' <> None -> q' = q \/ (path_length q' < path_length q)%nat.
Definition silent (d : ServletDispatcher) (h : Authority) (p : list text) : Prop :=
  forall vh q, map_find Authority_cmp h (m_servlets d) = Some vh -> part_of q p -> lookup_entry (m_enableWildcard d) vh q = None.

Lemma getServlet_host d h p (r := match map_find Authority_cmp h (m_servlets d) with Some vh => getServlet_path (m_enableWildcard d) vh p | None => Ok None end) :
  (exists c, answers d h p c /\ r = Some <$> getServletPtr c) \/ (silent d h p /\ r = Ok None).
Proof.
  unfold r, answers, silent. destruct (map_find Authority_cmp h (m_servlets d)) as [vh |]; [| by right]. rewrite getServlet_path_spec.
  destruct (first_entry (m_enableWildcard d) vh (candidates p)) as [c |] eqn:E.
  - left. destruct (first_entry_some _ _ _ _ E) as (q & Hq%candidates_iff & He & Hmax). exists c. split; [| done]. exists vh, q. split_and!; try done. intros q' Hq'%candidates_iff. by apply Hmax.
  - right. split; [| done]. intros vh' q [= <-] Hq%candidates_iff. by eapply first_entry_none.
Qed.

(** C33 -- A request whose URI has no user information is dispatched by its normalized URI, in which no dot segment is left: to what is registered for the longest part of the path under its authority, where a
    part is the path, a directory of it with or without the slash, and longer means more characters; what is registered for the path itself comes before the patterns that match it.  Only if no part of the path has anything,
    it goes to what is registered for the longest part without an authority; when there is nothing either, no servlet gets it.  What is registered is a servlet, which gets the request, or a function that makes one, and
    then the dispatcher throws instead of calling it, see [creator_throws]. *)
Theorem servlet_longest_match d uri : m_userinfoDefined (authority uri) = false -> zlen (path uri) < 2 ^ 64 - 1 ->
  exists copy, normalize uri = Ok copy /\ Forall nodot (path copy) /\
    let h := authority copy in let p := path copy in
    ((exists c, answers d h p c /\ getServlet d uri = Some <$> getServletPtr c) \/
     (silent d h p /\ m_hostDefined h = true /\ exists c, answers d Authority_new p c /\ getServlet d uri = Some <$> getServletPtr c) \/
     (silent d h p /\ (m_hostDefined h = true -> silent d Authority_new p) /\ getServlet d uri = Ok None)).
Proof.
  intros Hu Hf. destruct (normalize_returns uri Hf) as (copy & Hc & Hd). exists copy. split_and!; [done | done |]. unfold getServlet. rewrite Hu, Hc. cbn [negb ASSERT]. step.
  case_bool_decide as En; [right; right; unfold silent; by rewrite En |].
  destruct (getServlet_host d (authority copy) (path copy)) as [(c & Ha & ->) | (Hs & ->)]; [left; exists c; split; [done |]; by destruct (getServletPtr c) |]. step.
  destruct (m_hostDefined (authority copy)) eqn:Eh; [| right; right; by split_and!]. destruct (getServlet_host d Authority_new (path copy)) as [(c & Ha & ->) | (Hs' & ->)]; right; [left | right]; split_and!; eauto.
Qed.

(** A servlet that is registered is found: registering one for a URI whose path is not empty and has no wildcard either fails an assertion because of the URI or because the path is taken, or makes
    a dispatcher that gives that servlet for that URI. *)
Theorem servlet_registered d d' uri s : registerServlet uri (SharedServlet (Some s)) d = Ok d' -> zlen (path uri) < 2 ^ 64 - 1 ->
  (forall copy, normalize uri = Ok copy -> path copy <> [] /\ m_enableWildcard d && isWildcardPath (path copy) = false) -> getServlet d' uri = Ok (Some s).
Proof.
  intros H Hf Hp. destruct (normalize_returns uri Hf) as (copy & Hc & _). destruct (Hp copy Hc) as [Hne Hw]. unfold registerServlet in H. rewrite Hc in H.
  destruct (m_userinfoDefined (authority uri)) eqn:Eu; [done |]. destruct (m_queryDefined uri); [done |]. destruct (m_fragmentDefined uri); [done |]. cbn [negb ASSERT mbind result_bind] in H. rewrite Hw in H.
  case_bool_decide as Hfree; [| done]. cbn [ASSERT mbind result_bind] in H. injection H as <-. unfold getServlet. rewrite Eu, Hc. cbn [negb ASSERT m_servlets m_enableWildcard]. step.
  rewrite bool_decide_false by (destruct (m_servlets d) as [| [k v] l]; cbn [map_insert]; repeat case_match; done). rewrite (map_find_insert Authority_cmp) by apply Authority_cmp_refl. rewrite getServlet_path_spec, candidates_cons by done.
  cbn [first_entry]. unfold lookup_entry. cbn [fst]. by rewrite (map_find_insert Path_cmp) by apply (cmp_refl Path_cmp).
Qed.

Definition segments_uri (p : list text) : Uri.URI := set_path p URI_new.
Definition served : ServletDispatcher :=
  match (d ← registerServlet (segments_uri [[]; str "a"; str "b"]) (SharedServlet (Some 1%nat)) (ServletDispatcher_new false); registerServlet (segments_uri [[]; []]) (SharedServlet (Some 0%nat)) d) with Ok d => d | Err _ => ServletDispatcher_new false end.

(** [/a/x/../b/c] goes to what is registered for [/a/b], and not to what is registered for [/]. *)
Lemma servlet_longest_match_witness : exists c, answers served Authority_new [[]; str "a"; str "b"; str "c"] c /\
  getServlet served (segments_uri [[]; str "a"; str "x"; DOTDOT; str "b"; str "c"]) = Some <$> getServletPtr c /\ c = SharedServlet (Some 1%nat).
Proof.
  destruct (servlet_longest_match served (segments_uri [[]; str "a"; str "x"; DOTDOT; str "b"; str "c"])) as (copy & Hc & _ & H); [done | vm_compute; done |].
  vm_compute in Hc. injection Hc as <-. destruct H as [(c & Ha & Hg) | [(_ & Hh & _) | (_ & _ & Hg)]]; [| vm_compute in Hh; done | vm_compute in Hg; done].
  exists c. split; [exact Ha |]. split; [exact Hg |]. vm_compute in Hg. destruct c as [[n |] |]; [| done | done]. by injection Hg as <-.
Defined.

Lemma servlet_registered_witness : exists d, registerServlet (segments_uri [[]; str "m"; []]) (SharedServlet (Some 2%nat)) served = Ok d /\ getServlet d (segments_uri [[]; str "m"; []]) = Ok (Some 2%nat).
Proof.
  eexists. split; [vm_compute; reflexivity |]. eapply (servlet_registered served); [vm_compute; reflexivity | vm_compute; done |]. intros copy Hc. vm_compute in Hc. injection Hc as <-. by split.
Defined.

(** ** Where the code goes wrong *)

(** A function that makes a servlet is never called: asking the variant for a servlet throws. *)
Lemma creator_throws d : registerServlet (segments_uri [[]; []]) (ServletCreator 1) (ServletDispatcher_new false) = Ok d -> getServlet d (segments_uri [[]; []]) = throw bad_get.
Proof. intros H. vm_compute in H. injection H as <-. vm_compute. reflexivity. Qed.

(** A request that names a host with user information fails an assertion. *)
Lemma host_userinfo_asserts d host uri : host <> [] -> dispatch (fun _ => Ok (set_userinfo (str "u") (set_host (str "h") Authority_new))) d uri host = Err Assertion.
Proof. intros H. unfold dispatch. by rewrite bool_decide_false by done. Qed.

(** Between two patterns, the one whose first wildcard is further to the left wins when the other has a character there that is less than a star. *)
Lemma wildcard_precedence : exists d, (d ← registerServlet (segments_uri [[]; str "a"; STAR; str "b"]) (SharedServlet (Some 1%nat)) (ServletDispatcher_new true);
  registerServlet (segments_uri [[]; str "a"; str "!"; STAR]) (SharedServlet (Some 2%nat)) d) = Ok d /\ getServlet d (segments_uri [[]; str "a"; str "!"; str "b"]) = Ok (Some 1%nat).
Proof. eexists. split; [vm_compute; reflexivity |]. vm_compute. reflexivity. Qed.
