(* ===== verification/PgPool.v ===== *)
(** [pq/connectionpool.cpp]: a pool of connections to a database that fibers take and give back, with a [FiberCondition] they wait on.  Each function is a critical section under the mutex of the pool; waiting ends one.
    A connection is a number; whether making, connecting or resetting one succeeds, and the clock, are arguments. *)

From Stdlib Require Import String.
From stdpp Require Import numbers list_numbers list.
From S2P Require Import Prelude.

#[local] Open Scope nat_scope.

(** Who waits: a call of [getConnection], or the destructor. *)
Inductive waiter := Getter (fiber : nat) | Destroyer (fiber : nat).
#[global] Instance waiter_eq_dec : EqDecision waiter.
Proof. solve_decision. Defined.

Record ConnectionPool := mkPool { m_free : list (nat * Z); m_busy : list nat; m_total : nat; m_idleTolerance : Z; m_waiters : list waiter; next_conn : nat }.

Fixpoint fill (n from : nat) (now : Z) : list (nat * Z) := match n with O => [] | S n => (from, now) :: fill n (S from) now end.
Definition ConnectionPool_new (num : nat) (idleTolerance now : Z) : ConnectionPool := mkPool (fill num 0 now) [] num idleTolerance [] num.

Definition set_free (l : list (nat * Z)) (p : ConnectionPool) : ConnectionPool := mkPool l (m_busy p) (m_total p) (m_idleTolerance p) (m_waiters p) (next_conn p).
Definition set_busy (l : list nat) (p : ConnectionPool) : ConnectionPool := mkPool (m_free p) l (m_total p) (m_idleTolerance p) (m_waiters p) (next_conn p).
Definition set_pool_waiters (l : list waiter) (p : ConnectionPool) : ConnectionPool := mkPool (m_free p) (m_busy p) (m_total p) (m_idleTolerance p) l (next_conn p).

Definition connectionExpired (p : ConnectionPool) (now freeTime : Z) : bool := negb (m_idleTolerance p =? 0)%Z && (u64 (freeTime + m_idleTolerance p) <? now)%Z.

(** The state of a connection: whether it is bad or not yet good, and what connecting and resetting come to. *)
Inductive ConnStatus := CONNECTION_OK | CONNECTION_BAD | CONNECTION_OTHER.
#[global] Instance ConnStatus_eq_dec : EqDecision ConnStatus.
Proof. solve_decision. Defined.

(** [status]: of the connection; [connects]: its status after [connect], which throws when it is [None]; [resets]: whether [reset] returns. *)
Record health := mkHealth { h_status : ConnStatus; h_connects : option ConnStatus; h_resets : bool }.
Definition healthy : health := mkHealth CONNECTION_OK (Some CONNECTION_OK) true.

Inductive got := Gets (connection : nat) | WaitsFor | Fails.

(** What is left of [getConnection] when there is a free connection. *)
Definition take_front (h : health) (now : Z) (p : ConnectionPool) : result (got * ConnectionPool) :=
  match m_free p with
  | [] => Err Assertion
  | (c, t) :: rest =>
      let status := if connectionExpired p now t || bool_decide (h_status h = CONNECTION_BAD) then h_connects h else Some (h_status h) in
      match status with
      | None => Ok (Fails, p)
      | Some status =>
          if bool_decide (status <> CONNECTION_OK) && negb (h_resets h) then Ok (Fails, p)
          else Ok (Gets c, set_free rest (set_busy (m_busy p ++ [c]) p))
      end
  end.

(** The loop: wait while there is no free connection. *)
Definition get_loop (fiber : nat) (h : health) (now : Z) (p : ConnectionPool) : result (got * ConnectionPool) :=
  match m_free p with [] => Ok (WaitsFor, set_pool_waiters (m_waiters p ++ [Getter fiber]) p) | _ => take_front h now p end.

(** [creates]: whether a new connection can be made. *)
Definition getConnection (fiber : nat) (creates : bool) (h : health) (now : Z) (p : ConnectionPool) : result (got * ConnectionPool) :=
  let p := if bool_decide (m_free p = []) && (length (m_busy p) <? m_total p) && creates
           then mkPool (m_free p ++ [(next_conn p, now)]) (m_busy p) (m_total p) (m_idleTolerance p) (m_waiters p) (S (next_conn p))
           else p in
  get_loop fiber h now p.

(** The free connections that are too many are dropped. *)
Fixpoint shrink (busy total : nat) (free : list (nat * Z)) : list (nat * Z) :=
  match free with [] => [] | _ :: rest => if total <? busy + length free then shrink busy total rest else free end.
Definition resize (num : nat) (p : ConnectionPool) : ConnectionPool :=
  mkPool (shrink (length (m_busy p)) num (m_free p)) (m_busy p) num (m_idleTolerance p) (m_waiters p) (next_conn p).

(** [std::find] and [erase]; [None] when it is not there. *)
Fixpoint erase_one {A} `{!EqDecision A} (c : A) (l : list A) : option (list A) :=
  match l with [] => None | x :: l => if bool_decide (c = x) then Some l else cons x <$> erase_one c l end.

(** With those that are woken: [signal] wakes the first that waits. *)
Definition releaseConnection (c : nat) (now : Z) (p : ConnectionPool) : result (list waiter * ConnectionPool) :=
  match erase_one c (m_busy p) with
  | None => Err Assertion
  | Some busy =>
      let p := set_busy busy p in
      if length busy + length (m_free p) <? m_total p then
        let p := set_free ((c, now) :: m_free p) p in
        match m_waiters p with [] => Ok ([], p) | w :: rest => Ok ([w], set_pool_waiters rest p) end
      else Ok ([], p)
  end.

(** The destructor is through when no connection is busy. *)
Definition destroy (fiber : nat) (p : ConnectionPool) : bool * ConnectionPool :=
  if bool_decide (m_busy p = []) then (true, p) else (false, set_pool_waiters (m_waiters p ++ [Destroyer fiber]) p).

(** ** The fibers *)

(** [w_ready]: those that were woken; [w_held]: the connections that were handed out; [w_destroyed]: whether the destructor has been called, and is through. *)
Record world := mkWorld { w_pool : ConnectionPool; w_ready : list waiter; w_held : list nat; w_destroying : bool; w_through : bool }.
Definition world_new (num : nat) (idleTolerance now : Z) : world := mkWorld (ConnectionPool_new num idleTolerance now) [] [] false false.

Inductive action :=
| GetConnection (fiber : nat) (creates : bool) (h : health) (now : Z)
| Resume (w : waiter) (h : health) (now : Z)
| Release (c : nat) (now : Z)
| Resize (num : nat)
| Destroy (fiber : nat).

Definition after_get (r : got) (p : ConnectionPool) (ready : list waiter) (w : world) : world :=
  mkWorld p ready (match r with Gets c => w_held w ++ [c] | _ => w_held w end) (w_destroying w) (w_through w).

Definition perform (act : action) (w : world) : result world :=
  let p := w_pool w in
  match act with
  | GetConnection fiber creates h now => '(r, p) ← getConnection fiber creates h now p; Ok (after_get r p (w_ready w) w)
  | Resume (Getter fiber) h now => '(r, p) ← get_loop fiber h now p; Ok (after_get r p (default [] (erase_one (Getter fiber) (w_ready w))) w)
  | Resume (Destroyer fiber) _ _ => let '(through, p) := destroy fiber p in Ok (mkWorld p (default [] (erase_one (Destroyer fiber) (w_ready w))) (w_held w) true through)
  | Release c now => '(woken, p) ← releaseConnection c now p; Ok (mkWorld p (w_ready w ++ woken) (default (w_held w) (erase_one c (w_held w))) (w_destroying w) (w_through w))
  | Resize num => Ok (mkWorld (resize num p) (w_ready w) (w_held w) (w_destroying w) (w_through w))
  | Destroy fiber => let '(through, p) := destroy fiber p in Ok (mkWorld p (w_ready w) (w_held w) true through)
  end.

(** A connection that can be connected to and reset.  [fixed]: the size of the pool is not changed and every connection can be used. *)
Definition usable (h : health) : Prop := h_connects h <> None /\ h_resets h = true.
Definition enabled (fixed : bool) (act : action) (w : world) : Prop :=
  match act with
  | GetConnection _ _ h _ => w_destroying w = false /\ (fixed = true -> usable h)
  | Resume x h _ => x ∈ w_ready w /\ (fixed = true -> usable h)
  | Release c _ => c ∈ w_held w
  | Resize _ => fixed = false
  | Destroy _ => w_destroying w = false /\ m_waiters (w_pool w) = [] /\ w_ready w = []
  end.

Inductive reachable (fixed : bool) (num : nat) (idleTolerance start : Z) : world -> Prop :=
| reachable_new : reachable fixed num idleTolerance start (world_new num idleTolerance start)
| reachable_step w w' act : reachable fixed num idleTolerance start w -> enabled fixed act w -> perform act w = Ok w' -> reachable fixed num idleTolerance start w'.

(** ** The invariant *)

Definition conns (p : ConnectionPool) : list nat := m_busy p ++ (fst <$> m_free p).

(** Only calls of [getConnection] wait until the destructor is called, and then only that. *)
Definition getter (x : waiter) : Prop := match x with Getter _ => True | Destroyer _ => False end.

Record pool_ok (fixed : bool) (num : nat) (w : world) : Prop := {
  po_held : w_held w = m_busy (w_pool w);
  po_nodup : NoDup (conns (w_pool w));
  po_next c : c ∈ conns (w_pool w) -> c < next_conn (w_pool w);
  po_total : fixed = true -> m_total (w_pool w) = num /\ length (conns (w_pool w)) = num;
  po_getters : w_destroying w = false -> Forall getter (m_waiters (w_pool w)) /\ Forall getter (w_ready w) /\ (fixed = true -> m_waiters (w_pool w) <> [] -> length (m_free (w_pool w)) <= length (w_ready w));
  po_destroyer : w_destroying w = true -> Forall (fun x => ~ getter x) (m_waiters (w_pool w)) /\ Forall (fun x => ~ getter x) (w_ready w) /\ (fixed = true -> m_waiters (w_pool w) <> [] -> m_busy (w_pool w) <> []) /\
    length (m_waiters (w_pool w)) + length (w_ready w) <= 1;
}.

Lemma fill_conns n from now : fst <$> fill n from now = seq from n.
Proof. revert from. induction n as [| n IH]; intros from; [done |]. cbn. by rewrite IH. Qed.

Lemma new_ok fixed num idle now : pool_ok fixed num (world_new num idle now).
Proof.
  assert (Hc : conns (ConnectionPool_new num idle now) = seq 0 num) by apply fill_conns. split; cbn [world_new w_pool w_held w_destroying w_ready]; rewrite ?Hc; try done.
  - apply NoDup_seq.
  - intros c Hx. apply elem_of_seq in Hx. cbn. lia.
  - intros _. split; [done | apply length_seq].
Qed.

Lemma erase_one_some {A} `{!EqDecision A} (c : A) l : c ∈ l -> exists a b, l = a ++ c :: b /\ erase_one c l = Some (a ++ b).
Proof.
  induction l as [| x l IH]; intros Hc; [by apply not_elem_of_nil in Hc |]. cbn [erase_one]. case_bool_decide as E; [subst; by exists [], l |]. apply elem_of_cons in Hc as [? | Hc]; [done |].
  destruct (IH Hc) as (a & b & -> & ->). exists (x :: a), b. done.
Qed.

Lemma shrink_suffix busy total free : exists dropped, free = dropped ++ shrink busy total free.
Proof. induction free as [| f free [d IH]]; [by exists [] |]. cbn [shrink]. destruct (total <? _); [exists (f :: d); cbn; by f_equal | by exists []]. Qed.

(** A connection that is taken goes from the front of the free ones to the back of the busy ones. *)
Lemma take_front_spec h now p c t rest : m_free p = (c, t) :: rest ->
  (take_front h now p = Ok (Fails, p) /\ ~ usable h) \/ take_front h now p = Ok (Gets c, set_free rest (set_busy (m_busy p ++ [c]) p)).
Proof.
  intros E. unfold take_front, usable. rewrite E. destruct (_ || _).
  - destruct (h_connects h) as [s |]; [| left; split; [done | tauto]]. destruct (h_resets h); [right; by rewrite andb_false_r |]. destruct (bool_decide _); [left; split; [done | by intros [_ ?]] | by right].
  - destruct (h_resets h); [right; by rewrite andb_false_r |]. destruct (bool_decide _); [left; split; [done | by intros [_ ?]] | by right].
Qed.

Lemma taken_conns p c t rest : m_free p = (c, t) :: rest -> conns (set_free rest (set_busy (m_busy p ++ [c]) p)) = conns p.
Proof. intros E. unfold conns. rewrite E. cbn. by rewrite <-app_assoc. Qed.

(** The part of the invariant that does not depend on who waits. *)
Record pool_conns (fixed : bool) (num : nat) (held : list nat) (p : ConnectionPool) : Prop := {
  pc_held : held = m_busy p;
  pc_nodup : NoDup (conns p);
  pc_next c : c ∈ conns p -> c < next_conn p;
  pc_total : fixed = true -> m_total p = num /\ length (conns p) = num;
}.

Lemma pool_ok_conns fixed num w : pool_ok fixed num w -> pool_conns fixed num (w_held w) (w_pool w).
Proof. intros []. by split. Qed.

(** [get_loop], for a fiber that was woken or that has just come: what is left of the ready ones. *)
Lemma get_loop_ok fixed num fiber h now p ready w : pool_conns fixed num (w_held w) p -> w_destroying w = false -> Forall getter (m_waiters p) -> Forall getter ready -> (fixed = true -> usable h) ->
  (fixed = true -> m_waiters p <> [] -> length (m_free p) <= S (length ready)) ->
  exists r p', get_loop fiber h now p = Ok (r, p') /\ pool_ok fixed num (after_get r p' ready w).
Proof.
  intros [H1 H2 H3 H4] Hd Hw Hr Hu Hl. unfold get_loop. destruct (m_free p) as [| [c t] rest] eqn:Ef.
  - exists WaitsFor, (set_pool_waiters (m_waiters p ++ [Getter fiber]) p). split; [done |]. split; cbn [after_get w_pool w_held w_destroying w_ready set_pool_waiters m_busy m_free m_waiters m_total next_conn]; try done.
    + intros _. split_and!; [apply Forall_app; split; [done | by constructor] | done |]. intros _ _. rewrite Ef. cbn. lia.
    + by rewrite Hd.
  - destruct (take_front_spec h now p c t rest Ef) as [[-> Hnu] | ->].
    + exists Fails, p. split; [done |]. split; cbn [after_get w_pool w_held w_destroying w_ready]; try done; [| by rewrite Hd]. intros _. split_and!; [done | done |]. intros Hf. by destruct (Hnu (Hu Hf)).
    + exists (Gets c), (set_free rest (set_busy (m_busy p ++ [c]) p)). split; [done |]. split; cbn [after_get w_pool w_held w_destroying w_ready]; rewrite ?(taken_conns p c t rest Ef); cbn [set_free set_busy m_busy m_free m_waiters m_total next_conn]; try done.
      * by rewrite H1.
      * intros _. split_and!; [done | done |]. intros Hf Hn. specialize (Hl Hf Hn). cbn in Hl. lia.
      * by rewrite Hd.
Qed.

(** A new connection is made only when there are fewer than the pool may have. *)
Lemma create_ok fixed num held p now : pool_conns fixed num held p -> m_free p = [] -> length (m_busy p) < m_total p ->
  fixed = false /\ pool_conns fixed num held (mkPool (m_free p ++ [(next_conn p, now)]) (m_busy p) (m_total p) (m_idleTolerance p) (m_waiters p) (S (next_conn p))).
Proof.
  intros [H1 H2 H3 H4] Ef Hb. assert (Hn : fixed = false) by (destruct fixed; [| done]; destruct (H4 eq_refl) as [<- Hl]; unfold conns in Hl; rewrite Ef, app_nil_r in Hl; lia). split; [done |].
  unfold conns in *. rewrite Ef, app_nil_r in *. split; cbn; try done; [| | by rewrite Hn].
  - apply NoDup_app. split_and!; [done | | apply NoDup_singleton]. intros x Hx ->%list_elem_of_singleton. specialize (H3 _ Hx). lia.
  - intros c [Hc | ->%list_elem_of_singleton]%elem_of_app; [specialize (H3 c Hc); lia | lia].
Qed.

Lemma release_ok fixed num held p c now : pool_conns fixed num held p -> c ∈ held ->
  exists woken p', releaseConnection c now p = Ok (woken, p') /\ pool_conns fixed num (default held (erase_one c held)) p' /\ m_waiters p = woken ++ m_waiters p' /\
    (fixed = true -> length (m_free p') = S (length (m_free p)) /\ length woken = Nat.min 1 (length (m_waiters p))) /\ (forall x, x ∈ woken -> m_free p' <> []).
Proof.
  intros [H1 H2 H3 H4] Hc. rewrite H1 in Hc |- *. destruct (erase_one_some c (m_busy p) Hc) as (a & b & Eb & Ee). unfold releaseConnection. rewrite Ee. cbn [default from_option id].
  assert (Hp : conns p ≡ₚ (a ++ b) ++ c :: (fst <$> m_free p)) by (unfold conns; rewrite Eb, <-!app_assoc; cbn; by rewrite (Permutation_middle b)).
  assert (Hlen : length (conns p) = S (length (a ++ b) + length (m_free p))) by (rewrite Hp, !length_app; cbn; rewrite length_fmap; lia).
  cbn [set_busy m_free m_total m_waiters]. destruct (Nat.ltb_spec (length (a ++ b) + length (m_free p)) (m_total p)) as [Hlt | Hge].
  - assert (Hpc : forall q, m_busy q = a ++ b -> m_free q = (c, now) :: m_free p -> m_total q = m_total p -> next_conn q = next_conn p -> pool_conns fixed num (a ++ b) q).
    { intros q Q1 Q2 Q3 Q4. assert (Hq : conns q ≡ₚ conns p) by (rewrite Hp; unfold conns; by rewrite Q1, Q2). split; [done | by rewrite Hq | intros x; rewrite Hq, Q4; apply H3 | intros Hf; rewrite Q3, Hq; by apply H4]. }
    change (m_waiters (set_free ((c, now) :: m_free p) (set_busy (a ++ b) p))) with (m_waiters p). destruct (m_waiters p) as [| x ws] eqn:Ew; eexists _, _; (split; [reflexivity |]); (split_and!; [by apply Hpc | done | intros _; cbn; lia |]); intros y Hy; [by apply not_elem_of_nil in Hy | done].
  - exists [], (set_busy (a ++ b) p). split; [done |]. split_and!; [| done | | intros x Hx; by apply not_elem_of_nil in Hx].
    + split; cbn; try done.
      * rewrite Hp in H2. apply NoDup_app in H2 as (N1 & N2 & N3). apply NoDup_cons in N3 as [N3 N4]. unfold conns. cbn. apply NoDup_app. split_and!; [done | intros x Hx Hx'; apply (N2 x Hx); by right | done].
      * intros x Hx. apply H3. rewrite Hp. unfold conns in Hx. cbn in Hx. apply elem_of_app in Hx as [Hx | Hx]; apply elem_of_app; [by left | right; by right].
      * intros Hf. destruct (H4 Hf) as [Ht Hl]. lia.
    + intros Hf. destruct (H4 Hf) as [Ht Hl]. lia.
Qed.

Lemma resize_ok num held p n : pool_conns false num held p -> pool_conns false num held (resize n p).
Proof.
  intros [H1 H2 H3 H4]. destruct (shrink_suffix (length (m_busy p)) n (m_free p)) as [d Ed]. unfold conns in *. rewrite Ed, fmap_app in H2, H3. split; cbn; try done.
  - unfold conns. cbn. apply NoDup_app in H2 as (N1 & N2 & N3). apply NoDup_app in N3 as (_ & _ & N3). apply NoDup_app. split_and!; [done | | done]. intros x Hx Hx'. apply (N2 x Hx). apply elem_of_app. by right.
  - intros c Hc. apply H3. unfold conns in Hc. cbn in Hc. rewrite !elem_of_app in *. tauto.
Qed.

Lemma destroy_ok fixed num fiber ready p w : pool_conns fixed num (w_held w) p -> m_waiters p = [] -> ready = [] ->
  exists through p', destroy fiber p = (through, p') /\ pool_ok fixed num (mkWorld p' ready (w_held w) true through).
Proof.
  intros [H1 H2 H3 H4] Hw ->. unfold destroy. case_bool_decide as Hb; eexists _, _; (split; [reflexivity |]); split; cbn; try done.
  - intros _. rewrite Hw. split_and!; try done. cbn. lia.
  - intros _. rewrite Hw. cbn. split_and!; [constructor; [by intros [] | done] | done | done | lia].
Qed.

(** Every step returns and keeps the invariant. *)
Lemma perform_pool_ok fixed num act w : pool_ok fixed num w -> enabled fixed act w -> exists w', perform act w = Ok w' /\ pool_ok fixed num w'.
Proof.
  intros W E. pose proof (pool_ok_conns _ _ _ W) as C. destruct act as [fiber creates h now | [fiber | fiber] h now | c now | n | fiber]; cbn [enabled] in E; unfold perform.
  - destruct E as [Ed Hu]. destruct (po_getters _ _ _ W Ed) as (G1 & G2 & G3). unfold getConnection.
    destruct (bool_decide (m_free (w_pool w) = []) && (length (m_busy (w_pool w)) <? m_total (w_pool w)) && creates) eqn:Ec.
    + apply andb_true_iff in Ec as [[Ef%bool_decide_eq_true Hb%Nat.ltb_lt]%andb_true_iff _]. destruct (create_ok fixed num (w_held w) (w_pool w) now C Ef Hb) as [-> C'].
      destruct (get_loop_ok false num fiber h now _ (w_ready w) w C' Ed) as (r & p' & -> & Hok); try done. by eexists.
    + destruct (get_loop_ok fixed num fiber h now _ (w_ready w) w C Ed) as (r & p' & -> & Hok); try done; [| by eexists]. intros Hf Hn. specialize (G3 Hf Hn). lia.
  - destruct E as [Hx Hu]. destruct (w_destroying w) eqn:Ed; [destruct (po_destroyer _ _ _ W Ed) as (_ & G2 & _); rewrite Forall_forall in G2; by destruct (G2 _ Hx) |]. destruct (po_getters _ _ _ W Ed) as (G1 & G2 & G3).
    destruct (erase_one_some _ _ Hx) as (a & b & Er & ->). rewrite Er in G2, G3. apply Forall_app in G2 as [G2 G2']. apply Forall_cons in G2' as [_ G2'].
    destruct (get_loop_ok fixed num fiber h now _ (a ++ b) w C Ed) as (r & p' & -> & Hok); try done; [by apply Forall_app | | by eexists]. intros Hf Hn. specialize (G3 Hf Hn). rewrite length_app in *. cbn in G3. lia.
  - destruct E as [Hx _]. destruct (w_destroying w) eqn:Ed; [| destruct (po_getters _ _ _ W Ed) as (_ & G2 & _); rewrite Forall_forall in G2; by destruct (G2 _ Hx)]. destruct (po_destroyer _ _ _ W Ed) as (_ & _ & _ & G4).
    destruct (erase_one_some _ _ Hx) as (a & b & Er & ->). rewrite Er, length_app in G4. cbn in G4. destruct a, b; cbn in G4; try lia. destruct (m_waiters (w_pool w)) eqn:Ew; [| cbn in G4; lia].
    destruct (destroy_ok fixed num fiber [] (w_pool w) w C Ew eq_refl) as (through & p' & -> & Hok). by eexists.
  - destruct (release_ok fixed num (w_held w) (w_pool w) c now C E) as (woken & p' & -> & [C1 C2 C3 C4] & Hw & Hl & _). eexists. split; [reflexivity |]. split; cbn [w_pool w_held w_destroying w_ready]; try done.
    + intros Ed. destruct (po_getters _ _ _ W Ed) as (G1 & G2 & G3). rewrite Hw in G1, G3. apply Forall_app in G1 as [G1 G1']. split_and!; [done | by apply Forall_app |]. intros Hf Hn. destruct (Hl Hf) as [L1 L2].
      rewrite Hw, length_app in L2. assert (Hnn : woken ++ m_waiters p' <> []) by (by intros [_ ?]%app_eq_nil). specialize (G3 Hf Hnn). rewrite L1, length_app, L2. destruct (m_waiters p'); [done |]. cbn [length]. lia.
    + intros Ed. destruct (po_destroyer _ _ _ W Ed) as (G1 & G2 & G3 & G4). rewrite Hw, length_app in G4. rewrite Hw in G1. apply Forall_app in G1 as [G1 G1']. split_and!; [done | by apply Forall_app | | rewrite length_app; lia].
      intros Hf Hn. destruct (Hl Hf) as [_ L2]. rewrite Hw, length_app in L2. destruct (m_waiters p'); [done |]. cbn [length] in *. lia.
  - subst fixed. eexists. split; [reflexivity |]. apply (resize_ok _ _ _ n) in C as [C1 C2 C3 C4]. split; cbn [w_pool w_held w_destroying w_ready]; try done.
    + intros Ed. destruct (po_getters _ _ _ W Ed) as (G1 & G2 & G3). by split_and!.
    + intros Ed. destruct (po_destroyer _ _ _ W Ed) as (G1 & G2 & G3 & G4). by split_and!.
  - destruct E as (Ed & Ew & Er). destruct (destroy_ok fixed num fiber (w_ready w) (w_pool w) w C Ew Er) as (through & p' & -> & Hok). by eexists.
Qed.

Lemma pool_reachable_ok fixed num idle start w : reachable fixed num idle start w -> pool_ok fixed num w.
Proof.
  induction 1 as [| w w' act Hw IH E Hp]; [apply new_ok |]. destruct (perform_pool_ok fixed num act w IH E) as (w'' & Hw'' & W). rewrite Hp in Hw''. by injection Hw'' as ->.
Qed.

(** ** The theorems *)

(** A connection of the pool has one owner: whatever fibers take, give back and wait for connections, while connecting fails and the pool is resized, in any order, no assertion fails, no connection is handed out
    twice at a time, none that is handed out is still free, and giving one back always finds it among the busy ones. *)
Theorem pg_pool_exclusive fixed num idle start w : reachable fixed num idle start w ->
  NoDup (w_held w) /\ (forall c, c ∈ w_held w -> c ∉ (fst <$> m_free (w_pool w))) /\
  forall act, enabled fixed act w -> exists w', perform act w = Ok w' /\ reachable fixed num idle start w'.
Proof.
  intros Hw. pose proof (pool_reachable_ok _ _ _ _ _ Hw) as W. pose proof (po_nodup _ _ _ W) as N. unfold conns in N. rewrite <-(po_held _ _ _ W) in N. apply NoDup_app in N as (N1 & N2 & _). split_and!; [done | done |].
  intros act E. destruct (perform_pool_ok fixed num act w W E) as (w' & Hp & _). exists w'. split; [done |]. by eapply reachable_step.
Qed.

(** C32 -- Nobody waits in vain for a connection of a pool that is not resized and whose connections can be used: while a call of [getConnection] waits, somebody who was woken is about to run or all connections are
    handed out, and then giving any of them back wakes the one who has waited longest.  The destructor waits only while a connection is handed out, and giving one back wakes it. *)
Theorem pg_pool_no_lost_wakeup num idle start w x rest : 1 <= num -> reachable true num idle start w -> m_waiters (w_pool w) = x :: rest ->
  w_ready w <> [] \/ (w_held w <> [] /\ (getter x -> length (w_held w) = num) /\ forall c now, c ∈ w_held w -> exists w', perform (Release c now) w = Ok w' /\ x ∈ w_ready w').
Proof.
  intros Hnum Hw Hx. pose proof (pool_reachable_ok _ _ _ _ _ Hw) as W. pose proof (pool_ok_conns _ _ _ W) as C. destruct (w_ready w) as [| y ready] eqn:Er; [right | by left].
  assert (Hne : m_waiters (w_pool w) <> []) by by rewrite Hx. destruct (po_total _ _ _ W eq_refl) as [_ Hl].
  assert (Hheld : w_held w <> [] /\ (getter x -> length (w_held w) = num)).
  { rewrite (po_held _ _ _ W). destruct (w_destroying w) eqn:Ed.
    - destruct (po_destroyer _ _ _ W Ed) as (G1 & _ & G3 & _). split; [by apply G3 |]. rewrite Hx in G1. apply Forall_cons in G1 as [G1 _]. tauto.
    - destruct (po_getters _ _ _ W Ed) as (_ & _ & G3). specialize (G3 eq_refl Hne). rewrite Er in G3. cbn in G3. unfold conns in Hl. rewrite length_app, length_fmap in Hl. split; [intros E; rewrite E in Hl; cbn in Hl; lia | lia]. }
  destruct Hheld as [H1 H2]. split_and!; [done | done |]. intros c now Hc. destruct (release_ok true num (w_held w) (w_pool w) c now C Hc) as (woken & p' & Hp & _ & Hws & Hl' & _). unfold perform. rewrite Hp. eexists. split; [reflexivity |].
  cbn [w_ready]. rewrite Er. destruct (Hl' eq_refl) as [_ L2]. rewrite Hx in L2, Hws. destruct woken as [| z woken]; [done |]. injection Hws as -> _. apply elem_of_app. right. by left.
Qed.

(** ** Runs *)

Fixpoint run_pool (l : list action) (w : world) : result world := match l with [] => Ok w | act :: l => w' ← perform act w; run_pool l w' end.
Definition gets (fiber : nat) : action := GetConnection fiber true healthy 0.

(** One fiber has the connection and two wait. *)
Definition two_wait : world := match run_pool [gets 1; gets 2; gets 3] (world_new 1 0 0) with Ok w => w | Err _ => world_new 1 0 0 end.

Lemma two_wait_reachable : reachable true 1 0 0 two_wait.
Proof.
  assert (Hstep : forall fiber w, reachable true 1 0 0 w -> w_destroying w = false -> match perform (gets fiber) w with Ok w' => reachable true 1 0 0 w' | Err _ => True end).
  { intros fiber w Hw Hd. destruct (perform (gets fiber) w) as [w' |] eqn:E; [| done]. eapply reachable_step; [exact Hw | | exact E]. by repeat split. }
  pose proof (Hstep 1 _ (reachable_new _ _ _ _) eq_refl) as H1. vm_compute in H1. pose proof (Hstep 2 _ H1 eq_refl) as H2. vm_compute in H2. exact (Hstep 3 _ H2 eq_refl).
Qed.

Lemma pg_pool_exclusive_witness : NoDup (w_held two_wait).
Proof. apply (pg_pool_exclusive true 1 0 0 two_wait two_wait_reachable). Defined.

Lemma pg_pool_no_lost_wakeup_witness : w_ready two_wait <> [] \/ w_held two_wait <> [].
Proof.
  destruct (pg_pool_no_lost_wakeup 1 0 0 two_wait (Getter 2) [Getter 3]) as [H | [H _]]; [lia | exact two_wait_reachable | vm_compute; reflexivity | by left | by right].
Defined.

(** ** Where the code goes wrong *)

(** The fiber that was woken cannot connect: the connection is free and yet the other one goes on waiting. *)
Lemma failed_connect_loses_wakeup : exists w, run_pool [gets 1; gets 2; gets 3; Release 0 5; Resume (Getter 2) (mkHealth CONNECTION_BAD None true) 6] (world_new 1 0 0) = Ok w /\
  m_free (w_pool w) = [(0, 5%Z)] /\ m_waiters (w_pool w) = [Getter 3] /\ w_ready w = [] /\ w_held w = [].
Proof. eexists. split; [vm_compute; reflexivity |]. vm_compute. done. Qed.

(** A pool that grows does not wake those that wait. *)
Lemma grown_pool_sleeps : exists w, run_pool [gets 1; gets 2; Resize 2] (world_new 1 0 0) = Ok w /\ m_waiters (w_pool w) = [Getter 2] /\ w_ready w = [] /\ length (m_busy (w_pool w)) < m_total (w_pool w).
Proof. eexists. split; [vm_compute; reflexivity |]. vm_compute. split_and!; [done | done | lia]. Qed.

(** After the pool was made smaller, giving the last connection back does not wake the destructor. *)
Lemma destructor_hangs : exists w, run_pool [gets 1; Resize 0; Destroy 9; Release 0 5] (world_new 1 0 0) = Ok w /\ m_waiters (w_pool w) = [Destroyer 9] /\ w_ready w = [] /\ m_busy (w_pool w) = [] /\ w_through w = false.
Proof. eexists. split; [vm_compute; reflexivity |]. vm_compute. done. Qed.
