(* ===== verification/Timeout.v ===== *)
(** [streams/timeout.h] and [streams/timeout.cpp]: a filter that cancels reads and writes that take too long, and both when the stream is idle.  A timer that runs may expire at any time, which
    schedules its callback, and the callback runs at any time after that, also when the read or write it was started for is over.  A read or write ends the critical section it begins in, and its end is another one; a callback, which
    does not take the mutex, is taken to run between critical sections. *)

From Stdlib Require Import String.
From stdpp Require Import relations numbers list_numbers list.
From S2P Require Import Prelude.

(** ** [TimeoutHandler] *)

Inductive STATUS := NONE | TIMING | TIMEDOUT.
#[global] Instance STATUS_eq_dec : EqDecision STATUS.
Proof. solve_decision. Defined.

(** The timer of a handler: it runs, or it has expired, after which refreshing, resetting or cancelling it does nothing. *)
Inductive timer_state := Running | Expired.
#[global] Instance timer_state_eq_dec : EqDecision timer_state.
Proof. solve_decision. Defined.

Record TimeoutHandler := mkHandler { m_timeout : Z; m_lastTimedOut : STATUS; m_permaTimedOut : STATUS; m_autoStart : bool; m_timer : option timer_state }.
Definition TimeoutHandler_new (autoStart : bool) : TimeoutHandler := mkHandler npos NONE NONE autoStart None.

Definition isTimeoutSet (h : TimeoutHandler) : bool := negb (m_timeout h =? npos).

Definition TimedOutException : exn := other_exn 2.

(** With whether it had timed out. *)
Definition cancelTimer (h : TimeoutHandler) : bool * TimeoutHandler :=
  (bool_decide (m_lastTimedOut h = TIMEDOUT), mkHandler (m_timeout h) NONE (m_permaTimedOut h) (m_autoStart h) None).

Definition refreshTimer (h : TimeoutHandler) : bool * TimeoutHandler :=
  (bool_decide (m_lastTimedOut h = TIMEDOUT), mkHandler (m_timeout h) TIMING (m_permaTimedOut h) (m_autoStart h) (m_timer h)).

Definition startTimer (h : TimeoutHandler) : result TimeoutHandler :=
  if bool_decide (m_permaTimedOut h = TIMEDOUT) then throw TimedOutException
  else
    assert: bool_decide (m_timer h = None) ;;
    Ok (mkHandler (m_timeout h) TIMING (m_permaTimedOut h) (m_autoStart h) (if isTimeoutSet h then Some Running else None)).

Definition setTimeout (timeout : Z) (h : TimeoutHandler) : TimeoutHandler :=
  let h := mkHandler timeout (m_lastTimedOut h) (m_permaTimedOut h) (m_autoStart h) (m_timer h) in
  match m_timer h with
  | Some _ => if negb (isTimeoutSet h) then snd (cancelTimer h) else h
  | None =>
      if isTimeoutSet h && (bool_decide (m_lastTimedOut h = TIMING) || m_autoStart h)
      then mkHandler timeout (m_lastTimedOut h) (m_permaTimedOut h) (m_autoStart h) (Some Running) else h
  end.

(** The callback, with whether the function of the handler is called. *)
Definition onTimeout (h : TimeoutHandler) : bool * TimeoutHandler :=
  if bool_decide (m_lastTimedOut h = TIMING) then (true, mkHandler (m_timeout h) TIMEDOUT TIMEDOUT (m_autoStart h) (m_timer h))
  else (false, h).

(** The time of the timer is up. *)
Definition expire (h : TimeoutHandler) : TimeoutHandler := mkHandler (m_timeout h) (m_lastTimedOut h) (m_permaTimedOut h) (m_autoStart h) (Some Expired).

(** ** [TimeoutStream] *)

Record TimeoutStream := mkTimeout { m_reader : TimeoutHandler; m_writer : TimeoutHandler; m_idler : TimeoutHandler }.
Definition TimeoutStream_new : TimeoutStream := mkTimeout (TimeoutHandler_new false) (TimeoutHandler_new false) (TimeoutHandler_new true).

Definition set_reader (h : TimeoutHandler) (s : TimeoutStream) : TimeoutStream := mkTimeout h (m_writer s) (m_idler s).
Definition set_writer (h : TimeoutHandler) (s : TimeoutStream) : TimeoutStream := mkTimeout (m_reader s) h (m_idler s).
Definition set_idler (h : TimeoutHandler) (s : TimeoutStream) : TimeoutStream := mkTimeout (m_reader s) (m_writer s) h.

Definition readTimeout (t : Z) (s : TimeoutStream) : TimeoutStream := set_reader (setTimeout t (m_reader s)) s.
Definition writeTimeout (t : Z) (s : TimeoutStream) : TimeoutStream := set_writer (setTimeout t (m_writer s)) s.
Definition idleTimeout (t : Z) (s : TimeoutStream) : TimeoutStream := set_idler (setTimeout t (m_idler s)) s.

(** What the read or write of the parent comes to, and what comes out of that of the filter. *)
Inductive parent_end := Returned (n : Z) | Aborted | Raised (e : exn).
Inductive stream_end := Returns (n : Z) | ThrowsTimedOut | ThrowsAborted | ThrowsOther (e : exn).

(** [begin] and [finish] for the handler of one direction and that of idleness. *)
Definition io_begin (h idler : TimeoutHandler) : result (TimeoutHandler * TimeoutHandler) := h ← startTimer h; Ok (h, snd (refreshTimer idler)).
Definition io_end (e : parent_end) (h idler : TimeoutHandler) : stream_end * TimeoutHandler * TimeoutHandler :=
  match e with
  | Returned n => (Returns n, snd (cancelTimer h), snd (refreshTimer idler))
  | Aborted =>
      let '(timedOut, h) := cancelTimer h in
      if timedOut then (ThrowsTimedOut, h, idler)
      else let '(timedOut, idler) := cancelTimer idler in (if timedOut then ThrowsTimedOut else ThrowsAborted, h, idler)
  | Raised x => (ThrowsOther x, snd (cancelTimer h), snd (cancelTimer idler))
  end.

Definition read_begin (s : TimeoutStream) : result TimeoutStream := '(h, i) ← io_begin (m_reader s) (m_idler s); Ok (set_idler i (set_reader h s)).
Definition read_end (e : parent_end) (s : TimeoutStream) : stream_end * TimeoutStream := let '(r, h, i) := io_end e (m_reader s) (m_idler s) in (r, set_idler i (set_reader h s)).
Definition write_begin (s : TimeoutStream) : result TimeoutStream := '(h, i) ← io_begin (m_writer s) (m_idler s); Ok (set_idler i (set_writer h s)).
Definition write_end (e : parent_end) (s : TimeoutStream) : stream_end * TimeoutStream := let '(r, h, i) := io_end e (m_writer s) (m_idler s) in (r, set_idler i (set_writer h s)).

(** ** Interleavings: a fiber that reads, one that writes, and the timers *)

Inductive direction := Reading | Writing.

(** [w_io]: whether a read and a write are under way; [w_late] and [w_lateIdle]: how many callbacks are scheduled and have not run; [w_cancels] and [w_idleCancels]: how often the timer of a direction, and that of idleness, had calls
    cancelled in the parent; [w_ends]: what the calls came to, [None] for one that threw at once. *)
Record world := mkWorld {
  w_stream : TimeoutStream;
  w_io : direction -> bool;
  w_late : direction -> nat;
  w_lateIdle : nat;
  w_cancels : direction -> nat;
  w_idleCancels : nat;
  w_ends : list (direction * option stream_end);
}.
Definition world_new : world := mkWorld TimeoutStream_new (fun _ => false) (fun _ => 0%nat) 0 (fun _ => 0%nat) 0 [].

Definition with_stream (s : TimeoutStream) (w : world) : world := mkWorld s (w_io w) (w_late w) (w_lateIdle w) (w_cancels w) (w_idleCancels w) (w_ends w).
Definition with_io (io : direction -> bool) (w : world) : world := mkWorld (w_stream w) io (w_late w) (w_lateIdle w) (w_cancels w) (w_idleCancels w) (w_ends w).
Definition with_late (late : direction -> nat) (w : world) : world := mkWorld (w_stream w) (w_io w) late (w_lateIdle w) (w_cancels w) (w_idleCancels w) (w_ends w).
Definition with_lateIdle (n : nat) (w : world) : world := mkWorld (w_stream w) (w_io w) (w_late w) n (w_cancels w) (w_idleCancels w) (w_ends w).
Definition with_cancels (c : direction -> nat) (w : world) : world := mkWorld (w_stream w) (w_io w) (w_late w) (w_lateIdle w) c (w_idleCancels w) (w_ends w).
Definition with_idleCancels (n : nat) (w : world) : world := mkWorld (w_stream w) (w_io w) (w_late w) (w_lateIdle w) (w_cancels w) n (w_ends w).
Definition ended (d : direction) (r : option stream_end) (w : world) : world := mkWorld (w_stream w) (w_io w) (w_late w) (w_lateIdle w) (w_cancels w) (w_idleCancels w) (w_ends w ++ [(d, r)]).

Definition handler (d : direction) (s : TimeoutStream) : TimeoutHandler := match d with Reading => m_reader s | Writing => m_writer s end.
Definition set_handler (d : direction) (h : TimeoutHandler) (s : TimeoutStream) : TimeoutStream := match d with Reading => set_reader h s | Writing => set_writer h s end.

#[global] Instance direction_eq_dec : EqDecision direction.
Proof. solve_decision. Defined.

Definition put {A} (d : direction) (x : A) (f : direction -> A) : direction -> A := fun d' => if bool_decide (d = d') then x else f d'.

Inductive action :=
| SetTimeout (d : direction) (t : Z) | SetIdle (t : Z) | Begin (d : direction) | End (d : direction) (e : parent_end)
| Expire (d : direction) | Callback (d : direction) | ExpireIdle | CallbackIdle.

Definition perform (act : action) (w : world) : result world :=
  let s := w_stream w in
  match act with
  | SetTimeout Reading t => Ok (with_stream (readTimeout t s) w)
  | SetTimeout Writing t => Ok (with_stream (writeTimeout t s) w)
  | SetIdle t => Ok (with_stream (idleTimeout t s) w)
  | Begin d =>
      match (match d with Reading => read_begin s | Writing => write_begin s end) with
      | Ok s => Ok (with_io (put d true (w_io w)) (with_stream s w))
      | Err (Thrown _) => Ok (ended d None w)
      | Err f => Err f
      end
  | End d e =>
      let '(r, s) := match d with Reading => read_end e s | Writing => write_end e s end in
      Ok (ended d (Some r) (with_io (put d false (w_io w)) (with_stream s w)))
  | Expire d => Ok (with_late (put d (S (w_late w d)) (w_late w)) (with_stream (set_handler d (expire (handler d s)) s) w))
  | Callback d =>
      let '(calls, h) := onTimeout (handler d s) in
      Ok (with_cancels (if calls then put d (S (w_cancels w d)) (w_cancels w) else w_cancels w)
           (with_late (put d (pred (w_late w d)) (w_late w)) (with_stream (set_handler d h s) w)))
  | ExpireIdle => Ok (with_lateIdle (S (w_lateIdle w)) (with_stream (set_idler (expire (m_idler s)) s) w))
  | CallbackIdle =>
      let '(calls, h) := onTimeout (m_idler s) in
      Ok (with_idleCancels (if calls then S (w_idleCancels w) else w_idleCancels w) (with_lateIdle (pred (w_lateIdle w)) (with_stream (set_idler h s) w)))
  end.

(** One read and one write at a time; a timer expires while it runs, and a callback runs once it is scheduled. *)
Definition enabled (act : action) (w : world) : Prop :=
  match act with
  | SetTimeout _ _ | SetIdle _ => True
  | Begin d => w_io w d = false
  | End d _ => w_io w d = true
  | Expire d => m_timer (handler d (w_stream w)) = Some Running
  | Callback d => (0 < w_late w d)%nat
  | ExpireIdle => m_timer (m_idler (w_stream w)) = Some Running
  | CallbackIdle => (0 < w_lateIdle w)%nat
  end.

Inductive reachable : world -> Prop :=
| reachable_new : reachable world_new
| reachable_step w w' act : reachable w -> enabled act w -> perform act w = Ok w' -> reachable w'.

(** ** The invariant *)

(** A handler of a direction: outside of a read or write there is no timer and nothing is timed; the call whose time is up has been cancelled or its callback is on its way; and it had one call cancelled exactly when it has
    timed out for good. *)
Record handler_ok (io : bool) (late cancels : nat) (h : TimeoutHandler) : Prop := {
  ho_auto : m_autoStart h = false;
  ho_idle : io = false -> m_timer h = None /\ m_lastTimedOut h = NONE;
  ho_running : m_timer h = Some Running -> m_lastTimedOut h <> NONE;
  ho_expired : m_timer h = Some Expired -> m_lastTimedOut h = TIMEDOUT \/ (m_lastTimedOut h = TIMING /\ (0 < late)%nat);
  ho_timedout : m_lastTimedOut h = TIMEDOUT -> m_permaTimedOut h = TIMEDOUT;
  ho_timing : m_lastTimedOut h = TIMING -> m_permaTimedOut h <> TIMEDOUT;
  ho_cancels : cancels = if bool_decide (m_permaTimedOut h = TIMEDOUT) then 1%nat else 0%nat;
}.
Definition world_ok (w : world) : Prop := forall d, handler_ok (w_io w d) (w_late w d) (w_cancels w d) (handler d (w_stream w)).

(** The fields of the invariant by cases. *)
Ltac handler_fields := split; cbn [m_timer m_lastTimedOut m_permaTimedOut m_autoStart snd] in *; try done; try congruence; auto; try (match goal with H : ?a = false -> _ |- ?a = false -> _ => let E := fresh in intros E; destruct (H E); congruence end).

Lemma setTimeout_ok io n c t h : handler_ok io n c h -> handler_ok io n c (setTimeout t h) /\ m_permaTimedOut (setTimeout t h) = m_permaTimedOut h /\
  (t <> npos -> m_lastTimedOut (setTimeout t h) = m_lastTimedOut h).
Proof.
  intros [H1 H2 H3 H4 H5 H6 H7]. unfold setTimeout, cancelTimer. cbn [m_timer m_autoStart m_lastTimedOut m_permaTimedOut]. rewrite H1, orb_false_r. destruct (m_timer h) as [t' |] eqn:Et.
  - unfold isTimeoutSet. cbn [m_timeout]. rewrite negb_involutive. destruct (Z.eqb_spec t npos); cbn [snd]; (split_and!; [handler_fields | done | done]).
  - destruct (isTimeoutSet _); cbn [andb]; [destruct (bool_decide_reflect (m_lastTimedOut h = TIMING)) as [El | El] |]; (split_and!; [handler_fields | done | done]).
Qed.

Lemma begin_ok n c h : handler_ok false n c h ->
  match startTimer h with Ok h' => handler_ok true n c h' /\ m_permaTimedOut h <> TIMEDOUT /\ m_permaTimedOut h' = m_permaTimedOut h | Err f => f = Thrown TimedOutException /\ m_permaTimedOut h = TIMEDOUT end.
Proof.
  intros [H1 H2 H3 H4 H5 H6 H7]. destruct (H2 eq_refl) as [Ht Hl]. unfold startTimer. case_bool_decide as Ep; [done |]. rewrite (bool_decide_true (m_timer h = None)) by done. cbn [ASSERT]. step. split_and!; [| done | done].
  destruct (isTimeoutSet h); split; cbn; try done; try (by rewrite (bool_decide_false (m_permaTimedOut h = TIMEDOUT))).
Qed.

Lemma cancelTimer_ok io n c h : handler_ok io n c h -> handler_ok false n c (snd (cancelTimer h)) /\ m_permaTimedOut (snd (cancelTimer h)) = m_permaTimedOut h.
Proof. intros [H1 H2 H3 H4 H5 H6 H7]. unfold cancelTimer. split; [handler_fields | done]. Qed.

Lemma handler_expire_ok io n c h : handler_ok io n c h -> m_timer h = Some Running -> handler_ok io (S n) c (expire h).
Proof.
  intros [H1 H2 H3 H4 H5 H6 H7] Ht. assert (io = true) as -> by (destruct io; [done |]; destruct (H2 eq_refl); congruence). specialize (H3 Ht). split; cbn; try done.
  intros _. destruct (m_lastTimedOut h); [done | right; split; [done | lia] | by left].
Qed.

(** A callback cancels the call that is under way, or does nothing. *)
Lemma callback_ok io n c h : handler_ok io n c h -> exists calls h', onTimeout h = (calls, h') /\ handler_ok io (pred n) (if calls then S c else c) h' /\ (m_permaTimedOut h = TIMEDOUT -> m_permaTimedOut h' = TIMEDOUT) /\
  (m_lastTimedOut h = TIMING -> calls = true /\ io = true /\ m_permaTimedOut h' = TIMEDOUT /\ m_lastTimedOut h' = TIMEDOUT) /\ (m_lastTimedOut h = TIMEDOUT -> h' = h).
Proof.
  intros [H1 H2 H3 H4 H5 H6 H7]. unfold onTimeout. destruct (bool_decide_reflect (m_lastTimedOut h = TIMING)) as [Hl | Hl].
  - assert (io = true) as -> by (destruct io; [done |]; destruct (H2 eq_refl); congruence). eexists _, _. split; [reflexivity |]. specialize (H6 Hl). rewrite bool_decide_false in H7 by done. subst c.
    split_and!; [split; cbn; try done; by left | done | done | intros; congruence].
  - eexists _, _. split; [reflexivity |]. split_and!; try done. split; try done. intros Ht. destruct (H4 Ht) as [|[? _]]; [by left | done].
Qed.

Lemma io_end_ok e n c h i r h' i' : handler_ok true n c h -> io_end e h i = (r, h', i') ->
  handler_ok false n c h' /\ m_permaTimedOut h' = m_permaTimedOut h /\ (e = Aborted -> m_lastTimedOut h = TIMEDOUT -> r = ThrowsTimedOut).
Proof.
  intros Hh. pose proof (cancelTimer_ok true n c h Hh) as [C1 C2]. unfold io_end. destruct e; cbn [cancelTimer] in *.
  - intros [= <- <- <-]. done.
  - unfold cancelTimer in *. cbn [snd] in *. case_bool_decide; intros [= <- <- <-]; done.
  - intros [= <- <- <-]. done.
Qed.

Lemma put_eq {A} d (x : A) f : put d x f d = x.
Proof. unfold put. by rewrite bool_decide_true. Qed.
(** Who has timed out stays so. *)
Definition perma_kept (w w' : world) : Prop := forall d, m_permaTimedOut (handler d (w_stream w)) = TIMEDOUT -> m_permaTimedOut (handler d (w_stream w')) = TIMEDOUT.

(** Nothing ends the call of [d] that has timed out, and its timeout is not switched off. *)
Definition quiet (d : direction) (act : action) : Prop := match act with End d' _ => d' <> d | SetTimeout d' t => d' = d -> t <> npos | _ => True end.

Lemma perform_direction act w : world_ok w -> enabled act w ->
  exists w', perform act w = Ok w' /\ world_ok w' /\ perma_kept w w' /\
    forall d, quiet d act -> w_io w d = true -> m_lastTimedOut (handler d (w_stream w)) = TIMEDOUT -> w_io w' d = true /\ m_lastTimedOut (handler d (w_stream w')) = TIMEDOUT.
Proof.
  intros W E. destruct act as [d t | t | d | d e | d | d | |]; cbn [enabled] in E.
  - pose proof (setTimeout_ok _ _ _ t _ (W d)) as (Ho & Hp & Hl). exists (with_stream (set_handler d (setTimeout t (handler d (w_stream w))) (w_stream w)) w). split; [by destruct d |].
    split_and!; intros d'; specialize (W d'); destruct d, d'; cbn in *; try done; try (by rewrite Hp); intros Hq Hio Ht; (split; [done |]); rewrite Hl; auto.
  - eexists. split; [reflexivity |]. split_and!; intros d'; specialize (W d'); by destruct d'.
  - pose proof (W d) as Wd. rewrite E in Wd. pose proof (begin_ok _ _ _ Wd) as Hb. destruct d; cbn [handler] in Hb; cbn [perform]; unfold read_begin, write_begin, io_begin.
    all: destruct (startTimer _) as [h' | f]; [destruct Hb as (Hh & _ & Hp) | destruct Hb as [-> _]]; eexists; (split; [reflexivity |]).
    all: split_and!; intros d'; specialize (W d'); destruct d'; cbn in *; try done; try (by rewrite Hp); congruence.
  - pose proof (W d) as Wd. rewrite E in Wd. destruct (io_end e (handler d (w_stream w)) (m_idler (w_stream w))) as [[r h'] i'] eqn:Ee. destruct (io_end_ok _ _ _ _ _ _ _ _ Wd Ee) as (Hh & Hp & _).
    destruct d; cbn [perform]; unfold read_end, write_end; cbn [handler] in Ee; rewrite Ee; eexists; (split; [reflexivity |]). all: split_and!; intros d'; specialize (W d'); destruct d'; cbn in *; try done; by rewrite Hp.
  - pose proof (handler_expire_ok _ _ _ _ (W d) E) as Hh. eexists. split; [reflexivity |]. split_and!; intros d'; specialize (W d'); destruct d, d'; cbn in *; done.
  - destruct (callback_ok _ _ _ _ (W d)) as (calls & h' & Hf & Hh & Hp & _ & Hl). eexists. split; [cbn [perform]; rewrite Hf; reflexivity |].
    split_and!; intros d'; specialize (W d'); destruct d, d'; cbn in *; try (by destruct calls); auto; intros _ Hio Ht; by rewrite Hl.
  - eexists. split; [reflexivity |]. split_and!; intros d'; specialize (W d'); by destruct d'.
  - cbn [perform]. destruct (onTimeout (m_idler (w_stream w))) as [calls h]. eexists. split; [reflexivity |]. split_and!; intros d'; specialize (W d'); by destruct d'.
Qed.

Lemma timeout_reachable_ok w : reachable w -> world_ok w.
Proof.
  induction 1 as [| w w' act Hw IH E Hp]; [intros []; by split |]. destruct (perform_direction act w IH E) as (w'' & Hw'' & W & _). rewrite Hp in Hw''. by injection Hw'' as ->.
Qed.

(** ** The theorems *)

Definition step_to (w w' : world) : Prop := exists act, enabled act w /\ perform act w = Ok w'.
Definition quiet_step (d : direction) (w w' : world) : Prop := exists act, quiet d act /\ enabled act w /\ perform act w = Ok w'.

Lemma later_ok w w' : rtc step_to w w' -> world_ok w -> world_ok w' /\ perma_kept w w'.
Proof.
  induction 1 as [w | w w' w'' (act & E & Hp) _ IH]; intros W; [by split; [| intros d] |]. destruct (perform_direction act w W E) as (v & Hv & Wv & Hperma & _). rewrite Hp in Hv. injection Hv as <-. destruct (IH Wv) as [W' H']. split; [done |]. intros d Hd. by apply H', Hperma.
Qed.

Lemma handler_quiet_later d w w' : rtc (quiet_step d) w w' -> world_ok w -> w_io w d = true -> m_lastTimedOut (handler d (w_stream w)) = TIMEDOUT ->
  world_ok w' /\ w_io w' d = true /\ m_lastTimedOut (handler d (w_stream w')) = TIMEDOUT.
Proof.
  induction 1 as [w | w w' w'' (act & Hq & E & Hp) _ IH]; intros W Hio Hl; [done |]. destruct (perform_direction act w W E) as (v & Hv & Wv & _ & Hk). rewrite Hp in Hv. injection Hv as <-.
  destruct (Hk d Hq Hio Hl) as [Hio' Hl']. by apply IH.
Qed.

(** C34 -- A read or write that takes too long is cancelled: the timer of a direction runs only while a call in that direction is under way, and a call whose timer has expired has been cancelled, or the callback is scheduled and
    will cancel it.  When a callback finds a call under way that is being timed, that call is cancelled in the parent, an abortion that ends it comes out as a timeout, unless the timeout of that direction is switched off
    in between, and every later call in that direction throws at once, whatever happens in between; so at most one call of a direction is ever cancelled by its timer.  And no assertion fails, however calls, timers, callbacks
    and changes of the timeouts interleave.  The call that a callback finds need not be the one that the timer was started for: see [late_callback]. *)
Theorem timeout_cancels w d : reachable w -> let h := handler d (w_stream w) in
  (forall act, enabled act w -> exists w', perform act w = Ok w' /\ reachable w') /\
  (m_timer h <> None -> w_io w d = true) /\
  (m_timer h = Some Expired -> m_lastTimedOut h = TIMEDOUT \/ (m_lastTimedOut h = TIMING /\ (0 < w_late w d)%nat)) /\
  (w_cancels w d <= 1)%nat /\
  (m_lastTimedOut h = TIMING -> w_io w d = true /\
     exists w', perform (Callback d) w = Ok w' /\ w_cancels w' d = S (w_cancels w d) /\
       (forall w2, rtc (quiet_step d) w' w2 -> exists w3, perform (End d Aborted) w2 = Ok w3 /\ last (w_ends w3) = Some (d, Some ThrowsTimedOut)) /\
       (forall w2, rtc step_to w' w2 -> w_io w2 d = false -> perform (Begin d) w2 = Ok (ended d None w2))).
Proof.
  intros Hw h. pose proof (timeout_reachable_ok w Hw) as W. pose proof (W d) as Wd. fold h in Wd. split_and!.
  - intros act E. destruct (perform_direction act w W E) as (w' & Hp & _). exists w'. split; [done |]. by eapply reachable_step.
  - intros Ht. destruct (w_io w d); [done |]. by destruct (ho_idle _ _ _ _ Wd eq_refl).
  - apply Wd.
  - rewrite (ho_cancels _ _ _ _ Wd). case_bool_decide; lia.
  - intros Hl. destruct (callback_ok _ _ _ _ Wd) as (calls & h' & Hf & Hh & _ & Hc & _). destruct (Hc Hl) as (-> & Hio & Hp & Hl'). split; [done |].
    eexists. split; [cbn [perform]; fold h; rewrite Hf; reflexivity |]. set (w' := with_cancels _ _).
    assert (W' : world_ok w') by (intros d'; specialize (W d'); unfold w'; destruct d, d'; cbn in *; done). assert (Hh' : handler d (w_stream w') = h') by by destruct d.
    split_and!; [cbn; apply put_eq | |].
    + intros w2 Hs. destruct (handler_quiet_later d _ _ Hs W') as (W2 & Hio2 & Hl2); [done | by rewrite Hh' |]. pose proof (W2 d) as W2d. rewrite Hio2 in W2d.
      destruct (io_end Aborted (handler d (w_stream w2)) (m_idler (w_stream w2))) as [[r h2] i2] eqn:Ee. destruct (io_end_ok _ _ _ _ _ _ _ _ W2d Ee) as (_ & _ & Hr). rewrite (Hr eq_refl Hl2) in Ee.
      destruct d; cbn [perform]; unfold read_end, write_end; cbn [handler] in Ee; rewrite Ee; eexists; (split; [reflexivity |]); cbn [w_ends ended with_io with_stream]; by rewrite last_snoc.
    + intros w2 Hs Hoff. destruct (later_ok _ _ Hs W') as [_ H2]. specialize (H2 d). rewrite Hh' in H2. specialize (H2 Hp). destruct d; cbn [perform handler] in *; unfold read_begin, write_begin, io_begin, startTimer; by rewrite bool_decide_true.
Qed.

Fixpoint run_timeout (l : list action) (w : world) : result world := match l with [] => Ok w | act :: l => w' ← perform act w; run_timeout l w' end.

Definition in_read : world := match run_timeout [SetTimeout Reading 100; Begin Reading; Expire Reading] world_new with Ok w => w | Err _ => world_new end.

Lemma in_read_reachable : reachable in_read.
Proof.
  eapply (reachable_step _ _ (Expire Reading)); [eapply (reachable_step _ _ (Begin Reading)); [eapply (reachable_step _ _ (SetTimeout Reading 100)); [apply reachable_new | |] | |] | |]; vm_compute; reflexivity || exact I.
Qed.

(** The time of a read is up: its callback cancels it. *)
Lemma timeout_cancels_witness : exists w', perform (Callback Reading) in_read = Ok w' /\ w_cancels w' Reading = 1%nat.
Proof.
  destruct (timeout_cancels in_read Reading in_read_reachable) as (_ & _ & _ & _ & H). destruct H as (_ & w' & H1 & H2 & _); [vm_compute; reflexivity |]. exists w'. split; [exact H1 | exact H2].
Defined.

(** ** Where the code goes wrong *)

(** A callback that runs when the read it was scheduled for is over cancels the next read, whose own timer is still running. *)
Lemma late_callback : exists w, run_timeout [SetTimeout Reading 100; Begin Reading; Expire Reading; End Reading (Returned 1); Begin Reading; Callback Reading] world_new = Ok w /\
  w_cancels w Reading = 1%nat /\ m_timer (handler Reading (w_stream w)) = Some Running.
Proof. eexists. split; [vm_compute; reflexivity |]. done. Qed.

(** When the timeout is switched off after it has cancelled a read, the abortion of the read comes out as an abortion. *)
Lemma timeout_switched_off : exists w, run_timeout [SetTimeout Reading 100; Begin Reading; Expire Reading; Callback Reading; SetTimeout Reading npos; End Reading Aborted] world_new = Ok w /\
  w_cancels w Reading = 1%nat /\ w_ends w = [(Reading, Some ThrowsAborted)].
Proof. eexists. split; [vm_compute; reflexivity |]. done. Qed.

(** A stream that is idle from the start is not noticed, and its timer never runs again. *)
Lemma idle_from_start : exists w, run_timeout [SetIdle 100; ExpireIdle; CallbackIdle; Begin Reading; End Reading (Returned 1)] world_new = Ok w /\ w_idleCancels w = 0%nat /\ m_timer (m_idler (w_stream w)) = Some Expired.
Proof. eexists. split; [vm_compute; reflexivity |]. done. Qed.

(** After a read has failed there is no timer for idleness any more. *)
Lemma idle_after_error : exists w, run_timeout [SetIdle 100; Begin Reading; End Reading (Raised unexpected_eof); Begin Writing; End Writing (Returned 1)] world_new = Ok w /\ m_timer (m_idler (w_stream w)) = None /\
  m_timeout (m_idler (w_stream w)) = 100.
Proof. eexists. split; [vm_compute; reflexivity |]. done. Qed.
