(* ===== verification/Throttle.v ===== *)
(** [streams/throttle.h] and [streams/throttle.cpp]: a filter that reads and writes no more than so many bits per second.  The throttle, the clock before and after sleeping and what the parent does are arguments. *)

From Stdlib Require Import String.
From stdpp Require Import numbers list_numbers list.
From S2P Require Import Prelude.

Record ThrottleStream := mkThrottle { m_read : Z; m_written : Z; m_readTimestamp : Z; m_writeTimestamp : Z }.
Definition ThrottleStream_new : ThrottleStream := mkThrottle 0 0 0 0.

Definition unthrottled (throttle : Z) : bool := (throttle =? 0) || (throttle =? 2 ^ 32 - 1).

(** How long to sleep after [count] bytes at [timestamp]: [None] when there is no need to. *)
Definition sleep_time (throttle now count timestamp : Z) : option Z :=
  if count =? 0 then None
  else
    let minTime := u64 (1000000 * u64 (count * 8)) / throttle in
    let actualTime := u64 (now - timestamp) in
    if actualTime <? minTime then Some (Z.min 100000 (u64 (minTime - actualTime))) else None.

(** A tenth of a second's worth of data, at least one byte. *)
Definition throttle_len (throttle len : Z) : Z := let len := Z.min (throttle / 8 / 10) len in if len =? 0 then 1 else len.

(** What a call does: how long it sleeps, how much it asks the parent for, and what that returned or threw. *)
Record call := mkCall { c_sleep : option Z; c_asked : Z; c_answer : result Z }.

(** [now]: the clock before, [later]: after sleeping. *)
Definition ThrottleStream_read (throttle now later : Z) (parent : Z -> result Z) (len : Z) (s : ThrottleStream) : result (call * ThrottleStream) :=
  assert: negb (len =? 0) ;;
  if unthrottled throttle then Ok (mkCall None len (parent len), mkThrottle (if 0 <? m_read s then 0 else m_read s) (m_written s) (m_readTimestamp s) (m_writeTimestamp s))
  else
    let sleep := sleep_time throttle now (m_read s) (m_readTimestamp s) in
    let now := match sleep with Some _ => later | None => now end in
    let len := throttle_len throttle len in
    let answer := parent len in
    Ok (mkCall sleep len answer, mkThrottle (match answer with Ok n => n | Err _ => m_read s end) (m_written s) now (m_writeTimestamp s)).

Definition ThrottleStream_write (throttle now later : Z) (parent : Z -> result Z) (len : Z) (s : ThrottleStream) : result (call * ThrottleStream) :=
  assert: negb (len =? 0) ;;
  if unthrottled throttle then Ok (mkCall None len (parent len), mkThrottle (m_read s) (if 0 <? m_written s then 0 else m_written s) (m_readTimestamp s) now)
  else
    let sleep := sleep_time throttle now (m_written s) (m_writeTimestamp s) in
    let now := match sleep with Some _ => later | None => now end in
    let len := throttle_len throttle len in
    let answer := parent len in
    Ok (mkCall sleep len answer, mkThrottle (m_read s) (match answer with Ok n => n | Err _ => m_written s end) (m_readTimestamp s) now).

(** ** The rate *)

Section Rate.
Context (throttle : Z) (Ht : 80 <= throttle < 2 ^ 32 - 1).

Lemma throttle_len_bounds len : 0 < len -> 1 <= throttle_len throttle len <= throttle / 80 /\ throttle_len throttle len <= len.
Proof using Ht.
  intros Hl. unfold throttle_len. rewrite Z.div_div by lia. change (8 * 10) with 80. assert (1 <= throttle / 80) by (apply Z.div_le_lower_bound; lia). destruct (Z.eqb_spec (Z.min (throttle / 80) len) 0); lia.
Qed.

(** A tenth of a second is enough for what was asked for, so that the limit of the sleep does not matter. *)
Lemma min_time count : 0 <= count <= throttle / 80 -> u64 (1000000 * u64 (count * 8)) / throttle = 8000000 * count / throttle /\ 8000000 * count / throttle <= 100000 /\ 0 <= 8000000 * count / throttle.
Proof using Ht.
  intros Hc. assert (throttle / 80 <= 2 ^ 32 / 80) by (apply Z.div_le_mono; lia). assert (80 * (throttle / 80) <= throttle) by (apply Z.mul_div_le; lia).
  rewrite (u64_small (count * 8)) by lia. rewrite u64_small by lia. replace (1000000 * (count * 8)) with (8000000 * count) by lia. split_and!; [done | | apply Z.div_pos; lia].
  apply Z.div_le_upper_bound; lia.
Qed.

(** Sleeping takes as long as it is told to. *)
Definition slept (now later : Z) (sleep : option Z) : Prop := match sleep with Some t => now + t <= later | None => True end.

Lemma sleep_enough now later count timestamp : 0 <= count <= throttle / 80 -> 0 <= timestamp <= now -> now < 2 ^ 64 -> slept now later (sleep_time throttle now count timestamp) ->
  timestamp + 8000000 * count / throttle <= match sleep_time throttle now count timestamp with Some _ => later | None => now end.
Proof using Ht.
  intros Hc Hts Hn. destruct (min_time count Hc) as (H1 & H2 & H3). unfold sleep_time. rewrite H1. rewrite (u64_small (now - timestamp)) by lia. destruct (Z.eqb_spec count 0) as [-> | Hne]; [cbn; rewrite Z.div_0_l by lia; lia |].
  destruct (Z.ltb_spec (now - timestamp) (8000000 * count / throttle)); cbn [slept]; [| lia]. rewrite u64_small by lia. lia.
Qed.

(** A sequence of reads that the parent answers: when the first one was made, how many there were and how many bytes were read before the last one. *)
Inductive reads : ThrottleStream -> Z -> Z -> Z -> ThrottleStream -> Prop :=
| reads_one s now later parent len c s' n : m_read s = 0 -> 0 <= now < 2 ^ 64 -> 0 < len -> ThrottleStream_read throttle now later parent len s = Ok (c, s') -> c_answer c = Ok n -> 0 <= n <= c_asked c -> reads s now 1 0 s'
| reads_more s start count bytes s1 now later parent len c s' n : reads s start count bytes s1 -> m_readTimestamp s1 <= now < 2 ^ 64 -> slept now later (c_sleep c) -> 0 <= later < 2 ^ 64 -> 0 < len ->
    ThrottleStream_read throttle now later parent len s1 = Ok (c, s') -> c_answer c = Ok n -> 0 <= n <= c_asked c -> reads s start (count + 1) (bytes + m_read s1) s'.

(** What one read does to the members. *)
Lemma read_members now later parent len s c s' n : 0 < len -> ThrottleStream_read throttle now later parent len s = Ok (c, s') -> c_answer c = Ok n ->
  c_sleep c = sleep_time throttle now (m_read s) (m_readTimestamp s) /\ c_asked c = throttle_len throttle len /\ m_read s' = n /\ m_readTimestamp s' = match c_sleep c with Some _ => later | None => now end.
Proof using Ht.
  intros Hl. unfold ThrottleStream_read. rewrite (proj2 (Z.eqb_neq len 0)) by lia. cbn [negb ASSERT]. step. replace (unthrottled throttle) with false by (unfold unthrottled; lia). intros [= <- <-]. cbn. intros ->. done.
Qed.

Lemma reads_bound s start count bytes s' : reads s start count bytes s' ->
  8000000 * bytes <= throttle * (m_readTimestamp s' - start + count - 1) /\ 0 <= m_read s' <= throttle / 80 /\ 0 <= start <= m_readTimestamp s' /\ m_readTimestamp s' < 2 ^ 64.
Proof using Ht.
  induction 1 as [s now later parent len c s' n H0 Hn Hl Hr Ha Hb | s start count bytes s1 now later parent len c s' n _ (IH1 & IH2 & IH3 & IH4) Hn Hs Hlat Hl Hr Ha Hb].
  - destruct (read_members _ _ _ _ _ _ _ _ Hl Hr Ha) as (S1 & S2 & S3 & S4). rewrite H0 in S1. cbn in S1. rewrite S1 in S4. destruct (throttle_len_bounds len Hl) as [H1 _]. lia.
  - destruct (read_members _ _ _ _ _ _ _ _ Hl Hr Ha) as (S1 & S2 & S3 & S4). rewrite S1 in Hs, S4. destruct (throttle_len_bounds len Hl) as [H1 _].
    pose proof (sleep_enough now later (m_read s1) (m_readTimestamp s1) IH2 ltac:(lia) ltac:(lia) Hs) as He. rewrite <-S4 in He.
    assert (Hm : 8000000 * m_read s1 < throttle * (8000000 * m_read s1 / throttle + 1)) by (pose proof (Z.mul_succ_div_gt (8000000 * m_read s1) throttle); lia).
    destruct (min_time (m_read s1) IH2) as (_ & _ & H3). split_and!; [nia | lia | lia | lia | lia |]. rewrite S4. destruct (sleep_time _ _ _ _); lia.
Qed.
End Rate.

(** C35 -- The throttle holds: for every throttle of 80 bits per second or more, the bits of all reads but the last are at most the throttle times the seconds from the first read to the last, up to a microsecond for each read, as long as
    the clock does not go back and sleeping takes as long as it is told to; and no read is of more than a tenth of a second's worth. *)
Theorem throttle_rate throttle s start count bytes s' : 80 <= throttle < 2 ^ 32 - 1 -> reads throttle s start count bytes s' ->
  8 * 1000000 * bytes <= throttle * (m_readTimestamp s' - start + count - 1) /\ 0 <= m_read s' <= throttle / 80.
Proof. intros Ht Hr. destruct (reads_bound throttle Ht _ _ _ _ _ Hr) as (H1 & H2 & _). split; [lia | done]. Qed.

(** Two reads of 100 bytes at 8000 bits per second, which wait a tenth of a second. *)
Lemma throttle_rate_witness : 8 * 1000000 * 100 <= 8000 * (100000 - 0 + 2 - 1).
Proof.
  assert (H1 : reads 8000 ThrottleStream_new 0 1 0 (mkThrottle 100 0 0 0)) by (eapply (reads_one 8000 _ 0 0 (fun n => Ok n) 1000); [done | lia | lia | vm_compute; reflexivity | done | cbn; lia]).
  assert (H2 : reads 8000 ThrottleStream_new 0 2 100 (mkThrottle 100 0 100000 0)).
  { apply (reads_more 8000 ThrottleStream_new 0 1 0 (mkThrottle 100 0 0 0) 10 100000 (fun n => Ok n) 1000 (mkCall (Some 99990) 100 (Ok 100)) _ 100 H1); [cbn; lia | cbn; lia | lia | lia | vm_compute; reflexivity | done | cbn; lia]. }
  exact (proj1 (throttle_rate 8000 _ _ _ _ _ ltac:(lia) H2)).
Defined.

(** Below 80 bits per second a byte still goes every tenth of a second. *)
Lemma slow_throttle : sleep_time 8 0 1 0 = Some 100000 /\ throttle_len 8 1000 = 1 /\ 1000000 * 8 / 8 = 1000000.
Proof. done. Qed.
