(* ===== verification/BrokerRequests.v ===== *)
(** The request brokers of [http/broker.cpp]: [BaseRequestBroker], which gets a connection and makes the request, and those that call the one below them in a loop, [RedirectRequestBroker] and [RetryRequestBroker].
    What is below a broker (the connection broker, the connection, the body of the request, the broker below) is an argument that may do anything. *)

From Stdlib Require Import String.
From stdpp Require Import numbers list_numbers list.
From S2P Require Import Prelude Http Uri.

(** ** Redirections *)

Definition MOVED_PERMANENTLY : Z := 301.
Definition FOUND : Z := 302.
Definition TEMPORARY_REDIRECT : Z := 307.

Record RedirectRequestBroker := mkRedirect { m_maxRedirects : Z; m_handle301 : bool; m_handle302 : bool; m_handle307 : bool }.
Definition RedirectRequestBroker_new (maxRedirects : Z) : RedirectRequestBroker := mkRedirect maxRedirects true true true.

Section Redirect.
Context {E : Type} (b : RedirectRequestBroker).

(** What the broker below does with a request for a URI: a response, of which the status and the location count and whether finishing the request throws, or an exception. *)
Inductive reply := Reply (status : Z) (location : Uri.URI) (finish : option E) | Raised (e : E).

Inductive redirect_result := Responds (status : Z) | Circular (uri : Uri.URI) | Rethrows (e : E) | Faults (f : fault).

(** Whether the status is a redirection, and whether that is handled. *)
Definition handles (status : Z) : bool :=
  if status =? FOUND then m_handle302 b
  else if status =? TEMPORARY_REDIRECT then m_handle307 b
  else if status =? MOVED_PERMANENTLY then m_handle301 b
  else false.

(** [parent] is given how often it was called before. *)
Context (parent : nat -> Uri.URI -> reply).

(** The loop, with the result, the URI that the headers of the request have afterwards and the URIs that were requested; [None] when the fuel runs out. *)
Fixpoint redirect_loop (fuel n : nat) (currentUri originalUri : Uri.URI) (uris : list Uri.URI) (redirects : Z) : option (redirect_result * Uri.URI * list Uri.URI) :=
  match fuel with
  | O => None
  | S fuel =>
      match parent n currentUri with
      | Raised e => Some (Rethrows e, originalUri, [currentUri])
      | Reply status location finish =>
          if handles status then
            let redirects := u64 (redirects + 1) in
            if redirects =? m_maxRedirects b then Some (Circular originalUri, originalUri, [currentUri])
            else
              match transform currentUri location with
              | Err f => Some (Faults f, originalUri, [currentUri])
              | Ok next =>
                  if existsb (fun u => URI_equal u next) uris then Some (Circular originalUri, originalUri, [currentUri])
                  else
                    let originalUri := if status =? MOVED_PERMANENTLY then next else originalUri in
                    match finish with
                    | Some e => Some (Rethrows e, originalUri, [currentUri])
                    | None =>
                        '(r, u, l) ← redirect_loop fuel (S n) next originalUri (uris ++ [next]) redirects;
                        Some (r, u, currentUri :: l)
                    end
              end
          else Some (Responds status, originalUri, [currentUri])
      end
  end.

Definition redirect_request (fuel : nat) (uri : Uri.URI) : option (redirect_result * Uri.URI * list Uri.URI) := redirect_loop fuel 0 uri uri [uri] 0.
End Redirect.
Arguments Reply {E}. Arguments Raised {E}. Arguments Responds {E}. Arguments Circular {E}. Arguments Rethrows {E}. Arguments Faults {E}.

(** ** Retries *)

(** Where an exception came from; [None] when it has no [errinfo_source]. *)
Inductive ExceptionSource := CONNECTION | HTTP.
Inductive retry_exn := SocketException | PriorRequestFailedException | PriorConnectionFailedException | UnexpectedEofException | AnotherException.
Inductive attempt_result := Succeeds | Throws (e : retry_exn) (source : option ExceptionSource).

#[global] Instance ExceptionSource_eq_dec : EqDecision ExceptionSource.
Proof. solve_decision. Defined.

(** Whether a request that ended with this exception may be made again, and whether the counter is incremented. *)
Definition retries_again (e : retry_exn) (source : option ExceptionSource) : bool :=
  match e, source with
  | SocketException, Some _ | PriorConnectionFailedException, Some _ => true
  | PriorRequestFailedException, Some HTTP | UnexpectedEofException, Some HTTP => true
  | _, _ => false
  end.
Definition counts (e : retry_exn) : bool := match e with SocketException | UnexpectedEofException => true | _ => false end.

Section Retry.
(** [delayDg] is [None] when none is given, and then nothing is counted; [parent] is given how often it was called before. *)
Context (delayDg : option (Z -> bool)) (parent : nat -> attempt_result).

(** The loop, with the result, the counter and the number of calls. *)
Fixpoint retry_loop (fuel n : nat) (retries : Z) : option (attempt_result * Z * nat) :=
  match fuel with
  | O => None
  | S fuel =>
      match parent n with
      | Succeeds => Some (Succeeds, 0, S n)
      | Throws e source =>
          if retries_again e source then
            match delayDg with
            | None => retry_loop fuel (S n) retries
            | Some dg =>
                let retries' := if counts e then u64 (retries + 1) else retries in
                if dg (u64 (retries + 1)) then retry_loop fuel (S n) retries' else Some (Throws e source, retries', S n)
            end
          else Some (Throws e source, retries, S n)
      end
  end.
End Retry.

(** ** The request itself *)

(** An exception, whether it is a [boost::exception], and its source; those that are not cannot be tagged with one. *)
Record thrown := mkThrown { t_exn : retry_exn; t_boost : bool; t_source : option ExceptionSource }.
Definition tag (source : ExceptionSource) (x : thrown) : thrown := if t_boost x then mkThrown (t_exn x) true (Some source) else x.

(** [doBody]: the exception of the body, if any, and whether it came from the stream of the request. *)
Definition doBody (body : option (thrown * bool)) : option thrown * bool :=
  match body with
  | None => (None, false)
  | Some (x, error) => (Some (if error then tag HTTP x else x), error)
  end.

(** The headers of the caller that are changed on the way, the URI of the request line and the host, and the URI that the connection was given. *)
Record headers := mkHeaders { h_uri : Uri.URI; h_host : option text; h_sent : option Uri.URI }.

(** Code that changes the headers and may end early, with a failed assertion or an exception. *)
Inductive ends := Asserted | Threw (x : thrown).
Definition hop (A : Type) : Type := headers -> (A + ends) * headers.

#[global] Instance hop_ret : MRet hop := fun A a h => (inl a, h).
#[global] Instance hop_bind : MBind hop := fun A B f m h => match m h with (inl a, h') => f a h' | (inr e, h') => (inr e, h') end.

Definition check_h (b : bool) : hop unit := fun h => (if b then inl tt else inr Asserted, h).
Definition throws {A} (x : thrown) : hop A := fun h => (inr (Threw x), h).
Definition catch_all {A} (m : hop A) (handler : thrown -> hop A) : hop A :=
  fun h => match m h with (inr (Threw x), h') => handler x h' | r => r end.
(** What something else throws, or gives. *)
Definition outer {A} (r : A + thrown) : hop A := match r with inl a => mret a | inr x => throws x end.

Definition put_uri (u : Uri.URI) : hop unit := fun h => (inl tt, mkHeaders u (h_host h) (h_sent h)).
Definition change_uri (f : Uri.URI -> Uri.URI) : hop unit := fun h => (inl tt, mkHeaders (f (h_uri h)) (h_host h) (h_sent h)).
Definition put_host (t : text) : hop unit := fun h => (inl tt, mkHeaders (h_uri h) (Some t) (h_sent h)).

Section Base.
(** [parse_authority]: assigning a text to an authority; [conn]: whether the connection for a URI is to a proxy, or what getting it threw; [send]: what making a request with these headers threw; [response]: what reading the response threw;
    [bodyDg]: when a body is given, what it does. *)
Context (parse_authority : text -> Authority + thrown) (conn : Uri.URI -> bool + thrown) (send : headers -> option thrown) (response : option thrown) (bodyDg : option (option (thrown * bool))).

(** A path whose second segment is empty starts with two slashes. *)
Definition two_slashes (p : list text) : bool := path_isAbsolute p && (2 <? zlen p) && bool_decide (p !! 1%nat = Some []).

(** [conn.first->request(requestHeaders)] and [doRequest]. *)
Definition send_request : hop unit := fun h => (match send h with None => inl tt | Some x => inr (Threw x) end, mkHeaders (h_uri h) (h_host h) (Some (h_uri h))).

(** From where the body has been started on: the response is read, and the body waited for. *)
Definition await_response : hop unit :=
  let '(exception, exceptionWasHttp) := match bodyDg with Some body => doBody body | None => (None, false) end in
  match response, exception with
  | Some _, Some x => throws x
  | Some x, None => throws x
  | None, Some x => if exceptionWasHttp then mret tt else throws x
  | None, None => mret tt
  end.

(** The [try] around the request. *)
Definition send_and_wait (originalUri : Uri.URI) : hop unit :=
  catch_all
    (catch_all send_request (fun x => throws (tag HTTP x)) ≫= fun _ =>
     put_uri originalUri ≫= fun _ =>
     await_response)
    (fun x => put_uri originalUri ≫= fun _ => throws x).

Definition base_request (connect : bool) : hop unit := fun h =>
  let originalUri := h_uri h in
  (check_h (m_hostDefined (authority originalUri)) ≫= fun _ =>
   (if negb connect then put_host (m_host (authority originalUri))
    else
      check_h (m_schemeDefined originalUri) ≫= fun _ =>
      check_h (bool_decide (m_scheme originalUri = str "http")) ≫= fun _ =>
      check_h (zlen (path originalUri) =? 2) ≫= fun _ =>
      put_uri URI_new ≫= fun _ =>
      outer (parse_authority (default [] (path originalUri !! 1%nat))) ≫= fun a =>
      change_uri (set_authority a)) ≫= fun _ =>
   (fun h => catch_all (outer (conn (if connect then originalUri else h_uri h))) (fun x => put_uri originalUri ≫= fun _ => throws (tag CONNECTION x)) h) ≫= fun proxied =>
   (if negb connect && negb proxied && negb (two_slashes (path originalUri)) then
      change_uri (set_schemeDefined false) ≫= fun _ => change_uri (fun u => set_authority (set_hostDefined false (authority u)) u)
    else mret tt) ≫= fun _ =>
   send_and_wait originalUri) h.
End Base.
