(* ===== verification/BrokerRequestsProps.v ===== *)
(** The theorems about redirections and retries. *)

From Stdlib Require Import String.
From stdpp Require Import numbers list_numbers list.
From S2P Require Import Prelude Http Uri UriProps BrokerRequests.

Section RedirectProps.
Context {E : Type} (b : RedirectRequestBroker) (parent : nat -> Uri.URI -> @reply E).

(** No URI of the list is equal to an earlier one. *)
Definition distinct (l : list Uri.URI) : Prop := ForallOrdPairs (fun u v => URI_equal u v = false) l.

(** The loop ends in this round. *)
Lemma redirect_ends (r : @redirect_result E) (u original : Uri.URI) (uris : list Uri.URI) (left : Z) : 0 < left -> (u = original \/ exists e : E, r = Rethrows e) -> (forall s, r = Responds s -> handles b s = false) ->
  Z.of_nat (length (@nil Uri.URI)) < left /\ distinct [] /\ (forall u v, u ∈ uris -> v ∈ @nil Uri.URI -> URI_equal u v = false) /\ (u = original \/ u ∈ @nil Uri.URI \/ exists e : E, r = Rethrows e) /\
  (forall s, r = Responds s -> handles b s = false).
Proof. intros Hl Hu Hs. split_and!; [cbn; lia | constructor | intros x y _ Hx; by apply not_elem_of_nil in Hx | tauto | done]. Qed.

(** What the loop comes to from a round on, of which [uris] have been visited, the last one now. *)
Lemma redirect_loop_spec fuel : forall n current original uris redirects, 1 <= m_maxRedirects b < 2 ^ 64 -> 0 <= redirects < m_maxRedirects b -> m_maxRedirects b - redirects <= Z.of_nat fuel ->
  exists r u l, redirect_loop b parent fuel n current original uris redirects = Some (r, u, current :: l) /\ Z.of_nat (length l) < m_maxRedirects b - redirects /\
    distinct l /\ (forall u v, u ∈ uris -> v ∈ l -> URI_equal u v = false) /\ (u = original \/ u ∈ l \/ exists e, r = Rethrows e) /\ (forall s, r = Responds s -> handles b s = false).
Proof.
  induction fuel as [| fuel IH]; intros n current original uris redirects Hm Hr Hf; [lia |]. cbn [redirect_loop].
  destruct (parent n current) as [status location finish | e]; [| eexists _, _, []; split; [reflexivity |]; apply redirect_ends; [lia | by left | done]].
  destruct (handles b status) eqn:Hh; [| eexists _, _, []; split; [reflexivity |]; apply redirect_ends; [lia | by left | by intros s [= <-]]].
  rewrite u64_small by lia.
  destruct (Z.eqb_spec (redirects + 1) (m_maxRedirects b)) as [_ | Hne]; [eexists _, _, []; split; [reflexivity |]; apply redirect_ends; [lia | by left | done] |].
  destruct (transform current location) as [next | f]; [| eexists _, _, []; split; [reflexivity |]; apply redirect_ends; [lia | by left | done]].
  destruct (existsb (fun u => URI_equal u next) uris) eqn:Hin; [eexists _, _, []; split; [reflexivity |]; apply redirect_ends; [lia | by left | done] |].
  destruct finish as [e |]; [eexists _, _, []; split; [reflexivity |]; apply redirect_ends; [lia | right; by exists e | done] |].
  destruct (IH (S n) next (if status =? MOVED_PERMANENTLY then next else original) (uris ++ [next]) (redirects + 1)) as (r & u & l & Hl & Hlen & Hnd & Hfresh & Hu & Hs); try done; try lia.
  rewrite Hl. cbn. exists r, u, (next :: l). split_and!; try done.
  - cbn. lia.
  - constructor; [| done]. apply Forall_forall. intros v Hv. apply Hfresh; [apply elem_of_app; right; by left | done].
  - intros x v Hx [-> | Hv]%elem_of_cons; [| apply Hfresh; [apply elem_of_app; by left | done]]. apply not_true_iff_false. intros He. apply not_true_iff_false in Hin. apply Hin, existsb_exists. exists x. split; [by apply list_elem_of_In | done].
  - destruct Hu as [Hu | [Hu | Hu]]; [| right; left; by right | right; by right]. destruct (status =? MOVED_PERMANENTLY); [right; left; rewrite Hu; by left | by left].
Qed.

(** C24 -- Following redirections ends, whatever the servers answer: for every limit that is not zero, a request takes at most that many requests, no URI is requested that is equal to one requested before,
    what is returned is not a redirection that is to be followed, and afterwards the headers have the URI that they had before or one of those that were requested, unless an exception came out. *)
Theorem redirect_terminates uri : 1 <= m_maxRedirects b < 2 ^ 64 ->
  exists r u l, redirect_request b parent (Z.to_nat (m_maxRedirects b)) uri = Some (r, u, l) /\ Z.of_nat (length l) <= m_maxRedirects b /\ ForallOrdPairs (fun u v => URI_equal u v = false) l /\
    (u ∈ l \/ exists e, r = Rethrows e) /\ (forall s, r = Responds s -> handles b s = false).
Proof.
  intros Hm. destruct (redirect_loop_spec (Z.to_nat (m_maxRedirects b)) 0 uri uri [uri] 0) as (r & u & l & Hl & Hlen & Hnd & Hfresh & Hu & Hs); try done; try lia.
  exists r, u, (uri :: l). split_and!; try done.
  - cbn. lia.
  - constructor; [| done]. apply Forall_forall. intros v Hv. apply Hfresh; [by left | done].
  - destruct Hu as [-> | [Hu | Hu]]; [left; by left | left; by right | by right].
Qed.
End RedirectProps.

(** [http://a/] and the like, and locations that are relative to it. *)
Definition host_uri (segment : text) : Uri.URI := set_path [[]; segment] (set_authority (set_host (str "a") Authority_new) (set_scheme (str "http") URI_new)).
Definition location (segment : text) : Uri.URI := set_path [segment] URI_new.

(** A chain of redirections that never ends, each to a longer path. *)
Lemma redirect_terminates_witness : exists r u l, redirect_request (RedirectRequestBroker_new 70) (fun n _ => @Reply unit FOUND (location (repeat 120 (S n))) None) 70 (host_uri []) = Some (r, u, l) /\ Z.of_nat (length l) <= 70.
Proof.
  destruct (redirect_terminates (RedirectRequestBroker_new 70) (fun n _ => @Reply unit FOUND (location (repeat 120 (S n))) None) (host_uri [])) as (r & u & l & H1 & H2 & _); [cbn; lia |].
  exists r, u, l. split; [exact H1 | exact H2].
Defined.

(** A URI that is moved for the time being to one that is moved for good: the headers have the last one afterwards, as if the first had been moved for good. *)
Lemma temporary_becomes_permanent :
  redirect_request (RedirectRequestBroker_new 70) (fun n _ => match n with O => @Reply unit FOUND (location (str "b")) None | S O => Reply MOVED_PERMANENTLY (location (str "c")) None | _ => Reply 200 URI_new None end) 3 (host_uri (str "a")) =
  Some (Responds 200, host_uri (str "c"), [host_uri (str "a"); host_uri (str "b"); host_uri (str "c")]).
Proof. vm_compute. reflexivity. Qed.

(** ** Retries *)

Section RetryProps.
Context (dg : Z -> bool) (parent : nat -> attempt_result) (limit : Z).
Context (Hlimit : forall k, limit <= k -> dg k = false) (Hcounted : forall n e source, parent n = Throws e source -> retries_again e source = true -> counts e = true).

(** When the delay function refuses from some number of retries on and only failures that are counted happen (no earlier request or connection is to blame), a request is tried at most that many times, counted
    from where the counter is; the counter is reset by a success, and an exception that comes out is one that must not be retried or that the delay function refused to. *)
Theorem retry_bounded fuel n retries : 0 <= retries <= limit -> limit < 2 ^ 64 - 1 -> limit - retries < Z.of_nat fuel ->
  exists r c m, retry_loop (Some dg) parent fuel n retries = Some (r, c, m) /\ (n < m)%nat /\ Z.of_nat (m - n) <= Z.max 1 (limit - retries) /\ (r = Succeeds -> c = 0) /\
    forall e source, r = Throws e source -> retries_again e source = false \/ dg c = false.
Proof using Hlimit Hcounted.
  revert n retries. induction fuel as [| fuel IH]; intros n retries Hr Hm Hf; [lia |]. cbn [retry_loop]. destruct (parent n) as [| e source] eqn:Hp.
  { eexists _, _, _. split; [reflexivity |]. split_and!; [lia | lia | done | done]. }
  destruct (retries_again e source) eqn:Ha; [| eexists _, _, _; split; [reflexivity |]; split_and!; [lia | lia | done |]; intros e' source' [= <- <-]; by left].
  rewrite (Hcounted n e source Hp Ha), u64_small by lia. destruct (dg (retries + 1)) eqn:Hd; [| eexists _, _, _; split; [reflexivity |]; split_and!; [lia | lia | done |]; intros e' source' _; by right].
  assert (Hlt : retries + 1 < limit) by (destruct (Z_lt_le_dec (retries + 1) limit) as [? | Hle]; [done | by rewrite (Hlimit _ Hle) in Hd]).
  destruct (IH (S n) (retries + 1)) as (r & c & m & Hl & Hnm & Hcount & Hz & He); [lia | lia | lia |]. exists r, c, m. split_and!; try done; lia.
Qed.
End RetryProps.

Lemma retry_bounded_witness : exists r c m, retry_loop (Some (fun k => k <? 3)) (fun _ => Throws SocketException (Some CONNECTION)) 4 0 0 = Some (r, c, m) /\ Z.of_nat m <= 3.
Proof.
  destruct (retry_bounded (fun k => k <? 3) (fun _ => Throws SocketException (Some CONNECTION)) 3) with (fuel := 4%nat) (n := 0%nat) (retries := 0) as (r & c & m & H1 & _ & H2 & _);
    [intros k Hk; apply Z.ltb_ge; lia | by intros n e source [= <- <-] | lia | lia | lia |].
  exists r, c, m. split; [exact H1 | rewrite Nat.sub_0_r in H2; lia].
Defined.

(** A failure of an earlier request is not counted: the delay function is asked the same question each time, and the loop does not end although it refuses from the second retry on. *)
Lemma uncounted_retries fuel n : retry_loop (Some (fun k => k <? 2)) (fun _ => Throws PriorRequestFailedException (Some HTTP)) fuel n 0 = None.
Proof. revert n. induction fuel as [| fuel IH]; intros n; [done |]. cbn [retry_loop retries_again counts]. replace (u64 (0 + 1) <? 2) with true by done. apply IH. Qed.

(** ** The request *)












Definition bad_authority : thrown := mkThrown AnotherException true None.


(** [CONNECT] to an authority that cannot be parsed: the caller's URI is gone. *)
Lemma connect_loses_uri : exists r h, let uri := set_path [[]; str "a b"] (set_scheme (str "http") (host_uri [])) in
  base_request (fun _ => inr bad_authority) (fun _ => inl false) (fun _ => None) None None true (mkHeaders uri None None) = (r, h) /\ r = inr (Threw bad_authority) /\ h_uri h = URI_new.
Proof. eexists _, _. split_and!; [vm_compute; reflexivity | reflexivity | reflexivity]. Qed.

(** An exception of reading the response is not tagged, so that [RetryRequestBroker] does not retry it, not even [PriorRequestFailedException]. *)
Lemma response_not_retried e uri host : m_hostDefined (authority uri) = true ->
  fst (base_request (fun _ => inr bad_authority) (fun _ => inl false) (fun _ => None) (Some (mkThrown e true None)) None false (mkHeaders uri host None)) = inr (Threw (mkThrown e true None)) /\ retries_again e None = false.
Proof. intros Hh. unfold base_request, check_h, mbind, hop_bind. cbn [h_uri]. rewrite Hh. cbn. split; [by destruct (two_slashes (path uri)) | by destruct e]. Qed.
